(* ===== verification/_CoqProject ===== *)
-Q . S2P
Prelude.v
Word.v
Arith.v
Instructions.v
VmTypes.v
FrameContext.v
Memory.v
EvmStack.v
Gasometer.v
SharedCache.v
Interpreter.v
StaticFrame.v
CopyData.v
MachineRules.v
StepSafety.v
Frame.v
FrameTheorems.v
Delta.v
WriteSets.v
MVHashMap.v
BlockStm.v
Manager.v
ManagerInv.v
ManagerSerial.v
ManagerLive.v
StateDb.v
SolidityAbi.v
AbiDecode.v
Events.v
WorldState.v
WorldSpec.v
WorldTypes.v
WorldCommit.v
Frames.v
FrameStack.v
Builtins.v
WorldLaws.v
Transact.v
TransactLaws.v
TransactSafety.v
TransactTheorems.v
Outcome.v
InternalContracts.v
InternalLaws.v
MoveHandler.v
EthTransaction.v
EthTheorems.v
EthSample.v
Position.v
Validators.v
LedgerTypes.v
Accumulator.v
ConsensusTypes.v
SafetyRules.v
Agreement.v
AgreementSample.v
