(* ===== verification/Prelude.v ===== *)
(** * HEMVM verification library

    HEMVM is a fork of the Aptos blockchain whose blocks hold Move transactions, Ethereum
    transactions and transactions that cross between the two. This library models the parts of
    the sources under src/ that decide what a block does to the state and what the validators
    commit to, and proves them correct.

    ** The program and its models

    A block is executed by the manager of src/aptos-move/block-executor/src/executor.rs, which
    scans it with one pointer per kind of transaction and feeds three worker threads
    (src/api/src/transactions.rs) over a shared cache of writes:
    - Manager: the manager, the channels and the workers, one step function per thread;
    - ManagerInv, ManagerSerial, ManagerLive: the invariant of all interleavings, that a block is
      serialized, that the manager returns under a fair scheduler.
    The same file has the Block-STM executor of Aptos, over a multi-version map:
    - Delta, WriteSets: aggregator deltas and write sets, and their squashing
      (aptos-aggregator, types/src/write_set.rs);
    - MVHashMap: the multi-version map (aptos-move/mvhashmap);
    - BlockStm: speculative execution, validation, recording, sequential execution (executor.rs,
      view.rs, txn_last_input_output.rs, output_delta_resolver.rs).

    Ethereum transactions run on the EVM of src/cfx-evm:
    - Word, Arith: machine words and the arithmetic of the instructions;
    - Instructions, EvmStack, Memory, Gasometer, SharedCache, Interpreter: the interpreter
      (src/cfx-evm/src/evm), one definition per function, an effectful method being a
      computation of the monad [M] over the record of what it mutates;
    - VmTypes: the types of src/cfx-evm/src/vm, the trait Context as a class and what the
      interpreter relies on as the class ContextLaws;
    - FrameContext: the implementation of that trait over the state;
    - MachineRules, StepSafety, Frame, FrameTheorems: weakest preconditions, the invariant of a
      frame, and the theorems about its steps, its termination and its resumption;
    - StaticFrame, CopyData: frames that must not change anything, and the copying of data.

    The state of the EVM is a cache of accounts over a database, which is an overlay over the
    state of the chain:
    - StateDb: keys, stores, typed access, the overlay and what it drains into
      (src/cfx-evm/backend, src/aptos-move/ethereum-vm/src/state.rs);
    - WorldState: accounts, their cache, checkpoints and commit (src/cfx-evm/src/state);
    - WorldSpec: its specification, a world copied at every checkpoint, and the refinement;
    - WorldTypes, WorldCommit: types of what it holds and answers; what a commit persists;
    - SolidityAbi, Events: the Solidity ABI and EVM logs as Move events.

    Validators agree on the blocks (src/consensus) and clients check what they committed to
    (src/types/src/proof):
    - Position, Accumulator: positions of tree nodes, the Merkle accumulator and its proofs;
    - Validators, LedgerTypes, ConsensusTypes: aggregated signatures and quorums, ledger infos
      and epoch changes, certificates, votes and blocks;
    - SafetyRules: the part of a validator that decides what to sign;
    - Agreement, AgreementSample: validators running the safety rules with others that do
      anything but forge signatures, and a concrete run.

    ** What the theorems show

    Blocks: outputs of the manager are those of executing the block one transaction at a time
    in the order results came in, which keeps the block's order within a kind of transaction; it
    returns under every fair schedule; it does not when a worker panics; a cross-space batch
    runs alone. A Block-STM run whose recorded reads are valid commits the outputs of sequential
    execution; multi-version reads replay the writes below them; deltas and change sets compose.

    EVM: from its invariant a frame takes only steps that do not panic (one instruction
    excepted: BLOCKHASH of the largest word) and strictly consume gas, so that it terminates;
    traps and resumptions keep the invariant; static frames change nothing; instructions compute
    what they stand for; jump destinations are exactly those of the decoded code; gas for memory
    is the exact quadratic cost.

    State: the world state with its caches and journals refines the machine that copies the world
    at each checkpoint; commits persist exactly what it showed; operations are typed; the ABI and
    events round trip; drained writes materialize the overlay.

    Consensus: certificates of an epoch never commit conflicting blocks. Accumulators are Merkle
    trees, inclusion proofs sound and complete.

    ** Conventions

    Integers are [Z] with their widths written out: an operator that panics on overflow is
    [checked_add] and the like, a wrapping one says so. [result] has Rust's Ok and Err and the
    outcome Panic. Code that is not under src/ (hash functions, RLP, BCS, BLS signatures, the
    LRU cache, secure storage, the Move VM) is a class or a parameter with the documented
    behaviour as named laws, and every theorem that uses laws has an instance that satisfies
    them. Fuel appears where a loop is not structural: [exec] of the interpreter, which
    [exec_terminates] shows needs one step more than the gas of the frame; the loops of the
    accumulator and of positions over the 64 bits of a word, whose fuel is 64 or 65 iterations,
    one per bit.

    ** Not modelled

    Networking, state synchronization, the mempool, the REST API but for the workers, telemetry,
    configuration, command line tools, SDKs, deployment and test suites: input and output, or
    code the models need nothing of. The Move VM and its framework are third-party or Move
    sources; here a transaction is a program over the values it fetches. Of storage: the
    database, the Jellyfish Merkle tree and the sparse Merkle tree. Of consensus: the
    round manager, block store, leader election, quorum store and recovery. Of the EVM: builtin
    and internal contracts, observers and gas estimation. Of the Block-STM executor: the
    scheduler; its theorem is about any run that ends with valid reads recorded. *)

From stdpp Require Export base option list numbers.
From Stdlib Require Export ZArith Lia.

(** ** Rust results, panics and the error/state monad *)

(** The outcome of a fallible Rust expression: [Ok], [Err], or a panic (an out of range
    slice, an [expect] on [None], a failed [assert!], an arithmetic overflow of a type
    whose operators check for it). *)
Inductive result (E A : Type) : Type :=
| Ok (a : A)
| Err (e : E)
| Panic.

Arguments Ok {E A} _.
Arguments Err {E A} _.
Arguments Panic {E A}.

Definition result_bind {E A B} (r : result E A) (k : A -> result E B) : result E B :=
  match r with
  | Ok a => k a
  | Err e => Err e
  | Panic => Panic
  end.

(** A computation that mutates a state [S]: a method taking [&mut self]. *)
Definition M (E S A : Type) : Type := S -> result E A * S.

Definition ret {E S A} (a : A) : M E S A := fun s => (Ok a, s).
Definition throw {E S A} (e : E) : M E S A := fun s => (Err e, s).
Definition panic {E S A} : M E S A := fun s => (Panic, s).
Definition get {E S} : M E S S := fun s => (Ok s, s).
Definition modify {E S} (f : S -> S) : M E S unit := fun s => (Ok tt, f s).
Definition lift {E S A} (r : result E A) : M E S A := fun s => (r, s).
Definition bind {E S A B} (m : M E S A) (k : A -> M E S B) : M E S B :=
  fun s =>
    match m s with
    | (Ok a, s') => k a s'
    | (Err e, s') => (Err e, s')
    | (Panic, s') => (Panic, s')
    end.

Declare Scope rust_scope.
Delimit Scope rust_scope with rust.

Notation "'let?' x ':=' r 'in' k" := (result_bind r (fun x => k))
  (at level 10, x name, r at level 100, k at level 200) : rust_scope.
Notation "'let?' ' p ':=' r 'in' k" := (result_bind r (fun x => match x with p => k end))
  (at level 10, p strict pattern, r at level 100, k at level 200) : rust_scope.
Notation "x '<~' m ';;' k" := (bind m (fun x => k))
  (at level 100, m at next level, right associativity) : rust_scope.
Notation "m ';;;' k" := (bind m (fun _ => k))
  (at level 100, right associativity) : rust_scope.

Open Scope rust_scope.
Open Scope Z_scope.

(** ** Weakest preconditions

    [rwp r Q R]: the result [r] is not a panic, [Q] holds of its value if it is [Ok] and
    [R] of its error if it is [Err]. [wp m s Q R] says the same of running [m] from [s]. *)
Definition rwp {E A} (r : result E A) (Q : A -> Prop) (R : E -> Prop) : Prop :=
  match r with
  | Ok a => Q a
  | Err e => R e
  | Panic => False
  end.

Definition wp {E S A} (m : M E S A) (s : S) (Q : A -> S -> Prop) (R : E -> S -> Prop) : Prop :=
  rwp (fst (m s)) (fun a => Q a (snd (m s))) (fun e => R e (snd (m s))).

(** ** Slices of byte vectors: [&v[a..b]] panics unless [a <= b <= v.len()]. *)

Definition len {A} (l : list A) : Z := Z.of_nat (length l).

Definition slice {A} (l : list A) (a b : Z) : option (list A) :=
  if (0 <=? a) && (a <=? b) && (b <=? len l)
  then Some (take (Z.to_nat (b - a)) (drop (Z.to_nat a) l))
  else None.

(** [v[a..a + s.len()].copy_from_slice(s)] *)
Definition copy_at {A} (l : list A) (a : Z) (s : list A) : option (list A) :=
  if (0 <=? a) && (a + len s <=? len l)
  then Some (take (Z.to_nat a) l ++ s ++ drop (Z.to_nat (a + len s)) l)
  else None.

(** Rust's [v[i]]. *)
Definition index {A} (l : list A) (i : Z) : option A :=
  if 0 <=? i then l !! Z.to_nat i else None.

Definition unwrap {E A} (o : option A) : result E A :=
  match o with Some a => Ok a | None => Panic end.

Lemma rwp_bind {E A B} (r : result E A) (k : A -> result E B) Q R :
  rwp r (fun a => rwp (k a) Q R) R -> rwp (result_bind r k) Q R.
Proof. by destruct r. Qed.

Lemma rwp_mono {E A} (r : result E A) (Q Q' : A -> Prop) (R R' : E -> Prop) :
  rwp r Q R -> (forall a, Q a -> Q' a) -> (forall e, R e -> R' e) -> rwp r Q' R'.
Proof. destruct r; simpl; auto. Qed.

Lemma rwp_Ok_inv {E A} (r : result E A) (Q : A -> Prop) (R : E -> Prop) a :
  rwp r Q R -> r = Ok a -> Q a.
Proof. by intros H ->. Qed.

Section wp_rules.
Context {E S : Type}.

Lemma wp_ret {A} (a : A) (s : S) (Q : A -> S -> Prop) (R : E -> S -> Prop) :
  Q a s -> wp (ret a) s Q R.
Proof. done. Qed.

Lemma wp_throw {A} (e : E) (s : S) (Q : A -> S -> Prop) (R : E -> S -> Prop) :
  R e s -> wp (throw e) s Q R.
Proof. done. Qed.

Lemma wp_get (s : S) (Q : S -> S -> Prop) (R : E -> S -> Prop) : Q s s -> wp get s Q R.
Proof. done. Qed.

Lemma wp_modify (f : S -> S) (s : S) (Q : unit -> S -> Prop) (R : E -> S -> Prop) :
  Q tt (f s) -> wp (modify f) s Q R.
Proof. done. Qed.

Lemma wp_lift {A} (r : result E A) (s : S) (Q : A -> S -> Prop) (R : E -> S -> Prop) :
  rwp r (fun a => Q a s) (fun e => R e s) -> wp (lift r) s Q R.
Proof. by destruct r. Qed.

Lemma wp_bind {A B} (m : M E S A) (k : A -> M E S B) (s : S) Q R :
  wp m s (fun a s' => wp (k a) s' Q R) R -> wp (bind m k) s Q R.
Proof. unfold wp, bind. by destruct (m s) as [[] ?]. Qed.

Lemma wp_bind_eq {A B} (m : M E S A) (k : A -> M E S B) (s : S) r s' (Q : B -> S -> Prop) (R : E -> S -> Prop) :
  m s = (r, s') -> rwp r (fun a => wp (k a) s' Q R) (fun e => R e s') -> wp (bind m k) s Q R.
Proof. intros H. unfold wp, bind. rewrite H. by destruct r. Qed.

Lemma wp_mono {A} (m : M E S A) (s : S) (Q Q' : A -> S -> Prop) (R R' : E -> S -> Prop) :
  wp m s Q R -> (forall a s', Q a s' -> Q' a s') -> (forall e s', R e s' -> R' e s') ->
  wp m s Q' R'.
Proof. intros H HQ HR. eapply rwp_mono; [exact H | auto | auto]. Qed.

Lemma wp_conj {A} (m : M E S A) (s : S) (Q Q' : A -> S -> Prop) (R R' : E -> S -> Prop) :
  wp m s Q R -> wp m s Q' R' -> wp m s (fun a s' => Q a s' /\ Q' a s') (fun e s' => R e s' /\ R' e s').
Proof. unfold wp. by destruct (fst (m s)). Qed.

Lemma wp_also {A} (m : M E S A) (s : S) (Q Q' : A -> S -> Prop) (R : E -> S -> Prop) :
  wp m s Q R -> (forall a s', m s = (Ok a, s') -> Q' a s') -> wp m s (fun a s' => Q a s' /\ Q' a s') R.
Proof. unfold wp. intros Hm Ha. destruct (m s) as [[] s']; [| done | done]. split; [done | by apply Ha]. Qed.
End wp_rules.

(** ** Lists and slices *)

Lemma len_nonneg {A} (l : list A) : 0 <= len l.
Proof. unfold len; lia. Qed.

Lemma len_app {A} (l k : list A) : len (l ++ k) = len l + len k.
Proof. unfold len; rewrite length_app; lia. Qed.

Lemma len_cons {A} (a : A) (l : list A) : len (a :: l) = 1 + len l.
Proof. unfold len; simpl; lia. Qed.

Lemma len_nil {A} : len ([] : list A) = 0.
Proof. done. Qed.

Lemma len_replicate {A} n (a : A) : len (replicate n a) = Z.of_nat n.
Proof. unfold len; rewrite length_replicate; lia. Qed.

Lemma len_zero_nil {A} (l : list A) : len l = 0 -> l = [].
Proof. destruct l; [done | rewrite len_cons; pose proof (len_nonneg l); lia]. Qed.

Lemma slice_Some {A} (l : list A) a b :
  0 <= a -> a <= b -> b <= len l ->
  slice l a b = Some (take (Z.to_nat (b - a)) (drop (Z.to_nat a) l)).
Proof.
  intros. unfold slice.
  rewrite (proj2 (Z.leb_le 0 a)), (proj2 (Z.leb_le a b)), (proj2 (Z.leb_le b (len l))) by lia.
  done.
Qed.

Lemma slice_inv {A} (l s : list A) a b :
  slice l a b = Some s ->
  0 <= a /\ a <= b /\ b <= len l /\ s = take (Z.to_nat (b - a)) (drop (Z.to_nat a) l).
Proof.
  unfold slice. destruct (_ && _ && _) eqn:E; [| done].
  intros [= <-]. repeat split; lia.
Qed.

Lemma len_slice {A} (l s : list A) a b : slice l a b = Some s -> len s = b - a.
Proof.
  intros (? & ? & Hb & ->)%slice_inv. unfold len in *.
  rewrite length_take, length_drop. lia.
Qed.

Lemma slice_lookup {A} (l s : list A) a b (i : Z) :
  slice l a b = Some s -> 0 <= i < b - a -> s !! Z.to_nat i = l !! Z.to_nat (a + i).
Proof.
  intros (? & ? & Hb & ->)%slice_inv Hi.
  rewrite lookup_take_lt, lookup_drop by lia. f_equal. lia.
Qed.

Lemma slice_full {A} (l : list A) : slice l 0 (len l) = Some l.
Proof.
  pose proof (len_nonneg l). rewrite slice_Some by lia.
  rewrite drop_0, take_ge; [done | unfold len; lia].
Qed.

Lemma copy_at_Some {A} (l s : list A) a :
  0 <= a -> a + len s <= len l ->
  copy_at l a s = Some (take (Z.to_nat a) l ++ s ++ drop (Z.to_nat (a + len s)) l).
Proof.
  intros. unfold copy_at.
  rewrite (proj2 (Z.leb_le 0 a)), (proj2 (Z.leb_le (a + len s) (len l))) by lia. done.
Qed.

Lemma copy_at_inv {A} (l s l' : list A) a :
  copy_at l a s = Some l' ->
  0 <= a /\ a + len s <= len l /\ l' = take (Z.to_nat a) l ++ s ++ drop (Z.to_nat (a + len s)) l.
Proof.
  unfold copy_at. destruct (_ && _) eqn:E; [| done]. intros [= <-]. repeat split; lia.
Qed.

Lemma len_copy_at {A} (l s l' : list A) a : copy_at l a s = Some l' -> len l' = len l.
Proof.
  intros (? & ? & ->)%copy_at_inv. unfold len in *.
  rewrite !length_app, length_take, length_drop. lia.
Qed.

(** A write is read back where it was made and leaves the rest alone. *)
Lemma copy_at_lookup {A} (l s l' : list A) a (i : Z) :
  copy_at l a s = Some l' -> 0 <= i ->
  l' !! Z.to_nat i =
    if (a <=? i) && (i <? a + len s) then s !! Z.to_nat (i - a) else l !! Z.to_nat i.
Proof.
  intros (Ha & Hs & ->)%copy_at_inv Hi. unfold len in *.
  destruct (a <=? i) eqn:E1; simpl.
  - apply Z.leb_le in E1.
    rewrite lookup_app_r by (rewrite length_take; lia).
    rewrite length_take.
    replace (Z.to_nat i - _)%nat with (Z.to_nat (i - a)) by lia.
    destruct (i <? _) eqn:E2.
    + apply lookup_app_l. lia.
    + apply Z.ltb_ge in E2.
      rewrite lookup_app_r by lia. rewrite lookup_drop. f_equal. lia.
  - apply Z.leb_gt in E1.
    rewrite lookup_app_l by (rewrite length_take; lia).
    apply lookup_take_lt. lia.
Qed.

(** ** Automation *)

Create HintDb hemvm.

(** Turns boolean comparisons into propositions. *)
Ltac b2p :=
  repeat match goal with
  | H : (_ && _) = true |- _ => apply andb_true_iff in H as [? ?]
  | H : (_ || _) = false |- _ => apply orb_false_iff in H as [? ?]
  | H : (_ <? _) = true |- _ => apply Z.ltb_lt in H
  | H : (_ <? _) = false |- _ => apply Z.ltb_ge in H
  | H : (_ <=? _) = true |- _ => apply Z.leb_le in H
  | H : (_ <=? _) = false |- _ => apply Z.leb_gt in H
  | H : (_ =? _) = true |- _ => apply Z.eqb_eq in H
  | H : (_ =? _) = false |- _ => apply Z.eqb_neq in H
  | H : negb _ = true |- _ => apply negb_true_iff in H
  | H : negb _ = false |- _ => apply negb_false_iff in H
  end.

(** Splits the first [if] on a boolean comparison met in the goal. *)
Ltac case_if :=
  match goal with
  | |- context [if ?b then _ else _] => destruct b eqn:?; b2p
  end.
