(* ===== verification/Word.v ===== *)
(** * Machine words

    The unsigned integers of the sources: [usize] and [u64] at 64 bits, [U256] at 256 bits
    (and [U512], [U128] where the code widens). A word is a [Z] with its range written out:
    [is_usize], [is_u256]. The Rust operators [+ - *] of these types check for overflow
    (they are [checked_*] below); the [overflowing_*] methods wrap and report it.
    Bytes are [Byte.byte]; words convert to and from big-endian byte strings. *)

From S2P Require Import Prelude.
From Stdlib Require Export Init.Byte Strings.Byte.

Definition is_word (w x : Z) : Prop := 0 <= x < 2 ^ w.
Abbreviation is_u256 := (is_word 256).
Abbreviation is_usize := (is_word 64).

Definition overflowing_add (w a b : Z) : Z * bool := ((a + b) mod 2 ^ w, 2 ^ w <=? a + b).
Definition overflowing_mul (w a b : Z) : Z * bool := ((a * b) mod 2 ^ w, 2 ^ w <=? a * b).
Definition overflowing_sub (w a b : Z) : Z * bool := ((a - b) mod 2 ^ w, a <? b).
Definition saturating_add (w a b : Z) : Z := Z.min (2 ^ w - 1) (a + b).

Definition checked_add {E} (w a b : Z) : result E Z :=
  if a + b <? 2 ^ w then Ok (a + b) else Panic.
Definition checked_sub {E} (a b : Z) : result E Z := if b <=? a then Ok (a - b) else Panic.
Definition checked_mul {E} (w a b : Z) : result E Z :=
  if a * b <? 2 ^ w then Ok (a * b) else Panic.

(** [x << n] of a [w]-bit word drops the bits shifted out; [!x] is the complement. *)
Definition shl (w x n : Z) : Z := Z.shiftl x n mod 2 ^ w.
Definition shr (x n : Z) : Z := Z.shiftr x n.
Definition bnot (w x : Z) : Z := 2 ^ w - 1 - x.

Definition low_u64 (x : Z) : Z := x mod 2 ^ 64.

(** ** Bytes *)

Definition byte_to_Z (b : byte) : Z := Z.of_N (Byte.to_N b).
Definition byte_of_Z (z : Z) : byte := default x00 (Byte.of_N (Z.to_N (z mod 256))).

(** [U256::from(&[u8])]: the value of a big-endian byte string. *)
Definition be_to_Z (l : list byte) : Z := foldl (fun acc b => acc * 256 + byte_to_Z b) 0 l.

(** [to_big_endian] into a buffer of [n] bytes. *)
Fixpoint to_be (n : nat) (x : Z) : list byte :=
  match n with
  | O => []
  | S n => to_be n (x / 256) ++ [byte_of_Z x]
  end.

(** ** Lemmas *)

Lemma byte_to_Z_bound b : 0 <= byte_to_Z b < 256.
Proof. unfold byte_to_Z. pose proof (Byte.to_N_bounded b). lia. Qed.

Lemma byte_of_Z_to_Z b : byte_of_Z (byte_to_Z b) = b.
Proof.
  unfold byte_of_Z. rewrite Z.mod_small by apply byte_to_Z_bound.
  unfold byte_to_Z. rewrite N2Z.id, Byte.of_to_N. done.
Qed.

Lemma byte_to_of_Z z : byte_to_Z (byte_of_Z z) = z mod 256.
Proof.
  unfold byte_of_Z, byte_to_Z.
  assert (0 <= z mod 256 < 256) by (apply Z.mod_pos_bound; lia).
  destruct (Byte.of_N (Z.to_N (z mod 256))) eqn:E; simpl.
  - apply Byte.to_of_N in E. rewrite E. lia.
  - apply Byte.of_N_None_iff in E. lia.
Qed.

Lemma be_to_Z_snoc l b : be_to_Z (l ++ [b]) = be_to_Z l * 256 + byte_to_Z b.
Proof. unfold be_to_Z. by rewrite foldl_app. Qed.

Lemma be_to_Z_bound l : 0 <= be_to_Z l < 256 ^ len l.
Proof.
  induction l as [| b l IH] using rev_ind; [done |].
  rewrite be_to_Z_snoc, len_app. change (len [b]) with 1.
  pose proof (byte_to_Z_bound b). pose proof (len_nonneg l).
  rewrite Z.pow_add_r by lia. lia.
Qed.

Lemma length_to_be n x : length (to_be n x) = n.
Proof. revert x. induction n; intros; simpl; [done |]. rewrite length_app, IHn. simpl. lia. Qed.

Lemma len_to_be n x : len (to_be n x) = Z.of_nat n.
Proof. unfold len. by rewrite length_to_be. Qed.

Lemma be_to_Z_to_be n x : be_to_Z (to_be n x) = x mod 256 ^ Z.of_nat n.
Proof.
  revert x. induction n; intros x.
  - simpl. by rewrite Z.mod_1_r.
  - cbn [to_be]. rewrite be_to_Z_snoc, IHn, byte_to_of_Z, Nat2Z.inj_succ, Z.pow_succ_r by lia.
    rewrite (Z.mul_comm 256), (Z.mul_comm _ 256).
    rewrite (Z.mul_comm _ 256), Z.rem_mul_r by lia. lia.
Qed.

Lemma to_be_to_Z l : to_be (length l) (be_to_Z l) = l.
Proof.
  induction l as [| b l IH] using rev_ind; [done |].
  rewrite length_app, be_to_Z_snoc. simpl.
  replace (length l + 1)%nat with (S (length l)) by lia. cbn [to_be].
  pose proof (byte_to_Z_bound b).
  rewrite Z.div_add_l by lia. rewrite Z.div_small, Z.add_0_r, IH by lia.
  do 2 f_equal. unfold byte_of_Z. rewrite Z.add_comm, Z.mod_add, Z.mod_small by lia.
  unfold byte_to_Z. rewrite N2Z.id, Byte.of_to_N. done.
Qed.

Lemma be_to_Z_u256 l : len l <= 32 -> is_u256 (be_to_Z l).
Proof.
  intros Hl. pose proof (be_to_Z_bound l). split; [lia |].
  eapply Z.lt_le_trans; [apply H |].
  change (2 ^ 256) with (256 ^ 32). apply Z.pow_le_mono_r; lia.
Qed.

Lemma be_to_Z_to_be_32 x : is_u256 x -> be_to_Z (to_be 32 x) = x.
Proof. intros H. rewrite be_to_Z_to_be. apply Z.mod_small. exact H. Qed.

Lemma is_word_mod w x : 0 <= w -> is_word w (x mod 2 ^ w).
Proof. intros. apply Z.mod_pos_bound. lia. Qed.

Lemma is_word_0 w : 0 <= w -> is_word w 0.
Proof. intros. split; [lia |]. apply Z.pow_pos_nonneg; lia. Qed.

Lemma is_word_1 w : 0 < w -> is_word w 1.
Proof. intros. split; [lia |]. apply Z.pow_gt_1; lia. Qed.

Lemma is_word_le w x y : is_word w y -> 0 <= x <= y -> is_word w x.
Proof. unfold is_word. lia. Qed.

Lemma is_word_mono w w' x : 0 <= w <= w' -> is_word w x -> is_word w' x.
Proof.
  intros Hw [Hx Hx']. split; [lia |].
  eapply Z.lt_le_trans; [exact Hx' |]. apply Z.pow_le_mono_r; lia.
Qed.

Lemma low_u64_bound x : is_usize (low_u64 x).
Proof. apply is_word_mod. lia. Qed.

Lemma low_u64_small x : is_usize x -> low_u64 x = x.
Proof. intros. by apply Z.mod_small. Qed.

(** A word is small exactly when its high bits are clear: the bitwise view of [is_word]. *)
Lemma is_word_testbit w x :
  0 <= w -> is_word w x <-> (0 <= x /\ forall i, w <= i -> Z.testbit x i = false).
Proof.
  intros Hw. split.
  - intros [H0 H1]. split; [done |]. intros i Hi.
    destruct (Z.eq_dec x 0) as [-> |]; [apply Z.bits_0 |].
    apply Z.bits_above_log2; [done |].
    apply Z.lt_le_trans with w; [| done]. apply Z.log2_lt_pow2; lia.
  - intros [H0 Hb]. split; [done |].
    assert (x = x mod 2 ^ w) as E.
    { apply Z.bits_inj'. intros i Hi. rewrite <- Z.land_ones by lia.
      rewrite Z.land_spec. destruct (Z.lt_ge_cases i w).
      - rewrite Z.ones_spec_low by lia. by rewrite andb_true_r.
      - rewrite Hb by lia. done. }
    pose proof (Z.mod_pos_bound x (2 ^ w) ltac:(lia)). lia.
Qed.

Section bitwise_words.
Context (w : Z) (Hw : 0 <= w).

Lemma is_word_land x y : is_word w x -> is_word w y -> is_word w (Z.land x y).
Proof.
  rewrite !is_word_testbit by done. intros [Hx Hx'] [Hy Hy'].
  split; [apply Z.land_nonneg; auto |]. intros i Hi. by rewrite Z.land_spec, Hx'.
Qed.

Lemma is_word_lor x y : is_word w x -> is_word w y -> is_word w (Z.lor x y).
Proof.
  rewrite !is_word_testbit by done. intros [Hx Hx'] [Hy Hy'].
  split; [apply Z.lor_nonneg; auto |]. intros i Hi. by rewrite Z.lor_spec, Hx', Hy'.
Qed.

Lemma is_word_lxor x y : is_word w x -> is_word w y -> is_word w (Z.lxor x y).
Proof.
  rewrite !is_word_testbit by done. intros [Hx Hx'] [Hy Hy'].
  split; [apply Z.lxor_nonneg; tauto |]. intros i Hi. by rewrite Z.lxor_spec, Hx', Hy'.
Qed.

Lemma is_word_shiftr x n : 0 <= n -> is_word w x -> is_word w (Z.shiftr x n).
Proof.
  intros Hn [H0 H1]. rewrite Z.shiftr_div_pow2 by done.
  assert (0 < 2 ^ n) by (apply Z.pow_pos_nonneg; lia).
  split; [apply Z.div_pos; lia |].
  eapply Z.le_lt_trans; [| exact H1]. apply Z.div_le_upper_bound; nia.
Qed.

Lemma is_word_bnot x : is_word w x -> is_word w (bnot w x).
Proof. unfold is_word, bnot. lia. Qed.

Lemma bnot_testbit x i :
  is_word w x -> 0 <= i < w -> Z.testbit (bnot w x) i = negb (Z.testbit x i).
Proof.
  intros Hx Hi. unfold bnot.
  replace (2 ^ w - 1 - x) with (Z.ldiff (Z.ones w) x).
  - rewrite Z.ldiff_spec, Z.ones_spec_low by lia. done.
  - rewrite Z.ones_equiv. rewrite <- Z.sub_nocarry_ldiff; [lia |].
    apply Z.bits_inj'. intros j Hj. rewrite Z.ldiff_spec, Z.bits_0.
    destruct (Z.lt_ge_cases j w).
    + rewrite <- Z.ones_equiv, Z.ones_spec_low by lia. by rewrite andb_false_r.
    + rewrite (proj2 (proj1 (is_word_testbit w x Hw) Hx)) by lia. done.
Qed.
End bitwise_words.

#[export] Hint Resolve is_word_0 is_word_1 is_word_mod is_word_land is_word_lor is_word_lxor
  is_word_shiftr is_word_bnot low_u64_bound len_nonneg : hemvm.
