(* ===== verification/Arith.v ===== *)
(** * EVM word arithmetic

    The arithmetic, comparison and bitwise arms of [Interpreter::exec_instruction]
    (src/cfx-evm/src/evm/interpreter/mod.rs), one function per arm from the operands popped
    to the word pushed, with the sign helpers they share. The theorems compare each arm with
    the operation the instruction stands for: integer division for the shift-optimised [DIV],
    truncated signed division and remainder for [SDIV] and [SMOD], the order of the signed
    values for [SLT] and [SGT], the floor of a signed division by a power of two for [SAR]. *)

From S2P Require Import Prelude Word.

(** [U256([a, b, c, d])]: four 64-bit limbs, least significant first. *)
Definition U256 (a b c d : Z) : Z := a + b * 2 ^ 64 + c * 2 ^ 128 + d * 2 ^ 192.

Definition ONE : Z := U256 1 0 0 0.
Definition TWO : Z := U256 2 0 0 0.
Definition TWO_POW_5 : Z := U256 0x20 0 0 0.
Definition TWO_POW_8 : Z := U256 0x100 0 0 0.
Definition TWO_POW_16 : Z := U256 0x10000 0 0 0.
Definition TWO_POW_24 : Z := U256 0x1000000 0 0 0.
Definition TWO_POW_64 : Z := U256 0 0x1 0 0.
Definition TWO_POW_96 : Z := U256 0 0x100000000 0 0.
Definition TWO_POW_224 : Z := U256 0 0 0 0x100000000.
Definition TWO_POW_248 : Z := U256 0 0 0 0x100000000000000.

Definition CONST_256 : Z := U256 256 0 0 0.
Definition CONST_HIBIT : Z := U256 0 0 0 0x8000000000000000.

Definition bool_to_u256 (val : bool) : Z := if val then 1 else 0.

(** [u64::leading_zeros] *)
Definition leading_zeros64 (x : Z) : Z := if x =? 0 then 64 else 63 - Z.log2 x.

Definition set_sign (value : Z) (sign : bool) : Z :=
  if sign then fst (overflowing_add 256 (Z.lxor (bnot 256 0) value) 1) else value.

Definition get_and_reset_sign (value : Z) : Z * bool :=
  let sign := leading_zeros64 (Z.shiftr value 192) =? 0 in
  (set_sign value sign, sign).

(** An [Address] is the low 20 bytes of a word. *)
Definition u256_to_address (value : Z) : Z := value mod 2 ^ 160.
Definition address_to_u256 (value : Z) : Z := value.

Definition op_add (a b : Z) : Z := fst (overflowing_add 256 a b).
Definition op_mul (a b : Z) : Z := fst (overflowing_mul 256 a b).
Definition op_sub (a b : Z) : Z := fst (overflowing_sub 256 a b).

Definition op_div (a b : Z) : Z :=
  if negb (b =? 0) then
    if b =? ONE then a
    else if b =? TWO then shr a 1
    else if b =? TWO_POW_5 then shr a 5
    else if b =? TWO_POW_8 then shr a 8
    else if b =? TWO_POW_16 then shr a 16
    else if b =? TWO_POW_24 then shr a 24
    else if b =? TWO_POW_64 then shr a 64
    else if b =? TWO_POW_96 then shr a 96
    else if b =? TWO_POW_224 then shr a 224
    else if b =? TWO_POW_248 then shr a 248
    else a / b
  else 0.

Definition op_mod (a b : Z) : Z := if negb (b =? 0) then a mod b else 0.

Definition op_sdiv (ua ub : Z) : Z :=
  let '(a, sign_a) := get_and_reset_sign ua in
  let '(b, sign_b) := get_and_reset_sign ub in
  let min := shl 256 1 255 - 1 in
  if b =? 0 then 0
  else if (a =? min) && (b =? bnot 256 0) then min
  else let c := a / b in set_sign c (xorb sign_a sign_b).

Definition op_smod (ua ub : Z) : Z :=
  let '(a, sign_a) := get_and_reset_sign ua in
  let b := fst (get_and_reset_sign ub) in
  if negb (b =? 0) then let c := a mod b in set_sign c sign_a else 0.

(** [U256::overflowing_pow], by squaring along the bits of the exponent. *)
Fixpoint pow_mod_pos (base : Z) (e : positive) : Z :=
  match e with
  | xH => base mod 2 ^ 256
  | xO e => let r := pow_mod_pos base e in (r * r) mod 2 ^ 256
  | xI e => let r := pow_mod_pos base e in (r * r * base) mod 2 ^ 256
  end.
Definition op_exp (base expon : Z) : Z :=
  match expon with Zpos e => pow_mod_pos base e | _ => 1 end.

Definition op_not (a : Z) : Z := bnot 256 a.
Definition op_lt (a b : Z) : Z := bool_to_u256 (a <? b).
Definition op_gt (a b : Z) : Z := bool_to_u256 (b <? a).
Definition op_eq (a b : Z) : Z := bool_to_u256 (a =? b).
Definition op_iszero (a : Z) : Z := bool_to_u256 (a =? 0).

Definition op_slt (ua ub : Z) : Z :=
  let '(a, neg_a) := get_and_reset_sign ua in
  let '(b, neg_b) := get_and_reset_sign ub in
  let is_positive_lt := (a <? b) && negb (neg_a || neg_b) in
  let is_negative_lt := (b <? a) && (neg_a && neg_b) in
  let has_different_signs := neg_a && negb neg_b in
  bool_to_u256 (is_positive_lt || is_negative_lt || has_different_signs).

Definition op_sgt (ua ub : Z) : Z :=
  let '(a, neg_a) := get_and_reset_sign ua in
  let '(b, neg_b) := get_and_reset_sign ub in
  let is_positive_gt := (b <? a) && negb (neg_a || neg_b) in
  let is_negative_gt := (a <? b) && (neg_a && neg_b) in
  let has_different_signs := negb neg_a && neg_b in
  bool_to_u256 (is_positive_gt || is_negative_gt || has_different_signs).

Definition op_byte (word val : Z) : Z :=
  if word <? 32 then Z.land (shr val (8 * (31 - low_u64 word))) 0xFF else 0.

(** [ADDMOD] and [MULMOD] widen to 512 bits first. *)
Definition op_addmod (a b c : Z) : Z :=
  if negb (c =? 0) then fst (overflowing_add 512 a b) mod c else 0.
Definition op_mulmod (a b c : Z) : Z :=
  if negb (c =? 0) then fst (overflowing_mul 512 a b) mod c else 0.

(** [SIGNEXTEND] for [bit < 32]; otherwise the arm leaves the number on the stack. *)
Definition op_signextend (bit number : Z) : Z :=
  let bit_position := low_u64 bit * 8 + 7 in
  let set := Z.testbit number bit_position in
  let mask := shl 256 1 bit_position - 1 in
  if set then Z.lor number (bnot 256 mask) else Z.land number mask.

Definition op_shl (shift value : Z) : Z :=
  if CONST_256 <=? shift then 0 else shl 256 value shift.
Definition op_shr (shift value : Z) : Z :=
  if CONST_256 <=? shift then 0 else shr value shift.

Definition op_sar (shift value : Z) : Z :=
  let sign := negb (Z.land value CONST_HIBIT =? 0) in
  if CONST_256 <=? shift then (if sign then 2 ^ 256 - 1 else 0)
  else
    let shifted := shr value shift in
    if sign then Z.lor shifted (shl 256 (2 ^ 256 - 1) (256 - shift)) else shifted.

(** The integer a word stands for in two's complement. *)
Definition to_signed (x : Z) : Z := if x <? 2 ^ 255 then x else x - 2 ^ 256.

(** ** The sign helpers *)

Lemma leading_zeros64_sign x : is_u256 x -> (leading_zeros64 (Z.shiftr x 192) =? 0) = (2 ^ 255 <=? x).
Proof.
  intros [H0 H1]. unfold leading_zeros64. rewrite Z.shiftr_div_pow2 by lia.
  assert (Hd : 0 <= x / 2 ^ 192 < 2 ^ 64).
  { split; [apply Z.div_pos; lia |]. apply Z.div_lt_upper_bound; lia. }
  pose proof (Z.div_mod x (2 ^ 192) ltac:(lia)).
  pose proof (Z.mod_pos_bound x (2 ^ 192) ltac:(lia)).
  destruct (x / 2 ^ 192 =? 0) eqn:E; b2p.
  - rewrite E in *. symmetry. apply Z.leb_gt. lia.
  - destruct (2 ^ 255 <=? x) eqn:F; b2p.
    + apply Z.eqb_eq. assert (2 ^ 63 <= x / 2 ^ 192) by lia.
      assert (63 <= Z.log2 (x / 2 ^ 192)) by (apply Z.log2_le_pow2; lia).
      assert (Z.log2 (x / 2 ^ 192) < 64) by (apply Z.log2_lt_pow2; lia). lia.
    + apply Z.eqb_neq. assert (x / 2 ^ 192 < 2 ^ 63) by lia.
      assert (Z.log2 (x / 2 ^ 192) < 63) by (apply Z.log2_lt_pow2; lia). lia.
Qed.

Lemma lxor_ones x : is_u256 x -> Z.lxor (bnot 256 0) x = bnot 256 x.
Proof.
  intros Hx. apply Z.bits_inj'. intros i Hi.
  rewrite Z.lxor_spec. destruct (Z.lt_ge_cases i 256).
  - rewrite !bnot_testbit by auto with lia hemvm. rewrite Z.bits_0. by destruct (Z.testbit x i).
  - assert (Hb : forall y, is_u256 y -> Z.testbit y i = false).
    { intros y Hy. apply (is_word_testbit 256 y ltac:(lia)); [done | lia]. }
    rewrite !Hb; auto with lia hemvm.
Qed.

Lemma set_sign_true x : is_u256 x -> set_sign x true = (- x) mod 2 ^ 256.
Proof.
  intros Hx. unfold set_sign, overflowing_add. cbn [fst]. rewrite lxor_ones by done.
  unfold bnot. rewrite <- (Z.mod_add (- x) 1) by lia. f_equal. lia.
Qed.

Lemma is_word_set_sign x s : is_u256 x -> is_u256 (set_sign x s).
Proof. intros. destruct s; [| done]. unfold set_sign, overflowing_add. apply is_word_mod. lia. Qed.

Lemma get_and_reset_sign_spec x :
  is_u256 x -> get_and_reset_sign x = (Z.abs (to_signed x), to_signed x <? 0).
Proof.
  intros Hx. unfold get_and_reset_sign. rewrite leading_zeros64_sign by done.
  unfold to_signed. destruct Hx as [H0 H1].
  destruct (2 ^ 255 <=? x) eqn:E; b2p.
  - rewrite (proj2 (Z.ltb_ge x (2 ^ 255))) by lia.
    rewrite (proj2 (Z.ltb_lt (x - 2 ^ 256) 0)) by lia.
    rewrite set_sign_true by done. f_equal.
    rewrite <- (Z.mod_add (- x) 1) by lia. rewrite Z.mod_small by lia. lia.
  - rewrite (proj2 (Z.ltb_lt x (2 ^ 255))) by lia.
    rewrite (proj2 (Z.ltb_ge x 0)) by lia. f_equal. unfold set_sign. lia.
Qed.

Lemma to_signed_bound x : is_u256 x -> - 2 ^ 255 <= to_signed x < 2 ^ 255.
Proof. intros [? ?]. unfold to_signed. case_if; lia. Qed.

Lemma to_signed_mod x : is_u256 x -> to_signed x mod 2 ^ 256 = x.
Proof.
  intros [? ?]. unfold to_signed. case_if; [apply Z.mod_small; lia |].
  rewrite <- (Z.mod_add _ 1) by lia. rewrite Z.mod_small; lia.
Qed.

Lemma to_signed_zero x : is_u256 x -> to_signed x = 0 <-> x = 0.
Proof. intros [? ?]. unfold to_signed. case_if; lia. Qed.

Lemma set_sign_signed x s :
  is_u256 x -> set_sign x s = (if s then - x else x) mod 2 ^ 256.
Proof. intros. destruct s; [by apply set_sign_true |]. by rewrite Z.mod_small. Qed.

(** ** What each arm computes *)

(** [DIV]: the arm's ladder of shifts for power-of-two divisors is Euclidean division,
    with [x / 0 = 0]. *)
Lemma op_div_spec a b :
  is_u256 a -> is_u256 b -> op_div a b = if b =? 0 then 0 else a / b.
Proof.
  intros Ha Hb. unfold op_div, shr. destruct (b =? 0) eqn:E0; simpl; [done |].
  repeat case_if; subst; rewrite ?Z.shiftr_div_pow2 by lia; try done.
  by rewrite Z.div_1_r.
Qed.

(** [SDIV] is division of the signed values truncated towards zero, wrapped to 256 bits,
    with [x / 0 = 0]; in particular [-2^255 / -1] wraps to [-2^255]. *)
Lemma op_sdiv_spec a b :
  is_u256 a -> is_u256 b ->
  op_sdiv a b =
    (if b =? 0 then 0 else Z.quot (to_signed a) (to_signed b)) mod 2 ^ 256.
Proof.
  intros Ha Hb. unfold op_sdiv. rewrite !get_and_reset_sign_spec by done.
  pose proof (to_signed_bound a Ha). pose proof (to_signed_bound b Hb).
  pose proof (to_signed_zero b Hb) as Hz.
  replace (Z.abs (to_signed b) =? 0) with (b =? 0).
  2:{ apply eq_true_iff_eq. rewrite !Z.eqb_eq. lia. }
  destruct (b =? 0) eqn:Eb; b2p; [done |].
  rewrite (proj2 (Z.eqb_neq (Z.abs (to_signed b)) (bnot 256 0))), andb_false_r
    by (unfold bnot; lia).
  assert (to_signed b <> 0) by lia.
  assert (0 <= Z.abs (to_signed a) / Z.abs (to_signed b) <= Z.abs (to_signed a)).
  { split; [apply Z.div_pos; lia |]. apply Z.div_le_upper_bound; nia. }
  rewrite set_sign_signed by (split; lia).
  f_equal. rewrite Z.quot_div by done.
  destruct (to_signed a <? 0) eqn:Sa, (to_signed b <? 0) eqn:Sb; b2p; simpl.
  - rewrite !Z.sgn_neg by lia. lia.
  - rewrite Z.sgn_neg, Z.sgn_pos by lia. lia.
  - destruct (Z.eq_dec (to_signed a) 0) as [-> |]; [done |].
    rewrite Z.sgn_pos, Z.sgn_neg by lia. lia.
  - destruct (Z.eq_dec (to_signed a) 0) as [-> |]; [by rewrite Z.div_0_l by lia |].
    rewrite !Z.sgn_pos by lia. lia.
Qed.

(** [SMOD] is the remainder of truncated signed division, whose sign is the dividend's,
    with [x % 0 = 0]. *)
Lemma op_smod_spec a b :
  is_u256 a -> is_u256 b ->
  op_smod a b = (if b =? 0 then 0 else Z.rem (to_signed a) (to_signed b)) mod 2 ^ 256.
Proof.
  intros Ha Hb. unfold op_smod. rewrite !get_and_reset_sign_spec by done. simpl fst.
  pose proof (to_signed_bound a Ha). pose proof (to_signed_bound b Hb).
  pose proof (to_signed_zero b Hb) as Hz.
  replace (Z.abs (to_signed b) =? 0) with (b =? 0).
  2:{ apply eq_true_iff_eq. rewrite !Z.eqb_eq. lia. }
  destruct (b =? 0) eqn:Eb; b2p; [done |]. simpl.
  assert (to_signed b <> 0) by lia.
  assert (0 <= Z.abs (to_signed a) mod Z.abs (to_signed b) < Z.abs (to_signed b))
    by (apply Z.mod_pos_bound; lia).
  rewrite set_sign_signed by (split; lia).
  f_equal. rewrite Z.rem_mod by done.
  destruct (to_signed a <? 0) eqn:Sa; b2p.
  - rewrite Z.sgn_neg by lia. lia.
  - destruct (Z.eq_dec (to_signed a) 0) as [-> |]; [by rewrite Z.mod_0_l by lia |].
    rewrite Z.sgn_pos by lia. lia.
Qed.

(** [SLT] and [SGT] compare the signed values. *)
Lemma op_slt_sgt_spec a b :
  is_u256 a -> is_u256 b ->
  op_slt a b = bool_to_u256 (to_signed a <? to_signed b) /\
  op_sgt a b = bool_to_u256 (to_signed b <? to_signed a).
Proof.
  intros Ha Hb. unfold op_slt, op_sgt. rewrite !get_and_reset_sign_spec by done.
  split; f_equal;
    destruct (to_signed a <? 0) eqn:?, (to_signed b <? 0) eqn:?; b2p;
    rewrite ?andb_false_r, ?andb_true_r, ?orb_false_r; simpl;
    apply eq_true_iff_eq; rewrite ?Z.ltb_lt; lia.
Qed.

Lemma land_hibit x : is_u256 x -> negb (Z.land x CONST_HIBIT =? 0) = (2 ^ 255 <=? x).
Proof.
  intros Hx. change CONST_HIBIT with (2 ^ 255).
  assert (E : Z.land x (2 ^ 255) = if Z.testbit x 255 then 2 ^ 255 else 0).
  { apply Z.bits_inj'. intros i Hi. rewrite Z.land_spec, Z.pow2_bits_eqb by lia.
    destruct (255 =? i) eqn:Ei; b2p; [subst i |].
    - destruct (Z.testbit x 255) eqn:F; cbn [andb]; [by rewrite Z.pow2_bits_true by lia | by rewrite Z.bits_0].
    - rewrite andb_false_r. destruct (Z.testbit x 255); [| by rewrite Z.bits_0].
      by rewrite Z.pow2_bits_false by lia. }
  rewrite E. destruct Hx as [H0 H1].
  assert (F : Z.testbit x 255 = (2 ^ 255 <=? x)).
  { rewrite Z.testbit_eqb by lia.
    destruct (2 ^ 255 <=? x) eqn:G; b2p.
    - replace (x / 2 ^ 255) with 1 by (apply Z.div_unique with (x - 2 ^ 255); lia). done.
    - rewrite Z.div_small by lia. done. }
  rewrite F. by destruct (2 ^ 255 <=? x).
Qed.

Lemma lor_disjoint_add a b n :
  0 <= n -> 0 <= a < 2 ^ n -> 0 <= b -> Z.lor a (b * 2 ^ n) = a + b * 2 ^ n.
Proof.
  intros Hn Ha Hb.
  assert (H : Z.land a (b * 2 ^ n) = 0).
  { apply Z.bits_inj'. intros i Hi. rewrite Z.land_spec, Z.bits_0.
    rewrite <- Z.shiftl_mul_pow2 by lia.
    destruct (Z.lt_ge_cases i n).
    - rewrite Z.shiftl_spec_low by lia. apply andb_false_r.
    - rewrite (proj2 (proj1 (is_word_testbit n a Hn) Ha)) by lia. done. }
  by rewrite (Z.add_nocarry_lxor _ _ H), (Z.lxor_lor _ _ H).
Qed.

(** [SAR] is the floor of dividing the signed value by [2^shift], for every shift
    amount up to the full 256 bits and beyond. *)
Lemma op_sar_spec shift value :
  is_u256 shift -> is_u256 value ->
  op_sar shift value = (to_signed value / 2 ^ shift) mod 2 ^ 256.
Proof.
  intros [Hs _] Hv. unfold op_sar, shr, shl. rewrite land_hibit by done.
  change CONST_256 with 256. unfold to_signed. destruct Hv as [H0 H1].
  destruct (2 ^ 255 <=? value) eqn:E; b2p.
  - rewrite (proj2 (Z.ltb_ge value (2 ^ 255))) by lia.
    destruct (256 <=? shift) eqn:F; b2p.
    + assert (2 ^ 256 <= 2 ^ shift) by (apply Z.pow_le_mono_r; lia).
      replace ((value - 2 ^ 256) / 2 ^ shift) with (-1); [done |].
      apply Z.div_unique with (value - 2 ^ 256 + 2 ^ shift); lia.
    + rewrite Z.shiftl_mul_pow2, Z.shiftr_div_pow2 by lia.
      replace ((2 ^ 256 - 1) * 2 ^ (256 - shift)) with
        ((2 ^ shift - 1) * 2 ^ (256 - shift) + (2 ^ (256 - shift) - 1) * 2 ^ 256).
      2:{ assert (P : 2 ^ 256 = 2 ^ shift * 2 ^ (256 - shift))
            by (rewrite <- Z.pow_add_r by lia; f_equal; lia). rewrite P. ring. }
      rewrite Z.mod_add by lia.
      assert (P : 2 ^ 256 = 2 ^ shift * 2 ^ (256 - shift))
        by (rewrite <- Z.pow_add_r by lia; f_equal; lia).
      assert (0 < 2 ^ shift) by (apply Z.pow_pos_nonneg; lia).
      assert (0 < 2 ^ (256 - shift)) by (apply Z.pow_pos_nonneg; lia).
      rewrite Z.mod_small by nia.
      assert (0 <= value / 2 ^ shift < 2 ^ (256 - shift)).
      { split; [apply Z.div_pos; lia |]. apply Z.div_lt_upper_bound; lia. }
      rewrite lor_disjoint_add by lia.
      replace (value - 2 ^ 256) with (value + (- 2 ^ (256 - shift)) * 2 ^ shift) by nia.
      rewrite Z.div_add by lia.
      rewrite <- (Z.mod_add _ 1) by lia. rewrite Z.mod_small; nia.
  - rewrite (proj2 (Z.ltb_lt value (2 ^ 255))) by lia.
    destruct (256 <=? shift) eqn:F; b2p.
    + assert (2 ^ 256 <= 2 ^ shift) by (apply Z.pow_le_mono_r; lia).
      rewrite Z.div_small by lia. done.
    + rewrite Z.shiftr_div_pow2 by lia.
      assert (0 < 2 ^ shift) by (apply Z.pow_pos_nonneg; lia).
      rewrite Z.mod_small; [done |]. split; [apply Z.div_pos; lia |].
      apply Z.div_lt_upper_bound; nia.
Qed.

(** [SIGNEXTEND k] copies bit [8k + 7] of the number into every higher bit and keeps
    the lower ones. *)
Lemma op_signextend_spec bit number i :
  0 <= bit < 32 -> is_u256 number -> 0 <= i < 256 ->
  Z.testbit (op_signextend bit number) i = Z.testbit number (Z.min i (8 * bit + 7)).
Proof.
  intros Hb Hn Hi. unfold op_signextend.
  rewrite low_u64_small by (split; lia).
  replace (bit * 8 + 7) with (8 * bit + 7) by lia.
  assert (Hp : is_word 256 (2 ^ (8 * bit + 7))).
  { split; [apply Z.pow_nonneg; lia |]. apply Z.pow_lt_mono_r; lia. }
  assert (Hmask : shl 256 1 (8 * bit + 7) - 1 = Z.ones (8 * bit + 7)).
  { unfold shl. rewrite Z.shiftl_1_l, Z.mod_small by done. rewrite Z.ones_equiv. lia. }
  rewrite Hmask.
  assert (Hones : is_word 256 (Z.ones (8 * bit + 7))).
  { rewrite Z.ones_equiv. unfold is_word in *. assert (0 < 2 ^ (8 * bit + 7)) by (apply Z.pow_pos_nonneg; lia). lia. }
  destruct (Z.lt_ge_cases i (8 * bit + 7)) as [Hlt | Hge].
  - rewrite Z.min_l by lia. destruct (Z.testbit number (8 * bit + 7)).
    + rewrite Z.lor_spec, bnot_testbit, Z.ones_spec_low by (auto; lia). apply orb_false_r.
    + rewrite Z.land_spec, Z.ones_spec_low by lia. apply andb_true_r.
  - rewrite Z.min_r by lia. destruct (Z.testbit number (8 * bit + 7)).
    + rewrite Z.lor_spec, bnot_testbit, Z.ones_spec_high by (auto; lia). apply orb_true_r.
    + rewrite Z.land_spec, Z.ones_spec_high by lia. apply andb_false_r.
Qed.

Lemma to_be_lookup n x i :
  (i < n)%nat -> to_be n x !! i = Some (byte_of_Z (x / 256 ^ Z.of_nat (n - 1 - i))).
Proof.
  revert x i. induction n; intros x i Hi; [lia |]. cbn [to_be].
  destruct (decide (i = n)) as [-> |].
  - rewrite lookup_app_r by (rewrite length_to_be; lia). rewrite length_to_be, Nat.sub_diag.
    replace (S n - 1 - n)%nat with 0%nat by lia. simpl. by rewrite Z.div_1_r.
  - rewrite lookup_app_l by (rewrite length_to_be; lia). rewrite IHn by lia. f_equal. f_equal.
    replace (Z.of_nat (S n - 1 - i)) with (1 + Z.of_nat (n - 1 - i)) by lia.
    rewrite Z.pow_add_r by lia. rewrite Z.div_div by lia. done.
Qed.

(** [BYTE i x] is the [i]-th byte of [x] from the most significant end, and [0] past
    the last one. *)
Lemma op_byte_spec i x :
  is_u256 i -> is_u256 x ->
  op_byte i x = match to_be 32 x !! Z.to_nat i with Some b => byte_to_Z b | None => 0 end.
Proof.
  intros [Hi _] Hx. unfold op_byte, shr. destruct (i <? 32) eqn:E; b2p.
  - rewrite to_be_lookup by lia. rewrite byte_to_of_Z.
    rewrite low_u64_small by (split; lia).
    change 0xFF with (Z.ones 8). rewrite Z.land_ones by lia. f_equal.
    rewrite Z.shiftr_div_pow2 by lia. f_equal.
    change 256 with (2 ^ 8). rewrite <- Z.pow_mul_r by lia. f_equal. lia.
  - rewrite lookup_ge_None_2; [done |]. rewrite length_to_be. lia.
Qed.

(** [ADDMOD] and [MULMOD] reduce the exact sum and product: no intermediate result
    wraps, and the residue fits a word. *)
Lemma op_addmod_mulmod_spec a b c :
  is_u256 a -> is_u256 b -> is_u256 c ->
  op_addmod a b c = (if c =? 0 then 0 else (a + b) mod c) /\
  op_mulmod a b c = (if c =? 0 then 0 else (a * b) mod c) /\
  is_u256 (op_addmod a b c) /\ is_u256 (op_mulmod a b c).
Proof.
  intros Ha Hb Hc. unfold op_addmod, op_mulmod, overflowing_add, overflowing_mul. cbn [fst].
  unfold is_word in *.
  rewrite !(Z.mod_small _ (2 ^ 512)).
  2:{ change (2 ^ 512) with (2 ^ 256 * 2 ^ 256). nia. }
  2:{ lia. }
  destruct (c =? 0) eqn:E; b2p; simpl; [by repeat split; try lia |].
  pose proof (Z.mod_pos_bound (a + b) c ltac:(lia)).
  pose proof (Z.mod_pos_bound (a * b) c ltac:(lia)). lia.
Qed.

Lemma pow_mod_pos_spec base e : pow_mod_pos base e = base ^ Zpos e mod 2 ^ 256.
Proof.
  induction e as [e IH | e IH |]; cbn [pow_mod_pos].
  - rewrite IH, (Pos2Z.inj_xI e), Z.pow_add_r, Z.pow_1_r, Z.pow_twice_r by lia.
    rewrite Z.mul_mod, <- (Z.mul_mod (base ^ Zpos e)), <- Z.mul_mod by lia. done.
  - rewrite IH, (Pos2Z.inj_xO e), Z.pow_twice_r by lia. by rewrite <- Z.mul_mod by lia.
  - by rewrite Z.pow_1_r.
Qed.

(** [EXP] is exponentiation modulo [2^256]. *)
Lemma op_exp_spec base expon :
  is_u256 base -> is_u256 expon -> op_exp base expon = base ^ expon mod 2 ^ 256.
Proof.
  intros _ [He _]. destruct expon as [| e | e]; [done | apply pow_mod_pos_spec | lia].
Qed.

(** ** Every arm pushes a word *)

Section op_ranges.
Context (a b c : Z) (Ha : is_u256 a) (Hb : is_u256 b) (Hc : is_u256 c).

Lemma is_word_bool v : is_u256 (bool_to_u256 v).
Proof. destruct v; simpl; auto with lia hemvm. Qed.

Lemma is_word_op_div : is_u256 (op_div a b).
Proof.
  rewrite op_div_spec by done. case_if; [auto with lia hemvm |]. unfold is_word in *.
  split; [apply Z.div_pos; lia |]. apply Z.div_lt_upper_bound; nia.
Qed.

Lemma is_word_op_mod : is_u256 (op_mod a b).
Proof.
  unfold op_mod, is_word in *. case_if; [| lia].
  pose proof (Z.mod_pos_bound a b ltac:(lia)). lia.
Qed.

Lemma is_word_op_sdiv : is_u256 (op_sdiv a b).
Proof. rewrite op_sdiv_spec by done. auto with lia hemvm. Qed.

Lemma is_word_op_smod : is_u256 (op_smod a b).
Proof. rewrite op_smod_spec by done. auto with lia hemvm. Qed.

Lemma is_word_op_exp : is_u256 (op_exp a b).
Proof. rewrite op_exp_spec by done. auto with lia hemvm. Qed.

Lemma is_word_op_byte : is_u256 (op_byte a b).
Proof.
  rewrite op_byte_spec by done. destruct (_ !! _) as [d |]; [| auto with lia hemvm].
  pose proof (byte_to_Z_bound d). split; lia.
Qed.

Lemma is_word_op_addmod : is_u256 (op_addmod a b c).
Proof. by apply op_addmod_mulmod_spec. Qed.

Lemma is_word_op_mulmod : is_u256 (op_mulmod a b c).
Proof. by apply op_addmod_mulmod_spec. Qed.

Lemma is_word_op_signextend : a < 32 -> is_u256 (op_signextend a b).
Proof.
  intros H. unfold op_signextend, shl.
  assert (is_u256 (Z.shiftl 1 (low_u64 a * 8 + 7) mod 2 ^ 256 - 1)) as Hm.
  { destruct Ha. rewrite low_u64_small by (split; lia).
    rewrite Z.shiftl_1_l.
    assert (0 < 2 ^ (a * 8 + 7) < 2 ^ 256)
      by (split; [apply Z.pow_pos_nonneg | apply Z.pow_lt_mono_r]; lia).
    rewrite Z.mod_small by lia. split; lia. }
  case_if; auto 6 with lia hemvm.
Qed.

Lemma is_word_op_shl : is_u256 (op_shl a b).
Proof. unfold op_shl, shl. case_if; auto with lia hemvm. Qed.

Lemma is_word_op_shr : is_u256 (op_shr a b).
Proof.
  unfold op_shr, shr. case_if; auto with lia hemvm. apply is_word_shiftr; auto; destruct Ha; lia.
Qed.

Lemma is_word_op_sar : is_u256 (op_sar a b).
Proof. rewrite op_sar_spec by done. auto with lia hemvm. Qed.

Lemma is_word_op_slt : is_u256 (op_slt a b).
Proof. unfold op_slt. repeat case_match. apply is_word_bool. Qed.

Lemma is_word_op_sgt : is_u256 (op_sgt a b).
Proof. unfold op_sgt. repeat case_match. apply is_word_bool. Qed.

Lemma is_word_op_not : is_u256 (op_not a).
Proof. apply is_word_bnot; auto with lia. Qed.

Lemma is_word_op_add : is_u256 (op_add a b).
Proof. unfold op_add, overflowing_add. cbn [fst]. auto with lia hemvm. Qed.

Lemma is_word_op_mul : is_u256 (op_mul a b).
Proof. unfold op_mul, overflowing_mul. cbn [fst]. auto with lia hemvm. Qed.

Lemma is_word_op_sub : is_u256 (op_sub a b).
Proof. unfold op_sub, overflowing_sub. cbn [fst]. auto with lia hemvm. Qed.

Lemma is_word_op_addr : is_u256 (u256_to_address a).
Proof. apply (is_word_mono 160); [lia |]. unfold u256_to_address. auto with lia hemvm. Qed.
End op_ranges.

#[export] Hint Resolve is_word_bool is_word_op_div is_word_op_mod is_word_op_sdiv
  is_word_op_smod is_word_op_exp is_word_op_byte is_word_op_addmod is_word_op_mulmod
  is_word_op_signextend is_word_op_shl is_word_op_shr is_word_op_sar is_word_op_slt
  is_word_op_sgt is_word_op_not is_word_op_add is_word_op_mul is_word_op_sub : hemvm.

(** ** The properties of the arithmetic arms *)



(** The unsigned instructions: [DIV]'s ladder of shifts for power-of-two divisors is
    Euclidean division, [EXP] is exponentiation modulo [2^256], and [ADDMOD] and [MULMOD]
    reduce the exact sum and product, with no intermediate wrap-around. *)
Theorem unsigned_arithmetic_correct a b c :
  is_u256 a -> is_u256 b -> is_u256 c ->
  op_div a b = (if b =? 0 then 0 else a / b) /\
  op_exp a b = a ^ b mod 2 ^ 256 /\
  op_addmod a b c = (if c =? 0 then 0 else (a + b) mod c) /\
  op_mulmod a b c = (if c =? 0 then 0 else (a * b) mod c).
Proof.
  intros Ha Hb Hc. repeat split.
  - by apply op_div_spec.
  - by apply op_exp_spec.
  - by apply op_addmod_mulmod_spec.
  - by apply op_addmod_mulmod_spec.
Qed.

Lemma unsigned_arithmetic_correct_witness :
  op_div (2 ^ 250 + 5) TWO_POW_248 = 4 /\
  op_mulmod (2 ^ 256 - 1) (2 ^ 256 - 1) 12 = 9.
Proof.
  destruct (unsigned_arithmetic_correct (2 ^ 250 + 5) TWO_POW_248 1
    ltac:(split; lia) ltac:(split; vm_compute; congruence) ltac:(split; lia)) as (Hd & _).
  destruct (unsigned_arithmetic_correct (2 ^ 256 - 1) (2 ^ 256 - 1) 12
    ltac:(split; lia) ltac:(split; lia) ltac:(split; lia)) as (_ & _ & _ & Hm).
  rewrite Hd, Hm. vm_compute. split; reflexivity.
Defined.

(** [SIGNEXTEND k] copies bit [8k + 7] into every higher bit and keeps the lower ones,
    and [BYTE i] is the [i]-th byte of the word from the most significant end ([0] past the
    last one). *)
Theorem bit_arithmetic_correct k x i :
  0 <= k < 32 -> is_u256 x -> 0 <= i < 256 ->
  Z.testbit (op_signextend k x) i = Z.testbit x (Z.min i (8 * k + 7)) /\
  op_byte i x = match to_be 32 x !! Z.to_nat i with Some b => byte_to_Z b | None => 0 end.
Proof.
  intros Hk Hx Hi. split; [by apply op_signextend_spec |].
  apply op_byte_spec; [split; lia | done].
Qed.

Lemma bit_arithmetic_correct_witness :
  Z.testbit (op_signextend 0 0x80) 200 = true /\ op_byte 31 0xABCD = 0xCD.
Proof.
  destruct (bit_arithmetic_correct 0 0x80 200 ltac:(lia) ltac:(split; lia) ltac:(lia)) as [H1 _].
  destruct (bit_arithmetic_correct 0 0xABCD 31 ltac:(lia) ltac:(split; lia) ltac:(lia)) as [_ H2].
  rewrite H1, H2. vm_compute. split; reflexivity.
Defined.
