(* ===== verification/Instructions.v ===== *)
(** * The instruction set

    src/cfx-evm/src/evm/instructions.rs: the [Instruction] enum with its opcodes, the decoder
    [from_u8], the families [PUSHn], [DUPn], [SWAPn], [LOGn] with the positions they name, and
    the static table [INSTRUCTIONS] of stack arity and gas tier. *)

From S2P Require Import Prelude Word.
From stdpp Require Import strings.
Local Open Scope Z_scope.

Inductive Instruction : Set :=
| STOP | ADD | MUL | SUB | DIV | SDIV | MOD | SMOD
| ADDMOD | MULMOD | EXP | SIGNEXTEND | LT | GT | SLT | SGT
| EQ | ISZERO | AND | OR | XOR | NOT | BYTE | SHL
| SHR | SAR | SHA3 | ADDRESS | BALANCE | ORIGIN | CALLER | CALLVALUE
| CALLDATALOAD | CALLDATASIZE | CALLDATACOPY | CODESIZE | CODECOPY | GASPRICE | EXTCODESIZE | EXTCODECOPY
| RETURNDATASIZE | RETURNDATACOPY | EXTCODEHASH | BLOCKHASH | COINBASE | TIMESTAMP | NUMBER | DIFFICULTY
| GASLIMIT | CHAINID | SELFBALANCE | POP | MLOAD | MSTORE | MSTORE8 | SLOAD
| SSTORE | JUMP | JUMPI | PC | MSIZE | GAS | JUMPDEST | BEGINSUB
| RETURNSUB | JUMPSUB | PUSH1 | PUSH2 | PUSH3 | PUSH4 | PUSH5 | PUSH6
| PUSH7 | PUSH8 | PUSH9 | PUSH10 | PUSH11 | PUSH12 | PUSH13 | PUSH14
| PUSH15 | PUSH16 | PUSH17 | PUSH18 | PUSH19 | PUSH20 | PUSH21 | PUSH22
| PUSH23 | PUSH24 | PUSH25 | PUSH26 | PUSH27 | PUSH28 | PUSH29 | PUSH30
| PUSH31 | PUSH32 | DUP1 | DUP2 | DUP3 | DUP4 | DUP5 | DUP6
| DUP7 | DUP8 | DUP9 | DUP10 | DUP11 | DUP12 | DUP13 | DUP14
| DUP15 | DUP16 | SWAP1 | SWAP2 | SWAP3 | SWAP4 | SWAP5 | SWAP6
| SWAP7 | SWAP8 | SWAP9 | SWAP10 | SWAP11 | SWAP12 | SWAP13 | SWAP14
| SWAP15 | SWAP16 | LOG0 | LOG1 | LOG2 | LOG3 | LOG4 | CREATE
| CALL | CALLCODE | RETURN | DELEGATECALL | CREATE2 | REVERT | STATICCALL | SUICIDE.

(** The discriminant: [instruction as u8]. *)
Definition to_u8 (i : Instruction) : Z :=
  match i with
  | STOP => 0x00 | ADD => 0x01 | MUL => 0x02 | SUB => 0x03 | DIV => 0x04
  | SDIV => 0x05 | MOD => 0x06 | SMOD => 0x07 | ADDMOD => 0x08 | MULMOD => 0x09
  | EXP => 0x0a | SIGNEXTEND => 0x0b | LT => 0x10 | GT => 0x11 | SLT => 0x12
  | SGT => 0x13 | EQ => 0x14 | ISZERO => 0x15 | AND => 0x16 | OR => 0x17
  | XOR => 0x18 | NOT => 0x19 | BYTE => 0x1a | SHL => 0x1b | SHR => 0x1c
  | SAR => 0x1d | SHA3 => 0x20 | ADDRESS => 0x30 | BALANCE => 0x31 | ORIGIN => 0x32
  | CALLER => 0x33 | CALLVALUE => 0x34 | CALLDATALOAD => 0x35 | CALLDATASIZE => 0x36 | CALLDATACOPY => 0x37
  | CODESIZE => 0x38 | CODECOPY => 0x39 | GASPRICE => 0x3a | EXTCODESIZE => 0x3b | EXTCODECOPY => 0x3c
  | RETURNDATASIZE => 0x3d | RETURNDATACOPY => 0x3e | EXTCODEHASH => 0x3f | BLOCKHASH => 0x40 | COINBASE => 0x41
  | TIMESTAMP => 0x42 | NUMBER => 0x43 | DIFFICULTY => 0x44 | GASLIMIT => 0x45 | CHAINID => 0x46
  | SELFBALANCE => 0x47 | POP => 0x50 | MLOAD => 0x51 | MSTORE => 0x52 | MSTORE8 => 0x53
  | SLOAD => 0x54 | SSTORE => 0x55 | JUMP => 0x56 | JUMPI => 0x57 | PC => 0x58
  | MSIZE => 0x59 | GAS => 0x5a | JUMPDEST => 0x5b | BEGINSUB => 0x5c | RETURNSUB => 0x5d
  | JUMPSUB => 0x5e | PUSH1 => 0x60 | PUSH2 => 0x61 | PUSH3 => 0x62 | PUSH4 => 0x63
  | PUSH5 => 0x64 | PUSH6 => 0x65 | PUSH7 => 0x66 | PUSH8 => 0x67 | PUSH9 => 0x68
  | PUSH10 => 0x69 | PUSH11 => 0x6a | PUSH12 => 0x6b | PUSH13 => 0x6c | PUSH14 => 0x6d
  | PUSH15 => 0x6e | PUSH16 => 0x6f | PUSH17 => 0x70 | PUSH18 => 0x71 | PUSH19 => 0x72
  | PUSH20 => 0x73 | PUSH21 => 0x74 | PUSH22 => 0x75 | PUSH23 => 0x76 | PUSH24 => 0x77
  | PUSH25 => 0x78 | PUSH26 => 0x79 | PUSH27 => 0x7a | PUSH28 => 0x7b | PUSH29 => 0x7c
  | PUSH30 => 0x7d | PUSH31 => 0x7e | PUSH32 => 0x7f | DUP1 => 0x80 | DUP2 => 0x81
  | DUP3 => 0x82 | DUP4 => 0x83 | DUP5 => 0x84 | DUP6 => 0x85 | DUP7 => 0x86
  | DUP8 => 0x87 | DUP9 => 0x88 | DUP10 => 0x89 | DUP11 => 0x8a | DUP12 => 0x8b
  | DUP13 => 0x8c | DUP14 => 0x8d | DUP15 => 0x8e | DUP16 => 0x8f | SWAP1 => 0x90
  | SWAP2 => 0x91 | SWAP3 => 0x92 | SWAP4 => 0x93 | SWAP5 => 0x94 | SWAP6 => 0x95
  | SWAP7 => 0x96 | SWAP8 => 0x97 | SWAP9 => 0x98 | SWAP10 => 0x99 | SWAP11 => 0x9a
  | SWAP12 => 0x9b | SWAP13 => 0x9c | SWAP14 => 0x9d | SWAP15 => 0x9e | SWAP16 => 0x9f
  | LOG0 => 0xa0 | LOG1 => 0xa1 | LOG2 => 0xa2 | LOG3 => 0xa3 | LOG4 => 0xa4
  | CREATE => 0xf0 | CALL => 0xf1 | CALLCODE => 0xf2 | RETURN => 0xf3 | DELEGATECALL => 0xf4
  | CREATE2 => 0xf5 | REVERT => 0xfd | STATICCALL => 0xfa | SUICIDE => 0xff
  end.

Definition from_u8 (value : byte) : option Instruction :=
  match value with
  | x00 => Some STOP | x01 => Some ADD | x02 => Some MUL | x03 => Some SUB
  | x04 => Some DIV | x05 => Some SDIV | x06 => Some MOD | x07 => Some SMOD
  | x08 => Some ADDMOD | x09 => Some MULMOD | x0a => Some EXP | x0b => Some SIGNEXTEND
  | x10 => Some LT | x11 => Some GT | x12 => Some SLT | x13 => Some SGT
  | x14 => Some EQ | x15 => Some ISZERO | x16 => Some AND | x17 => Some OR
  | x18 => Some XOR | x19 => Some NOT | x1a => Some BYTE | x1b => Some SHL
  | x1c => Some SHR | x1d => Some SAR | x20 => Some SHA3 | x30 => Some ADDRESS
  | x31 => Some BALANCE | x32 => Some ORIGIN | x33 => Some CALLER | x34 => Some CALLVALUE
  | x35 => Some CALLDATALOAD | x36 => Some CALLDATASIZE | x37 => Some CALLDATACOPY | x38 => Some CODESIZE
  | x39 => Some CODECOPY | x3a => Some GASPRICE | x3b => Some EXTCODESIZE | x3c => Some EXTCODECOPY
  | x3d => Some RETURNDATASIZE | x3e => Some RETURNDATACOPY | x3f => Some EXTCODEHASH | x40 => Some BLOCKHASH
  | x41 => Some COINBASE | x42 => Some TIMESTAMP | x43 => Some NUMBER | x44 => Some DIFFICULTY
  | x45 => Some GASLIMIT | x46 => Some CHAINID | x47 => Some SELFBALANCE | x50 => Some POP
  | x51 => Some MLOAD | x52 => Some MSTORE | x53 => Some MSTORE8 | x54 => Some SLOAD
  | x55 => Some SSTORE | x56 => Some JUMP | x57 => Some JUMPI | x58 => Some PC
  | x59 => Some MSIZE | x5a => Some GAS | x5b => Some JUMPDEST | x5c => Some BEGINSUB
  | x5d => Some RETURNSUB | x5e => Some JUMPSUB | x60 => Some PUSH1 | x61 => Some PUSH2
  | x62 => Some PUSH3 | x63 => Some PUSH4 | x64 => Some PUSH5 | x65 => Some PUSH6
  | x66 => Some PUSH7 | x67 => Some PUSH8 | x68 => Some PUSH9 | x69 => Some PUSH10
  | x6a => Some PUSH11 | x6b => Some PUSH12 | x6c => Some PUSH13 | x6d => Some PUSH14
  | x6e => Some PUSH15 | x6f => Some PUSH16 | x70 => Some PUSH17 | x71 => Some PUSH18
  | x72 => Some PUSH19 | x73 => Some PUSH20 | x74 => Some PUSH21 | x75 => Some PUSH22
  | x76 => Some PUSH23 | x77 => Some PUSH24 | x78 => Some PUSH25 | x79 => Some PUSH26
  | x7a => Some PUSH27 | x7b => Some PUSH28 | x7c => Some PUSH29 | x7d => Some PUSH30
  | x7e => Some PUSH31 | x7f => Some PUSH32 | x80 => Some DUP1 | x81 => Some DUP2
  | x82 => Some DUP3 | x83 => Some DUP4 | x84 => Some DUP5 | x85 => Some DUP6
  | x86 => Some DUP7 | x87 => Some DUP8 | x88 => Some DUP9 | x89 => Some DUP10
  | x8a => Some DUP11 | x8b => Some DUP12 | x8c => Some DUP13 | x8d => Some DUP14
  | x8e => Some DUP15 | x8f => Some DUP16 | x90 => Some SWAP1 | x91 => Some SWAP2
  | x92 => Some SWAP3 | x93 => Some SWAP4 | x94 => Some SWAP5 | x95 => Some SWAP6
  | x96 => Some SWAP7 | x97 => Some SWAP8 | x98 => Some SWAP9 | x99 => Some SWAP10
  | x9a => Some SWAP11 | x9b => Some SWAP12 | x9c => Some SWAP13 | x9d => Some SWAP14
  | x9e => Some SWAP15 | x9f => Some SWAP16 | xa0 => Some LOG0 | xa1 => Some LOG1
  | xa2 => Some LOG2 | xa3 => Some LOG3 | xa4 => Some LOG4 | xf0 => Some CREATE
  | xf1 => Some CALL | xf2 => Some CALLCODE | xf3 => Some RETURN | xf4 => Some DELEGATECALL
  | xf5 => Some CREATE2 | xfd => Some REVERT | xfa => Some STATICCALL | xff => Some SUICIDE
  | _ => None
  end.

(** [PartialEq] of the field-less enum compares discriminants. *)
Definition instr_eqb (i j : Instruction) : bool := to_u8 i =? to_u8 j.

(** The comparisons of [Instruction] order it by discriminant. *)
Definition in_range (lo hi i : Instruction) : bool :=
  (to_u8 lo <=? to_u8 i) && (to_u8 i <=? to_u8 hi).

Definition is_push (i : Instruction) : bool := in_range PUSH1 PUSH32 i.

Definition push_bytes (i : Instruction) : option Z :=
  if is_push i then Some (to_u8 i - to_u8 PUSH1 + 1) else None.

Definition dup_position (i : Instruction) : option Z :=
  if in_range DUP1 DUP16 i then Some (to_u8 i - to_u8 DUP1) else None.

Definition swap_position (i : Instruction) : option Z :=
  if in_range SWAP1 SWAP16 i then Some (to_u8 i - to_u8 SWAP1 + 1) else None.

Definition log_topics (i : Instruction) : option Z :=
  if in_range LOG0 LOG4 i then Some (to_u8 i - to_u8 LOG0) else None.

Inductive GasPriceTier : Set :=
| Zero | Base | VeryLow | Low | Mid | High | Ext | Special.

Definition tier_idx (t : GasPriceTier) : Z :=
  match t with
  | Zero => 0 | Base => 1 | VeryLow => 2 | Low => 3 | Mid => 4 | High => 5 | Ext => 6
  | Special => 7
  end.

Record InstructionInfo : Set := mkInfo {
  info_name : string;
  info_args : Z;
  info_ret : Z;
  info_tier : GasPriceTier;
}.

(** The assignments that fill the static array, in source order. *)
Definition INSTRUCTION_TABLE : list (Instruction * InstructionInfo) :=
[
  (STOP, mkInfo "STOP" 0 0 Zero);
  (ADD, mkInfo "ADD" 2 1 VeryLow);
  (SUB, mkInfo "SUB" 2 1 VeryLow);
  (MUL, mkInfo "MUL" 2 1 Low);
  (DIV, mkInfo "DIV" 2 1 Low);
  (SDIV, mkInfo "SDIV" 2 1 Low);
  (MOD, mkInfo "MOD" 2 1 Low);
  (SMOD, mkInfo "SMOD" 2 1 Low);
  (EXP, mkInfo "EXP" 2 1 Special);
  (NOT, mkInfo "NOT" 1 1 VeryLow);
  (LT, mkInfo "LT" 2 1 VeryLow);
  (GT, mkInfo "GT" 2 1 VeryLow);
  (SLT, mkInfo "SLT" 2 1 VeryLow);
  (SGT, mkInfo "SGT" 2 1 VeryLow);
  (EQ, mkInfo "EQ" 2 1 VeryLow);
  (ISZERO, mkInfo "ISZERO" 1 1 VeryLow);
  (AND, mkInfo "AND" 2 1 VeryLow);
  (OR, mkInfo "OR" 2 1 VeryLow);
  (XOR, mkInfo "XOR" 2 1 VeryLow);
  (BYTE, mkInfo "BYTE" 2 1 VeryLow);
  (SHL, mkInfo "SHL" 2 1 VeryLow);
  (SHR, mkInfo "SHR" 2 1 VeryLow);
  (SAR, mkInfo "SAR" 2 1 VeryLow);
  (ADDMOD, mkInfo "ADDMOD" 3 1 Mid);
  (MULMOD, mkInfo "MULMOD" 3 1 Mid);
  (SIGNEXTEND, mkInfo "SIGNEXTEND" 2 1 Low);
  (RETURNDATASIZE, mkInfo "RETURNDATASIZE" 0 1 Base);
  (RETURNDATACOPY, mkInfo "RETURNDATACOPY" 3 0 VeryLow);
  (SHA3, mkInfo "SHA3" 2 1 Special);
  (ADDRESS, mkInfo "ADDRESS" 0 1 Base);
  (BALANCE, mkInfo "BALANCE" 1 1 Special);
  (ORIGIN, mkInfo "ORIGIN" 0 1 Base);
  (CALLER, mkInfo "CALLER" 0 1 Base);
  (CALLVALUE, mkInfo "CALLVALUE" 0 1 Base);
  (CALLDATALOAD, mkInfo "CALLDATALOAD" 1 1 VeryLow);
  (CALLDATASIZE, mkInfo "CALLDATASIZE" 0 1 Base);
  (CALLDATACOPY, mkInfo "CALLDATACOPY" 3 0 VeryLow);
  (EXTCODEHASH, mkInfo "EXTCODEHASH" 1 1 Special);
  (CODESIZE, mkInfo "CODESIZE" 0 1 Base);
  (CODECOPY, mkInfo "CODECOPY" 3 0 VeryLow);
  (GASPRICE, mkInfo "GASPRICE" 0 1 Base);
  (EXTCODESIZE, mkInfo "EXTCODESIZE" 1 1 Special);
  (EXTCODECOPY, mkInfo "EXTCODECOPY" 4 0 Special);
  (BLOCKHASH, mkInfo "BLOCKHASH" 1 1 Ext);
  (COINBASE, mkInfo "COINBASE" 0 1 Base);
  (TIMESTAMP, mkInfo "TIMESTAMP" 0 1 Base);
  (NUMBER, mkInfo "NUMBER" 0 1 Base);
  (DIFFICULTY, mkInfo "DIFFICULTY" 0 1 Base);
  (GASLIMIT, mkInfo "GASLIMIT" 0 1 Base);
  (CHAINID, mkInfo "CHAINID" 0 1 Base);
  (SELFBALANCE, mkInfo "SELFBALANCE" 0 1 Low);
  (POP, mkInfo "POP" 1 0 Base);
  (MLOAD, mkInfo "MLOAD" 1 1 VeryLow);
  (MSTORE, mkInfo "MSTORE" 2 0 VeryLow);
  (MSTORE8, mkInfo "MSTORE8" 2 0 VeryLow);
  (SLOAD, mkInfo "SLOAD" 1 1 Special);
  (SSTORE, mkInfo "SSTORE" 2 0 Special);
  (JUMP, mkInfo "JUMP" 1 0 Mid);
  (JUMPI, mkInfo "JUMPI" 2 0 High);
  (PC, mkInfo "PC" 0 1 Base);
  (MSIZE, mkInfo "MSIZE" 0 1 Base);
  (GAS, mkInfo "GAS" 0 1 Base);
  (JUMPDEST, mkInfo "JUMPDEST" 0 0 Special);
  (PUSH1, mkInfo "PUSH1" 0 1 VeryLow);
  (PUSH2, mkInfo "PUSH2" 0 1 VeryLow);
  (PUSH3, mkInfo "PUSH3" 0 1 VeryLow);
  (PUSH4, mkInfo "PUSH4" 0 1 VeryLow);
  (PUSH5, mkInfo "PUSH5" 0 1 VeryLow);
  (PUSH6, mkInfo "PUSH6" 0 1 VeryLow);
  (PUSH7, mkInfo "PUSH7" 0 1 VeryLow);
  (PUSH8, mkInfo "PUSH8" 0 1 VeryLow);
  (PUSH9, mkInfo "PUSH9" 0 1 VeryLow);
  (PUSH10, mkInfo "PUSH10" 0 1 VeryLow);
  (PUSH11, mkInfo "PUSH11" 0 1 VeryLow);
  (PUSH12, mkInfo "PUSH12" 0 1 VeryLow);
  (PUSH13, mkInfo "PUSH13" 0 1 VeryLow);
  (PUSH14, mkInfo "PUSH14" 0 1 VeryLow);
  (PUSH15, mkInfo "PUSH15" 0 1 VeryLow);
  (PUSH16, mkInfo "PUSH16" 0 1 VeryLow);
  (PUSH17, mkInfo "PUSH17" 0 1 VeryLow);
  (PUSH18, mkInfo "PUSH18" 0 1 VeryLow);
  (PUSH19, mkInfo "PUSH19" 0 1 VeryLow);
  (PUSH20, mkInfo "PUSH20" 0 1 VeryLow);
  (PUSH21, mkInfo "PUSH21" 0 1 VeryLow);
  (PUSH22, mkInfo "PUSH22" 0 1 VeryLow);
  (PUSH23, mkInfo "PUSH23" 0 1 VeryLow);
  (PUSH24, mkInfo "PUSH24" 0 1 VeryLow);
  (PUSH25, mkInfo "PUSH25" 0 1 VeryLow);
  (PUSH26, mkInfo "PUSH26" 0 1 VeryLow);
  (PUSH27, mkInfo "PUSH27" 0 1 VeryLow);
  (PUSH28, mkInfo "PUSH28" 0 1 VeryLow);
  (PUSH29, mkInfo "PUSH29" 0 1 VeryLow);
  (PUSH30, mkInfo "PUSH30" 0 1 VeryLow);
  (PUSH31, mkInfo "PUSH31" 0 1 VeryLow);
  (PUSH32, mkInfo "PUSH32" 0 1 VeryLow);
  (DUP1, mkInfo "DUP1" 1 2 VeryLow);
  (DUP2, mkInfo "DUP2" 2 3 VeryLow);
  (DUP3, mkInfo "DUP3" 3 4 VeryLow);
  (DUP4, mkInfo "DUP4" 4 5 VeryLow);
  (DUP5, mkInfo "DUP5" 5 6 VeryLow);
  (DUP6, mkInfo "DUP6" 6 7 VeryLow);
  (DUP7, mkInfo "DUP7" 7 8 VeryLow);
  (DUP8, mkInfo "DUP8" 8 9 VeryLow);
  (DUP9, mkInfo "DUP9" 9 10 VeryLow);
  (DUP10, mkInfo "DUP10" 10 11 VeryLow);
  (DUP11, mkInfo "DUP11" 11 12 VeryLow);
  (DUP12, mkInfo "DUP12" 12 13 VeryLow);
  (DUP13, mkInfo "DUP13" 13 14 VeryLow);
  (DUP14, mkInfo "DUP14" 14 15 VeryLow);
  (DUP15, mkInfo "DUP15" 15 16 VeryLow);
  (DUP16, mkInfo "DUP16" 16 17 VeryLow);
  (SWAP1, mkInfo "SWAP1" 2 2 VeryLow);
  (SWAP2, mkInfo "SWAP2" 3 3 VeryLow);
  (SWAP3, mkInfo "SWAP3" 4 4 VeryLow);
  (SWAP4, mkInfo "SWAP4" 5 5 VeryLow);
  (SWAP5, mkInfo "SWAP5" 6 6 VeryLow);
  (SWAP6, mkInfo "SWAP6" 7 7 VeryLow);
  (SWAP7, mkInfo "SWAP7" 8 8 VeryLow);
  (SWAP8, mkInfo "SWAP8" 9 9 VeryLow);
  (SWAP9, mkInfo "SWAP9" 10 10 VeryLow);
  (SWAP10, mkInfo "SWAP10" 11 11 VeryLow);
  (SWAP11, mkInfo "SWAP11" 12 12 VeryLow);
  (SWAP12, mkInfo "SWAP12" 13 13 VeryLow);
  (SWAP13, mkInfo "SWAP13" 14 14 VeryLow);
  (SWAP14, mkInfo "SWAP14" 15 15 VeryLow);
  (SWAP15, mkInfo "SWAP15" 16 16 VeryLow);
  (SWAP16, mkInfo "SWAP16" 17 17 VeryLow);
  (LOG0, mkInfo "LOG0" 2 0 Special);
  (LOG1, mkInfo "LOG1" 3 0 Special);
  (LOG2, mkInfo "LOG2" 4 0 Special);
  (LOG3, mkInfo "LOG3" 5 0 Special);
  (LOG4, mkInfo "LOG4" 6 0 Special);
  (BEGINSUB, mkInfo "BEGINSUB" 0 0 Base);
  (JUMPSUB, mkInfo "JUMPSUB" 1 0 High);
  (RETURNSUB, mkInfo "RETURNSUB" 0 0 Low);
  (CREATE, mkInfo "CREATE" 3 1 Special);
  (CALL, mkInfo "CALL" 7 1 Special);
  (CALLCODE, mkInfo "CALLCODE" 7 1 Special);
  (RETURN, mkInfo "RETURN" 2 0 Zero);
  (DELEGATECALL, mkInfo "DELEGATECALL" 6 1 Special);
  (STATICCALL, mkInfo "STATICCALL" 6 1 Special);
  (SUICIDE, mkInfo "SUICIDE" 1 0 Special);
  (CREATE2, mkInfo "CREATE2" 4 1 Special);
  (REVERT, mkInfo "REVERT" 2 0 Zero)
].

(** The slot of the array for a discriminant; [None] where nothing was assigned. *)
Definition INSTRUCTIONS (op : Z) : option InstructionInfo :=
  match list_find (fun p => to_u8 p.1 = op) INSTRUCTION_TABLE with
  | Some (_, p) => Some p.2
  | None => None
  end.

Definition info {E} (i : Instruction) : result E InstructionInfo := unwrap (INSTRUCTIONS (to_u8 i)).

Definition MAX_NO_OF_TOPICS : Z := 4.

Arguments info {E} !i /.

(** ** Lemmas *)

Lemma from_u8_to_u8 i : from_u8 (byte_of_Z (to_u8 i)) = Some i.
Proof. by destruct i. Qed.

Lemma to_u8_inj i j : to_u8 i = to_u8 j -> i = j.
Proof. intros H. apply (inj Some). by rewrite <- !from_u8_to_u8, H. Qed.

#[export] Instance Instruction_eq_dec : EqDecision Instruction.
Proof.
  intros i j. destruct (decide (to_u8 i = to_u8 j)) as [H | H].
  - left. by apply to_u8_inj.
  - right. congruence.
Defined.

Lemma from_u8_opcode b i : from_u8 b = Some i -> byte_to_Z b = to_u8 i.
Proof. intros H. destruct b; simpl in H; try discriminate; by injection H as <-. Qed.

(** Decoding inverts the discriminant: every instruction decodes from its own opcode, and
    a byte that decodes at all is the opcode of what it decodes to. Every instruction has an
    entry in the static table, so [Instruction::info] never panics. *)
Theorem instruction_table_complete i b :
  from_u8 (byte_of_Z (to_u8 i)) = Some i /\
  (from_u8 b = Some i -> byte_to_Z b = to_u8 i) /\
  exists inf, @info unit i = Ok inf.
Proof.
  split; [apply from_u8_to_u8 |]. split; [apply from_u8_opcode |].
  destruct i; vm_compute; eauto.
Qed.
