(* ===== verification/VmTypes.v ===== *)
(** * The VM's types and its interface to the world

    The data the interpreter exchanges with its caller (src/cfx-evm/src/vm): the cost schedule
    [Spec], the errors, return data, call and create parameters and results, and the [Context]
    trait through which an executing contract reads and changes accounts, storage and logs and
    asks for sub-calls. [Context] is a typeclass over the state [C] of the context; what the
    interpreter relies on is the class [ContextLaws]. *)

From S2P Require Import Prelude Word Arith.
From stdpp Require Import strings.
Local Open Scope Z_scope.

Inductive Space : Set := Ethereum.

Inductive CleanDustMode : Set := Off | BasicOnly | WithCodeAndStorage.

Record WasmCosts : Set := mkWasmCosts {
  wasm_regular : Z; wasm_div : Z; wasm_mul : Z; wasm_mem : Z; wasm_static_u256 : Z;
  wasm_static_address : Z; wasm_initial_mem : Z; wasm_grow_mem : Z; wasm_memcpy : Z;
  wasm_max_stack_height : Z; wasm_opcodes_mul : Z; wasm_opcodes_div : Z;
  wasm_have_create2 : bool; wasm_have_gasleft : bool;
}.

Record Spec : Set := mkSpec {
  exceptional_failed_code_deposit : bool;
  stack_limit : Z;
  max_depth : Z;
  tier_step_gas : list Z;
  exp_gas : Z;
  exp_byte_gas : Z;
  sha3_gas : Z;
  sha3_word_gas : Z;
  sload_gas : Z;
  sstore_set_gas : Z;
  sstore_reset_gas : Z;
  sstore_refund_gas : Z;
  jumpdest_gas : Z;
  log_gas : Z;
  log_data_gas : Z;
  log_topic_gas : Z;
  create_gas : Z;
  call_gas : Z;
  call_stipend : Z;
  call_value_transfer_gas : Z;
  call_new_account_gas : Z;
  suicide_refund_gas : Z;
  memory_gas : Z;
  quad_coeff_div : Z;
  create_data_gas : Z;
  create_data_limit : Z;
  tx_gas : Z;
  tx_create_gas : Z;
  tx_data_zero_gas : Z;
  tx_data_non_zero_gas : Z;
  copy_gas : Z;
  extcodesize_gas : Z;
  extcodecopy_base_gas : Z;
  balance_gas : Z;
  extcodehash_gas : Z;
  suicide_gas : Z;
  retire_gas : Z;
  eip1820_gas : Z;
  suicide_to_new_account_cost : Z;
  sub_gas_cap_divisor : option Z;
  no_empty : bool;
  kill_empty : bool;
  blockhash_gas : Z;
  kill_dust : CleanDustMode;
  keep_unsigned_nonce : bool;
  wasm : option WasmCosts;
  contract_start_nonce : Z;
  account_start_nonce : Z;
  evm_gas_ratio : Z;
  cip43_init : bool;
  cip43_contract : bool;
  cip62 : bool;
  cip64 : bool;
  cip71 : bool;
  cip78a : bool;
  cip78b : bool;
  cip90 : bool;
  cip94 : bool;
  cip94_activation_block_number : Z;
  cip97 : bool;
  cip98 : bool;
  cip105 : bool;
  cip_sigma_fix : bool;
}.

Definition genesis_spec : Spec := {|
  exceptional_failed_code_deposit := true;
  stack_limit := 1024;
  max_depth := 1024;
  tier_step_gas := [0; 2; 3; 5; 8; 10; 20; 0];
  exp_gas := 10;
  exp_byte_gas := 50;
  sha3_gas := 30;
  sha3_word_gas := 6;
  sload_gas := 200;
  sstore_set_gas := 20000;
  sstore_reset_gas := 5000;
  sstore_refund_gas := 15000;
  jumpdest_gas := 1;
  log_gas := 375;
  log_data_gas := 8;
  log_topic_gas := 375;
  create_gas := 32000;
  call_gas := 700;
  call_stipend := 2300;
  call_value_transfer_gas := 9000;
  call_new_account_gas := 25000;
  suicide_refund_gas := 24000;
  memory_gas := 3;
  quad_coeff_div := 512;
  create_data_gas := 200;
  create_data_limit := 49152;
  tx_gas := 21000;
  tx_create_gas := 53000;
  tx_data_zero_gas := 4;
  tx_data_non_zero_gas := 68;
  copy_gas := 3;
  extcodesize_gas := 700;
  extcodecopy_base_gas := 700;
  balance_gas := 400;
  extcodehash_gas := 400;
  suicide_gas := 5000;
  retire_gas := 5000000;
  eip1820_gas := 1500000;
  suicide_to_new_account_cost := 25000;
  sub_gas_cap_divisor := Some 64;
  no_empty := true;
  kill_empty := true;
  blockhash_gas := 20;
  kill_dust := Off;
  keep_unsigned_nonce := false;
  wasm := None;
  contract_start_nonce := U256 1 0 0 0;
  account_start_nonce := U256 0 0 0 0;
  evm_gas_ratio := 2;
  cip43_init := false;
  cip43_contract := false;
  cip62 := false;
  cip64 := false;
  cip71 := false;
  cip78a := false;
  cip78b := false;
  cip90 := false;
  cip94 := false;
  cip94_activation_block_number := 2 ^ 64 - 1;
  cip97 := false;
  cip98 := false;
  cip105 := false;
  cip_sigma_fix := false
|}.

(** ** Errors, results and parameters *)

Inductive Error : Set :=
| OutOfGas
| BadJumpDestination (destination : Z)
| BadInstruction (instruction : byte)
| StackUnderflow (instruction : string) (wanted on_stack : Z)
| OutOfStack (instruction : string) (wanted limit : Z)
| SubStackUnderflow (wanted on_stack : Z)
| OutOfSubStack (wanted limit : Z)
| InvalidSubEntry
| NotEnoughBalanceForStorage (required got : Z)
| ExceedStorageLimit
| BuiltIn (name : string)
| InternalContract (name : string)
| MutableCallInStaticContext
| StateDbError (err : string)
| Wasm (msg : string)
| OutOfBounds
| Reverted
| InvalidAddress (address : Z)
| ConflictAddress (address : Z).

Abbreviation vm_result := (result Error).

Record ReturnData : Set := mkReturnData { rd_mem : list byte; rd_offset : Z; rd_size : Z }.

Definition ReturnData_empty : ReturnData := mkReturnData [] 0 0.

(** [Deref for ReturnData]: the slice the buffer stands for. *)
Definition rd_deref (r : ReturnData) : option (list byte) :=
  slice (rd_mem r) (rd_offset r) (rd_offset r + rd_size r).

Inductive GasLeft : Set :=
| Known (gas_left : Z)
| NeedsReturn (gas_left : Z) (data : ReturnData) (apply_state : bool).

Inductive ActionValue : Set := Transfer (v : Z) | Apparent (v : Z).

Definition action_value (v : ActionValue) : Z :=
  match v with Transfer x | Apparent x => x end.

Inductive ParamsType : Set := Embedded | Separate.

Inductive CallType : Set := CallNone | Call | CallCode | DelegateCall | StaticCall.

#[global] Instance CallType_eq_dec : EqDecision CallType.
Proof. solve_decision. Defined.

Inductive CreateType : Set := CreateNone | CreateCREATE | CreateCREATE2.

Inductive CreateContractAddress : Set :=
| FromSenderNonce
| FromSenderSaltAndCodeHash (salt : Z).

Definition from_address_scheme (address : CreateContractAddress) : CreateType :=
  match address with
  | FromSenderNonce => CreateCREATE
  | FromSenderSaltAndCodeHash _ => CreateCREATE2
  end.

Record ActionParams : Set := mkActionParams {
  ap_space : Space;
  ap_code_address : Z;
  ap_code_hash : option Z;
  ap_address : Z;
  ap_sender : Z;
  ap_original_sender : Z;
  ap_gas : Z;
  ap_gas_price : Z;
  ap_value : ActionValue;
  ap_code : option (list byte);
  ap_data : option (list byte);
  ap_call_type : CallType;
  ap_create_type : CreateType;
  ap_params_type : ParamsType;
}.

Inductive TrapKind : Set :=
| TrapCall (params : ActionParams)
| TrapCreate (params : ActionParams).

Definition trap_params (t : TrapKind) : ActionParams :=
  match t with TrapCall p | TrapCreate p => p end.

Inductive ContractCreateResult : Set :=
| Created (address : Z) (space : Space) (gas_left : Z)
| CreateFailed (e : Error)
| CreateReverted (gas_left : Z) (data : ReturnData).

Inductive MessageCallResult : Set :=
| CallSuccess (gas_left : Z) (data : ReturnData)
| CallFailed (e : Error)
| CallReverted (gas_left : Z) (data : ReturnData).

Record Env : Set := mkEnv {
  env_number : Z;
  env_author : Z;
  env_timestamp : Z;
  env_difficulty : Z;
  env_gas_limit : Z;
  env_last_hash : Z;
  env_accumulated_gas_used : Z;
  env_epoch_height : Z;
}.

(** ** The [Context] trait

    [&self] methods read the context state, [&mut self] methods also return it. *)
Class Context (C : Type) : Type := {
  storage_at : C -> list byte -> vm_result Z;
  set_storage : list byte -> Z -> M Error C unit;
  ctx_exists : C -> Z -> vm_result bool;
  exists_and_not_null : C -> Z -> vm_result bool;
  origin_balance : C -> vm_result Z;
  balance : C -> Z -> vm_result Z;
  blockhash : Z -> M Error C Z;
  ctx_create : Z -> Z -> list byte -> CreateContractAddress ->
    M Error C (ContractCreateResult + TrapKind);
  ctx_call : Z -> Z -> Z -> option Z -> list byte -> Z -> CallType ->
    M Error C (MessageCallResult + TrapKind);
  extcode : C -> Z -> vm_result (option (list byte));
  extcodehash : C -> Z -> vm_result (option Z);
  extcodesize : C -> Z -> vm_result (option Z);
  ctx_log : list Z -> list byte -> M Error C unit;
  ctx_ret : Z -> ReturnData -> bool -> M Error C Z;
  ctx_suicide : Z -> Z -> M Error C unit;
  ctx_spec : C -> Spec;
  ctx_env : C -> Env;
  chain_id : C -> Z;
  ctx_space : C -> Space;
  ctx_depth : C -> Z;
  is_static : C -> bool;
  trace_next_instruction : Z -> byte -> Z -> C -> bool * C;
  trace_prepare_execute : Z -> byte -> Z -> option (Z * Z) -> option (Z * Z) -> C -> C;
  trace_executed : Z -> list Z -> list byte -> C -> C;
}.

(** ** What the interpreter relies on *)

(** A Rust vector holds at most [isize::MAX] bytes. *)
Definition wf_bytes (l : list byte) : Prop := len l < 2 ^ 63.

Definition wf_return_data (r : ReturnData) : Prop :=
  0 <= rd_offset r /\ 0 <= rd_size r /\ rd_offset r + rd_size r <= len (rd_mem r) /\
  len (rd_mem r) < 2 ^ 63.

(** Parameters of a cost schedule are small, so that sums and products of a few of them fit
    the 64-bit types they are computed in. *)
Definition small (x : Z) : Prop := 0 <= x < 0x40000000.
Definition small_pos (x : Z) : Prop := 0 < x < 0x40000000.

Record wf_spec (spec : Spec) : Prop := {
  wf_stack_limit : small (stack_limit spec);
  wf_tiers : exists t0 t1 t2 t3 t4 t5 t6 t7,
    tier_step_gas spec = [t0; t1; t2; t3; t4; t5; t6; t7] /\
    small t0 /\ small_pos t1 /\ small_pos t2 /\ small_pos t3 /\ small_pos t4 /\ small_pos t5 /\
    small_pos t6 /\ small t7;
  wf_exp_gas : small_pos (exp_gas spec);
  wf_exp_byte_gas : small (exp_byte_gas spec);
  wf_sha3_gas : small_pos (sha3_gas spec);
  wf_sha3_word_gas : small (sha3_word_gas spec);
  wf_sload_gas : small_pos (sload_gas spec);
  wf_sstore_set_gas : small_pos (sstore_set_gas spec);
  wf_sstore_reset_gas : small_pos (sstore_reset_gas spec);
  wf_log_gas : small_pos (log_gas spec);
  wf_log_data_gas : small (log_data_gas spec);
  wf_log_topic_gas : small (log_topic_gas spec);
  wf_create_gas : small_pos (create_gas spec);
  wf_call_gas : small_pos (call_gas spec);
  wf_call_stipend : small (call_stipend spec);
  wf_call_value_transfer_gas : small (call_value_transfer_gas spec);
  wf_stipend_lt : call_stipend spec < call_value_transfer_gas spec;
  wf_call_new_account_gas : small (call_new_account_gas spec);
  wf_memory_gas : small (memory_gas spec);
  wf_quad_coeff_div : quad_coeff_div spec = 512;
  wf_copy_gas : small (copy_gas spec);
  wf_extcodesize_gas : small_pos (extcodesize_gas spec);
  wf_extcodecopy_base_gas : small_pos (extcodecopy_base_gas spec);
  wf_balance_gas : small_pos (balance_gas spec);
  wf_extcodehash_gas : small_pos (extcodehash_gas spec);
  wf_suicide_gas : small (suicide_gas spec);
  wf_suicide_to_new_account_cost : small (suicide_to_new_account_cost spec);
  wf_sub_gas_cap_divisor : forall d, sub_gas_cap_divisor spec = Some d -> small_pos d;
  wf_blockhash_gas : small_pos (blockhash_gas spec);
  wf_evm_gas_ratio : small_pos (evm_gas_ratio spec);
  wf_max_depth : small (max_depth spec);
  wf_create_data_gas : small (create_data_gas spec);
  wf_contract_start_nonce : small (contract_start_nonce spec);
  wf_account_start_nonce : small (account_start_nonce spec);
  wf_tx_gas : small (tx_gas spec);
  wf_tx_create_gas : small (tx_create_gas spec);
  wf_tx_data_zero_gas : small (tx_data_zero_gas spec);
  wf_tx_data_non_zero_gas : small (tx_data_non_zero_gas spec);
}.

Record wf_env (env : Env) : Prop := {
  wf_author : is_word 160 (env_author env);
  wf_timestamp : is_word 64 (env_timestamp env);
  wf_difficulty : is_u256 (env_difficulty env);
  wf_gas_limit : is_u256 (env_gas_limit env);
  wf_epoch_height : is_word 64 (env_epoch_height env);
}.

(** The parameters of a sub-call or creation carry the gas it was given. *)
Definition create_result_ok (gas : Z) (r : ContractCreateResult + TrapKind) : Prop :=
  match r with
  | inl (Created _ _ _) => False
  | inl (CreateReverted gas_left data) => 0 <= gas_left <= gas /\ wf_return_data data
  | inl (CreateFailed _) => True
  | inr (TrapCreate params) => ap_gas params = gas
  | inr (TrapCall _) => False
  end.

Definition call_result_ok (gas : Z) (r : MessageCallResult + TrapKind) : Prop :=
  match r with
  | inl (CallSuccess gas_left data) | inl (CallReverted gas_left data) =>
      0 <= gas_left <= gas /\ wf_return_data data
  | inl (CallFailed _) => True
  | inr (TrapCall params) => ap_gas params = gas
  | inr (TrapCreate _) => False
  end.

(** What the interpreter has checked when it asks for a contract to be created: that the frame
    may change the state, that its account can pay and that there is room for another frame. *)
Record create_args_ok {C} {CC : Context C} (spec : Spec) (owner : Z) (c : C) (value : Z)
    (code : list byte) : Prop := {
  cr_value : is_u256 value;
  cr_code : wf_bytes code;
  cr_static : is_static c = false;
  cr_depth : ctx_depth c < max_depth spec;
  cr_balance : exists b, balance c owner = Ok b /\ value <= b;
}.

(** The same for a call; one that transfers something does so from the account of the frame. *)
Record call_args_ok {C} {CC : Context C} (spec : Spec) (owner : Z) (c : C) (sender receiver : Z)
    (value : option Z) (data : list byte) (code_address : Z) (call_type : CallType) : Prop := {
  ca_sender : is_word 160 sender;
  ca_receiver : is_word 160 receiver;
  ca_code_address : is_word 160 code_address;
  ca_data : wf_bytes data;
  ca_depth : ctx_depth c < max_depth spec;
  ca_value :
    match value with
    | None => call_type = DelegateCall
    | Some v => is_u256 v /\
        (v = 0 \/ sender = owner /\ (exists b, balance c owner = Ok b /\ v <= b) /\
           call_type <> StaticCall /\ (call_type = Call -> is_static c = false))
    end;
  ca_plain : call_type = Call -> receiver = code_address;
}.

(** [ctx_inv] is the context's own invariant, for a frame that runs under the schedule [spec] on
    the account [owner]. Reads return values of their types and do not panic; updates keep the
    invariant. The block number [blockhash] is asked for must have a successor. Creating a
    contract increments a nonce, a word that does not wrap: [ctx_inv n] leaves room for [n]
    creations. [trap_ok] is what the context promises of the sub-calls it prepares. *)
Class ContextLaws (C : Type) {CC : Context C} (spec : Spec) (owner : Z)
    (ctx_inv : nat -> C -> Prop) (trap_ok : C -> TrapKind -> Prop) : Prop := {
  law_mono n m c : ctx_inv n c -> (m <= n)%nat -> ctx_inv m c;
  law_spec n c : ctx_inv n c -> ctx_spec c = spec;
  law_env n c : ctx_inv n c -> wf_env (ctx_env c);
  law_chain_id n c : ctx_inv n c -> is_u256 (chain_id c);
  law_storage_at n c k : ctx_inv n c -> rwp (storage_at c k) is_u256 (fun _ => True);
  law_exists n c a : ctx_inv n c -> rwp (ctx_exists c a) (fun _ => True) (fun _ => True);
  law_exists_and_not_null n c a :
    ctx_inv n c -> rwp (exists_and_not_null c a) (fun _ => True) (fun _ => True);
  law_origin_balance n c : ctx_inv n c -> rwp (origin_balance c) is_u256 (fun _ => True);
  law_balance n c a : ctx_inv n c -> rwp (balance c a) is_u256 (fun _ => True);
  law_extcode n c a :
    ctx_inv n c -> rwp (extcode c a) (fun o => wf_bytes (default [] o)) (fun _ => True);
  law_extcodehash n c a :
    ctx_inv n c -> rwp (extcodehash c a) (fun o => is_u256 (default 0 o)) (fun _ => True);
  law_extcodesize n c a :
    ctx_inv n c -> rwp (extcodesize c a) (fun o => is_usize (default 0 o)) (fun _ => True);
  law_set_storage n c k v :
    ctx_inv n c -> is_u256 v -> wp (set_storage k v) c (fun _ => ctx_inv n) (fun _ => ctx_inv n);
  law_blockhash n c b :
    ctx_inv n c -> 0 <= b -> b + 1 < 2 ^ 256 ->
    wp (blockhash b) c (fun h c' => is_u256 h /\ ctx_inv n c') (fun _ => ctx_inv n);
  law_create n c gas value code scheme :
    ctx_inv (S n) c -> is_u256 gas -> create_args_ok spec owner c value code ->
    wp (ctx_create gas value code scheme) c
      (fun r c' => create_result_ok gas r /\ ctx_inv n c' /\ forall t, r = inr t -> trap_ok c' t)
      (fun _ => ctx_inv n);
  law_call n c gas sender receiver value data code_address call_type :
    ctx_inv n c -> is_u256 gas ->
    call_args_ok spec owner c sender receiver value data code_address call_type ->
    wp (ctx_call gas sender receiver value data code_address call_type) c
      (fun r c' => call_result_ok gas r /\ ctx_inv n c' /\ forall t, r = inr t -> trap_ok c' t)
      (fun _ => ctx_inv n);
  law_log n c topics data :
    ctx_inv n c -> wp (ctx_log topics data) c (fun _ => ctx_inv n) (fun _ => ctx_inv n);
  law_suicide n c a :
    ctx_inv n c -> is_word 160 a ->
    wp (ctx_suicide a (account_start_nonce spec)) c (fun _ => ctx_inv n) (fun _ => ctx_inv n);
  law_trace_next_instruction n c pc op gas :
    ctx_inv n c -> ctx_inv n (trace_next_instruction pc op gas c).2;
  law_trace_prepare_execute n c pc op gas mw sw :
    ctx_inv n c -> ctx_inv n (trace_prepare_execute pc op gas mw sw c);
  law_trace_executed n c gas top mem : ctx_inv n c -> ctx_inv n (trace_executed gas top mem c);
}.

Lemma wf_genesis_spec : wf_spec genesis_spec.
Proof.
  assert (S : forall x, (0 <=? x) && (x <? 0x40000000) = true -> small x) by (unfold small; lia).
  assert (P : forall x, (0 <? x) && (x <? 0x40000000) = true -> small_pos x) by (unfold small_pos; lia).
  constructor; try (by apply S); try (by apply P); try reflexivity.
  - do 8 eexists. split; [reflexivity |]. repeat split; by vm_compute.
  - by intros d [= <-].
Qed.
