(* ===== verification/FrameContext.v ===== *)
(** * The context of a frame

    src/cfx-evm/src/call_create_frame/context.rs: the implementation of the [Context] trait the
    interpreter runs against, [contract_address] of frame.rs, [suicide] of
    internal_contract/impls/admin.rs and [Substate], [FrameStackInfo] and [cleanup_mode] of
    state/substate.rs. The world state behind it is the trait [StateOpsTrait] of
    backend/state/src/state_trait.rs: the class [StateOps], with what the context relies on as
    [StateLaws]. The fork has a single space, [Ethereum], so that an [AddressWithSpace] is an
    address. Keccak and RLP are third-party code and parameters.

    Shown here: the context satisfies [ContextLaws] whenever the state satisfies [StateLaws], so
    that the theorems about the interpreter apply to it; [blockhash] panics on the largest word;
    a static frame cannot change the state or leave logs. *)

From stdpp Require Import gmap.
From S2P Require Import Prelude Word Arith VmTypes.
Local Open Scope Z_scope.

(** ** The state *)

Inductive CleanupMode : Set := ForceCreate | NoEmpty | TrackTouched.

(** [StateOpsTrait], as far as a context uses it. A [CleanupMode::TrackTouched(set)] carries a
    reference to a set, which is part of the state of the methods that take one. *)
Class StateOps (S : Type) : Type := {
  st_balance : S -> Z -> vm_result Z;
  st_nonce : S -> Z -> vm_result Z;
  st_code_hash : S -> Z -> vm_result (option Z);
  st_code_size : S -> Z -> vm_result (option Z);
  st_code : S -> Z -> vm_result (option (list byte));
  st_exists : S -> Z -> vm_result bool;
  st_exists_and_not_null : S -> Z -> vm_result bool;
  st_storage_at : S -> Z -> list byte -> vm_result Z;
  st_set_storage : Z -> list byte -> Z -> M Error S unit;
  st_init_code : Z -> list byte -> M Error S unit;
  st_inc_nonce : Z -> Z -> M Error S unit;
  st_sub_balance : Z -> Z -> CleanupMode -> M Error (S * gset Z) unit;
  st_transfer_balance : Z -> Z -> Z -> CleanupMode -> Z -> M Error (S * gset Z) unit;
  st_subtract_total_issued : Z -> S -> S;
}.

(** ** Substates and the call stack *)

Record LogEntry : Set := mkLogEntry {
  log_address : Z;
  log_topics_of : list Z;
  log_data : list byte;
  log_space : Space;
}.

Record Substate : Type := mkSubstate {
  suicides : gset Z;
  touched : gset Z;
  logs : list LogEntry;
  contracts_created : list Z;
}.

Definition Substate_new : Substate := mkSubstate ∅ ∅ [] [].

Definition accrue (self s : Substate) : Substate :=
  mkSubstate (suicides self ∪ suicides s) (touched self ∪ touched s) (logs self ++ logs s)
    (contracts_created self ++ contracts_created s).

Definition cleanup_mode (spec : Spec) : CleanupMode :=
  let kills_dust := match kill_dust spec with Off => false | _ => true end in
  match kills_dust, no_empty spec, kill_empty spec with
  | false, false, _ => ForceCreate
  | false, true, false => NoEmpty
  | false, true, true | true, _, _ => TrackTouched
  end.

Record FrameStackInfo : Type := mkFrameStackInfo {
  (* the last element first *)
  call_stack_recipient_addresses : list (Z * bool);
  address_counter : gmap Z Z;
}.

Definition FrameStackInfo_new : FrameStackInfo := mkFrameStackInfo [] ∅.

Definition stack_push (self : FrameStackInfo) (address : Z) (is_create : bool) : vm_result FrameStackInfo :=
  let? n := checked_add 32 (default 0 (address_counter self !! address)) 1 in
  Ok (mkFrameStackInfo ((address, is_create) :: call_stack_recipient_addresses self)
        (<[address := n]> (address_counter self))).

Definition stack_pop (self : FrameStackInfo) : vm_result (option (Z * bool) * FrameStackInfo) :=
  match call_stack_recipient_addresses self with
  | [] => Ok (None, self)
  | (address, is_create) :: rest =>
      let? n := unwrap (address_counter self !! address) in
      let? n := checked_sub n 1 in
      let counter :=
        if n =? 0 then delete address (address_counter self)
        else <[address := n]> (address_counter self) in
      Ok (Some (address, is_create), mkFrameStackInfo rest counter)
  end.

Definition stack_last (self : FrameStackInfo) : option Z :=
  fst <$> head (call_stack_recipient_addresses self).

Definition stack_contains_key (self : FrameStackInfo) (key : Z) : bool :=
  bool_decide (is_Some (address_counter self !! key)).

(** ** The context *)

Record OriginInfo : Set := mkOriginInfo {
  oi_address : Z;
  oi_original_sender : Z;
  oi_gas_price : Z;
  oi_value : Z;
}.

Definition OriginInfo_from (params : ActionParams) : OriginInfo := {|
  oi_address := ap_address params;
  oi_original_sender := ap_original_sender params;
  oi_gas_price := ap_gas_price params;
  oi_value := action_value (ap_value params);
|}.

(** An active internal contract: its code and the hash of its code. *)
Record InternalContract : Set := mkInternalContract { ic_code : list byte; ic_code_hash : Z }.

(** [Context] and its [FrameContext]. The machine is what the context reads of it: the internal
    contracts active under the frame's specification, and the chain id at its height. *)
Record FrameContext (S : Type) : Type := mkFrameContext {
  fc_state : S;
  fc_space : Space;
  fc_env : Env;
  fc_depth : Z;
  fc_is_create : bool;
  fc_origin : OriginInfo;
  fc_substate : Substate;
  fc_internal_contracts : Z -> option InternalContract;
  fc_chain_id : Z;
  fc_spec : Spec;
  fc_static_flag : bool;
}.
Arguments mkFrameContext {S}.
Arguments fc_state {S}.
Arguments fc_space {S}.
Arguments fc_env {S}.
Arguments fc_depth {S}.
Arguments fc_is_create {S}.
Arguments fc_origin {S}.
Arguments fc_substate {S}.
Arguments fc_internal_contracts {S}.
Arguments fc_chain_id {S}.
Arguments fc_spec {S}.
Arguments fc_static_flag {S}.

(** [UNSIGNED_SENDER]: the address of twenty [0xff] bytes. *)
Definition UNSIGNED_SENDER : Z := 2 ^ 160 - 1.

Section context.
Context {S : Type} {SS : StateOps S}.
Context (keccak : list byte -> Z).
(** The RLP encoding of the pair of a sender and its nonce. *)
Context (rlp_sender_nonce : Z -> Z -> list byte).

Abbreviation Ctx := (FrameContext S).

Definition set_state (s : S) (c : Ctx) : Ctx :=
  mkFrameContext s (fc_space c) (fc_env c) (fc_depth c) (fc_is_create c) (fc_origin c)
    (fc_substate c) (fc_internal_contracts c) (fc_chain_id c) (fc_spec c) (fc_static_flag c).

Definition set_substate (s : Substate) (c : Ctx) : Ctx :=
  mkFrameContext (fc_state c) (fc_space c) (fc_env c) (fc_depth c) (fc_is_create c) (fc_origin c)
    s (fc_internal_contracts c) (fc_chain_id c) (fc_spec c) (fc_static_flag c).

(** A mutation of the state part. *)
Definition state_do {A} (m : M Error S A) : M Error Ctx A := fun c =>
  let '(r, s) := m (fc_state c) in (r, set_state s c).

(** A mutation of the state and of the touched accounts. *)
Definition touch_do {A} (m : M Error (S * gset Z) A) : M Error Ctx A := fun c =>
  let sub := fc_substate c in
  let '(r, (s, t)) := m (fc_state c, touched sub) in
  (r, set_state s (set_substate (mkSubstate (suicides sub) t (logs sub) (contracts_created sub)) c)).

Definition contract_address (address_scheme : CreateContractAddress) (sender nonce : Z)
    (code : list byte) : Z * option Z :=
  let code_hash := keccak code in
  match address_scheme with
  | FromSenderNonce =>
      (u256_to_address (keccak (rlp_sender_nonce sender nonce)), Some code_hash)
  | FromSenderSaltAndCodeHash salt =>
      let buffer := [xff] ++ to_be 20 sender ++ to_be 32 salt ++ to_be 32 code_hash in
      (u256_to_address (keccak buffer), Some code_hash)
  end.

(** [suicide] of the internal contract component; its tracer only observes. *)
Definition suicide (contract_address refund_address : Z) (account_start_nonce : Z) : M Error Ctx unit :=
  modify (fun c =>
    let sub := fc_substate c in
    set_substate (mkSubstate ({[contract_address]} ∪ suicides sub) (touched sub) (logs sub)
                    (contracts_created sub)) c) ;;;
  c <~ get ;;
  balance <~ lift (st_balance (fc_state c) contract_address) ;;
  if refund_address =? contract_address then
    touch_do (st_sub_balance contract_address balance (cleanup_mode (fc_spec c))) ;;;
    modify (fun c => set_state (st_subtract_total_issued balance (fc_state c)) c)
  else
    touch_do (st_transfer_balance contract_address refund_address balance
                (cleanup_mode (fc_spec c)) account_start_nonce).

Definition fc_set_storage (key : list byte) (value : Z) : M Error Ctx unit := fun c =>
  let caller := oi_address (fc_origin c) in
  if fc_static_flag c then (Err MutableCallInStaticContext, c)
  else state_do (st_set_storage caller key value) c.

Definition fc_blockhash (number : Z) : M Error Ctx Z := fun c =>
  (let? next := checked_add 256 number 1 in
   if cip98 (fc_spec c) then
     Ok (if env_epoch_height (fc_env c) =? next then env_last_hash (fc_env c) else 0)
   else Ok (if env_number (fc_env c) =? next then env_last_hash (fc_env c) else 0), c).

Definition fc_create (gas value : Z) (code : list byte) (address_scheme : CreateContractAddress) :
    M Error Ctx (ContractCreateResult + TrapKind) :=
  c <~ get ;;
  let caller := oi_address (fc_origin c) in
  let create_type := from_address_scheme address_scheme in
  nonce <~ lift (st_nonce (fc_state c) caller) ;;
  let '(address, code_hash) := contract_address address_scheme caller nonce code in
  let params := {|
    ap_space := fc_space c;
    ap_code_address := address;
    ap_code_hash := code_hash;
    ap_address := address;
    ap_sender := caller;
    ap_original_sender := oi_original_sender (fc_origin c);
    ap_gas := gas;
    ap_gas_price := oi_gas_price (fc_origin c);
    ap_value := Transfer value;
    ap_code := Some code;
    ap_data := None;
    ap_call_type := CallNone;
    ap_create_type := create_type;
    ap_params_type := Embedded
  |} in
  (if negb (fc_static_flag c)
      && (negb (keep_unsigned_nonce (fc_spec c)) || negb (caller =? UNSIGNED_SENDER))
   then state_do (st_inc_nonce caller (contract_start_nonce (fc_spec c)))
   else ret tt) ;;;
  ret (inr (TrapCreate params)).

Definition fc_call (gas sender_address receive_address : Z) (value : option Z) (data : list byte)
    (code_address : Z) (call_type : CallType) : M Error Ctx (MessageCallResult + TrapKind) :=
  c <~ get ;;
  code_and_hash <~
    match fc_internal_contracts c code_address with
    | Some contract => ret (Some (ic_code contract), Some (ic_code_hash contract))
    | None =>
        code <~ lift (st_code (fc_state c) code_address) ;;
        code_hash <~ lift (st_code_hash (fc_state c) code_address) ;;
        ret (code, code_hash)
    end ;;
  let '(code, code_hash) := code_and_hash in
  ret (inr (TrapCall {|
    ap_space := fc_space c;
    ap_code_address := code_address;
    ap_code_hash := code_hash;
    ap_address := receive_address;
    ap_sender := sender_address;
    ap_original_sender := oi_original_sender (fc_origin c);
    ap_gas := gas;
    ap_gas_price := oi_gas_price (fc_origin c);
    ap_value := match value with Some v => Transfer v | None => Apparent (oi_value (fc_origin c)) end;
    ap_code := code;
    ap_data := Some data;
    ap_call_type := call_type;
    ap_create_type := CreateNone;
    ap_params_type := Separate
  |})).

Definition fc_extcode (c : Ctx) (address : Z) : vm_result (option (list byte)) :=
  match fc_internal_contracts c address with
  | Some contract => Ok (Some (ic_code contract))
  | None => st_code (fc_state c) address
  end.

Definition fc_extcodehash (c : Ctx) (address : Z) : vm_result (option Z) :=
  match fc_internal_contracts c address with
  | Some contract => Ok (Some (ic_code_hash contract))
  | None => st_code_hash (fc_state c) address
  end.

Definition fc_extcodesize (c : Ctx) (address : Z) : vm_result (option Z) :=
  match fc_internal_contracts c address with
  | Some contract => Ok (Some (len (ic_code contract)))
  | None => st_code_size (fc_state c) address
  end.

Definition fc_log (topics : list Z) (data : list byte) : M Error Ctx unit := fun c =>
  if fc_static_flag c then (Err MutableCallInStaticContext, c)
  else
    let sub := fc_substate c in
    let entry := mkLogEntry (oi_address (fc_origin c)) topics data (fc_space c) in
    (Ok tt, set_substate (mkSubstate (suicides sub) (touched sub) (logs sub ++ [entry])
                            (contracts_created sub)) c).

Definition fc_ret (gas : Z) (data : ReturnData) (apply_state : bool) : M Error Ctx Z :=
  c <~ get ;;
  let caller := oi_address (fc_origin c) in
  let spec := fc_spec c in
  if negb (fc_is_create c) then ret gas
  else if apply_state then
    create_data_gas <~ lift (checked_mul 64 (create_data_gas spec)
                               (match fc_space c with Ethereum => evm_gas_ratio spec end)) ;;
    bytes <~ lift (unwrap (rd_deref data)) ;;
    return_cost <~ lift (checked_mul 256 (len bytes) create_data_gas) ;;
    if (gas <? return_cost) || (create_data_limit spec <? len bytes) then
      if exceptional_failed_code_deposit spec then throw OutOfGas else ret gas
    else
      state_do (st_init_code caller bytes) ;;;
      lift (checked_sub gas return_cost)
  else ret gas.

Definition fc_suicide (refund_address account_start_nonce : Z) : M Error Ctx unit := fun c =>
  if fc_static_flag c then (Err MutableCallInStaticContext, c)
  else suicide (oi_address (fc_origin c)) refund_address account_start_nonce c.

(** [impl ContextTrait for Context]. [trace_next_instruction] answers [false], so that the
    other tracing callbacks are never made. *)
#[export] Instance frame_context : Context Ctx := {|
  storage_at c key := st_storage_at (fc_state c) (oi_address (fc_origin c)) key;
  set_storage := fc_set_storage;
  ctx_exists c a := st_exists (fc_state c) a;
  exists_and_not_null c a := st_exists_and_not_null (fc_state c) a;
  origin_balance c := st_balance (fc_state c) (oi_address (fc_origin c));
  balance c a := st_balance (fc_state c) a;
  blockhash := fc_blockhash;
  ctx_create := fc_create;
  ctx_call := fc_call;
  extcode := fc_extcode;
  extcodehash := fc_extcodehash;
  extcodesize := fc_extcodesize;
  ctx_log := fc_log;
  ctx_ret := fc_ret;
  ctx_suicide := fc_suicide;
  ctx_spec := fc_spec;
  ctx_env := fc_env;
  chain_id := fc_chain_id;
  ctx_space := fc_space;
  ctx_depth := fc_depth;
  is_static := fc_static_flag;
  trace_next_instruction _ _ _ c := (false, c);
  trace_prepare_execute _ _ _ _ _ c := c;
  trace_executed _ _ _ c := c;
|}.
End context.

(** ** What the context relies on *)

(** An account can be debited a value. *)
Definition affordable {S} {SS : StateOps S} (s : S) (a v : Z) : Prop :=
  v = 0 \/ exists b, st_balance s a = Ok b /\ 0 <= v <= b.

(** Reads of the state return values of their types; updates keep its invariant and do not
    panic. Nonces and balances are words that do not wrap: [st_inv n] leaves room for [n] more
    increments of a nonce and bounds the sum of all balances; an account is debited at most what
    it holds, and one that receives a value can pay it. *)
Class StateLaws (S : Type) {SS : StateOps S} (st_inv : nat -> S -> Prop) : Prop := {
  sl_mono n m s : st_inv n s -> (m <= n)%nat -> st_inv m s;
  sl_balance n s a : st_inv n s -> rwp (st_balance s a) is_u256 (fun _ => True);
  sl_nonce n s a : st_inv n s -> rwp (st_nonce s a) is_u256 (fun _ => True);
  sl_code_hash n s a :
    st_inv n s -> rwp (st_code_hash s a) (fun o => is_u256 (default 0 o)) (fun _ => True);
  sl_code_size n s a :
    st_inv n s -> rwp (st_code_size s a) (fun o => is_usize (default 0 o)) (fun _ => True);
  sl_code n s a :
    st_inv n s -> rwp (st_code s a) (fun o => wf_bytes (default [] o)) (fun _ => True);
  sl_exists n s a : st_inv n s -> rwp (st_exists s a) (fun _ => True) (fun _ => True);
  sl_exists_and_not_null n s a :
    st_inv n s -> rwp (st_exists_and_not_null s a) (fun _ => True) (fun _ => True);
  sl_storage_at n s a k : st_inv n s -> rwp (st_storage_at s a k) is_u256 (fun _ => True);
  sl_set_storage n s a k v :
    st_inv n s -> is_u256 v -> wp (st_set_storage a k v) s (fun _ => st_inv n) (fun _ => st_inv n);
  sl_init_code n s a code :
    st_inv n s -> wf_bytes code ->
    wp (st_init_code a code) s (fun _ => st_inv n) (fun _ => st_inv n);
  sl_inc_nonce n s a start :
    st_inv (Datatypes.S n) s -> small start ->
    wp (st_inc_nonce a start) s
      (fun _ s' => st_inv n s' /\ forall b, st_balance s' b = st_balance s b) (fun _ => st_inv n);
  sl_sub_balance n s t a v m :
    st_inv n s -> affordable s a v ->
    wp (st_sub_balance a v m) (s, t) (fun _ p => st_inv n p.1) (fun _ p => st_inv n p.1);
  sl_transfer_balance n s t a a' v m start :
    st_inv n s -> affordable s a v -> small start ->
    wp (st_transfer_balance a a' v m start) (s, t)
      (fun _ p => st_inv n p.1 /\ affordable p.1 a' v) (fun _ p => st_inv n p.1);
  sl_subtract_total_issued n s v : st_inv n s -> st_inv n (st_subtract_total_issued v s);
}.

(** What distinguishes a frame and does not change while it runs. *)
Record FrameConstants : Type := mkFrameConstants {
  k_env : Env;
  k_depth : Z;
  k_is_create : bool;
  k_origin : OriginInfo;
  k_internal_contracts : Z -> option InternalContract;
  k_chain_id : Z;
  k_static_flag : bool;
}.

Definition constants_of {S} (c : FrameContext S) : FrameConstants :=
  mkFrameConstants (fc_env c) (fc_depth c) (fc_is_create c) (fc_origin c) (fc_internal_contracts c)
    (fc_chain_id c) (fc_static_flag c).

Record wf_constants (spec : Spec) (k : FrameConstants) : Prop := {
  wk_env : wf_env (k_env k);
  wk_last_hash : is_u256 (env_last_hash (k_env k));
  wk_chain_id : is_u256 (k_chain_id k);
  wk_internal : forall a ic, k_internal_contracts k a = Some ic ->
    wf_bytes (ic_code ic) /\ is_u256 (ic_code_hash ic);
  wk_depth : 0 <= k_depth k <= max_depth spec;
  wk_address : is_word 160 (oi_address (k_origin k));
  wk_original_sender : is_word 160 (oi_original_sender (k_origin k));
  wk_gas_price : is_u256 (oi_gas_price (k_origin k));
  wk_value : is_u256 (oi_value (k_origin k));
}.

(** The parameters of a frame that is about to run. *)
Record callee_ok (p : ActionParams) : Prop := {
  ce_address : is_word 160 (ap_address p);
  ce_code_address : is_word 160 (ap_code_address p);
  ce_sender : is_word 160 (ap_sender p);
  ce_original_sender : is_word 160 (ap_original_sender p);
  ce_gas_price : is_u256 (ap_gas_price p);
  ce_value : is_u256 (action_value (ap_value p));
  ce_data : wf_bytes (default [] (ap_data p));
  ce_code : wf_bytes (default [] (ap_code p));
}.

(** The value of a frame, if it is transferred, can be paid by its sender. *)
Definition payable {S} {SS : StateOps S} (s : S) (p : ActionParams) : Prop :=
  forall v, ap_value p = Transfer v -> affordable s (ap_sender p) v.

(** What [check_static_flag] checks of the frame called. *)
Definition may_transfer (static : bool) (p : ActionParams) : Prop :=
  static || bool_decide (ap_call_type p = StaticCall) = true ->
  ap_call_type p = StaticCall \/ ap_call_type p = Call -> action_value (ap_value p) = 0.

(** A plain call runs the code of the account it is made to, which receives the value. *)
Definition plain_call (p : ActionParams) : Prop :=
  ap_call_type p = Call -> ap_address p = ap_code_address p /\ exists v, ap_value p = Transfer v.

Record trap_ok {S} {SS : StateOps S} (spec : Spec) (c : FrameContext S) (t : TrapKind) : Prop := {
  tr_depth : fc_depth c < max_depth spec;
  tr_callee : callee_ok (trap_params t);
  tr_payable : payable (fc_state c) (trap_params t);
  tr_kind :
    match t with
    | TrapCall p => may_transfer (fc_static_flag c) p /\ plain_call p
    | TrapCreate p => fc_static_flag c = false /\ is_Some (ap_code p) /\
        (exists v, ap_value p = Transfer v) /\ ap_address p = ap_code_address p
    end;
}.

Section laws.
Context {S : Type} {SS : StateOps S} {st_inv : nat -> S -> Prop} {SL : StateLaws S st_inv}.
Context (keccak : list byte -> Z) (Hkeccak : forall l, is_u256 (keccak l)).
Context (rlp_sender_nonce : Z -> Z -> list byte).
Context (spec : Spec) (W : wf_spec spec).
Context (k : FrameConstants) (K : wf_constants spec k).

Abbreviation Ctx := (FrameContext S).
Local Instance the_context : Context Ctx := frame_context keccak rlp_sender_nonce.

Record frame_context_inv (n : nat) (c : Ctx) : Prop := {
  fi_state : st_inv n (fc_state c);
  fi_spec : fc_spec c = spec;
  fi_constants : constants_of c = k;
}.

Lemma inv_set_state n m c s :
  frame_context_inv n c -> st_inv m s -> frame_context_inv m (set_state s c).
Proof. intros [] Hs. by constructor. Qed.

Lemma inv_set_substate n c s : frame_context_inv n c -> frame_context_inv n (set_substate s c).
Proof. intros []. by constructor. Qed.

Lemma wp_state_do {A} n m (x : M Error S A) c (Q : A -> S -> Prop) :
  frame_context_inv n c ->
  wp x (fc_state c) (fun a s => Q a s /\ st_inv m s) (fun _ => st_inv m) ->
  wp (state_do x) c
    (fun a c' => Q a (fc_state c') /\ frame_context_inv m c' /\ fc_origin c' = fc_origin c)
    (fun _ => frame_context_inv m).
Proof.
  intros Hc Hm. unfold wp, state_do in *. destruct (x (fc_state c)) as [[a | e |] s]; cbn in *.
  - destruct Hm. split_and!; [done | by eapply inv_set_state | done].
  - by eapply inv_set_state.
  - done.
Qed.

Lemma wp_touch_do {A} n (x : M Error (S * gset Z) A) c :
  frame_context_inv n c ->
  wp x (fc_state c, touched (fc_substate c)) (fun _ p => st_inv n p.1) (fun _ p => st_inv n p.1) ->
  wp (touch_do x) c (fun _ => frame_context_inv n) (fun _ => frame_context_inv n).
Proof.
  intros Hc Hm. unfold wp, touch_do in *. destruct (x _) as [[a | e |] [s t]]; cbn in *; [| | done];
    by eapply inv_set_state; [apply inv_set_substate |].
Qed.

Lemma suicide_ok n a a' c :
  frame_context_inv n c ->
  wp (suicide a a' (account_start_nonce spec)) c (fun _ => frame_context_inv n)
    (fun _ => frame_context_inv n).
Proof.
  intros Hc. unfold suicide. apply wp_bind, wp_modify. set (c1 := set_substate _ c).
  assert (Hc1 : frame_context_inv n c1) by by apply inv_set_substate. clearbody c1.
  apply wp_bind, wp_get, wp_bind, wp_lift.
  pose proof (sl_balance n (fc_state c1) a (fi_state _ _ Hc1)) as Hb.
  destruct (st_balance (fc_state c1) a) as [b | |] eqn:E; cbn in *; [| done | done].
  destruct Hb as [Hb _]. case_if.
  - apply wp_bind. eapply wp_mono; [apply wp_touch_do; [done |] | | done].
    + apply sl_sub_balance; [apply Hc1 | right; exists b; split; [done | lia]].
    + intros [] c2 Hc2. apply wp_modify. eapply inv_set_state; [done |].
      apply sl_subtract_total_issued, Hc2.
  - apply wp_touch_do; [done |].
    eapply wp_mono; [apply sl_transfer_balance | by intros ? ? [] | done];
      [apply Hc1 | right; exists b; split; [done | lia] | apply (wf_account_start_nonce _ W)].
Qed.

Lemma is_word_u256_to_address x : is_word 160 (u256_to_address x).
Proof. unfold u256_to_address. auto with lia hemvm. Qed.

Lemma create_ok n gas value code scheme c :
  frame_context_inv (Datatypes.S n) c ->
  create_args_ok spec (oi_address (k_origin k)) c value code ->
  wp (fc_create keccak rlp_sender_nonce gas value code scheme) c
    (fun r c' => create_result_ok gas r /\ frame_context_inv n c' /\
       forall t, r = inr t -> trap_ok spec c' t) (fun _ => frame_context_inv n).
Proof.
  intros Hc [Hv Hcode Hst Hd Hb]. cbn in Hst, Hd, Hb.
  assert (Hn : frame_context_inv n c).
  { destruct Hc. constructor; [| done | done]. eapply sl_mono; [done | lia]. }
  pose proof (fi_constants _ _ Hc) as Hk. pose proof (f_equal k_origin Hk) as Ho. cbn in Ho.
  unfold fc_create. apply wp_bind, wp_get, wp_bind, wp_lift.
  eapply rwp_mono; [eapply sl_nonce, Hc | | done]. intros nonce _. cbn beta.
  assert (Ha : is_word 160 (contract_address keccak rlp_sender_nonce scheme
    (oi_address (fc_origin c)) nonce code).1).
  { unfold contract_address. destruct scheme; apply is_word_u256_to_address. }
  destruct (contract_address _ _ _ _ _ _) as [address code_hash]. cbn [fst] in Ha.
  set (p := mkActionParams _ _ _ _ _ _ _ _ _ _ _ _ _ _).
  assert (Htrap : forall c', frame_context_inv n c' ->
    (forall b, st_balance (fc_state c') b = st_balance (fc_state c) b) -> trap_ok spec c' (TrapCreate p)).
  { intros c' Hc' Hsame. pose proof (fi_constants _ _ Hc') as Hk'. rewrite <- Hk in Hk'.
    injection Hk' as E1 E2 E3 E4 E5 E6 E7. destruct K. rewrite <- Ho in *.
    constructor; cbn [trap_params p].
    - by rewrite E2.
    - constructor; cbn; try done.
    - intros v [= <-]. right. destruct Hb as (b & Eb & Hle). exists b. cbn. rewrite Hsame. destruct Hv. by rewrite <- ?Ho.
    - rewrite E7. split_and!; [done | by eexists | by eexists | done]. }
  apply wp_bind. case_if; cycle 1.
  { apply wp_ret. cbv beta. apply wp_ret. split_and!; [done | done |]. intros t [= <-]. by apply Htrap. }
  eapply wp_mono.
  - apply (wp_state_do n n _ c (fun _ s' => forall b, st_balance s' b = st_balance (fc_state c) b)); [done |].
    eapply wp_mono; [eapply sl_inc_nonce; [apply Hc |] | | done].
    + rewrite (fi_spec _ _ Hc). apply (wf_contract_start_nonce _ W).
    + by intros [] s' [? ?].
  - intros [] c' (Hs & Hc' & _). apply wp_ret. split_and!; [done | done |]. intros t [= <-]. by apply Htrap.
  - done.
Qed.

Lemma call_ok n gas sender receiver value data code_address call_type c :
  frame_context_inv n c ->
  call_args_ok spec (oi_address (k_origin k)) c sender receiver value data code_address call_type ->
  wp (fc_call gas sender receiver value data code_address call_type) c
    (fun r c' => call_result_ok gas r /\ frame_context_inv n c' /\
       forall t, r = inr t -> trap_ok spec c' t) (fun _ => frame_context_inv n).
Proof.
  intros Hc [Hs Hr Hca Hdata Hd Hv Hplain]. cbn in Hd.
  pose proof (f_equal k_origin (fi_constants _ _ Hc)) as Ho. cbn in Ho.
  assert (Htrap : forall code code_hash, wf_bytes (default [] code) -> trap_ok spec c (TrapCall
    (mkActionParams (fc_space c) code_address code_hash receiver sender
       (oi_original_sender (fc_origin c)) gas (oi_gas_price (fc_origin c))
       (match value with Some v => Transfer v | None => Apparent (oi_value (fc_origin c)) end)
       code (Some data) call_type CreateNone Separate))).
  { intros code code_hash Hcode. destruct K. rewrite <- Ho in *. constructor; cbn [trap_params]; [done | | |].
    - constructor; cbn; try done. destruct value as [v |]; [by destruct Hv | done].
    - intros v E. cbn in E. destruct value as [v' |]; [| done]. injection E as ->.
      destruct Hv as [[? _] [-> | (-> & (b & Eb & Hle) & _)]]; [by left | right]. cbn in Eb |- *. by exists b.
    - split; [| intros E; split; [by apply Hplain |]; destruct value; [by eexists | by rewrite Hv in E]].
      intros Hst Ht. cbn in Hst, Ht |- *. destruct value as [v |]; cbn.
      + destruct Hv as [_ [-> | (_ & _ & Hne & Hcall)]]; [done |]. exfalso.
        destruct Ht as [-> | ->]; [done |]. rewrite bool_decide_false in Hst by done.
        cbn in Hcall. rewrite (Hcall eq_refl) in Hst. done.
      + by rewrite Hv in Ht; destruct Ht. }
  unfold fc_call. apply wp_bind, wp_get, wp_bind.
  destruct (fc_internal_contracts c code_address) as [ic |] eqn:Eic.
  { apply wp_ret. cbv beta. apply wp_ret. split_and!; [done | done |]. intros t [= <-]. apply Htrap.
    pose proof (f_equal k_internal_contracts (fi_constants _ _ Hc)) as Hi. cbn in Hi.
    rewrite Hi in Eic. by destruct (wk_internal _ _ K _ _ Eic). }
  apply wp_bind, wp_lift. eapply rwp_mono; [eapply sl_code, Hc | | done]. intros code Hcode. cbn beta.
  apply wp_bind, wp_lift. eapply rwp_mono; [eapply sl_code_hash, Hc | | done]. intros h _. cbn beta.
  apply wp_ret. cbv beta. apply wp_ret. split_and!; [done | done |]. intros t [= <-]. by apply Htrap.
Qed.

Lemma constants_ok n c : frame_context_inv n c -> wf_constants spec (constants_of c).
Proof. intros Hc. by rewrite (fi_constants _ _ Hc). Qed.

(** The context implements its interface. *)
#[export] Instance frame_context_laws :
  ContextLaws Ctx spec (oi_address (k_origin k)) frame_context_inv (trap_ok spec).
Proof.
  constructor; cbn.
  - intros n m c [] Hle. constructor; [by eapply sl_mono | done | done].
  - by intros n c [].
  - intros n c Hc. by destruct (constants_ok _ _ Hc).
  - intros n c Hc. by destruct (constants_ok _ _ Hc).
  - intros n c key Hc. eapply sl_storage_at, Hc.
  - intros n c a Hc. eapply sl_exists, Hc.
  - intros n c a Hc. eapply sl_exists_and_not_null, Hc.
  - intros n c Hc. eapply sl_balance, Hc.
  - intros n c a Hc. eapply sl_balance, Hc.
  - intros n c a Hc. unfold fc_extcode. destruct (fc_internal_contracts c a) eqn:E; [| eapply sl_code, Hc].
    by destruct (wk_internal _ _ (constants_ok _ _ Hc) _ _ E).
  - intros n c a Hc. unfold fc_extcodehash.
    destruct (fc_internal_contracts c a) eqn:E; [| eapply sl_code_hash, Hc].
    by destruct (wk_internal _ _ (constants_ok _ _ Hc) _ _ E).
  - intros n c a Hc. unfold fc_extcodesize.
    destruct (fc_internal_contracts c a) as [ic |] eqn:E; [| eapply sl_code_size, Hc].
    destruct (wk_internal _ _ (constants_ok _ _ Hc) _ _ E) as [Hb _]. unfold wf_bytes in Hb. cbn.
    pose proof (len_nonneg (ic_code ic)). split; lia.
  - intros n c key v Hc Hv. unfold fc_set_storage, wp.
    destruct (fc_static_flag c); [done |].
    pose proof (wp_state_do n n (st_set_storage (oi_address (fc_origin c)) key v) c (fun _ _ => True) Hc) as H.
    change (wp (state_do (st_set_storage (oi_address (fc_origin c)) key v)) c
      (fun _ => frame_context_inv n) (fun _ => frame_context_inv n)).
    eapply wp_mono; [apply H | by intros ? ? (_ & ? & _) | done].
    eapply wp_mono; [apply sl_set_storage; [apply Hc | done] | done | done].
  - intros n c b Hc Hn Hn'. unfold fc_blockhash, wp, checked_add.
    rewrite (proj2 (Z.ltb_lt (b + 1) (2 ^ 256))) by lia. cbn [result_bind fst snd].
    pose proof (wk_last_hash _ _ (constants_ok _ _ Hc)) as Hh. cbn in Hh. assert (is_u256 0) by by split.
    destruct (cip98 (fc_spec c)); cbn [rwp]; (split; [case_if; done | done]).
  - intros n c gas value code scheme Hc _ Ha. by apply create_ok.
  - intros n c gas sender receiver value data a t Hc _ Ha. by apply call_ok.
  - intros n c topics data Hc. unfold fc_log, wp. destruct (fc_static_flag c); [done |].
    by apply inv_set_substate.
  - intros n c a Hc _. unfold fc_suicide, wp. destruct (fc_static_flag c); [done |]. by apply suicide_ok.
  - done.
  - done.
  - done.
Qed.
End laws.

(** ** Static frames *)

(** A static frame changes nothing: in a context whose static flag is set, storage writes,
    logs and self-destruction fail with [MutableCallInStaticContext] and leave the context as
    it was, and preparing a sub-call or reading a block hash does not change it either. *)
Theorem static_context_unchanged {S} {SS : StateOps S} (keccak : list byte -> Z)
    (rlp_sender_nonce : Z -> Z -> list byte) (c : FrameContext S) :
  fc_static_flag c = true ->
  (forall key value, fc_set_storage key value c = (Err MutableCallInStaticContext, c)) /\
  (forall topics data, fc_log topics data c = (Err MutableCallInStaticContext, c)) /\
  (forall a n, fc_suicide a n c = (Err MutableCallInStaticContext, c)) /\
  (forall n, (fc_blockhash n c).2 = c) /\
  (forall gas sender receiver value data a t, (fc_call gas sender receiver value data a t c).2 = c) /\
  (forall gas value code scheme, (fc_create keccak rlp_sender_nonce gas value code scheme c).2 = c).
Proof.
  intros Hs. split_and!; intros.
  - unfold fc_set_storage. by rewrite Hs.
  - unfold fc_log. by rewrite Hs.
  - unfold fc_suicide. by rewrite Hs.
  - done.
  - unfold fc_call, bind, get, lift, ret. destruct (fc_internal_contracts c a); [done |].
    destruct (st_code (fc_state c) a); [| done | done].
    by destruct (st_code_hash (fc_state c) a).
  - unfold fc_create, bind, get, lift, ret. destruct (st_nonce _ _); [| done | done].
    destruct (contract_address _ _ _ _ _ _). by rewrite Hs.
Qed.

(** C40. [BLOCKHASH] of the largest word panics: the context adds one to the block number it is
    asked for before looking at it, and the addition of 256-bit words checks for overflow.
    Every other number is answered: the hash of the previous block for the number of the
    previous block (its epoch height once CIP-98 is active), and zero otherwise. *)
Theorem blockhash_panics_on_max {S} (c : FrameContext S) (n : Z) :
  is_u256 n ->
  fc_blockhash n c =
    (if n =? 2 ^ 256 - 1 then Panic
     else
       let current := if cip98 (fc_spec c) then env_epoch_height (fc_env c) else env_number (fc_env c) in
       Ok (if current =? n + 1 then env_last_hash (fc_env c) else 0), c).
Proof.
  intros [Hn Hn']. unfold fc_blockhash, checked_add. destruct (n =? 2 ^ 256 - 1) eqn:E; b2p.
  - rewrite (proj2 (Z.ltb_ge (n + 1) (2 ^ 256))) by lia. done.
  - rewrite (proj2 (Z.ltb_lt (n + 1) (2 ^ 256))) by lia. cbn [result_bind]. by destruct (cip98 _).
Qed.
