(* ===== verification/Memory.v ===== *)
(** * EVM memory and return data

    src/cfx-evm/src/evm/interpreter/memory.rs: the [Memory] trait as implemented by [Vec<u8>].
    Offsets and sizes arrive as 256-bit words and are truncated with [low_u64]; a slice outside
    the vector panics. The operations never grow the memory: only [expand] does, and the
    interpreter calls it with the size the gasometer charged for.

    Shown here: a word or slice written is read back and nothing else changes; [expand] keeps
    the contents and adds zeros; [into_return_data] denotes the requested slice whichever way
    it avoids keeping the whole memory alive. *)

From S2P Require Import Prelude Word Arith VmTypes.

Definition MAX_RETURN_WASTE_BYTES : Z := 16384.

Definition is_valid_range (off size : Z) : bool :=
  let overflow := snd (overflowing_add 64 off size) in
  (0 <? size) && negb overflow.

Definition mem_size (mem : list byte) : Z := len mem.

Definition read_slice (mem : list byte) (init_off_u init_size_u : Z) : vm_result (list byte) :=
  let off := low_u64 init_off_u in
  let size := low_u64 init_size_u in
  if negb (is_valid_range off size) then Ok [] else unwrap (slice mem off (off + size)).

Definition mem_read (mem : list byte) (offset : Z) : vm_result Z :=
  let off := low_u64 offset in
  let? word := unwrap (slice mem off (off + 32)) in
  Ok (be_to_Z word).

(** A [&mut] slice is the range it covers: its start and its length. *)
Definition writeable_slice (mem : list byte) (offset size : Z) : vm_result (Z * Z) :=
  let off := low_u64 offset in
  let s := low_u64 size in
  if negb (is_valid_range off s) then Ok (0, 0)
  else if off + s <=? len mem then Ok (off, s) else Panic.

Definition write_slice (mem : list byte) (offset : Z) (s : list byte) : vm_result (list byte) :=
  match s with
  | [] => Ok mem
  | _ => let off := low_u64 offset in unwrap (copy_at mem off s)
  end.

Definition mem_write (mem : list byte) (offset value : Z) : vm_result (list byte) :=
  let off := low_u64 offset in
  unwrap (copy_at mem off (to_be 32 value)).

Definition write_byte (mem : list byte) (offset value : Z) : vm_result (list byte) :=
  let off := low_u64 offset in
  let val := low_u64 value in
  unwrap (copy_at mem off [byte_of_Z val]).

Definition resize (mem : list byte) (new_size : Z) : list byte :=
  take (Z.to_nat new_size) mem ++ replicate (Z.to_nat new_size - length mem) x00.

Definition expand (mem : list byte) (size : Z) : list byte :=
  if len mem <? size then resize mem size else mem.

Definition into_return_data (mem : list byte) (offset_u size_u : Z) : vm_result ReturnData :=
  let offset := low_u64 offset_u in
  let size := low_u64 size_u in
  if negb (is_valid_range offset size) then Ok ReturnData_empty
  else
    let? waste := checked_sub (len mem) size in
    if MAX_RETURN_WASTE_BYTES <? waste then
      if offset =? 0 then Ok (mkReturnData (take (Z.to_nat size) mem) offset size)
      else
        let? mem' := unwrap (slice mem offset (offset + size)) in
        Ok (mkReturnData mem' 0 size)
    else Ok (mkReturnData mem offset size).

(** Filling a mutable slice with zeros, and [(&mut output[..len]).copy_from_slice(&data[..len])]. *)
Definition zero_range (mem : list byte) (r : Z * Z) : vm_result (list byte) :=
  unwrap (copy_at mem r.1 (replicate (Z.to_nat r.2) x00)).

Definition copy_prefix (mem : list byte) (r : Z * Z) (data : list byte) : vm_result (list byte) :=
  let n := Z.min r.2 (len data) in
  unwrap (copy_at mem r.1 (take (Z.to_nat n) data)).

(** ** Lemmas *)

(** The byte of a memory at an address; memory reads as zero past its end. *)
Definition mem_byte (mem : list byte) (i : Z) : byte := default x00 (mem !! Z.to_nat i).

Lemma is_valid_range_spec off size :
  is_valid_range off size = (0 <? size) && (off + size <? 2 ^ 64).
Proof.
  unfold is_valid_range, overflowing_add. cbn [snd].
  by rewrite Z.leb_antisym, negb_involutive.
Qed.

Lemma len_resize mem n : 0 <= n -> len (resize mem n) = n.
Proof.
  intros. unfold resize, len. rewrite length_app, length_take, length_replicate. lia.
Qed.

Lemma len_expand mem n : len (expand mem n) = Z.max (len mem) n.
Proof.
  unfold expand. case_if; [| lia].
  rewrite len_resize; pose proof (len_nonneg mem); lia.
Qed.

Lemma mem_byte_expand mem n i : 0 <= i -> mem_byte (expand mem n) i = mem_byte mem i.
Proof.
  intros Hi. unfold mem_byte, expand. case_if; [| done]. unfold resize, len in *.
  rewrite take_ge by lia.
  destruct (decide (Z.to_nat i < length mem)%nat).
  - by rewrite lookup_app_l by lia.
  - rewrite lookup_app_r by lia. rewrite (lookup_ge_None_2 mem) by lia.
    destruct (replicate _ _ !! _) eqn:E; [| done].
    apply lookup_replicate in E as [-> _]. done.
Qed.

Lemma copy_at_mem_byte mem a s mem' i :
  copy_at mem a s = Some mem' -> 0 <= i ->
  mem_byte mem' i =
    if (a <=? i) && (i <? a + len s) then mem_byte s (i - a) else mem_byte mem i.
Proof.
  intros H Hi. unfold mem_byte. rewrite (copy_at_lookup _ _ _ _ _ H Hi). by case_if.
Qed.

Lemma slice_copy_at {A} (l s l' : list A) a :
  copy_at l a s = Some l' -> slice l' a (a + len s) = Some s.
Proof.
  intros H. pose proof (len_copy_at _ _ _ _ H) as Hl.
  apply copy_at_inv in H as (Ha & Hs & ->). pose proof (len_nonneg s).
  rewrite slice_Some by lia. f_equal.
  unfold len in *.
  rewrite drop_app_length' by (rewrite length_take; lia).
  rewrite take_app_length'; [done | lia].
Qed.

Section in_range.
Context (mem : list byte) (off size : Z).
Context (Hoff : 0 <= off) (Hsize : 0 < size) (Hmem : off + size <= len mem) (Hlen : len mem < 2 ^ 63).

Lemma low_u64_range : low_u64 off = off /\ low_u64 size = size.
Proof. split; apply low_u64_small; split; lia. Qed.

Lemma valid_range_in : is_valid_range off size = true.
Proof.
  rewrite is_valid_range_spec.
  by rewrite (proj2 (Z.ltb_lt 0 size)), (proj2 (Z.ltb_lt (off + size) (2 ^ 64))) by lia.
Qed.

Lemma read_slice_in : read_slice mem off size = Ok (take (Z.to_nat size) (drop (Z.to_nat off) mem)).
Proof.
  unfold read_slice. destruct low_u64_range as [-> ->]. rewrite valid_range_in. cbn [negb].
  rewrite slice_Some by lia. cbn [unwrap]. do 3 f_equal. lia.
Qed.

Lemma writeable_slice_in : writeable_slice mem off size = Ok (off, size).
Proof.
  unfold writeable_slice. destruct low_u64_range as [-> ->]. rewrite valid_range_in. cbn [negb].
  by rewrite (proj2 (Z.leb_le (off + size) (len mem))) by lia.
Qed.

Lemma into_return_data_in :
  exists r, into_return_data mem off size = Ok r /\ wf_return_data r /\
    rd_deref r = Some (take (Z.to_nat size) (drop (Z.to_nat off) mem)).
Proof.
  unfold into_return_data. destruct low_u64_range as [-> ->]. rewrite valid_range_in. cbn [negb].
  unfold checked_sub. rewrite (proj2 (Z.leb_le size (len mem))) by lia. cbn [result_bind].
  case_if; [case_if |].
  - eexists; split; [done |]. unfold wf_return_data, rd_deref; cbn. subst off.
    assert (L : len (take (Z.to_nat size) mem) = size) by (unfold len in *; rewrite length_take; lia).
    split; [lia |]. rewrite slice_Some by lia.
    rewrite !drop_0, take_take. do 2 f_equal. lia.
  - rewrite slice_Some by lia. cbn [unwrap result_bind]. eexists; split; [done |].
    unfold wf_return_data, rd_deref; cbn.
    set (s := take _ _). assert (L : len s = size).
    { subst s. unfold len in *. rewrite length_take, length_drop. lia. }
    split; [lia |]. replace (0 + size) with (len s) by lia. rewrite slice_full. subst s.
    do 2 f_equal. lia.
  - eexists; split; [done |]. unfold wf_return_data, rd_deref; cbn.
    split; [lia |]. rewrite slice_Some by lia. do 2 f_equal. lia.
Qed.
End in_range.

Lemma low_u64_zero : low_u64 0 = 0.
Proof. done. Qed.

Lemma is_valid_range_zero off : is_valid_range off 0 = false.
Proof. by rewrite is_valid_range_spec. Qed.

(** The shape in which the interpreter meets memory: the gasometer has made room for
    [off + size] bytes unless [size] is zero, in which case [off] is arbitrary. *)
Definition range_ok (mem : list byte) (off size : Z) : Prop :=
  len mem < 2 ^ 63 /\ 0 <= off /\ 0 <= size /\ (size = 0 \/ off + size <= len mem).

Lemma read_slice_ok mem off size :
  range_ok mem off size ->
  exists s, read_slice mem off size = Ok s /\ len s = size /\
    forall i, 0 <= i < size -> s !! Z.to_nat i = mem !! Z.to_nat (off + i).
Proof.
  intros (Hl & Ho & Hs & [-> | Hr]).
  - exists []. unfold read_slice. rewrite low_u64_zero, is_valid_range_zero. cbn.
    repeat split; auto; lia.
  - destruct (decide (size = 0)) as [-> | Hn].
    { exists []. unfold read_slice. rewrite low_u64_zero, is_valid_range_zero. cbn.
      repeat split; auto; lia. }
    exists (take (Z.to_nat size) (drop (Z.to_nat off) mem)). rewrite read_slice_in by lia.
    assert (S : slice mem off (off + size) =
                Some (take (Z.to_nat size) (drop (Z.to_nat off) mem))).
    { rewrite slice_Some by lia. do 2 f_equal. lia. }
    repeat split.
    + rewrite (len_slice _ _ _ _ S). lia.
    + intros i Hi. apply (slice_lookup _ _ _ _ i S). lia.
Qed.

Lemma writeable_slice_ok mem off size :
  range_ok mem off size ->
  exists r, writeable_slice mem off size = Ok r /\ 0 <= r.1 /\ r.2 = size /\ r.1 + r.2 <= len mem /\
    (0 < size -> r.1 = off).
Proof.
  intros (Hl & Ho & Hs & Hr).
  destruct (decide (size = 0)) as [-> | Hn].
  - exists (0, 0). unfold writeable_slice. rewrite low_u64_zero, is_valid_range_zero. cbn.
    pose proof (len_nonneg mem). repeat split; lia.
  - exists (off, size). rewrite writeable_slice_in by lia. cbn. repeat split; lia.
Qed.

Lemma into_return_data_ok mem off size :
  range_ok mem off size ->
  exists r s, into_return_data mem off size = Ok r /\ wf_return_data r /\
    rd_deref r = Some s /\ read_slice mem off size = Ok s.
Proof.
  intros (Hl & Ho & Hs & Hr).
  destruct (decide (size = 0)) as [-> | Hn].
  - exists ReturnData_empty, []. unfold into_return_data, read_slice.
    rewrite low_u64_zero, is_valid_range_zero. done.
  - destruct (into_return_data_in mem off size) as (r & E & W & D); try lia.
    exists r, (take (Z.to_nat size) (drop (Z.to_nat off) mem)).
    rewrite read_slice_in by lia. done.
Qed.

Lemma mem_write_ok mem off value :
  0 <= off -> off + 32 <= len mem -> len mem < 2 ^ 64 ->
  exists mem', mem_write mem off value = Ok mem' /\ copy_at mem off (to_be 32 value) = Some mem'.
Proof.
  intros. unfold mem_write. rewrite low_u64_small by (split; lia).
  rewrite copy_at_Some by (rewrite ?len_to_be; lia). cbn [unwrap]. eauto.
Qed.

(** ** Properties *)

(** Words in memory round-trip: where there is room for 32 bytes, [write] succeeds, the
    following [read] returns the word written, bytes outside the word are unchanged and the
    memory keeps its size; a memory grown by [expand] still reads the same, new bytes being
    zero. *)
Theorem memory_word_roundtrip mem off value n :
  0 <= off -> off + 32 <= len mem -> len mem < 2 ^ 64 -> is_u256 value ->
  exists mem', mem_write mem off value = Ok mem' /\
    mem_read mem' off = Ok value /\
    len mem' = len mem /\
    (forall i, 0 <= i -> i < off \/ off + 32 <= i -> mem_byte mem' i = mem_byte mem i) /\
    (forall i, 0 <= i -> mem_byte (expand mem' n) i = mem_byte mem' i).
Proof.
  intros Ho Hr Hl Hv. destruct (mem_write_ok mem off value Ho Hr Hl) as (mem' & E & C).
  exists mem'. split; [done |].
  pose proof (slice_copy_at _ _ _ _ C) as S. rewrite len_to_be in S.
  repeat split.
  - unfold mem_read. rewrite low_u64_small by (split; lia).
    change (Z.of_nat 32) with 32 in S. rewrite S. cbn [unwrap result_bind].
    by rewrite be_to_Z_to_be_32.
  - by apply (len_copy_at _ _ _ _ C).
  - intros i Hi Hout. rewrite (copy_at_mem_byte _ _ _ _ i C Hi), len_to_be.
    case_if; [lia | done].
  - intros i Hi. by apply mem_byte_expand.
Qed.

Lemma memory_word_roundtrip_witness :
  exists mem', mem_write (resize [] 0xA0) 0x80 0xABCDEF = Ok mem' /\
    mem_read mem' 0x80 = Ok 0xABCDEF.
Proof.
  destruct (memory_word_roundtrip (resize [] 0xA0) 0x80 0xABCDEF 0
    ltac:(lia) ltac:(vm_compute; congruence) ltac:(vm_compute; congruence) ltac:(split; lia))
    as (m & H1 & H2 & _).
  exists m. split; assumption.
Defined.

(** [into_return_data] denotes the slice asked for, on every input: dereferencing the
    buffer it builds, whether it kept, truncated or copied the memory, gives exactly what
    [read_slice] gives, and panics exactly when [read_slice] does. *)
Theorem into_return_data_equiv mem offset size :
  (let? r := into_return_data mem offset size in unwrap (rd_deref r)) = read_slice mem offset size.
Proof.
  unfold into_return_data, read_slice.
  pose proof (low_u64_bound offset) as [Ho _]. pose proof (low_u64_bound size) as [Hs _].
  set (off := low_u64 offset) in *. set (sz := low_u64 size) in *.
  destruct (is_valid_range off sz); [| done]. cbn [negb].
  unfold checked_sub. destruct (sz <=? len mem) eqn:E; b2p; cbn [result_bind].
  2:{ unfold slice. rewrite (proj2 (Z.leb_gt (off + sz) (len mem))) by lia.
      by rewrite andb_false_r. }
  case_if; [case_if |]; [| | done].
  - cbn [result_bind]. unfold rd_deref. cbn. rewrite Heqb0.
    assert (L : len (take (Z.to_nat sz) mem) = sz) by (unfold len in *; rewrite length_take; lia).
    rewrite !slice_Some by lia. cbn. rewrite !drop_0, take_take. do 2 f_equal. lia.
  - destruct (slice mem off (off + sz)) as [s |] eqn:F; [| done]. cbn.
    unfold rd_deref. cbn [rd_mem rd_offset rd_size].
    pose proof (len_slice _ _ _ _ F) as L.
    replace (0 + sz) with (len s) by lia. by rewrite slice_full.
Qed.
