(* ===== verification/EvmStack.v ===== *)
(** * The operand stack

    src/cfx-evm/src/evm/interpreter/stack.rs: [VecStack<U256>]. The vector is kept with its
    last element, the top of the stack, first. [pop_n]'s scratch array [logs] is only the
    place its result lives in, so [pop_n] returns the popped words themselves. *)

From S2P Require Import Prelude Word Arith VmTypes Instructions.

Definition peek (stack : list Z) (no_from_top : Z) : vm_result Z :=
  unwrap (index stack no_from_top).

Definition swap_with_top (stack : list Z) (no_from_top : Z) : vm_result (list Z) :=
  let? top := unwrap (index stack 0) in
  let? other := unwrap (index stack no_from_top) in
  Ok (<[0%nat := other]> (<[Z.to_nat no_from_top := top]> stack)).

Definition has (stack : list Z) (no_of_elems : Z) : bool := no_of_elems <=? len stack.

Definition pop_back (stack : list Z) : vm_result (Z * list Z) :=
  match stack with
  | [] => Panic
  | x :: rest => Ok (x, rest)
  end.

Fixpoint pop_loop (n : nat) (stack : list Z) : vm_result (list Z * list Z) :=
  match n with
  | O => Ok ([], stack)
  | S n =>
      let? ' (x, rest) := pop_back stack in
      let? ' (xs, rest') := pop_loop n rest in
      Ok (x :: xs, rest')
  end.

Definition pop_n (stack : list Z) (no_of_elems : Z) : vm_result (list Z * list Z) :=
  if no_of_elems <=? MAX_NO_OF_TOPICS then pop_loop (Z.to_nat no_of_elems) stack else Panic.

Definition push (stack : list Z) (elem : Z) : list Z := elem :: stack.

Definition stack_size (stack : list Z) : Z := len stack.

(** The slice [&stack[len - n..len]], oldest element first. *)
Definition peek_top (stack : list Z) (no_from_top : Z) : vm_result (list Z) :=
  if no_from_top <=? len stack then Ok (reverse (take (Z.to_nat no_from_top) stack)) else Panic.

(** ** Lemmas *)

Definition words (stack : list Z) : Prop := Forall is_u256 stack.

Lemma peek_ok stack n :
  words stack -> 0 <= n < len stack -> exists x, peek stack n = Ok x /\ is_u256 x.
Proof.
  intros Hw Hn. unfold peek, index. rewrite (proj2 (Z.leb_le 0 n)) by lia.
  destruct (lookup_lt_is_Some_2 stack (Z.to_nat n)) as [x Hx]; [unfold len in *; lia |].
  exists x. rewrite Hx. split; [done |]. by eapply Forall_lookup_1.
Qed.

Lemma pop_loop_ok n stack :
  (n <= length stack)%nat ->
  exists xs rest, pop_loop n stack = Ok (xs, rest) /\ stack = xs ++ rest /\ length xs = n.
Proof.
  revert stack. induction n; intros stack Hn; [by exists [], stack |].
  destruct stack as [| x stack]; simpl in Hn; [lia |].
  destruct (IHn stack) as (xs & rest & E & -> & L); [lia |].
  exists (x :: xs), rest. cbn. rewrite E. cbn. by rewrite L.
Qed.

Lemma pop_n_ok stack n :
  0 <= n <= 4 -> n <= len stack ->
  exists xs rest, pop_n stack n = Ok (xs, rest) /\ stack = xs ++ rest /\ len xs = n.
Proof.
  intros Hn Hl. unfold pop_n, MAX_NO_OF_TOPICS. rewrite (proj2 (Z.leb_le n 4)) by lia.
  destruct (pop_loop_ok (Z.to_nat n) stack) as (xs & rest & E & S & L); [unfold len in *; lia |].
  exists xs, rest. rewrite E. unfold len. repeat split; auto. lia.
Qed.

Lemma swap_with_top_ok stack n :
  words stack -> 0 <= n < len stack ->
  exists stack', swap_with_top stack n = Ok stack' /\ words stack' /\ len stack' = len stack.
Proof.
  intros Hw Hn.
  destruct (peek_ok stack 0 Hw) as (t & Et & Ht); [lia |].
  destruct (peek_ok stack n Hw) as (x & Ex & Hx); [lia |].
  unfold swap_with_top, peek in *. rewrite Et, Ex. cbn. eexists. split; [done |]. split.
  - by repeat apply Forall_insert.
  - unfold len. by rewrite !length_insert.
Qed.

(** The word [n] places below the top; zero past the bottom. *)
Definition word_at (stack : list Z) (n : nat) : Z := default 0 (stack !! n).

Lemma peek_word_at stack n :
  0 <= n < len stack -> peek stack n = Ok (word_at stack (Z.to_nat n)).
Proof.
  intros Hn. unfold peek, index, word_at. rewrite (proj2 (Z.leb_le 0 n)) by lia.
  destruct (lookup_lt_is_Some_2 stack (Z.to_nat n)) as [x Hx]; [unfold len in *; lia |].
  by rewrite Hx.
Qed.

Lemma is_word_word_at stack n : words stack -> is_u256 (word_at stack n).
Proof.
  intros Hw. unfold word_at. destruct (stack !! n) eqn:E; cbn; [by eapply Forall_lookup_1 | split; lia].
Qed.
#[export] Hint Resolve is_word_word_at : hemvm.
