(* ===== verification/Gasometer.v ===== *)
(** * Gas accounting

    src/cfx-evm/src/evm/evm.rs ([CostType], implemented by [usize] and [U256]) and
    src/cfx-evm/src/evm/interpreter/gasometer.rs ([Gasometer]). The gasometer computes, before
    an instruction runs, what it costs, how much gas it hands to a sub-call and how large the
    memory must be. A cost is a [Z] within the width of the cost type; arithmetic operators of
    the cost type panic on overflow, the [overflow_*] methods report it. *)

From S2P Require Import Prelude Word Arith VmTypes Instructions EvmStack.

(** ** [CostType] *)

Class CostType : Type := {
  cost_width : Z;
  as_u256 : Z -> Z;
  from_u256 : Z -> vm_result Z;
  as_usize : Z -> vm_result Z;
  overflow_add : Z -> Z -> Z * bool;
  overflow_mul : Z -> Z -> Z * bool;
  overflow_mul_shr : Z -> Z -> Z -> Z * bool;
}.

(** [impl CostType for U256] *)
Definition u256_overflow_mul_shr (self other shr : Z) : Z * bool :=
  let x := self * other in
  let overflow := 0 <? Z.shiftr x 256 in
  (Z.shiftr x shr mod 2 ^ 256, overflow).

Definition u256_as_usize (self : Z) : vm_result Z :=
  if self <? 2 ^ 64 then Ok self else Panic.

Definition u256_cost : CostType := {|
  cost_width := 256;
  as_u256 := fun self => self;
  from_u256 := fun val => Ok val;
  as_usize := u256_as_usize;
  overflow_add := overflowing_add 256;
  overflow_mul := overflowing_mul 256;
  overflow_mul_shr := u256_overflow_mul_shr;
|}.

(** [impl CostType for usize] *)
Definition usize_from_u256 (val : Z) : vm_result Z :=
  let res := low_u64 val in
  if negb (res =? val) then Err OutOfGas else Ok res.

Definition usize_overflow_mul_shr (self other shr : Z) : Z * bool :=
  let '(c, o) := overflowing_mul 128 self other in
  let overflow := o || (0 <? Z.shiftr c 64) in
  let part0 := Z.shiftr c shr mod 2 ^ 64 in
  let result := part0 in
  let overflow := overflow || (result <? part0) in
  (result, overflow).

Definition usize_cost : CostType := {|
  cost_width := 64;
  as_u256 := fun self => self;
  from_u256 := usize_from_u256;
  as_usize := fun self => Ok self;
  overflow_add := overflowing_add 64;
  overflow_mul := overflowing_mul 64;
  overflow_mul_shr := usize_overflow_mul_shr;
|}.

(** The [overflowing!] macro. *)
Definition overflowing (x : Z * bool) : vm_result Z :=
  let '(v, overflow) := x in if overflow then Err OutOfGas else Ok v.

Inductive Request : Set :=
| Gas (gas : Z)
| GasMem (gas mem_size : Z)
| GasMemProvide (gas mem_size : Z) (requested : option Z)
| GasMemCopy (gas mem_size copy : Z).

Record InstructionRequirements : Set := mkRequirements {
  gas_cost : Z;
  provide_gas : option Z;
  memory_total_gas : Z;
  memory_required_size : Z;
}.

Record Gasometer : Set := mkGasometer { current_gas : Z; current_mem_gas : Z }.

Definition Gasometer_new (gas : Z) : Gasometer := mkGasometer gas 0.

(** ** The gasometer *)

Section gasometer.
Context {cost : CostType} {C : Type} {CC : Context C}.

Definition verify_gas (self : Gasometer) (gas_cost : Z) : vm_result unit :=
  if current_gas self <? gas_cost then Err OutOfGas else Ok tt.

Definition gas_provided (self : Gasometer) (spec : Spec) (needed : Z) (requested : option Z) :
    vm_result Z :=
  let requested := from_u256 <$> requested in
  let uncapped :=
    match requested with
    | Some r => r
    | None => if needed <=? current_gas self then Ok (current_gas self - needed) else Ok 0
    end in
  match sub_gas_cap_divisor spec with
  | Some cap_divisor =>
      if needed <=? current_gas self then
        let gas_remaining := current_gas self - needed in
        let? max_gas_provided :=
          (if cap_divisor =? 64 then checked_sub gas_remaining (shr gas_remaining 6)
           else if cap_divisor =? 0 then Panic
           else checked_sub gas_remaining (gas_remaining / cap_divisor)) in
        match requested with
        | Some (Ok r) => Ok (Z.min r max_gas_provided)
        | _ => Ok max_gas_provided
        end
      else uncapped
  | None => uncapped
  end.

Definition add_gas_usize (value num : Z) : Z * bool := overflow_add value num.

Definition to_word_size (value : Z) : Z * bool :=
  let '(gas, overflow) := add_gas_usize value 31 in
  if overflow then (gas, overflow) else (shr gas 5, false).

Definition mem_needed_const (mem add : Z) : vm_result Z :=
  let? x := overflowing (overflowing_add 256 mem add) in from_u256 x.

Definition mem_needed (offset size : Z) : vm_result Z :=
  if size =? 0 then Ok 0
  else let? x := overflowing (overflowing_add 256 offset size) in from_u256 x.

(** The closure [gas_for_mem] of [mem_gas_cost]. *)
Definition gas_for_mem (spec : Spec) (mem_size : Z) : vm_result Z :=
  let s := shr mem_size 5 in
  let? a := overflowing (overflow_mul s (memory_gas spec)) in
  if negb (quad_coeff_div spec =? 512) then Panic
  else
    let? b := overflowing (overflow_mul_shr s s 9) in
    overflowing (overflow_add a b).

Definition mem_gas_cost (self : Gasometer) (spec : Spec) (current_mem_size mem_size : Z) :
    vm_result (Z * Z * Z) :=
  let? words := overflowing (to_word_size mem_size) in
  let req_mem_size_rounded := shl cost_width words 5 in
  let? ' (mem_gas_cost, new_mem_gas) :=
    (if current_mem_size <? req_mem_size_rounded then
       let? new_mem_gas := gas_for_mem spec req_mem_size_rounded in
       let? d := checked_sub new_mem_gas (current_mem_gas self) in
       Ok (d, new_mem_gas)
     else Ok (0, current_mem_gas self)) in
  let? size := as_usize req_mem_size_rounded in
  Ok (mem_gas_cost, new_mem_gas, size).

Definition account_gas_ratio (context : C) (spec : Spec) : Z :=
  match ctx_space context with Ethereum => evm_gas_ratio spec end.

(** [!spec.no_empty && !exists(a)? || spec.no_empty && is_value_transfer
    && !exists_and_not_null(a)?], with its short circuits. *)
Definition charges_new_account (context : C) (spec : Spec) (is_value_transfer : bool) (address : Z) :
    vm_result bool :=
  let second :=
    if no_empty spec && is_value_transfer then
      let? e := exists_and_not_null context address in Ok (negb e)
    else Ok false in
  if negb (no_empty spec) then
    let? e := ctx_exists context address in
    if negb e then Ok true else second
  else second.

(** The cost of an instruction: the [match] at the head of [Gasometer::requirements]. *)
Definition instruction_request (context : C) (instruction : Instruction) (default_gas : Z)
    (stack : list Z) : vm_result Request :=
  let spec := ctx_spec context in
  match instruction with
  | JUMPDEST => Ok (Gas 1)
  | SSTORE =>
      let? key := peek stack 0 in
      let? newval := peek stack 1 in
      let? val := storage_at context (to_be 32 key) in
      let? gas :=
        (if (val =? 0) && negb (newval =? 0)
         then checked_mul 64 (sstore_set_gas spec) (evm_gas_ratio spec)
         else Ok (sstore_reset_gas spec)) in
      Ok (Gas gas)
  | SLOAD => Ok (Gas (sload_gas spec))
  | BALANCE => Ok (Gas (balance_gas spec))
  | EXTCODESIZE => Ok (Gas (extcodesize_gas spec))
  | EXTCODEHASH => Ok (Gas (extcodehash_gas spec))
  | SUICIDE =>
      let gas := suicide_gas spec in
      let? origin := origin_balance context in
      let is_value_transfer := negb (origin =? 0) in
      let? top := peek stack 0 in
      let address := u256_to_address top in
      let? new_account := charges_new_account context spec is_value_transfer address in
      let? gas :=
        (if new_account then
           let? extra := checked_mul 64 (suicide_to_new_account_cost spec)
                           (account_gas_ratio context spec) in
           overflowing (overflow_add gas extra)
         else Ok gas) in
      Ok (Gas gas)
  | MSTORE | MLOAD =>
      let? off := peek stack 0 in
      let? mem := mem_needed_const off 32 in Ok (GasMem default_gas mem)
  | MSTORE8 =>
      let? off := peek stack 0 in
      let? mem := mem_needed_const off 1 in Ok (GasMem default_gas mem)
  | RETURN | REVERT =>
      let? off := peek stack 0 in
      let? size := peek stack 1 in
      let? mem := mem_needed off size in Ok (GasMem default_gas mem)
  | SHA3 =>
      let? size := peek stack 1 in
      let? n := from_u256 size in
      let? words := overflowing (to_word_size n) in
      let? word_gas := overflowing (overflow_mul (sha3_word_gas spec) words) in
      let? gas := overflowing (overflow_add (sha3_gas spec) word_gas) in
      let? off := peek stack 0 in
      let? mem := mem_needed off size in Ok (GasMem gas mem)
  | CALLDATACOPY | CODECOPY | RETURNDATACOPY =>
      let? off := peek stack 0 in
      let? size := peek stack 2 in
      let? mem := mem_needed off size in
      let? copy := from_u256 size in Ok (GasMemCopy default_gas mem copy)
  | EXTCODECOPY =>
      let? off := peek stack 1 in
      let? size := peek stack 3 in
      let? mem := mem_needed off size in
      let? copy := from_u256 size in Ok (GasMemCopy (extcodecopy_base_gas spec) mem copy)
  | LOG0 | LOG1 | LOG2 | LOG3 | LOG4 =>
      let? no_of_topics := unwrap (log_topics instruction) in
      let? topic_gas := checked_mul 64 (log_topic_gas spec) no_of_topics in
      let? log_gas := checked_add 64 (log_gas spec) topic_gas in
      let? size := peek stack 1 in
      let? n := from_u256 size in
      let? data_gas := overflowing (overflow_mul n (log_data_gas spec)) in
      let? gas := overflowing (overflow_add data_gas log_gas) in
      let? off := peek stack 0 in
      let? mem := mem_needed off size in Ok (GasMem gas mem)
  | CALL | CALLCODE =>
      let gas := call_gas spec in
      let? out_off := peek stack 5 in
      let? out_size := peek stack 6 in
      let? out_mem := mem_needed out_off out_size in
      let? in_off := peek stack 3 in
      let? in_size := peek stack 4 in
      let? in_mem := mem_needed in_off in_size in
      let mem := Z.max out_mem in_mem in
      let? addr := peek stack 1 in
      let address := u256_to_address addr in
      let? value := peek stack 2 in
      let is_value_transfer := negb (value =? 0) in
      let? new_account :=
        (if instr_eqb instruction CALL
         then charges_new_account context spec is_value_transfer address
         else Ok false) in
      let? gas :=
        (if new_account then
           let? extra := checked_mul 64 (call_new_account_gas spec)
                           (account_gas_ratio context spec) in
           overflowing (overflow_add gas extra)
         else Ok gas) in
      let? gas :=
        (if is_value_transfer then overflowing (overflow_add gas (call_value_transfer_gas spec))
         else Ok gas) in
      let? requested := peek stack 0 in
      Ok (GasMemProvide gas mem (Some requested))
  | DELEGATECALL | STATICCALL =>
      let gas := call_gas spec in
      let? out_off := peek stack 4 in
      let? out_size := peek stack 5 in
      let? out_mem := mem_needed out_off out_size in
      let? in_off := peek stack 2 in
      let? in_size := peek stack 3 in
      let? in_mem := mem_needed in_off in_size in
      let mem := Z.max out_mem in_mem in
      let? requested := peek stack 0 in
      Ok (GasMemProvide gas mem (Some requested))
  | CREATE | CREATE2 =>
      let? start := peek stack 1 in
      let? size := peek stack 2 in
      let base := create_gas spec in
      let? n := from_u256 size in
      let? word := overflowing (to_word_size n) in
      let? word_gas := overflowing (overflow_mul (sha3_word_gas spec) word) in
      let word_gas :=
        match ctx_space context with
        | Ethereum => if instr_eqb instruction CREATE then 0 else word_gas
        end in
      let? gas := overflowing (overflow_add base word_gas) in
      let? mem := mem_needed start size in
      Ok (GasMemProvide gas mem None)
  | EXP =>
      let? expon := peek stack 1 in
      let bits := if expon =? 0 then 0 else Z.log2 expon + 1 in
      let bytes := (bits + 7) / 8 in
      let? byte_gas := checked_mul 64 (exp_byte_gas spec) bytes in
      let? gas := checked_add 64 (exp_gas spec) byte_gas in Ok (Gas gas)
  | BLOCKHASH => Ok (Gas (blockhash_gas spec))
  | _ => Ok (Gas default_gas)
  end.

(** What the request amounts to: the second half of [Gasometer::requirements]. *)
Definition charge_request (self : Gasometer) (spec : Spec) (current_mem_size : Z) (cost : Request) :
    vm_result InstructionRequirements :=
  match cost with
  | Gas gas => Ok (mkRequirements gas None (current_mem_gas self) 0)
  | GasMem gas mem_size =>
      let? ' (mem_gas, new_mem_gas, new_mem_size) :=
        mem_gas_cost self spec current_mem_size mem_size in
      let? gas := overflowing (overflow_add gas mem_gas) in
      Ok (mkRequirements gas None new_mem_gas new_mem_size)
  | GasMemProvide gas mem_size requested =>
      let? ' (mem_gas, new_mem_gas, new_mem_size) :=
        mem_gas_cost self spec current_mem_size mem_size in
      let? gas := overflowing (overflow_add gas mem_gas) in
      let? provided := gas_provided self spec gas requested in
      let? total_gas := overflowing (overflow_add gas provided) in
      Ok (mkRequirements total_gas (Some provided) new_mem_gas new_mem_size)
  | GasMemCopy gas mem_size copy =>
      let? ' (mem_gas, new_mem_gas, new_mem_size) :=
        mem_gas_cost self spec current_mem_size mem_size in
      let? copy := overflowing (to_word_size copy) in
      let? copy_gas := overflowing (overflow_mul (copy_gas spec) copy) in
      let? gas := overflowing (overflow_add gas copy_gas) in
      let? gas := overflowing (overflow_add gas mem_gas) in
      Ok (mkRequirements gas None new_mem_gas new_mem_size)
  end.

Definition requirements (self : Gasometer) (context : C) (instruction : Instruction)
    (inf : InstructionInfo) (stack : list Z) (current_mem_size : Z) :
    vm_result InstructionRequirements :=
  let spec := ctx_spec context in
  let? default_gas := unwrap (index (tier_step_gas spec) (tier_idx (info_tier inf))) in
  let? cost := instruction_request context instruction default_gas stack in
  charge_request self spec current_mem_size cost.
End gasometer.

(** ** Lemmas for [usize] costs *)

Lemma rwp_overflowing_add w a b :
  0 <= a -> 0 <= b ->
  rwp (overflowing (overflowing_add w a b)) (fun v => v = a + b /\ v < 2 ^ w) (fun _ => True).
Proof.
  intros Ha Hb. unfold overflowing, overflowing_add. case_if; cbn; [done |].
  rewrite Z.mod_small by lia. lia.
Qed.

Lemma rwp_overflowing_mul w a b :
  0 <= a -> 0 <= b ->
  rwp (overflowing (overflowing_mul w a b)) (fun v => v = a * b /\ v < 2 ^ w) (fun _ => True).
Proof.
  intros Ha Hb. unfold overflowing, overflowing_mul. case_if; cbn; [done |].
  rewrite Z.mod_small by nia. lia.
Qed.

Lemma rwp_usize_from_u256 x :
  0 <= x -> rwp (usize_from_u256 x) (fun v => v = x /\ v < 2 ^ 64) (fun _ => True).
Proof.
  intros Hx. unfold usize_from_u256. case_if; cbn; [done |].
  pose proof (low_u64_bound x) as [? ?]. lia.
Qed.

(** The product is reported as an overflow unless it fits 64 bits unshifted. *)
Lemma usize_overflow_mul_shr_spec a b n :
  is_usize a -> is_usize b -> 0 <= n ->
  usize_overflow_mul_shr a b n = (Z.shiftr (a * b) n mod 2 ^ 64, 2 ^ 64 <=? a * b).
Proof.
  intros [Ha Ha'] [Hb Hb'] Hn. unfold usize_overflow_mul_shr, overflowing_mul.
  assert (0 <= a * b < 2 ^ 128).
  { change (2 ^ 128) with (2 ^ 64 * 2 ^ 64). nia. }
  rewrite (Z.mod_small (a * b)) by lia. rewrite (proj2 (Z.leb_gt (2 ^ 128) (a * b))) by lia.
  rewrite Z.ltb_irrefl, orb_false_r. cbn [orb]. f_equal.
  rewrite Z.shiftr_div_pow2 by lia.
  destruct (2 ^ 64 <=? a * b) eqn:E; b2p.
  - apply Z.ltb_lt. apply Z.div_str_pos. lia.
  - apply Z.ltb_ge. rewrite Z.div_small; lia.
Qed.

Section usize.
Local Existing Instance usize_cost.

(** What [n] words of memory cost. *)
Definition mem_cost (spec : Spec) (n : Z) : Z := n * memory_gas spec + n * n / 512.

(** The memory size and the gas already paid for it agree. *)
Definition mem_paid (spec : Spec) (size gas : Z) : Prop :=
  exists n, 0 <= n < 2 ^ 32 /\ size = 32 * n /\ gas = mem_cost spec n.

Lemma mem_cost_mono spec a b :
  0 <= memory_gas spec -> 0 <= a <= b -> 0 <= mem_cost spec a <= mem_cost spec b.
Proof.
  intros Hm Hab. unfold mem_cost.
  assert (0 <= a * a / 512 <= b * b / 512).
  { split; [apply Z.div_pos; nia | apply Z.div_le_mono; nia]. }
  nia.
Qed.

Lemma to_word_size_spec v :
  0 <= v ->
  rwp (overflowing (to_word_size v)) (fun w => w = (v + 31) / 32 /\ v + 31 < 2 ^ 64) (fun _ => True).
Proof.
  intros Hv. unfold to_word_size, add_gas_usize. cbn [overflow_add usize_cost].
  pose proof (rwp_overflowing_add 64 v 31 Hv) as H. specialize (H ltac:(lia)).
  destruct (overflowing_add 64 v 31) as [x o]. unfold overflowing in *.
  destruct o; [done |]. cbn in H |- *. destruct H as [-> H]. split; [| done].
  unfold shr. by rewrite Z.shiftr_div_pow2 by lia.
Qed.

Lemma gas_for_mem_spec spec n :
  wf_spec spec -> 0 <= n -> 32 * n < 2 ^ 64 ->
  rwp (gas_for_mem spec (32 * n)) (fun g => g = mem_cost spec n /\ n < 2 ^ 32) (fun _ => True).
Proof.
  intros W Hn Hn'. unfold gas_for_mem, shr.
  rewrite Z.shiftr_div_pow2 by lia. change (2 ^ 5) with 32.
  rewrite (Z.mul_comm 32 n), Z.div_mul by lia.
  pose proof (wf_memory_gas _ W) as [? ?].
  apply rwp_bind. eapply rwp_mono; [apply rwp_overflowing_mul; lia | | done].
  intros a [-> Ha]. cbn beta. rewrite (wf_quad_coeff_div _ W). cbn [Z.eqb negb Pos.eqb].
  apply rwp_bind. cbn [overflow_mul_shr usize_cost].
  rewrite usize_overflow_mul_shr_spec by (unfold is_word; lia). unfold overflowing at 1.
  destruct (2 ^ 64 <=? n * n) eqn:E; [done |]. b2p. cbn [rwp].
  rewrite Z.shiftr_div_pow2 by lia. change (2 ^ 9) with 512.
  assert (0 <= n * n / 512 < 2 ^ 64).
  { split; [apply Z.div_pos; nia | apply Z.div_lt_upper_bound; nia]. }
  rewrite Z.mod_small by lia.
  eapply rwp_mono; [apply rwp_overflowing_add; nia | | done].
  intros g [-> Hg]. unfold mem_cost. split; [done |].
  change (2 ^ 64) with (2 ^ 32 * 2 ^ 32) in E. nia.
Qed.

Lemma mem_gas_cost_spec self spec cur size :
  wf_spec spec -> mem_paid spec cur (current_mem_gas self) -> 0 <= size ->
  rwp (mem_gas_cost self spec cur size)
    (fun '(c, total, size') =>
       0 <= c /\ total = current_mem_gas self + c /\ size <= size' /\
       mem_paid spec (Z.max cur size') total)
    (fun _ => True).
Proof.
  intros W (n & Hn & Hcur & Hpaid) Hs. unfold mem_gas_cost.
  apply rwp_bind. eapply rwp_mono; [by apply to_word_size_spec | | done].
  intros w [-> Hw]. cbn beta.
  assert (Hr : 0 <= 32 * ((size + 31) / 32) <= size + 31 /\ size <= 32 * ((size + 31) / 32)).
  { pose proof (Z.div_mod (size + 31) 32). pose proof (Z.mod_pos_bound (size + 31) 32). lia. }
  set (k := (size + 31) / 32) in *.
  replace (shl cost_width k 5) with (32 * k).
  2:{ unfold shl. cbn [cost_width usize_cost]. rewrite Z.shiftl_mul_pow2 by lia.
      change (2 ^ 5) with 32. rewrite Z.mod_small; lia. }
  apply rwp_bind. pose proof (wf_memory_gas _ W) as [? ?]. case_if.
  - apply rwp_bind. eapply rwp_mono; [apply gas_for_mem_spec; [done | lia | lia] | | done].
    intros g [-> Hk]. pose proof (mem_cost_mono spec n k). unfold checked_sub.
    rewrite (proj2 (Z.leb_le (current_mem_gas self) (mem_cost spec k))) by lia. cbn.
    split_and!; try lia. exists k. split_and!; lia.
  - cbn. split_and!; try lia. exists n. split_and!; lia.
Qed.

(** *** What an instruction asks for *)

(** The memory an instruction accesses, as offset and size. *)
Definition mem_ranges (instruction : Instruction) (stack : list Z) : list (Z * Z) :=
  let a := word_at stack in
  match instruction with
  | MLOAD | MSTORE => [(a 0%nat, 32)]
  | MSTORE8 => [(a 0%nat, 1)]
  | RETURN | REVERT | SHA3 | LOG0 | LOG1 | LOG2 | LOG3 | LOG4 => [(a 0%nat, a 1%nat)]
  | CALLDATACOPY | CODECOPY | RETURNDATACOPY => [(a 0%nat, a 2%nat)]
  | EXTCODECOPY => [(a 1%nat, a 3%nat)]
  | CALL | CALLCODE => [(a 3%nat, a 4%nat); (a 5%nat, a 6%nat)]
  | DELEGATECALL | STATICCALL => [(a 2%nat, a 3%nat); (a 4%nat, a 5%nat)]
  | CREATE | CREATE2 => [(a 1%nat, a 2%nat)]
  | _ => []
  end.

Definition covers (size : Z) (r : Z * Z) : Prop := r.2 = 0 \/ r.1 + r.2 <= size.

Definition is_subcall (instruction : Instruction) : bool :=
  match instruction with
  | CALL | CALLCODE | DELEGATECALL | STATICCALL | CREATE | CREATE2 => true
  | _ => false
  end.

(** Instructions after which execution of the frame stops, and which may be free. *)
Definition is_halt (instruction : Instruction) : bool :=
  match instruction with STOP | RETURN | REVERT | SUICIDE => true | _ => false end.

(** The gas a sub-call gets on top of what its caller pays for. *)
Definition stipend_of (spec : Spec) (instruction : Instruction) (stack : list Z) : Z :=
  match instruction with
  | CALL | CALLCODE => if word_at stack 2 =? 0 then 0 else call_stipend spec
  | _ => 0
  end.

Definition request_gas (r : Request) : Z :=
  match r with Gas g | GasMem g _ | GasMemProvide g _ _ | GasMemCopy g _ _ => g end.

Definition request_mem (r : Request) : Z :=
  match r with Gas _ => 0 | GasMem _ m | GasMemProvide _ m _ | GasMemCopy _ m _ => m end.

Definition request_shape (instruction : Instruction) (r : Request) : Prop :=
  match r with
  | GasMemProvide _ _ o => is_subcall instruction = true /\ (forall x, o = Some x -> is_u256 x)
  | GasMemCopy _ _ n => is_subcall instruction = false /\ 0 <= n
  | _ => is_subcall instruction = false
  end.

Record request_ok (spec : Spec) (instruction : Instruction) (stack : list Z) (r : Request) : Prop := {
  ro_gas : 0 <= request_gas r;
  ro_mem : 0 <= request_mem r;
  ro_covers : Forall (covers (request_mem r)) (mem_ranges instruction stack);
  ro_shape : request_shape instruction r;
  ro_price : is_halt instruction = true \/ stipend_of spec instruction stack < request_gas r;
}.

Lemma mem_needed_spec off size :
  is_u256 off -> is_u256 size ->
  rwp (mem_needed off size) (fun v => 0 <= v /\ covers v (off, size)) (fun _ => True).
Proof.
  intros [? ?] [? ?]. unfold mem_needed, covers. case_if; cbn; [lia |].
  apply rwp_bind. eapply rwp_mono; [apply rwp_overflowing_add; lia | | done].
  intros x [-> Hx]. eapply rwp_mono; [apply rwp_usize_from_u256; lia | | done].
  intros v [-> Hv]. cbn. lia.
Qed.

Lemma mem_needed_const_spec off n :
  is_u256 off -> 0 <= n ->
  rwp (mem_needed_const off n) (fun v => 0 <= v /\ covers v (off, n)) (fun _ => True).
Proof.
  intros [? ?] ?. unfold mem_needed_const, covers.
  apply rwp_bind. eapply rwp_mono; [apply rwp_overflowing_add; lia | | done].
  intros x [-> Hx]. eapply rwp_mono; [apply rwp_usize_from_u256; lia | | done].
  intros v [-> Hv]. cbn. lia.
Qed.

Lemma covers_max a b r : covers a r \/ covers b r -> covers (Z.max a b) r.
Proof. unfold covers. lia. Qed.

Lemma rwp_checked_mul w a b (Q : Z -> Prop) :
  a * b < 2 ^ w -> Q (a * b) -> rwp (E := Error) (checked_mul w a b) Q (fun _ => True).
Proof. intros H HQ. unfold checked_mul. by rewrite (proj2 (Z.ltb_lt (a * b) (2 ^ w))) by lia. Qed.

Lemma rwp_checked_add w a b (Q : Z -> Prop) :
  a + b < 2 ^ w -> Q (a + b) -> rwp (E := Error) (checked_add w a b) Q (fun _ => True).
Proof. intros H HQ. unfold checked_add. by rewrite (proj2 (Z.ltb_lt (a + b) (2 ^ w))) by lia. Qed.

Section request.
Context {C : Type} {CC : Context C} {spec : Spec} {owner : Z} {ctx_inv : nat -> C -> Prop}.
Context {trap_ok : C -> TrapKind -> Prop} {LAWS : ContextLaws C spec owner ctx_inv trap_ok}.
Context (W : wf_spec spec) (lvl : nat).

Lemma charges_new_account_spec c b a :
  ctx_inv lvl c -> rwp (charges_new_account c spec b a) (fun _ => True) (fun _ => True).
Proof.
  intros Hc. pose proof (law_exists lvl c a Hc) as H1. pose proof (law_exists_and_not_null lvl c a Hc) as H2.
  unfold charges_new_account.
  destruct (ctx_exists c a) as [[] | |], (exists_and_not_null c a), (no_empty spec), b; done.
Qed.

(** The instructions whose cost is not just that of their tier. *)
Definition custom_price (instruction : Instruction) : bool :=
  match instruction with
  | JUMPDEST | SSTORE | SLOAD | BALANCE | EXTCODESIZE | EXTCODEHASH | SUICIDE | SHA3
  | EXTCODECOPY | LOG0 | LOG1 | LOG2 | LOG3 | LOG4 | CALL | CALLCODE | DELEGATECALL | STATICCALL
  | CREATE | CREATE2 | EXP | BLOCKHASH => true
  | _ => false
  end.

Lemma tier_gas_spec instruction inf :
  info instruction = Ok (E := Error) inf ->
  rwp (E := Error) (unwrap (index (tier_step_gas spec) (tier_idx (info_tier inf))))
    (fun d => 0 <= d /\ (custom_price instruction || is_halt instruction = false -> 0 < d))
    (fun _ => True).
Proof.
  destruct (wf_tiers _ W) as (t0 & t1 & t2 & t3 & t4 & t5 & t6 & t7 & -> & H).
  unfold small, small_pos in H. intros E.
  destruct instruction; vm_compute in E; injection E as <-;
    cbn -[Z.lt Z.le]; split; try discriminate; lia.
Qed.

(** Non-negativity of the quantities gas is computed from. *)
Ltac nonneg :=
  repeat match goal with
  | |- 0 <= _ / _ => apply Z.div_pos; [| lia]
  | |- 0 <= _ + _ => apply Z.add_nonneg_nonneg
  | |- 0 <= _ * _ => apply Z.mul_nonneg_nonneg
  | |- 0 <= (if ?b then _ else _) => destruct b
  | |- 0 <= word_at _ _ => apply is_word_word_at; assumption
  | |- 0 <= _ => lia
  end.

Lemma small_mul a b : small a -> small b -> a * b < 2 ^ 60.
Proof. unfold small. intros. change (2 ^ 60) with (0x40000000 * 0x40000000). nia. Qed.

Lemma small_pos_small a : small_pos a -> small a.
Proof. unfold small_pos, small. lia. Qed.

Lemma new_account_gas_spec c (b : bool) (n gas : Z) :
  0 <= gas -> small n ->
  rwp (if b then
         let? extra := checked_mul 64 n (account_gas_ratio c spec) in
         overflowing (overflow_add gas extra)
       else Ok gas) (fun g => gas <= g) (fun _ => True).
Proof.
  intros Hg Hn. destruct b; [| cbn; lia].
  unfold account_gas_ratio. destruct (ctx_space c).
  pose proof (small_mul _ _ Hn (small_pos_small _ (wf_evm_gas_ratio _ W))).
  pose proof (wf_evm_gas_ratio _ W) as [? ?]. pose proof Hn as [? ?].
  apply rwp_bind, rwp_checked_mul; [lia |].
  eapply rwp_mono; [apply rwp_overflowing_add; nonneg | | done]. cbn beta. nia.
Qed.

Lemma value_transfer_gas_spec (b : bool) (gas : Z) :
  0 <= gas ->
  rwp (if b then overflowing (overflow_add gas (call_value_transfer_gas spec)) else Ok gas)
    (fun g => g = gas + if b then call_value_transfer_gas spec else 0) (fun _ => True).
Proof.
  intros Hg. destruct b; [| cbn; lia]. pose proof (wf_call_value_transfer_gas _ W) as [? ?].
  eapply rwp_mono; [apply rwp_overflowing_add; lia | | done]. cbn beta. lia.
Qed.

(** Runs a result built from stack reads and gas arithmetic. *)
Ltac rwp_gas1 :=
  cbn [rwp overflow_add overflow_mul from_u256 usize_cost add_gas_usize unwrap];
  lazymatch goal with
  | |- rwp (result_bind _ _) _ _ => apply rwp_bind
  | |- context [instr_eqb ?a ?b] =>
      let v := eval vm_compute in (instr_eqb a b) in change (instr_eqb a b) with v; cbv iota
  | |- context [log_topics ?a] =>
      let v := eval vm_compute in (log_topics a) in change (log_topics a) with v
  | |- rwp (storage_at ?c ?k) _ _ =>
      eapply rwp_mono; [by apply (law_storage_at lvl c k) | intros ? ? | done]
  | |- rwp (origin_balance ?c) _ _ =>
      eapply rwp_mono; [by apply (law_origin_balance lvl c) | intros ? ? | done]
  | |- rwp (peek ?s ?n) _ _ =>
      rewrite peek_word_at by lia;
      let v := eval vm_compute in (Z.to_nat n) in change (Z.to_nat n) with v
  | |- rwp (mem_needed _ _) _ _ =>
      eapply rwp_mono; [apply mem_needed_spec; auto with hemvm | intros ? [? ?] | done]
  | |- rwp (mem_needed_const _ _) _ _ =>
      eapply rwp_mono; [apply mem_needed_const_spec; [by auto with hemvm | lia] | intros ? [? ?] | done]
  | |- rwp (charges_new_account _ _ _ _) _ _ =>
      eapply rwp_mono; [by apply charges_new_account_spec | intros ? _ | done]
  | |- rwp (if _ then let? _ := checked_mul _ _ _ in _ else _) _ _ =>
      eapply rwp_mono; [by apply new_account_gas_spec; [lia | by constructor; lia] | let H := fresh in intros ? H; cbn beta in H | done]
  | |- rwp (if negb _ then overflowing (overflowing_add _ _ _) else _) _ _ =>
      eapply rwp_mono; [apply value_transfer_gas_spec; lia | intros ? -> | done]
  | |- rwp (checked_mul _ _ _) _ _ => apply rwp_checked_mul; [lia |]
  | |- rwp (checked_add _ _ _) _ _ => apply rwp_checked_add; [lia |]
  | |- rwp (usize_from_u256 _) _ _ =>
      eapply rwp_mono; [apply rwp_usize_from_u256; nonneg | intros ? [-> ?] | done]
  | |- rwp (overflowing (to_word_size _)) _ _ =>
      eapply rwp_mono; [apply to_word_size_spec; nonneg | intros ? [-> ?] | done]
  | |- rwp (overflowing (overflowing_add _ _ _)) _ _ =>
      eapply rwp_mono; [apply rwp_overflowing_add; nonneg | intros ? [-> ?] | done]
  | |- rwp (overflowing (overflowing_mul _ _ _)) _ _ =>
      eapply rwp_mono; [apply rwp_overflowing_mul; nonneg | intros ? [-> ?] | done]
  end.
Ltac rwp_gas := repeat rwp_gas1; cbn [rwp].

Ltac request_done :=
  constructor; cbn -[Z.lt Z.le Z.max Z.div Z.mul Z.add];
  [ nonneg | nonneg
  | repeat apply Forall_cons_2; auto using covers_max, Forall_nil_2
  | repeat split; intros; simplify_eq; try apply is_word_word_at; auto; nonneg
  | first [by left | right; lia | right; apply Z.add_pos_nonneg; [lia | nonneg]
          | right; apply Z.add_nonneg_pos; [nonneg | lia] | right; case_if; cbn [negb]; lia ] ].

Lemma instruction_request_spec c instruction stack inf d :
  ctx_inv lvl c -> info instruction = Ok (E := Error) inf ->
  words stack -> info_args inf <= len stack ->
  0 <= d -> (custom_price instruction || is_halt instruction = false -> 0 < d) ->
  rwp (instruction_request c instruction d stack) (request_ok spec instruction stack) (fun _ => True).
Proof.
  intros Hc E Hw Hlen Hd Hpos. unfold instruction_request. rewrite (law_spec lvl c Hc).
  assert (Hdef : custom_price instruction || is_halt instruction = false -> mem_ranges instruction stack = [] ->
    is_subcall instruction = false -> stipend_of spec instruction stack = 0 ->
    request_ok spec instruction stack (Gas d)).
  { intros ? Hm Hs Hst. constructor; cbn; rewrite ?Hm, ?Hst; auto with lia. }
  pose proof W as []. clear wf_tiers wf_sub_gas_cap_divisor. unfold small, small_pos in *.
  destruct instruction; try (apply Hdef; reflexivity); clear Hdef;
    vm_compute in E; injection E as <-; cbn [info_args] in Hlen;
    try specialize (Hpos eq_refl).



  all: destruct (ctx_space c) eqn:Hspace.
  all: try solve [rwp_gas; request_done].
  - (* EXP *)
    rwp_gas. set (x := word_at stack _).
    assert (Hx : is_u256 x) by by apply is_word_word_at.
    assert (0 <= ((if x =? 0 then 0 else Z.log2 x + 1) + 7) / 8 <= 32).
    { case_if; [done |]. destruct Hx.
      pose proof (Z.log2_nonneg x). pose proof (Z.log2_lt_pow2 x 256).
      split; [apply Z.div_pos; lia |]. apply Z.lt_succ_r, Z.div_lt_upper_bound; lia. }
    set (n := (_ + 7) / 8) in *. clearbody n.
    apply rwp_checked_mul; [nia |]. apply rwp_bind, rwp_checked_add; [nia |].
    cbn [rwp]. request_done.
  - (* SSTORE *)
    rwp_gas. case_if; [| cbn [rwp]; request_done].
    apply rwp_checked_mul; [nia |]. cbn [rwp]. request_done; nia.
Qed.

(** *** Gas for a sub-call *)

Lemma gas_provided_nonneg self needed requested :
  0 <= current_gas self -> 0 <= needed -> (forall x, requested = Some x -> is_u256 x) ->
  rwp (gas_provided self spec needed requested) (fun p => 0 <= p) (fun _ => True).
Proof.
  intros Hg Hn Hr. unfold gas_provided.
  assert (Hun : rwp (match from_u256 <$> requested with
    | Some r => r
    | None => if needed <=? current_gas self then Ok (current_gas self - needed) else Ok 0
    end) (fun p => 0 <= p) (fun _ => True)).
  { destruct requested as [x |]; cbn.
    - destruct (Hr x eq_refl). eapply rwp_mono; [apply rwp_usize_from_u256; lia | | done]. cbn. lia.
    - case_if; cbn; lia. }
  destruct (sub_gas_cap_divisor spec) as [d |] eqn:Ed; [| done].
  destruct (wf_sub_gas_cap_divisor _ W d Ed) as [Hd _].
  destruct (needed <=? current_gas self) eqn:E; [| done]. b2p.
  set (rem := current_gas self - needed) in *.
  assert (Hmax : exists m, 0 <= m /\ (if d =? 64 then checked_sub rem (shr rem 6)
    else if d =? 0 then Panic else checked_sub rem (rem / d)) = Ok (E := Error) m).
  { rewrite (proj2 (Z.eqb_neq d 0)) by lia. unfold shr, checked_sub.
    rewrite Z.shiftr_div_pow2 by lia. change (2 ^ 6) with 64.
    pose proof (Z.div_le_upper_bound rem 64 rem). pose proof (Z.div_le_upper_bound rem d rem).
    rewrite !(proj2 (Z.leb_le _ rem)) by nia. case_if; eexists; (split; [| done]); nia. }
  destruct Hmax as (m & Hm & ->). cbn [result_bind].
  destruct requested as [x |]; cbn; [| done].
  destruct (Hr x eq_refl). pose proof (rwp_usize_from_u256 x) as Hx.
  destruct (usize_from_u256 x); cbn in *; lia.
Qed.

(** *** What is charged *)

Record requirements_ok (instruction : Instruction) (stack : list Z) (cur : Z)
    (req : InstructionRequirements) : Prop := {
  q_cost : 0 <= gas_cost req;
  q_mem : mem_paid spec (Z.max cur (memory_required_size req)) (memory_total_gas req);
  q_covers : Forall (covers (memory_required_size req)) (mem_ranges instruction stack);
  q_provide : is_subcall instruction = true -> exists p, provide_gas req = Some p /\ 0 <= p /\
    p + stipend_of spec instruction stack < gas_cost req;
  q_price : is_halt instruction = true \/ 0 < gas_cost req;
}.

Lemma covers_mono a b r : a <= b -> covers a r -> covers b r.
Proof. unfold covers. lia. Qed.

Lemma stipend_nonneg instruction stack : 0 <= stipend_of spec instruction stack.
Proof.
  pose proof (wf_call_stipend _ W) as [? ?].
  unfold stipend_of. destruct instruction; try lia; case_if; lia.
Qed.

Lemma charge_request_spec self instruction stack cur r :
  0 <= current_gas self -> mem_paid spec cur (current_mem_gas self) ->
  request_ok spec instruction stack r ->
  rwp (charge_request self spec cur r) (requirements_ok instruction stack cur) (fun _ => True).
Proof.
  intros Hg Hp [Rg Rm Rc Rs Rp]. pose proof (stipend_nonneg instruction stack) as Hst.
  pose proof (wf_copy_gas _ W) as [? ?].
  destruct r as [gas | gas m | gas m o | gas m n]; cbn [request_gas request_mem request_shape] in *;
    unfold charge_request.
  - cbn. destruct (Hp) as (k & ? & ? & ?). constructor; cbn; [done | | done | | destruct Rp; [by left | right; lia]].
    + rewrite Z.max_l by lia. done.
    + by rewrite Rs.
  - apply rwp_bind. eapply rwp_mono; [by apply mem_gas_cost_spec | | done].
    intros [[c t] s] (? & ? & ? & ?). rwp_gas.
    constructor; cbn; [lia | done | | by rewrite Rs | destruct Rp; [by left | right; lia]].
    eapply Forall_impl; [| exact Rc]. intros r. by apply covers_mono.
  - destruct Rs as [Rs Ro]. apply rwp_bind. eapply rwp_mono; [by apply mem_gas_cost_spec | | done].
    intros [[c t] s] (? & ? & ? & ?). rwp_gas1. rwp_gas1. rwp_gas1.
    eapply rwp_mono; [apply gas_provided_nonneg; [lia | lia | done] | | done].
    intros p Hp'. cbn beta in Hp'. rwp_gas.
    destruct Rp as [Rp | Rp]; [by destruct instruction |].
    constructor; cbn; [lia | done | | | lia].
    + eapply Forall_impl; [| exact Rc]. intros r. by apply covers_mono.
    + intros _. exists p. split_and!; [done | done | lia].
  - destruct Rs as [Rs Rn]. apply rwp_bind. eapply rwp_mono; [by apply mem_gas_cost_spec | | done].
    intros [[c t] s] (? & ? & ? & ?). rwp_gas.
    assert (0 <= copy_gas spec * ((n + 31) / 32)) by nonneg.
    constructor; cbn -[Z.mul Z.div Z.add]; [lia | done | | by rewrite Rs | destruct Rp; [by left | right; lia]].
    eapply Forall_impl; [| exact Rc]. intros r. by apply covers_mono.
Qed.

Lemma requirements_spec self c instruction inf stack cur :
  ctx_inv lvl c -> info instruction = Ok (E := Error) inf ->
  words stack -> info_args inf <= len stack ->
  0 <= current_gas self -> mem_paid spec cur (current_mem_gas self) ->
  rwp (requirements self c instruction inf stack cur)
    (requirements_ok instruction stack cur) (fun _ => True).
Proof.
  intros Hc Hi Hw Hl Hg Hp. unfold requirements. rewrite (law_spec lvl c Hc).
  apply rwp_bind. eapply rwp_mono; [by apply tier_gas_spec | | done]. intros d [Hd Hd'].
  apply rwp_bind. eapply rwp_mono; [by eapply instruction_request_spec | | done]. intros r Hr.
  by apply charge_request_spec.
Qed.
End request.

(** *** Closed forms *)

Section closed_forms.
Context {spec : Spec} (W : wf_spec spec).

(** The most memory [usize] gas can pay for: 2^32 - 1 words. *)
Definition MAX_PAID_MEM : Z := 32 * (2 ^ 32 - 1).

Lemma gas_for_mem_exact n :
  0 <= n < 2 ^ 59 ->
  gas_for_mem spec (32 * n) = if n <? 2 ^ 32 then Ok (mem_cost spec n) else Err OutOfGas.
Proof.
  intros Hn. pose proof (gas_for_mem_spec spec n W) as H.
  specialize (H ltac:(lia) ltac:(lia)). revert H. unfold gas_for_mem, shr.
  rewrite Z.shiftr_div_pow2 by lia. change (2 ^ 5) with 32.
  rewrite (Z.mul_comm 32 n), Z.div_mul by lia.
  pose proof (wf_memory_gas _ W) as [? ?]. rewrite (wf_quad_coeff_div _ W).
  cbn [overflow_mul overflow_add overflow_mul_shr usize_cost Z.eqb Pos.eqb negb].
  rewrite usize_overflow_mul_shr_spec by (unfold is_word; lia).
  unfold overflowing at 1 2 4 5, overflowing_mul.
  destruct (2 ^ 64 <=? n * memory_gas spec) eqn:E1; b2p; cbn [result_bind rwp].
  { intros _. case_if; [| done]. nia. }
  destruct (2 ^ 64 <=? n * n) eqn:E2; b2p; cbn [result_bind rwp].
  { intros _. case_if; [| done]. change (2 ^ 64) with (2 ^ 32 * 2 ^ 32) in E2. nia. }
  assert (n < 2 ^ 32) by (change (2 ^ 64) with (2 ^ 32 * 2 ^ 32) in E2; nia).
  rewrite (proj2 (Z.ltb_lt n (2 ^ 32))) by lia.
  rewrite Z.shiftr_div_pow2 by lia. change (2 ^ 9) with 512.
  assert (0 <= n * n / 512 < 2 ^ 55).
  { split; [apply Z.div_pos; nia | apply Z.div_lt_upper_bound; [lia |]].
    change (512 * 2 ^ 55) with (2 ^ 64). lia. }
  unfold overflowing, overflowing_add. rewrite !(Z.mod_small (n * memory_gas spec)) by lia.
  rewrite (Z.mod_small (n * n / 512)) by lia.
  rewrite (proj2 (Z.leb_gt (2 ^ 64) _)) by nia. by intros [-> _].
Qed.
End closed_forms.
End usize.

(** C39. Memory is charged exactly: with 64-bit gas, growing a paid-for memory to hold
    [size] bytes costs the difference between [n * memory_gas + n * n / 512] for the words
    needed and what was paid before, nothing if the memory is already large enough, and is an
    [OutOfGas] error exactly when more than 2^32 - 1 words would be needed. The memory asked
    for is [size] rounded up to whole words. *)
Theorem memory_gas_exact spec self cur size :
  wf_spec spec -> mem_paid spec cur (current_mem_gas self) -> 0 <= size ->
  let words := (size + 31) / 32 in
  mem_gas_cost (cost := usize_cost) self spec cur size =
    if size <=? MAX_PAID_MEM then
      let total := mem_cost spec (Z.max (cur / 32) words) in
      Ok (total - current_mem_gas self, total, 32 * words)
    else Err OutOfGas.
Proof.
  intros W (n & Hn & -> & Hpaid) Hs words. unfold mem_gas_cost, to_word_size, MAX_PAID_MEM.
  cbn [add_gas_usize overflow_add usize_cost as_usize cost_width]. unfold overflowing_add.
  assert (Hw : size <= 32 * words <= size + 31).
  { subst words. pose proof (Z.div_mod (size + 31) 32). pose proof (Z.mod_pos_bound (size + 31) 32).
    lia. }
  destruct (2 ^ 64 <=? size + 31) eqn:E; b2p.
  { cbn [overflowing result_bind]. case_if; [lia | done]. }
  rewrite (Z.mod_small (size + 31)) by lia. cbn [overflowing result_bind].
  unfold shr. rewrite Z.shiftr_div_pow2 by lia. change ((size + 31) / 2 ^ 5) with words.
  unfold shl. rewrite Z.shiftl_mul_pow2 by lia. change (2 ^ 5) with 32.
  rewrite (Z.mul_comm words 32), (Z.mod_small (32 * words)) by lia.
  rewrite (Z.mul_comm 32 n), Z.div_mul, (Z.mul_comm n 32) by lia.
  pose proof (wf_memory_gas _ W) as [? ?]. case_if.
  - rewrite gas_for_mem_exact by (done || lia).
    case_if; [| cbn; rewrite (proj2 (Z.leb_gt size _)) by lia; done].
    rewrite (proj2 (Z.leb_le size _)) by lia. rewrite Z.max_r by lia.
    pose proof (mem_cost_mono spec n words). unfold checked_sub. cbn [result_bind].
    by rewrite (proj2 (Z.leb_le (current_mem_gas self) _)) by lia.
  - cbn [result_bind]. rewrite (proj2 (Z.leb_le size _)) by lia. rewrite Z.max_l by lia.
    rewrite <- Hpaid. do 3 f_equal. lia.
Qed.

Lemma memory_gas_exact_witness :
  mem_gas_cost (cost := usize_cost) (mkGasometer 100000 3) genesis_spec 32 1000 =
    Ok (95, 98, 1024).
Proof.
  rewrite (memory_gas_exact genesis_spec (mkGasometer 100000 3) 32 1000).
  - reflexivity.
  - exact wf_genesis_spec.
  - exists 1. split_and!; [lia | lia | reflexivity | reflexivity].
  - lia.
Defined.

(** All but one 64th: when the rest of the price [needed] is affordable, a sub-call or
    creation gets what it asked for but at most the remaining gas less a 64th of it, for both
    cost types and also when the amount asked for does not fit the cost type; the parent
    always keeps at least a 64th of the remaining gas. *)
Theorem gas_provided_all_but_one_64th (cost : CostType) self spec needed requested :
  cost = usize_cost \/ cost = u256_cost ->
  sub_gas_cap_divisor spec = Some 64 ->
  0 <= needed <= current_gas self -> current_gas self < 2 ^ cost_width ->
  (forall x, requested = Some x -> is_u256 x) ->
  let remaining := current_gas self - needed in
  let cap := remaining - remaining / 64 in
  gas_provided self spec needed requested =
    Ok (match requested with Some x => Z.min x cap | None => cap end).
Proof.
  intros Hcost Hdiv Hn Hg Hr remaining cap. unfold gas_provided. rewrite Hdiv.
  rewrite (proj2 (Z.leb_le needed _)) by lia. cbn [Z.eqb Pos.eqb].
  unfold shr, checked_sub. rewrite Z.shiftr_div_pow2 by lia. change (2 ^ 6) with 64.
  fold remaining. assert (0 <= remaining / 64 <= remaining).
  { split; [apply Z.div_pos; lia | apply Z.div_le_upper_bound; lia]. }
  rewrite (proj2 (Z.leb_le _ remaining)) by lia. cbn [result_bind]. fold cap.
  destruct requested as [x |]; [| done]. cbn [fmap option_fmap option_map].
  destruct (Hr x eq_refl) as [Hx _]. destruct Hcost as [-> | ->]; [| done].
  cbn [from_u256 usize_cost cost_width] in *. unfold usize_from_u256.
  pose proof (low_u64_bound x) as [? ?]. case_if.
  - rewrite Z.min_r; [done |]. enough (2 ^ 64 <= x) by lia.
    apply Z.nlt_ge. intros ?. apply Heqb. apply low_u64_small. split; lia.
  - by rewrite Heqb.
Qed.

Lemma gas_provided_all_but_one_64th_witness :
  gas_provided (cost := usize_cost) (mkGasometer 7400 0) genesis_spec 1000 (Some (2 ^ 256 - 1)) =
    Ok 6300.
Proof.
  rewrite (gas_provided_all_but_one_64th usize_cost (mkGasometer 7400 0) genesis_spec 1000).
  - reflexivity.
  - by left.
  - reflexivity.
  - cbn. lia.
  - reflexivity.
  - intros x [= <-]. split; vm_compute; congruence.
Defined.

(** C35. The price of an instruction is sound, for 64-bit gas and any well-behaved context:
    with its arguments on the stack, [requirements] does not panic, and if it succeeds then
    the memory to make room for covers every range of memory the instruction accesses and is
    what is paid for, a sub-call or creation is given an amount which, together with the call
    stipend, is strictly below what is charged, and every instruction that does not end the
    frame costs something. *)
Theorem requirements_sound {C} {CC : Context C} {spec : Spec} {owner : Z}
    {ctx_inv : nat -> C -> Prop} {trap_ok : C -> TrapKind -> Prop}
    {LAWS : ContextLaws C spec owner ctx_inv trap_ok} n self c instruction inf stack cur :
  wf_spec spec -> ctx_inv n c -> info instruction = Ok (E := Error) inf ->
  words stack -> info_args inf <= len stack ->
  0 <= current_gas self -> mem_paid spec cur (current_mem_gas self) ->
  match requirements (cost := usize_cost) self c instruction inf stack cur with
  | Ok req => requirements_ok (spec := spec) instruction stack cur req
  | Err _ => True
  | Panic => False
  end.
Proof. intros W Hc Hi Hw Hl Hg Hp. exact (requirements_spec W n _ _ _ _ _ _ Hc Hi Hw Hl Hg Hp). Qed.
