(* ===== verification/SharedCache.v ===== *)
(** * Jump destination analysis and its cache

    src/cfx-evm/src/evm/interpreter/shared_cache.rs. [find_jump_and_sub_destinations] scans a
    contract's code once and collects the positions of [JUMPDEST] and [BEGINSUB] that are
    instructions, as opposed to bytes pushed by a [PUSHn]. [SharedCache] remembers the result
    per code hash in an LRU cache. The LRU container is the [lru_cache] crate behind
    [MemoryLruCache]: a parameter here (class [Lru]), of which the code only relies on lookups
    returning values that were inserted under the key looked up.

    Shown here: the scan computes exactly the destinations of the reference definition
    [instr_start]; and the cache is transparent, that is, with a collision-free assignment of
    hashes to codes a lookup returns what the scan would. *)

From stdpp Require Import gmap.
From S2P Require Import Prelude Word Arith VmTypes Instructions.
Local Open Scope Z_scope.

(** A [BitSet] of positions. *)
Record CacheItem : Type := mkCacheItem {
  jump_destination : gset Z;
  sub_entrypoint : gset Z;
}.

(** The [while position < code.len()] loop; each turn advances [position], so [len code]
    turns are enough. *)
Fixpoint scan (fuel : nat) (code : list byte) (position : Z) (jump_dests sub_entrypoints : gset Z) :
    CacheItem :=
  match fuel with
  | O => mkCacheItem jump_dests sub_entrypoints
  | S fuel =>
      match index code position with
      | None => mkCacheItem jump_dests sub_entrypoints
      | Some opcode =>
          match from_u8 opcode with
          | Some JUMPDEST => scan fuel code (position + 1) ({[position]} ∪ jump_dests) sub_entrypoints
          | Some BEGINSUB => scan fuel code (position + 1) jump_dests ({[position]} ∪ sub_entrypoints)
          | Some instruction =>
              match push_bytes instruction with
              | Some n => scan fuel code (position + n + 1) jump_dests sub_entrypoints
              | None => scan fuel code (position + 1) jump_dests sub_entrypoints
              end
          | None => scan fuel code (position + 1) jump_dests sub_entrypoints
          end
      end
  end.

Definition find_jump_and_sub_destinations (code : list byte) : CacheItem :=
  scan (length code) code 0 ∅ ∅.

(** ** The LRU container *)

Class Lru (L : Type) : Type := {
  lru_get_mut : L -> Z -> option CacheItem * L;
  lru_insert : L -> Z -> CacheItem -> L;
  (** The bindings a cache may still hold. *)
  lru_binds : L -> Z -> CacheItem -> Prop;
  lru_get_sound l h d l' : lru_get_mut l h = (Some d, l') -> lru_binds l h d;
  lru_get_binds l h o l' k d : lru_get_mut l h = (o, l') -> lru_binds l' k d -> lru_binds l k d;
  lru_insert_binds l h d k d' :
    lru_binds (lru_insert l h d) k d' -> (k = h /\ d' = d) \/ lru_binds l k d';
}.

(** [hash::KECCAK_EMPTY] *)
Definition KECCAK_EMPTY : Z :=
  0xc5d2460186f7233c927e7db2dcc703c0e500b653ca82273b7bfad8045d85a470.

Section shared_cache.
Context {L : Type} {LL : Lru L}.

Definition jump_and_sub_destinations (cache : L) (code_hash : option Z) (code : list byte) :
    (gset Z * gset Z) * L :=
  let compute_and_insert cache :=
    let d := find_jump_and_sub_destinations code in
    let cache := match code_hash with Some h => lru_insert cache h d | None => cache end in
    ((jump_destination d, sub_entrypoint d), cache) in
  match code_hash with
  | Some h =>
      if h =? KECCAK_EMPTY then
        let d := find_jump_and_sub_destinations code in
        ((jump_destination d, sub_entrypoint d), cache)
      else
        match lru_get_mut cache h with
        | (Some d, cache) => ((jump_destination d, sub_entrypoint d), cache)
        | (None, cache) => compute_and_insert cache
        end
  | None => compute_and_insert cache
  end.
End shared_cache.

(** ** The reference definition *)

(** The length of the instruction at a position, its immediate bytes included. *)
Definition instr_size (opcode : byte) : Z :=
  match from_u8 opcode with
  | Some i => match push_bytes i with Some n => n + 1 | None => 1 end
  | None => 1
  end.

(** [decodes code p q]: decoding the code from position [p] meets an instruction at [q]. *)
Inductive decodes (code : list byte) : Z -> Z -> Prop :=
| decodes_here p : decodes code p p
| decodes_next p opcode q :
    index code p = Some opcode -> decodes code (p + instr_size opcode) q -> decodes code p q.

(** The positions at which decoding the code from its start meets an instruction. *)
Definition instr_start (code : list byte) : Z -> Prop := decodes code 0.

Definition is_instr_at (code : list byte) (p : Z) (i : Instruction) : Prop :=
  instr_start code p /\ exists opcode, index code p = Some opcode /\ from_u8 opcode = Some i.

(** ** Lemmas *)

Lemma index_Some {A} (l : list A) i x : index l i = Some x -> 0 <= i < len l.
Proof.
  unfold index, len. case_if; [| done]. intros H%lookup_lt_Some. lia.
Qed.

Lemma index_None {A} (l : list A) i : 0 <= i -> index l i = None -> len l <= i.
Proof.
  unfold index, len. intros Hi. rewrite (proj2 (Z.leb_le 0 i)) by lia.
  intros H%lookup_ge_None. lia.
Qed.

Lemma index_is_Some {A} (l : list A) i : 0 <= i < len l -> exists x, index l i = Some x.
Proof.
  intros Hi. unfold index, len in *. rewrite (proj2 (Z.leb_le 0 i)) by lia.
  destruct (lookup_lt_is_Some_2 l (Z.to_nat i)) as [x Hx]; [lia | eauto].
Qed.

Lemma push_bytes_bound i n : push_bytes i = Some n -> 1 <= n <= 32.
Proof. destruct i; vm_compute; intros [=]; subst; split; congruence. Qed.

Lemma instr_size_bound b : 1 <= instr_size b <= 33.
Proof.
  unfold instr_size. destruct (from_u8 b) as [i |]; [| lia].
  destruct (push_bytes i) as [n |] eqn:E; [| lia]. apply push_bytes_bound in E. lia.
Qed.

Lemma decodes_le code p q : decodes code p q -> p <= q.
Proof. induction 1 as [| p op q _ _ IH]; [lia |]. pose proof (instr_size_bound op). lia. Qed.

Lemma decodes_snoc code p q op :
  decodes code p q -> index code q = Some op -> decodes code p (q + instr_size op).
Proof. induction 1; eauto using decodes. Qed.

Lemma decodes_inv code p q op :
  index code p = Some op -> decodes code p q -> q = p \/ decodes code (p + instr_size op) q.
Proof. intros Hop. inversion 1; simplify_eq; auto. Qed.

Lemma decodes_end code p q op : len code <= p -> decodes code p q -> index code q <> Some op.
Proof.
  intros Hp Hq E%index_Some. pose proof (decodes_le _ _ _ Hq). lia.
Qed.

(** What [scan] adds to the sets it was given. *)
Definition reaches (code : list byte) (p : Z) (i : Instruction) (q : Z) : Prop :=
  decodes code p q /\ exists opcode, index code q = Some opcode /\ from_u8 opcode = Some i.

Lemma reaches_step code p op i q :
  index code p = Some op ->
  reaches code p i q <-> (q = p /\ from_u8 op = Some i) \/ reaches code (p + instr_size op) i q.
Proof.
  intros Hop. unfold reaches. split.
  - intros [Hd (o & Ho & Hi)]. destruct (decodes_inv _ _ _ _ Hop Hd) as [-> | Hd'];
      [left; by simplify_eq | right; eauto].
  - intros [[-> Hi] | [Hd Ho]]; [split; eauto using decodes | split; eauto using decodes].
Qed.

Lemma reaches_end code p i q : len code <= p -> ~ reaches code p i q.
Proof. intros Hp [Hd (o & Ho & _)]. by eapply decodes_end. Qed.

(** One turn of the loop, whatever the instruction is. *)
Lemma scan_S fuel code p jd se op :
  index code p = Some op ->
  scan (S fuel) code p jd se =
    scan fuel code (p + instr_size op)
      (if decide (from_u8 op = Some JUMPDEST) then {[p]} ∪ jd else jd)
      (if decide (from_u8 op = Some BEGINSUB) then {[p]} ∪ se else se).
Proof.
  intros Hop. cbn [scan]. rewrite Hop. unfold instr_size.
  destruct (from_u8 op) as [i |]; [| done].
  destruct (decide (Some i = Some JUMPDEST)) as [[= ->] | Hj]; [done |].
  destruct (decide (Some i = Some BEGINSUB)) as [[= ->] | Hs]; [done |].
  destruct (push_bytes i) as [n |] eqn:E; rewrite ?Z.add_assoc; by destruct i.
Qed.

Lemma scan_correct fuel code p jd se :
  0 <= p -> len code - p <= Z.of_nat fuel ->
  (forall q, q ∈ jump_destination (scan fuel code p jd se) <->
             q ∈ jd \/ reaches code p JUMPDEST q) /\
  (forall q, q ∈ sub_entrypoint (scan fuel code p jd se) <->
             q ∈ se \/ reaches code p BEGINSUB q).
Proof.
  revert p jd se. induction fuel as [| fuel IH]; intros p jd se Hp Hf.
  - cbn. split; intros q; (split; [tauto | intros [? | []%reaches_end]; [done | lia]]).
  - destruct (index code p) as [op |] eqn:Hop.
    + pose proof (instr_size_bound op). rewrite (scan_S _ _ _ _ _ _ Hop).
      edestruct (IH (p + instr_size op)) as [IH1 IH2]; [lia | lia |].
      split; intros q; [rewrite IH1 | rewrite IH2]; rewrite (reaches_step _ _ _ _ _ Hop);
        clear IH1 IH2; case_decide; rewrite ?elem_of_union, ?elem_of_singleton; tauto.
    + cbn [scan]. rewrite Hop. apply index_None in Hop; [| done].
      split; intros q; (split; [tauto | intros [? | []%reaches_end]; done]).
Qed.

Lemma find_jump_and_sub_destinations_jump code q :
  q ∈ jump_destination (find_jump_and_sub_destinations code) <-> is_instr_at code q JUMPDEST.
Proof.
  unfold find_jump_and_sub_destinations.
  rewrite (proj1 (scan_correct (length code) code 0 ∅ ∅ (Z.le_refl 0) ltac:(unfold len; lia))).
  rewrite elem_of_empty. unfold is_instr_at, reaches, instr_start. tauto.
Qed.

Lemma find_jump_and_sub_destinations_sub code q :
  q ∈ sub_entrypoint (find_jump_and_sub_destinations code) <-> is_instr_at code q BEGINSUB.
Proof.
  unfold find_jump_and_sub_destinations.
  rewrite (proj2 (scan_correct (length code) code 0 ∅ ∅ (Z.le_refl 0) ltac:(unfold len; lia))).
  rewrite elem_of_empty. unfold is_instr_at, reaches, instr_start. tauto.
Qed.

Lemma is_instr_at_bound code q i : is_instr_at code q i -> 0 <= q < len code.
Proof. intros [_ (o & Ho & _)]. by eapply index_Some. Qed.

(** ** Transparency of the cache *)

Section transparency.
Context {L : Type} {LL : Lru L}.
(** Which code a hash stands for; a hash with no code known is [None]. *)
Context (code_of : Z -> option (list byte)).

(** Every binding is the analysis of the code its key is the hash of. *)
Definition cache_inv (cache : L) : Prop :=
  forall h d, lru_binds cache h d ->
    exists code, code_of h = Some code /\ d = find_jump_and_sub_destinations code.

Lemma jump_and_sub_destinations_ok cache code_hash code :
  cache_inv cache ->
  (forall h, code_hash = Some h -> code_of h = Some code) ->
  let d := find_jump_and_sub_destinations code in
  let r := jump_and_sub_destinations cache code_hash code in
  r.1 = (jump_destination d, sub_entrypoint d) /\ cache_inv r.2.
Proof.
  intros Hinv Hh. unfold jump_and_sub_destinations. destruct code_hash as [h |]; [| done].
  specialize (Hh h eq_refl). destruct (h =? KECCAK_EMPTY); [done |].
  destruct (lru_get_mut cache h) as [o cache'] eqn:Hget.
  assert (cache_inv cache') as Hinv' by (intros k d Hk; by eapply Hinv, lru_get_binds).
  destruct o as [d |].
  - apply lru_get_sound in Hget. destruct (Hinv _ _ Hget) as (c & Hc & ->). by simplify_eq.
  - split; [done |]. intros k d [[-> ->] | Hk]%lru_insert_binds; eauto.
Qed.
End transparency.

(** A cache that never evicts is an [Lru]. *)
#[refine] Instance map_lru : Lru (gmap Z CacheItem) := {
  lru_get_mut m h := (m !! h, m);
  lru_insert m h d := <[h := d]> m;
  lru_binds m h d := m !! h = Some d;
}.
Proof.
  - intros l h d l' [= ? ->]. done.
  - intros l h o l' k d [= ? ->]. done.
  - intros l h d k d' [[? ?] | [_ ?]]%lookup_insert_Some; auto.
Defined.

(** C37. The jump destination analysis is exact: a position is accepted as a jump destination
    (a subroutine entry) if and only if decoding the code from its first byte meets a
    [JUMPDEST] ([BEGINSUB]) there; bytes that belong to the operand of a [PUSHn] are never
    accepted. The result does not depend on what the shared cache holds or evicts, as long
    as the code hashes passed to it identify the code. *)
Theorem jump_destinations_exact {L} {LL : Lru L} (code_of : Z -> option (list byte))
    (cache : L) (code_hash : option Z) (code : list byte) :
  cache_inv code_of cache ->
  (forall h, code_hash = Some h -> code_of h = Some code) ->
  let r := jump_and_sub_destinations cache code_hash code in
  (forall q, q ∈ r.1.1 <-> is_instr_at code q JUMPDEST) /\
  (forall q, q ∈ r.1.2 <-> is_instr_at code q BEGINSUB) /\
  cache_inv code_of r.2.
Proof.
  intros Hinv Hh. destruct (jump_and_sub_destinations_ok _ _ _ _ Hinv Hh) as [E Hinv'].
  cbv zeta in *. rewrite E. split_and!; [| | done]; intros q;
    [apply find_jump_and_sub_destinations_jump | apply find_jump_and_sub_destinations_sub].
Qed.

(** [PUSH1 0x5b; JUMPDEST]: the pushed byte is not a destination, the instruction is. *)
Lemma jump_destinations_exact_witness :
  let code := [x60; x5b; x5b] in
  let r := jump_and_sub_destinations (∅ : gmap Z CacheItem) (Some 7) code in
  is_instr_at code 2 JUMPDEST /\ ~ is_instr_at code 1 JUMPDEST /\
  cache_inv (fun _ => Some code) r.2.
Proof.
  intros code r.
  destruct (jump_destinations_exact (fun _ => Some code) (∅ : gmap Z CacheItem) (Some 7) code)
    as (H1 & H2 & H3).
  - intros h d Hd. vm_compute in Hd. discriminate Hd.
  - done.
  - split_and!; [| | done].
    + apply H1. vm_compute. reflexivity.
    + intros H%H1. revert H. vm_compute. discriminate.
Defined.
