(* ===== verification/Interpreter.v ===== *)
(** * The EVM interpreter

    src/cfx-evm/src/evm/interpreter/mod.rs: [Interpreter], its single-step function and the
    loop around it, the instructions, and the resumption of a frame after a sub-call or a
    contract creation. Also [Finalize] (src/cfx-evm/src/evm/evm.rs).

    A method with [&mut self] and [&mut dyn Context] is a computation over [Machine]: the
    interpreter, the context and the shared jump destination cache. [?] is the bind of the
    monad. [expect], [assert!], slices out of range and arithmetic overflow are [Panic].
    Logging, the informant and the [VmObserve] tracer do not influence execution and are left
    out; the tracing callbacks of the context are kept. [keccak] is a third-party function and
    a parameter. *)

From stdpp Require Import gmap.
From S2P Require Import Prelude Word Arith VmTypes Instructions EvmStack Memory Gasometer SharedCache.
Local Open Scope Z_scope.

Definition MAX_SUB_STACK_SIZE : Z := 1023.

Inductive InstructionResult : Set :=
| InstrOk
| UnusedGas (gas : Z)
| JumpToPosition (position : Z)
| JumpToSubroutine (position : Z)
| ReturnFromSubroutine (position : Z)
| StopExecutionNeedsReturn (gas init_off init_size : Z) (apply : bool)
| StopExecution
| InstrTrap (trap : TrapKind).

Record InterpreterParams : Set := mkInterpreterParams {
  p_space : Space;
  p_code_address : Z;
  p_code_hash : option Z;
  p_address : Z;
  p_sender : Z;
  p_original_sender : Z;
  p_gas : Z;
  p_gas_price : Z;
  p_value : ActionValue;
  p_data : option (list byte);
  p_call_type : CallType;
  p_params_type : ParamsType;
}.

(** [From<ActionParams> for InterpreterParams] *)
Definition InterpreterParams_from (params : ActionParams) : InterpreterParams := {|
  p_space := ap_space params;
  p_code_address := ap_code_address params;
  p_code_hash := ap_code_hash params;
  p_address := ap_address params;
  p_sender := ap_sender params;
  p_original_sender := ap_original_sender params;
  p_gas := ap_gas params;
  p_gas_price := ap_gas_price params;
  p_value := ap_value params;
  p_data := ap_data params;
  p_call_type := ap_call_type params;
  p_params_type := ap_params_type params;
|}.

Inductive InterpreterResult : Set :=
| Stopped
| Done (value : GasLeft + Error)
| Continue
| Trap (trap : TrapKind).

(** The interpreter; [i_position] and [i_code] are its [CodeReader]. *)
Record Interpreter : Type := mkInterpreter {
  i_space : Space;
  i_mem : list byte;
  i_params : InterpreterParams;
  i_position : Z;
  i_code : list byte;
  i_return_data : ReturnData;
  i_do_trace : bool;
  i_done : bool;
  i_valid_jump_destinations : option (gset Z);
  i_valid_subroutine_destinations : option (gset Z);
  i_gasometer : option Gasometer;
  i_stack : list Z;
  i_return_stack : list Z;
  i_resume_output_range : option (Z * Z);
  i_resume_result : option InstructionResult;
  i_last_stack_ret_len : Z;
}.

(** Assignments to the fields that change. *)
Definition set_mem (v : list byte) (i : Interpreter) : Interpreter :=
  mkInterpreter (i_space i) v (i_params i) (i_position i) (i_code i) (i_return_data i)
    (i_do_trace i) (i_done i) (i_valid_jump_destinations i) (i_valid_subroutine_destinations i)
    (i_gasometer i) (i_stack i) (i_return_stack i) (i_resume_output_range i) (i_resume_result i)
    (i_last_stack_ret_len i).
Definition set_position (v : Z) (i : Interpreter) : Interpreter :=
  mkInterpreter (i_space i) (i_mem i) (i_params i) v (i_code i) (i_return_data i) (i_do_trace i)
    (i_done i) (i_valid_jump_destinations i) (i_valid_subroutine_destinations i) (i_gasometer i)
    (i_stack i) (i_return_stack i) (i_resume_output_range i) (i_resume_result i)
    (i_last_stack_ret_len i).
Definition set_return_data (v : ReturnData) (i : Interpreter) : Interpreter :=
  mkInterpreter (i_space i) (i_mem i) (i_params i) (i_position i) (i_code i) v (i_do_trace i)
    (i_done i) (i_valid_jump_destinations i) (i_valid_subroutine_destinations i) (i_gasometer i)
    (i_stack i) (i_return_stack i) (i_resume_output_range i) (i_resume_result i)
    (i_last_stack_ret_len i).
Definition set_do_trace (v : bool) (i : Interpreter) : Interpreter :=
  mkInterpreter (i_space i) (i_mem i) (i_params i) (i_position i) (i_code i) (i_return_data i) v
    (i_done i) (i_valid_jump_destinations i) (i_valid_subroutine_destinations i) (i_gasometer i)
    (i_stack i) (i_return_stack i) (i_resume_output_range i) (i_resume_result i)
    (i_last_stack_ret_len i).
Definition set_done (v : bool) (i : Interpreter) : Interpreter :=
  mkInterpreter (i_space i) (i_mem i) (i_params i) (i_position i) (i_code i) (i_return_data i)
    (i_do_trace i) v (i_valid_jump_destinations i) (i_valid_subroutine_destinations i)
    (i_gasometer i) (i_stack i) (i_return_stack i) (i_resume_output_range i) (i_resume_result i)
    (i_last_stack_ret_len i).
Definition set_valid_jump_destinations (v : option (gset Z)) (i : Interpreter) : Interpreter :=
  mkInterpreter (i_space i) (i_mem i) (i_params i) (i_position i) (i_code i) (i_return_data i)
    (i_do_trace i) (i_done i) v (i_valid_subroutine_destinations i) (i_gasometer i) (i_stack i)
    (i_return_stack i) (i_resume_output_range i) (i_resume_result i) (i_last_stack_ret_len i).
Definition set_valid_subroutine_destinations (v : option (gset Z)) (i : Interpreter) : Interpreter :=
  mkInterpreter (i_space i) (i_mem i) (i_params i) (i_position i) (i_code i) (i_return_data i)
    (i_do_trace i) (i_done i) (i_valid_jump_destinations i) v (i_gasometer i) (i_stack i)
    (i_return_stack i) (i_resume_output_range i) (i_resume_result i) (i_last_stack_ret_len i).
Definition set_gasometer (v : option Gasometer) (i : Interpreter) : Interpreter :=
  mkInterpreter (i_space i) (i_mem i) (i_params i) (i_position i) (i_code i) (i_return_data i)
    (i_do_trace i) (i_done i) (i_valid_jump_destinations i) (i_valid_subroutine_destinations i)
    v (i_stack i) (i_return_stack i) (i_resume_output_range i) (i_resume_result i)
    (i_last_stack_ret_len i).
Definition set_stack (v : list Z) (i : Interpreter) : Interpreter :=
  mkInterpreter (i_space i) (i_mem i) (i_params i) (i_position i) (i_code i) (i_return_data i)
    (i_do_trace i) (i_done i) (i_valid_jump_destinations i) (i_valid_subroutine_destinations i)
    (i_gasometer i) v (i_return_stack i) (i_resume_output_range i) (i_resume_result i)
    (i_last_stack_ret_len i).
Definition set_return_stack (v : list Z) (i : Interpreter) : Interpreter :=
  mkInterpreter (i_space i) (i_mem i) (i_params i) (i_position i) (i_code i) (i_return_data i)
    (i_do_trace i) (i_done i) (i_valid_jump_destinations i) (i_valid_subroutine_destinations i)
    (i_gasometer i) (i_stack i) v (i_resume_output_range i) (i_resume_result i)
    (i_last_stack_ret_len i).
Definition set_resume_output_range (v : option (Z * Z)) (i : Interpreter) : Interpreter :=
  mkInterpreter (i_space i) (i_mem i) (i_params i) (i_position i) (i_code i) (i_return_data i)
    (i_do_trace i) (i_done i) (i_valid_jump_destinations i) (i_valid_subroutine_destinations i)
    (i_gasometer i) (i_stack i) (i_return_stack i) v (i_resume_result i) (i_last_stack_ret_len
    i).
Definition set_resume_result (v : option InstructionResult) (i : Interpreter) : Interpreter :=
  mkInterpreter (i_space i) (i_mem i) (i_params i) (i_position i) (i_code i) (i_return_data i)
    (i_do_trace i) (i_done i) (i_valid_jump_destinations i) (i_valid_subroutine_destinations i)
    (i_gasometer i) (i_stack i) (i_return_stack i) (i_resume_output_range i) v
    (i_last_stack_ret_len i).
Definition set_last_stack_ret_len (v : Z) (i : Interpreter) : Interpreter :=
  mkInterpreter (i_space i) (i_mem i) (i_params i) (i_position i) (i_code i) (i_return_data i)
    (i_do_trace i) (i_done i) (i_valid_jump_destinations i) (i_valid_subroutine_destinations i)
    (i_gasometer i) (i_stack i) (i_return_stack i) (i_resume_output_range i) (i_resume_result i)
    v.

(** [CodeReader::read] *)
Definition reader_read (i : Interpreter) (no_of_bytes : Z) : vm_result (Z * Interpreter) :=
  let pos := i_position i in
  let? position := checked_add 64 pos no_of_bytes in
  let max := Z.min position (len (i_code i)) in
  let? bytes := unwrap (slice (i_code i) pos max) in
  Ok (be_to_Z bytes, set_position position i).

(** [copy_data_to_memory]: the new memory and stack. *)
Definition copy_data_to_memory (mem : list byte) (stack : list Z) (source : list byte) :
    vm_result (list byte * list Z) :=
  let? ' (dest_offset, stack) := pop_back stack in
  let? ' (source_offset, stack) := pop_back stack in
  let? ' (size, stack) := pop_back stack in
  let source_size := len source in
  let? past_end :=
    (if source_size <? source_offset then Ok true
     else if source_size <? size then Ok true
     else let? e := checked_add 256 source_offset size in Ok (source_size <? e)) in
  let? ' (mem, output_end) :=
    (if past_end : bool then
       let? zero_slice :=
         (if source_size <? source_offset then writeable_slice mem dest_offset size
          else
            let? a := checked_add 256 dest_offset source_size in
            let? a := checked_sub a source_offset in
            let? b := checked_add 256 source_offset size in
            let? b := checked_sub b source_size in
            writeable_slice mem a b) in
       let? mem := zero_range mem zero_slice in
       Ok (mem, len source)
     else
       let? e := checked_add 64 (low_u64 size) (low_u64 source_offset) in
       Ok (mem, e)) in
  if source_offset <? source_size then
    let output_begin := low_u64 source_offset in
    let? data := unwrap (slice source output_begin output_end) in
    let? mem := write_slice mem dest_offset data in
    Ok (mem, stack)
  else Ok (mem, stack).

Definition verify_jump (jump_u : Z) (valid_jump_destinations : gset Z) : vm_result Z :=
  let jump := low_u64 jump_u in
  if bool_decide (jump ∈ valid_jump_destinations) && (jump =? jump_u) then Ok jump
  else Err (BadJumpDestination jump).

Definition mem_written (instruction : Instruction) (stack : list Z) : vm_result (option (Z * Z)) :=
  let read pos := let? x := peek stack pos in Ok (low_u64 x) in
  let? written :=
    match instruction with
    | MSTORE | MLOAD => let? a := read 0 in Ok (Some (a, 32))
    | MSTORE8 => let? a := read 0 in Ok (Some (a, 1))
    | CALLDATACOPY | CODECOPY | RETURNDATACOPY =>
        let? a := read 0 in let? b := read 2 in Ok (Some (a, b))
    | EXTCODECOPY => let? a := read 1 in let? b := read 3 in Ok (Some (a, b))
    | CALL | CALLCODE => let? a := read 5 in let? b := read 6 in Ok (Some (a, b))
    | DELEGATECALL | STATICCALL => let? a := read 4 in let? b := read 5 in Ok (Some (a, b))
    | _ => Ok None
    end in
  match written with
  | Some (offset, size) => if negb (is_valid_range offset size) then Ok None else Ok written
  | None => Ok written
  end.

Definition store_written (instruction : Instruction) (stack : list Z) : vm_result (option (Z * Z)) :=
  match instruction with
  | SSTORE => let? a := peek stack 0 in let? b := peek stack 1 in Ok (Some (a, b))
  | _ => Ok None
  end.

(** The word [CALLDATALOAD] pushes. *)
Definition calldataload (data : option (list byte)) (big_id : Z) : vm_result Z :=
  let id := low_u64 big_id in
  let max := fst (overflowing_add 64 id 32) in
  match data with
  | Some data =>
      let bound := Z.min (len data) max in
      if (id <? bound) && (big_id <? len data) then
        let? bytes := unwrap (slice data id bound) in
        let? n := checked_sub bound id in
        let? v := unwrap (copy_at (replicate 32 x00) 0 bytes) in
        if len bytes =? n then Ok (be_to_Z v) else Panic
      else Ok 0
  | None => Ok 0
  end.

(** Instructions that replace operands by a word computed from them alone. *)
Definition unary_op (instruction : Instruction) : option (Z -> Z) :=
  match instruction with
  | NOT => Some op_not
  | ISZERO => Some op_iszero
  | _ => None
  end.

Definition binary_op (instruction : Instruction) : option (Z -> Z -> Z) :=
  match instruction with
  | ADD => Some op_add
  | MUL => Some op_mul
  | SUB => Some op_sub
  | DIV => Some op_div
  | MOD => Some op_mod
  | SDIV => Some op_sdiv
  | SMOD => Some op_smod
  | EXP => Some op_exp
  | LT => Some op_lt
  | SLT => Some op_slt
  | GT => Some op_gt
  | SGT => Some op_sgt
  | EQ => Some op_eq
  | AND => Some Z.land
  | OR => Some Z.lor
  | XOR => Some Z.lxor
  | BYTE => Some op_byte
  | SHL => Some op_shl
  | SHR => Some op_shr
  | SAR => Some op_sar
  | _ => None
  end.

Definition ternary_op (instruction : Instruction) : option (Z -> Z -> Z -> Z) :=
  match instruction with
  | ADDMOD => Some op_addmod
  | MULMOD => Some op_mulmod
  | _ => None
  end.

(** ** The machine *)

Section interpreter.
Context {cost : CostType} {C : Type} {CC : Context C} {L : Type} {LL : Lru L}.
(** Keccak-256, from the [keccak-hash] crate. *)
Context (keccak : list byte -> Z).

Record Machine : Type := mkMachine { m_vm : Interpreter; m_ctx : C; m_cache : L }.

Abbreviation EM := (M Error Machine).

Definition vm_get {A} (f : Interpreter -> A) : EM A := fun s => (Ok (f (m_vm s)), s).
Definition vm_set (f : Interpreter -> Interpreter) : EM unit :=
  modify (fun s => mkMachine (f (m_vm s)) (m_ctx s) (m_cache s)).
Definition ctx_get {A} (f : C -> A) : EM A := fun s => (Ok (f (m_ctx s)), s).
(** A fallible [&self] method of the context. *)
Definition ctx_try {A} (f : C -> vm_result A) : EM A := fun s => (f (m_ctx s), s).
(** A [&mut self] method of the context. *)
Definition ctx_do {A} (m : M Error C A) : EM A := fun s =>
  let '(r, c) := m (m_ctx s) in (r, mkMachine (m_vm s) c (m_cache s)).

Definition pop : EM Z :=
  stack <~ vm_get i_stack ;;
  xs <~ lift (pop_back stack) ;;
  vm_set (set_stack xs.2) ;;; ret xs.1.

Definition push_word (x : Z) : EM unit :=
  vm_set (fun i => set_stack (push (i_stack i) x) i).

Definition deref_return_data : EM (list byte) :=
  r <~ vm_get i_return_data ;; lift (unwrap (rd_deref r)).

(** [self.gasometer.expect(GASOMETER_PROOF)] *)
Definition get_gasometer : EM Gasometer :=
  g <~ vm_get i_gasometer ;; lift (unwrap g).

(** [Cost::from_u256(gas_left).expect(..)] *)
Definition expect_gas (gas_left : Z) : vm_result Z :=
  match from_u256 gas_left with Ok g => Ok g | _ => Panic end.

(** ** Instructions *)

Definition exec_jump (instruction : Instruction) : EM InstructionResult :=
  match instruction with
  | JUMP => jump <~ pop ;; ret (JumpToPosition jump)
  | JUMPI =>
      jump <~ pop ;;
      condition <~ pop ;;
      ret (if negb (condition =? 0) then JumpToPosition jump else InstrOk)
  | JUMPDEST => ret InstrOk
  | BEGINSUB => throw InvalidSubEntry
  | JUMPSUB =>
      rs <~ vm_get i_return_stack ;;
      if MAX_SUB_STACK_SIZE <=? len rs then throw (OutOfSubStack 1 MAX_SUB_STACK_SIZE)
      else sub_destination <~ pop ;; ret (JumpToSubroutine sub_destination)
  | RETURNSUB =>
      rs <~ vm_get i_return_stack ;;
      match rs with
      | pos :: rest => vm_set (set_return_stack rest) ;;; ret (ReturnFromSubroutine pos)
      | [] => throw (SubStackUnderflow 1 0)
      end
  | _ => panic
  end.

Definition exec_create (instruction : Instruction) (provided : option Z) : EM InstructionResult :=
  endowment <~ pop ;;
  init_off <~ pop ;;
  init_size <~ pop ;;
  address_scheme <~
    match instruction with
    | CREATE => ret FromSenderNonce
    | CREATE2 => h <~ pop ;; ret (FromSenderSaltAndCodeHash h)
    | _ => panic
    end ;;
  create_gas <~ lift (unwrap provided) ;;
  static <~ ctx_get is_static ;;
  if static : bool then throw MutableCallInStaticContext
  else
    vm_set (set_return_data ReturnData_empty) ;;;
    params <~ vm_get i_params ;;
    b <~ ctx_try (fun c => balance c (p_address params)) ;;
    deep <~ ctx_get (fun c => ctx_depth c <? max_depth (ctx_spec c)) ;;
    if negb ((endowment <=? b) && deep) then push_word 0 ;;; ret (UnusedGas create_gas)
    else
      mem <~ vm_get i_mem ;;
      contract_code <~ lift (read_slice mem init_off init_size) ;;
      create_result <~ ctx_do (ctx_create (as_u256 create_gas) endowment contract_code address_scheme) ;;
      match create_result with
      | inl (Created _ _ _) => panic
      | inl (CreateReverted gas_left return_data) =>
          push_word 0 ;;;
          vm_set (set_return_data return_data) ;;;
          g <~ lift (expect_gas gas_left) ;; ret (UnusedGas g)
      | inl (CreateFailed _) => push_word 0 ;;; ret InstrOk
      | inr trap => ret (InstrTrap trap)
      end.

(** The output of a sub-call: the prefix of the return data that fits the output range goes to
    memory, a flag goes to the stack and the return data is kept. *)
Definition write_output (out_off out_size : Z) (data : ReturnData) : EM unit :=
  mem <~ vm_get i_mem ;;
  output <~ lift (writeable_slice mem out_off out_size) ;;
  bytes <~ lift (unwrap (rd_deref data)) ;;
  mem' <~ lift (copy_prefix mem output bytes) ;;
  vm_set (set_mem mem').

(** Sender, receiver, whether the balance suffices, and the kind of the call. *)
Definition call_destination (instruction : Instruction) (code_address : Z) (value : option Z) :
    EM (Z * Z * bool * CallType) :=
  params <~ vm_get i_params ;;
  match instruction with
  | CALL =>
      static <~ ctx_get is_static ;;
      if static && match value with Some v => negb (v =? 0) | None => false end
      then throw MutableCallInStaticContext
      else
        b <~ ctx_try (fun c => balance c (p_address params)) ;;
        v <~ lift (unwrap value) ;;
        ret (p_address params, code_address, v <=? b, Call)
  | CALLCODE =>
      b <~ ctx_try (fun c => balance c (p_address params)) ;;
      v <~ lift (unwrap value) ;;
      ret (p_address params, p_address params, v <=? b, CallCode)
  | DELEGATECALL => ret (p_sender params, p_address params, true, DelegateCall)
  | STATICCALL => ret (p_address params, code_address, true, StaticCall)
  | _ => panic
  end.

(** The second half of the arm: the call itself and what its result does. *)
Definition perform_call (call_gas : Z) (dest : Z * Z * bool * CallType) (value : option Z)
    (code_address in_off in_size out_off out_size : Z) : EM InstructionResult :=
  let '(sender_address, receive_address, has_balance, call_type) := dest in
  vm_set (set_return_data ReturnData_empty) ;;;
  deep <~ ctx_get (fun c => ctx_depth c <? max_depth (ctx_spec c)) ;;
  if negb (has_balance && deep) then push_word 0 ;;; ret (UnusedGas call_gas)
  else
    mem <~ vm_get i_mem ;;
    input <~ lift (read_slice mem in_off in_size) ;;
    call_result <~
      ctx_do (ctx_call (as_u256 call_gas) sender_address receive_address value input
                code_address call_type) ;;
    vm_set (set_resume_output_range (Some (out_off, out_size))) ;;;
    match call_result with
    | inl (CallSuccess gas_left data) =>
        write_output out_off out_size data ;;;
        push_word 1 ;;;
        vm_set (set_return_data data) ;;;
        g <~ lift (expect_gas gas_left) ;; ret (UnusedGas g)
    | inl (CallReverted gas_left data) =>
        write_output out_off out_size data ;;;
        push_word 0 ;;;
        vm_set (set_return_data data) ;;;
        g <~ lift (expect_gas gas_left) ;; ret (UnusedGas g)
    | inl (CallFailed _) => push_word 0 ;;; ret InstrOk
    | inr trap => ret (InstrTrap trap)
    end.

(** The value a call transfers, if it takes one from the stack. *)
Definition pop_call_value (instruction : Instruction) : EM (option Z) :=
  if instr_eqb instruction DELEGATECALL then ret None
  else if instr_eqb instruction STATICCALL then ret (Some 0)
  else v <~ pop ;; ret (Some v).

Definition exec_call (instruction : Instruction) (provided : option Z) : EM InstructionResult :=
  ok <~ ctx_get (fun c => call_stipend (ctx_spec c) <? call_value_transfer_gas (ctx_spec c)) ;;
  if negb ok then panic
  else
    pop ;;;
    call_gas <~ lift (unwrap provided) ;;
    code_address_u <~ pop ;;
    let code_address := u256_to_address code_address_u in
    value <~ pop_call_value instruction ;;
    in_off <~ pop ;;
    in_size <~ pop ;;
    out_off <~ pop ;;
    out_size <~ pop ;;
    stipend <~ ctx_get (fun c =>
      match value with
      | None => 0
      | Some val => if val =? 0 then 0 else call_stipend (ctx_spec c)
      end) ;;
    call_gas <~ lift (checked_add cost_width call_gas stipend) ;;
    dest <~ call_destination instruction code_address value ;;
    perform_call call_gas dest value code_address in_off in_size out_off out_size.

Definition exec_halt (instruction : Instruction) (gas : Z) : EM InstructionResult :=
  match instruction with
  | RETURN =>
      init_off <~ pop ;; init_size <~ pop ;;
      ret (StopExecutionNeedsReturn gas init_off init_size true)
  | REVERT =>
      init_off <~ pop ;; init_size <~ pop ;;
      ret (StopExecutionNeedsReturn gas init_off init_size false)
  | STOP => ret StopExecution
  | SUICIDE =>
      address <~ pop ;;
      let refund_address := u256_to_address address in
      nonce <~ ctx_get (fun c => account_start_nonce (ctx_spec c)) ;;
      ctx_do (ctx_suicide refund_address nonce) ;;;
      ret StopExecution
  | _ => panic
  end.

Definition exec_log (instruction : Instruction) : EM unit :=
  no_of_topics <~ lift (unwrap (log_topics instruction)) ;;
  offset <~ pop ;;
  size <~ pop ;;
  stack <~ vm_get i_stack ;;
  popped <~ lift (pop_n stack no_of_topics) ;;
  let '(topics, rest) := popped in
  vm_set (set_stack rest) ;;;
  mem <~ vm_get i_mem ;;
  data <~ lift (read_slice mem offset size) ;;
  ctx_do (ctx_log topics data).

Definition exec_push (instruction : Instruction) : EM unit :=
  bytes <~ lift (unwrap (push_bytes instruction)) ;;
  i <~ vm_get (fun i => i) ;;
  r <~ lift (reader_read i bytes) ;;
  vm_set (fun _ => r.2) ;;;
  push_word r.1.

Definition exec_memory (instruction : Instruction) : EM unit :=
  match instruction with
  | MLOAD =>
      mem <~ vm_get i_mem ;;
      offset <~ pop ;;
      word <~ lift (mem_read mem offset) ;; push_word word
  | MSTORE =>
      offset <~ pop ;; word <~ pop ;;
      mem <~ vm_get i_mem ;;
      mem' <~ lift (mem_write mem offset word) ;; vm_set (set_mem mem')
  | MSTORE8 =>
      offset <~ pop ;; byte <~ pop ;;
      mem <~ vm_get i_mem ;;
      mem' <~ lift (write_byte mem offset byte) ;; vm_set (set_mem mem')
  | MSIZE => mem <~ vm_get i_mem ;; push_word (mem_size mem)
  | SHA3 =>
      offset <~ pop ;; size <~ pop ;;
      mem <~ vm_get i_mem ;;
      data <~ lift (read_slice mem offset size) ;; push_word (keccak data)
  | _ => panic
  end.

Definition exec_storage (instruction : Instruction) : EM unit :=
  match instruction with
  | SLOAD =>
      key <~ pop ;;
      word <~ ctx_try (fun c => storage_at c (to_be 32 key)) ;; push_word word
  | SSTORE =>
      key <~ pop ;; val <~ pop ;;
      ctx_do (set_storage (to_be 32 key) val)
  | _ => panic
  end.

(** Instructions that push a word of the frame or of the block environment. *)
Definition exec_env (instruction : Instruction) (gas : Z) : EM unit :=
  i <~ vm_get (fun i => i) ;;
  let params := i_params i in
  env <~ ctx_get ctx_env ;;
  match instruction with
  | PC => pc <~ lift (checked_sub (i_position i) 1) ;; push_word pc
  | GAS => push_word (as_u256 gas)
  | ADDRESS => push_word (address_to_u256 (p_address params))
  | ORIGIN => push_word (address_to_u256 (p_original_sender params))
  | CALLER => push_word (address_to_u256 (p_sender params))
  | CALLVALUE => push_word (action_value (p_value params))
  | CALLDATASIZE => push_word (match p_data params with Some l => len l | None => 0 end)
  | CODESIZE => push_word (len (i_code i))
  | RETURNDATASIZE => data <~ deref_return_data ;; push_word (len data)
  | GASPRICE => push_word (p_gas_price params)
  | COINBASE => push_word (address_to_u256 (env_author env))
  | TIMESTAMP => push_word (env_timestamp env)
  | NUMBER =>
      space <~ ctx_get ctx_space ;;
      push_word (match space with Ethereum => env_epoch_height env end)
  | DIFFICULTY => push_word (env_difficulty env)
  | GASLIMIT => push_word (env_gas_limit env)
  | CHAINID => id <~ ctx_get chain_id ;; push_word id
  | SELFBALANCE => b <~ ctx_try (fun c => balance c (p_address params)) ;; push_word b
  | _ => panic
  end.

(** Instructions that pop one word and push what the frame or the context answers. *)
Definition exec_query (instruction : Instruction) : EM unit :=
  x <~ pop ;;
  match instruction with
  | BALANCE =>
      b <~ ctx_try (fun c => balance c (u256_to_address x)) ;; push_word b
  | CALLDATALOAD =>
      params <~ vm_get i_params ;;
      w <~ lift (calldataload (p_data params) x) ;; push_word w
  | EXTCODESIZE =>
      n <~ ctx_try (fun c => extcodesize c (u256_to_address x)) ;; push_word (default 0 n)
  | EXTCODEHASH =>
      h <~ ctx_try (fun c => extcodehash c (u256_to_address x)) ;; push_word (default 0 h)
  | BLOCKHASH => h <~ ctx_do (blockhash x) ;; push_word h
  | _ => panic
  end.

Definition copy_to_memory (source : list byte) : EM unit :=
  i <~ vm_get (fun i => i) ;;
  r <~ lift (copy_data_to_memory (i_mem i) (i_stack i) source) ;;
  vm_set (fun i => set_stack r.2 (set_mem r.1 i)).

Definition exec_copy (instruction : Instruction) : EM unit :=
  match instruction with
  | CALLDATACOPY => params <~ vm_get i_params ;; copy_to_memory (default [] (p_data params))
  | RETURNDATACOPY =>
      stack <~ vm_get i_stack ;;
      source_offset <~ lift (peek stack 1) ;;
      size <~ lift (peek stack 2) ;;
      data <~ deref_return_data ;;
      if len data <? saturating_add 256 source_offset size then throw OutOfBounds
      else copy_to_memory data
  | CODECOPY => code <~ vm_get i_code ;; copy_to_memory code
  | EXTCODECOPY =>
      x <~ pop ;;
      code <~ ctx_try (fun c => extcode c (u256_to_address x)) ;;
      copy_to_memory (default [] code)
  | _ => panic
  end.

Definition exec_stack (instruction : Instruction) : EM unit :=
  stack <~ vm_get i_stack ;;
  match dup_position instruction, swap_position instruction with
  | Some position, _ => val <~ lift (peek stack position) ;; push_word val
  | None, Some position =>
      stack' <~ lift (swap_with_top stack position) ;; vm_set (set_stack stack')
  | None, None => match instruction with POP => pop ;;; ret tt | _ => panic end
  end.

Definition exec_arith (instruction : Instruction) : EM unit :=
  match unary_op instruction, binary_op instruction, ternary_op instruction with
  | Some f, _, _ => a <~ pop ;; push_word (f a)
  | None, Some f, _ => a <~ pop ;; b <~ pop ;; push_word (f a b)
  | None, None, Some f => a <~ pop ;; b <~ pop ;; c <~ pop ;; push_word (f a b c)
  | None, None, None =>
      match instruction with
      | SIGNEXTEND =>
          bit <~ pop ;;
          if bit <? 32 then number <~ pop ;; push_word (op_signextend bit number) else ret tt
      | _ => panic
      end
  end.

Definition exec_instruction (gas : Z) (instruction : Instruction) (provided : option Z) :
    EM InstructionResult :=
  match instruction with
  | JUMP | JUMPI | JUMPDEST | BEGINSUB | JUMPSUB | RETURNSUB => exec_jump instruction
  | CREATE | CREATE2 => exec_create instruction provided
  | CALL | CALLCODE | DELEGATECALL | STATICCALL => exec_call instruction provided
  | RETURN | REVERT | STOP | SUICIDE => exec_halt instruction gas
  | LOG0 | LOG1 | LOG2 | LOG3 | LOG4 => exec_log instruction ;;; ret InstrOk
  | PUSH1 | PUSH2 | PUSH3 | PUSH4 | PUSH5 | PUSH6 | PUSH7 | PUSH8 | PUSH9 | PUSH10 | PUSH11
  | PUSH12 | PUSH13 | PUSH14 | PUSH15 | PUSH16 | PUSH17 | PUSH18 | PUSH19 | PUSH20 | PUSH21
  | PUSH22 | PUSH23 | PUSH24 | PUSH25 | PUSH26 | PUSH27 | PUSH28 | PUSH29 | PUSH30 | PUSH31
  | PUSH32 => exec_push instruction ;;; ret InstrOk
  | MLOAD | MSTORE | MSTORE8 | MSIZE | SHA3 => exec_memory instruction ;;; ret InstrOk
  | SLOAD | SSTORE => exec_storage instruction ;;; ret InstrOk
  | PC | GAS | ADDRESS | ORIGIN | CALLER | CALLVALUE | CALLDATASIZE | CODESIZE | RETURNDATASIZE
  | GASPRICE | COINBASE | TIMESTAMP | NUMBER | DIFFICULTY | GASLIMIT | CHAINID | SELFBALANCE =>
      exec_env instruction gas ;;; ret InstrOk
  | BALANCE | CALLDATALOAD | EXTCODESIZE | EXTCODEHASH | BLOCKHASH =>
      exec_query instruction ;;; ret InstrOk
  | CALLDATACOPY | RETURNDATACOPY | CODECOPY | EXTCODECOPY => exec_copy instruction ;;; ret InstrOk
  | POP | DUP1 | DUP2 | DUP3 | DUP4 | DUP5 | DUP6 | DUP7 | DUP8 | DUP9 | DUP10 | DUP11 | DUP12
  | DUP13 | DUP14 | DUP15 | DUP16 | SWAP1 | SWAP2 | SWAP3 | SWAP4 | SWAP5 | SWAP6 | SWAP7
  | SWAP8 | SWAP9 | SWAP10 | SWAP11 | SWAP12 | SWAP13 | SWAP14 | SWAP15 | SWAP16 =>
      exec_stack instruction ;;; ret InstrOk
  | _ => exec_arith instruction ;;; ret InstrOk
  end.

(** ** Stepping *)

Definition verify_instruction (spec : Spec) (inf : InstructionInfo) (stack : list Z) : vm_result unit :=
  if negb (has stack (info_args inf)) then
    Err (StackUnderflow (info_name inf) (info_args inf) (stack_size stack))
  else
    let? depth := checked_sub (stack_size stack) (info_args inf) in
    let? depth := checked_add 64 depth (info_ret inf) in
    if stack_limit spec <? depth then
      let? wanted := checked_sub (info_ret inf) (info_args inf) in
      Err (OutOfStack (info_name inf) wanted (stack_limit spec))
    else Ok tt.

(** The part of [step_inner] that fetches, checks, charges and executes one instruction. *)
Definition run_instruction : EM InstructionResult :=
  i <~ vm_get (fun i => i) ;;
  opcode <~ lift (unwrap (index (i_code i) (i_position i))) ;;
  position <~ lift (checked_add 64 (i_position i) 1) ;;
  vm_set (set_position position) ;;;
  g <~ get_gasometer ;;
  (if i_do_trace i then
     c <~ ctx_get (fun c => c) ;;
     let '(b, c') := trace_next_instruction (position - 1) opcode (as_u256 (current_gas g)) c in
     modify (fun s => mkMachine (set_do_trace b (m_vm s)) c' (m_cache s))
   else ret tt) ;;;
  match from_u8 opcode with
  | None => throw (BadInstruction opcode)
  | Some instruction =>
      inf <~ lift (info instruction) ;;
      vm_set (set_last_stack_ret_len (info_ret inf)) ;;;
      c <~ ctx_get (fun c => c) ;;
      i <~ vm_get (fun i => i) ;;
      lift (verify_instruction (ctx_spec c) inf (i_stack i)) ;;;
      req <~ lift (requirements g c instruction inf (i_stack i) (mem_size (i_mem i))) ;;
      (if i_do_trace i then
         mw <~ lift (mem_written instruction (i_stack i)) ;;
         sw <~ lift (store_written instruction (i_stack i)) ;;
         modify (fun s => mkMachine (m_vm s)
           (trace_prepare_execute (position - 1) opcode (as_u256 (gas_cost req)) mw sw (m_ctx s))
           (m_cache s))
       else ret tt) ;;;
      lift (verify_gas g (gas_cost req)) ;;;
      vm_set (fun i => set_mem (expand (i_mem i) (memory_required_size req)) i) ;;;
      gas <~ lift (checked_sub (current_gas g) (gas_cost req)) ;;
      vm_set (set_gasometer (Some (mkGasometer gas (memory_total_gas req)))) ;;;
      exec_instruction gas instruction (provide_gas req)
  end.

(** The gas an instruction did not use goes back to the gasometer. *)
Definition return_unused_gas (result : InstructionResult) : EM unit :=
  match result with
  | UnusedGas gas =>
      g <~ get_gasometer ;;
      total <~ lift (checked_add cost_width (current_gas g) gas) ;;
      vm_set (set_gasometer (Some (mkGasometer total (current_mem_gas g))))
  | _ => ret tt
  end.

Definition trace_result : EM unit :=
  i <~ vm_get (fun i => i) ;;
  if i_do_trace i then
    g <~ get_gasometer ;;
    top <~ lift (peek_top (i_stack i) (i_last_stack_ret_len i)) ;;
    modify (fun s => mkMachine (m_vm s)
      (trace_executed (as_u256 (current_gas g)) top (i_mem i) (m_ctx s)) (m_cache s))
  else ret tt.

(** [self.cache.jump_and_sub_destinations(..)] *)
Definition load_destinations : EM (gset Z * gset Z) := fun s =>
  let i := m_vm s in
  let '(d, cache) := jump_and_sub_destinations (m_cache s) (p_code_hash (i_params i)) (i_code i) in
  (Ok d, mkMachine i (m_ctx s) cache).

Definition jump_destinations : EM (gset Z) :=
  cached <~ vm_get i_valid_jump_destinations ;;
  match cached with
  | Some d => ret d
  | None =>
      d <~ load_destinations ;;
      vm_set (set_valid_jump_destinations (Some d.1)) ;;; ret d.1
  end.

Definition subroutine_destinations : EM (gset Z) :=
  cached <~ vm_get i_valid_subroutine_destinations ;;
  match cached with
  | Some d => ret d
  | None =>
      d <~ load_destinations ;;
      vm_set (set_valid_subroutine_destinations (Some d.2)) ;;; ret d.2
  end.

Definition known_gas_left : EM InterpreterResult :=
  g <~ get_gasometer ;; ret (Done (inl (Known (as_u256 (current_gas g))))).

(** The end of [step_inner]: stop if the program counter left the code. *)
Definition continue_or_finish : EM InterpreterResult :=
  i <~ vm_get (fun i => i) ;;
  if len (i_code i) <=? i_position i then known_gas_left else ret Continue.

(** The [match] that advances the program counter. *)
Definition advance (result : InstructionResult) : EM InterpreterResult :=
  match result with
  | JumpToPosition position =>
      dests <~ jump_destinations ;;
      pos <~ lift (verify_jump position dests) ;;
      vm_set (set_position pos) ;;; continue_or_finish
  | JumpToSubroutine position =>
      dests <~ subroutine_destinations ;;
      pos <~ lift (verify_jump position dests) ;;
      vm_set (fun i => set_return_stack (i_position i :: i_return_stack i) i) ;;;
      pos' <~ lift (checked_add 64 pos 1) ;;
      vm_set (set_position pos') ;;; continue_or_finish
  | ReturnFromSubroutine pos => vm_set (set_position pos) ;;; continue_or_finish
  | StopExecutionNeedsReturn gas init_off init_size apply =>
      mem <~ vm_get i_mem ;;
      vm_set (set_mem []) ;;;
      data <~ lift (into_return_data mem init_off init_size) ;;
      ret (Done (inl (NeedsReturn (as_u256 gas) data apply)))
  | StopExecution => known_gas_left
  | _ => continue_or_finish
  end.

(** [self.resume_result.take()] *)
Definition take_resume_result : EM (option InstructionResult) :=
  r <~ vm_get i_resume_result ;;
  vm_set (set_resume_result None) ;;; ret r.

Definition step_inner : EM InterpreterResult :=
  resumed <~ take_resume_result ;;
  result <~ match resumed with Some result => ret result | None => run_instruction end ;;
  match result with
  | InstrTrap trap => ret (Trap trap)
  | _ => return_unused_gas result ;;; trace_result ;;; advance result
  end.

(** An early [return InterpreterResult::Done(Err(e))] is an error of [step_inner]. *)
Definition step : M Empty_set Machine InterpreterResult := fun s =>
  let i := m_vm s in
  if i_done i then (Ok Stopped, s)
  else
    let '(r, s') :=
      match i_gasometer i with
      | None => (Ok (Done (inr OutOfGas)), s)
      | Some g =>
          if len (i_code i) =? 0 then (Ok (Done (inl (Known (as_u256 (current_gas g))))), s)
          else step_inner s
      end in
    let finish s := mkMachine (set_done true (m_vm s)) (m_ctx s) (m_cache s) in
    match r with
    | Ok (Done v) => (Ok (Done v), finish s')
    | Ok res => (Ok res, s')
    | Err e => (Ok (Done (inr e)), finish s')
    | Panic => (Panic, s')
    end.

(** [vm::ExecTrapResult<GasLeft>]; the suspended interpreter stays in the machine. *)
Inductive ExecTrapResult : Set :=
| Return (value : GasLeft + Error)
| SubCallCreate (trap : TrapKind).

(** The loop of [exec], with [None] when the fuel runs out. *)
Fixpoint exec (fuel : nat) : M Empty_set Machine (option ExecTrapResult) := fun s =>
  match fuel with
  | O => (Ok None, s)
  | S fuel =>
      match step s with
      | (Ok Continue, s') => exec fuel s'
      | (Ok (Done value), s') => (Ok (Some (Return value)), s')
      | (Ok (Trap trap), s') => (Ok (Some (SubCallCreate trap)), s')
      | (Ok Stopped, s') => (Panic, s')
      | (Err e, s') => (Err e, s')
      | (Panic, s') => (Panic, s')
      end
  end.

(** ** Creation and resumption of a frame *)

Definition Interpreter_new (params : ActionParams) : vm_result Interpreter :=
  let? code := unwrap (ap_code params) in
  let params := InterpreterParams_from params in
  let gasometer :=
    match from_u256 (p_gas params) with Ok gas => Some (Gasometer_new gas) | _ => None end in
  Ok {|
    i_space := p_space params;
    i_mem := [];
    i_params := params;
    i_position := 0;
    i_code := code;
    i_return_data := ReturnData_empty;
    i_do_trace := true;
    i_done := false;
    i_valid_jump_destinations := None;
    i_valid_subroutine_destinations := None;
    i_gasometer := gasometer;
    i_stack := [];
    i_return_stack := [];
    i_resume_output_range := None;
    i_resume_result := None;
    i_last_stack_ret_len := 0
  |}.

(** The output of a resumed call, as in [resume_call]. *)
Definition resume_with_output (this : Interpreter) (out : Z * Z) (flag gas_left : Z)
    (data : ReturnData) : vm_result Interpreter :=
  let? output := writeable_slice (i_mem this) out.1 out.2 in
  let? bytes := unwrap (rd_deref data) in
  let? mem := copy_prefix (i_mem this) output bytes in
  let this := set_stack (push (i_stack this) flag) (set_return_data data (set_mem mem this)) in
  let? gas := expect_gas gas_left in
  Ok (set_resume_result (Some (UnusedGas gas)) this).

Definition resume_call (self : Interpreter) (result : MessageCallResult) : vm_result Interpreter :=
  let? out := unwrap (i_resume_output_range self) in
  let this := set_resume_output_range None self in
  match result with
  | CallSuccess gas_left data => resume_with_output this out 1 gas_left data
  | CallReverted gas_left data => resume_with_output this out 0 gas_left data
  | CallFailed _ =>
      Ok (set_resume_result (Some InstrOk) (set_stack (push (i_stack this) 0) this))
  end.

Definition resume_create (self : Interpreter) (result : ContractCreateResult) : vm_result Interpreter :=
  match result with
  | Created address Ethereum gas_left =>
      match i_space self with
      | Ethereum =>
          let? gas := expect_gas gas_left in
          Ok (set_resume_result (Some (UnusedGas gas))
                (set_stack (push (i_stack self) (address_to_u256 address)) self))
      end
  | CreateReverted gas_left return_data =>
      let? gas := expect_gas gas_left in
      Ok (set_resume_result (Some (UnusedGas gas))
            (set_return_data return_data (set_stack (push (i_stack self) 0) self)))
  | CreateFailed _ =>
      Ok (set_resume_result (Some InstrOk) (set_stack (push (i_stack self) 0) self))
  end.

(** ** Finalization *)

Record FinalizationResult : Set := mkFinalizationResult {
  f_space : Space;
  f_gas_left : Z;
  f_apply_state : bool;
  f_return_data : ReturnData;
}.

Definition finalize (self : GasLeft + Error) : M Error C FinalizationResult := fun c =>
  let space := ctx_space c in
  match self with
  | inl (Known gas_left) => (Ok (mkFinalizationResult space gas_left true ReturnData_empty), c)
  | inl (NeedsReturn gas_left data apply_state) =>
      (gas_left <~ ctx_ret gas_left data apply_state ;;
       ret (mkFinalizationResult space gas_left apply_state data)) c
  | inr err => (Err err, c)
  end.
End interpreter.
