(* ===== verification/StaticFrame.v ===== *)
(** * Static frames

    A frame entered by [STATICCALL] (or below one) runs with the static flag of its context set.
    The checks that enforce it are spread over the interpreter, which rejects [CREATE] and value
    transfers, and the context, which rejects storage writes, logs and self-destruction. Here
    they are put together: whatever code a static frame runs, with either cost type, from any
    machine state, no number of steps changes the context: not the world state, not the substate
    with its logs and suicides. *)

From stdpp Require Import gmap.
From S2P Require Import Prelude Word Arith VmTypes FrameContext Instructions EvmStack Memory Gasometer.
From S2P Require Import SharedCache Interpreter.
Local Open Scope Z_scope.

Section static.
Context {cost : CostType} {S : Type} {SS : StateOps S} {L : Type} {LL : Lru L}.
Context (keccak : list byte -> Z) (rlp_sender_nonce : Z -> Z -> list byte).

Abbreviation Ctx := (FrameContext S).
Local Instance its_context : Context Ctx := frame_context keccak rlp_sender_nonce.
Abbreviation Mach := (Machine (C := Ctx) (L := L)).
Abbreviation EM := (M Error Mach).

(** Run in a static frame, the computation leaves the context as it was. *)
Definition keeps {E A} (m : M E Mach A) : Prop :=
  forall s, fc_static_flag (m_ctx s) = true -> m_ctx (m s).2 = m_ctx s.

Lemma keeps_bind {E A B} (m : M E Mach A) (k : A -> M E Mach B) :
  keeps m -> (forall a, keeps (k a)) -> keeps (bind m k).
Proof.
  intros Hm Hk s Hs. unfold bind. specialize (Hm s Hs). destruct (m s) as [[a | e |] s']; cbn in *; [| done | done].
  rewrite Hk by by rewrite Hm. done.
Qed.

Lemma keeps_if {E A} (b : bool) (m m' : M E Mach A) : keeps m -> keeps m' -> keeps (if b then m else m').
Proof. by destruct b. Qed.

Lemma keeps_ctx_do {A} (m : M Error Ctx A) :
  (forall c, fc_static_flag c = true -> (m c).2 = c) -> keeps (ctx_do (L := L) m).
Proof. intros H s Hs. unfold ctx_do. specialize (H (m_ctx s) Hs). destruct (m (m_ctx s)). by cbn in *. Qed.

Lemma keeps_pop : keeps (pop : EM Z).
Proof.
  intros s Hs. unfold pop, bind, vm_get, lift. destruct (pop_back (i_stack (m_vm s))); done.
Qed.

Lemma keeps_get_gasometer : keeps (get_gasometer : EM Gasometer).
Proof. intros s Hs. unfold get_gasometer, bind, vm_get, lift. by destruct (i_gasometer (m_vm s)). Qed.

(** The operations of the context that a static frame may be asked for. *)
Lemma keeps_set_storage key value : keeps (ctx_do (L := L) (set_storage key value)).
Proof. apply keeps_ctx_do. intros c Hs. cbn. unfold fc_set_storage. by rewrite Hs. Qed.

Lemma keeps_log topics data : keeps (ctx_do (L := L) (ctx_log topics data)).
Proof. apply keeps_ctx_do. intros c Hs. cbn. unfold fc_log. by rewrite Hs. Qed.

Lemma keeps_suicide a n : keeps (ctx_do (L := L) (ctx_suicide a n)).
Proof. apply keeps_ctx_do. intros c Hs. cbn. unfold fc_suicide. by rewrite Hs. Qed.

Lemma keeps_blockhash n : keeps (ctx_do (L := L) (blockhash n)).
Proof. by apply keeps_ctx_do. Qed.

Lemma keeps_call gas sender receiver value data a t :
  keeps (ctx_do (L := L) (ctx_call gas sender receiver value data a t)).
Proof.
  apply keeps_ctx_do. intros c Hs. cbn. unfold fc_call, bind, get, lift, ret.
  destruct (fc_internal_contracts c a); [done |].
  destruct (st_code (fc_state c) a); [| done | done]. by destruct (st_code_hash (fc_state c) a).
Qed.

Lemma keeps_create gas value code scheme :
  keeps (ctx_do (L := L) (ctx_create gas value code scheme)).
Proof.
  apply keeps_ctx_do. intros c Hs. cbn. unfold fc_create, bind, get, lift, ret.
  destruct (st_nonce _ _); [| done | done]. destruct (contract_address _ _ _ _ _ _). by rewrite Hs.
Qed.

Create HintDb static.
#[local] Hint Resolve keeps_pop keeps_get_gasometer keeps_set_storage keeps_log keeps_suicide
  keeps_blockhash keeps_call keeps_create : static.

(** Walks through a computation; primitives that only touch the interpreter keep the context
    by computation. *)
Ltac keeps :=
  repeat first
  [ solve [auto with static]
  | match goal with
    | |- keeps (bind _ _) => apply keeps_bind; [| intros ?]
    | |- keeps (if _ then _ else _) => apply keeps_if
    | |- keeps (match ?x with _ => _ end) => destruct x
    | |- keeps (let '_ := ?x in _) => destruct x
    end
  | solve [intros ? ?; reflexivity] ].

Lemma keeps_exec_instruction gas instr provided :
  keeps (exec_instruction keccak gas instr provided : EM InstructionResult).
Proof.
  destruct instr; cbn [exec_instruction];
    unfold exec_jump, exec_create, exec_call, exec_halt, exec_log, exec_push, exec_memory, exec_storage,
      exec_env, exec_query, exec_copy, exec_stack, exec_arith, pop_call_value, call_destination,
      perform_call, write_output, deref_return_data, copy_to_memory, push_word; keeps.
Qed.
#[local] Hint Resolve keeps_exec_instruction : static.

Lemma keeps_run_instruction : keeps (run_instruction keccak : EM InstructionResult).
Proof.
  unfold run_instruction. keeps.
Qed.
#[local] Hint Resolve keeps_run_instruction : static.

Lemma keeps_load_destinations : keeps (load_destinations : EM (gset Z * gset Z)).
Proof. intros s Hs. unfold load_destinations. by destruct (jump_and_sub_destinations _ _ _). Qed.
#[local] Hint Resolve keeps_load_destinations : static.

Lemma keeps_step_inner : keeps (step_inner keccak : EM InterpreterResult).
Proof.
  unfold step_inner, take_resume_result, return_unused_gas, trace_result, advance, jump_destinations,
    subroutine_destinations, continue_or_finish, known_gas_left; keeps.
Qed.

Lemma keeps_step : keeps (step keccak : M Empty_set Mach InterpreterResult).
Proof.
  intros s Hs. unfold step. destruct (i_done (m_vm s)); [done |].
  destruct (i_gasometer (m_vm s)); [| done]. destruct (_ =? 0); [done |].
  pose proof (keeps_step_inner s Hs) as H. destruct (step_inner keccak s) as [[r | e |] s'].
  - by destruct r.
  - done.
  - done.
Qed.

Lemma keeps_exec fuel : keeps (exec keccak fuel : M Empty_set Mach (option ExecTrapResult)).
Proof.
  induction fuel as [| fuel IH]; intros s Hs; [done |]. cbn [exec].
  pose proof (keeps_step s Hs) as H. destruct (step keccak s) as [[[| v | | t] | e |] s']; cbn in *; try done.
  rewrite IH by by rewrite H. done.
Qed.
End static.

(** C22. Static calls are read-only: a frame whose context is static, running any code from any
    machine state for any number of steps, returns (or traps for a sub-call, fails, panics or is
    still running) with its context unchanged: the world state it refers to, its logs, its
    suicides, everything. *)
Theorem static_frame_readonly {cost : CostType} {S} {SS : StateOps S} {L} {LL : Lru L}
    (keccak : list byte -> Z) (rlp_sender_nonce : Z -> Z -> list byte) (fuel : nat)
    (s : Machine (C := FrameContext S) (L := L)) :
  fc_static_flag (m_ctx s) = true ->
  m_ctx (exec (CC := frame_context keccak rlp_sender_nonce) keccak fuel s).2 = m_ctx s.
Proof. intros Hs. by apply keeps_exec. Qed.
