(* ===== verification/CopyData.v ===== *)
(** * Copying into memory

    The data copying instructions of src/cfx-evm/src/evm/interpreter/mod.rs:
    [copy_data_to_memory], shared by [CALLDATACOPY], [CODECOPY], [EXTCODECOPY] and
    [RETURNDATACOPY], and [CALLDATALOAD]. Both are compared with a reference that reads the
    source as if it were followed by zeros. *)

From S2P Require Import Prelude Word Arith VmTypes Instructions EvmStack Memory Interpreter.

(** ** Writes of a range *)

Lemma zero_range_ok mem r :
  0 <= r.1 -> 0 <= r.2 -> r.1 + r.2 <= len mem ->
  exists mem', zero_range mem r = Ok mem' /\ len mem' = len mem /\
    forall i, 0 <= i ->
      mem_byte mem' i = if (r.1 <=? i) && (i <? r.1 + r.2) then x00 else mem_byte mem i.
Proof.
  intros H1 H2 H3. unfold zero_range.
  destruct (copy_at mem r.1 (replicate (Z.to_nat r.2) x00)) as [mem' |] eqn:E.
  2:{ rewrite copy_at_Some in E; [done | lia |]. rewrite len_replicate. lia. }
  exists mem'. split; [done |]. split; [by eapply len_copy_at |].
  intros i Hi. rewrite (copy_at_mem_byte _ _ _ _ i E Hi), len_replicate, Z2Nat.id by lia.
  case_if; [| done]. unfold mem_byte. rewrite lookup_replicate_2 by lia. done.
Qed.

Lemma write_slice_ok mem off data :
  0 <= off -> (data = [] \/ off + len data <= len mem) -> len mem < 2 ^ 64 ->
  exists mem', write_slice mem off data = Ok mem' /\ len mem' = len mem /\
    forall i, 0 <= i ->
      mem_byte mem' i =
        if (off <=? i) && (i <? off + len data) then mem_byte data (i - off) else mem_byte mem i.
Proof.
  intros H1 H2 H3. destruct data as [| b data].
  - exists mem. split; [done |]. split; [done |]. intros i Hi. case_if; [| done].
    rewrite len_nil in *. lia.
  - destruct H2 as [| H2]; [done |]. rewrite len_cons in H2. pose proof (len_nonneg data).
    unfold write_slice. rewrite low_u64_small by (split; lia).
    destruct (copy_at mem off (b :: data)) as [mem' |] eqn:E.
    2:{ rewrite copy_at_Some in E; [done | lia |]. rewrite len_cons. lia. }
    exists mem'. split; [done |]. split; [by eapply len_copy_at |].
    intros i Hi. by apply copy_at_mem_byte.
Qed.

Lemma mem_byte_past_end mem i : len mem <= i -> mem_byte mem i = x00.
Proof. intros Hi. unfold mem_byte, len in *. by rewrite lookup_ge_None_2 by lia. Qed.

Lemma mem_byte_slice source a b data i :
  slice source a b = Some data -> 0 <= i < b - a -> mem_byte data i = mem_byte source (a + i).
Proof. intros E Hi. unfold mem_byte. by rewrite (slice_lookup _ _ _ _ _ E Hi). Qed.

(** ** [copy_data_to_memory] *)

Section copy.
Context (mem source : list byte) (dest_offset source_offset size : Z) (rest : list Z).
Context (Hs : is_u256 source_offset) (Hsrc : wf_bytes source).
Context (Hr : range_ok mem dest_offset size) (Hd : is_u256 dest_offset) (Hsz : is_u256 size).

(** The memory after the zero fill, and where the copy ends in the source. *)
Definition copy_end : Z := Z.min (len source) (source_offset + size).

Lemma copy_zero_fill :
  len source < source_offset \/ len source < size \/ len source < source_offset + size ->
  let start := if len source <? source_offset then dest_offset
               else dest_offset + len source - source_offset in
  let n := if len source <? source_offset then size else source_offset + size - len source in
  exists mem',
    (let? zero_slice :=
       (if len source <? source_offset then writeable_slice mem dest_offset size
        else
          let? a := checked_add 256 dest_offset (len source) in
          let? a := checked_sub a source_offset in
          let? b := checked_add 256 source_offset size in
          let? b := checked_sub b (len source) in
          writeable_slice mem a b) in
     zero_range mem zero_slice) = Ok mem' /\ len mem' = len mem /\
    forall i, 0 <= i ->
      mem_byte mem' i = if (start <=? i) && (i <? start + n) then x00 else mem_byte mem i.
Proof.
  intros Hpast start n. pose proof (len_nonneg source). unfold wf_bytes in Hsrc.
  destruct Hr as (Hl & H1 & H2 & H3). destruct Hs, Hd, Hsz.
  assert (Hok : range_ok mem start n) by (unfold range_ok; subst start n; case_if; lia).
  destruct (writeable_slice_ok mem start n Hok) as ([a b] & E & A & Hb & B & D).
  cbn [fst snd] in *. rewrite Hb in *. clear Hb b.
  assert (Hz : exists mem', zero_range mem (a, n) = Ok mem' /\ len mem' = len mem /\
    forall i, 0 <= i ->
      mem_byte mem' i = if (start <=? i) && (i <? start + n) then x00 else mem_byte mem i).
  { destruct (zero_range_ok mem (a, n)) as (mem' & Z1 & Z2 & Z3); cbn [fst snd] in *; [lia | | lia |].
    { destruct Hok as (? & ? & ? & ?). lia. }
    exists mem'. split; [done |]. split; [done |]. intros i Hi. rewrite Z3 by done.
    destruct (decide (0 < n)) as [Hn | Hn]; [by rewrite D | repeat case_if; lia || done]. }
  destruct Hz as (mem' & Z1 & Z2 & Z3). exists mem'. split; [| done].
  subst start n. destruct (len source <? source_offset) eqn:F; b2p.
  - rewrite E. exact Z1.
  - unfold checked_add, checked_sub.
    rewrite (proj2 (Z.ltb_lt _ (2 ^ 256))) by lia. cbn [result_bind].
    rewrite (proj2 (Z.leb_le source_offset _)) by lia. cbn [result_bind].
    rewrite (proj2 (Z.ltb_lt _ (2 ^ 256))) by lia. cbn [result_bind].
    rewrite (proj2 (Z.leb_le (len source) _)) by lia. cbn [result_bind].
    rewrite E. exact Z1.
Qed.

(** The part of the source that exists goes to the destination. *)
Lemma copy_source m :
  source_offset < len source -> len m = len mem ->
  exists data mem', slice source source_offset copy_end = Some data /\
    write_slice m dest_offset data = Ok mem' /\ len mem' = len m /\
    forall i, 0 <= i ->
      mem_byte mem' i =
        if (dest_offset <=? i) && (i <? dest_offset + (copy_end - source_offset))
        then mem_byte source (source_offset + (i - dest_offset)) else mem_byte m i.
Proof.
  intros Hlt Hm. destruct Hs. destruct Hr as (Hl & H1 & H2 & H3). destruct Hsz. unfold copy_end.
  destruct (slice source source_offset (Z.min (len source) (source_offset + size))) as [data |] eqn:E.
  2:{ rewrite slice_Some in E by lia. done. }
  pose proof (len_slice _ _ _ _ E) as L.
  destruct (write_slice_ok m dest_offset data) as (m' & W1 & W2 & W3); [lia | | lia |].
  { destruct H3 as [-> |]; [left; apply len_zero_nil; lia | right; lia]. }
  exists data, m'. split_and!; try done. intros i Hi. rewrite W3, L by done.
  case_if; [| done]. by eapply mem_byte_slice; [exact E | lia].
Qed.

Lemma copy_data_to_memory_ok :
  exists mem', copy_data_to_memory mem (dest_offset :: source_offset :: size :: rest) source =
      Ok (mem', rest) /\ len mem' = len mem /\
    forall i, 0 <= i ->
      mem_byte mem' i =
        if (dest_offset <=? i) && (i <? dest_offset + size)
        then mem_byte source (source_offset + (i - dest_offset)) else mem_byte mem i.
Proof.
  unfold copy_data_to_memory. cbn [pop_back result_bind].
  pose proof (len_nonneg source). pose proof copy_zero_fill as Hfill. pose proof copy_source as Hcopy.
  unfold wf_bytes in Hsrc. destruct Hs, Hsz.
  assert (Hpast : (if len source <? source_offset then Ok true
     else if len source <? size then Ok true
     else let? e := checked_add 256 source_offset size in Ok (len source <? e)) =
     Ok (E := Error) ((len source <? source_offset) || (len source <? size)
         || (len source <? source_offset + size))).
  { destruct (len source <? source_offset) eqn:?; [done |].
    destruct (len source <? size) eqn:?; [done |]. b2p. cbn [orb]. unfold checked_add.
    by rewrite (proj2 (Z.ltb_lt _ (2 ^ 256))) by lia. }
  rewrite Hpast. cbn [result_bind]. clear Hpast.
  destruct (_ || _) eqn:F.
  - destruct Hfill as (m & Z1 & Z2 & Z3); [lia |].
    match type of Z1 with result_bind ?f _ = _ => destruct f as [r | |]; [| done | done] end.
    cbn [result_bind] in *. rewrite Z1. cbn [result_bind].
    destruct (source_offset <? len source) eqn:G; b2p.
    + destruct (Hcopy m G Z2) as (data & m' & D1 & D2 & D3 & D4). unfold copy_end in *.
      rewrite low_u64_small by (split; lia). rewrite (Z.min_l (len source)) in * by lia.
      rewrite D1. cbn [unwrap result_bind]. rewrite D2. cbn [result_bind].
      rewrite (proj2 (Z.ltb_ge (len source) source_offset)) in Z3 by lia.
      exists m'. split; [done |]. split; [lia |]. intros i Hi. rewrite D4, Z3 by done.
      repeat case_if; try lia; try done;
        by rewrite mem_byte_past_end by lia.
    + exists m. split; [done |]. split; [done |]. intros i Hi. rewrite Z3 by done. clear Z3.
      destruct (len source <? source_offset) eqn:?; b2p; repeat case_if; try lia; try done;
        by rewrite mem_byte_past_end by lia.
  - unfold checked_add. rewrite !low_u64_small by (split; lia).
    rewrite (proj2 (Z.ltb_lt _ (2 ^ 64))) by lia. cbn [result_bind].
    destruct (source_offset <? len source) eqn:G; b2p.
    + destruct (Hcopy mem G eq_refl) as (data & m' & D1 & D2 & D3 & D4). unfold copy_end in *.
      rewrite (Z.min_r (len source)) in * by lia. rewrite (Z.add_comm size), D1.
      cbn [unwrap result_bind]. rewrite D2. cbn [result_bind].
      exists m'. split; [done |]. split; [done |]. intros i Hi. rewrite D4 by done.
      repeat case_if; lia || done.
    + exists mem. split; [done |]. split; [done |]. intros i Hi. case_if; [lia | done].
Qed.
End copy.

(** ** [CALLDATALOAD] *)

(** The 32 bytes of the source from an offset on, zeros past its end. *)
Definition padded_word (source : list byte) (offset : Z) : list byte :=
  (fun k => mem_byte source (offset + Z.of_nat k)) <$> seq 0 32.

Lemma padded_word_lookup source offset k :
  (k < 32)%nat -> padded_word source offset !! k = Some (mem_byte source (offset + Z.of_nat k)).
Proof. intros Hk. unfold padded_word. by rewrite list_lookup_fmap, lookup_seq_lt by lia. Qed.

Lemma padded_word_past_end source offset :
  len source <= offset -> padded_word source offset = replicate 32 x00.
Proof.
  intros Ho. apply list_eq. intros k. destruct (decide (k < 32)%nat) as [Hk | Hk].
  - rewrite padded_word_lookup, lookup_replicate_2 by done. by rewrite mem_byte_past_end by lia.
  - rewrite !lookup_ge_None_2; [done | rewrite length_replicate; lia |].
    unfold padded_word. rewrite length_fmap, length_seq. lia.
Qed.

(** A source shorter than a word from the offset on, completed with zeros. *)
Lemma padded_word_copy source offset bound bytes v :
  0 <= offset -> bound = Z.min (len source) (offset + 32) ->
  slice source offset bound = Some bytes -> copy_at (replicate 32 x00) 0 bytes = Some v ->
  v = padded_word source offset.
Proof.
  intros Ho Hb Hs Hc. pose proof (len_slice _ _ _ _ Hs) as L.
  pose proof (slice_inv _ _ _ _ Hs) as (_ & Hle & _).
  pose proof (len_copy_at _ _ _ _ Hc) as Lv. rewrite len_replicate in Lv.
  apply list_eq. intros k. destruct (decide (k < 32)%nat) as [Hk | Hk].
  - rewrite padded_word_lookup by done.
    rewrite <- (Nat2Z.id k) at 1. rewrite (copy_at_lookup _ _ _ _ (Z.of_nat k) Hc) by lia. case_if.
    + rewrite Z.sub_0_r, (slice_lookup _ _ _ _ _ Hs) by lia. unfold mem_byte.
      destruct (lookup_lt_is_Some_2 source (Z.to_nat (offset + Z.of_nat k))) as [b Hb'];
        [unfold len in *; lia |]. by rewrite Hb'.
    + rewrite Nat2Z.id, lookup_replicate_2 by done. rewrite mem_byte_past_end by lia. done.
  - rewrite !lookup_ge_None_2; [done | | unfold len in Lv; lia].
    unfold padded_word. rewrite length_fmap, length_seq. lia.
Qed.

Lemma calldataload_ok data x :
  wf_bytes (default [] data) -> is_u256 x ->
  calldataload data x = Ok (be_to_Z (padded_word (default [] data) x)).
Proof.
  intros Hd [Hx _]. unfold calldataload, overflowing_add. cbn [fst].
  destruct data as [data |]; cbn [default from_option id] in *.
  2:{ rewrite padded_word_past_end by (rewrite len_nil; lia). done. }
  unfold wf_bytes in Hd. pose proof (len_nonneg data).
  destruct (x <? len data) eqn:E; b2p; cycle 1.
  { rewrite andb_false_r, padded_word_past_end by lia. done. }
  rewrite low_u64_small by (split; lia). rewrite (Z.mod_small (x + 32)) by lia.
  rewrite (proj2 (Z.ltb_lt x _)) by lia. cbn [andb].
  destruct (slice data x (Z.min (len data) (x + 32))) as [bytes |] eqn:S.
  2:{ rewrite slice_Some in S by lia. done. }
  pose proof (len_slice _ _ _ _ S) as L. cbn [unwrap result_bind]. unfold checked_sub.
  rewrite (proj2 (Z.leb_le x _)) by lia. cbn [result_bind].
  destruct (copy_at (replicate 32 x00) 0 bytes) as [v |] eqn:Cv.
  2:{ rewrite copy_at_Some in Cv; [done | lia | rewrite len_replicate; lia]. }
  cbn [unwrap result_bind]. rewrite (proj2 (Z.eqb_eq (len bytes) _)) by lia.
  by rewrite (padded_word_copy _ _ _ _ _ Hx eq_refl S Cv).
Qed.

(** Data copies match their specification. [copy_data_to_memory] fills exactly the
    destination range with the bytes of the source from the source offset on, reading zeros
    past the end of the source, for every offset up to 2^256 - 1; it takes its three operands
    off the stack and keeps the size of the memory. [CALLDATALOAD] pushes the big-endian value
    of the 32 bytes at its operand, zero padded. *)
Theorem data_copy_correct mem source dest_offset source_offset size rest :
  is_u256 dest_offset -> is_u256 source_offset -> is_u256 size ->
  wf_bytes source -> range_ok mem dest_offset size ->
  (exists mem', copy_data_to_memory mem (dest_offset :: source_offset :: size :: rest) source =
      Ok (mem', rest) /\ len mem' = len mem /\
    forall i, 0 <= i ->
      mem_byte mem' i =
        if (dest_offset <=? i) && (i <? dest_offset + size)
        then mem_byte source (source_offset + (i - dest_offset)) else mem_byte mem i) /\
  calldataload (Some source) source_offset = Ok (be_to_Z (padded_word source source_offset)).
Proof.
  intros. split; [by apply copy_data_to_memory_ok | by apply (calldataload_ok (Some source))].
Qed.

(** Copying 4 bytes from offset 1 of a 3-byte source over a memory of [0xff]. *)
Lemma data_copy_correct_witness :
  exists mem', copy_data_to_memory (replicate 32 xff) [2; 1; 4; 7] [x0a; x0b; x0c] = Ok (mem', [7]) /\
    take 8 mem' = [xff; xff; x0b; x0c; x00; x00; xff; xff] /\
    calldataload (Some [x0a; x0b; x0c]) 1 = Ok (0x0b0c * 2 ^ 240).
Proof.
  destruct (data_copy_correct (replicate 32 xff) [x0a; x0b; x0c] 2 1 4 [7]
    ltac:(split; lia) ltac:(split; lia) ltac:(split; lia) ltac:(by vm_compute)
    ltac:(unfold range_ok; rewrite len_replicate; lia))
    as [(mem' & E & _) H].
  exists mem'. split; [exact E |]. split.
  - vm_compute in E. injection E as <-. reflexivity.
  - rewrite H. reflexivity.
Defined.
