(* ===== verification/MachineRules.v ===== *)
(** * Weakest preconditions over the machine

    The rules for the primitives out of which src/cfx-evm/src/evm/interpreter/mod.rs is
    written in [Interpreter], and the tactics that apply them. *)

From S2P Require Import Prelude Word Arith VmTypes Instructions EvmStack Memory Gasometer SharedCache.
From S2P Require Import Interpreter.
Local Open Scope Z_scope.

Section rules.
Context {C L : Type}.

Abbreviation Mach := (Machine (C := C) (L := L)).

Definition upd (f : Interpreter -> Interpreter) (s : Mach) : Mach :=
  mkMachine (f (m_vm s)) (m_ctx s) (m_cache s).

Definition upd_ctx (c : C) (s : Mach) : Mach := mkMachine (m_vm s) c (m_cache s).

(** ** Rules for the primitives of the machine *)

Lemma wp_vm_get {A} (f : Interpreter -> A) s (Q : A -> Mach -> Prop) R :
  Q (f (m_vm s)) s -> wp (vm_get f) s Q R.
Proof. done. Qed.

Lemma wp_ctx_get {A} (f : C -> A) s (Q : A -> Mach -> Prop) R :
  Q (f (m_ctx s)) s -> wp (ctx_get f) s Q R.
Proof. done. Qed.

Lemma wp_vm_set f s (Q : unit -> Mach -> Prop) R : Q tt (upd f s) -> wp (vm_set f) s Q R.
Proof. done. Qed.

Lemma wp_push_word x s (Q : unit -> Mach -> Prop) R :
  Q tt (upd (fun i => set_stack (x :: i_stack i) i) s) -> wp (push_word x) s Q R.
Proof. done. Qed.

Lemma wp_pop s a rest (Q : Z -> Mach -> Prop) R :
  i_stack (m_vm s) = a :: rest -> Q a (upd (set_stack rest) s) -> wp pop s Q R.
Proof. intros E HQ. unfold wp, pop, bind, vm_get, lift. cbn. rewrite E. exact HQ. Qed.

Lemma wp_ctx_try {A} (f : C -> vm_result A) s (Q : A -> Mach -> Prop) R :
  rwp (f (m_ctx s)) (fun a => Q a s) (fun e => R e s) -> wp (ctx_try f) s Q R.
Proof. done. Qed.

Lemma wp_ctx_do {A} (m : M Error C A) s (Q : A -> Mach -> Prop) R :
  wp m (m_ctx s) (fun a c => Q a (upd_ctx c s)) (fun e c => R e (upd_ctx c s)) ->
  wp (ctx_do m) s Q R.
Proof. unfold wp, ctx_do, upd_ctx. by destruct (m (m_ctx s)). Qed.

Lemma wp_lift_ok {A} (r : vm_result A) a s (Q : A -> Mach -> Prop) R :
  r = Ok a -> Q a s -> wp (lift r) s Q R.
Proof. by intros ->. Qed.

End rules.

Ltac wp1 :=
  lazymatch goal with
  | |- wp (bind _ _) _ _ _ => apply wp_bind
  | |- wp (ret _) _ _ _ => apply wp_ret
  | |- wp (throw _) _ _ _ => apply wp_throw
  | |- wp (modify _) _ _ _ => apply wp_modify
  | |- wp (vm_get _) _ _ _ => apply wp_vm_get
  | |- wp (ctx_get _) _ _ _ => apply wp_ctx_get
  | |- wp (vm_set _) _ _ _ => apply wp_vm_set
  | |- wp (push_word _) _ _ _ => apply wp_push_word
  | |- wp pop _ _ _ => eapply wp_pop; [reflexivity |]
  end; cbv beta iota.
Ltac wp_go := repeat wp1.
(** A fallible expression whose value is known. *)
Ltac wp_ok H := lazymatch goal with |- wp (lift _) _ _ _ => eapply wp_lift_ok; [exact H |]; cbv beta iota end.
Ltac wp_eval := lazymatch goal with |- wp (lift _) _ _ _ => eapply wp_lift_ok; [reflexivity |]; cbv beta iota end.

