(* ===== verification/StepSafety.v ===== *)
(** * Safety of the interpreter's steps

    The invariant of a running EVM frame and the proof that every step keeps it, for 64-bit
    gas (the cost type the factory chooses whenever the gas fits) and for any context that
    satisfies [ContextLaws]. Instructions are verified one family at a time against a common
    precondition, what the checks before execution establish, and a common postcondition. *)

From stdpp Require Import gmap.
From S2P Require Import Prelude Word Arith VmTypes Instructions EvmStack Memory Gasometer SharedCache.
From S2P Require Import Interpreter CopyData MachineRules.
Local Open Scope Z_scope.

(** ** Arity *)

Definition iargs (i : Instruction) : Z :=
  match (info i : vm_result InstructionInfo) with Ok inf => info_args inf | _ => 0 end.
Definition irets (i : Instruction) : Z :=
  match (info i : vm_result InstructionInfo) with Ok inf => info_ret inf | _ => 0 end.
(** The immediate bytes after an opcode. *)
Definition imm (i : Instruction) : Z := default 0 (push_bytes i).

(** Evaluates the arity tables at a known instruction. *)
Ltac eval_arity :=
  repeat match goal with
  | H : context [iargs ?i] |- _ =>
      is_constructor i; let v := eval vm_compute in (iargs i) in change (iargs i) with v in H
  | |- context [iargs ?i] => is_constructor i; let v := eval vm_compute in (iargs i) in change (iargs i) with v
  | |- context [irets ?i] => is_constructor i; let v := eval vm_compute in (irets i) in change (irets i) with v
  | |- context [imm ?i] => is_constructor i; let v := eval vm_compute in (imm i) in change (imm i) with v
  end.

Section safety.
Local Existing Instance usize_cost.
Context {C : Type} {CC : Context C} {L : Type} {LL : Lru L}.
Context {spec : Spec} {owner : Z} {ctx_inv : nat -> C -> Prop} {trap_ok : C -> TrapKind -> Prop}.
Context {LAWS : ContextLaws C spec owner ctx_inv trap_ok}.
Context (W : wf_spec spec) (lvl : nat).
Context (keccak : list byte -> Z) (Hkeccak : forall l, is_u256 (keccak l)).

Abbreviation Mach := (Machine (C := C) (L := L)).
Abbreviation EM := (M Error Mach).

(** ** What instructions are entered and left with *)

Record params_ok (p : InterpreterParams) : Prop := {
  po_address : is_word 160 (p_address p);
  po_sender : is_word 160 (p_sender p);
  po_original_sender : is_word 160 (p_original_sender p);
  po_gas_price : is_u256 (p_gas_price p);
  po_value : is_u256 (action_value (p_value p));
  po_data : wf_bytes (default [] (p_data p));
}.

(** What [step_inner] has established when it calls [exec_instruction]. *)
Record exec_pre (instr : Instruction) (gas : Z) (provided : option Z) (s : Mach) : Prop := {
  pre_ctx : ctx_inv (S lvl) (m_ctx s);
  pre_owner : p_address (i_params (m_vm s)) = owner;
  pre_params : params_ok (i_params (m_vm s));
  pre_code : wf_bytes (i_code (m_vm s));
  pre_position : 1 <= i_position (m_vm s) <= len (i_code (m_vm s));
  pre_words : words (i_stack (m_vm s));
  pre_args : iargs instr <= len (i_stack (m_vm s));
  pre_mem : len (i_mem (m_vm s)) < 2 ^ 63;
  pre_ranges : Forall (covers (len (i_mem (m_vm s)))) (mem_ranges instr (i_stack (m_vm s)));
  pre_return_data : wf_return_data (i_return_data (m_vm s));
  pre_gas : is_usize gas;
  pre_provided : is_subcall instr = true -> exists p, provided = Some p /\ 0 <= p /\
    p + stipend_of spec instr (i_stack (m_vm s)) < 2 ^ 64;
  pre_blockhash : instr = BLOCKHASH -> word_at (i_stack (m_vm s)) 0 + 1 < 2 ^ 256;
}.

(** The fields no instruction touches. *)
Record same_frame (i i' : Interpreter) : Prop := {
  sf_space : i_space i' = i_space i;
  sf_params : i_params i' = i_params i;
  sf_code : i_code i' = i_code i;
  sf_do_trace : i_do_trace i' = i_do_trace i;
  sf_done : i_done i' = i_done i;
  sf_jump : i_valid_jump_destinations i' = i_valid_jump_destinations i;
  sf_sub : i_valid_subroutine_destinations i' = i_valid_subroutine_destinations i;
  sf_gasometer : i_gasometer i' = i_gasometer i;
  sf_resume_result : i_resume_result i' = i_resume_result i;
  sf_ret_len : i_last_stack_ret_len i' = i_last_stack_ret_len i;
  sf_mem : len (i_mem i') = len (i_mem i);
}.

(** The gas a sub-call may hand back. *)
Definition max_unused (instr : Instruction) (provided : option Z) (stack : list Z) : Z :=
  default 0 provided + stipend_of spec instr stack.

Definition is_trap (r : InstructionResult) : bool :=
  match r with InstrTrap _ => true | _ => false end.

Definition result_ok (instr : Instruction) (gas : Z) (provided : option Z) (i i' : Interpreter)
    (r : InstructionResult) : Prop :=
  match r with
  | InstrOk => is_halt instr = false
  | UnusedGas g =>
      is_subcall instr = true /\ 0 <= g <= max_unused instr provided (i_stack i)
  | JumpToPosition p => is_u256 p /\ is_halt instr = false
  | JumpToSubroutine p =>
      is_u256 p /\ len (i_return_stack i) < MAX_SUB_STACK_SIZE /\ is_halt instr = false
  | ReturnFromSubroutine _ => is_halt instr = false
  | StopExecutionNeedsReturn g off size _ => g = gas /\ range_ok (i_mem i') off size
  | StopExecution => True
  | InstrTrap t =>
      is_subcall instr = true /\ irets instr = 1 /\
      0 <= ap_gas (trap_params t) <= max_unused instr provided (i_stack i) /\
      match t with
      | TrapCall _ => exists off size,
          i_resume_output_range i' = Some (off, size) /\ range_ok (i_mem i') off size
      | TrapCreate _ => True
      end
  end.

(** An instruction replaces its arguments by its results, the result of a sub-call that traps
    excepted, and leaves the program counter behind its immediate bytes. *)
Record exec_post (instr : Instruction) (gas : Z) (provided : option Z) (s : Mach)
    (r : InstructionResult) (s' : Mach) : Prop := {
  post_ctx : ctx_inv lvl (m_ctx s');
  post_cache : m_cache s' = m_cache s;
  post_frame : same_frame (m_vm s) (m_vm s');
  post_words : words (i_stack (m_vm s'));
  post_return_data : wf_return_data (i_return_data (m_vm s'));
  post_arity : len (i_stack (m_vm s')) + (if is_trap r then 1 else 0) =
    len (i_stack (m_vm s)) - iargs instr + irets instr;
  post_position : i_position (m_vm s') = i_position (m_vm s) + imm instr;
  post_return_stack :
    match r with
    | ReturnFromSubroutine p => i_return_stack (m_vm s) = p :: i_return_stack (m_vm s')
    | _ => i_return_stack (m_vm s') = i_return_stack (m_vm s)
    end;
  post_result : result_ok instr gas provided (m_vm s) (m_vm s') r;
  post_trap : forall t, r = InstrTrap t -> trap_ok (m_ctx s') t;
}.

Definition exec_spec (instr : Instruction) (m : Z -> option Z -> EM InstructionResult) : Prop :=
  forall gas provided s, exec_pre instr gas provided s ->
    wp (m gas provided) s (exec_post instr gas provided s)
      (fun _ s' => ctx_inv lvl (m_ctx s') /\ m_cache s' = m_cache s).

(** ** Instruction families *)

Lemma is_word_address_of x : is_word 160 (u256_to_address x).
Proof. unfold u256_to_address. auto with lia hemvm. Qed.

Lemma stack_cons k (st : list Z) :
  0 < k -> k <= len st -> words st ->
  exists a st', st = a :: st' /\ is_u256 a /\ words st' /\ k - 1 <= len st'.
Proof.
  intros Hk Hl Hw. destruct st as [| a st']; [rewrite len_nil in Hl; lia |].
  rewrite len_cons in Hl. apply Forall_cons_1 in Hw as [? ?].
  exists a, st'. split_and!; [done | done | done | lia].
Qed.

(** Takes the arguments of the instruction off a stack known to hold them. *)
Ltac pop_args :=
  repeat match goal with
  | Hl : Zpos ?k <= len ?st, Hw : words ?st |- _ =>
      let a := fresh "a" in let st' := fresh "st" in let Ha := fresh "Ha" in
      let Hw' := fresh "Hw" in let Hl' := fresh "Hl" in
      destruct (stack_cons (Zpos k) st eq_refl Hl Hw) as (a & st' & -> & Ha & Hw' & Hl'); clear Hl Hw;
      let v := eval vm_compute in (Zpos k - 1) in change (Zpos k - 1) with v in Hl'
  end.

Lemma covers_range_ok (mem : list byte) off size :
  len mem < 2 ^ 63 -> is_u256 off -> is_u256 size -> covers (len mem) (off, size) ->
  range_ok mem off size.
Proof. intros Hl [? ?] [? ?] Hc. unfold covers, range_ok in *. cbn in Hc. lia. Qed.

Ltac split_ranges :=
  repeat match goal with
  | H : Forall (covers _) (_ :: _) |- _ => apply Forall_cons_1 in H as [? H]
  | H : covers (len ?mem) (?off, ?size) |- _ =>
      apply covers_range_ok in H; [| done | done || (split; lia) | done || (split; lia)]
  end.

Ltac enter :=
  let gas := fresh "gas" in let provided := fresh "provided" in
  intros gas provided
    [[space mem params position code return_data do_trace done_ jumps subs gasometer stack
      return_stack output_range resume_result ret_len] c cache];
  intros [HctxS Howner Hparams Hcode Hpos Hwords Hargs Hmem Hranges Hret Hgas Hprov Hbh];
  cbn [m_vm m_ctx m_cache i_space i_mem i_params i_position i_code i_return_data i_do_trace i_done
       i_valid_jump_destinations i_valid_subroutine_destinations i_gasometer i_stack i_return_stack
       i_resume_output_range i_resume_result i_last_stack_ret_len] in *;
  pose proof (law_mono _ lvl _ HctxS (Nat.le_succ_diag_r lvl)) as Hctx;
  eval_arity; pop_args;
  cbn [mem_ranges word_at lookup list_lookup default from_option id is_subcall stipend_of] in *; split_ranges.

Ltac post_done :=
  constructor;
  [ try done | done | constructor; done
  | repeat apply Forall_cons_2; solve [auto with hemvm lia | apply is_word_bool]
  | try done
  | cbn; eval_arity; rewrite ?len_cons; lia
  | cbn; eval_arity; lia
  | done
  | cbn [result_ok]; unfold max_unused; cbn; eval_arity;
    repeat match goal with |- _ /\ _ => split end; try done; try lia
  | intros ? [=]; subst; eauto ].

Definition is_arith (instr : Instruction) : bool :=
  match unary_op instr, binary_op instr, ternary_op instr with
  | None, None, None => instr_eqb instr SIGNEXTEND
  | _, _, _ => true
  end.

Lemma exec_arith_ok instr :
  is_arith instr = true -> exec_spec instr (fun _ _ => exec_arith instr ;;; ret InstrOk).
Proof.
  destruct instr; intros H; try discriminate H; clear H; enter.
  all: unfold exec_arith; cbn [unary_op binary_op ternary_op].
  all: wp_go.
  all: try (post_done; fail).
  destruct (a <? 32) eqn:E; b2p; wp_go; post_done.
Qed.

Lemma exec_jump_ok instr :
  In instr [JUMP; JUMPI; JUMPDEST; BEGINSUB; JUMPSUB; RETURNSUB] ->
  exec_spec instr (fun _ _ => exec_jump instr).
Proof.
  intros H. repeat (destruct H as [<- | H]); [.. | done]; enter; unfold exec_jump; wp_go; try done.
  - post_done.
  - case_if; post_done.
  - post_done.
  - case_if; wp_go; [done |]. post_done.
  - destruct return_stack as [| pos rest]; wp_go; [done |]. post_done.
Qed.

Lemma exec_halt_ok instr :
  In instr [RETURN; REVERT; STOP; SUICIDE] ->
  exec_spec instr (fun gas _ => exec_halt instr gas).
Proof.
  intros H. repeat (destruct H as [<- | H]); [.. | done]; enter; unfold exec_halt; wp_go.
  - post_done.
  - post_done.
  - post_done.
  - cbn [m_ctx]. rewrite (law_spec _ _ Hctx). apply wp_ctx_do.
    eapply wp_mono; [eapply law_suicide; [done | apply is_word_address_of] | | done].
    intros [] c' Hc'. wp_go. post_done.
Qed.

Lemma exec_log_ok instr :
  In instr [LOG0; LOG1; LOG2; LOG3; LOG4] ->
  exec_spec instr (fun _ _ => exec_log instr ;;; ret InstrOk).
Proof.
  intros H. repeat (destruct H as [<- | H]); [.. | done]; enter; unfold exec_log; wp_go.
  all: wp_eval; wp_go; wp_eval; wp_go.
  all: match goal with H : range_ok _ _ _ |- _ =>
         destruct (read_slice_ok _ _ _ H) as (data & Hdata & _) end.
  all: wp_ok Hdata.
  all: apply wp_ctx_do; eapply wp_mono; [by eapply law_log | | done]; intros [] c' Hc'; wp_go.
  all: post_done.
Qed.

Lemma exec_push_ok instr :
  is_push instr = true -> exec_spec instr (fun _ _ => exec_push instr ;;; ret InstrOk).
Proof.
  intros Hp.
  assert (E : exists n, push_bytes instr = Some n /\ imm instr = n /\ 1 <= n <= 32 /\
    iargs instr = 0 /\ irets instr = 1 /\ is_halt instr = false).
  { destruct instr; try discriminate Hp; eexists; (split; [reflexivity |]);
      split_and!; by vm_compute. }
  destruct E as (n & Hn & Himm & Hb & Ha & Hr & Hh). enter. unfold exec_push. rewrite Hn. wp_go.
  wp_eval. wp_go. unfold wf_bytes in Hcode.
  destruct (slice code position (Z.min (position + n) (len code))) as [bytes |] eqn:S.
  2:{ rewrite slice_Some in S by lia. done. }
  pose proof (len_slice _ _ _ _ S) as Hlen.
  eapply wp_lift_ok.
  { unfold reader_read. cbn [m_vm i_position i_code]. unfold checked_add.
    rewrite (proj2 (Z.ltb_lt (position + n) (2 ^ 64))) by lia. cbn [result_bind].
    rewrite S. reflexivity. }
  wp_go. constructor; [done | done | constructor; done | | done | | | done | done | done].
  - apply Forall_cons_2; [apply be_to_Z_u256; cbn; lia | done].
  - cbn. rewrite Ha, Hr, len_cons. lia.
  - cbn. by rewrite Himm.
Qed.

Lemma exec_stack_ok instr :
  is_Some (dup_position instr) \/ is_Some (swap_position instr) \/ instr = POP ->
  exec_spec instr (fun _ _ => exec_stack instr ;;; ret InstrOk).
Proof.
  intros Hi.
  assert (E : (exists n, dup_position instr = Some n /\ 0 <= n < iargs instr /\
                irets instr = iargs instr + 1 /\ imm instr = 0 /\ is_halt instr = false) \/
              (exists n, dup_position instr = None /\ swap_position instr = Some n /\ 0 <= n < iargs instr /\
                irets instr = iargs instr /\ imm instr = 0 /\ is_halt instr = false) \/ instr = POP).
  { destruct instr; try (exfalso; by destruct Hi as [[? [=]] | [[? [=]] | [=]]]);
    [ by right; right | .. ]; (left; eexists; split; [reflexivity |]; split_and!; by vm_compute) ||
     (right; left; eexists; do 2 (split; [reflexivity |]); split_and!; by vm_compute). }
  clear Hi. destruct E as [(n & Hn & Hb & Hr & Him & Hh) | [(n & Hd & Hn & Hb & Hr & Him & Hh) | ->]];
    enter; unfold exec_stack; rewrite ?Hd, ?Hn; wp_go.
  - destruct (peek_ok stack n) as (x & Hx & Hx'); [done | lia |]. wp_ok Hx. wp_go.
    constructor; [done | done | constructor; done | by apply Forall_cons_2 | done | | | done | done | done].
    + cbn. rewrite Hr, len_cons. lia.
    + cbn. rewrite Him. lia.
  - destruct (swap_with_top_ok stack n) as (st' & Hs & Hw & Hl); [done | lia |]. wp_ok Hs. wp_go.
    constructor; [done | done | constructor; done | done | done | | | done | done | done].
    + cbn. rewrite Hr, Hl. lia.
    + cbn. rewrite Him. lia.
  - post_done.
Qed.

Lemma write_byte_ok (mem : list byte) off value :
  range_ok mem off 1 -> exists mem', write_byte mem off value = Ok mem' /\ len mem' = len mem.
Proof.
  intros (Hl & Ho & _ & [? | Hr]); [done |]. unfold write_byte.
  rewrite low_u64_small by (split; lia).
  destruct (copy_at mem off [byte_of_Z (low_u64 value)]) as [mem' |] eqn:E.
  - exists mem'. split; [done |]. by eapply len_copy_at.
  - rewrite copy_at_Some in E; [done | lia | rewrite len_cons, len_nil; lia].
Qed.

Lemma mem_read_ok (mem : list byte) off :
  range_ok mem off 32 -> exists x, mem_read mem off = Ok x /\ is_u256 x.
Proof.
  intros (Hl & Ho & _ & [? | Hr]); [done |]. unfold mem_read.
  rewrite low_u64_small by (split; lia).
  destruct (slice mem off (off + 32)) as [w |] eqn:E.
  2:{ rewrite slice_Some in E by lia. done. }
  exists (be_to_Z w). split; [done |]. apply be_to_Z_u256. rewrite (len_slice _ _ _ _ E). lia.
Qed.

Lemma is_word_usize x : 0 <= x < 2 ^ 64 -> is_u256 x.
Proof. intros ?. split; [lia |]. apply (Z.lt_le_trans _ (2 ^ 64)); [lia | by vm_compute]. Qed.

Lemma is_word_address x : is_word 160 x -> is_u256 x.
Proof. intros ?. by apply (is_word_mono 160). Qed.
#[local] Hint Resolve is_word_usize is_word_address : hemvm.

Lemma exec_memory_ok instr :
  In instr [MLOAD; MSTORE; MSTORE8; MSIZE; SHA3] ->
  exec_spec instr (fun _ _ => exec_memory keccak instr ;;; ret InstrOk).
Proof.
  intros H. repeat (destruct H as [<- | H]); [.. | done]; enter; unfold exec_memory; wp_go.
  - destruct (mem_read_ok _ _ H) as (x & Hx & Hx'). wp_ok Hx. wp_go. post_done.
  - destruct H as (Hl & Ho & _ & [? | Hr]); [done |].
    destruct (mem_write_ok mem a a0 Ho Hr ltac:(lia)) as (m & Hm & Hc). wp_ok Hm. wp_go.
    pose proof (len_copy_at _ _ _ _ Hc). post_done.
  - destruct (write_byte_ok _ _ a0 H) as (m & Hm & Hlen). wp_ok Hm. wp_go. post_done.
  - pose proof (len_nonneg mem). assert (is_u256 (mem_size mem)) by (apply is_word_usize; unfold mem_size; lia).
    post_done.
  - destruct (read_slice_ok _ _ _ H) as (data & Hd & _). wp_ok Hd. wp_go. post_done.
Qed.

Lemma exec_storage_ok instr :
  In instr [SLOAD; SSTORE] -> exec_spec instr (fun _ _ => exec_storage instr ;;; ret InstrOk).
Proof.
  intros H. repeat (destruct H as [<- | H]); [.. | done]; enter; unfold exec_storage; wp_go.
  - apply wp_ctx_try. eapply rwp_mono; [by eapply law_storage_at | | done].
    intros x Hx. cbn beta in *. wp_go. post_done.
  - apply wp_ctx_do. eapply wp_mono; [by eapply law_set_storage | | done].
    intros [] c' Hc'. wp_go. post_done.
Qed.

Lemma rd_deref_ok r : wf_return_data r -> exists data, rd_deref r = Some data /\ len data = rd_size r.
Proof.
  intros (? & ? & ? & ?). unfold rd_deref.
  destruct (slice (rd_mem r) (rd_offset r) (rd_offset r + rd_size r)) as [d |] eqn:E.
  - exists d. split; [done |]. rewrite (len_slice _ _ _ _ E). lia.
  - rewrite slice_Some in E by lia. done.
Qed.

Definition is_env (instr : Instruction) : bool :=
  match instr with
  | PC | GAS | ADDRESS | ORIGIN | CALLER | CALLVALUE | CALLDATASIZE | CODESIZE | RETURNDATASIZE
  | GASPRICE | COINBASE | TIMESTAMP | NUMBER | DIFFICULTY | GASLIMIT | CHAINID | SELFBALANCE => true
  | _ => false
  end.

Lemma exec_env_ok instr :
  is_env instr = true -> exec_spec instr (fun gas _ => exec_env instr gas ;;; ret InstrOk).
Proof.
  destruct instr; intros H; try discriminate H; clear H; enter; unfold exec_env; wp_go.
  all: cbn [m_vm m_ctx i_params i_position i_code]; destruct Hparams; pose proof (law_env _ c Hctx) as [];
    unfold wf_bytes in *; pose proof (len_nonneg code).
  all: try (post_done; fail).
  all: try (wp_go; post_done; fail).
  - (* CALLDATASIZE *)
    pose proof (len_nonneg (default [] (p_data params))).
    destruct (p_data params); cbn in *; post_done.
  - (* RETURNDATASIZE *)
    destruct (rd_deref_ok _ Hret) as (d & Hd & Hl). destruct Hret as (? & ? & ? & ?).
    unfold deref_return_data. wp_go. eapply wp_lift_ok; [cbn; rewrite Hd; reflexivity |]. wp_go.
    post_done.
  - (* NUMBER *) destruct (ctx_space c). post_done.
  - (* CHAINID *) pose proof (law_chain_id _ c Hctx). post_done.
  - (* SELFBALANCE *)
    apply wp_ctx_try. eapply rwp_mono; [by eapply law_balance | | done].
    intros x Hx. cbn beta in *. wp_go. post_done.
  - (* PC *)
    eapply wp_lift_ok.
    { unfold checked_sub. rewrite (proj2 (Z.leb_le 1 position)) by lia. reflexivity. }
    wp_go. post_done.
Qed.

Lemma exec_query_ok instr :
  In instr [BALANCE; CALLDATALOAD; EXTCODESIZE; EXTCODEHASH; BLOCKHASH] ->
  exec_spec instr (fun _ _ => exec_query instr ;;; ret InstrOk).
Proof.
  intros H. repeat (destruct H as [<- | H]); [.. | done]; enter; unfold exec_query; wp_go.
  - apply wp_ctx_try. eapply rwp_mono; [by eapply law_balance | | done].
    intros x Hx. cbn beta in *. wp_go. post_done.
  - pose proof (calldataload_ok _ a (po_data _ Hparams) Ha) as Hx. wp_ok Hx. wp_go.
    assert (is_u256 (be_to_Z (padded_word (default [] (p_data params)) a))) by (by apply be_to_Z_u256).
    post_done.
  - apply wp_ctx_try. eapply rwp_mono; [by eapply law_extcodesize | | done].
    intros x Hx. cbn beta in *. wp_go. post_done.
  - apply wp_ctx_try. eapply rwp_mono; [by eapply law_extcodehash | | done].
    intros x Hx. cbn beta in *. wp_go. post_done.
  - apply wp_ctx_do. eapply wp_mono;
      [eapply law_blockhash; [done | apply Ha | by apply Hbh] | | done].
    intros h c' [Hh Hc']. wp_go. post_done.
Qed.

Lemma copy_to_memory_ok source s dest_offset source_offset size rest
    (Q : unit -> Mach -> Prop) R :
  i_stack (m_vm s) = dest_offset :: source_offset :: size :: rest ->
  is_u256 dest_offset -> is_u256 source_offset -> is_u256 size ->
  wf_bytes source -> range_ok (i_mem (m_vm s)) dest_offset size ->
  (forall mem', len mem' = len (i_mem (m_vm s)) ->
     Q tt (upd (fun i => set_stack rest (set_mem mem' i)) s)) ->
  wp (copy_to_memory source) s Q R.
Proof.
  intros E Hd Hs Hz Hsrc Hr HQ. unfold copy_to_memory. wp_go.
  destruct (copy_data_to_memory_ok (i_mem (m_vm s)) source dest_offset source_offset size rest)
    as (m & Hm & Hl & _); try done.
  eapply wp_lift_ok; [rewrite E; exact Hm |]. wp_go. cbn [fst snd]. by apply HQ.
Qed.

Lemma wf_return_bytes r data : wf_return_data r -> rd_deref r = Some data -> wf_bytes data.
Proof.
  intros (? & ? & ? & ?) E. unfold wf_bytes. rewrite (len_slice _ _ _ _ E). lia.
Qed.

Lemma exec_copy_ok instr :
  In instr [CALLDATACOPY; RETURNDATACOPY; CODECOPY; EXTCODECOPY] ->
  exec_spec instr (fun _ _ => exec_copy instr ;;; ret InstrOk).
Proof.
  intros H. repeat (destruct H as [<- | H]); [.. | done]; enter; unfold exec_copy; wp_go.
  - eapply copy_to_memory_ok; try done; [by apply Hparams |]. intros m Hm. wp_go. post_done.
  - wp_eval. wp_go. wp_eval. unfold deref_return_data. wp_go.
    destruct (rd_deref_ok _ Hret) as (d & Hd & _).
    eapply wp_lift_ok; [cbn [m_vm i_return_data]; rewrite Hd; reflexivity |].
    cbv beta iota. case_if; wp_go; [done |].
    eapply copy_to_memory_ok; try done; [by eapply wf_return_bytes |]. intros m Hm. wp_go. post_done.
  - eapply copy_to_memory_ok; try done. intros m Hm. wp_go. post_done.
  - apply wp_ctx_try. eapply rwp_mono; [by eapply law_extcode | | done].
    intros o Ho. cbn beta in *. eapply copy_to_memory_ok; try done. intros m Hm. wp_go. post_done.
Qed.

Lemma expect_gas_ok g : 0 <= g < 2 ^ 64 -> expect_gas g = Ok g.
Proof.
  intros Hg. unfold expect_gas. cbn [from_u256 usize_cost]. unfold usize_from_u256.
  rewrite low_u64_small by (split; lia). by rewrite Z.eqb_refl.
Qed.

Lemma exec_create_ok instr :
  In instr [CREATE; CREATE2] -> exec_spec instr (fun _ provided => exec_create instr provided).
Proof.
  intros H. repeat (destruct H as [<- | H]); [.. | done]; enter;
    destruct (Hprov eq_refl) as (p & -> & Hp0 & Hp1); unfold exec_create; wp_go; wp_eval; wp_go.
  all: cbn [m_ctx upd]; destruct (is_static c) eqn:Est; wp_go; [done |].
  all: apply wp_ctx_try; cbn [m_ctx upd m_vm i_params set_return_data set_stack]; rewrite Howner.
  all: pose proof (law_balance _ c owner Hctx) as Hb; destruct (balance c owner) as [b | |] eqn:Eb;
    [cbn [rwp]; wp_go | done | done].
  all: cbn [m_ctx upd]; case_if; wp_go; [try (post_done; fail) |].
  all: b2p; destruct (read_slice_ok _ _ _ H) as (data & Hdata & Hlen & _); wp_ok Hdata; wp_go.
  all: apply wp_ctx_do; eapply wp_mono;
    [eapply law_create; [done | apply is_word_usize; cbn; lia | constructor; cbn [m_ctx upd] ] | | done].
  all: try done.
  all: try (destruct H as (? & ? & ? & ?); unfold wf_bytes; lia).
  all: try (rewrite (law_spec _ _ Hctx) in *; lia).
  all: try (exists b; split; [done | lia]).
  all: intros [[addr sp g | e | g rd] | [q | q]] c' (Hr & Hc' & Htr); cbn in Hr; try done; wp_go.
  all: try match goal with Hr : _ /\ _ |- _ =>
         destruct Hr as [Hg Hrd]; pose proof (expect_gas_ok g ltac:(lia)) as Hx; wp_ok Hx; wp_go end.
  all: post_done.
Qed.

Lemma write_output_ok s off size data (Q : unit -> Mach -> Prop) R :
  range_ok (i_mem (m_vm s)) off size -> wf_return_data data ->
  (forall mem', len mem' = len (i_mem (m_vm s)) -> Q tt (upd (set_mem mem') s)) ->
  wp (write_output off size data) s Q R.
Proof.
  intros Hr Hd HQ. unfold write_output. wp_go.
  destruct (writeable_slice_ok _ _ _ Hr) as ([a n] & E & H1 & H2 & H3 & _). cbn [fst snd] in *.
  wp_ok E. wp_go. destruct (rd_deref_ok _ Hd) as (bytes & Eb & _).
  eapply wp_lift_ok; [rewrite Eb; reflexivity |]. wp_go.
  assert (Hc : exists mem', copy_prefix (i_mem (m_vm s)) (a, n) bytes = Ok mem' /\
    len mem' = len (i_mem (m_vm s))).
  { unfold copy_prefix. cbn [fst snd]. pose proof (len_nonneg bytes).
    assert (Ht : len (take (Z.to_nat (n `min` len bytes)) bytes) = n `min` len bytes).
    { destruct Hr as (? & ? & ? & ?). unfold len in *. rewrite length_take. lia. }
    destruct (copy_at _ a _) as [m |] eqn:Em.
    - exists m. split; [done |]. by eapply len_copy_at.
    - rewrite copy_at_Some in Em; [done | lia | rewrite Ht; lia]. }
  destruct Hc as (m & Em & Hm). wp_ok Em. wp_go. by apply HQ.
Qed.

(** What a call leaves behind, its operands being off the stack already. *)
Definition call_result_post (g : Z) (i i' : Interpreter) (r : InstructionResult) : Prop :=
  match r with
  | InstrOk => len (i_stack i') = len (i_stack i) + 1
  | UnusedGas u => len (i_stack i') = len (i_stack i) + 1 /\ 0 <= u <= g
  | InstrTrap (TrapCall p) =>
      len (i_stack i') = len (i_stack i) /\ ap_gas p = g /\
      exists off size, i_resume_output_range i' = Some (off, size) /\ range_ok (i_mem i') off size
  | _ => False
  end.

Record call_post (g : Z) (s : Mach) (r : InstructionResult) (s' : Mach) : Prop := {
  cp_ctx : ctx_inv lvl (m_ctx s');
  cp_cache : m_cache s' = m_cache s;
  cp_frame : same_frame (m_vm s) (m_vm s');
  cp_words : words (i_stack (m_vm s'));
  cp_return_data : wf_return_data (i_return_data (m_vm s'));
  cp_position : i_position (m_vm s') = i_position (m_vm s);
  cp_return_stack : i_return_stack (m_vm s') = i_return_stack (m_vm s);
  cp_result : call_result_post g (m_vm s) (m_vm s') r;
  cp_trap : forall t, r = InstrTrap t -> trap_ok (m_ctx s') t;
}.

(** What [call_destination] has checked. *)
Definition dest_ok (c : C) (code_address : Z) (value : option Z) (dest : Z * Z * bool * CallType) : Prop :=
  let '(sender, receiver, has_balance, call_type) := dest in
  is_word 160 sender /\ is_word 160 receiver /\
  match value with
  | None => call_type = DelegateCall
  | Some v => is_u256 v /\
      (v = 0 \/ sender = owner /\ (has_balance = true -> exists b, balance c owner = Ok b /\ v <= b) /\
         call_type <> StaticCall /\ (call_type = Call -> is_static c = false))
  end /\
  (call_type = Call -> receiver = code_address).

Lemma perform_call_ok g dest value code_address in_off in_size out_off out_size s :
  ctx_inv lvl (m_ctx s) -> 0 <= g < 2 ^ 64 -> words (i_stack (m_vm s)) ->
  dest_ok (m_ctx s) code_address value dest -> is_word 160 code_address ->
  range_ok (i_mem (m_vm s)) in_off in_size -> range_ok (i_mem (m_vm s)) out_off out_size ->
  wp (perform_call g dest value code_address in_off in_size out_off out_size) s
    (call_post g s) (fun _ s' => ctx_inv lvl (m_ctx s') /\ m_cache s' = m_cache s).
Proof.
  intros Hc Hg Hw Hdest Hca Hin Hout. destruct dest as [[[sender receiver] has_balance] call_type].
  destruct Hdest as (Hse & Hre & Hv & Hplain).
  assert (Hu : forall x, is_u256 x -> words (x :: i_stack (m_vm s))) by (intros; by apply Forall_cons_2).
  unfold perform_call. wp_go. cbn [m_ctx upd]. case_if; wp_go.
  { constructor; [done | done | constructor; done | by apply Hu | done | done | done | | done].
    cbn. rewrite len_cons. lia. }
  b2p. destruct (read_slice_ok _ _ _ Hin) as (input & Hinput & Hlen & _). wp_ok Hinput. wp_go.
  assert (Hargs : call_args_ok spec owner (m_ctx s) sender receiver value input code_address call_type).
  { constructor; try done.
    - destruct Hin as (? & ? & ? & ?). unfold wf_bytes. lia.
    - rewrite (law_spec _ _ Hc) in *. lia.
    - destruct value as [v |]; [| done]. destruct Hv as [? [-> | (-> & Hb & ? & ?)]]; (split; [done |]).
      + by left.
      + right. split_and!; [done | by apply Hb | done | done]. }
  apply wp_ctx_do. eapply wp_mono; [eapply law_call; [done | by apply is_word_usize | done] | | done].
  intros r c' (Hr & Hc' & Htr). wp_go.
  destruct r as [[g' data | e | g' data] | [p | p]]; cbn in Hr; try done; wp_go.
  1, 3: destruct Hr as [Hg' Hd]; apply write_output_ok; [done | done |]; intros m Hm; wp_go;
    pose proof (expect_gas_ok g' ltac:(lia)) as Hx; wp_ok Hx; wp_go.
  all: constructor; [done | done | constructor; done | | done | done | done | |]; cbn;
    rewrite ?len_cons; try done; try lia; try (apply Hu; split; lia).
  - split_and!; eauto.
  - intros t [= <-]. by apply Htr.
Qed.

Lemma call_destination_ok instr code_address value (s : Mach) :
  In instr [CALL; CALLCODE; DELEGATECALL; STATICCALL] -> ctx_inv lvl (m_ctx s) ->
  params_ok (i_params (m_vm s)) -> p_address (i_params (m_vm s)) = owner -> is_word 160 code_address ->
  match instr with
  | DELEGATECALL => value = None
  | STATICCALL => value = Some 0
  | _ => exists v, value = Some v /\ is_u256 v
  end ->
  wp (call_destination instr code_address value) s
    (fun dest s' => s' = s /\ dest_ok (m_ctx s) code_address value dest) (fun _ s' => s' = s).
Proof.
  intros H Hc [Ha Hse _ _ _ _] Ho Hca Hv. unfold call_destination. wp_go. rewrite Ho in *.
  assert (H0 : is_u256 0) by by split.
  repeat (destruct H as [<- | H]); [.. | done]; wp_go.
  - destruct Hv as (v & -> & Hv). case_if; wp_go; [done |]. apply wp_ctx_try.
    pose proof (law_balance _ (m_ctx s) owner Hc) as Hb.
    destruct (balance (m_ctx s) owner) as [b | |] eqn:Eb; [cbn [rwp]; wp_go; wp_eval; wp_go | done | done].
    split; [done |]. split; [done |]. split; [done |]. split; [| done]. split; [done |]. b2p.
    destruct (is_static (m_ctx s)) eqn:Est; cbn in *; b2p; [by left | right].
    split_and!; [done | | done | done]. intros ?. b2p. by exists b.
  - destruct Hv as (v & -> & Hv). apply wp_ctx_try.
    pose proof (law_balance _ (m_ctx s) owner Hc) as Hb.
    destruct (balance (m_ctx s) owner) as [b | |] eqn:Eb; [cbn [rwp]; wp_go; wp_eval; wp_go | done | done].
    split; [done |]. split; [done |]. split; [done |]. split; [| done]. split; [done |]. right.
    split_and!; [done | | done | done]. intros ?. b2p. by exists b.
  - subst value. done.
  - subst value. split; [done |]. split; [done |]. split; [done |]. split; [| done]. split; [done | by left].
Qed.

Lemma exec_call_ok instr :
  In instr [CALL; CALLCODE; DELEGATECALL; STATICCALL] ->
  exec_spec instr (fun _ provided => exec_call instr provided).
Proof.
  intros Hi. pose proof Hi as H. repeat (destruct H as [<- | H]); [.. | done]; enter;
    destruct (Hprov eq_refl) as (p & -> & Hp0 & Hp1); unfold exec_call; wp_go;
    rewrite (law_spec _ c Hctx), (proj2 (Z.ltb_lt _ _) (wf_stipend_lt _ W)); cbn [negb]; wp_go; wp_eval; wp_go.
  all: unfold pop_call_value;
    repeat match goal with |- context [instr_eqb ?x ?y] =>
      let v := eval vm_compute in (instr_eqb x y) in change (instr_eqb x y) with v end; cbv iota; wp_go.
  all: pose proof (wf_call_stipend _ W) as [Hst _].
  all: (eapply wp_lift_ok;
    [cbn [m_ctx upd cost_width usize_cost]; rewrite ?(law_spec _ c Hctx); unfold checked_add;
     rewrite (proj2 (Z.ltb_lt _ (2 ^ 64))) by (cbn; lia); reflexivity |]); wp_go.
  all: eapply wp_mono; [apply call_destination_ok; try done; try apply is_word_address_of; by eexists | |
    intros ? ? ->; done].
  all: intros dest s' [-> Hdest]; eapply wp_mono;
    [apply perform_call_ok; try done; try apply is_word_address_of | | done].
  all: try (cbn; try case_if; lia).
  all: intros r s' [P1 P2 [] P4 P5 P6 P7 P8 P9]; cbn in P6, P7.
  all: destruct r as [| u | | | | | | [q | q]]; cbn in P8; try done; (constructor;
    [done | done | constructor; done | done | done | cbn; eval_arity; rewrite ?len_cons; lia
    | cbn; eval_arity; lia | done | | done]); cbn [result_ok]; unfold max_unused; cbn; eval_arity;
    repeat match goal with |- _ /\ _ => split end; try done; try lia; try apply P8.
  all: destruct P8 as (_ & -> & _); case_if; lia.
Qed.

Ltac solve_in := solve [repeat first [left; reflexivity | right]].

(** Every instruction, started as the checks before it leave the machine, does not panic and
    ends as its kind requires. *)
Lemma exec_instruction_ok instr :
  exec_spec instr (fun gas provided => exec_instruction keccak gas instr provided).
Proof.
  destruct instr;
    first
    [ apply exec_arith_ok; reflexivity
    | apply exec_push_ok; reflexivity
    | apply exec_env_ok; reflexivity
    | apply exec_stack_ok; solve [by left; eexists | by right; left; eexists | by right; right]
    | apply exec_jump_ok; solve_in
    | apply exec_halt_ok; solve_in
    | apply exec_log_ok; solve_in
    | apply exec_memory_ok; solve_in
    | apply exec_storage_ok; solve_in
    | apply exec_query_ok; solve_in
    | apply exec_copy_ok; solve_in
    | apply exec_create_ok; solve_in
    | apply exec_call_ok; solve_in ].
Qed.
End safety.
