(* ===== verification/Frame.v ===== *)
(** * The life of a frame

    The invariant of an EVM frame between steps, kept by [Interpreter_new], [step], [exec],
    [resume_call] and [resume_create] (src/cfx-evm/src/evm/interpreter/mod.rs), for 64-bit gas
    and any context that satisfies [ContextLaws]. Besides the absence of panics the invariant
    records that the program counter and the return addresses of subroutines stand at
    instruction boundaries, that the stack stays within its limit, and that the memory is paid
    for; gas strictly decreases from one instruction to the next, which bounds the number of
    steps of [exec]. *)

From stdpp Require Import gmap.
From S2P Require Import Prelude Word Arith VmTypes Instructions EvmStack Memory Gasometer SharedCache.
From S2P Require Import Interpreter CopyData MachineRules StepSafety.
Local Open Scope Z_scope.

Section frame.
Local Existing Instance usize_cost.
Context {C : Type} {CC : Context C} {L : Type} {LL : Lru L}.
Context {spec : Spec} {owner : Z} {ctx_inv : nat -> C -> Prop} {trap_ok : C -> TrapKind -> Prop}.
Context {LAWS : ContextLaws C spec owner ctx_inv trap_ok}.
Context (W : wf_spec spec).
Context (keccak : list byte -> Z) (Hkeccak : forall l, is_u256 (keccak l)).
(** The code a code hash stands for. *)
Context (code_of : Z -> option (list byte)).

Abbreviation Mach := (Machine (C := C) (L := L)).
Abbreviation EM := (M Error Mach).

(** ** The invariant *)

Definition dests_ok (code : list byte) (o : option (gset Z)) (i : Instruction) : Prop :=
  forall d, o = Some d -> forall q, q ∈ d <-> is_instr_at code q i.

Definition gas_of (i : Interpreter) : Z :=
  match i_gasometer i with Some g => current_gas g | None => 0 end.

(** The gas of a frame, with what a finished sub-call is about to hand back. *)
Definition total_gas (i : Interpreter) : Z :=
  gas_of i + match i_resume_result i with Some (UnusedGas u) => u | _ => 0 end.

Record vm_inv (i : Interpreter) : Prop := {
  vi_params : params_ok (i_params i);
  vi_owner : p_address (i_params i) = owner;
  vi_code : wf_bytes (i_code i);
  vi_hash : forall h, p_code_hash (i_params i) = Some h -> code_of h = Some (i_code i);
  vi_words : words (i_stack i);
  vi_stack : len (i_stack i) <= stack_limit spec;
  vi_return_data : wf_return_data (i_return_data i);
  vi_return_stack : Forall (instr_start (i_code i)) (i_return_stack i);
  vi_return_len : len (i_return_stack i) <= MAX_SUB_STACK_SIZE;
  vi_jump : dests_ok (i_code i) (i_valid_jump_destinations i) JUMPDEST;
  vi_sub : dests_ok (i_code i) (i_valid_subroutine_destinations i) BEGINSUB;
  vi_gas : exists g, i_gasometer i = Some g /\ is_usize (current_gas g) /\
    mem_paid spec (len (i_mem i)) (current_mem_gas g);
  vi_position : instr_start (i_code i) (i_position i);
}.

(** Between steps: either the next instruction can be fetched, or a sub-call has just been
    resumed from. *)
Record ready (i : Interpreter) : Prop := {
  re_inv : vm_inv i;
  re_done : i_done i = false;
  re_fetch : i_resume_result i = None -> i_code i = [] \/ i_position i < len (i_code i);
  re_resume : forall r, i_resume_result i = Some r ->
    i_last_stack_ret_len i = 1 /\ 1 <= len (i_stack i) /\
    (r = InstrOk \/ exists u, r = UnusedGas u /\ 0 <= u /\ gas_of i + u < 2 ^ 64);
}.

(** Waiting for the result of a sub-call or creation. *)
Record suspended (i : Interpreter) (t : TrapKind) : Prop := {
  su_inv : vm_inv i;
  su_done : i_done i = false;
  su_resume : i_resume_result i = None;
  su_stack : len (i_stack i) + 1 <= stack_limit spec;
  su_ret : i_last_stack_ret_len i = 1;
  su_gas : 0 <= ap_gas (trap_params t) /\ gas_of i + ap_gas (trap_params t) < 2 ^ 64;
  su_range : match t with
    | TrapCall _ => exists off size,
        i_resume_output_range i = Some (off, size) /\ range_ok (i_mem i) off size
    | TrapCreate _ => True
    end;
}.

(** There is room for [n] more steps: each may increment a nonce. *)
Definition world_ok (n : nat) (s : Mach) : Prop :=
  ctx_inv n (m_ctx s) /\ cache_inv code_of (m_cache s).

Definition machine_inv (n : nat) (s : Mach) : Prop := ready (m_vm s) /\ world_ok n s.

(** The one instruction that can panic: [BLOCKHASH] of the largest word, whose successor the
    context computes. *)
Definition bad_blockhash (i : Interpreter) : bool :=
  match i_resume_result i, index (i_code i) (i_position i) with
  | None, Some op =>
      match from_u8 op with
      | Some BLOCKHASH => word_at (i_stack i) 0 =? 2 ^ 256 - 1
      | _ => false
      end
  | _, _ => false
  end.

Lemma world_mono n m s : world_ok n s -> (m <= n)%nat -> world_ok m s.
Proof. intros [Hc Hl] Hle. split; [by eapply law_mono | done]. Qed.

Lemma machine_mono n m s : machine_inv n s -> (m <= n)%nat -> machine_inv m s.
Proof. intros [Hr Hw] Hle. split; [done | by eapply world_mono]. Qed.

(** ** Checks before an instruction *)

Section level.
Context (lvl : nat).

Lemma verify_instruction_ok inf stack :
  len stack <= stack_limit spec -> 0 <= info_args inf -> 0 <= info_ret inf <= 32 ->
  rwp (verify_instruction spec inf stack)
    (fun _ => info_args inf <= len stack /\
              len stack - info_args inf + info_ret inf <= stack_limit spec) (fun _ => True).
Proof.
  intros Hl Ha Hr. destruct (wf_stack_limit _ W) as [_ Hlim].
  unfold verify_instruction, has, stack_size. case_if; [done |]. b2p.
  unfold checked_sub, checked_add. rewrite (proj2 (Z.leb_le _ (len stack))) by lia.
  cbn [result_bind]. rewrite (proj2 (Z.ltb_lt _ (2 ^ 64))) by lia. cbn [result_bind].
  case_if; [| cbn; lia]. rewrite (proj2 (Z.leb_le (info_args inf) _)) by lia. done.
Qed.

Lemma mem_written_ok instr stack :
  iargs instr <= len stack ->
  (exists w, mem_written instr stack = Ok w) /\ (exists w, store_written instr stack = Ok w).
Proof.
  intros Hl. unfold mem_written, store_written.
  destruct instr; eval_arity; rewrite ?peek_word_at by lia; cbn [result_bind];
    (split; [try case_if | ]; by eexists).
Qed.

(** ** Running one instruction *)

Lemma info_ok instr :
  exists inf, info instr = Ok (E := Error) inf /\ info_args inf = iargs instr /\
    info_ret inf = irets instr /\ 0 <= iargs instr /\ 0 <= irets instr <= 32.
Proof. destruct instr; eexists; (split; [reflexivity |]); split_and!; by vm_compute. Qed.

Lemma instr_size_imm op instr : from_u8 op = Some instr -> instr_size op = imm instr + 1.
Proof. intros E. unfold instr_size, imm. rewrite E. by destruct (push_bytes instr). Qed.

(** What is left to do for a frame after an instruction. *)
Definition run_result_ok (i i' : Interpreter) (r : InstructionResult) : Prop :=
  match r with
  | InstrOk => gas_of i' < gas_of i
  | UnusedGas u => 0 <= u /\ gas_of i' + u < gas_of i
  | JumpToPosition p => is_u256 p /\ gas_of i' < gas_of i
  | JumpToSubroutine p =>
      is_u256 p /\ len (i_return_stack i') < MAX_SUB_STACK_SIZE /\ gas_of i' < gas_of i
  | ReturnFromSubroutine p => instr_start (i_code i') p /\ gas_of i' < gas_of i
  | StopExecutionNeedsReturn g off size _ =>
      g = gas_of i' /\ range_ok (i_mem i') off size /\ gas_of i' <= gas_of i
  | StopExecution => gas_of i' <= gas_of i
  | InstrTrap t => suspended i' t /\ gas_of i' + ap_gas (trap_params t) < gas_of i
  end.

(** The parts of a frame that no step changes. *)
Definition same_code (i i' : Interpreter) : Prop :=
  i_code i' = i_code i /\ i_params i' = i_params i /\ i_space i' = i_space i.

Record run_post (i : Interpreter) (r : InstructionResult) (s' : Mach) : Prop := {
  rp_world : world_ok lvl s';
  rp_inv : vm_inv (m_vm s');
  rp_same : same_code i (m_vm s');
  rp_done : i_done (m_vm s') = false;
  rp_resume : i_resume_result (m_vm s') = None;
  rp_trace : is_trap r = false -> 0 <= i_last_stack_ret_len (m_vm s') <= len (i_stack (m_vm s'));
  rp_result : run_result_ok i (m_vm s') r;
  rp_trap : forall t, r = InstrTrap t -> trap_ok (m_ctx s') t;
}.

(** The state in which [exec_instruction] is called. *)
Definition charged (i : Interpreter) (b : bool) (instr : Instruction) (g' : Gasometer) (size : Z) :
    Interpreter :=
  set_gasometer (Some g') (set_mem (expand (i_mem i) size)
    (set_last_stack_ret_len (irets instr) (set_do_trace b (set_position (i_position i + 1) i)))).

Section charged.
Context (i : Interpreter) (c : C) (cache : L) (b : bool) (op : byte) (instr : Instruction).
Context (g : Gasometer) (req : InstructionRequirements).
Context (HI : vm_inv i) (Hctx : ctx_inv (S lvl) c) (Hcache : cache_inv code_of cache).
Context (Hdone : i_done i = false) (Hres : i_resume_result i = None).
Context (Hop : index (i_code i) (i_position i) = Some op) (Hinstr : from_u8 op = Some instr).
Context (Hg : i_gasometer i = Some g) (Hgas : is_usize (current_gas g)).
Context (Hargs : iargs instr <= len (i_stack i)).
Context (Hlim : len (i_stack i) - iargs instr + irets instr <= stack_limit spec).
Context (Hreq : requirements_ok (spec := spec) instr (i_stack i) (mem_size (i_mem i)) req).
Context (Hcost : gas_cost req <= current_gas g).
Context (Hbh : bad_blockhash i = false).

Let g' : Gasometer := mkGasometer (current_gas g - gas_cost req) (memory_total_gas req).
Let s1 : Mach := mkMachine (charged i b instr g' (memory_required_size req)) c cache.

Lemma charged_mem :
  len (i_mem (m_vm s1)) = Z.max (len (i_mem i)) (memory_required_size req) /\
  len (i_mem (m_vm s1)) < 2 ^ 63.
Proof.
  cbn. rewrite len_expand. split; [done |].
  destruct (q_mem _ _ _ _ Hreq) as (n & Hn & En & _). unfold mem_size in En. lia.
Qed.

Lemma charged_pre : exec_pre (spec := spec) (owner := owner) (ctx_inv := ctx_inv) lvl instr (current_gas g') (provide_gas req) s1.
Proof.
  destruct charged_mem as [Hm Hm']. pose proof (index_Some _ _ _ Hop).
  destruct HI, Hreq. constructor; cbn [m_ctx m_vm s1]; try done.
  - cbn. lia.
  - eapply Forall_impl; [| exact q_covers]. intros r. apply covers_mono. cbn in Hm |- *. lia.
  - cbn. destruct Hgas. split; lia.
  - intros Hs. destruct (q_provide Hs) as (p & Ep & Hp & Hlt). exists p. destruct Hgas.
    split_and!; [done | done | cbn; lia].
  - intros ->. cbn. unfold bad_blockhash in Hbh. rewrite Hres, Hop, Hinstr in Hbh. b2p.
    pose proof (is_word_word_at (i_stack i) 0 vi_words0) as [_ ?]. lia.
Qed.

Lemma charged_inv r s' :
  exec_post (spec := spec) (ctx_inv := ctx_inv) (trap_ok := trap_ok) lvl instr (current_gas g') (provide_gas req) s1 r s' ->
  vm_inv (m_vm s') /\ gas_of (m_vm s') = current_gas g - gas_cost req /\ same_code i (m_vm s').
Proof.
  intros [P1 P2 [F1 F2 F3 F4 F5 F6 F7 F8 F9 F10 F11] P4 P5 P6 P7 P8 P9 P10].
  cbn in F1, F2, F3, F4, F5, F6, F7, F8, F9, F10, F11, P6, P7, P8.
  split; [| unfold gas_of, same_code; rewrite F8; done]. destruct charged_mem as [Hm _].
  destruct HI. constructor; rewrite ?F2, ?F3, ?F6, ?F7; try done.
  - destruct (is_trap r); lia.
  - destruct r; rewrite ?P8; try done. rewrite P8 in vi_return_stack0.
    by apply Forall_cons_1 in vi_return_stack0 as [_ ?].
  - destruct r; rewrite ?P8; try done. rewrite P8, len_cons in vi_return_len0. lia.
  - exists g'. split; [done |]. destruct Hreq. destruct Hgas. split; [split; cbn; lia |].
    rewrite F11. cbn in Hm. rewrite Hm. exact q_mem.
  - rewrite P7. replace (i_position i + 1 + imm instr) with (i_position i + instr_size op)
      by (rewrite (instr_size_imm _ _ Hinstr); lia).
    by apply decodes_snoc.
Qed.

Lemma charged_post r s' :
  exec_post (spec := spec) (ctx_inv := ctx_inv) (trap_ok := trap_ok) lvl instr (current_gas g') (provide_gas req) s1 r s' ->
  run_post i r s'.
Proof.
  intros HP. destruct (charged_inv _ _ HP) as (HI' & Hgas' & Hsame).
  destruct HP as [P1 P2 [F1 F2 F3 F4 F5 F6 F7 F8 F9 F10 F11] P4 P5 P6 P7 P8 P9 P10].
  cbn in F1, F2, F3, F4, F5, F6, F7, F8, F9, F10, F11, P6, P7, P8.
  destruct (info_ok instr) as (_ & _ & _ & _ & Ha & Hr).
  assert (Hgi : gas_of i = current_gas g) by (unfold gas_of; by rewrite Hg).
  destruct Hreq, Hgas. constructor; try done.
  - split; [done |]. by rewrite P2.
  - by rewrite F5.
  - by rewrite F9.
  - intros Ht. rewrite F10. rewrite Ht in P6. lia.
  - unfold run_result_ok. rewrite Hgas', Hgi. destruct r as [| u | p | p | p | u off size a | | t]; cbn in P9.
    + destruct q_price as [E | E]; [by rewrite E in P9 | lia].
    + destruct P9 as [Hs Hu]. destruct (q_provide Hs) as (q & Eq & Hq & Hlt).
      unfold max_unused in Hu. rewrite Eq in Hu. cbn in Hu. lia.
    + destruct P9 as [? E]. destruct q_price as [E' | E']; [by rewrite E' in E | split; [done | lia]].
    + destruct P9 as (? & ? & E). destruct q_price as [E' | E']; [by rewrite E' in E |].
      rewrite P8. split_and!; [done | done | lia].
    + destruct q_price as [E' | E']; [by rewrite E' in P9 |]. split; [| lia].
      rewrite F3. pose proof (vi_return_stack _ HI) as Hrs. rewrite P8 in Hrs.
      by apply Forall_cons_1 in Hrs as [? _].
    + destruct P9 as [-> ?]. split_and!; [cbn; lia | done | lia].
    + lia.
    + destruct P9 as (Hs & Hret & Hu & Hrange). destruct (q_provide Hs) as (q & Eq & Hq & Hlt).
      unfold max_unused in Hu. rewrite Eq in Hu. cbn in Hu. split; [| lia].
      constructor; try done; [by rewrite F5 | by rewrite F9 | cbn in P6; lia | by rewrite F10 |].
      rewrite Hgas'. lia.
Qed.
End charged.

(** The call to [trace_next_instruction] at most replaces [do_trace] and the context. *)
Lemma trace_next_ok (i : Interpreter) c cache pc op gas (Q : unit -> Mach -> Prop) R :
  ctx_inv (S lvl) c ->
  (forall b c', ctx_inv (S lvl) c' -> Q tt (mkMachine (set_do_trace b i) c' cache)) ->
  wp (if i_do_trace i then
        c <~ ctx_get (fun c => c) ;;
        let '(b, c') := trace_next_instruction pc op gas c in
        modify (fun s => mkMachine (set_do_trace b (m_vm s)) c' (m_cache s))
      else ret tt : EM unit) (mkMachine i c cache) Q R.
Proof.
  intros Hc HQ. destruct (i_do_trace i) eqn:E.
  - wp_go. pose proof (law_trace_next_instruction _ c pc op gas Hc) as Hc'.
    cbn [m_ctx]. destruct (trace_next_instruction pc op gas c) as [b c']. wp_go. by apply HQ.
  - wp_go. replace i with (set_do_trace (i_do_trace i) i) by by destruct i. by apply HQ.
Qed.

Lemma trace_prepare_ok (t : bool) instr stack (f : option (Z * Z) -> option (Z * Z) -> C -> C)
    (i : Interpreter) c cache (Q : unit -> Mach -> Prop) R :
  iargs instr <= len stack -> ctx_inv (S lvl) c -> (forall mw sw c, ctx_inv (S lvl) c -> ctx_inv (S lvl) (f mw sw c)) ->
  (forall c', ctx_inv (S lvl) c' -> Q tt (mkMachine i c' cache)) ->
  wp (if t then
        mw <~ lift (mem_written instr stack) ;;
        sw <~ lift (store_written instr stack) ;;
        modify (fun s => mkMachine (m_vm s) (f mw sw (m_ctx s)) (m_cache s))
      else ret tt : EM unit) (mkMachine i c cache) Q R.
Proof.
  intros Ha Hc Hf HQ. destruct (mem_written_ok instr stack Ha) as [[mw H1] [sw H2]].
  destruct t; wp_go; [| by apply HQ]. wp_ok H1. wp_go. wp_ok H2. wp_go. apply HQ. by apply Hf.
Qed.

Lemma run_instruction_ok s :
  ready (m_vm s) -> i_resume_result (m_vm s) = None -> i_code (m_vm s) <> [] -> world_ok (S lvl) s ->
  bad_blockhash (m_vm s) = false ->
  wp (run_instruction keccak) s (run_post (m_vm s)) (fun _ s' => world_ok lvl s').
Proof.
  destruct s as [i c cache]. cbn [m_vm]. intros [HI Hdone Hf _] Hr Hne [Hctx Hcache] Hb. cbn in Hctx, Hcache.
  destruct (Hf Hr) as [? | Hpos]; [done |]. clear Hf Hne.
  assert (Hmono : forall c, ctx_inv (S lvl) c -> ctx_inv lvl c) by (intros; eapply law_mono; [done | lia]).
  destruct (vi_gas _ HI) as (g & Hg & Hgas & Hpaid).
  pose proof (decodes_le _ _ _ (vi_position _ HI)) as Hpos0. pose proof (vi_code _ HI) as Hcode.
  unfold wf_bytes in Hcode. destruct (index_is_Some (i_code i) (i_position i)) as (op & Hop); [lia |].
  unfold run_instruction. wp_go. eapply wp_lift_ok; [cbn; rewrite Hop; reflexivity |]. wp_go.
  eapply wp_lift_ok.
  { unfold checked_add. cbn [m_vm]. rewrite (proj2 (Z.ltb_lt _ (2 ^ 64))) by lia. reflexivity. }
  unfold get_gasometer. wp_go. eapply wp_lift_ok; [cbn; rewrite Hg; reflexivity |]. cbv beta. wp_go.
  apply (trace_next_ok (set_position (i_position i + 1) i)); [done |]. intros b c' Hc'.
  destruct (from_u8 op) as [instr |] eqn:Hinstr; [| by wp_go; split; [apply Hmono |]].
  destruct (info_ok instr) as (inf & Hinf & Ea & Er & Ha & Hret). wp_go. wp_ok Hinf. wp_go.
  cbn [m_ctx m_vm upd i_stack set_last_stack_ret_len set_do_trace set_position i_mem].
  apply wp_lift. rewrite (law_spec _ c' Hc').
  eapply rwp_mono; [apply verify_instruction_ok; [by apply HI | lia | lia] | | by split; [apply Hmono |]].
  intros [] [Hargs Hlim]. cbn beta in Hargs, Hlim. rewrite Ea, Er in *. wp_go.
  apply wp_lift. eapply rwp_mono;
    [eapply (requirements_spec (spec := spec) (ctx_inv := ctx_inv) W (S lvl) _ c' instr inf); try done;
     [by apply HI | lia | apply Hgas] | | by split; [apply Hmono |]].
  intros req Hreq. cbn beta in Hreq. wp_go.
  apply (trace_prepare_ok (i_do_trace _) instr (i_stack i)); [done | done | | ].
  { intros mw sw c0 H0. by apply law_trace_prepare_execute. }
  intros c'' Hc''. wp_go. apply wp_lift. unfold verify_gas.
  destruct (current_gas g <? gas_cost req) eqn:Hcost; [by split; [apply Hmono |] |]. b2p. cbn [rwp]. wp_go.
  eapply wp_lift_ok; [unfold checked_sub; rewrite (proj2 (Z.leb_le _ (current_gas g))) by lia; reflexivity |].
  wp_go.
  eapply wp_mono;
    [apply (exec_instruction_ok (spec := spec) (ctx_inv := ctx_inv) W lvl keccak Hkeccak instr);
     by apply (charged_pre i c'' cache b op instr g req) | |].
  - intros r s' HP. by apply (charged_post i c'' cache b op instr g req).
  - intros e s' [? Ecache]. cbn in Ecache. split; [done |]. by rewrite Ecache.
Qed.

(** ** After an instruction *)

Lemma gas_of_inv i : vm_inv i -> exists g, i_gasometer i = Some g /\ gas_of i = current_gas g /\
  is_usize (current_gas g) /\ mem_paid spec (len (i_mem i)) (current_mem_gas g).
Proof.
  intros HI. destruct (vi_gas _ HI) as (g & Hg & ? & ?). exists g. unfold gas_of. rewrite Hg. done.
Qed.

Lemma gas_of_nonneg i : vm_inv i -> 0 <= gas_of i < 2 ^ 64.
Proof. intros HI. destruct (gas_of_inv i HI) as (g & _ & -> & ? & _). done. Qed.

Lemma vm_inv_gas i n :
  vm_inv i -> 0 <= n < 2 ^ 64 ->
  forall g, i_gasometer i = Some g ->
  vm_inv (set_gasometer (Some (mkGasometer n (current_mem_gas g))) i).
Proof.
  intros HI Hn g Hg. destruct HI. destruct vi_gas0 as (g0 & Hg0 & ? & ?).
  rewrite Hg in Hg0. injection Hg0 as <-.
  constructor; try done. exists (mkGasometer n (current_mem_gas g)). done.
Qed.

Lemma vm_inv_position i p : vm_inv i -> instr_start (i_code i) p -> vm_inv (set_position p i).
Proof. intros [] Hp. by constructor. Qed.

(** What is known of the frame when an instruction has given the result [r]: it has at most
    [K] gas if it goes on and at most [G] if it ends. *)
Definition settle_pre (K G : Z) (i : Interpreter) (r : InstructionResult) : Prop :=
  match r with
  | InstrOk => gas_of i <= K
  | UnusedGas u => 0 <= u /\ gas_of i + u <= K /\ gas_of i + u < 2 ^ 64
  | JumpToPosition p => is_u256 p /\ gas_of i <= K
  | JumpToSubroutine p => is_u256 p /\ len (i_return_stack i) < MAX_SUB_STACK_SIZE /\ gas_of i <= K
  | ReturnFromSubroutine p => instr_start (i_code i) p /\ gas_of i <= K
  | StopExecution => gas_of i <= G
  | StopExecutionNeedsReturn g off size _ =>
      g = gas_of i /\ range_ok (i_mem i) off size /\ gas_of i <= G
  | InstrTrap _ => False
  end.

Definition gas_left_ok (G : Z) (v : GasLeft) : Prop :=
  match v with
  | Known g => 0 <= g <= G
  | NeedsReturn g data _ => 0 <= g <= G /\ wf_return_data data
  end.

Definition settle_post (K G : Z) (i : Interpreter) (r : InterpreterResult) (s' : Mach) : Prop :=
  world_ok lvl s' /\
  match r with
  | Continue => ready (m_vm s') /\ i_resume_result (m_vm s') = None /\ same_code i (m_vm s') /\
      gas_of (m_vm s') <= K
  | Done (inl v) => gas_left_ok G v
  | _ => False
  end.

Record settled (i : Interpreter) (s : Mach) : Prop := {
  se_world : world_ok lvl s;
  se_inv : vm_inv (m_vm s);
  se_same : same_code i (m_vm s);
  se_done : i_done (m_vm s) = false;
  se_resume : i_resume_result (m_vm s) = None;
}.

Section settle.
Context (i : Interpreter) (K G : Z) (HK : K <= G).

Lemma known_gas_left_ok s :
  settled i s -> gas_of (m_vm s) <= G ->
  wp known_gas_left s (settle_post K G i) (fun _ s' => world_ok lvl s').
Proof.
  intros [Hw HI Hs Hd Hr] HG. pose proof (gas_of_nonneg _ HI).
  destruct (gas_of_inv _ HI) as (g & Hg & Eg & ? & _).
  unfold known_gas_left, get_gasometer. wp_go. eapply wp_lift_ok; [rewrite Hg; reflexivity |]. wp_go.
  split; [done |]. cbn. lia.
Qed.

Lemma continue_or_finish_ok s :
  settled i s -> gas_of (m_vm s) <= K ->
  wp continue_or_finish s (settle_post K G i) (fun _ s' => world_ok lvl s').
Proof.
  intros HS HG. unfold continue_or_finish. wp_go. case_if; [apply known_gas_left_ok; [done | lia] |]. wp_go.
  destruct HS as [Hw HI Hs Hd Hr]. split; [done |]. split_and!; try done.
  constructor; try done; [by right | by rewrite Hr].
Qed.

(** The analysis is loaded on the first jump and kept. *)
Lemma jump_destinations_ok s :
  settled i s ->
  wp jump_destinations s
    (fun d s' => settled i s' /\ gas_of (m_vm s') = gas_of (m_vm s) /\
       i_position (m_vm s') = i_position (m_vm s) /\
       forall q, q ∈ d <-> is_instr_at (i_code (m_vm s')) q JUMPDEST) (fun _ s' => world_ok lvl s').
Proof.
  intros [[Hc Hl] HI Hs Hd Hr]. unfold jump_destinations. wp_go.
  destruct (i_valid_jump_destinations (m_vm s)) as [d |] eqn:E; wp_go.
  { split_and!; try done. by apply (vi_jump _ HI). }
  unfold load_destinations, wp.
  destruct (jump_and_sub_destinations_ok code_of (m_cache s) (p_code_hash (i_params (m_vm s)))
    (i_code (m_vm s)) Hl (vi_hash _ HI)) as [E1 E2].
  destruct (jump_and_sub_destinations _ _ _) as [d cache']. cbn in E1, E2. subst d. cbn.
  assert (Hdest : forall q, q ∈ jump_destination (find_jump_and_sub_destinations (i_code (m_vm s))) <->
    is_instr_at (i_code (m_vm s)) q JUMPDEST) by (intros; apply find_jump_and_sub_destinations_jump).
  split_and!; try done. constructor; try done. destruct HI. constructor; try done.
  intros d0. cbn. by intros [= <-].
Qed.

Lemma subroutine_destinations_ok s :
  settled i s ->
  wp subroutine_destinations s
    (fun d s' => settled i s' /\ gas_of (m_vm s') = gas_of (m_vm s) /\
       i_position (m_vm s') = i_position (m_vm s) /\
       i_return_stack (m_vm s') = i_return_stack (m_vm s) /\
       forall q, q ∈ d <-> is_instr_at (i_code (m_vm s')) q BEGINSUB) (fun _ s' => world_ok lvl s').
Proof.
  intros [[Hc Hl] HI Hs Hd Hr]. unfold subroutine_destinations. wp_go.
  destruct (i_valid_subroutine_destinations (m_vm s)) as [d |] eqn:E; wp_go.
  { split_and!; try done. by apply (vi_sub _ HI). }
  unfold load_destinations, wp.
  destruct (jump_and_sub_destinations_ok code_of (m_cache s) (p_code_hash (i_params (m_vm s)))
    (i_code (m_vm s)) Hl (vi_hash _ HI)) as [E1 E2].
  destruct (jump_and_sub_destinations _ _ _) as [d cache']. cbn in E1, E2. subst d. cbn.
  assert (Hdest : forall q, q ∈ sub_entrypoint (find_jump_and_sub_destinations (i_code (m_vm s))) <->
    is_instr_at (i_code (m_vm s)) q BEGINSUB) by (intros; apply find_jump_and_sub_destinations_sub).
  split_and!; try done. constructor; try done. destruct HI. constructor; try done.
  intros d0. cbn. by intros [= <-].
Qed.

Lemma verify_jump_ok p d :
  rwp (verify_jump p d) (fun pos => pos = p /\ pos ∈ d) (fun _ => True).
Proof.
  unfold verify_jump. destruct (bool_decide _) eqn:E1; [| done]. cbn [andb].
  destruct (low_u64 p =? p) eqn:E2; [| done]. b2p. cbn. rewrite E2 in *.
  by apply bool_decide_eq_true in E1.
Qed.

Lemma settled_position s p :
  settled i s -> instr_start (i_code (m_vm s)) p -> settled i (upd (set_position p) s).
Proof. intros [] Hp. constructor; try done. by apply vm_inv_position. Qed.

Lemma advance_ok s r :
  settled i s -> settle_pre K G (m_vm s) r -> (forall u, r <> UnusedGas u) ->
  wp (advance r) s (settle_post K G i) (fun _ s' => world_ok lvl s').
Proof.
  intros HS Hp Hu.
  destruct r as [| u | p | p | p | g off size apply | | t]; cbn [settle_pre] in Hp; cbn [advance]; wp_go.
  - by apply continue_or_finish_ok.
  - by destruct (Hu u).
  - destruct Hp as [_ HG]. eapply wp_mono; [by apply jump_destinations_ok | | done].
    intros d s' (HS' & Eg & _ & Hd). wp_go. apply wp_lift.
    eapply rwp_mono; [apply verify_jump_ok | | by destruct HS'].
    intros q [-> Hq]. cbn beta. wp_go. apply continue_or_finish_ok; [| cbn; rewrite <- Eg in HG; exact HG].
    apply settled_position; [done |]. by apply Hd.
  - destruct Hp as (_ & Hlen & HG). eapply wp_mono; [by apply subroutine_destinations_ok | | done].
    intros d s' (HS' & Eg & Ep & Ers & Hd). wp_go. apply wp_lift.
    eapply rwp_mono; [apply verify_jump_ok | | by destruct HS'].
    intros q [-> Hq]. cbn beta. wp_go. apply Hd in Hq as [Hstart (op & Hop & Hi)].
    pose proof (index_Some _ _ _ Hop). destruct HS' as [Hw HI Hs Hdn Hr].
    pose proof (vi_code _ HI) as Hcode. unfold wf_bytes in Hcode.
    eapply wp_lift_ok; [unfold checked_add; rewrite (proj2 (Z.ltb_lt _ (2 ^ 64))) by lia; reflexivity |].
    wp_go. apply continue_or_finish_ok; [| cbn; rewrite <- Eg in HG; exact HG].
    constructor; try done. destruct HI. constructor; try done.
    + cbn. by apply Forall_cons_2.
    + cbn. rewrite len_cons, Ers. unfold MAX_SUB_STACK_SIZE in *. lia.
    + cbn. replace 1 with (instr_size op) by by rewrite (instr_size_imm _ _ Hi).
      by apply decodes_snoc.
  - destruct Hp as [Hp HG]. apply continue_or_finish_ok; [by apply settled_position | done].
  - destruct Hp as (-> & Hrange & HG). destruct HS as [Hw HI Hs Hdn Hr].
    destruct (into_return_data_ok _ _ _ Hrange) as (rd & bytes & Erd & Hwf & _).
    pose proof (gas_of_nonneg _ HI). wp_ok Erd. wp_go. split; [done |]. cbn. split; [lia | done].
  - by apply known_gas_left_ok.
  - done.
Qed.

Lemma trace_result_ok s (Q : unit -> Mach -> Prop) R :
  settled i s -> 0 <= i_last_stack_ret_len (m_vm s) <= len (i_stack (m_vm s)) ->
  (forall c, ctx_inv lvl c -> Q tt (upd_ctx c s)) -> wp trace_result s Q R.
Proof.
  intros [[Hc Hl] HI Hs Hd Hr] Hret HQ. unfold trace_result. wp_go.
  destruct (i_do_trace (m_vm s)); wp_go.
  - destruct (gas_of_inv _ HI) as (g & Hg & _). unfold get_gasometer. wp_go.
    eapply wp_lift_ok; [rewrite Hg; reflexivity |]. wp_go. eapply wp_lift_ok.
    { unfold peek_top. rewrite (proj2 (Z.leb_le _ _) (proj2 Hret)). reflexivity. }
    wp_go. apply HQ. by apply law_trace_executed.
  - destruct s as [v c cache]. by apply (HQ c).
Qed.

(** Unused gas is returned, the result traced and the program counter advanced. *)
Lemma settle_ok s r :
  settled i s -> 0 <= i_last_stack_ret_len (m_vm s) <= len (i_stack (m_vm s)) ->
  settle_pre K G (m_vm s) r ->
  wp (return_unused_gas r ;;; trace_result ;;; advance r) s (settle_post K G i) (fun _ s' => world_ok lvl s').
Proof.
  intros HS Hret Hp.
  assert (Hrest : forall s' r', settled i s' -> settle_pre K G (m_vm s') r' ->
    (forall u, r' <> UnusedGas u) -> advance r = advance r' :> EM InterpreterResult ->
    0 <= i_last_stack_ret_len (m_vm s') <= len (i_stack (m_vm s')) ->
    wp (trace_result ;;; advance r) s' (settle_post K G i) (fun _ s' => world_ok lvl s')).
  { intros s' r' HS' Hp' Hu Er Hret'. apply wp_bind, trace_result_ok; [done | done |].
    intros c Hc. rewrite Er. apply advance_ok; [| done | done].
    destruct HS' as [[_ ?] ? ? ? ?]. by constructor. }
  destruct r as [| u | | | | | |]; cbn [return_unused_gas]; try by destruct Hp.
  all: try (apply wp_bind, wp_ret; by eapply Hrest).
  cbn in Hp. destruct Hp as (Hu & HG & Hlt). destruct HS as [Hw HI Hs Hd Hr].
  destruct (gas_of_inv _ HI) as (g & Hg & Eg & [? ?] & _).
  unfold get_gasometer. apply wp_bind. wp_go. eapply wp_lift_ok; [rewrite Hg; reflexivity |]. wp_go. eapply wp_lift_ok.
  { unfold checked_add. cbn [cost_width usize_cost]. rewrite (proj2 (Z.ltb_lt _ (2 ^ 64))) by lia. reflexivity. }
  apply wp_vm_set.
  apply (Hrest _ InstrOk); try done; [| cbn; lia].
  constructor; try done. cbn [m_vm upd]. apply vm_inv_gas; [done | lia | done].
Qed.
End settle.

(** ** Steps *)

(** A bound on the steps left: each instruction costs gas, a resumption takes one step more. *)
Definition budget (i : Interpreter) : Z :=
  total_gas i + match i_resume_result i with Some _ => 1 | None => 0 end.

Definition step_post (i : Interpreter) (r : InterpreterResult) (s' : Mach) : Prop :=
  world_ok lvl s' /\
  match r with
  | Stopped => False
  | Continue => ready (m_vm s') /\ i_resume_result (m_vm s') = None /\ same_code i (m_vm s') /\
      0 <= budget (m_vm s') < budget i /\ total_gas (m_vm s') <= total_gas i
  | Done (inl v) => gas_left_ok (total_gas i) v
  | Done (inr _) => True
  | Trap t => suspended (m_vm s') t /\ same_code i (m_vm s') /\ trap_ok (m_ctx s') t /\
      gas_of (m_vm s') + ap_gas (trap_params t) < total_gas i
  end.

Lemma settle_step i K r s' :
  K < budget i -> K <= total_gas i -> settle_post K (total_gas i) i r s' -> step_post i r s'.
Proof.
  intros HK HK' [Hw HP]. split; [done |]. destruct r as [| [v | e] | | t]; try done.
  destruct HP as (Hr & Er & Hs & Hg). pose proof (gas_of_nonneg _ (re_inv _ Hr)).
  assert (Et : total_gas (m_vm s') = gas_of (m_vm s')) by (unfold total_gas; rewrite Er; lia).
  assert (Eb : budget (m_vm s') = gas_of (m_vm s')) by (unfold budget; rewrite Er, Et; lia).
  split_and!; try done; lia.
Qed.

Lemma run_then_settle i r s' :
  vm_inv i -> i_resume_result i = None -> run_post i r s' ->
  wp (match r with
      | InstrTrap trap => ret (Trap trap)
      | _ => return_unused_gas r ;;; trace_result ;;; advance r
      end) s' (step_post i) (fun _ s' => world_ok lvl s').
Proof.
  intros HI Er [Pw PI Ps Pd Pr Pt P Ptr]. pose proof (gas_of_nonneg _ HI). pose proof (gas_of_nonneg _ PI).
  assert (Ht : total_gas i = gas_of i) by (unfold total_gas; rewrite Er; lia).
  assert (Hb : budget i = gas_of i) by (unfold budget; rewrite Er, Ht; lia).
  assert (HS : settled i s') by by constructor.
  destruct (is_trap r) eqn:Etrap.
  { destruct r; try done. wp_go. destruct P as [? ?]. split; [done |].
    rewrite Ht. split_and!; [done | done | by apply Ptr | done]. }
  assert (Hgoal : wp (return_unused_gas r ;;; trace_result ;;; advance r) s' (step_post i)
    (fun _ s' => world_ok lvl s')).
  { eapply wp_mono; [apply (settle_ok i (gas_of i - 1) (gas_of i)); [lia | done | by apply Pt |] | | done].
    - destruct r; cbn in P |- *; try done; lia || (split_and!; try apply P; lia).
    - intros r' s'' HP. eapply (settle_step _ (gas_of i - 1)); [lia | lia |]. by rewrite Ht. }
  by destruct r.
Qed.

Lemma step_inner_ok s :
  machine_inv (S lvl) s -> i_code (m_vm s) <> [] -> bad_blockhash (m_vm s) = false ->
  wp (step_inner keccak) s (step_post (m_vm s)) (fun _ s' => world_ok lvl s').
Proof.
  destruct s as [i c cache]. intros [HR HW] Hne Hb. cbn [m_vm] in *.
  unfold step_inner, take_resume_result. wp_go. cbn [m_vm].
  destruct (i_resume_result i) as [r |] eqn:Er; wp_go.
  - pose proof HR as [HI Hd _ Hres]. destruct (Hres r Er) as (Eret & Hlen & Hr).
    pose proof (gas_of_nonneg _ HI).
    set (s1 := upd (set_resume_result None) (mkMachine i c cache)).
    assert (HW' : world_ok lvl (mkMachine i c cache)) by (eapply world_mono; [done | lia]).
    assert (HS : settled i s1) by (destruct HI; by constructor; try by constructor).
    assert (Hgoal : wp (return_unused_gas r ;;; trace_result ;;; advance r) s1 (step_post i)
      (fun _ s' => world_ok lvl s')).
    { eapply wp_mono; [apply (settle_ok i (total_gas i) (total_gas i)); [lia | done | cbn; lia |] | | done].
      - unfold total_gas. rewrite Er. destruct Hr as [-> | (u & -> & Hu & Hlt)];
          cbn; unfold gas_of in *; cbn in *; lia.
      - intros r' s' HP. eapply settle_step; [| | exact HP]; [unfold budget; rewrite Er |]; lia. }
    by destruct Hr as [-> | (u & -> & _)].
  - replace (upd (set_resume_result None) (mkMachine i c cache)) with (mkMachine i c cache)
      by (unfold upd; cbn; f_equal; destruct i; cbn in Er; by subst).
    eapply wp_mono; [by apply run_instruction_ok | | done].
    intros r s' HP. cbn [m_vm] in HP. apply run_then_settle; [apply HR | done | done].
Qed.

Lemma step_ok s :
  machine_inv (S lvl) s -> bad_blockhash (m_vm s) = false ->
  exists r s', step keccak s = (Ok r, s') /\ step_post (m_vm s) r s'.
Proof.
  intros HM Hb. pose proof HM as [[HI Hd _ _] HW]. pose proof (gas_of_nonneg _ HI).
  destruct (gas_of_inv _ HI) as (g & Hg & Eg & _). unfold step. rewrite Hd, Hg.
  destruct (len (i_code (m_vm s)) =? 0) eqn:E; b2p.
  { do 2 eexists. split; [done |]. split; [eapply world_mono; [done | lia] |]. cbn. unfold total_gas.
    destruct (i_resume_result (m_vm s)) as [r |] eqn:Er; [| lia].
    destruct HM as [[_ _ _ Hres] _]. destruct (Hres r Er) as (_ & _ & [-> | (u & -> & ? & ?)]); lia. }
  assert (Hne : i_code (m_vm s) <> []) by (intros E'; by rewrite E' in E).
  pose proof (step_inner_ok s HM Hne Hb) as Hwp. unfold wp in Hwp.
  destruct (step_inner keccak s) as [[r | e |] s']; cbn in Hwp; [| | done].
  - destruct r as [| v | | t]; do 2 eexists; (split; [done |]); done.
  - do 2 eexists. by split.
Qed.

End level.

(** ** Executions *)

Definition continues (s s' : Mach) : Prop := step keccak s = (Ok Continue, s').

Definition exec_result_ok (n : nat) (i : Interpreter) (r : ExecTrapResult) (s' : Mach) : Prop :=
  world_ok n s' /\
  match r with
  | Return (inl v) => gas_left_ok (total_gas i) v
  | Return (inr _) => True
  | SubCallCreate t => suspended (m_vm s') t /\ same_code i (m_vm s') /\ trap_ok (m_ctx s') t /\
      gas_of (m_vm s') + ap_gas (trap_params t) < total_gas i
  end.

Lemma continue_inv n s s' :
  machine_inv (S n) s -> bad_blockhash (m_vm s) = false -> continues s s' ->
  machine_inv n s' /\ i_resume_result (m_vm s') = None /\ same_code (m_vm s) (m_vm s') /\
  0 <= budget (m_vm s') < budget (m_vm s) /\
  total_gas (m_vm s') <= total_gas (m_vm s).
Proof.
  intros HM Hb E. destruct (step_ok n s HM Hb) as (r & s1 & E' & HW & HP).
  unfold continues in E. rewrite E in E'. injection E' as <- <-. cbn in HP.
  destruct HP as (? & ?). by split; [split |].
Qed.

Lemma same_code_trans a b c : same_code a b -> same_code b c -> same_code a c.
Proof. unfold same_code. intros (? & ? & ?) (? & ? & ?). split_and!; congruence. Qed.

Lemma budget_nonneg i : ready i -> 0 <= budget i.
Proof.
  intros [HI _ _ Hres]. pose proof (gas_of_nonneg _ HI). unfold budget, total_gas.
  destruct (i_resume_result i) as [r |]; [| lia].
  destruct (Hres r eq_refl) as (_ & _ & [-> | (u & -> & ? & ?)]); lia.
Qed.

Lemma exec_ok n fuel s :
  machine_inv (fuel + n) s -> budget (m_vm s) < Z.of_nat fuel ->
  (exists r s', exec keccak fuel s = (Ok (Some r), s') /\ exec_result_ok n (m_vm s) r s') \/
  (exists s0, rtc continues s s0 /\ bad_blockhash (m_vm s0) = true).
Proof.
  revert s. induction fuel as [| fuel IH]; intros s HM Hf.
  { exfalso. pose proof (budget_nonneg _ (proj1 HM)). lia. }
  destruct (bad_blockhash (m_vm s)) eqn:Hb; [right; by exists s |].
  destruct (step_ok (fuel + n)%nat s HM Hb) as (r & s' & E & HW & HP). cbn [exec]. rewrite E.
  assert (HW' : world_ok n s') by (eapply world_mono; [done | lia]).
  destruct r as [| [v | e] | | t]; cbn in HP; try done.
  - left. by do 2 eexists.
  - left. by do 2 eexists.
  - destruct HP as (Hr & _ & Hsame & Hlt & Htot).
    destruct (IH s') as [(r & s'' & E' & HW'' & HP') | (s0 & Hs0 & Hbad)]; [done | lia | left | right].
    + exists r, s''. split; [done |]. split; [done |]. destruct r as [[v | e] | t]; [| done |].
      * destruct v; cbn in *; [lia | destruct HP'; split; [lia | done]].
      * destruct HP' as (? & ? & ? & ?). split_and!; [done | by eapply same_code_trans | done | lia].
    + exists s0. split; [by eapply rtc_l | done].
  - left. by do 2 eexists.
Qed.

(** ** Resumption and creation *)

Lemma expect_gas_inv g n : 0 <= g <= n -> n < 2 ^ 64 -> expect_gas g = Ok g.
Proof. intros. apply expect_gas_ok. lia. Qed.

(** The frame of a resumed call, with the result of the call on its stack. *)
Lemma ready_resumed i t x r mem rd o :
  suspended i t -> is_u256 x -> len mem = len (i_mem i) -> wf_return_data rd ->
  r = InstrOk \/ (exists u, r = UnusedGas u /\ 0 <= u <= ap_gas (trap_params t)) ->
  let i' := set_resume_result (Some r) (set_stack (x :: i_stack i)
              (set_return_data rd (set_mem mem (set_resume_output_range o i)))) in
  ready i' /\ same_code i i' /\ total_gas i' <= gas_of i + ap_gas (trap_params t).
Proof.
  intros [HI Hd Hr Hs Hret Hg Hrange] Hx Hm Hrd Hres i'. pose proof (gas_of_nonneg _ HI).
  assert (Hgas : gas_of i' = gas_of i) by done.
  split_and!; try done.
  - constructor; try done.
    + destruct HI. constructor; try done.
      * by apply Forall_cons_2.
      * cbn. rewrite len_cons. lia.
      * cbn. by rewrite Hm.
    + intros r' [= <-]. split; [done |]. split.
      { cbn. rewrite len_cons. pose proof (len_nonneg (i_stack i)). lia. }
      destruct Hres as [-> | (u & -> & ?)]; [by left | right].
      exists u. split_and!; [done | lia | rewrite Hgas; lia].
  - unfold total_gas. rewrite Hgas. cbn. destruct Hres as [-> | (u & -> & ?)]; lia.
Qed.

Lemma copy_prefix_ok (mem bytes : list byte) r :
  0 <= r.1 -> 0 <= r.2 -> r.1 + r.2 <= len mem ->
  exists mem', copy_prefix mem r bytes = Ok mem' /\ len mem' = len mem.
Proof.
  intros H1 H2 H3. unfold copy_prefix. pose proof (len_nonneg bytes).
  assert (Ht : len (take (Z.to_nat (r.2 `min` len bytes)) bytes) = r.2 `min` len bytes)
    by (unfold len in *; rewrite length_take; lia).
  destruct (copy_at mem r.1 _) as [m |] eqn:Em.
  - exists m. split; [done |]. by eapply len_copy_at.
  - rewrite copy_at_Some in Em; [done | lia | rewrite Ht; lia].
Qed.

Lemma resume_with_output_ok i p off size flag g data :
  suspended i (TrapCall p) -> range_ok (i_mem i) off size -> is_u256 flag ->
  0 <= g <= ap_gas p -> wf_return_data data ->
  exists i', resume_with_output (set_resume_output_range None i) (off, size) flag g data = Ok i' /\
    ready i' /\ same_code i i' /\ total_gas i' <= gas_of i + ap_gas p.
Proof.
  intros HS Hrange Hflag Hg Hd. unfold resume_with_output.
  destruct (writeable_slice_ok _ _ _ Hrange) as (r & Er & H1 & H2 & H3 & _).
  cbn [fst snd i_mem set_resume_output_range]. rewrite Er. cbn [result_bind].
  destruct (rd_deref_ok _ Hd) as (bytes & Eb & _). rewrite Eb. cbn [unwrap result_bind].
  destruct (copy_prefix_ok (i_mem i) bytes r) as (m & Em & Hm); [lia | destruct Hrange; lia | lia |].
  rewrite Em. cbn [result_bind]. pose proof (su_gas _ _ HS) as [_ Hlt]. cbn in Hlt.
  pose proof (gas_of_nonneg _ (su_inv _ _ HS)).
  rewrite (expect_gas_inv g (ap_gas p)) by lia. cbn [result_bind].
  eexists. split; [reflexivity |].
  apply (ready_resumed i (TrapCall p) flag (UnusedGas g) m data None); try done. right. by exists g.
Qed.

Lemma resume_call_ok i p result :
  suspended i (TrapCall p) -> call_result_ok (ap_gas p) (inl result) ->
  exists i', resume_call i result = Ok i' /\ ready i' /\ same_code i i' /\
    total_gas i' <= gas_of i + ap_gas p.
Proof.
  intros HS Hr. destruct (su_range _ _ HS) as (off & size & Eo & Hrange).
  unfold resume_call. rewrite Eo. cbn [unwrap result_bind].
  destruct result as [g data | e | g data]; cbn in Hr.
  - destruct Hr. by apply resume_with_output_ok.
  - eexists. split; [reflexivity |].
    pose proof (vi_return_data _ (su_inv _ _ HS)).
    apply (ready_resumed i (TrapCall p) 0 InstrOk (i_mem i) (i_return_data i) None); try done; by left.
  - destruct Hr. by apply resume_with_output_ok.
Qed.

(** What the executive hands to [resume_create]. *)
Definition create_outcome_ok (gas : Z) (r : ContractCreateResult) : Prop :=
  match r with
  | Created address _ gas_left => is_word 160 address /\ 0 <= gas_left <= gas
  | CreateReverted gas_left data => 0 <= gas_left <= gas /\ wf_return_data data
  | CreateFailed _ => True
  end.

Lemma resume_create_ok i p result :
  suspended i (TrapCreate p) -> create_outcome_ok (ap_gas p) result ->
  exists i', resume_create i result = Ok i' /\ ready i' /\ same_code i i' /\
    total_gas i' <= gas_of i + ap_gas p.
Proof.
  intros HS Hr. pose proof (su_gas _ _ HS) as [_ Hlt]. cbn in Hlt.
  pose proof (gas_of_nonneg _ (su_inv _ _ HS)). pose proof (vi_return_data _ (su_inv _ _ HS)).
  unfold resume_create. destruct result as [a [] g | e | g data]; cbn in Hr.
  - destruct Hr as [Ha Hg]. destruct (i_space i). rewrite (expect_gas_inv g (ap_gas p)) by lia.
    eexists. split; [reflexivity |].
    apply (ready_resumed i (TrapCreate p) a (UnusedGas g) (i_mem i) (i_return_data i) (i_resume_output_range i));
      try done; [by apply is_word_address | by right; exists g].
  - eexists. split; [reflexivity |].
    apply (ready_resumed i (TrapCreate p) 0 InstrOk (i_mem i) (i_return_data i) (i_resume_output_range i));
      try done; by left.
  - destruct Hr as [Hg Hd]. rewrite (expect_gas_inv g (ap_gas p)) by lia.
    eexists. split; [reflexivity |].
    apply (ready_resumed i (TrapCreate p) 0 (UnusedGas g) (i_mem i) data (i_resume_output_range i));
      try done; by right; exists g.
Qed.

(** The parameters a frame is created with. *)
Record action_ok (p : ActionParams) : Prop := {
  ao_params : params_ok (InterpreterParams_from p);
  ao_code : exists code, ap_code p = Some code /\ wf_bytes code /\
    forall h, ap_code_hash p = Some h -> code_of h = Some code;
  ao_gas : is_usize (ap_gas p);
  ao_owner : ap_address p = owner;
}.

Lemma Interpreter_new_ok p :
  action_ok p -> exists i, Interpreter_new p = Ok i /\ ready i /\ total_gas i = ap_gas p.
Proof.
  intros [Hp (code & Ec & Hc & Hh) Hg Ho]. unfold Interpreter_new. rewrite Ec. cbn [unwrap result_bind].
  cbn [from_u256 usize_cost p_gas InterpreterParams_from]. unfold usize_from_u256.
  rewrite low_u64_small, Z.eqb_refl by done. cbn [negb].
  pose proof (wf_stack_limit _ W) as [Hlim _].
  eexists. split; [reflexivity |]. split; [| unfold total_gas, gas_of; cbn; lia].
  constructor; try done.
  - constructor; cbn; try done.
    + by apply Forall_nil_2.
    + exists (Gasometer_new (ap_gas p)). split_and!; [done | done |]. exists 0. split_and!; done || lia.
    + constructor.
  - intros _. cbn. destruct code; [by left | right]. rewrite len_cons. pose proof (len_nonneg code). lia.
Qed.
End frame.
