(* ===== verification/FrameTheorems.v ===== *)
(** * Theorems about EVM frames

    The main results about the interpreter of src/cfx-evm/src/evm/interpreter/mod.rs, put
    together from [Frame], and their instances: a frame running in the context of
    [FrameContext] over a small state, storing a word. *)

From stdpp Require Import gmap strings.
From S2P Require Import Prelude Word Arith VmTypes FrameContext Instructions EvmStack Memory Gasometer.
From S2P Require Import SharedCache Interpreter StaticFrame CopyData MachineRules StepSafety Frame.
Local Open Scope Z_scope.

(** ** A state of storage cells

    Accounts that hold nothing but storage; enough to run contracts on. *)

Definition Cells : Type := gmap (Z * Z) Z.

Definition cells_state : StateOps Cells := {|
  st_balance _ _ := Ok 0;
  st_nonce _ _ := Ok 0;
  st_code_hash _ _ := Ok None;
  st_code_size _ _ := Ok None;
  st_code _ _ := Ok None;
  st_exists _ _ := Ok true;
  st_exists_and_not_null _ _ := Ok true;
  st_storage_at m a k := Ok (default 0 (m !! (a, be_to_Z k)));
  st_set_storage a k v := modify (fun m => <[(a, be_to_Z k) := v]> m);
  st_init_code _ _ := ret tt;
  st_inc_nonce _ _ := ret tt;
  st_sub_balance _ _ _ := ret tt;
  st_transfer_balance _ _ _ _ _ := ret tt;
  st_subtract_total_issued _ m := m;
|}.

Definition cells_inv (n : nat) (m : Cells) : Prop := forall k v, m !! k = Some v -> is_u256 v.

Lemma cells_laws : StateLaws (SS := cells_state) Cells cells_inv.
Proof.
  assert (H0 : is_u256 0) by by split. assert (H0' : is_usize 0) by by split.
  constructor; try done.
  - intros n m a k Hm. cbn. destruct (m !! (a, be_to_Z k)) eqn:E; [by apply (Hm _ _ E) | done].
  - intros n m a k v Hm Hv. cbn. intros k' v' [[_ <-] | [_ ?]]%lookup_insert_Some; [done | by eapply Hm].
Qed.

Definition sample_env : Env := {|
  env_number := 7; env_author := 0; env_timestamp := 1700000000; env_difficulty := 0;
  env_gas_limit := 30000000; env_last_hash := 0; env_accumulated_gas_used := 0;
  env_epoch_height := 7
|}.

Definition sample_context : FrameContext Cells := {|
  fc_state := ∅;
  fc_space := Ethereum;
  fc_env := sample_env;
  fc_depth := 0;
  fc_is_create := false;
  fc_origin := mkOriginInfo 16 17 1 0;
  fc_substate := Substate_new;
  fc_internal_contracts := fun _ => None;
  fc_chain_id := 1030;
  fc_spec := genesis_spec;
  fc_static_flag := false
|}.

(** [PUSH1 0x2a; PUSH1 0x00; SSTORE; STOP] *)
Definition sample_code : list byte := [x60; x2a; x60; x00; x55; x00].

Definition sample_params : ActionParams := {|
  ap_space := Ethereum; ap_code_address := 16; ap_code_hash := None; ap_address := 16;
  ap_sender := 17; ap_original_sender := 17; ap_gas := 100000; ap_gas_price := 1;
  ap_value := Transfer 0; ap_code := Some sample_code; ap_data := None; ap_call_type := Call;
  ap_create_type := CreateNone; ap_params_type := Separate
|}.

Definition sample_keccak (l : list byte) : Z := len l mod 2 ^ 256.
Definition sample_rlp (sender nonce : Z) : list byte := to_be 20 sender ++ to_be 32 nonce.

Lemma sample_keccak_word l : is_u256 (sample_keccak l).
Proof. unfold sample_keccak. auto with hemvm lia. Qed.

Definition no_code (h : Z) : option (list byte) := None.

Definition sample_constants : FrameConstants := constants_of sample_context.

Lemma sample_constants_ok : wf_constants genesis_spec sample_constants.
Proof. constructor; try done; constructor; by vm_compute. Qed.

Lemma sample_context_inv n :
  frame_context_inv (st_inv := cells_inv) genesis_spec sample_constants n sample_context.
Proof. by constructor. Qed.

Lemma sample_action_ok : action_ok (owner := 16) no_code sample_params.
Proof.
  constructor.
  - constructor; split; by vm_compute.
  - exists sample_code. by split_and!.
  - split; by vm_compute.
  - done.
Qed.

Abbreviation sample_inv := (frame_context_inv (st_inv := cells_inv) genesis_spec sample_constants).

Section sample.
Local Existing Instance usize_cost.
Local Existing Instance cells_state.
Local Existing Instance cells_laws.
Local Instance sample_ctx : Context (FrameContext Cells) := frame_context sample_keccak sample_rlp.

Definition sample_machine : Machine (C := FrameContext Cells) (L := gmap Z CacheItem) :=
  match Interpreter_new sample_params with
  | Ok i => mkMachine i sample_context ∅
  | _ => mkMachine (mkInterpreter Ethereum [] (InterpreterParams_from sample_params) 0 []
           ReturnData_empty false false None None None [] [] None None 0) sample_context ∅
  end.

Definition sample_laws :
    ContextLaws (CC := sample_ctx) (FrameContext Cells) genesis_spec 16 sample_inv (trap_ok genesis_spec) :=
  frame_context_laws (SL := cells_laws) sample_keccak sample_rlp genesis_spec wf_genesis_spec
    sample_constants sample_constants_ok.

Lemma sample_machine_inv n :
  machine_inv (spec := genesis_spec) (owner := 16) (ctx_inv := sample_inv) no_code n sample_machine.
Proof.
  destruct (Interpreter_new_ok wf_genesis_spec no_code _ sample_action_ok) as (i & E & Hr & _).
  unfold sample_machine. rewrite E. split; [done |]. split; [apply sample_context_inv |].
  intros h d Hd. cbn in Hd. by rewrite lookup_empty in Hd.
Qed.
End sample.

(** ** Safety *)

(** C12. No panics and no broken frames: from any state that satisfies the frame invariant, and
    whatever the code is, a step does not panic (unless it executes [BLOCKHASH] of the largest
    word) and re-establishes the invariant. If it continues, the frame is ready for the next
    step (program counter and return addresses at instruction boundaries, all stack words in
    range, stack within its limit, memory paid for) with a smaller budget and no more gas; if it
    ends, the gas left does not exceed the gas of the frame; if it traps, the frame is ready to
    be resumed and what it keeps together with what the sub-call gets is strictly less than what
    it had. *)
Theorem frame_step_safe {C} {CC : Context C} {L} {LL : Lru L} {spec : Spec} {owner : Z}
    {ctx_inv : nat -> C -> Prop} {trap_ok : C -> TrapKind -> Prop}
    {LAWS : ContextLaws C spec owner ctx_inv trap_ok} (keccak : list byte -> Z) (code_of : Z -> option (list byte))
    (n : nat) (s : Machine (C := C) (L := L)) :
  wf_spec spec -> (forall l, is_u256 (keccak l)) ->
  machine_inv (spec := spec) (owner := owner) (ctx_inv := ctx_inv) code_of (S n) s ->
  bad_blockhash (m_vm s) = false ->
  exists r s', step (cost := usize_cost) keccak s = (Ok r, s') /\
    step_post (spec := spec) (owner := owner) (ctx_inv := ctx_inv) (trap_ok := trap_ok) code_of n
      (m_vm s) r s'.
Proof. intros W Hk. by apply step_ok. Qed.

Lemma frame_step_safe_witness :
  exists r s', step (cost := usize_cost) (CC := sample_ctx) sample_keccak sample_machine = (Ok r, s') /\
    r = Continue /\ i_stack (m_vm s') = [42].
Proof.
  destruct (frame_step_safe (LAWS := sample_laws)
    sample_keccak no_code 0 sample_machine wf_genesis_spec sample_keccak_word (sample_machine_inv 1) eq_refl)
    as (r & s' & E & _).
  exists r, s'. split; [exact E |]. vm_compute in E. injection E as <- <-. by split.
Defined.



(** ** The life of a frame *)

(** Frames are created and resumed into their invariant: [Interpreter_new] on well-formed
    parameters whose gas fits 64 bits gives a ready frame holding that gas; a frame that trapped
    is made ready again by [resume_call] and [resume_create] whatever the outcome of the
    sub-call was, without panicking, and has at most the gas it kept plus what it gave away. *)
Theorem frame_lifecycle (spec : Spec) (owner : Z) (code_of : Z -> option (list byte)) :
  wf_spec spec ->
  (forall p, action_ok (owner := owner) code_of p ->
     exists i, Interpreter_new (cost := usize_cost) p = Ok i /\ ready (spec := spec) (owner := owner) code_of i /\
       total_gas i = ap_gas p) /\
  (forall i p r, suspended (spec := spec) (owner := owner) code_of i (TrapCall p) ->
     call_result_ok (ap_gas p) (inl r) ->
     exists i', resume_call (cost := usize_cost) i r = Ok i' /\ ready (spec := spec) (owner := owner) code_of i' /\
       same_code i i' /\ total_gas i' <= gas_of i + ap_gas p) /\
  (forall i p r, suspended (spec := spec) (owner := owner) code_of i (TrapCreate p) ->
     create_outcome_ok (ap_gas p) r ->
     exists i', resume_create (cost := usize_cost) i r = Ok i' /\ ready (spec := spec) (owner := owner) code_of i' /\
       same_code i i' /\ total_gas i' <= gas_of i + ap_gas p).
Proof.
  intros W. split_and!; intros.
  - by apply Interpreter_new_ok.
  - by apply resume_call_ok.
  - by apply resume_create_ok.
Qed.

Lemma frame_lifecycle_witness :
  exists i, Interpreter_new (cost := usize_cost) sample_params = Ok i /\ total_gas i = 100000.
Proof.
  destruct (frame_lifecycle genesis_spec 16 no_code wf_genesis_spec) as [H _].
  destruct (H sample_params sample_action_ok) as (i & E & _ & G). by exists i.
Defined.

(** What holds of every state a frame passes through: started on well-formed parameters and
    as long as it does not meet a [BLOCKHASH] of the largest word, the program counter is inside
    the code and at the start of an instruction, never inside the operand of a push; the stack
    holds at most [stack_limit] words, all below 2^256; memory is a whole number of words below
    2^37 bytes; and the gas never exceeds what the frame was given. *)
Theorem reachable_frame_ok {C} {CC : Context C} {L} {LL : Lru L} {spec : Spec} {owner : Z}
    {ctx_inv : nat -> C -> Prop} {trap_ok : C -> TrapKind -> Prop}
    {LAWS : ContextLaws C spec owner ctx_inv trap_ok} (keccak : list byte -> Z) (code_of : Z -> option (list byte))
    (p : ActionParams) (i : Interpreter) (c : C) (cache : L) (n : nat) (s' : Machine (C := C) (L := L)) :
  wf_spec spec -> (forall l, is_u256 (keccak l)) ->
  action_ok (owner := owner) code_of p -> Interpreter_new (cost := usize_cost) p = Ok i ->
  ctx_inv n c -> cache_inv code_of cache ->
  nsteps (fun s s' => bad_blockhash (m_vm s) = false /\ continues keccak s s') n (mkMachine i c cache) s' ->
  let i' := m_vm s' in
  i_code i' = i_code i /\
  instr_start (i_code i) (i_position i') /\ (i_code i = [] \/ i_position i' < len (i_code i)) /\
  len (i_stack i') <= stack_limit spec /\ words (i_stack i') /\
  (exists n, len (i_mem i') = 32 * n /\ 0 <= n < 2 ^ 32) /\
  0 <= gas_of i' <= ap_gas p.
Proof.
  intros W Hk Hp Ei Hc Hcache Hrtc i'.
  destruct (Interpreter_new_ok W code_of p Hp) as (i0 & Ei0 & Hr & Hg). rewrite Ei in Ei0. simplify_eq.
  assert (Hres : i_resume_result i0 = None).
  { unfold Interpreter_new in Ei. destruct (ap_code p); [| done]. cbn in Ei. by simplify_eq. }
  assert (Hinv : machine_inv (spec := spec) (owner := owner) (ctx_inv := ctx_inv) code_of 0 s' /\
    same_code i0 (m_vm s') /\ total_gas (m_vm s') <= total_gas i0 /\ i_resume_result (m_vm s') = None).
  { remember (mkMachine i0 c cache) as s eqn:Es. assert (H0 : m_vm s = i0) by by subst.
    rewrite <- H0. assert (Hm : machine_inv (spec := spec) (owner := owner) (ctx_inv := ctx_inv) code_of n s)
      by by subst.
    assert (Hres' : i_resume_result (m_vm s) = None) by by rewrite H0.
    clear - Hm Hrtc Hres' W Hk LAWS. induction Hrtc as [s | n s s1 s2 [Hb Hs] _ IH]; [done |].
    destruct (continue_inv W keccak Hk code_of n s s1 Hm Hb Hs) as (Hm1 & Hres1 & Hsame & Hbud & Ht).
    destruct (IH Hm1 Hres1) as (? & ? & ? & ?).
    split_and!; [done | by eapply same_code_trans | lia | done]. }
  destruct Hinv as ([[HI Hd Hf _] _] & (Ecode & _ & _) & Ht & Hres').
  pose proof (gas_of_nonneg _ _ HI). unfold total_gas in Ht, Hg. rewrite Hres' in Ht. rewrite Hres in Hg, Ht.
  pose proof (Hf Hres') as Hf'. destruct HI. subst i'. rewrite Ecode in *.
  destruct vi_gas as (g & _ & _ & words_ & ? & ? & _).
  split_and!; try done; [by exists words_ | lia | lia].
Qed.

Lemma reachable_frame_ok_witness :
  exists i s', Interpreter_new (cost := usize_cost) sample_params = Ok i /\
    step (cost := usize_cost) (CC := sample_ctx) sample_keccak (mkMachine i sample_context (∅ : gmap Z CacheItem)) =
      (Ok Continue, s') /\
    instr_start sample_code (i_position (m_vm s')) /\ i_position (m_vm s') = 2 /\ gas_of (m_vm s') = 99997.
Proof.
  destruct (step (cost := usize_cost) (CC := sample_ctx) sample_keccak sample_machine) as [r s'] eqn:E.
  pose proof (reachable_frame_ok (LAWS := sample_laws)
    sample_keccak no_code sample_params (m_vm sample_machine) sample_context (∅ : gmap Z CacheItem) 1 s'
    wf_genesis_spec sample_keccak_word sample_action_ok eq_refl (sample_context_inv 1)) as H.
  exists (m_vm sample_machine), s'. vm_compute in E. injection E as <- <-.
  split; [reflexivity |]. split; [by vm_compute |]. split; [| by split].
  apply H.
  - intros h d Hd. cbn in Hd. by rewrite lookup_empty in Hd.
  - eapply nsteps_l; [| apply nsteps_O]. split; by vm_compute.
Defined.

(** ** Instances of the theorems about gas and contexts *)

(** [SSTORE] of a non-zero word into an empty cell. *)
Lemma requirements_sound_witness :
  requirements (cost := usize_cost) (CC := sample_ctx) (mkGasometer 100000 0) sample_context SSTORE
    (mkInfo "SSTORE"%string 2 0 Special) [0; 42] 0 = Ok (mkRequirements 40000 None 0 0) /\
  requirements_ok (spec := genesis_spec) SSTORE [0; 42] 0 (mkRequirements 40000 None 0 0).
Proof.
  pose proof (requirements_sound (LAWS := sample_laws) 0
    (mkGasometer 100000 0) sample_context SSTORE (mkInfo "SSTORE"%string 2 0 Special) [0; 42] 0
    wf_genesis_spec (sample_context_inv 0) eq_refl) as H.
  assert (E : requirements (cost := usize_cost) (CC := sample_ctx) (mkGasometer 100000 0) sample_context
    SSTORE (mkInfo "SSTORE"%string 2 0 Special) [0; 42] 0 = Ok (mkRequirements 40000 None 0 0)) by by vm_compute.
  rewrite E in H. split; [exact E |]. apply H.
  - repeat apply Forall_cons_2; [split; lia | split; lia | by apply Forall_nil_2].
  - by vm_compute.
  - by vm_compute.
  - exists 0. by split_and!.
Defined.

Definition static_sample_context : FrameContext Cells :=
  mkFrameContext ∅ Ethereum sample_env 1 false (mkOriginInfo 16 17 1 0) Substate_new (fun _ => None) 1030
    genesis_spec true.

Lemma static_context_unchanged_witness :
  fc_set_storage (SS := cells_state) [x00] 42 static_sample_context =
    (Err MutableCallInStaticContext, static_sample_context).
Proof.
  exact (proj1 (static_context_unchanged (SS := cells_state) sample_keccak sample_rlp
    static_sample_context eq_refl) [x00] 42).
Defined.

(** The sample program in a static frame fails at its [SSTORE]. *)
Lemma static_frame_readonly_witness :
  let s := mkMachine (m_vm sample_machine) static_sample_context (∅ : gmap Z CacheItem) in
  let r := exec (cost := usize_cost) (CC := sample_ctx) sample_keccak 9 s in
  r.1 = Ok (Some (Return (inr MutableCallInStaticContext))) /\ m_ctx r.2 = static_sample_context.
Proof.
  intros s r. split; [by vm_compute |].
  exact (static_frame_readonly (cost := usize_cost) (SS := cells_state) sample_keccak sample_rlp 9 s eq_refl).
Defined.

Lemma blockhash_panics_on_max_witness :
  (fc_blockhash (2 ^ 256 - 1) sample_context).1 = Panic /\ (fc_blockhash 6 sample_context).1 = Ok 0.
Proof.
  rewrite (blockhash_panics_on_max sample_context (2 ^ 256 - 1)) by (split; by vm_compute).
  by split.
Defined.
