(* ===== verification/Delta.v ===== *)
(** * Aggregator deltas

    The deferred updates of aggregators: src/aptos-move/aptos-aggregator/src/delta_change_set.rs
    ([DeltaOp] and the checked operations), aggregator_extension.rs of the same directory (the
    aggregators of one transaction), and the changes of a session in
    src/aptos-move/framework/src/natives/aggregator_natives/context.rs.

    A delta stands for a sequence of additions and subtractions whose start value is not known.
    The theorems say that it stands for exactly that: merging deltas is composition, running an
    aggregator in a delta state and materializing it later is running it on the stored value,
    and squashing the changes of two sessions is doing one after the other. *)

From stdpp Require Import gmap.
From S2P Require Import Prelude Word.
Local Open Scope Z_scope.

Abbreviation is_u128 := (is_word 128).

(** The sub-statuses of the abort, and the error of a missing aggregator. *)
Inductive DeltaError : Set := EADD_OVERFLOW | ESUB_UNDERFLOW | VM_EXTENSION_ERROR.

Abbreviation delta_result := (result DeltaError).

Definition addition (base value limit : Z) : delta_result Z :=
  if limit <? base then Err EADD_OVERFLOW
  else
    let? room := checked_sub limit base in
    if room <? value then Err EADD_OVERFLOW else checked_add 128 base value.

Definition subtraction (base value : Z) : delta_result Z :=
  if base <? value then Err ESUB_UNDERFLOW else checked_sub base value.

Inductive DeltaUpdate : Set := Plus (value : Z) | Minus (value : Z).

Record DeltaOp : Set := mkDeltaOp {
  max_positive : Z;
  min_negative : Z;
  limit : Z;
  update : DeltaUpdate;
}.

Definition DeltaOp_new (update : DeltaUpdate) (limit max_positive min_negative : Z) : DeltaOp :=
  mkDeltaOp max_positive min_negative limit update.

Definition apply_to (self : DeltaOp) (base : Z) : delta_result Z :=
  let? _ := addition base (max_positive self) (limit self) in
  let? _ := subtraction base (min_negative self) in
  match update self with
  | Plus value => addition base value (limit self)
  | Minus value => subtraction base value
  end.

(** [Result::unwrap_or] *)
Definition unwrap_or {A} (r : delta_result A) (d : A) : delta_result A :=
  match r with Ok a => Ok a | Err _ => Ok d | Panic => Panic end.

Definition shifted_max_positive_by (self delta : DeltaOp) : delta_result Z :=
  match update delta with
  | Plus value => addition value (max_positive self) (limit self)
  | Minus value => unwrap_or (subtraction (max_positive self) value) 0
  end.

Definition shifted_min_negative_by (self delta : DeltaOp) : delta_result Z :=
  match update delta with
  | Plus value => unwrap_or (subtraction (min_negative self) value) 0
  | Minus value => addition value (min_negative self) (limit self)
  end.

(** The macro [update_different_sign!]. *)
Definition update_different_sign (a b : Z) : delta_result DeltaUpdate :=
  if b <=? a then let? v := subtraction a b in Ok (Plus v)
  else let? v := subtraction b a in Ok (Minus v).

Definition merge_onto (self previous_delta : DeltaOp) : delta_result DeltaOp :=
  let? shifted_max_positive := shifted_max_positive_by self previous_delta in
  let? shifted_min_negative := shifted_min_negative_by self previous_delta in
  let? new_update :=
    match update previous_delta, update self with
    | Plus prev_value, Plus self_value =>
        let? v := addition prev_value self_value (limit self) in Ok (Plus v)
    | Plus prev_value, Minus self_value => update_different_sign prev_value self_value
    | Minus prev_value, Plus self_value => update_different_sign self_value prev_value
    | Minus prev_value, Minus self_value =>
        let? v := addition prev_value self_value (limit self) in Ok (Minus v)
    end in
  Ok {|
    max_positive := Z.max (max_positive previous_delta) shifted_max_positive;
    min_negative := Z.max (min_negative previous_delta) shifted_min_negative;
    limit := limit self;
    update := new_update
  |}.

(** ** Values in storage

    The [bcs] library encodes integers; what the code relies on is that decoding inverts
    encoding. *)
Class BcsU128 : Type := {
  bcs_to_bytes : Z -> list byte;
  bcs_from_bytes : list byte -> option Z;
  bcs_roundtrip : forall v, is_u128 v -> bcs_from_bytes (bcs_to_bytes v) = Some v;
  bcs_range : forall b v, bcs_from_bytes b = Some v -> is_u128 v;
}.

Definition serialize {BCS : BcsU128} (value : Z) : list byte := bcs_to_bytes value.
Definition deserialize {BCS : BcsU128} {E} (value_bytes : list byte) : result E Z :=
  unwrap (bcs_from_bytes value_bytes).

(** ** The aggregators of a transaction *)

Inductive AggregatorState : Set := Data | PositiveDelta | NegativeDelta.

Record History : Set := mkHistory { h_max_positive : Z; h_min_negative : Z }.

Definition History_new : History := mkHistory 0 0.
Definition record_positive (h : History) (value : Z) : History :=
  mkHistory (Z.max (h_max_positive h) value) (h_min_negative h).
Definition record_negative (h : History) (value : Z) : History :=
  mkHistory (h_max_positive h) (Z.max (h_min_negative h) value).

Record Aggregator : Set := mkAggregator {
  a_value : Z;
  a_state : AggregatorState;
  a_limit : Z;
  a_history : option History;
}.

(** The aggregator [get_aggregator] makes up for an id this transaction did not create. *)
Definition Aggregator_delta (limit : Z) : Aggregator :=
  mkAggregator 0 PositiveDelta limit (Some History_new).

(** The one of [create_new_aggregator]. *)
Definition Aggregator_data (limit : Z) : Aggregator := mkAggregator 0 Data limit None.

Definition set_value (value : Z) (state : AggregatorState) (a : Aggregator) : Aggregator :=
  mkAggregator value state (a_limit a) (a_history a).

Definition record_value : M DeltaError Aggregator unit := fun self =>
  match a_history self with
  | None => (Ok tt, self)
  | Some h =>
      let put h := mkAggregator (a_value self) (a_state self) (a_limit self) (Some h) in
      match a_state self with
      | PositiveDelta => (Ok tt, put (record_positive h (a_value self)))
      | NegativeDelta => (Ok tt, put (record_negative h (a_value self)))
      | Data => (Panic, self)
      end
  end.

Definition aggregator_add (value : Z) : M DeltaError Aggregator unit :=
  self <~ get ;;
  match a_state self with
  | Data =>
      v <~ lift (addition (a_value self) value (a_limit self)) ;; modify (set_value v Data)
  | PositiveDelta =>
      v <~ lift (addition (a_value self) value (a_limit self)) ;;
      modify (set_value v PositiveDelta) ;;; record_value
  | NegativeDelta =>
      if a_value self <=? value then
        v <~ lift (subtraction value (a_value self)) ;;
        modify (set_value v PositiveDelta) ;;; record_value
      else
        v <~ lift (subtraction (a_value self) value) ;;
        modify (set_value v NegativeDelta) ;;; record_value
  end.

Definition aggregator_sub (value : Z) : M DeltaError Aggregator unit :=
  self <~ get ;;
  match a_state self with
  | Data =>
      v <~ lift (subtraction (a_value self) value) ;; modify (set_value v Data)
  | PositiveDelta =>
      if value <=? a_value self then
        v <~ lift (subtraction (a_value self) value) ;;
        modify (set_value v PositiveDelta) ;;; record_value
      else
        lift (subtraction (a_limit self) value) ;;;
        v <~ lift (subtraction value (a_value self)) ;;
        modify (set_value v NegativeDelta) ;;; record_value
  | NegativeDelta =>
      v <~ lift (addition (a_value self) value (a_limit self)) ;;
      modify (set_value v NegativeDelta) ;;; record_value
  end.

(** What [read_and_materialize] does with the value it finds in storage. *)
Definition materialize_onto (value_from_storage : Z) : M DeltaError Aggregator Z :=
  self <~ get ;;
  history <~ lift (unwrap (a_history self)) ;;
  lift (addition value_from_storage (h_max_positive history) (a_limit self)) ;;;
  lift (subtraction value_from_storage (h_min_negative history)) ;;;
  v <~ match a_state self with
       | PositiveDelta => lift (addition value_from_storage (a_value self) (a_limit self))
       | NegativeDelta => lift (subtraction value_from_storage (a_value self))
       | Data => panic
       end ;;
  modify (fun a => mkAggregator v Data (a_limit a) None) ;;; ret v.

(** [resolve_table_entry] fails, finds nothing, or finds the stored value. *)
Definition read_and_materialize (resolved : option (option Z)) : M DeltaError Aggregator Z :=
  self <~ get ;;
  match a_state self with
  | Data => ret (a_value self)
  | _ =>
      match resolved with
      | Some (Some value_from_storage) => materialize_onto value_from_storage
      | _ => throw VM_EXTENSION_ERROR
      end
  end.

(** ** The change an aggregator makes, and changes of successive sessions *)

Inductive AggregatorChange : Set := Write (value : Z) | Merge (delta : DeltaOp) | Delete.

(** The body of the loop of [into_change_set]. *)
Definition into_change (a : Aggregator) : delta_result AggregatorChange :=
  match a_state a with
  | Data => Ok (Write (a_value a))
  | PositiveDelta =>
      let? h := unwrap (a_history a) in
      Ok (Merge (DeltaOp_new (Plus (a_value a)) (a_limit a) (h_max_positive h) (h_min_negative h)))
  | NegativeDelta =>
      let? h := unwrap (a_history a) in
      Ok (Merge (DeltaOp_new (Minus (a_value a)) (a_limit a) (h_max_positive h) (h_min_negative h)))
  end.

(** The occupied entry of [AggregatorChangeSet::squash]. *)
Definition squash_change (change other_change : AggregatorChange) : delta_result AggregatorChange :=
  match change, other_change with
  | (Write _ | Merge _), Write data => Ok (Write data)
  | (Write _ | Merge _), Delete => Ok Delete
  | Write data, Merge delta => let? new_data := apply_to delta data in Ok (Write new_data)
  | Merge delta1, Merge delta2 => let? d := merge_onto delta2 delta1 in Ok (Merge d)
  | Delete, _ => Panic
  end.

(** The table handle and the key within the table. *)
Definition AggregatorID : Set := Z * Z.

(** [AggregatorChangeSet::squash]; the changes of [other] in the order of its [BTreeMap]. *)
Fixpoint squash (other : list (AggregatorID * AggregatorChange)) :
    M DeltaError (gmap AggregatorID AggregatorChange) unit :=
  match other with
  | [] => ret tt
  | (other_id, other_change) :: other =>
      changes <~ get ;;
      match changes !! other_id with
      | None => modify (fun m => <[other_id := other_change]> m)
      | Some change =>
          c <~ lift (squash_change change other_change) ;;
          modify (fun m => <[other_id := c]> m)
      end ;;;
      squash other
  end.

(** The aggregators of one transaction. *)
Record AggregatorData : Type := mkAggregatorData {
  new_aggregators : gset AggregatorID;
  destroyed_aggregators : gset AggregatorID;
  aggregators : gmap AggregatorID Aggregator;
}.

Definition get_aggregator (id : AggregatorID) (limit : Z) : M DeltaError AggregatorData Aggregator :=
  self <~ get ;;
  match aggregators self !! id with
  | Some a => ret a
  | None =>
      let a := Aggregator_delta limit in
      modify (fun d => mkAggregatorData (new_aggregators d) (destroyed_aggregators d)
                         (<[id := a]> (aggregators d))) ;;; ret a
  end.

Definition create_new_aggregator (id : AggregatorID) (limit : Z) : M DeltaError AggregatorData unit :=
  modify (fun d => mkAggregatorData ({[id]} ∪ new_aggregators d) (destroyed_aggregators d)
                     (<[id := Aggregator_data limit]> (aggregators d))).

Definition remove_aggregator (id : AggregatorID) : M DeltaError AggregatorData unit :=
  modify (fun d =>
    let rest := delete id (aggregators d) in
    if decide (id ∈ new_aggregators d)
    then mkAggregatorData (new_aggregators d ∖ {[id]}) (destroyed_aggregators d) rest
    else mkAggregatorData (new_aggregators d) ({[id]} ∪ destroyed_aggregators d) rest).

(** The loop over the aggregators of [into_change_set], in the order of their [BTreeMap]. *)
Fixpoint collect_changes (l : list (AggregatorID * Aggregator))
    (changes : gmap AggregatorID AggregatorChange) :
    delta_result (gmap AggregatorID AggregatorChange) :=
  match l with
  | [] => Ok changes
  | (id, a) :: l => let? c := into_change a in collect_changes l (<[id := c]> changes)
  end.

Definition into_change_set (d : AggregatorData) : delta_result (gmap AggregatorID AggregatorChange) :=
  let? changes := collect_changes (map_to_list (aggregators d)) ∅ in
  Ok (set_fold (fun id m => <[id := Delete]> m) changes (destroyed_aggregators d)).

(** The encoding of 128-bit integers: sixteen bytes, the lowest first. *)
#[refine] Definition bcs_le : BcsU128 := {|
  bcs_to_bytes v := rev (to_be 16 v);
  bcs_from_bytes b := if (length b =? 16)%nat then Some (be_to_Z (rev b)) else None;
|}.
Proof.
  - intros v [? ?]. rewrite length_rev, length_to_be. cbn [Nat.eqb]. rewrite rev_involutive, be_to_Z_to_be.
    f_equal. apply Z.mod_small. by split.
  - intros b v E. destruct (length b =? 16)%nat eqn:El; [| done]. apply Nat.eqb_eq in El. injection E as <-.
    pose proof (be_to_Z_bound (rev b)) as Hb. unfold len in Hb. by rewrite length_rev, El in Hb.
Defined.

(** ** Operations on checked integers *)

(** The same value, or an error on both sides (maybe with another status). *)
Definition agree {A} (r r' : delta_result A) : Prop :=
  match r, r' with
  | Ok a, Ok b => a = b
  | Err _, Err _ => True
  | _, _ => False
  end.

Lemma addition_spec base value limit :
  0 <= base -> 0 <= value -> is_u128 limit ->
  addition base value limit =
    if base + value <=? limit then Ok (base + value) else Err EADD_OVERFLOW.
Proof.
  intros Hb Hv [_ Hl]. unfold addition, checked_sub, checked_add. cbn [result_bind].
  repeat (case_if; cbn [result_bind]; b2p); try done; lia.
Qed.

Lemma subtraction_spec base value :
  subtraction base value = if value <=? base then Ok (base - value) else Err ESUB_UNDERFLOW.
Proof. unfold subtraction, checked_sub. repeat case_if; b2p; done || lia. Qed.

(** ** What a delta means *)

Definition signed_update (u : DeltaUpdate) : Z :=
  match u with Plus v => v | Minus v => - v end.

(** The update is one of the values seen, so the history bounds it. *)
Record wf_delta (d : DeltaOp) : Prop := {
  wd_limit : is_u128 (limit d);
  wd_max : 0 <= max_positive d;
  wd_min : 0 <= min_negative d;
  wd_update : - min_negative d <= signed_update (update d) <= max_positive d;
  wd_value : match update d with Plus v | Minus v => 0 <= v end;
}.

(** The bases from which no value seen is out of bounds. *)
Definition accepts (d : DeltaOp) (base : Z) : bool :=
  (base + max_positive d <=? limit d) && (min_negative d <=? base).

Lemma apply_to_spec d base :
  wf_delta d -> 0 <= base ->
  agree (apply_to d base)
    (if accepts d base then Ok (base + signed_update (update d)) else Err EADD_OVERFLOW).
Proof.
  intros [Hl Hx Hn Hu Hv] Hb. unfold apply_to, accepts.
  rewrite addition_spec, subtraction_spec by done.
  case_if; b2p; cbn [result_bind andb]; [| done].
  case_if; b2p; cbn [result_bind]; [| done].
  destruct (update d) as [v | v]; cbn [signed_update] in *;
    rewrite ?addition_spec, ?subtraction_spec by done; case_if; b2p; cbn; lia.
Qed.

(** A merge succeeds with the composition, or no base is accepted by both in turn. *)
Definition merged (self prev : DeltaOp) (r : delta_result DeltaOp) : Prop :=
  match r with
  | Ok d =>
      wf_delta d /\ limit d = limit self /\
      signed_update (update d) = signed_update (update prev) + signed_update (update self) /\
      forall base, accepts d base = accepts prev base && accepts self (base + signed_update (update prev))
  | Err _ =>
      forall base, accepts prev base = true ->
      accepts self (base + signed_update (update prev)) = false
  | Panic => False
  end.

Lemma update_different_sign_spec a b :
  0 <= a -> 0 <= b ->
  exists u, update_different_sign a b = Ok u /\ signed_update u = a - b /\
    match u with Plus v | Minus v => 0 <= v end.
Proof.
  intros Ha Hb. unfold update_different_sign. rewrite !subtraction_spec.
  repeat (case_if; b2p; cbn [result_bind]); try lia; eexists; (split; [reflexivity |]); cbn; lia.
Qed.

Ltac bool_lia :=
  repeat match goal with
  | |- _ = _ => apply eq_true_iff_eq; rewrite ?andb_true_iff, ?Z.leb_le
  | |- context [andb _ _ = true] => rewrite !andb_true_iff, ?Z.leb_le
  | H : context [andb _ _ = true] |- _ => rewrite !andb_true_iff, ?Z.leb_le in H
  end; lia.

Lemma merge_onto_spec self prev :
  wf_delta self -> wf_delta prev -> limit self = limit prev -> merged self prev (merge_onto self prev).
Proof.
  intros [Hl Hx Hn Hu Hv] [Hl' Hx' Hn' Hu' Hv'] HL.
  unfold merge_onto, shifted_max_positive_by, shifted_min_negative_by.
  destruct (update prev) as [pv | pv] eqn:Ep, (update self) as [sv | sv] eqn:Es;
    cbn [signed_update] in *;
    rewrite ?addition_spec, ?subtraction_spec by (done || lia).
  all: repeat (case_if; b2p; cbn [result_bind unwrap_or]).
  all: try match goal with
    | |- context [update_different_sign ?a ?b] =>
        destruct (update_different_sign_spec a b) as (u & -> & Hsu & Hnu); [lia .. |]; cbn [result_bind]
    end.
  all: unfold merged, accepts; rewrite ?Ep, ?Es; cbn [signed_update].
  all: try (split; [constructor; cbn [limit max_positive min_negative update signed_update]; (assumption || lia) |]).
  all: cbn [limit max_positive min_negative update signed_update]; try split_and!; try done; try lia.
  all: intros base; try intros Hacc.
  all: try bool_lia.
Qed.

Lemma apply_to_ok d base x :
  wf_delta d -> 0 <= base -> apply_to d base = Ok x ->
  accepts d base = true /\ x = base + signed_update (update d).
Proof.
  intros Hd Hb E. pose proof (apply_to_spec d base Hd Hb) as H. rewrite E in H.
  destruct (accepts d base); cbn in H; [by split | done].
Qed.

(** The sequential application of two deltas, in terms of what they accept. *)
Lemma apply_seq_spec self prev base :
  wf_delta self -> wf_delta prev -> 0 <= base ->
  agree (let? x := apply_to prev base in apply_to self x)
    (if accepts prev base && accepts self (base + signed_update (update prev))
     then Ok (base + signed_update (update prev) + signed_update (update self))
     else Err EADD_OVERFLOW).
Proof.
  intros Hs Hp Hb. pose proof (apply_to_spec prev base Hp Hb) as H1.
  destruct (apply_to prev base) as [x | e |] eqn:E1; cbn [result_bind].
  - destruct (apply_to_ok _ _ _ Hp Hb E1) as [Ha ->]. rewrite Ha. cbn [andb].
    apply apply_to_spec; [done |].
    unfold accepts in Ha. b2p. destruct Hp. lia.
  - destruct (accepts prev base); done.
  - by destruct (accepts prev base).
Qed.

Lemma agree_trans {A} (r r' r'' : delta_result A) : agree r r' -> agree r'' r' -> agree r r''.
Proof. destruct r, r', r''; cbn; try done. congruence. Qed.

(** ** Aggregators in a delta state *)

Definition delta_sign (a : Aggregator) : Z :=
  match a_state a with NegativeDelta => - a_value a | _ => a_value a end.

Record delta_inv (limit : Z) (a : Aggregator) (h : History) : Prop := {
  di_state : a_state a <> Data;
  di_limit : a_limit a = limit;
  di_history : a_history a = Some h;
  di_value : 0 <= a_value a;
  di_max : 0 <= h_max_positive h;
  di_min : 0 <= h_min_negative h;
  di_range : - h_min_negative h <= delta_sign a <= h_max_positive h;
}.

(** A call of [add] or [sub]; the direct effect on a known value. *)
Inductive AggregatorOp : Set := Add (value : Z) | Sub (value : Z).

Definition run_op (op : AggregatorOp) : M DeltaError Aggregator unit :=
  match op with Add v => aggregator_add v | Sub v => aggregator_sub v end.

Fixpoint run_ops (ops : list AggregatorOp) : M DeltaError Aggregator unit :=
  match ops with
  | [] => ret tt
  | op :: ops => run_op op ;;; run_ops ops
  end.

Definition op_delta (op : AggregatorOp) : Z := match op with Add v => v | Sub v => - v end.
Definition op_ok (op : AggregatorOp) : Prop := match op with Add v | Sub v => is_u128 v end.

(** The bases for which nothing seen so far is out of bounds. *)
Definition in_bounds (limit : Z) (h : History) (base : Z) : Prop :=
  base + h_max_positive h <= limit /\ h_min_negative h <= base.

(** One operation in a delta state: it moves the delta and extends the history by it, or it is
    out of bounds from every base. *)
Lemma run_op_delta limit op a h :
  is_u128 limit -> op_ok op -> delta_inv limit a h ->
  match run_op op a with
  | (Ok _, a') => exists h', delta_inv limit a' h' /\ delta_sign a' = delta_sign a + op_delta op /\
      forall base, in_bounds limit h' base <->
        in_bounds limit h base /\ 0 <= base + delta_sign a' <= limit
  | (Err _, _) => forall base, in_bounds limit h base ->
      ~ (0 <= base + delta_sign a + op_delta op <= limit)
  | (Panic, _) => False
  end.
Proof.
  intros Hl Ho [Hst HL Hh Hv Hx Hn Hr]. destruct a as [v st l h0]. cbn in *. subst l h0.
  unfold delta_sign in Hr. cbn in Hr.
  destruct op as [x | x]; cbn in Ho; destruct Ho as [Hx0 Hx1];
    unfold run_op, aggregator_add, aggregator_sub, record_value, bind, get, lift, modify, set_value;
    cbn [a_state a_value a_limit a_history]; destruct st; try done;
    rewrite ?addition_spec, ?subtraction_spec by done;
    repeat (case_if; b2p; cbn [a_state a_value a_limit a_history]).
  all: unfold delta_sign, in_bounds, record_positive, record_negative; cbn [a_state a_value op_delta]; try lia.
  all: eexists; split; [constructor; [discriminate | reflexivity | reflexivity | ..] |];
    unfold delta_sign; cbn [a_state a_value h_max_positive h_min_negative]; lia || (split; [lia | intros base; lia]).
Qed.

Definition known (limit v : Z) : Aggregator := mkAggregator v Data limit None.

(** One operation on a known value: the value moves if it stays in bounds. *)
Lemma run_op_known limit op v :
  is_u128 limit -> op_ok op -> 0 <= v <= limit ->
  exists e, run_op op (known limit v) =
    if (0 <=? v + op_delta op) && (v + op_delta op <=? limit)
    then (Ok tt, known limit (v + op_delta op)) else (Err e, known limit v).
Proof.
  intros Hl Ho Hv. destruct op as [x | x]; cbn in Ho; destruct Ho as [Hx _];
    unfold run_op, aggregator_add, aggregator_sub, bind, get, lift, modify, set_value, known;
    cbn [a_state a_value a_limit a_history op_delta];
    rewrite ?addition_spec, ?subtraction_spec by (done || lia); eexists.
  all: destruct (_ && _) eqn:?; [| apply andb_false_iff in Heqb as [? | ?]];
    case_if; b2p; try reflexivity; lia.
Qed.

(** A sequence of operations, in a delta state and on the value it would have from a base. *)
Lemma run_ops_delta limit ops a h :
  is_u128 limit -> Forall op_ok ops -> delta_inv limit a h ->
  match run_ops ops a with
  | (Ok _, a') => exists h', delta_inv limit a' h' /\
      forall base, (in_bounds limit h' base -> in_bounds limit h base) /\
        (in_bounds limit h base ->
         match run_ops ops (known limit (base + delta_sign a)) with
         | (Ok _, b) => b = known limit (base + delta_sign a') /\ in_bounds limit h' base
         | (Err _, _) => ~ in_bounds limit h' base
         | (Panic, _) => False
         end)
  | (Err _, _) => forall base, in_bounds limit h base ->
      exists e, (run_ops ops (known limit (base + delta_sign a))).1 = Err e
  | (Panic, _) => False
  end.
Proof.
  intros Hl Hops. revert a h. induction Hops as [| op ops Ho _ IH]; intros a h Ha.
  { exists h. split; [done |]. intros base. split; [done |]. by split. }
  pose proof (run_op_delta limit op a h Hl Ho Ha) as Hop. cbn [run_ops]. unfold bind.
  assert (Hbase : forall base, in_bounds limit h base -> 0 <= base + delta_sign a <= limit).
  { intros base [? ?]. destruct Ha. lia. }
  destruct (run_op op a) as [[u | e |] a1]; [| | done].
  - destruct Hop as (h1 & Ha1 & Hs & Hb). specialize (IH a1 h1 Ha1).
    destruct (run_ops ops a1) as [[u' | e |] a']; [| | done].
    + destruct IH as (h' & Ha' & IH). exists h'. split; [done |]. intros base.
      destruct (IH base) as [IH1 IH2]. split; [intros ?; by apply Hb, IH1 |]. intros Hi.
      destruct (run_op_known limit op _ Hl Ho (Hbase _ Hi)) as [e ->].
      rewrite <- Z.add_assoc, <- Hs. case_if.
      * apply IH2, Hb. by split.
      * intros Hi'. apply IH1, Hb in Hi' as [_ ?].
        apply andb_false_iff in Heqb as [? | ?]; b2p; lia.
    + intros base Hi. destruct (run_op_known limit op _ Hl Ho (Hbase _ Hi)) as [e' ->].
      rewrite <- Z.add_assoc, <- Hs. case_if; [| by eexists]. apply IH, Hb. by split.
  - intros base Hi. destruct (run_op_known limit op _ Hl Ho (Hbase _ Hi)) as [e' ->].
    specialize (Hop _ Hi). case_if; [| by eexists]. lia.
Qed.

(** What an aggregator in a delta state leaves in the change set, and what it reads. *)
Lemma delta_inv_change L a h base :
  is_u128 L -> delta_inv L a h -> 0 <= base ->
  exists d, into_change a = Ok (Merge d) /\ wf_delta d /\ limit d = L /\
    (read_and_materialize (Some (Some base)) a).1 = apply_to d base /\
    (accepts d base = true <-> in_bounds L h base) /\
    signed_update (update d) = delta_sign a.
Proof.
  intros Hl [Hst HL Hh Hv Hx Hn Hr] Hb. destruct a as [v st l h0]. cbn in *. subst l h0.
  unfold into_change, read_and_materialize, materialize_onto, apply_to, bind, get, lift, modify, ret, panic.
  cbn [a_state a_value a_limit a_history unwrap result_bind].
  destruct st; [done | |]; unfold delta_sign in *; cbn [a_state a_value] in *; eexists;
    (split; [reflexivity |]); unfold DeltaOp_new;
    cbn [limit max_positive min_negative update signed_update];
    (split; [constructor; cbn; (done || lia) |]); (split; [done |]).
  all: cbn [a_state a_value a_limit a_history unwrap];
    destruct (addition base (h_max_positive h) L); cbn [result_bind];
    try destruct (subtraction base (h_min_negative h)); cbn [result_bind];
    repeat match goal with
    | |- context [addition ?x ?y ?z] => destruct (addition x y z)
    | |- context [subtraction ?x ?y] => destruct (subtraction x y)
    end.
  all: split; [reflexivity |]; split; [| done]; unfold accepts, in_bounds; cbn; rewrite andb_true_iff; lia.
Qed.

(** ** Changes of successive sessions *)

(** What a change does to the stored value of an aggregator. *)
Definition apply_change (c : option AggregatorChange) (stored : option Z) : delta_result (option Z) :=
  match c with
  | None => Ok stored
  | Some (Write v) => Ok (Some v)
  | Some Delete => Ok None
  | Some (Merge d) =>
      match stored with
      | Some base => let? v := apply_to d base in Ok (Some v)
      | None => Err VM_EXTENSION_ERROR
      end
  end.

Definition wf_change (L : Z) (c : AggregatorChange) : Prop :=
  match c with Write v => is_u128 v | Merge d => wf_delta d /\ limit d = L | Delete => True end.

Lemma merge_agree self prev base :
  wf_delta self -> wf_delta prev -> limit self = limit prev -> 0 <= base ->
  match merge_onto self prev with
  | Ok d => agree (apply_to d base) (let? x := apply_to prev base in apply_to self x)
  | Err _ => exists e, (let? x := apply_to prev base in apply_to self x) = Err e
  | Panic => False
  end.
Proof.
  intros Hs Hp HL Hb. pose proof (merge_onto_spec self prev Hs Hp HL) as H.
  pose proof (apply_seq_spec self prev base Hs Hp Hb) as Hseq.
  destruct (merge_onto self prev) as [d | e |]; cbn [merged] in H; [| | done].
  - destruct H as (Hd & _ & Hu & Ha). eapply agree_trans; [| exact Hseq].
    pose proof (apply_to_spec d base Hd Hb) as Happ. rewrite Ha, Hu, Z.add_assoc in Happ. exact Happ.
  - specialize (H base). destruct (accepts prev base); cbn [andb] in Hseq;
      [rewrite (H eq_refl) in Hseq |];
      destruct (let? x := apply_to prev base in apply_to self x); try done; by eexists.
Qed.

(** Squashing a later change onto an earlier one. *)
Lemma squash_change_spec L c1 c2 stored v :
  wf_change L c1 -> wf_change L c2 -> c1 <> Delete -> (forall b, stored = Some b -> 0 <= b) ->
  (let? s := apply_change (Some c1) stored in apply_change (Some c2) s) = Ok v ->
  exists c, squash_change c1 c2 = Ok c /\ wf_change L c /\ apply_change (Some c) stored = Ok v.
Proof.
  intros H1 H2 Hd Hb E.
  destruct c1 as [v1 | d1 |], c2 as [v2 | d2 |]; try done; cbn [squash_change apply_change result_bind] in *.
  - by eexists.
  - destruct H2 as [H2 HL]. pose proof (apply_to_spec d2 v1 H2 (proj1 H1)) as Ha.
    destruct (apply_to d2 v1) as [x | |] eqn:Ex; [| done | done]. cbn [result_bind] in *.
    eexists. split; [reflexivity |]. split; [| done].
    apply apply_to_ok in Ex as [Hacc ->]; [| done | apply H1].
    unfold accepts in Hacc. b2p. destruct H2, H1. split; [lia |].
    destruct wd_limit0. lia.
  - by eexists.
  - eexists. split; [reflexivity |]. split; [done |]. cbn.
    destruct stored; [| done]. by destruct (apply_to d1 z).
  - destruct H1 as [H1 HL1], H2 as [H2 HL2].
    pose proof (merge_onto_spec d2 d1 H2 H1 ltac:(congruence)) as Hm.
    destruct stored as [b |]; [| done].
    pose proof (merge_agree d2 d1 b H2 H1 ltac:(congruence) (Hb b eq_refl)) as Ha.
    destruct (merge_onto d2 d1) as [d | e |]; [| | done]; cbn [result_bind].
    + eexists. split; [reflexivity |]. destruct Hm as (Hwf & Hlim & _).
      split; [split; [done | congruence] |]. cbn.
      destruct (apply_to d1 b) as [x | |]; cbn [result_bind] in *; [| done | done].
      destruct (apply_to d b), (apply_to d2 x); try done. cbn in *. by rewrite Ha.
    + destruct Ha as [e' Ha]. destruct (apply_to d1 b) as [x | |]; cbn [result_bind] in *; [| done | done].
      by rewrite Ha in E.
  - eexists. split; [reflexivity |]. split; [done |]. cbn.
    destruct stored; [| done]. by destruct (apply_to d1 z).
Qed.

(** A step of the loop of [squash] changes one entry. *)
Lemma squash_cons id c other m c' :
  match m !! id with None => Ok c | Some c0 => squash_change c0 c end = Ok c' ->
  squash ((id, c) :: other) m = squash other (<[id := c']> m).
Proof.
  intros E. cbn [squash]. unfold bind, get, lift, modify. destruct (m !! id); [| by injection E as ->].
  by rewrite E.
Qed.

Lemma squash_spec (Ls : AggregatorID -> Z) other m (stored after : AggregatorID -> option Z) :
  NoDup other.*1 ->
  (forall id c, m !! id = Some c -> wf_change (Ls id) c) ->
  (forall id c, (id, c) ∈ other -> wf_change (Ls id) c) ->
  (forall id b, stored id = Some b -> 0 <= b) ->
  (forall id c, (id, c) ∈ other ->
     m !! id <> Some Delete /\
     (let? s := apply_change (m !! id) (stored id) in apply_change (Some c) s) = Ok (after id)) ->
  exists m', squash other m = (Ok tt, m') /\
    (forall id, id ∈ other.*1 -> apply_change (m' !! id) (stored id) = Ok (after id)) /\
    (forall id, id ∉ other.*1 -> m' !! id = m !! id).
Proof.
  revert m. induction other as [| [id c] other IH]; intros m Hnd Hm Ho Hst Hrun.
  { exists m. split; [done |]. split; [intros id Hid; by apply elem_of_nil in Hid | done]. }
  cbn [fmap list_fmap fst] in Hnd. apply list.NoDup_cons in Hnd as [Hid Hnd].
  destruct (Hrun id c) as [Hdel Hr]; [by left |].
  assert (exists c', match m !! id with None => Ok c | Some c0 => squash_change c0 c end = Ok c' /\
      wf_change (Ls id) c' /\ apply_change (Some c') (stored id) = Ok (after id)) as (c' & E & Hwf & Hap).
  { destruct (m !! id) as [c0 |] eqn:Em.
    - eapply squash_change_spec; eauto; [apply Ho; by left | congruence].
    - exists c. split; [done |]. split; [apply Ho; by left | done]. }
  rewrite (squash_cons _ _ _ _ _ E).
  assert (Hne : forall id' c0, (id', c0) ∈ other -> id' <> id).
  { intros id' c0 Hin ->. apply Hid. apply list_elem_of_fmap. by exists (id, c0). }
  destruct (IH (<[id := c']> m)) as (m' & Es & Hin & Hout); [done | ..].
  - intros id' c0 [[<- <-] | [_ ?]]%lookup_insert_Some; eauto.
  - intros id' c0 ?. apply Ho. by right.
  - done.
  - intros id' c0 Hc0. rewrite lookup_insert_ne by (symmetry; eauto). apply Hrun. by right.
  - exists m'. split; [done |]. split.
    + intros id' [-> | Hid']%elem_of_cons; [| by apply Hin].
      rewrite Hout by done. by rewrite lookup_insert_eq.
    + intros id' [Hid1 Hid2]%not_elem_of_cons. rewrite Hout by done. by rewrite lookup_insert_ne.
Qed.

(** ** Theorems *)

(** Merging a delta onto the previous one is composing them: a merge that succeeds gives a
    delta which from every base does what applying the two in turn does (the same value, or an
    overflow or underflow on both sides), and when a merge fails there is no base from which the
    two could be applied in turn. It never panics. *)
Theorem merge_onto_composes (self previous_delta : DeltaOp) (base : Z) :
  wf_delta self -> wf_delta previous_delta -> limit self = limit previous_delta -> is_u128 base ->
  match merge_onto self previous_delta with
  | Ok d => wf_delta d /\
      agree (apply_to d base) (let? x := apply_to previous_delta base in apply_to self x)
  | Err _ => exists e, (let? x := apply_to previous_delta base in apply_to self x) = Err e
  | Panic => False
  end.
Proof.
  intros Hs Hp HL [Hb _]. pose proof (merge_onto_spec _ _ Hs Hp HL) as Hm.
  pose proof (merge_agree _ _ base Hs Hp HL Hb) as Ha.
  destruct (merge_onto self previous_delta); [| done ..]. by destruct Hm.
Qed.

(** +3 after having been at +99, merged onto +2 and onto -2, with a limit of 100. *)
Lemma merge_onto_composes_witness :
  merge_onto (mkDeltaOp 99 0 100 (Plus 3)) (mkDeltaOp 2 0 100 (Plus 2)) = Err EADD_OVERFLOW /\
  (exists e, (let? x := apply_to (mkDeltaOp 2 0 100 (Plus 2)) 0 in
              apply_to (mkDeltaOp 99 0 100 (Plus 3)) x) = Err e) /\
  merge_onto (mkDeltaOp 99 0 100 (Plus 3)) (mkDeltaOp 0 2 100 (Minus 2)) =
    Ok (mkDeltaOp 97 2 100 (Plus 1)).
Proof.
  split; [reflexivity |]. split; [| reflexivity].
  exact (merge_onto_composes (mkDeltaOp 99 0 100 (Plus 3)) (mkDeltaOp 2 0 100 (Plus 2)) 0
    ltac:(constructor; cbn; unfold is_word; lia) ltac:(constructor; cbn; unfold is_word; lia) eq_refl ltac:(split; lia)).
Defined.

(** C38. An aggregator whose value is not known computes the right delta: the operations of a
    transaction run in the delta state, whose history is checked when the value is found in
    storage, give the value that running them on the stored value gives, and they fail (at once
    or when the delta is applied) exactly when one of them takes that value out of the bounds.
    Reading the aggregator and applying its delta later give the same. *)
Theorem aggregator_delta_sound (L : Z) (ops : list AggregatorOp) (base : Z) :
  is_u128 L -> Forall op_ok ops -> 0 <= base <= L ->
  let direct :=
    match run_ops ops (known L base) with
    | (Ok _, a) => Ok (a_value a) | (Err e, _) => Err e | (Panic, _) => Panic
    end in
  match run_ops ops (Aggregator_delta L) with
  | (Ok _, a) => exists d, into_change a = Ok (Merge d) /\ wf_delta d /\
      (read_and_materialize (Some (Some base)) a).1 = apply_to d base /\
      agree (apply_to d base) direct
  | (Err _, _) => exists e, direct = Err e
  | (Panic, _) => False
  end.
Proof.
  intros Hl Hops [Hb HbL] direct.
  assert (Ha : delta_inv L (Aggregator_delta L) History_new) by by constructor; cbn; try lia.
  assert (Hi : in_bounds L History_new base) by by split; cbn; lia.
  pose proof (run_ops_delta L ops _ _ Hl Hops Ha) as H. revert direct. cbn zeta.
  destruct (run_ops ops (Aggregator_delta L)) as [[u | e |] a]; [| | done].
  - destruct H as (h' & Ha' & H). destruct (H base) as [_ H2]. specialize (H2 Hi).
    rewrite Z.add_0_r in H2.
    destruct (delta_inv_change L a h' base Hl Ha' Hb) as (d & Ec & Hd & HL & Er & Hacc & Hs).
    exists d. split; [done |]. split; [done |]. split; [done |].
    pose proof (apply_to_spec d base Hd Hb) as Happ. rewrite Hs in Happ.
    destruct (run_ops ops (known L base)) as [[u' | e |] b]; [| | done].
    + destruct H2 as [-> Hb']. by rewrite (proj2 Hacc Hb') in Happ.
    + destruct (accepts d base); [destruct H2; by apply Hacc | done].
  - destruct (H base Hi) as [e' He]. rewrite Z.add_0_r in He.
    destruct (run_ops ops (known L base)) as [r b]. cbn in He. subst r. by eexists.
Qed.

Lemma aggregator_delta_sound_witness :
  exists d, into_change (run_ops [Add 40; Sub 50; Add 5] (Aggregator_delta 100)).2 = Ok (Merge d) /\
    apply_to d 20 = Ok 15 /\ apply_to d 70 = Err EADD_OVERFLOW /\ apply_to d 5 = Err ESUB_UNDERFLOW /\
    wf_delta d.
Proof.
  destruct (aggregator_delta_sound 100 [Add 40; Sub 50; Add 5] 20) as (d & E & Hd & _).
  - split; lia.
  - repeat apply Forall_cons_2; [split; lia .. | by apply Forall_nil_2].
  - lia.
  - exists d. split; [exact E |]. vm_compute in E. injection E as <-. by split_and!.
Defined.

(** Squashing the aggregator changes of a session onto those of the sessions before it is
    doing one after the other: whenever applying the earlier change and then the later one of
    every aggregator to its stored value succeeds, the squash succeeds and applying the squashed
    change gives the same value; aggregators the later session did not touch keep their change. *)
Theorem squash_composes (Ls : AggregatorID -> Z) (other : list (AggregatorID * AggregatorChange))
    (changes : gmap AggregatorID AggregatorChange) (stored after : AggregatorID -> option Z) :
  NoDup other.*1 ->
  (forall id c, changes !! id = Some c -> wf_change (Ls id) c) ->
  (forall id c, (id, c) ∈ other -> wf_change (Ls id) c) ->
  (forall id b, stored id = Some b -> 0 <= b) ->
  (forall id c, (id, c) ∈ other ->
     changes !! id <> Some Delete /\
     (let? s := apply_change (changes !! id) (stored id) in apply_change (Some c) s) = Ok (after id)) ->
  exists squashed, squash other changes = (Ok tt, squashed) /\
    (forall id, id ∈ other.*1 -> apply_change (squashed !! id) (stored id) = Ok (after id)) /\
    (forall id, id ∉ other.*1 -> squashed !! id = changes !! id).
Proof. intros; eapply squash_spec; eauto. Qed.

Lemma squash_composes_witness :
  exists m, squash [((1, 1), Merge (mkDeltaOp 0 7 100 (Minus 7))); ((1, 2), Write 5)]
      {[(1, 1) := Merge (mkDeltaOp 9 0 100 (Plus 9))]} = (Ok tt, m) /\
    m !! (1, 1) = Some (Merge (mkDeltaOp 9 0 100 (Plus 2))) /\
    apply_change (m !! (1, 1)) (Some 50) = Ok (Some 52).
Proof.
  destruct (squash_composes (fun _ => 100)
      [((1, 1), Merge (mkDeltaOp 0 7 100 (Minus 7))); ((1, 2), Write 5)]
      {[(1, 1) := Merge (mkDeltaOp 9 0 100 (Plus 9))]} (fun _ => Some 50)
      (fun id => if decide (id = (1, 1)) then Some 52 else Some 5)) as (m & E & Hin & _).
  - apply (bool_decide_unpack (NoDup _)). by vm_compute.
  - intros id c [<- <-]%lookup_singleton_Some. split; [constructor; cbn; unfold is_word; lia | done].
  - intros id c [[= -> ->] | [[= -> ->] | ?%elem_of_nil]%elem_of_cons]%elem_of_cons;
      [split; [constructor; cbn; unfold is_word; lia | done] | by split | done].
  - intros id b [= <-]. lia.
  - intros id c [[= -> ->] | [[= -> ->] | ?%elem_of_nil]%elem_of_cons]%elem_of_cons;
      [split; [discriminate | reflexivity] .. | done].
  - exists m. split; [exact E |]. specialize (Hin (1, 1) ltac:(by left)).
    vm_compute in E. injection E as <-. by vm_compute.
Defined.
