(* ===== verification/WriteSets.v ===== *)
(** * Write sets and change sets

    The writes of a transaction (src/types/src/write_set.rs) and the change sets that hold
    writes and aggregator deltas (src/aptos-move/aptos-aggregator/src/transaction.rs). The
    sessions of a transaction each produce a change set, and squashing them must be the same as
    applying them in turn. The sorted maps of the source are finite maps, iterated in the order
    of [map_to_list]: a loop over one map handles each key once and independently. *)

From stdpp Require Import gmap.
From S2P Require Import Prelude Word Delta.
Local Open Scope Z_scope.

Inductive WriteOp : Set := Creation (data : list byte) | Modification (data : list byte) | Deletion.

Inductive SquashError : Set :=
| CannotSquash
| ValueDeleted
| DecodeError
| SquashDelta (e : DeltaError)
| CheckFailed.

Abbreviation squash_result := (result SquashError).

(** The match on an occupied entry; [Ok None] removes the entry. *)
Definition squash_op (r op : WriteOp) : squash_result (option WriteOp) :=
  match r, op with
  | (Modification _ | Creation _), Creation _ | Deletion, (Deletion | Modification _) => Err CannotSquash
  | Modification _, Modification data => Ok (Some (Modification data))
  | Creation _, Modification data => Ok (Some (Creation data))
  | Modification _, Deletion => Ok (Some Deletion)
  | Deletion, Creation data => Ok (Some (Modification data))
  | Creation _, Deletion => Ok None
  end.

Definition delta_to_squash {A} (r : delta_result A) : squash_result A :=
  match r with Ok a => Ok a | Err e => Err (SquashDelta e) | Panic => Panic end.

(** [bcs::from_bytes(data)?] *)
Definition decode_value {BCS : BcsU128} (data : list byte) : squash_result Z :=
  match bcs_from_bytes data with Some v => Ok v | None => Err DecodeError end.

Section sets.
Context {BCS : BcsU128} {K : Type} `{Countable K} {Event : Type}.

Definition put {A} (key : K) (o : option A) (m : gmap K A) : gmap K A :=
  match o with Some a => <[key := a]> m | None => delete key m end.

(** [WriteSetMut::squash] *)
Fixpoint squash_writes (other : list (K * WriteOp)) (self : gmap K WriteOp) :
    squash_result (gmap K WriteOp) :=
  match other with
  | [] => Ok self
  | (key, op) :: other =>
      let? self :=
        match self !! key with
        | Some r => let? o := squash_op r op in Ok (put key o self)
        | None => Ok (<[key := op]> self)
        end in
      squash_writes other self
  end.

Record ChangeSetExt : Type := mkChangeSetExt {
  cs_deltas : gmap K DeltaOp;
  cs_writes : gmap K WriteOp;
  cs_events : list Event;
}.

(** [ChangeSet::new] runs a checker on the writes and events. *)
Context (check_change_set : gmap K WriteOp -> list Event -> bool).

Definition ChangeSet_new (deltas : gmap K DeltaOp) (writes : gmap K WriteOp) (events : list Event) :
    squash_result ChangeSetExt :=
  if check_change_set writes events then Ok (mkChangeSetExt deltas writes events) else Err CheckFailed.

Fixpoint squash_change_loop (other : list (K * WriteOp)) (deltas : gmap K DeltaOp)
    (writes : gmap K WriteOp) : squash_result (gmap K DeltaOp * gmap K WriteOp) :=
  match other with
  | [] => Ok (deltas, writes)
  | (key, op) :: other =>
      let? ' (deltas, writes) :=
        match writes !! key with
        | Some r => let? o := squash_op r op in Ok (deltas, put key o writes)
        | None => Ok (delete key deltas, <[key := op]> writes)
        end in
      squash_change_loop other deltas writes
  end.

Definition squash_change_set (self : ChangeSetExt) (other_writes : gmap K WriteOp)
    (other_events : list Event) : squash_result ChangeSetExt :=
  let? ' (deltas, writes) :=
    squash_change_loop (map_to_list other_writes) (cs_deltas self) (cs_writes self) in
  ChangeSet_new deltas writes (cs_events self ++ other_events).

(** One key of [squash_delta_change_set]: the write and the delta of the key after it. *)
Definition squash_delta_key (op : DeltaOp) (write : option WriteOp) (delta : option DeltaOp) :
    squash_result (option WriteOp * option DeltaOp) :=
  match write with
  | Some (Creation data) =>
      let? val := decode_value data in
      let? v := delta_to_squash (apply_to op val) in
      Ok (Some (Creation (bcs_to_bytes v)), delta)
  | Some (Modification data) =>
      let? val := decode_value data in
      let? v := delta_to_squash (apply_to op val) in
      Ok (Some (Modification (bcs_to_bytes v)), delta)
  | Some Deletion => Err ValueDeleted
  | None =>
      match delta with
      | Some entry => let? d := delta_to_squash (merge_onto op entry) in Ok (None, Some d)
      | None => Ok (None, Some op)
      end
  end.

Fixpoint squash_delta_loop (other : list (K * DeltaOp)) (deltas : gmap K DeltaOp)
    (writes : gmap K WriteOp) : squash_result (gmap K DeltaOp * gmap K WriteOp) :=
  match other with
  | [] => Ok (deltas, writes)
  | (key, op) :: other =>
      let? ' (w, d) := squash_delta_key op (writes !! key) (deltas !! key) in
      squash_delta_loop other (put key d deltas) (put key w writes)
  end.

Definition squash_delta_change_set (self : ChangeSetExt) (other : gmap K DeltaOp) :
    squash_result ChangeSetExt :=
  let? ' (deltas, writes) := squash_delta_loop (map_to_list other) (cs_deltas self) (cs_writes self) in
  ChangeSet_new deltas writes (cs_events self).

Definition squash_ext (self other : ChangeSetExt) : squash_result ChangeSetExt :=
  let? self := squash_change_set self (cs_writes other) (cs_events other) in
  squash_delta_change_set self (cs_deltas other).

(** ** Loops that handle each key once

    Every loop above updates the write and the delta of one key per step. *)

Definition view (key : K) (deltas : gmap K DeltaOp) (writes : gmap K WriteOp) :
    option WriteOp * option DeltaOp := (writes !! key, deltas !! key).

Lemma lookup_put {A} key (o : option A) m key' :
  put key o m !! key' = if decide (key' = key) then o else m !! key'.
Proof.
  unfold put. case_decide as Hk; destruct o; subst;
    by rewrite ?lookup_insert_eq, ?lookup_delete_eq, ?lookup_insert_ne, ?lookup_delete_ne.
Qed.

(** One key of [squash_change_set]. *)
Definition squash_change_key (op : WriteOp) (write : option WriteOp) (delta : option DeltaOp) :
    squash_result (option WriteOp * option DeltaOp) :=
  match write with
  | Some r => let? o := squash_op r op in Ok (o, delta)
  | None => Ok (Some op, None)
  end.

Lemma squash_change_loop_step key op other deltas writes :
  squash_change_loop ((key, op) :: other) deltas writes =
    let? ' (w, d) := squash_change_key op (writes !! key) (deltas !! key) in
    squash_change_loop other (put key d deltas) (put key w writes).
Proof.
  cbn [squash_change_loop]. unfold squash_change_key. destruct (writes !! key) as [r |]; [| done].
  destruct (squash_op r op); [| done ..]. cbn [result_bind]. f_equal.
  apply map_eq. intros k. rewrite lookup_put. case_decide as Hk; by subst.
Qed.

(** A loop whose step runs [step] on the key, and stops on its errors. *)
Lemma keyed_loop {X} (step : X -> option WriteOp -> option DeltaOp -> squash_result (option WriteOp * option DeltaOp))
    (loop : list (K * X) -> gmap K DeltaOp -> gmap K WriteOp -> squash_result (gmap K DeltaOp * gmap K WriteOp))
    (target : K -> option WriteOp * option DeltaOp) (m : gmap K X) deltas writes :
  (forall deltas writes, loop [] deltas writes = Ok (deltas, writes)) ->
  (forall key x other deltas writes, loop ((key, x) :: other) deltas writes =
     let? ' (w, d) := step x (writes !! key) (deltas !! key) in
     loop other (put key d deltas) (put key w writes)) ->
  (forall key x, m !! key = Some x -> step x (writes !! key) (deltas !! key) = Ok (target key)) ->
  exists deltas' writes', loop (map_to_list m) deltas writes = Ok (deltas', writes') /\
    forall key, view key deltas' writes' =
      match m !! key with Some _ => target key | None => view key deltas writes end.
Proof.
  intros Hnil Hcons Htarget.
  assert (Hgen : forall l deltas writes, NoDup l.*1 ->
    (forall key x, (key, x) ∈ l -> step x (writes !! key) (deltas !! key) = Ok (target key)) ->
    exists deltas' writes', loop l deltas writes = Ok (deltas', writes') /\
      forall key, view key deltas' writes' =
        if decide (key ∈ l.*1) then target key else view key deltas writes).
  { clear deltas writes Htarget. induction l as [| [k x] l IH]; intros deltas writes Hnd Hst.
    - exists deltas, writes. split; [apply Hnil |]. intros key. by rewrite decide_False by apply not_elem_of_nil.
    - cbn [fmap list_fmap fst] in Hnd. apply list.NoDup_cons in Hnd as [Hk Hnd].
      rewrite Hcons, (Hst k x) by (by left). destruct (target k) as [w d] eqn:Et. cbn [result_bind].
      destruct (IH (put k d deltas) (put k w writes) Hnd) as (ds & ws & E & Hv).
      + intros key y Hin. rewrite !lookup_put.
        assert (Hne : key <> k) by (intros ->; apply Hk, list_elem_of_fmap; by exists (k, y)).
        rewrite !decide_False by done. apply Hst. by right.
      + exists ds, ws. split; [done |]. intros key. rewrite Hv. cbn [fmap list_fmap fst].
        unfold view. rewrite !lookup_put.
        destruct (decide (key = k)) as [-> | Hne].
        * rewrite decide_False by done. rewrite decide_True by (by left). done.
        * destruct (decide (key ∈ l.*1)); [by rewrite decide_True by (by right) |].
          by rewrite decide_False by (by rewrite not_elem_of_cons). }
  destruct (Hgen (map_to_list m) deltas writes) as (ds & ws & E & Hv).
  - apply NoDup_fst_map_to_list.
  - intros key x Hin. apply elem_of_map_to_list in Hin. eauto.
  - exists ds, ws. split; [done |]. intros key. rewrite Hv.
    destruct (m !! key) as [x |] eqn:Em.
    + rewrite decide_True; [done |]. apply list_elem_of_fmap. exists (key, x).
      split; [done |]. by apply elem_of_map_to_list.
    + rewrite decide_False; [done |]. rewrite list_elem_of_fmap. intros ([k x] & -> & Hin).
      apply elem_of_map_to_list in Hin. cbn in Em. congruence.
Qed.
End sets.

(** ** What a change set does to a state *)

Section semantics.
Context {BCS : BcsU128} {K : Type} `{Countable K} {Event : Type}.
Context (check_change_set : gmap K WriteOp -> list Event -> bool).

(** A write applies to the value a key has: a creation to none, the others to some. *)
Definition apply_write (w : WriteOp) (current : option (list byte)) : option (option (list byte)) :=
  match w, current with
  | Creation data, None => Some (Some data)
  | Modification data, Some _ => Some (Some data)
  | Deletion, Some _ => Some None
  | _, _ => None
  end.

Definition apply_delta (d : DeltaOp) (current : option (list byte)) : option (option (list byte)) :=
  match current with
  | None => None
  | Some bytes =>
      match bcs_from_bytes bytes with
      | None => None
      | Some v => match apply_to d v with Ok r => Some (Some (bcs_to_bytes r)) | _ => None end
      end
  end.

Definition apply_key (wd : option WriteOp * option DeltaOp) (current : option (list byte)) :
    option (option (list byte)) :=
  match wd with
  | (Some w, _) => apply_write w current
  | (None, Some d) => apply_delta d current
  | (None, None) => Some current
  end.

Definition cs_key (c : ChangeSetExt (K := K) (Event := Event)) (key : K) := view key (cs_deltas c) (cs_writes c).

(** A transaction does not both write a key and update it by a delta; the deltas of a key have
    one limit. *)
Definition wf_key (L : Z) (wd : option WriteOp * option DeltaOp) : Prop :=
  (wd.1 <> None -> wd.2 = None) /\ match wd.2 with Some d => wf_delta d /\ limit d = L | None => True end.

(** Squashing a write, then a delta, onto a key. *)
Lemma squash_write_key L wd w s s1 s2 :
  wf_key L wd -> apply_key wd s = Some s1 -> apply_write w s1 = Some s2 ->
  exists wd', squash_change_key w wd.1 wd.2 = Ok wd' /\ wf_key L wd' /\ apply_key wd' s = Some s2.
Proof.
  intros [Hd HL] E1 E2. destruct wd as [[r |] d]; cbn in *.
  - assert (d = None) as -> by (by apply Hd).
    destruct r as [b | b |], s; try done; cbn in *; injection E1 as <-;
      destruct w as [b' | b' |]; try done; cbn in *; injection E2 as <-; by eexists.
  - exists (Some w, None). split; [done |]. split; [done |]. cbn.
    destruct d as [d |]; cbn in E1; [| by injection E1 as ->].
    unfold apply_delta in E1. destruct s as [b |]; [| done]. destruct (bcs_from_bytes b); [| done].
    destruct (apply_to d z); [| done ..]. injection E1 as <-. by destruct w.
Qed.

Lemma squash_delta_key_ok L wd d s s1 s2 :
  wf_key L wd -> wf_delta d -> limit d = L ->
  apply_key wd s = Some s1 -> apply_delta d s1 = Some s2 ->
  exists wd', squash_delta_key d wd.1 wd.2 = Ok wd' /\ wf_key L wd' /\ apply_key wd' s = Some s2.
Proof.
  intros [Hd HL] Hwf HdL E1 E2. destruct wd as [[r |] d0]; cbn in *.
  - assert (d0 = None) as -> by (by apply Hd). unfold apply_delta, decode_value in *.
    destruct r as [b | b |], s; try done; cbn in *; injection E1 as <-;
      try done; destruct (bcs_from_bytes b); try done; cbn [result_bind];
      (destruct (apply_to d z) as [x | |]; [| done ..]); cbn; injection E2 as <-; by eexists.
  - destruct d0 as [d0 |]; [| injection E1 as ->; by exists (None, Some d)].
    destruct HL as [Hwf0 HL0]. unfold apply_delta in E1. cbn [apply_delta] in E1.
    destruct s as [b |]; [| done]. destruct (bcs_from_bytes b) as [v |] eqn:Ev; [| done].
    pose proof (bcs_range _ _ Ev) as [Hv _].
    pose proof (merge_agree d d0 v Hwf Hwf0 ltac:(congruence) Hv) as Hm.
    pose proof (merge_onto_spec d d0 Hwf Hwf0 ltac:(congruence)) as Hs.
    destruct (apply_to d0 v) as [x | |] eqn:Ex; [| done ..]. cbn [result_bind] in Hm.
    injection E1 as <-. unfold apply_delta in E2.
    rewrite bcs_roundtrip in E2; [| apply apply_to_ok in Ex as [Ha ->]; [| done ..];
      unfold accepts in Ha; b2p; destruct Hwf0 as [[_ ?] ? ? ? _]; split; lia].
    destruct (apply_to d x) as [y | |] eqn:Ey; [| done ..]. injection E2 as <-.
    destruct (merge_onto d d0) as [d' | |]; [| by destruct Hm | done]. cbn.
    destruct Hs as (Hd' & HL' & _). exists (None, Some d'). split; [done |].
    split; [split; [done | split; [done | cbn in *; congruence]] |]. cbn. rewrite Ev.
    destruct (apply_to d' v); [| done ..]. cbn in Hm. by subst.
Qed.

(** The loop over the writes, and the loop over the deltas. *)
Lemma squash_writes_phase (Ls : K -> Z) deltas writes (other : gmap K WriteOp) s s1 s2 :
  (forall key, wf_key (Ls key) (view key deltas writes)) ->
  (forall key, apply_key (view key deltas writes) (s key) = Some (s1 key)) ->
  (forall key w, other !! key = Some w -> apply_write w (s1 key) = Some (s2 key)) ->
  exists ds ws, squash_change_loop (map_to_list other) deltas writes = Ok (ds, ws) /\
    forall key, wf_key (Ls key) (view key ds ws) /\
      match other !! key with
      | Some _ => apply_key (view key ds ws) (s key) = Some (s2 key)
      | None => view key ds ws = view key deltas writes
      end.
Proof.
  intros Hwf Hs1 Hs2.
  set (target key := match other !! key with
    | Some w => match squash_change_key w (writes !! key) (deltas !! key) with Ok wd => wd | _ => (None, None) end
    | None => (None, None) end).
  assert (Ht : forall key w, other !! key = Some w ->
    squash_change_key w (writes !! key) (deltas !! key) = Ok (target key) /\
    wf_key (Ls key) (target key) /\ apply_key (target key) (s key) = Some (s2 key)).
  { intros key w Ew. destruct (squash_write_key _ _ _ _ _ _ (Hwf key) (Hs1 key) (Hs2 key w Ew))
      as (wd & Ek & Hwd). cbn in Ek. unfold target. by rewrite Ew, Ek. }
  destruct (keyed_loop squash_change_key squash_change_loop target other deltas writes)
    as (ds & ws & E & Hv); [done | apply squash_change_loop_step | by intros; eapply Ht |].
  exists ds, ws. split; [done |]. intros key. rewrite Hv.
  destruct (other !! key) as [w |] eqn:Ew; [by eapply Ht | by split].
Qed.

Lemma squash_deltas_phase (Ls : K -> Z) deltas writes (other : gmap K DeltaOp) s s1 s2 :
  (forall key, wf_key (Ls key) (view key deltas writes)) ->
  (forall key, apply_key (view key deltas writes) (s key) = Some (s1 key)) ->
  (forall key d, other !! key = Some d ->
     wf_delta d /\ limit d = Ls key /\ apply_delta d (s1 key) = Some (s2 key)) ->
  exists ds ws, squash_delta_loop (map_to_list other) deltas writes = Ok (ds, ws) /\
    forall key, wf_key (Ls key) (view key ds ws) /\
      match other !! key with
      | Some _ => apply_key (view key ds ws) (s key) = Some (s2 key)
      | None => view key ds ws = view key deltas writes
      end.
Proof.
  intros Hwf Hs1 Hs2.
  set (target key := match other !! key with
    | Some d => match squash_delta_key d (writes !! key) (deltas !! key) with Ok wd => wd | _ => (None, None) end
    | None => (None, None) end).
  assert (Ht : forall key d, other !! key = Some d ->
    squash_delta_key d (writes !! key) (deltas !! key) = Ok (target key) /\
    wf_key (Ls key) (target key) /\ apply_key (target key) (s key) = Some (s2 key)).
  { intros key d Ed. destruct (Hs2 key d Ed) as (Hd & HL & Ha).
    destruct (squash_delta_key_ok _ _ _ _ _ _ (Hwf key) Hd HL (Hs1 key) Ha) as (wd & Ek & Hwd).
    cbn in Ek. unfold target. by rewrite Ed, Ek. }
  destruct (keyed_loop squash_delta_key squash_delta_loop target other deltas writes)
    as (ds & ws & E & Hv); [done | done | by intros; eapply Ht |].
  exists ds, ws. split; [done |]. intros key. rewrite Hv.
  destruct (other !! key) as [d |] eqn:Ed; [by eapply Ht | by split].
Qed.

(** Squashing change sets is applying them in turn: if the change set of a session applies to
    a state and the one of the next session to the state it leaves, the squash of the two (when
    the checker accepts it) is a change set that applies to the first state and leaves the last,
    whatever mix of creations, modifications, deletions and aggregator deltas they hold. *)
Theorem squash_ext_sound (Ls : K -> Z) (A B : ChangeSetExt (K := K) (Event := Event))
    (s s1 s2 : K -> option (list byte)) :
  (forall key, wf_key (Ls key) (cs_key A key)) -> (forall key, wf_key (Ls key) (cs_key B key)) ->
  (forall key, apply_key (cs_key A key) (s key) = Some (s1 key)) ->
  (forall key, apply_key (cs_key B key) (s1 key) = Some (s2 key)) ->
  match squash_ext check_change_set A B with
  | Ok C => cs_events C = cs_events A ++ cs_events B /\
      forall key, wf_key (Ls key) (cs_key C key) /\ apply_key (cs_key C key) (s key) = Some (s2 key)
  | Err e => e = CheckFailed
  | Panic => False
  end.
Proof.
  intros HwA HwB HA HB. unfold squash_ext, squash_change_set, squash_delta_change_set, ChangeSet_new.
  assert (HBw : forall key w, cs_writes B !! key = Some w -> apply_write w (s1 key) = Some (s2 key)).
  { intros key w Ew. specialize (HB key). unfold cs_key, view in HB. by rewrite Ew in HB. }
  destruct (squash_writes_phase Ls _ _ (cs_writes B) s s1 s2 HwA HA HBw) as (ds & ws & E & Hmid).
  rewrite E. cbn [result_bind]. destruct (check_change_set _ _); [| done].
  cbn [result_bind cs_deltas cs_writes cs_events].
  destruct (squash_deltas_phase Ls ds ws (cs_deltas B) s
      (fun key => match cs_writes B !! key with Some _ => s2 key | None => s1 key end) s2) as (ds' & ws' & E' & Hfin).
  - intros key. apply Hmid.
  - intros key. destruct (Hmid key) as [_ Hk]. destruct (cs_writes B !! key); [done |]. rewrite Hk. apply HA.
  - intros key d Ed. specialize (HB key). destruct (HwB key) as [Hex Hd]. unfold cs_key, view in HB, Hex, Hd.
    cbn in Hex, Hd. rewrite Ed in HB, Hex, Hd. destruct (cs_writes B !! key) as [w |].
    + by specialize (Hex ltac:(done)).
    + destruct Hd. by split_and!.
  - rewrite E'. cbn [result_bind]. destruct (check_change_set _ _); [| done]. split; [done |].
    intros key. unfold cs_key. cbn [cs_deltas cs_writes]. destruct (Hfin key) as [Hwf Hk]. split; [done |].
    specialize (HB key). unfold cs_key, view in HB. destruct (Hmid key) as [_ Hm].
    destruct (cs_deltas B !! key) as [d |]; [done |]. rewrite Hk.
    destruct (cs_writes B !! key); [done |]. injection HB as <-. rewrite Hm. apply HA.
Qed.
End semantics.

(** A key created by a session and deleted by the next, a counter updated by both, and a key
    deleted and created again. *)
Lemma squash_ext_sound_witness :
  exists C, squash_ext (BCS := bcs_le) (fun _ (_ : list nat) => true)
      (mkChangeSetExt {[2 := mkDeltaOp 9 0 100 (Plus 9)]} {[1 := Creation [x01]; 3 := Deletion]} [10%nat])
      (mkChangeSetExt {[2 := mkDeltaOp 0 4 100 (Minus 4)]} {[1 := Deletion; 3 := Creation [x03]]} [20%nat])
    = Ok C /\ cs_writes C = {[3 := Modification [x03]]} /\
    cs_deltas C = {[2 := mkDeltaOp 9 0 100 (Plus 5)]} /\ cs_events C = [10%nat] ++ [20%nat].
Proof.
  set (A := mkChangeSetExt {[2 := mkDeltaOp 9 0 100 (Plus 9)]} {[1 := Creation [x01]; 3 := Deletion]} [10%nat]).
  set (B := mkChangeSetExt {[2 := mkDeltaOp 0 4 100 (Minus 4)]} {[1 := Deletion; 3 := Creation [x03]]} [20%nat]).
  set (s (k : Z) := if k =? 2 then Some (bcs_to_bytes (BcsU128 := bcs_le) 50) else if k =? 3 then Some [x07] else None).
  set (s1 (k : Z) := if k =? 1 then Some [x01] else if k =? 2 then Some (bcs_to_bytes (BcsU128 := bcs_le) 59) else None).
  set (s2 (k : Z) := if k =? 2 then Some (bcs_to_bytes (BcsU128 := bcs_le) 55) else if k =? 3 then Some [x03] else None).
  assert (Hk : forall key, key = 1 \/ key = 2 \/ key = 3 \/ (cs_key A key = (None, None) /\ cs_key B key = (None, None) /\
    s key = None /\ s1 key = None /\ s2 key = None)).
  { intros key. destruct (decide (key = 1)); [auto |]. destruct (decide (key = 2)); [auto |].
    destruct (decide (key = 3)); [auto |]. right. right. right. unfold s, s1, s2, cs_key, view. cbn [A B cs_writes cs_deltas].
    rewrite !lookup_insert_ne, !lookup_singleton_ne, ?lookup_empty by done.
    rewrite !(proj2 (Z.eqb_neq _ _)) by done. done. }
  pose proof (squash_ext_sound (BCS := bcs_le) (fun _ (_ : list nat) => true) (fun _ => 100) A B s s1 s2) as Hsq.
  destruct (squash_ext (BCS := bcs_le) (fun _ (_ : list nat) => true) A B) as [C | |] eqn:E; [| by vm_compute in E ..].
  exists C. split; [reflexivity |].
  assert (Hev : cs_events C = [10%nat] ++ [20%nat]).
  { apply Hsq; intros key; destruct (Hk key) as [-> | [-> | [-> | (Ha & Hb & Hs & Hs1 & Hs2)]]];
      try done; try (rewrite ?Ha, ?Hb, ?Hs, ?Hs1, ?Hs2; by split); try (by rewrite ?Ha, ?Hb, ?Hs, ?Hs1, ?Hs2);
      (split; [by vm_compute |]); cbn; try done; (split; [constructor; cbn; unfold is_word; lia | done]). }
  split_and!; [.. | exact Hev]; by vm_compute in E; injection E as <-.
Defined.
