(* ===== verification/MVHashMap.v ===== *)
(** * The multi-version map of the parallel executor

    src/aptos-move/mvhashmap/src/lib.rs: for every key, the entries written by the transactions
    of a block, by transaction index. A read by transaction [txn_idx] sees the entries of the
    transactions before it. The concurrent map locks a key for the time of an operation, so
    every operation is one step; the [BTreeMap] of a key is a finite map from indices, read in
    descending order.

    The theorems compare a read with replaying the entries in block order on the value in
    storage: unless it meets an estimate, a read returns what the replay gives. *)

From stdpp Require Import gmap.
From S2P Require Import Prelude Word Delta WriteSets.
Local Open Scope Z_scope.

Abbreviation TxnIndex := nat (only parsing).
Abbreviation Incarnation := nat (only parsing).
Abbreviation Version := (nat * nat)%type (only parsing).

Definition FLAG_DONE : Z := 0.
Definition FLAG_ESTIMATE : Z := 1.

(** The trait of the values written, in src/types/src/write_set.rs with its instance. *)
Class TransactionWrite (V : Type) : Type := {
  extract_raw_bytes : V -> option (list byte);
}.

#[export] Instance WriteOp_write : TransactionWrite WriteOp := {|
  extract_raw_bytes op := match op with Creation v | Modification v => Some v | Deletion => None end;
|}.

Inductive EntryCell (V : Type) : Type :=
| CellWrite (incarnation : Incarnation) (data : V)
| CellDelta (delta : DeltaOp).
Arguments CellWrite {V}.
Arguments CellDelta {V}.

Record Entry (V : Type) : Type := mkEntry { e_flag : Z; e_cell : EntryCell V }.
Arguments mkEntry {V}.
Arguments e_flag {V}.
Arguments e_cell {V}.

Definition new_write_from {V} (flag : Z) (incarnation : Incarnation) (data : V) : Entry V :=
  mkEntry flag (CellWrite incarnation data).
Definition new_delta_from {V} (flag : Z) (data : DeltaOp) : Entry V := mkEntry flag (CellDelta data).
Definition entry_mark_estimate {V} (e : Entry V) : Entry V := mkEntry FLAG_ESTIMATE (e_cell e).

Inductive MVHashMapError : Set :=
| NotFound
| Unresolved (delta : DeltaOp)
| Dependency (idx : TxnIndex)
| DeltaApplicationFailure.

Inductive MVHashMapOutput (V : Type) : Type :=
| Resolved (value : Z)
| Versioned (version : Version) (data : V).
Arguments Resolved {V}.
Arguments Versioned {V}.

Abbreviation Tree V := (gmap TxnIndex (Entry V)).
Abbreviation MVHashMap K V := (gmap K (Tree V)).

Section map.
Context {BCS : BcsU128} {K : Type} `{Countable K} {V : Type} {TW : TransactionWrite V}.


(** The methods panic or succeed; [Empty_set] is their error type. *)
Abbreviation MV := (M Empty_set (MVHashMap K V)).

Definition entry_map_for_key (key : K) : MV (option (Tree V)) := fun m => (Ok (m !! key), delete key m).

(** [entry(key).or_default()] *)
Definition tree_of (m : MVHashMap K V) (key : K) : Tree V := default ∅ (m !! key).

Definition add_write (key : K) (version : Version) (data : V) : MV unit := fun m =>
  let '(txn_idx, incarnation) := version in
  let map := tree_of m key in
  let m' := <[key := <[txn_idx := new_write_from FLAG_DONE incarnation data]> map]> m in
  match map !! txn_idx with
  | Some {| e_cell := CellWrite i _ |} => if bool_decide (i < incarnation)%nat then (Ok tt, m') else (Panic, m')
  | _ => (Ok tt, m')
  end.

Definition add_delta (key : K) (txn_idx : TxnIndex) (delta : DeltaOp) : MV unit := fun m =>
  (Ok tt, <[key := <[txn_idx := new_delta_from FLAG_DONE delta]> (tree_of m key)]> m).

Definition mark_estimate (key : K) (txn_idx : TxnIndex) : MV unit := fun m =>
  match m !! key with
  | None => (Panic, m)
  | Some map =>
      match map !! txn_idx with
      | None => (Panic, m)
      | Some entry => (Ok tt, <[key := <[txn_idx := entry_mark_estimate entry]> map]> m)
      end
  end.

Definition mv_delete (key : K) (txn_idx : TxnIndex) : MV unit := fun m =>
  match m !! key with
  | None => (Panic, m)
  | Some map => (Ok tt, <[key := delete txn_idx map]> m)
  end.

(** [AggregatorValue::from_write]: [None] for a deletion, a panic when the bytes do not decode. *)
Definition from_write {E} (data : V) : result E (option Z) :=
  match extract_raw_bytes data with
  | None => Ok None
  | Some bytes => let? v := deserialize bytes in Ok (Some v)
  end.

(** [map_err(|_| DeltaApplicationFailure)] *)
Definition delta_failure {A} (r : delta_result A) : result MVHashMapError A :=
  match r with Ok a => Ok a | Err _ => Err DeltaApplicationFailure | Panic => Panic end.

(** The loop of [read] over [tree.range(0..txn_idx)] from its end, [txn_idx] going down. *)
Fixpoint read_down (tree : Tree V) (txn_idx : nat) (accumulator : option DeltaOp) :
    result MVHashMapError (MVHashMapOutput V) :=
  match txn_idx with
  | O => match accumulator with Some acc => Err (Unresolved acc) | None => Err NotFound end
  | S idx =>
      match tree !! idx with
      | None => read_down tree idx accumulator
      | Some entry =>
          if e_flag entry =? FLAG_ESTIMATE then Err (Dependency idx)
          else
            match e_cell entry, accumulator with
            | CellWrite incarnation data, None => Ok (Versioned (idx, incarnation) data)
            | CellWrite incarnation data, Some acc =>
                let? maybe_value := from_write data in
                match maybe_value with
                | None => Ok (Versioned (idx, incarnation) data)
                | Some value => let? r := delta_failure (apply_to acc value) in Ok (Resolved r)
                end
            | CellDelta delta, Some acc =>
                let? acc' := delta_failure (merge_onto acc delta) in
                read_down tree idx (Some acc')
            | CellDelta delta, None => read_down tree idx (Some delta)
            end
      end
  end.

Definition mv_read (m : MVHashMap K V) (key : K) (txn_idx : TxnIndex) :
    result MVHashMapError (MVHashMapOutput V) :=
  match m !! key with
  | Some tree => read_down tree txn_idx None
  | None => Err NotFound
  end.
End map.

(** ** Replaying the entries of a key

    What the entries of the transactions below an index make of the value in storage, in block
    order; a delta that does not apply is a panic of whoever materializes it. *)

Section replay.
Context {BCS : BcsU128} {V : Type} {TW : TransactionWrite V}.

Definition replay_entry (current : option (list byte)) (cell : EntryCell V) :
    result Empty_set (option (list byte)) :=
  match cell with
  | CellWrite _ data => Ok (extract_raw_bytes data)
  | CellDelta delta =>
      let? bytes := unwrap current in
      let? value := deserialize bytes in
      match apply_to delta value with
      | Ok value' => Ok (Some (serialize value'))
      | _ => Panic
      end
  end.

Fixpoint replay (tree : Tree V) (n : nat) (base : option (list byte)) :
    result Empty_set (option (list byte)) :=
  match n with
  | O => Ok base
  | S idx =>
      let? current := replay tree idx base in
      match tree !! idx with
      | None => Ok current
      | Some entry => replay_entry current (e_cell entry)
      end
  end.

(** The entries below an index are not estimates, and their deltas have one limit. *)
Definition settled_below (L : Z) (tree : Tree V) (n : nat) : Prop :=
  forall i e, (i < n)%nat -> tree !! i = Some e ->
    e_flag e = FLAG_DONE /\
    match e_cell e with CellDelta d => wf_delta d /\ limit d = L | CellWrite _ _ => True end.

Lemma settled_below_S L tree n : settled_below L tree (S n) -> settled_below L tree n.
Proof. intros Hs i e ? ?. apply (Hs i e); [lia | done]. Qed.

Lemma apply_to_range d base x : wf_delta d -> 0 <= base -> apply_to d base = Ok x -> is_u128 x.
Proof.
  intros Hd Hb E. destruct (apply_to_ok _ _ _ Hd Hb E) as [Ha ->]. unfold accepts in Ha. b2p.
  destruct Hd as [[_ ?] ? ? ? _]. split; lia.
Qed.

(** What a value needs to be for a delta to have been applied to it. *)
Lemma replay_delta current d bytes :
  wf_delta d -> replay_entry current (CellDelta (V := V) d) = Ok (Some bytes) ->
  exists b v x, current = Some b /\ bcs_from_bytes b = Some v /\ is_u128 v /\
    apply_to d v = Ok x /\ is_u128 x /\ bytes = serialize x.
Proof.
  intros Hd E. cbn in E. destruct current as [b |]; [| done]. cbn in E.
  unfold deserialize in E. destruct (bcs_from_bytes b) as [v |] eqn:Ev; [| done]. cbn in E.
  pose proof (bcs_range _ _ Ev) as Hv.
  destruct (apply_to d v) as [x | |] eqn:Ex; [| done ..]. injection E as <-.
  exists b, v, x. split_and!; try done. exact (apply_to_range _ _ _ Hd (proj1 Hv) Ex).
Qed.

(** A read that has accumulated deltas resolves to them applied to the replayed value. *)
Lemma read_down_acc L tree n base acc bytes v r :
  settled_below L tree n -> wf_delta acc -> limit acc = L ->
  replay tree n base = Ok (Some bytes) -> bcs_from_bytes bytes = Some v -> apply_to acc v = Ok r ->
  match read_down tree n (Some acc) with
  | Ok (Resolved r') => r' = r
  | Err (Unresolved d) =>
      wf_delta d /\ exists b v0, base = Some b /\ bcs_from_bytes b = Some v0 /\ apply_to d v0 = Ok r
  | _ => False
  end.
Proof.
  revert acc bytes v. induction n as [| n IH]; intros acc bytes v Hs Ha HL E Ev Er.
  { cbn in E |- *. injection E as ->. split; [done |]. eauto. }
  cbn [replay read_down] in *. destruct (replay tree n base) as [cur | |] eqn:Ec; [| done ..].
  cbn [result_bind] in E. destruct (tree !! n) as [[flag cell] |] eqn:En.
  2:{ injection E as ->. eapply IH; eauto using settled_below_S. }
  destruct (Hs n _ (Nat.lt_succ_diag_r n) En) as [Hf Hc]. cbn in Hf, Hc. subst flag.
  cbn [e_flag e_cell Z.eqb FLAG_DONE FLAG_ESTIMATE] in *. destruct cell as [i data | d].
  - cbn in E. injection E as E. unfold from_write, deserialize. rewrite E, Ev. cbn [unwrap result_bind].
    rewrite Er. done.
  - destruct Hc as [Hd HdL]. destruct (replay_delta _ _ _ Hd E) as (b & v' & x & -> & Ev' & Hv' & Ex & Hx & ->).
    unfold serialize in Ev. rewrite bcs_roundtrip in Ev by done. injection Ev as <-.
    pose proof (merge_agree acc d v' Ha Hd ltac:(congruence) (proj1 Hv')) as Hm.
    pose proof (merge_onto_spec acc d Ha Hd ltac:(congruence)) as Hw.
    rewrite Ex in Hm. cbn [result_bind] in Hm. rewrite Er in Hm.
    destruct (merge_onto acc d) as [d' | e |]; cbn [delta_failure result_bind];
      [| by destruct Hm | done].
    destruct Hw as (Hd' & HL' & _). destruct (apply_to d' v') as [r' | |] eqn:Er'; [| done ..].
    cbn in Hm. subst r'. eapply IH; eauto using settled_below_S. congruence.
Qed.

(** A read returns the replayed value, in one of the forms reads have. *)
Lemma read_down_replay L tree n base current :
  settled_below L tree n -> replay tree n base = Ok current ->
  match read_down tree n None with
  | Ok (Versioned (i, inc) data) =>
      current = extract_raw_bytes data /\ (i < n)%nat /\
      exists e, tree !! i = Some e /\ e_cell e = CellWrite inc data
  | Ok (Resolved v) => current = Some (serialize v) /\ is_u128 v
  | Err (Unresolved d) =>
      wf_delta d /\ exists b v r, base = Some b /\ bcs_from_bytes b = Some v /\ apply_to d v = Ok r /\
        current = Some (serialize r)
  | Err NotFound => current = base
  | _ => False
  end.
Proof.
  induction n as [| n IH]; intros Hs E; [by injection E |].
  cbn [replay read_down] in *. destruct (replay tree n base) as [cur | |] eqn:Ec; [| done ..].
  cbn [result_bind] in E. destruct (tree !! n) as [[flag cell] |] eqn:En.
  2:{ injection E as ->. specialize (IH (settled_below_S _ _ _ Hs) eq_refl).
      destruct (read_down tree n None) as [[v | [i inc] data] | |]; try done.
      destruct IH as (? & ? & ?). split_and!; [done | lia | done]. }
  destruct (Hs n _ (Nat.lt_succ_diag_r n) En) as [Hf Hc]. cbn in Hf, Hc. subst flag.
  cbn [e_flag e_cell Z.eqb FLAG_DONE FLAG_ESTIMATE] in *. destruct cell as [i data | d].
  - cbn in E. injection E as <-. split_and!; [done | lia |]. by eexists.
  - destruct Hc as [Hd HdL]. destruct current as [bytes |].
    2:{ cbn in E. destruct cur; [| done]. cbn in E. unfold deserialize in E.
        destruct (bcs_from_bytes l); [| done]. cbn in E. by destruct (apply_to d z). }
    destruct (replay_delta _ _ _ Hd E) as (b & v & x & -> & Ev & Hv & Ex & Hx & ->).
    pose proof (read_down_acc L tree n base d b v x (settled_below_S _ _ _ Hs) Hd HdL Ec Ev Ex) as Hr.
    destruct (read_down tree n (Some d)) as [[v' | [i inc] data] | [| d' | |] |]; try done.
    + by subst v'.
    + destruct Hr as (Hd' & b0 & v0 & -> & ? & ?). split; [done |]. eauto 8.
Qed.
End replay.

(** ** The operations of a transaction *)

Section ops.
Context {BCS : BcsU128} {K : Type} `{Countable K} {V : Type} {TW : TransactionWrite V}.

(** What transaction [txn_idx] can do to a key. *)
Inductive MVOp : Type :=
| OpWrite (incarnation : Incarnation) (data : V)
| OpDelta (delta : DeltaOp)
| OpEstimate
| OpDelete.

Definition mv_op (key : K) (txn_idx : TxnIndex) (op : MVOp) : M Empty_set (MVHashMap K V) unit :=
  match op with
  | OpWrite incarnation data => add_write key (txn_idx, incarnation) data
  | OpDelta delta => add_delta key txn_idx delta
  | OpEstimate => mark_estimate key txn_idx
  | OpDelete => mv_delete key txn_idx
  end.

(** The entry an operation leaves, if it does not panic. *)
Definition op_entry (op : MVOp) (old : option (Entry V)) : option (Entry V) :=
  match op with
  | OpWrite incarnation data => Some (new_write_from FLAG_DONE incarnation data)
  | OpDelta delta => Some (new_delta_from FLAG_DONE delta)
  | OpEstimate => entry_mark_estimate <$> old
  | OpDelete => None
  end.

Lemma tree_of_Some (m : MVHashMap K V) key t : m !! key = Some t -> tree_of m key = t.
Proof. unfold tree_of. by intros ->. Qed.

Lemma tree_of_None (m : MVHashMap K V) key : m !! key = None -> tree_of m key = ∅.
Proof. unfold tree_of. by intros ->. Qed.

Lemma tree_of_insert (m : MVHashMap K V) key t key' :
  tree_of (<[key := t]> m) key' = if decide (key' = key) then t else tree_of m key'.
Proof.
  unfold tree_of. case_decide as Hk; [subst; by rewrite lookup_insert_eq | by rewrite lookup_insert_ne].
Qed.

(** An operation touches the entry of its key and transaction only. *)
Lemma mv_op_entries key txn_idx op (m : MVHashMap K V) key' i :
  tree_of (mv_op key txn_idx op m).2 key' !! i =
    match (mv_op key txn_idx op m).1 with
    | Panic => if decide (key' = key /\ i = txn_idx) then tree_of (mv_op key txn_idx op m).2 key' !! i
               else tree_of m key' !! i
    | _ => if decide (key' = key /\ i = txn_idx) then op_entry op (tree_of m key !! i) else tree_of m key' !! i
    end.
Proof.
  assert (Hins : forall e, tree_of (<[key := <[txn_idx := e]> (tree_of m key)]> m) key' !! i =
      if decide (key' = key /\ i = txn_idx) then Some e else tree_of m key' !! i).
  { intros e. rewrite tree_of_insert. repeat case_decide; destruct_and?; subst.
    - by rewrite lookup_insert_eq. - by rewrite lookup_insert_ne by naive_solver.
    - naive_solver. - done. }
  destruct op as [inc data | d | |]; cbn [mv_op op_entry].
  - unfold add_write. destruct (tree_of m key !! txn_idx) as [[f [c v | c]] |]; [case_bool_decide | ..];
      cbn [fst snd]; rewrite Hins; by repeat case_decide.
  - unfold add_delta. cbn [fst snd]. by rewrite Hins.
  - unfold mark_estimate, tree_of at 1 3. destruct (m !! key) as [t |] eqn:Et; [| by case_decide].
    assert (Ht : tree_of m key = t) by (unfold tree_of; by rewrite Et).
    destruct (t !! txn_idx) as [e |] eqn:Ee; [| by case_decide]. cbn [fst snd].
    specialize (Hins (entry_mark_estimate e)). rewrite Ht in Hins. unfold tree_of in Hins at 1.
    rewrite Hins. case_decide as Hd; [| done]. destruct Hd as [-> ->]. by rewrite Ht, Ee.
  - unfold mv_delete. destruct (m !! key) as [t |] eqn:Et; [| by case_decide]. cbn [fst snd].
    assert (Ht : tree_of m key = t) by (unfold tree_of; by rewrite Et).
    rewrite tree_of_insert. destruct (decide (key' = key)) as [-> | Hne].
    + rewrite Ht. destruct (decide (i = txn_idx)) as [-> | Hi].
      * rewrite decide_True by done. by rewrite lookup_delete_eq.
      * rewrite decide_False by (by intros [_ ?]). by rewrite lookup_delete_ne.
    + by rewrite decide_False by (by intros [? _]).
Qed.

Lemma read_down_ext (t t' : Tree V) n acc :
  (forall i, (i < n)%nat -> t !! i = t' !! i) -> read_down t n acc = read_down t' n acc.
Proof.
  revert acc. induction n as [| n IH]; intros acc Heq; [done |]. cbn [read_down].
  rewrite (Heq n) by lia. assert (IH' : forall a, read_down t n a = read_down t' n a) by auto.
  destruct (t' !! n) as [e |]; [| apply IH']. case_if; [done |].
  destruct (e_cell e), acc; try done. destruct (delta_failure _); [apply IH' | done ..].
Qed.

Lemma mv_read_tree (m : MVHashMap K V) key n : mv_read m key n = read_down (tree_of m key) n None.
Proof.
  unfold mv_read, tree_of. destruct (m !! key); [done |]. cbn.
  induction n as [| n IH]; [done |]. cbn. by rewrite lookup_empty.
Qed.
End ops.

(** ** Theorems *)

(** A read is the replay: when no entry below a transaction is an estimate, what the
    transaction reads stands for the value that replaying the entries of the transactions below
    it, in block order, makes of the value in storage; the version it reports is the one of the
    entry that is in the map. It is never a dependency or a failed delta, however writes and
    deltas are mixed. *)
Theorem mv_read_is_replay {BCS : BcsU128} {K} `{Countable K} {V} {TW : TransactionWrite V} (L : Z)
    (m : MVHashMap K V) (key : K) (txn_idx : TxnIndex) (base current : option (list byte)) :
  settled_below L (tree_of m key) txn_idx ->
  replay (tree_of m key) txn_idx base = Ok current ->
  match mv_read m key txn_idx with
  | Ok (Versioned (i, incarnation) data) =>
      current = extract_raw_bytes data /\ (i < txn_idx)%nat /\
      exists e, tree_of m key !! i = Some e /\ e_cell e = CellWrite incarnation data
  | Ok (Resolved v) => current = Some (serialize v) /\ is_u128 v
  | Err (Unresolved d) =>
      wf_delta d /\ exists b v r, base = Some b /\ bcs_from_bytes b = Some v /\ apply_to d v = Ok r /\
        current = Some (serialize r)
  | Err NotFound => current = base
  | _ => False
  end.
Proof. intros Hs E. rewrite mv_read_tree. exact (read_down_replay L _ _ _ _ Hs E). Qed.

(** Transactions are isolated from later ones: whatever transaction [txn_idx] does to a key,
    the reads of other keys and the reads of the transactions up to [txn_idx] itself are
    unchanged, also when the operation panics. *)
Theorem mv_isolation {BCS : BcsU128} {K} `{Countable K} {V} {TW : TransactionWrite V}
    (m : MVHashMap K V) (key key' : K) (txn_idx i : TxnIndex) (op : MVOp) :
  key' <> key \/ (i <= txn_idx)%nat ->
  mv_read (mv_op key txn_idx op m).2 key' i = mv_read m key' i.
Proof.
  intros Hor. rewrite !mv_read_tree. apply read_down_ext. intros j Hj. rewrite mv_op_entries.
  assert (Hd : ~ (key' = key /\ j = txn_idx)) by (intros [-> ->]; destruct Hor; [done | lia]).
  destruct (mv_op key txn_idx op m).1; by rewrite decide_False.
Qed.

(** ** Instances *)

(** A counter written by transaction 0, raised by 1 and 2, read by 4; and one in storage. *)
Definition sample_mv : MVHashMap nat WriteOp :=
  {[ 7%nat := list_to_map
       [(0%nat, new_write_from FLAG_DONE 0%nat (Modification (bcs_to_bytes (BcsU128 := bcs_le) 40)));
        (1%nat, new_delta_from FLAG_DONE (mkDeltaOp 5 0 100 (Plus 5)));
        (2%nat, new_delta_from FLAG_DONE (mkDeltaOp 0 3 100 (Minus 3)))] ]}.

Lemma mv_read_is_replay_witness :
  mv_read (BCS := bcs_le) sample_mv 7%nat 4%nat = Ok (Resolved 42) /\
  Some (serialize (BCS := bcs_le) 42) = Some (serialize (BCS := bcs_le) 42) /\ is_u128 42.
Proof.
  assert (E : mv_read (BCS := bcs_le) sample_mv 7%nat 4%nat = Ok (Resolved 42)) by by vm_compute.
  split; [exact E |].
  pose proof (mv_read_is_replay (BCS := bcs_le) 100 sample_mv 7%nat 4%nat None
    (Some (serialize (BCS := bcs_le) 42))) as Hr.
  rewrite E in Hr. apply Hr; [| by vm_compute].
  intros i e Hi He. assert (Hc : (i = 0 \/ i = 1 \/ i = 2 \/ i = 3)%nat) by lia.
  destruct Hc as [-> | [-> | [-> | ->]]]; vm_compute in He; try done; injection He as <-;
    (split; [done |]); cbn; try done; (split; [constructor; cbn; unfold is_word; lia | done]).
Defined.

Lemma mv_isolation_witness :
  mv_read (BCS := bcs_le) (mv_op 7%nat 2%nat OpEstimate sample_mv).2 7%nat 2%nat =
    mv_read (BCS := bcs_le) sample_mv 7%nat 2%nat /\
  mv_read (BCS := bcs_le) (mv_op 7%nat 2%nat OpEstimate sample_mv).2 7%nat 4%nat =
    Err (Dependency 2).
Proof.
  split; [| by vm_compute].
  apply (mv_isolation (BCS := bcs_le) sample_mv 7%nat 7%nat 2%nat 2%nat OpEstimate). by right.
Defined.
