(* ===== verification/BlockStm.v ===== *)
(** * Executing a block: speculative and sequential

    The executor of src/aptos-move/block-executor/src: executor.rs ([execute], [validate], the
    end of [execute_transactions_parallel], [execute_transactions_sequential]), view.rs (the
    views transactions read through), txn_last_input_output.rs (what a transaction read and
    wrote last), output_delta_resolver.rs and block_executor/mod.rs (materializing the deltas of
    a block), with the functions of aptos-aggregator/src/transaction.rs they call.

    The virtual machines are a parameter: a transaction is a program that fetches state values
    and finishes with a status, as a deterministic function of the values fetched. The base view
    is the committed state. The theorem is the correctness of commits: once every transaction
    has a recorded execution whose reads are valid in the final map, the outputs of the block
    are those of executing it sequentially. *)

From stdpp Require Import gmap.
From S2P Require Import Prelude Word Delta WriteSets MVHashMap.
Local Open Scope Z_scope.

#[export] Instance DeltaUpdate_eq_dec : EqDecision DeltaUpdate.
Proof. solve_decision. Defined.
#[export] Instance DeltaOp_eq_dec : EqDecision DeltaOp.
Proof. solve_decision. Defined.

(** ** What a transaction reads *)

Inductive ReadKind : Set :=
| KVersion (idx : TxnIndex) (incarnation : Incarnation)
| KResolved (value : Z)
| KUnresolved (delta : DeltaOp)
| KStorage
| KDeltaApplicationFailure.

#[export] Instance ReadKind_eq_dec : EqDecision ReadKind.
Proof. solve_decision. Defined.

Record ReadDescriptor (K : Type) : Type := mkRead { access_path : K; kind : ReadKind }.
Arguments mkRead {K}.
Arguments access_path {K}.
Arguments kind {K}.

Definition validate_version {K} (r : ReadDescriptor K) (version : Version) : bool :=
  bool_decide (kind r = KVersion version.1 version.2).
Definition validate_resolved {K} (r : ReadDescriptor K) (value : Z) : bool :=
  bool_decide (kind r = KResolved value).
Definition validate_unresolved {K} (r : ReadDescriptor K) (delta : DeltaOp) : bool :=
  bool_decide (kind r = KUnresolved delta).
Definition validate_storage {K} (r : ReadDescriptor K) : bool := bool_decide (kind r = KStorage).
Definition validate_delta_application_failure {K} (r : ReadDescriptor K) : bool :=
  bool_decide (kind r = KDeltaApplicationFailure).

Inductive ReadResult : Set :=
| ReadValue (v : WriteOp)
| ReadU128 (v : Z)
| ReadUnresolved (d : DeltaOp)
| ReadNone.

(** The errors a view gives the virtual machine. *)
Inductive ViewError : Set := StorageError | ViewAbort (e : DeltaError).

Section stm.
Context {BCS : BcsU128} {K : Type} `{Countable K} {Info Failure : Type}.

(** One round of the loop of [MVHashMapView::read]: the result and the descriptor captured for
    it, or the transaction to wait for. *)
Definition capture_read (r : result MVHashMapError (MVHashMapOutput WriteOp)) :
    result TxnIndex (ReadResult * ReadKind) :=
  match r with
  | Ok (Versioned (idx, incarnation) v) => Ok (ReadValue v, KVersion idx incarnation)
  | Ok (Resolved value) => Ok (ReadU128 value, KResolved value)
  | Err NotFound => Ok (ReadNone, KStorage)
  | Err (Unresolved delta) => Ok (ReadUnresolved delta, KUnresolved delta)
  | Err (Dependency dep_idx) => Err dep_idx
  | Err DeltaApplicationFailure => Ok (ReadU128 0, KDeltaApplicationFailure)
  | Panic => Panic
  end.

Context (base_view : K -> option (list byte)).

(** [LatestView::get_state_value] of a multi-version view, given the result of the read. *)
Definition state_value (key : K) (r : ReadResult) : result ViewError (option (list byte)) :=
  match r with
  | ReadValue v => Ok (extract_raw_bytes v)
  | ReadU128 v => Ok (Some (serialize v))
  | ReadUnresolved delta =>
      match base_view key with
      | None => Err StorageError
      | Some bytes =>
          let? from_storage := deserialize bytes in
          match apply_to delta from_storage with
          | Ok result => Ok (Some (serialize result))
          | Err e => Err (ViewAbort e)
          | Panic => Panic
          end
      end
  | ReadNone => Ok (base_view key)
  end.

(** The same of a view over the writes made so far. *)
Definition btree_value (data_map : gmap K WriteOp) (key : K) : result ViewError (option (list byte)) :=
  match data_map !! key with
  | Some v => Ok (extract_raw_bytes v)
  | None => Ok (base_view key)
  end.

(** ** Transactions and their outputs *)

Record TxnOutput : Type := mkTxnOutput {
  o_writes : gmap K WriteOp;
  o_deltas : gmap K DeltaOp;
  o_discarded : bool;
  o_info : Info;
}.

Inductive ExecutionStatus : Type :=
| Success (output : TxnOutput)
| SkipRest (output : TxnOutput)
| Abort (err : Failure).

Inductive Program : Type :=
| Finish (status : ExecutionStatus)
| Fetch (key : K) (cont : result ViewError (option (list byte)) -> Program).

(** Running a program against a view that does not change. *)
Fixpoint run_program (view : K -> result ViewError (option (list byte))) (p : Program) :
    result Failure ExecutionStatus :=
  match p with
  | Finish status => Ok status
  | Fetch key cont =>
      match view key with
      | Panic => Panic
      | value => run_program view (cont value)
      end
  end.

(** ** Materializing deltas *)

(** [DeltaOp::try_into_write_op]; its errors end in a panic. *)
Definition try_into_write_op (view : K -> result ViewError (option (list byte))) (key : K)
    (delta : DeltaOp) : result Failure WriteOp :=
  match view key with
  | Ok (Some bytes) =>
      let? base := deserialize bytes in
      match apply_to delta base with
      | Ok result => Ok (Modification (serialize result))
      | _ => Panic
      end
  | _ => Panic
  end.

(** [DeltaChangeSet::try_into_write_set_mut]; the writes are collected into a map. *)
Fixpoint try_into_write_set (view : K -> result ViewError (option (list byte)))
    (deltas : list (K * DeltaOp)) : result Failure (gmap K WriteOp) :=
  match deltas with
  | [] => Ok ∅
  | (key, delta) :: deltas =>
      let? op := try_into_write_op view key delta in
      let? rest := try_into_write_set view deltas in
      Ok (<[key := op]> rest)
  end.

(** [merge_delta_writes] *)
Definition merge_delta_writes (output : TxnOutput) (delta_writes : gmap K WriteOp) :
    result Failure TxnOutput :=
  match squash_writes (map_to_list delta_writes) (o_writes output) with
  | Ok writes => Ok (mkTxnOutput writes ∅ (o_discarded output) (o_info output))
  | _ => Panic
  end.

Definition without_deltas (output : TxnOutput) : TxnOutput :=
  mkTxnOutput (o_writes output) ∅ (o_discarded output) (o_info output).

(** [into_transaction_output] *)
Definition into_transaction_output (view : K -> result ViewError (option (list byte)))
    (output : TxnOutput) : result Failure TxnOutput :=
  if o_discarded output || bool_decide (o_deltas output = ∅) then Ok (without_deltas output)
  else
    let? delta_writes := try_into_write_set view (map_to_list (o_deltas output)) in
    merge_delta_writes output delta_writes.

(** [output_with_delta_writes] *)
Definition output_with_delta_writes (output : TxnOutput) (delta_writes : gmap K WriteOp) :
    result Failure TxnOutput :=
  if o_discarded output || bool_decide (o_deltas output = ∅) then Ok (without_deltas output)
  else if bool_decide (size (o_deltas output) = size delta_writes)
  then merge_delta_writes output delta_writes
  else Panic.

(** ** Sequential execution *)

Context (skip_output : TxnOutput).

(** [execute_transaction] with [materialize_deltas]. *)
Definition execute_sequential_txn (data_map : gmap K WriteOp) (p : Program) :
    result Failure ExecutionStatus :=
  let view := btree_value data_map in
  let? status := run_program view p in
  match status with
  | Success output => let? o := into_transaction_output view output in Ok (Success o)
  | SkipRest output => let? o := into_transaction_output view output in Ok (SkipRest o)
  | Abort err => Ok (Abort err)
  end.

(** The loop of [execute_transactions_sequential]. *)
Fixpoint execute_sequential (block : list Program) (data_map : gmap K WriteOp) :
    result Failure (list TxnOutput) :=
  match block with
  | [] => Ok []
  | p :: block =>
      let? res := execute_sequential_txn data_map p in
      match res with
      | Success output =>
          let? rest := execute_sequential block (o_writes output ∪ data_map) in Ok (output :: rest)
      | SkipRest output => Ok [output]
      | Abort err => Err err
      end
  end.

Definition resize_outputs (l : list TxnOutput) (n : nat) : list TxnOutput :=
  take n l ++ replicate (n - length l) skip_output.

Definition execute_transactions_sequential (block : list Program) : result Failure (list TxnOutput) :=
  let? outputs := execute_sequential block ∅ in Ok (resize_outputs outputs (length block)).

(** ** Parallel execution *)

(** A speculative execution of transaction [idx]: every read goes to the map of that moment
    and is captured; a dependency makes the thread wait and read again. *)
Inductive executes (idx : TxnIndex) :
    list (MVHashMap K WriteOp) -> Program -> list (ReadDescriptor K) -> ExecutionStatus -> Prop :=
| executes_finish status : executes idx [] (Finish status) [] status
| executes_wait m ms key cont reads status dep :
    capture_read (mv_read m key idx) = Err dep ->
    executes idx ms (Fetch key cont) reads status ->
    executes idx (m :: ms) (Fetch key cont) reads status
| executes_read m ms key cont reads status r k :
    capture_read (mv_read m key idx) = Ok (r, k) ->
    state_value key r <> Panic ->
    executes idx ms (cont (state_value key r)) reads status ->
    executes idx (m :: ms) (Fetch key cont) (mkRead key k :: reads) status.

(** The closure of [validate]. *)
Definition read_is_valid (m : MVHashMap K WriteOp) (idx_to_validate : TxnIndex) (r : ReadDescriptor K) :
    result Empty_set bool :=
  match mv_read m (access_path r) idx_to_validate with
  | Ok (Versioned version _) => Ok (validate_version r version)
  | Ok (Resolved value) => Ok (validate_resolved r value)
  | Err (Dependency _) => Ok false
  | Err (Unresolved delta) => Ok (validate_unresolved r delta)
  | Err NotFound => Ok (validate_storage r)
  | Err DeltaApplicationFailure => Ok (validate_delta_application_failure r)
  | Panic => Panic
  end.

(** [read_set.iter().all(..)] *)
Fixpoint validate_reads (m : MVHashMap K WriteOp) (idx_to_validate : TxnIndex)
    (read_set : list (ReadDescriptor K)) : result Empty_set bool :=
  match read_set with
  | [] => Ok true
  | r :: read_set =>
      let? b := read_is_valid m idx_to_validate r in
      if b then validate_reads m idx_to_validate read_set else Ok false
  end.

(** [TxnLastInputOutput::modified_keys] of a recorded status. *)
Definition modified_keys (last : option ExecutionStatus) : gset K :=
  match last with
  | Some (Success t | SkipRest t) => dom (o_writes t) ∪ dom (o_deltas t)
  | Some (Abort _) | None => ∅
  end.

Abbreviation MV := (M Empty_set (MVHashMap K WriteOp)).

(** The loops of [apply_updates], with the keys of the last incarnation not yet met again and
    whether a key outside of them was met. *)
Fixpoint apply_writes (version : Version) (writes : list (K * WriteOp)) (prev_modified_keys : gset K)
    (updates_outside : bool) : MV (gset K * bool) :=
  match writes with
  | [] => ret (prev_modified_keys, updates_outside)
  | (k, v) :: writes =>
      add_write k version v ;;;
      apply_writes version writes (prev_modified_keys ∖ {[k]})
        (updates_outside || bool_decide (k ∉ prev_modified_keys))
  end.

Fixpoint apply_deltas (idx : TxnIndex) (deltas : list (K * DeltaOp)) (prev_modified_keys : gset K)
    (updates_outside : bool) : MV (gset K * bool) :=
  match deltas with
  | [] => ret (prev_modified_keys, updates_outside)
  | (k, d) :: deltas =>
      add_delta k idx d ;;;
      apply_deltas idx deltas (prev_modified_keys ∖ {[k]})
        (updates_outside || bool_decide (k ∉ prev_modified_keys))
  end.

Fixpoint delete_keys (idx : TxnIndex) (keys : list K) : MV unit :=
  match keys with
  | [] => ret tt
  | k :: keys => mv_delete k idx ;;; delete_keys idx keys
  end.

(** What [execute] does to the map when the transaction has run; the result is whether it wrote
    outside of its previous write set. *)
Definition record_updates (version : Version) (last : option ExecutionStatus) (status : ExecutionStatus) :
    MV bool :=
  let prev_modified_keys := modified_keys last in
  r <~ match status with
       | Success output | SkipRest output =>
           w <~ apply_writes version (map_to_list (o_writes output)) prev_modified_keys false ;;
           apply_deltas version.1 (map_to_list (o_deltas output)) w.1 w.2
       | Abort _ => ret (prev_modified_keys, false)
       end ;;
  delete_keys version.1 (elements r.1) ;;;
  ret r.2.

(** ** The outputs of a parallel execution *)

(** The loop over [take_output]. *)
Fixpoint collect_outputs (recorded : list ExecutionStatus) : result Failure (list TxnOutput) :=
  match recorded with
  | [] => Ok []
  | Success t :: recorded => let? rest := collect_outputs recorded in Ok (t :: rest)
  | SkipRest t :: _ => Ok [t]
  | Abort err :: _ => Err err
  end.

(** The loop of [OutputDeltaResolver::resolve] over the entries of a key: the latest value and
    the values deltas resolve to, by transaction. *)
Fixpoint resolve_key (tree : Tree WriteOp) (n : nat) (storage_val : option (list byte)) :
    result Failure (option Z * gmap TxnIndex Z) :=
  match n with
  | O =>
      match storage_val with
      | None => Ok (None, ∅)
      | Some bytes => let? v := deserialize bytes in Ok (Some v, ∅)
      end
  | S idx =>
      let? ' (latest_value, ret) := resolve_key tree idx storage_val in
      match tree !! idx with
      | None => Ok (latest_value, ret)
      | Some {| e_cell := CellWrite _ data |} => let? v := from_write data in Ok (v, ret)
      | Some {| e_cell := CellDelta delta |} =>
          let? latest := unwrap latest_value in
          match apply_to delta latest with
          | Ok v => Ok (Some v, <[idx := v]> ret)
          | _ => Panic
          end
      end
  end.

Fixpoint resolve (m : MVHashMap K WriteOp) (aggregator_keys : list K) (block_size : nat) :
    result Failure (gmap K (gmap TxnIndex Z)) :=
  match aggregator_keys with
  | [] => Ok ∅
  | key :: keys =>
      let? tree := unwrap (m !! key) in
      let? r := resolve_key tree block_size (base_view key) in
      let? rest := resolve m keys block_size in
      Ok (<[key := r.2]> rest)
  end.

(** The writes [resolve] collects for one transaction. *)
Definition delta_writes_of (resolved : gmap K (gmap TxnIndex Z)) (idx : TxnIndex) : gmap K WriteOp :=
  omap (fun ret => v ← ret !! idx; Some (Modification (serialize v))) resolved.

Fixpoint finish_outputs (resolved : gmap K (gmap TxnIndex Z)) (idx : nat) (results : list TxnOutput) :
    result Failure (list TxnOutput) :=
  match results with
  | [] => Ok []
  | res :: results =>
      let? o := output_with_delta_writes res (delta_writes_of resolved idx) in
      let? rest := finish_outputs resolved (S idx) results in Ok (o :: rest)
  end.

(** [process_parallel_block_output] *)
Definition process_parallel_block_output (results : list TxnOutput) (m : MVHashMap K WriteOp) :
    result Failure (list TxnOutput) :=
  let aggregator_keys := ⋃ ((fun res => dom (o_deltas res)) <$> results) in
  let? resolved := resolve m (elements aggregator_keys) (length results) in
  finish_outputs resolved 0 results.

(** The end of [execute_transactions_parallel], and its caller. *)
Definition parallel_outputs (recorded : list ExecutionStatus) (m : MVHashMap K WriteOp) :
    result Failure (list TxnOutput) :=
  let? results := collect_outputs recorded in
  process_parallel_block_output (resize_outputs results (length recorded)) m.

(** ** What recorded executions say *)

(** The entry an output leaves at a key: the delta if there is one, else the write. *)
Definition output_entry (incarnation : Incarnation) (status : ExecutionStatus) (key : K) :
    option (Entry WriteOp) :=
  match status with
  | Success o | SkipRest o =>
      match o_deltas o !! key, o_writes o !! key with
      | Some d, _ => Some (new_delta_from FLAG_DONE d)
      | None, Some w => Some (new_write_from FLAG_DONE incarnation w)
      | None, None => None
      end
  | Abort _ => None
  end.

(** The last recorded execution of a transaction, with the maps its reads went to. *)
Record Recorded : Type := mkRecorded {
  r_incarnation : Incarnation;
  r_reads : list (ReadDescriptor K);
  r_status : ExecutionStatus;
  r_trace : list (MVHashMap K WriteOp);
}.

(** A version writes a key once: [wrote] says what. *)
Definition consistent (wrote : K -> Version -> option WriteOp) (m : MVHashMap K WriteOp) : Prop :=
  forall key j e incarnation v, tree_of m key !! j = Some e -> e_cell e = CellWrite incarnation v ->
    wrote key (j, incarnation) = Some v.

Definition wf_output (Ls : K -> Z) (o : TxnOutput) : Prop :=
  (o_discarded o = true -> o_deltas o = ∅) /\
  forall key d, o_deltas o !! key = Some d ->
    wf_delta d /\ limit d = Ls key /\ o_writes o !! key = None.

(** Transaction [i] may be committed with the final map [m]: it was executed, its reads are
    valid in [m], and its entries in [m] are those of its output. *)
Record txn_committed (wrote : K -> Version -> option WriteOp) (m : MVHashMap K WriteOp) (i : TxnIndex)
    (p : Program) (r : Recorded) : Prop := {
  tc_executed : executes i (r_trace r) p (r_reads r) (r_status r);
  tc_valid : validate_reads m i (r_reads r) = Ok true;
  tc_entries : forall key, tree_of m key !! i = output_entry (r_incarnation r) (r_status r) key;
  tc_trace : Forall (consistent wrote) (r_trace r);
}.

Record block_committed (wrote : K -> Version -> option WriteOp) (m : MVHashMap K WriteOp)
    (block : list Program) (log : list Recorded) : Prop := {
  bc_length : length log = length block;
  bc_txns : forall i p r, block !! i = Some p -> log !! i = Some r -> txn_committed wrote m i p r;
  bc_consistent : consistent wrote m;
}.

(** Keys with deltas hold encoded integers. *)
Definition aggregators_decode (m : MVHashMap K WriteOp) : Prop :=
  forall key i d, (e_cell <$> tree_of m key !! i) = Some (CellDelta d) ->
    (forall b, base_view key = Some b -> bcs_from_bytes b <> None) /\
    forall j incarnation data b, (e_cell <$> tree_of m key !! j) = Some (CellWrite incarnation data) ->
      extract_raw_bytes data = Some b -> bcs_from_bytes b <> None.

(** ** Reads are determined by what is validated *)

Lemma read_down_versioned (t : Tree WriteOp) n acc j inc v :
  read_down t n acc = Ok (Versioned (j, inc) v) ->
  exists e, t !! j = Some e /\ e_cell e = CellWrite inc v.
Proof.
  revert acc. induction n as [| n IH]; intros acc E; cbn [read_down] in E; [by destruct acc |].
  destruct (t !! n) as [[f c] |] eqn:En; [| by eauto]. cbn in E.
  destruct (f =? FLAG_ESTIMATE); [done |]. destruct c as [i data | d], acc as [a |].
  - unfold from_write in E. destruct (extract_raw_bytes data) as [b |]; cbn in E.
    + unfold deserialize in E. destruct (bcs_from_bytes b) as [z |]; [| done]. cbn in E.
      by destruct (delta_failure (apply_to a z)).
    + injection E as <- <- <-. by eexists.
  - injection E as <- <- <-. by eexists.
  - destruct (delta_failure (merge_onto a d)); [| done ..]. by eapply IH.
  - by eapply IH.
Qed.

(** A valid read is one that would be captured in the same way. *)
Lemma read_is_valid_captured m i r :
  read_is_valid m i r = Ok true ->
  exists rr, capture_read (mv_read m (access_path r) i) = Ok (rr, kind r).
Proof.
  unfold read_is_valid, capture_read, validate_version, validate_resolved, validate_unresolved,
    validate_storage, validate_delta_application_failure.
  destruct (mv_read m (access_path r) i) as [[v | [j inc] w] | [| d | j |] |]; cbn; intros [= E];
    apply bool_decide_eq_true in E as ->; by eexists.
Qed.

(** Two captures of the same kind give the virtual machine the same value. *)
Lemma captured_value wrote m m' key i rr rr' k :
  consistent wrote m -> consistent wrote m' ->
  capture_read (mv_read m key i) = Ok (rr, k) -> capture_read (mv_read m' key i) = Ok (rr', k) ->
  state_value key rr = state_value key rr'.
Proof.
  intros Hm Hm' E E'. unfold capture_read in E, E'.
  destruct (mv_read m key i) as [[v | [j inc] w] | [| d | j |] |] eqn:Er; try done;
    destruct (mv_read m' key i) as [[v' | [j' inc'] w'] | [| d' | j' |] |] eqn:Er'; try done;
    simplify_eq; try done.
  rewrite mv_read_tree in Er, Er'.
  apply read_down_versioned in Er as (e & He & Hc). apply read_down_versioned in Er' as (e' & He' & Hc').
  pose proof (Hm _ _ _ _ _ He Hc). pose proof (Hm' _ _ _ _ _ He' Hc'). congruence.
Qed.

Lemma validate_reads_cons m i r reads :
  validate_reads m i (r :: reads) = Ok true ->
  read_is_valid m i r = Ok true /\ validate_reads m i reads = Ok true.
Proof. cbn. by destruct (read_is_valid m i r) as [[|] | |]. Qed.

(** A valid execution is the one a transaction would have against the final map, where each read
    gives the value [current]. *)
Lemma executes_replays wrote m i ms p reads status (current : K -> option (list byte)) :
  executes i ms p reads status ->
  consistent wrote m -> Forall (consistent wrote) ms -> validate_reads m i reads = Ok true ->
  (forall key rr k, capture_read (mv_read m key i) = Ok (rr, k) -> state_value key rr = Ok (current key)) ->
  run_program (fun key => Ok (current key)) p = Ok status.
Proof.
  intros Hex Hm. induction Hex as [| m0 ms key cont reads status dep E Hex IH
    | m0 ms key cont reads status rr k E Hp Hex IH]; intros Hms Hv Hcur; [done | ..].
  - apply Forall_cons_1 in Hms as [_ Hms]. by apply IH.
  - apply Forall_cons_1 in Hms as [Hm0 Hms]. apply validate_reads_cons in Hv as [Hr Hv].
    destruct (read_is_valid_captured _ _ _ Hr) as [rr' E']. cbn in E'.
    pose proof (captured_value _ _ _ _ _ _ _ _ Hm0 Hm E E') as Heq.
    rewrite (Hcur _ _ _ E') in Heq. cbn [run_program]. rewrite <- Heq. by apply IH.
Qed.

Lemma run_program_ext view view' p :
  (forall key, view key = view' key) -> run_program view p = run_program view' p.
Proof.
  intros Hv. induction p as [s | key cont IH]; [done |]. cbn. rewrite Hv. by destruct (view' key).
Qed.

(** ** Sequential execution replays the final map *)

Lemma capture_current L m key i current rr k :
  settled_below L (tree_of m key) i -> replay (tree_of m key) i (base_view key) = Ok current ->
  capture_read (mv_read m key i) = Ok (rr, k) -> state_value key rr = Ok current.
Proof.
  intros Hs Er Ec. pose proof (read_down_replay L _ _ _ _ Hs Er) as Hr. rewrite <- mv_read_tree in Hr.
  destruct (mv_read m key i) as [[v | [j inc] w] | [| d | j |] |]; try done; cbn in Ec; injection Ec as <- <-; cbn.
  - by destruct Hr as [-> _].
  - by destruct Hr as [-> _].
  - by subst.
  - destruct Hr as (_ & b & v & r & -> & Ev & Ea & ->). unfold deserialize. rewrite Ev. cbn. by rewrite Ea.
Qed.

(** The writes deltas are materialized to. *)
Lemma try_into_write_set_spec view deltas dw :
  NoDup deltas.*1 -> try_into_write_set view deltas = Ok dw ->
  (forall key d, (key, d) ∈ deltas -> exists b v r, view key = Ok (Some b) /\ bcs_from_bytes b = Some v /\
     apply_to d v = Ok r /\ dw !! key = Some (Modification (serialize r))) /\
  (forall key, key ∉ deltas.*1 -> dw !! key = None).
Proof.
  revert dw. induction deltas as [| [k d] deltas IH]; intros dw Hnd E.
  { injection E as <-. split; [intros key d Hin; by apply elem_of_nil in Hin | intros; apply lookup_empty]. }
  cbn [fmap list_fmap fst] in Hnd. apply list.NoDup_cons in Hnd as [Hk Hnd]. cbn in E.
  unfold try_into_write_op in E. destruct (view k) as [[b |] | |] eqn:Ev; try done. cbn in E.
  unfold deserialize in E. destruct (bcs_from_bytes b) as [v |] eqn:Eb; [| done]. cbn in E.
  destruct (apply_to d v) as [r | |] eqn:Ea; [| done ..]. cbn in E.
  destruct (try_into_write_set view deltas) as [rest | |]; [| done ..]. injection E as <-.
  destruct (IH rest Hnd eq_refl) as [IH1 IH2]. split.
  - intros key d' [[= -> ->] | Hin]%elem_of_cons.
    + exists b, v, r. by rewrite lookup_insert_eq.
    + destruct (IH1 _ _ Hin) as (b' & v' & r' & ? & ? & ? & ?). exists b', v', r'.
      rewrite lookup_insert_ne; [done |]. intros ->. apply Hk, list_elem_of_fmap. by exists (key, d').
  - intros key [Hne Hn]%not_elem_of_cons. rewrite lookup_insert_ne by done. by apply IH2.
Qed.

(** Squashing writes of new keys adds them. *)
Lemma squash_writes_disjoint (l : list (K * WriteOp)) (m m' : gmap K WriteOp) :
  NoDup l.*1 -> (forall key w, (key, w) ∈ l -> m !! key = None) ->
  squash_writes l m = Ok m' ->
  (forall key w, (key, w) ∈ l -> m' !! key = Some w) /\ (forall key, key ∉ l.*1 -> m' !! key = m !! key).
Proof.
  revert m. induction l as [| [k w] l IH]; intros m Hnd Hm E.
  { injection E as <-. split; [intros key w Hin; by apply elem_of_nil in Hin | done]. }
  cbn [fmap list_fmap fst] in Hnd. apply list.NoDup_cons in Hnd as [Hk Hnd]. cbn in E.
  rewrite (Hm k w) in E by (by left). cbn in E.
  assert (Hne : forall key w', (key, w') ∈ l -> key <> k).
  { intros key w' Hin ->. apply Hk, list_elem_of_fmap. by exists (k, w'). }
  destruct (IH (<[k := w]> m) Hnd) as [IH1 IH2]; [| done |].
  { intros key w' Hin. rewrite lookup_insert_ne by (symmetry; eauto). apply (Hm key w'). by right. }
  split.
  - intros key w' [[= -> ->] | Hin]%elem_of_cons; [| by apply IH1]. rewrite IH2 by done. by rewrite lookup_insert_eq.
  - intros key [? ?]%not_elem_of_cons. rewrite IH2 by done. by rewrite lookup_insert_ne.
Qed.

(** What materializing an output from a view comes to. *)
Lemma into_transaction_output_spec Ls view o out :
  wf_output Ls o -> into_transaction_output view o = Ok out ->
  (forall key d, o_deltas o !! key = Some d -> exists b v r, view key = Ok (Some b) /\
     bcs_from_bytes b = Some v /\ apply_to d v = Ok r /\ o_writes out !! key = Some (Modification (serialize r))) /\
  (forall key, o_deltas o !! key = None -> o_writes out !! key = o_writes o !! key) /\
  (out = without_deltas o \/ exists dw, merge_delta_writes o dw = Ok out /\
     o_discarded o || bool_decide (o_deltas o = ∅) = false /\
     (forall key d, o_deltas o !! key = Some d -> dw !! key = o_writes out !! key) /\
     (forall key, o_deltas o !! key = None -> dw !! key = None)).
Proof.
  intros [Hdis Hwf] E. unfold into_transaction_output in E.
  destruct (o_discarded o || _) eqn:Heqb.
  - injection E as <-. assert (Hd : o_deltas o = ∅).
    { apply orb_true_iff in Heqb as [? | Hb]; [by apply Hdis | by apply bool_decide_eq_true in Hb]. }
    split_and!; [| done | by left]. intros key d Hk. by rewrite Hd, lookup_empty in Hk.
  - destruct (try_into_write_set _ _) as [dw | |] eqn:Et; [| done ..]. cbn in E.
    apply try_into_write_set_spec in Et as [H1 H2]; [| apply NoDup_fst_map_to_list].
    assert (Hdw : forall key d, o_deltas o !! key = Some d -> exists b v r, view key = Ok (Some b) /\
      bcs_from_bytes b = Some v /\ apply_to d v = Ok r /\ dw !! key = Some (Modification (serialize r))).
    { intros key d Hk. apply H1. by apply elem_of_map_to_list. }
    assert (Hdn : forall key, o_deltas o !! key = None -> dw !! key = None).
    { intros key Hk. apply H2. rewrite list_elem_of_fmap. intros ([k d] & -> & Hin).
      apply elem_of_map_to_list in Hin. cbn in *. congruence. }
    pose proof E as Em. unfold merge_delta_writes in E.
    destruct (squash_writes _ _) as [ws | |] eqn:Es; [| done ..]. injection E as <-.
    apply squash_writes_disjoint in Es as [S1 S2]; [| apply NoDup_fst_map_to_list |].
    2:{ intros key w Hin%elem_of_map_to_list. destruct (o_deltas o !! key) as [d |] eqn:Ed.
        - by apply Hwf in Ed as (_ & _ & ?). - by rewrite Hdn in Hin. }
    assert (Hws : forall key d, o_deltas o !! key = Some d -> ws !! key = dw !! key).
    { intros key d Hk. destruct (Hdw key d Hk) as (b & v & r & _ & _ & _ & Ew). rewrite Ew.
      apply S1. by apply elem_of_map_to_list. }
    cbn [o_writes]. split_and!.
    + intros key d Hk. rewrite (Hws key d Hk). by apply Hdw.
    + intros key Hk. apply S2. rewrite list_elem_of_fmap. intros ([k w] & -> & Hin).
      apply elem_of_map_to_list in Hin. cbn in *. by rewrite Hdn in Hin.
    + right. exists dw. split_and!; try done. intros key d Hk. symmetry. by eapply Hws.
Qed.

Section commit.
Context (wrote : K -> Version -> option WriteOp) (Ls : K -> Z) (m : MVHashMap K WriteOp)
  (block : list Program) (log : list Recorded).
Hypothesis committed : block_committed wrote m block log.
Hypothesis succeeded :
  forall i r, log !! i = Some r -> exists o, r_status r = Success o /\ wf_output Ls o.

Lemma logged i : (i < length block)%nat ->
  exists p r o, block !! i = Some p /\ log !! i = Some r /\ r_status r = Success o /\ wf_output Ls o /\
    txn_committed wrote m i p r.
Proof using committed succeeded.
  intros Hi. destruct (lookup_lt_is_Some_2 block i Hi) as [p Hp].
  destruct (lookup_lt_is_Some_2 log i) as [r Hr]; [by rewrite (bc_length _ _ _ _ committed) |].
  destruct (succeeded i r Hr) as (o & Ho & Hw). exists p, r, o. split_and!; try done.
  by apply (bc_txns _ _ _ _ committed).
Qed.

Lemma committed_settled key i : (i <= length block)%nat -> settled_below (Ls key) (tree_of m key) i.
Proof using committed succeeded.
  intros Hi j e Hj He. destruct (logged j) as (p & r & o & _ & _ & Ho & [_ Hw] & Hc); [lia |].
  rewrite (tc_entries _ _ _ _ _ Hc), Ho in He. cbn in He.
  destruct (o_deltas o !! key) as [d |] eqn:Ed.
  - injection He as <-. split; [done |]. cbn. by destruct (Hw key d Ed) as (? & ? & _).
  - destruct (o_writes o !! key); [| done]. by injection He as <-.
Qed.

(** The view of a sequential execution after [i] transactions is the replay of the map. *)
Definition in_step (i : nat) (data_map : gmap K WriteOp) : Prop :=
  forall key, exists current, replay (tree_of m key) i (base_view key) = Ok current /\
    btree_value data_map key = Ok current.

Lemma in_step_run i data_map p r :
  in_step i data_map -> block !! i = Some p -> log !! i = Some r ->
  run_program (btree_value data_map) p = Ok (r_status r).
Proof using committed succeeded.
  intros Hstep Hp Hr. pose proof (bc_txns _ _ _ _ committed i p r Hp Hr) as Hc.
  set (current key := match btree_value data_map key with Ok c => c | _ => None end).
  rewrite (run_program_ext _ (fun key => Ok (current key))).
  - eapply executes_replays; [apply Hc | apply committed | apply Hc | apply Hc |].
    intros key rr k Ecap. destruct (Hstep key) as (c & Ec & Eb). unfold current. rewrite Eb.
    eapply capture_current, Ecap; [| exact Ec]. apply (committed_settled key i).
    apply lookup_lt_Some in Hp. lia.
  - intros key. destruct (Hstep key) as (c & _ & Eb). unfold current. by rewrite Eb.
Qed.

Lemma in_step_next i data_map r o out :
  (i < length block)%nat -> in_step i data_map -> log !! i = Some r -> r_status r = Success o ->
  into_transaction_output (btree_value data_map) o = Ok out ->
  in_step (S i) (o_writes out ∪ data_map).
Proof using committed succeeded.
  intros Hi Hstep Hr Ho Eout key. destruct (logged i Hi) as (p & r' & o' & Hp & Hr' & Ho' & Hwf & Hc).
  assert (r' = r) as -> by congruence. assert (o' = o) as -> by congruence.
  destruct (into_transaction_output_spec _ _ _ _ Hwf Eout) as (Hd & Hn & _).
  destruct (Hstep key) as (c & Ec & Eb). cbn [replay]. rewrite Ec. cbn [result_bind].
  rewrite (tc_entries _ _ _ _ _ Hc), Ho. cbn [output_entry].
  unfold btree_value in Eb |- *. destruct (o_deltas o !! key) as [d |] eqn:Ed.
  - destruct (Hd key d Ed) as (b & v & x & Evw & Ev & Ea & Ew).
    unfold btree_value in Evw. rewrite Eb in Evw. injection Evw as ->.
    exists (Some (serialize x)). cbn. unfold deserialize. rewrite Ev. cbn. rewrite Ea.
    by rewrite (lookup_union_Some_l _ _ _ _ Ew).
  - specialize (Hn key Ed). destruct (o_writes o !! key) as [w |].
    + exists (extract_raw_bytes w). split; [done |]. by rewrite (lookup_union_Some_l _ _ _ _ Hn).
    + exists c. split; [done |]. by rewrite lookup_union_r.
Qed.

(** The outputs of a sequential execution of the rest of the block. *)
Definition sequential_output (i : nat) (out : TxnOutput) : Prop :=
  exists r o data_map, log !! i = Some r /\ r_status r = Success o /\ in_step i data_map /\
    into_transaction_output (btree_value data_map) o = Ok out.

Lemma execute_sequential_spec i data_map outs :
  (i <= length block)%nat -> in_step i data_map ->
  execute_sequential (drop i block) data_map = Ok outs ->
  (forall key, exists current, replay (tree_of m key) (length block) (base_view key) = Ok current) /\
  length outs = (length block - i)%nat /\
  forall j out, outs !! j = Some out -> sequential_output (i + j) out.
Proof using committed succeeded.
  intros Hi. remember (length block - i)%nat as k eqn:Hk. revert i data_map outs Hi Hk.
  induction k as [| k IH]; intros i data_map outs Hi Hk Hstep E.
  - rewrite drop_ge in E by lia. injection E as <-. assert (i = length block) as -> by lia.
    split_and!; [| done | by intros j out Hj]. intros key. destruct (Hstep key) as (c & ? & _). eauto.
  - destruct (logged i) as (p & r & o & Hp & Hr & Ho & Hwf & Hc); [lia |].
    rewrite (drop_S block p i Hp) in E. cbn [execute_sequential] in E. unfold execute_sequential_txn in E.
    rewrite (in_step_run i data_map p r Hstep Hp Hr), Ho in E. cbn [result_bind] in E.
    destruct (into_transaction_output (btree_value data_map) o) as [out0 | |] eqn:Eout; [| done ..].
    cbn [result_bind] in E. destruct (execute_sequential (drop (S i) block) _) as [rest | |] eqn:Er; [| done ..].
    injection E as <-. destruct (IH (S i) (o_writes out0 ∪ data_map) rest) as (Hrep & Hlen & Hout); [lia | lia | | done |].
    { eapply in_step_next; eauto. lia. }
    split_and!; [done | cbn; lia |]. intros [| j] out Hj.
    + injection Hj as <-. rewrite Nat.add_0_r. exists r, o, data_map. done.
    + rewrite Nat.add_succ_r. by apply Hout.
Qed.

(** ** Resolving the deltas of the block replays the final map *)

Definition resolved_at (tree : Tree WriteOp) (base : option (list byte)) (out : gmap TxnIndex Z) (idx : nat) : Prop :=
  match e_cell <$> tree !! idx with
  | Some (CellDelta _) => exists x, replay tree (S idx) base = Ok (Some (serialize x)) /\ out !! idx = Some x
  | _ => out !! idx = None
  end.

Lemma resolve_key_spec L tree n base current :
  settled_below L tree n -> replay tree n base = Ok current ->
  (forall b, base = Some b -> bcs_from_bytes b <> None) ->
  (forall j incarnation data b, (e_cell <$> tree !! j) = Some (CellWrite incarnation data) ->
     extract_raw_bytes data = Some b -> bcs_from_bytes b <> None) ->
  exists latest out, resolve_key tree n base = Ok (latest, out) /\
    match current with Some b => exists v, latest = Some v /\ bcs_from_bytes b = Some v | None => latest = None end /\
    (forall idx, (idx < n)%nat -> resolved_at tree base out idx) /\
    (forall idx, (n <= idx)%nat -> out !! idx = None).
Proof.
  intros Hs Hr Hb Hw. revert current Hs Hr. induction n as [| n IH]; intros current Hs Hr.
  { cbn in Hr |- *. injection Hr as <-. destruct base as [b |].
    - unfold deserialize. specialize (Hb b eq_refl). destruct (bcs_from_bytes b) as [v |] eqn:Ev; [| done].
      exists (Some v), ∅. split; [done |]. split; [by exists v |]. split; [lia |]. intros; apply lookup_empty.
    - exists None, ∅. split; [done |]. split; [done |]. split; [lia |]. intros; apply lookup_empty. }
  pose proof Hr as HrS. cbn [replay] in Hr. destruct (replay tree n base) as [cur | |] eqn:Ec; [| done ..].
  cbn [result_bind] in Hr. destruct (IH cur) as (latest & out & E & Hl & Hat & Hout); [| done |].
  { intros j e ? ?. apply (Hs j e); [lia | done]. }
  cbn [resolve_key]. rewrite E. cbn [result_bind].
  destruct (tree !! n) as [[f [inc data | d]] |] eqn:En; cbn [e_cell] in *.
  - assert (current = extract_raw_bytes data) as -> by by injection Hr. unfold from_write.
    exists (extract_raw_bytes data ≫= bcs_from_bytes), out.
    assert (Hat' : forall idx, (idx < S n)%nat -> resolved_at tree base out idx).
    { intros idx Hi. destruct (decide (idx = n)) as [-> | ?]; [| apply Hat; lia].
      unfold resolved_at. rewrite En. cbn. apply Hout. lia. }
    destruct (extract_raw_bytes data) as [b |] eqn:Ed; cbn [mbind option_bind result_bind].
    + unfold deserialize. specialize (Hw n inc data b). rewrite En in Hw. specialize (Hw eq_refl Ed).
      destruct (bcs_from_bytes b) as [v |] eqn:Ev; [| done].
      split; [done |]. split; [by exists v |]. split; [done |]. intros; apply Hout; lia.
    + split; [done |]. split; [done |]. split; [done |]. intros; apply Hout; lia.
  - destruct (Hs n _ (Nat.lt_succ_diag_r n) En) as [_ [Hd HdL]].
    destruct current as [bytes |]; [| cbn in Hr; destruct cur as [b |]; [| done]; cbn in Hr;
      unfold deserialize in Hr; destruct (bcs_from_bytes b); [| done]; cbn in Hr; by destruct (apply_to d z)].
    destruct (replay_delta (V := WriteOp) _ _ _ Hd Hr) as (b & v & x & -> & Ev & _ & Ea & Hx & ->).
    destruct Hl as (v' & -> & Ev'). assert (v' = v) as -> by congruence. cbn. rewrite Ea.
    exists (Some x), (<[n := x]> out). split_and!; [done | | |].
    + exists x. split; [done |]. unfold serialize. by rewrite bcs_roundtrip.
    + intros idx Hi. destruct (decide (idx = n)) as [-> | Hne].
      * unfold resolved_at. rewrite En. cbn [fmap option_fmap option_map e_cell]. exists x. split; [exact HrS | by rewrite lookup_insert_eq].
      * specialize (Hat idx ltac:(lia)). unfold resolved_at in *. by rewrite lookup_insert_ne.
    + intros idx Hi. rewrite lookup_insert_ne by lia. apply Hout. lia.
  - injection Hr as <-. exists latest, out. split_and!; [done | done | |].
    + intros idx Hi. destruct (decide (idx = n)) as [-> | ?]; [| apply Hat; lia].
      unfold resolved_at. rewrite En. cbn. apply Hout. lia.
    + intros; apply Hout; lia.
Qed.

Lemma resolve_spec keys n :
  NoDup keys ->
  (forall key, key ∈ keys -> exists tree r, m !! key = Some tree /\ resolve_key tree n (base_view key) = Ok r) ->
  exists resolved, resolve m keys n = Ok resolved /\
    (forall key, key ∈ keys -> exists tree r, m !! key = Some tree /\
       resolve_key tree n (base_view key) = Ok r /\ resolved !! key = Some r.2) /\
    (forall key, key ∉ keys -> resolved !! key = None).
Proof.
  induction keys as [| k keys IH]; intros Hnd Hk.
  { exists ∅. split_and!; [done | intros key Hin; by apply elem_of_nil in Hin | intros; apply lookup_empty]. }
  apply list.NoDup_cons in Hnd as [Hn Hnd]. destruct (Hk k) as (tree & r & Et & Er); [by left |].
  destruct IH as (resolved & E & H1 & H2); [done | intros; apply Hk; by right |].
  exists (<[k := r.2]> resolved). cbn. rewrite Et. cbn. rewrite Er. cbn. rewrite E. cbn. split_and!; [done | |].
  - intros key [-> | Hin]%elem_of_cons.
    + exists tree, r. by rewrite lookup_insert_eq.
    + rewrite lookup_insert_ne by (intros ->; done). by apply H1.
  - intros key [? ?]%not_elem_of_cons. rewrite lookup_insert_ne by done. by apply H2.
Qed.

Hypothesis decode : aggregators_decode m.
Hypothesis replayed :
  forall key, exists current, replay (tree_of m key) (length block) (base_view key) = Ok current.

(** The entry of transaction [i] in the map, for an output with deltas. *)
Lemma committed_cell i r o key :
  log !! i = Some r -> r_status r = Success o ->
  (e_cell <$> tree_of m key !! i) =
    match o_deltas o !! key, o_writes o !! key with
    | Some d, _ => Some (CellDelta d)
    | None, Some w => Some (CellWrite (r_incarnation r) w)
    | None, None => None
    end.
Proof using committed succeeded.
  intros Hr Ho. assert (Hi : (i < length block)%nat).
  { rewrite <- (bc_length _ _ _ _ committed). by eapply lookup_lt_Some. }
  destruct (logged i Hi) as (p & r' & o' & _ & Hr' & _ & _ & Hc). assert (r' = r) as -> by congruence.
  rewrite (tc_entries _ _ _ _ _ Hc), Ho. cbn. by destruct (o_deltas o !! key), (o_writes o !! key).
Qed.

(** Resolving a key some transaction has a delta for. *)
Lemma resolve_key_committed key i r o d :
  log !! i = Some r -> r_status r = Success o -> o_deltas o !! key = Some d ->
  exists tree latest out, m !! key = Some tree /\ tree_of m key = tree /\
    resolve_key tree (length block) (base_view key) = Ok (latest, out) /\
    forall idx, (idx < length block)%nat -> resolved_at tree (base_view key) out idx.
Proof using committed succeeded decode replayed.
  intros Hr Ho Ed. pose proof (committed_cell i r o key Hr Ho) as Hc. rewrite Ed in Hc.
  destruct (decode key i d Hc) as [Hb Hw]. destruct (replayed key) as [cur Ecur].
  destruct (resolve_key_spec _ _ _ _ _ (committed_settled key _ (Nat.le_refl _)) Ecur Hb Hw)
    as (latest & out & E & _ & Hat & _).
  destruct (m !! key) as [tree |] eqn:Et.
  - pose proof (tree_of_Some _ _ _ Et) as Ht. rewrite Ht in E, Hat.
    exists tree, latest, out. done.
  - by rewrite (tree_of_None _ _ Et), lookup_empty in Hc.
Qed.

(** The keys with deltas, and what they resolve to. *)
Definition aggregator_keys_of (keys : list K) : Prop :=
  NoDup keys /\ forall key, key ∈ keys <->
    exists j r o d, log !! j = Some r /\ r_status r = Success o /\ o_deltas o !! key = Some d.

Lemma resolve_committed keys :
  aggregator_keys_of keys ->
  exists resolved, resolve m keys (length block) = Ok resolved /\
    forall key i r o, log !! i = Some r -> r_status r = Success o ->
      match o_deltas o !! key with
      | Some _ => exists x, replay (tree_of m key) (S i) (base_view key) = Ok (Some (serialize x)) /\
          delta_writes_of resolved i !! key = Some (Modification (serialize x))
      | None => delta_writes_of resolved i !! key = None
      end.
Proof using committed succeeded decode replayed.
  intros [Hnd Hkeys]. destruct (resolve_spec keys (length block)) as (resolved & E & Hres & Hnres); [done | |].
  { intros key Hk. destruct (proj1 (Hkeys key) Hk) as (j & rj & oj & d & Hrj & Hoj & Hdj).
    destruct (resolve_key_committed key j rj oj d Hrj Hoj Hdj) as (t & l & u & ? & _ & ? & _). eauto. }
  exists resolved. split; [done |]. intros key i r o Hr Ho. unfold delta_writes_of. rewrite lookup_omap.
  destruct (decide (key ∈ keys)) as [Hk | Hk].
  - destruct (proj1 (Hkeys key) Hk) as (j & rj & oj & dj & Hrj & Hoj & Hdj).
    destruct (resolve_key_committed key j rj oj dj Hrj Hoj Hdj) as (t & l & u & Et & Ht & Eu & Hat).
    destruct (Hres key Hk) as (t' & r' & Et' & Er' & ->).
    assert (t' = t) as -> by congruence. assert (r' = (l, u)) as -> by congruence. cbn.
    assert (Hi : (i < length block)%nat) by (rewrite <- (bc_length _ _ _ _ committed); by eapply lookup_lt_Some).
    specialize (Hat i Hi). unfold resolved_at in Hat. rewrite <- Ht, (committed_cell i r o key Hr Ho) in Hat.
    destruct (o_deltas o !! key) as [d |].
    + destruct Hat as (x & Ex & ->). by exists x.
    + destruct (o_writes o !! key); by rewrite Hat.
  - rewrite (Hnres key Hk). destruct (o_deltas o !! key) as [d |] eqn:Ed; [| done].
    destruct Hk. apply Hkeys. eauto 8.
Qed.

Lemma finish_one keys resolved i out :
  aggregator_keys_of keys -> resolve m keys (length block) = Ok resolved -> sequential_output i out ->
  exists r o, log !! i = Some r /\ r_status r = Success o /\
    output_with_delta_writes o (delta_writes_of resolved i) = Ok out.
Proof using committed succeeded decode replayed.
  intros Hkeys Eres (r & o & data_map & Hr & Ho & Hstep & Eout). exists r, o. split; [done |]. split; [done |].
  destruct (succeeded i r Hr) as (o' & Ho' & Hwf). assert (o' = o) as -> by congruence.
  destruct (into_transaction_output_spec _ _ _ _ Hwf Eout) as (Hd & _ & Hcase).
  unfold output_with_delta_writes. unfold into_transaction_output in Eout.
  destruct (o_discarded o || bool_decide (o_deltas o = ∅)) eqn:Eb; [by rewrite Eout |].
  destruct Hcase as [-> | (dw & Em & _ & Hdw & Hdn)].
  { destruct (map_choose (o_deltas o)) as (key & d & Ek).
    - apply orb_false_iff in Eb as [_ Eb]. by apply bool_decide_eq_false in Eb.
    - destruct (Hd key d Ek) as (b & v & x & _ & _ & _ & Ew). cbn in Ew.
      destruct Hwf as [_ Hwf]. destruct (Hwf key d Ek) as (_ & _ & Hn). congruence. }
  destruct (resolve_committed keys Hkeys) as (resolved' & E' & Hres).
  assert (resolved' = resolved) as -> by congruence.
  assert (delta_writes_of resolved i = dw) as ->.
  { apply map_eq. intros key. specialize (Hres key i r o Hr Ho).
    pose proof (committed_cell i r o key Hr Ho) as Hc.
    destruct (o_deltas o !! key) as [d |] eqn:Ed; [| by rewrite Hdn].
    destruct Hres as (x & Ex & ->). rewrite (Hdw key d Ed). destruct (Hd key d Ed) as (b & v & y & Evw & Ev & Ea & ->).
    destruct (Hstep key) as (c & Ec & Ebt). rewrite Evw in Ebt. injection Ebt as <-.
    cbn [replay] in Ex. rewrite Ec in Ex. cbn [result_bind] in Ex.
    destruct (tree_of m key !! i) as [e |]; [| done]. cbn in Hc. injection Hc as Hc. rewrite Hc in Ex. cbn in Ex.
    unfold deserialize in Ex. rewrite Ev in Ex. cbn in Ex. rewrite Ea in Ex. by injection Ex as <-. }
  rewrite bool_decide_eq_true_2; [done |].
  rewrite <- !size_dom. f_equal. apply set_eq. intros key. rewrite !elem_of_dom.
  destruct (o_deltas o !! key) as [d |] eqn:Ed; [| by rewrite Hdn].
  destruct (Hd key d Ed) as (_ & _ & x & _ & _ & _ & Ew). by rewrite (Hdw key d Ed), Ew.
Qed.
End commit.

Lemma collect_outputs_success (log : list Recorded) :
  (forall i r, log !! i = Some r -> exists o, r_status r = Success o) ->
  exists results, collect_outputs (r_status <$> log) = Ok results /\ length results = length log /\
    forall i o, results !! i = Some o <-> exists r, log !! i = Some r /\ r_status r = Success o.
Proof.
  induction log as [| r log IH]; intros Hs.
  { exists []. split; [done |]. split; [done |]. intros i o. split; [done |]. by intros (r & ? & _). }
  destruct (Hs 0%nat r eq_refl) as [o Ho]. destruct IH as (results & E & Hl & Hi).
  { intros i r' ?. by apply (Hs (S i)). }
  exists (o :: results). cbn. rewrite Ho, E. cbn. split; [done |]. split; [by rewrite Hl |].
  intros [| i] o'; cbn; [| apply Hi]. split.
  - intros [= <-]. by exists r.
  - intros (r' & [= <-] & ?). congruence.
Qed.

Lemma finish_outputs_spec resolved k results outs :
  length results = length outs ->
  (forall i o out, results !! i = Some o -> outs !! i = Some out ->
     output_with_delta_writes o (delta_writes_of resolved (k + i)) = Ok out) ->
  finish_outputs resolved k results = Ok outs.
Proof.
  revert k outs. induction results as [| o results IH]; intros k [| out outs] Hl Hf; try done.
  cbn. specialize (Hf 0%nat o out eq_refl eq_refl) as H0. rewrite Nat.add_0_r in H0. rewrite H0. cbn.
  rewrite (IH (S k) outs); [done | by injection Hl |].
  intros i o' out' Hi Hi'. specialize (Hf (S i) o' out' Hi Hi'). by rewrite Nat.add_succ_r in Hf.
Qed.

Lemma resize_outputs_same (l : list TxnOutput) n : length l = n -> resize_outputs l n = l.
Proof. intros <-. unfold resize_outputs. rewrite take_ge by lia. by rewrite Nat.sub_diag, app_nil_r. Qed.

(** The keys [process_parallel_block_output] resolves. *)
Lemma aggregator_keys_elements (log : list Recorded) results :
  (forall i o, results !! i = Some o <-> exists r, log !! i = Some r /\ r_status r = Success o) ->
  aggregator_keys_of log (elements (⋃ ((fun res => dom (o_deltas res)) <$> results) : gset K)).
Proof.
  intros Hres. split; [apply NoDup_elements |]. intros key. rewrite elem_of_elements, elem_of_union_list. split.
  - intros (X & (o & -> & Hin)%list_elem_of_fmap & Hk). apply list_elem_of_lookup in Hin as [i Hi].
    apply Hres in Hi as (r & Hr & Ho). apply elem_of_dom in Hk as [d Hd]. by exists i, r, o, d.
  - intros (i & r & o & d & Hr & Ho & Hd). exists (dom (o_deltas o)). split; [| by apply elem_of_dom].
    apply list_elem_of_fmap. exists o. split; [done |]. apply (list_elem_of_lookup_2 _ i). apply Hres. eauto.
Qed.

End stm.

(** ** An instance

    A counter in storage, raised by transaction 0 with a delta; transaction 1 reads it, after
    waiting for an estimate of transaction 0, and stores what it read. *)

Definition counter_delta : DeltaOp := mkDeltaOp 2 0 100 (Plus 2).

Definition sample_output (writes : gmap nat WriteOp) (deltas : gmap nat DeltaOp) :
    TxnOutput (K := nat) (Info := unit) := mkTxnOutput writes deltas false tt.

Definition sample_block : list (Program (K := nat) (Info := unit) (Failure := unit)) :=
  [ Finish (Success (sample_output ∅ {[7%nat := counter_delta]}));
    Fetch 7%nat (fun v =>
      Finish (Success (sample_output
        {[8%nat := Creation (match v with Ok (Some b) => b | _ => [] end)]} ∅))) ].

Definition sample_base (key : nat) : option (list byte) :=
  if decide (key = 7%nat) then Some (bcs_to_bytes (BcsU128 := bcs_le) 40) else None.

Definition sample_value : WriteOp := Creation (bcs_to_bytes (BcsU128 := bcs_le) 42).

Definition estimate_map : MVHashMap nat WriteOp :=
  {[7%nat := {[0%nat := entry_mark_estimate (new_delta_from FLAG_DONE counter_delta)]}]}.

Definition final_map : MVHashMap nat WriteOp :=
  {[7%nat := {[0%nat := new_delta_from FLAG_DONE counter_delta]};
    8%nat := {[1%nat := new_write_from FLAG_DONE 1%nat sample_value]}]}.

Definition sample_log : list (Recorded (K := nat) (Info := unit) (Failure := unit)) :=
  [ mkRecorded 1%nat [] (Success (sample_output ∅ {[7%nat := counter_delta]})) [];
    mkRecorded 1%nat [mkRead 7%nat (KUnresolved counter_delta)]
      (Success (sample_output {[8%nat := sample_value]} ∅)) [estimate_map; final_map] ].

Definition sample_wrote (key : nat) (v : Version) : option WriteOp :=
  if decide ((key, v) = (8%nat, (1%nat, 1%nat))) then Some sample_value else None.

Lemma final_map_entry key j e :
  tree_of final_map key !! j = Some e ->
  (key = 7%nat /\ j = 0%nat /\ e = new_delta_from FLAG_DONE counter_delta) \/
  (key = 8%nat /\ j = 1%nat /\ e = new_write_from FLAG_DONE 1%nat sample_value).
Proof.
  destruct (decide (key = 7%nat)) as [-> | H7].
  - rewrite (tree_of_Some _ 7%nat {[0%nat := new_delta_from FLAG_DONE counter_delta]}) by done.
    intros [<- <-]%lookup_singleton_Some. by left.
  - destruct (decide (key = 8%nat)) as [-> | H8].
    + rewrite (tree_of_Some _ 8%nat {[1%nat := new_write_from FLAG_DONE 1%nat sample_value]}) by done.
      intros [<- <-]%lookup_singleton_Some. by right.
    + rewrite tree_of_None, lookup_empty; [done |]. unfold final_map.
      by rewrite lookup_insert_ne, lookup_singleton_ne.
Qed.

Lemma sample_committed :
  block_committed (BCS := bcs_le) sample_base sample_wrote final_map sample_block sample_log.
Proof.
  assert (Hf : consistent sample_wrote final_map).
  { intros key j e inc v He Hc. apply final_map_entry in He as [(-> & -> & ->) | (-> & -> & ->)]; [done |].
    cbn in Hc. by injection Hc as <- <-. }
  assert (He : consistent sample_wrote estimate_map).
  { intros key j e inc v He Hc. destruct (decide (key = 7%nat)) as [-> | H7].
    - rewrite (tree_of_Some _ 7%nat {[0%nat := entry_mark_estimate (new_delta_from FLAG_DONE counter_delta)]}) in He by done.
      by apply lookup_singleton_Some in He as [<- <-].
    - rewrite tree_of_None in He by (by apply lookup_singleton_ne). by rewrite lookup_empty in He. }
  split; [done | | done].
  intros [| [| i]] p r Hp Hr; [injection Hp as <-; injection Hr as <- .. | done].
  - split; [constructor | done | | constructor]. intros key. cbn [r_incarnation r_status output_entry o_deltas o_writes sample_output].
    destruct (decide (key = 7%nat)) as [-> | ?]; [by vm_compute |].
    rewrite lookup_singleton_ne, lookup_empty by done.
    destruct (tree_of final_map key !! 0%nat) eqn:E; [| done]. apply final_map_entry in E. lia.
  - split; [| by vm_compute | | by repeat constructor].
    + eapply executes_wait; [by vm_compute |].
      eapply (executes_read (BCS := bcs_le) sample_base 1%nat final_map [] 7%nat _ [] _ (ReadUnresolved counter_delta)
        (KUnresolved counter_delta)); [by vm_compute | by vm_compute |].
      apply executes_finish.
    + intros key. cbn [r_incarnation r_status output_entry o_deltas o_writes sample_output].
      rewrite lookup_empty. destruct (decide (key = 8%nat)) as [-> | ?]; [by vm_compute |].
      rewrite lookup_singleton_ne by done.
      destruct (tree_of final_map key !! 1%nat) eqn:E; [| done]. apply final_map_entry in E. lia.
Qed.


(** ** Recording an execution *)

Section recording.
Context {BCS : BcsU128} {K : Type} `{Countable K} {Info Failure : Type}.
Abbreviation Map := (MVHashMap K WriteOp).
Abbreviation Status := (ExecutionStatus (K := K) (Info := Info) (Failure := Failure)).

(** The map after a loop over [keys] that gave each of them the entry [f] at [idx]. *)
Definition updated (idx : TxnIndex) (keys : list K) (f : K -> option (Entry WriteOp)) (m m' : Map) : Prop :=
  (forall key i, tree_of m' key !! i =
     if decide (i = idx /\ key ∈ keys) then f key else tree_of m key !! i) /\
  (forall key, m !! key <> None -> m' !! key <> None) /\
  (forall key, key ∈ keys -> m' !! key <> None).

Lemma updated_nil idx f m : updated idx [] f m m.
Proof.
  split_and!; [| done | intros key Hk; by apply elem_of_nil in Hk].
  intros key i. rewrite decide_False; [done |]. intros [_ Hk]. by apply elem_of_nil in Hk.
Qed.

Lemma updated_cons idx k keys f m m1 m' :
  k ∉ keys -> updated idx [k] f m m1 -> updated idx keys f m1 m' -> updated idx (k :: keys) f m m'.
Proof.
  intros Hk (E1 & D1 & K1) (E2 & D2 & K2). split_and!; [| eauto |].
  - intros key i. rewrite E2, E1.
    destruct (decide (i = idx)) as [-> | Hi]; [| by rewrite !decide_False by (intros [? _]; done)].
    destruct (decide (key ∈ keys)) as [Hin | Hin].
    + rewrite decide_True by done. by rewrite decide_True by (split; [done | by right]).
    + rewrite decide_False by (intros [_ ?]; done). destruct (decide (key = k)) as [-> | Hne].
      * rewrite decide_True by (split; [done | by left]). by rewrite decide_True by (split; [done | by left]).
      * rewrite decide_False by (intros [_ ?%list_elem_of_singleton]; done).
        by rewrite decide_False by (intros [_ [? | ?]%elem_of_cons]; done).
  - intros key [-> | Hin]%elem_of_cons; [| by apply K2]. apply D2, K1. by left.
Qed.

Lemma updated_ext idx keys f g m m' :
  (forall key, key ∈ keys -> f key = g key) -> updated idx keys f m m' -> updated idx keys g m m'.
Proof.
  intros Hfg (E & D & Hk). split_and!; [| done | done]. intros key i. rewrite E.
  destruct (decide _) as [[_ Hin] |]; [by apply Hfg | done].
Qed.

(** The flag of a key outside of the last write set, along a loop. *)
Lemma outside_step (prev : gset K) k keys outside outside' :
  k ∉ keys ->
  (outside' = false <-> outside || bool_decide (k ∉ prev) = false /\ forall key, key ∈ keys -> key ∈ prev ∖ {[k]}) ->
  (outside' = false <-> outside = false /\ forall key, key ∈ k :: keys -> key ∈ prev).
Proof.
  intros Hk ->. rewrite orb_false_iff, bool_decide_eq_false. split; intros [Ho1 Ho2].
  - destruct Ho1 as [Ho1 Ho3%dec_stable]. split; [done |]. intros key [-> | Hin]%elem_of_cons; [done |].
    by apply Ho2, elem_of_difference in Hin as [? _].
  - split; [split; [done | intros Hn; apply Hn, Ho2; by left] |]. intros key Hin.
    apply elem_of_difference. split; [apply Ho2; by right |]. rewrite elem_of_singleton. by intros ->.
Qed.

Lemma updated_insert idx k e (m : Map) f :
  f k = Some e -> updated idx [k] f m (<[k := <[idx := e]> (tree_of m k)]> m).
Proof.
  intros Hf. split_and!.
  - intros key i. rewrite tree_of_insert.
    destruct (decide (key = k)) as [-> | Hne]; [| by rewrite decide_False by (intros [_ ?%list_elem_of_singleton]; done)].
    destruct (decide (i = idx)) as [-> | Hi].
    + rewrite decide_True by (split; [done | by left]). by rewrite lookup_insert_eq.
    + rewrite decide_False by (intros [? _]; done). by rewrite lookup_insert_ne.
  - intros key Hk. destruct (decide (key = k)) as [-> | Hne];
      [by rewrite lookup_insert_eq | by rewrite lookup_insert_ne].
  - intros key ->%list_elem_of_singleton. by rewrite lookup_insert_eq.
Qed.

(** No entry of this or a later incarnation is overwritten. *)
Definition fresh (version : Version) (m : Map) : Prop :=
  forall key e i v, tree_of m key !! version.1 = Some e -> e_cell e = CellWrite i v -> (i < version.2)%nat.

Lemma apply_writes_spec idx inc l prev outside (m : Map) :
  NoDup l.*1 ->
  (forall key w e i v, (key, w) ∈ l -> tree_of m key !! idx = Some e -> e_cell e = CellWrite i v -> (i < inc)%nat) ->
  exists m' outside', apply_writes (idx, inc) l prev outside m = (Ok (prev ∖ list_to_set l.*1, outside'), m') /\
    (outside' = false <-> outside = false /\ forall key, key ∈ l.*1 -> key ∈ prev) /\
    updated idx l.*1 (fun key => new_write_from FLAG_DONE inc <$> (list_to_map l : gmap K WriteOp) !! key) m m'.
Proof.
  revert prev outside m. induction l as [| [k w] l IH]; intros prev outside m Hnd Hf.
  { exists m, outside. cbn. split; [| split; [| apply updated_nil]].
    - by rewrite difference_empty_L.
    - split; [intros; split; [done |] | by intros []]. intros key Hk. by apply elem_of_nil in Hk. }
  cbn [fmap list_fmap fst] in Hnd |- *. apply list.NoDup_cons in Hnd as [Hk Hnd].
  set (m1 := <[k := <[idx := new_write_from FLAG_DONE inc w]> (tree_of m k)]> m).
  assert (Ea : add_write k (idx, inc) w m = (Ok tt, m1)).
  { unfold add_write. destruct (tree_of m k !! idx) as [[f [i v | d]] |] eqn:Et; try done.
    rewrite bool_decide_eq_true_2; [done |]. eapply Hf; [by left | exact Et | done]. }
  destruct (IH (prev ∖ {[k]}) (outside || bool_decide (k ∉ prev)) m1) as (m' & o' & E & Ho & Hu); [done | |].
  { intros key w' e i v Hin He Hc. eapply (Hf key w'); [by right | | done]. rewrite <- He. unfold m1. rewrite tree_of_insert.
    rewrite decide_False; [done |]. intros ->. apply Hk, list_elem_of_fmap. by exists (k, w'). }
  exists m', o'. cbn [apply_writes]. unfold bind. rewrite Ea, E. split; [| split].
  - by rewrite list_to_set_cons, difference_difference_l_L.
  - exact (outside_step _ _ _ _ _ Hk Ho).
  - eapply updated_cons; [done | apply updated_insert; cbn; by rewrite lookup_insert_eq |].
    eapply updated_ext, Hu. intros key Hin. cbn. rewrite lookup_insert_ne; [done |]. by intros ->.
Qed.

Lemma apply_deltas_spec idx l prev outside (m : Map) :
  NoDup l.*1 ->
  exists m' outside', apply_deltas idx l prev outside m = (Ok (prev ∖ list_to_set l.*1, outside'), m') /\
    (outside' = false <-> outside = false /\ forall key, key ∈ l.*1 -> key ∈ prev) /\
    updated idx l.*1 (fun key => new_delta_from FLAG_DONE <$> (list_to_map l : gmap K DeltaOp) !! key) m m'.
Proof.
  revert prev outside m. induction l as [| [k d] l IH]; intros prev outside m Hnd.
  { exists m, outside. cbn. split; [| split; [| apply updated_nil]].
    - by rewrite difference_empty_L.
    - split; [intros; split; [done |] | by intros []]. intros key Hk. by apply elem_of_nil in Hk. }
  cbn [fmap list_fmap fst] in Hnd |- *. apply list.NoDup_cons in Hnd as [Hk Hnd].
  set (m1 := <[k := <[idx := new_delta_from FLAG_DONE d]> (tree_of m k)]> m).
  destruct (IH (prev ∖ {[k]}) (outside || bool_decide (k ∉ prev)) m1) as (m' & o' & E & Ho & Hu); [done |].
  exists m', o'. cbn [apply_deltas]. unfold bind, add_delta. fold m1. rewrite E. split; [| split].
  - by rewrite list_to_set_cons, difference_difference_l_L.
  - exact (outside_step _ _ _ _ _ Hk Ho).
  - eapply updated_cons; [done | apply updated_insert; cbn; by rewrite lookup_insert_eq |].
    eapply updated_ext, Hu. intros key Hin. cbn. rewrite lookup_insert_ne; [done |]. by intros ->.
Qed.

Lemma delete_keys_spec idx keys (m : Map) :
  NoDup keys -> (forall key, key ∈ keys -> m !! key <> None) ->
  exists m', delete_keys idx keys m = (Ok tt, m') /\ updated idx keys (fun _ => None) m m'.
Proof.
  revert m. induction keys as [| k keys IH]; intros m Hnd Hk; [exists m; split; [done | apply updated_nil] |].
  apply list.NoDup_cons in Hnd as [Hn Hnd]. cbn [delete_keys]. unfold bind, mv_delete.
  destruct (m !! k) as [t |] eqn:Et; [| by destruct (Hk k); [left |]].
  assert (Hne : forall key, <[k := delete idx t]> m !! key <> None <-> m !! key <> None).
  { intros key. destruct (decide (key = k)) as [-> | ?]; [by rewrite lookup_insert_eq, Et | by rewrite lookup_insert_ne]. }
  destruct (IH (<[k := delete idx t]> m) Hnd) as (m' & E & Hu).
  { intros key Hin. apply Hne, Hk. by right. }
  exists m'. split; [done |]. eapply updated_cons; [done | | exact Hu]. split_and!.
  - intros key i. rewrite tree_of_insert.
    destruct (decide (key = k)) as [-> | ?]; [| by rewrite decide_False by (intros [_ ?%list_elem_of_singleton]; done)].
    rewrite (tree_of_Some _ _ _ Et). destruct (decide (i = idx)) as [-> | ?].
    + rewrite decide_True by (split; [done | by left]). by rewrite lookup_delete_eq.
    + rewrite decide_False by (intros [? _]; done). by rewrite lookup_delete_ne.
  - intros key. by rewrite Hne.
  - intros key ->%list_elem_of_singleton. by rewrite Hne, Et.
Qed.

Lemma keys_of_map {A} (x : gmap K A) key : key ∈ (map_to_list x).*1 <-> key ∈ dom x.
Proof.
  rewrite elem_of_dom, list_elem_of_fmap. split.
  - intros ([k a] & -> & Hin%elem_of_map_to_list). by eexists.
  - intros [a Ha]. exists (key, a). split; [done |]. by apply elem_of_map_to_list.
Qed.

(** The two loops over an output. *)
Lemma apply_updates_spec idx inc (o : TxnOutput (K := K) (Info := Info)) prev (m : Map) :
  (forall key d, o_deltas o !! key = Some d -> o_writes o !! key = None) -> fresh (idx, inc) m ->
  exists m' outside rest,
    (w <~ apply_writes (idx, inc) (map_to_list (o_writes o)) prev false ;;
     apply_deltas idx (map_to_list (o_deltas o)) w.1 w.2) m = (Ok (rest, outside), m') /\
    rest = prev ∖ (dom (o_writes o) ∪ dom (o_deltas o)) /\
    (outside = false <-> dom (o_writes o) ∪ dom (o_deltas o) ⊆ prev) /\
    (forall key i, tree_of m' key !! i =
       if decide (i = idx /\ key ∈ dom (o_writes o) ∪ dom (o_deltas o))
       then output_entry (Failure := Failure) inc (Success o) key else tree_of m key !! i) /\
    (forall key, m !! key <> None -> m' !! key <> None) /\
    (forall key, key ∈ dom (o_writes o) ∪ dom (o_deltas o) -> m' !! key <> None).
Proof.
  intros Hdis Hf.
  destruct (apply_writes_spec idx inc (map_to_list (o_writes o)) prev false m) as (m1 & o1 & E1 & Ho1 & U1 & D1 & K1);
    [apply NoDup_fst_map_to_list | intros key w e i v _; apply (Hf key) |].
  destruct (apply_deltas_spec idx (map_to_list (o_deltas o)) (prev ∖ list_to_set (map_to_list (o_writes o)).*1) o1 m1)
    as (m2 & o2 & E2 & Ho2 & U2 & D2 & K2); [apply NoDup_fst_map_to_list |].
  exists m2, o2, (prev ∖ (dom (o_writes o) ∪ dom (o_deltas o))). unfold bind. rewrite E1. cbn [fst snd]. rewrite E2.
  assert (Hl : forall A (x : gmap K A), list_to_set (map_to_list x).*1 = (dom x : gset K)).
  { intros A x. apply set_eq. intros key. by rewrite elem_of_list_to_set, keys_of_map. }
  rewrite !Hl in *. setoid_rewrite keys_of_map in Ho1. setoid_rewrite keys_of_map in Ho2.
  setoid_rewrite keys_of_map in K1. setoid_rewrite keys_of_map in K2. split; [| split; [done | split; [| split; [| split]]]].
  - by rewrite difference_difference_l_L.
  - rewrite Ho2, Ho1. split; [intros [[_ HA] HB]; set_solver |].
    intros HS. split; [split; [done | set_solver] |]. intros key [d Hd]%elem_of_dom.
    assert (key ∉ dom (o_writes o)) by (apply not_elem_of_dom; by eapply Hdis).
    assert (key ∈ dom (o_deltas o)) by (apply elem_of_dom; by eexists). set_solver.
  - intros key i. rewrite U2, U1, !list_to_map_to_list. cbn [output_entry].
    destruct (decide (i = idx)) as [-> | Hi]; [| by rewrite !decide_False by (intros [? _]; done)].
    assert (Hin : forall A (x : gmap K A) a, x !! key = Some a -> key ∈ (map_to_list x).*1 /\ key ∈ dom x).
    { intros A x a Ha. assert (key ∈ dom x) by (apply elem_of_dom; by eexists). by rewrite keys_of_map. }
    assert (Hout : forall A (x : gmap K A), x !! key = None -> key ∉ (map_to_list x).*1 /\ key ∉ dom x).
    { intros A x Ha. assert (key ∉ dom x) by (by apply not_elem_of_dom). by rewrite keys_of_map. }
    destruct (o_deltas o !! key) as [d |] eqn:Ed.
    + destruct (Hin _ _ _ Ed). rewrite decide_True by done. by rewrite decide_True by (split; [done | set_solver]).
    + destruct (Hout _ _ Ed). rewrite decide_False by (intros [_ ?]; done).
      destruct (o_writes o !! key) as [w |] eqn:Ew.
      * destruct (Hin _ _ _ Ew). rewrite decide_True by done. by rewrite decide_True by (split; [done | set_solver]).
      * destruct (Hout _ _ Ew). rewrite decide_False by (intros [_ ?]; done).
        by rewrite decide_False by (intros [_ ?]; set_solver).
  - intros key Hk. by apply D2, D1.
  - intros key [Hk | Hk]%elem_of_union; [by apply D2, K1 | by apply K2].
Qed.

Definition disjoint_output (status : Status) : Prop :=
  match status with
  | Success o | SkipRest o => forall key d, o_deltas o !! key = Some d -> o_writes o !! key = None
  | Abort _ => True
  end.

(** Both cases of an output end with the keys of the last incarnation that were not met again. *)
Lemma output_updates_spec idx inc (status : Status) prev (m : Map) :
  disjoint_output status -> fresh (idx, inc) m ->
  exists m' outside,
    (match status with
     | Success output | SkipRest output =>
         w <~ apply_writes (idx, inc) (map_to_list (o_writes output)) prev false ;;
         apply_deltas idx (map_to_list (o_deltas output)) w.1 w.2
     | Abort _ => ret (prev, false)
     end) m = (Ok (prev ∖ modified_keys (Some status), outside), m') /\
    (outside = false <-> modified_keys (Some status) ⊆ prev) /\
    (forall key i, tree_of m' key !! i =
       if decide (i = idx /\ key ∈ modified_keys (Some status)) then output_entry inc status key
       else tree_of m key !! i) /\
    (forall key, m !! key <> None -> m' !! key <> None) /\
    (forall key, key ∈ modified_keys (Some status) -> m' !! key <> None).
Proof.
  intros Hdis Hf. destruct status as [o | o | err]; cbn [modified_keys disjoint_output] in *.
  3: { exists m, false. split; [by rewrite difference_empty_L |]. split; [split; [intros _; apply empty_subseteq | done] |].
       split; [| by split; [| intros key Hk; apply elem_of_empty in Hk]].
       intros key i. rewrite decide_False; [done |]. intros [_ Hk]. by apply elem_of_empty in Hk. }
  all: destruct (apply_updates_spec idx inc o prev m Hdis Hf) as (m' & out & rest & E & -> & Ho & Hu); by exists m', out.
Qed.

Lemma output_entry_unmodified inc (status : Status) key :
  key ∉ modified_keys (Some status) -> output_entry inc status key = None.
Proof.
  destruct status as [o | o | err]; cbn [modified_keys output_entry]; [| | done].
  all: intros [Hw%not_elem_of_dom Hd%not_elem_of_dom]%not_elem_of_union; by rewrite Hd, Hw.
Qed.

(** Recording a finished incarnation leaves the multi-version map exact. Suppose the entries
    of transaction [idx] are at most those of its last recorded incarnation, of a smaller
    incarnation number, and the output does not both write and add to a key. Then applying the
    writes and deltas and deleting what the last incarnation wrote and this one did not never
    panics; afterwards the entries of [idx] are exactly those of the new output, the entries of
    every other transaction are untouched, and the flag returned to the scheduler is unset
    exactly when the new output stays within the keys of the last one. *)
Theorem record_updates_exact idx inc last (status : Status) (m : Map) :
  fresh (idx, inc) m ->
  (forall key, tree_of m key !! idx <> None -> key ∈ modified_keys last) ->
  (forall key, key ∈ modified_keys last -> m !! key <> None) ->
  disjoint_output status ->
  exists outside m',
    record_updates (idx, inc) last status m = (Ok outside, m') /\
    (forall key i, tree_of m' key !! i =
       if decide (i = idx) then output_entry inc status key else tree_of m key !! i) /\
    (outside = false <-> modified_keys (Some status) ⊆ modified_keys last) /\
    (forall key, key ∈ modified_keys (Some status) -> m' !! key <> None).
Proof.
  intros Hf Hlast Hpresent Hdis. unfold record_updates. cbn [fst].
  destruct (output_updates_spec idx inc status (modified_keys last) m Hdis Hf) as (m1 & out & E & Ho & U1 & D1 & K1).
  destruct (delete_keys_spec idx (elements (modified_keys last ∖ modified_keys (Some status))) m1)
    as (m' & E' & U2 & D2 & _); [apply NoDup_elements | |].
  { intros key Hk%elem_of_elements. apply elem_of_difference in Hk as [Hk _]. by apply D1, Hpresent. }
  exists out, m'. unfold bind at 1. rewrite E. cbn [fst snd]. unfold bind. rewrite E'.
  split; [done | split; [| split; [done |]]]; [| intros key Hk; by apply D2, K1].
  intros key i. rewrite U2, U1. destruct (decide (i = idx)) as [-> | Hi];
    [| by rewrite !decide_False by (intros [? _]; done)].
  destruct (decide (key ∈ modified_keys (Some status))) as [Hin | Hout].
  - rewrite decide_False by (intros [_ Hk%elem_of_elements]; by apply elem_of_difference in Hk as [_ ?]).
    by rewrite decide_True by done.
  - rewrite (output_entry_unmodified _ _ _ Hout). destruct (decide (key ∈ modified_keys last)) as [Hl | Hl].
    + by rewrite decide_True by (split; [done | apply elem_of_elements, elem_of_difference; done]).
    + rewrite !decide_False by (intros [_ Hk]; try (apply elem_of_elements, elem_of_difference in Hk as [Hk _]); done).
      destruct (tree_of m key !! idx) eqn:Et; [| done]. destruct Hl. apply Hlast. by rewrite Et.
Qed.
End recording.

(** The second incarnation of transaction 3 writes key 1 again and adds to key 2, where the
    first one wrote keys 1 and 5. *)
Lemma record_updates_exact_witness :
  let output w d := mkTxnOutput (K := nat) w d false tt in
  let v := Modification [Byte.x07] in
  let last := Some (Success (Failure := unit) (output {[1%nat := v; 5%nat := v]} ∅)) in
  let status := Success (output {[1%nat := Deletion]} {[2%nat := counter_delta]}) in
  let entry := new_write_from FLAG_ESTIMATE 0%nat v in
  exists m', record_updates (Failure := unit) (3%nat, 1%nat) last status {[1%nat := {[3%nat := entry]}; 5%nat := {[3%nat := entry]}]} = (Ok true, m') /\
    tree_of m' 1%nat !! 3%nat = Some (new_write_from FLAG_DONE 1%nat Deletion) /\
    tree_of m' 5%nat !! 3%nat = None.
Proof.
  intros output v last status entry.
  destruct (record_updates_exact 3%nat 1%nat last status {[1%nat := {[3%nat := entry]}; 5%nat := {[3%nat := entry]}]})
    as (out & m' & E & U & Ho & _).
  - intros key e i w Ht Hc. unfold tree_of in Ht. destruct (decide (key = 1%nat)) as [-> | H1];
      [| destruct (decide (key = 5%nat)) as [-> | H5]].
    + rewrite lookup_insert_eq in Ht. cbn in Ht. rewrite lookup_singleton_eq in Ht.
      injection Ht as <-. injection Hc as <- <-. cbn. lia.
    + rewrite lookup_insert_ne, lookup_singleton_eq in Ht by done. cbn in Ht. rewrite lookup_singleton_eq in Ht.
      injection Ht as <-. injection Hc as <- <-. cbn. lia.
    + by rewrite lookup_insert_ne, lookup_singleton_ne in Ht by done.
  - intros key Ht. unfold tree_of in Ht. cbn [modified_keys last output o_writes o_deltas].
    destruct (decide (key = 1%nat)) as [-> | H1]; [set_solver |].
    destruct (decide (key = 5%nat)) as [-> | H5]; [set_solver |].
    by rewrite lookup_insert_ne, lookup_singleton_ne in Ht by done.
  - intros key Hk. cbn [modified_keys last output o_writes o_deltas] in Hk.
    rewrite dom_insert_L, dom_singleton_L, dom_empty_L, union_empty_r_L in Hk.
    apply elem_of_union in Hk as [->%elem_of_singleton | ->%elem_of_singleton]; vm_compute; done.
  - intros key d Hd. cbn in Hd |- *. destruct (decide (key = 2%nat)) as [-> | ?]; [done |].
    by rewrite lookup_singleton_ne in Hd.
  - exists m'. rewrite !U, !decide_True by done. split; [| split; [vm_compute; done | vm_compute; done]].
    rewrite E. destruct out; [done |]. exfalso.
    destruct Ho as [Ho _]. specialize (Ho eq_refl 2%nat). vm_compute in Ho. by specialize (Ho eq_refl).
Defined.
