(* ===== verification/Manager.v ===== *)
(** * The HEMVM manager and its workers

    [execute_transactions_parallel_prototype] of src/aptos-move/block-executor/src/executor.rs
    (the manager: one scanning pointer per kind of transaction, batches sent to the worker of
    that kind, results polled from a channel) with [check_whether_need_to_wait_or_skip_txn] and
    [send_txns_to_worker], and the three worker threads of src/api/src/transactions.rs
    ([gen_move_handlers_and_spawn_worker] and its Ethereum and cross-space siblings), which run
    a batch over the shared cache of writes and answer with its results.

    The system is a configuration (the variables of the manager, the channels, the workers and
    the cache) and one deterministic step per thread; an execution is any interleaving. A step
    is one access to shared data: the manager scans and sends, or polls the reply channel; a
    worker receives, fetches one state value, applies the writes of one transaction under the
    lock, or replies. As in BlockStm the virtual machines are programs over the values fetched. *)

From stdpp Require Import gmap.
From S2P Require Import Prelude Word Delta WriteSets MVHashMap BlockStm.
Local Open Scope Z_scope.

Inductive TxType : Set :=
| EthereumTx
| AptosTx
| CrossTxAptosOrigin
| CrossTxEthereumOrigin
| PlaceholderTypeTx.

Definition TxType_as_usize (t : TxType) : nat :=
  match t with
  | EthereumTx => 0
  | AptosTx => 1
  | CrossTxAptosOrigin => 2
  | CrossTxEthereumOrigin => 3
  | PlaceholderTypeTx => 4
  end.

Inductive TxScanPointer : Set := Aptos | Ethereum | Cross.

#[export] Instance TxScanPointer_eq_dec : EqDecision TxScanPointer.
Proof. solve_decision. Defined.

Abbreviation WorkerType := TxScanPointer (only parsing).

(** An array [[A; 3]] indexed by [TxScanPointer as usize]. *)
Record Array3 (A : Type) : Type := mkArray3 { at_aptos : A; at_ethereum : A; at_cross : A }.
Arguments mkArray3 {A}.
Arguments at_aptos {A}.
Arguments at_ethereum {A}.
Arguments at_cross {A}.

Definition at3 {A} (a : Array3 A) (p : TxScanPointer) : A :=
  match p with Aptos => at_aptos a | Ethereum => at_ethereum a | Cross => at_cross a end.

Definition set3 {A} (p : TxScanPointer) (v : A) (a : Array3 A) : Array3 A :=
  match p with
  | Aptos => mkArray3 v (at_ethereum a) (at_cross a)
  | Ethereum => mkArray3 (at_aptos a) v (at_cross a)
  | Cross => mkArray3 (at_aptos a) (at_ethereum a) v
  end.

Definition all3 {A} (v : A) : Array3 A := mkArray3 v v v.

(** The local array of the same name; indexing it out of bounds is [None]. *)
Definition transaction_type_to_scanning_pointer (t : TxType) : option TxScanPointer :=
  [Ethereum; Aptos; Cross; Cross] !! TxType_as_usize t.

Section manager.
Context {BCS : BcsU128} {K : Type} `{Countable K} {Info Failure : Type}.
Context {Address : Type} `{Countable Address} {Payload : Type}.

Abbreviation Output := (TxnOutput (K := K) (Info := Info)).
Abbreviation ExecStatus := (ExecutionStatus (K := K) (Info := Info) (Failure := Failure)).
Abbreviation Prog := (Program (K := K) (Info := Info) (Failure := Failure)).
Abbreviation Nonces := (gmap Address Z).

(** ** Transactions *)

Record SignatureCheckedTransaction : Type := mkSigned {
  sender : Address;
  sequence_number : Z;
  transaction_type : TxType;
  payload : Payload;
}.

Inductive PreprocessedTransaction : Type :=
| UserTransaction (inner_tx : SignatureCheckedTransaction)
| WaypointWriteSet (contents : Payload)
| BlockMetadata (contents : Payload)
| InvalidSignature
| StateCheckpoint.

(** The virtual machines, the committed state, the output of a skipped transaction, the block. *)
Context (program : PreprocessedTransaction -> Prog) (base_view : K -> option (list byte)).
Context (skip_output : Output) (block : list PreprocessedTransaction).

(** ** Deciding about a transaction *)

(** The nonce check, the same in its three places; [*current_tx_nonce - 1] is checked. *)
Definition check_nonce (previous_nonce_per_address : Nonces) (transaction_sender : Address)
    (current_tx_nonce : Z) : result unit Nonces :=
  match previous_nonce_per_address !! transaction_sender with
  | Some last_nonce =>
      if current_tx_nonce =? 0 then Panic
      else if last_nonce =? current_tx_nonce - 1
      then Ok (<[transaction_sender := current_tx_nonce]> previous_nonce_per_address)
      else Err tt
  | None =>
      if current_tx_nonce =? 0
      then Ok (<[transaction_sender := 0]> previous_nonce_per_address)
      else Err tt
  end.

(** The variables of the manager a scan changes. *)
Record Scan : Type := mkScan { tx_pointer_idx : nat; previous_nonce_per_address : Nonces }.

Definition skip_txn (s : Scan) : Scan := mkScan (S (tx_pointer_idx s)) (previous_nonce_per_address s).

Definition update_nonce (inner_tx : SignatureCheckedTransaction) : M unit Scan unit := fun s =>
  match check_nonce (previous_nonce_per_address s) (sender inner_tx) (sequence_number inner_tx) with
  | Ok nonces => (Ok tt, mkScan (tx_pointer_idx s) nonces)
  | Err e => (Err e, s)
  | Panic => (Panic, s)
  end.

(** The result is the channel to send the transaction to; it is only called with a pointer
    into the block, so [block_size - 1] does not underflow. *)
Definition check_whether_need_to_wait_or_skip_txn (txn : PreprocessedTransaction)
    (are_workers_loaded : Array3 bool) (pointer_type : TxScanPointer)
    (processed_transactions block_size : nat) : M unit Scan TxScanPointer :=
  let move_worker_is_loaded := at3 are_workers_loaded Aptos in
  let eth_worker_is_loaded := at3 are_workers_loaded Ethereum in
  let cross_worker_is_loaded := at3 are_workers_loaded Cross in
  match txn with
  | StateCheckpoint =>
      if move_worker_is_loaded || eth_worker_is_loaded || cross_worker_is_loaded then throw tt
      else if negb (processed_transactions =? block_size - 1)%nat then throw tt
      else if bool_decide (pointer_type <> Cross) then modify skip_txn ;;; throw tt
      else ret Cross
  | UserTransaction inner_tx =>
      expected_pointer_type <~
        lift (unwrap (transaction_type_to_scanning_pointer (transaction_type inner_tx))) ;;
      if bool_decide (expected_pointer_type <> pointer_type) then modify skip_txn ;;; throw tt
      else
        match transaction_type inner_tx with
        | EthereumTx =>
            if eth_worker_is_loaded || cross_worker_is_loaded then throw tt
            else update_nonce inner_tx ;;; ret Ethereum
        | AptosTx =>
            if move_worker_is_loaded || cross_worker_is_loaded then throw tt
            else update_nonce inner_tx ;;; ret Aptos
        | CrossTxAptosOrigin | CrossTxEthereumOrigin =>
            if move_worker_is_loaded || eth_worker_is_loaded || cross_worker_is_loaded then throw tt
            else update_nonce inner_tx ;;; ret Cross
        | PlaceholderTypeTx => panic
        end
  | _ => throw tt
  end.

(** The inner loop: the batch and the channel to send it to. *)
Fixpoint scan_batch (fuel : nat) (are_workers_loaded : Array3 bool) (pointer_type : TxScanPointer)
    (processed_transactions : nat) (tx_batch : list PreprocessedTransaction)
    (sender_handle : TxScanPointer) :
    M Failure Scan (list PreprocessedTransaction * TxScanPointer) := fun s =>
  match fuel, block !! tx_pointer_idx s with
  | O, _ | _, None => (Ok (tx_batch, sender_handle), s)
  | S fuel, Some (UserTransaction _ as txn | StateCheckpoint as txn) =>
      match check_whether_need_to_wait_or_skip_txn txn are_workers_loaded pointer_type
              processed_transactions (length block) s with
      | (Ok handle, s) =>
          scan_batch fuel are_workers_loaded pointer_type processed_transactions (tx_batch ++ [txn])
            handle (skip_txn s)
      | (Err _, s) => (Ok (tx_batch, sender_handle), s)
      | (Panic, s) => (Panic, s)
      end
  | S fuel, Some _ => (Panic, s)
  end.

(** ** Threads *)

Record ExecutionStatusMultiWorker : Type := mkReply { status : ExecStatus; worker_type : WorkerType }.

(** How far a worker is with a transaction: running it, materializing the deltas of its output
    (those left, and the writes made of those before), or finished. *)
Inductive Stage : Type :=
| Run (p : Prog)
| Materialize (skip_rest : bool) (output : Output) (deltas : list (K * DeltaOp))
    (writes : list (K * WriteOp))
| Finished (status : ExecStatus).

Inductive Worker : Type :=
| Waiting
| Batch (txn_batch : list PreprocessedTransaction) (execution_results : list ExecutionStatusMultiWorker)
| Executing (txn : PreprocessedTransaction) (stage : Stage)
    (txn_batch : list PreprocessedTransaction) (execution_results : list ExecutionStatusMultiWorker)
| Panicked.

(** The points of the manager's loop between accesses to the channels. *)
Inductive Point : Type :=
| LoopHead
| Scanning (pointer_type : TxScanPointer)
| Receiving (pointer_type : TxScanPointer)
| Returned (res : result Failure (list Output)).

Record Config : Type := mkConfig {
  point : Point;
  processed_transactions : nat;
  pointer_type_to_txn_idx_in_block : Array3 nat;
  pointer_type_to_whether_worker_is_loaded : Array3 bool;
  nonces : Nonces;
  outputs : list Output;
  requests : Array3 (list (list PreprocessedTransaction));
  replies : list (list ExecutionStatusMultiWorker);
  workers : Array3 Worker;
  executed_state_cache : gmap K WriteOp;
}.

Definition start (previous_nonces : Nonces) : Config :=
  mkConfig LoopHead 0 (all3 0%nat) (all3 false) previous_nonces [] (all3 []) [] (all3 Waiting) ∅.

Definition at_point (p : Point) (c : Config) : Config :=
  mkConfig p (processed_transactions c) (pointer_type_to_txn_idx_in_block c)
    (pointer_type_to_whether_worker_is_loaded c) (nonces c) (outputs c) (requests c) (replies c)
    (workers c) (executed_state_cache c).

(** The next pointer of [SCANNING_POINTERS_TYPES], or the head of the loop. *)
Definition next_point (p : TxScanPointer) : Point :=
  match p with Aptos => Scanning Ethereum | Ethereum => Scanning Cross | Cross => LoopHead end.

(** ** The manager *)

(** [send_txns_to_worker]; sending fails when the thread of the receiver is gone. *)
Definition send_txns_to_worker (txn_batch : list PreprocessedTransaction) (pointer_type : TxScanPointer)
    (sender_handle : TxScanPointer) (c : Config) : result Failure Config :=
  let send loaded :=
    match at3 (workers c) sender_handle with
    | Panicked => Panic
    | _ => Ok (mkConfig (point c) (processed_transactions c) (pointer_type_to_txn_idx_in_block c)
                 (set3 loaded true (pointer_type_to_whether_worker_is_loaded c)) (nonces c) (outputs c)
                 (set3 sender_handle (at3 (requests c) sender_handle ++ [txn_batch]) (requests c))
                 (replies c) (workers c) (executed_state_cache c))
    end in
  match list.last txn_batch with
  | Some (UserTransaction _) => send pointer_type
  | Some StateCheckpoint => send Cross
  | Some _ => Ok c
  | None => Panic
  end.

(** The body of the [for] loop up to the channel's answer. *)
Definition scan_and_send (p : TxScanPointer) (c : Config) : result Failure Config :=
  let pointer_idx := at3 (pointer_type_to_txn_idx_in_block c) p in
  match scan_batch (length block - pointer_idx) (pointer_type_to_whether_worker_is_loaded c) p
          (processed_transactions c) [] Cross (mkScan pointer_idx (nonces c)) with
  | (Ok (tx_batch, sender_handle), s) =>
      let c := mkConfig (point c) (processed_transactions c)
                 (set3 p (tx_pointer_idx s) (pointer_type_to_txn_idx_in_block c))
                 (pointer_type_to_whether_worker_is_loaded c) (previous_nonce_per_address s)
                 (outputs c) (requests c) (replies c) (workers c) (executed_state_cache c) in
      if bool_decide (tx_batch = []) then Ok c else send_txns_to_worker tx_batch p sender_handle c
  | (Err e, _) => Err e
  | (Panic, _) => Panic
  end.

(** The loop over the results of a batch: the flags, the outputs and the counter. *)
Fixpoint process_results (execution_results : list ExecutionStatusMultiWorker)
    (loaded : Array3 bool) (outputs : list Output) (processed_transactions : nat) :
    result Failure (Array3 bool * list Output * nat) :=
  match execution_results with
  | [] => Ok (loaded, outputs, processed_transactions)
  | mkReply res worker_type :: execution_results =>
      let loaded := set3 worker_type false loaded in
      match res with
      | Success output | SkipRest output =>
          if bool_decide (size (o_deltas output) = 0%nat)
          then process_results execution_results loaded (outputs ++ [output]) (S processed_transactions)
          else Panic
      | Abort err => Err err
      end
  end.

(** The rest of the body: [try_recv] when the worker of this pointer is loaded; the channel of
    replies is the same for all workers. *)
Definition try_receive (p : TxScanPointer) (c : Config) : result Failure Config :=
  if at3 (pointer_type_to_whether_worker_is_loaded c) p then
    match replies c with
    | [] => Ok c
    | execution_results :: replies =>
        let? ' (loaded, outputs, processed) :=
          process_results execution_results (pointer_type_to_whether_worker_is_loaded c) (outputs c)
            (processed_transactions c) in
        Ok (mkConfig (point c) processed (pointer_type_to_txn_idx_in_block c) loaded (nonces c) outputs
              (requests c) replies (workers c) (executed_state_cache c))
    end
  else Ok c.

(** Going on to a point unless the function returned or panicked. *)
Definition continue_at (p : Point) (c : Config) (r : result Failure Config) : Config :=
  match r with
  | Ok c' => at_point p c'
  | Err e => at_point (Returned (Err e)) c
  | Panic => at_point (Returned Panic) c
  end.

Definition manager_step (c : Config) : Config :=
  match point c with
  | LoopHead =>
      if (processed_transactions c <? length block)%nat then at_point (Scanning Aptos) c
      else at_point (Returned (Ok (resize_outputs skip_output (outputs c) (length block)))) c
  | Scanning p => continue_at (Receiving p) c (scan_and_send p c)
  | Receiving p => continue_at (next_point p) c (try_receive p c)
  | Returned _ => c
  end.

(** ** The workers *)

Definition with_worker (w : WorkerType) (s : Worker) (c : Config) : Config :=
  mkConfig (point c) (processed_transactions c) (pointer_type_to_txn_idx_in_block c)
    (pointer_type_to_whether_worker_is_loaded c) (nonces c) (outputs c) (requests c) (replies c)
    (set3 w s (workers c)) (executed_state_cache c).

(** [execute_transaction] of a transaction up to its next access to the cache: the execution of
    the program, then [into_transaction_output] of its output. [None] is a panic. *)
Definition stage_step (cache : gmap K WriteOp) (stage : Stage) : option Stage :=
  let view := btree_value base_view cache in
  match stage with
  | Run (Fetch key cont) => Some (Run (cont (view key)))
  | Run (Finish (Success output)) =>
      if o_discarded output || bool_decide (o_deltas output = ∅)
      then Some (Finished (Success (without_deltas output)))
      else Some (Materialize false output (map_to_list (o_deltas output)) [])
  | Run (Finish (SkipRest output)) =>
      if o_discarded output || bool_decide (o_deltas output = ∅)
      then Some (Finished (SkipRest (without_deltas output)))
      else Some (Materialize true output (map_to_list (o_deltas output)) [])
  | Run (Finish (Abort err)) => Some (Finished (Abort err))
  | Materialize skip_rest output ((key, delta) :: deltas) writes =>
      match try_into_write_op (Failure := Failure) view key delta with
      | Ok op => Some (Materialize skip_rest output deltas (writes ++ [(key, op)]))
      | _ => None
      end
  | Materialize skip_rest output [] writes =>
      match merge_delta_writes (Failure := Failure) output (list_to_map writes) with
      | Ok output => Some (Finished (if skip_rest then SkipRest output else Success output))
      | _ => None
      end
  | Finished status => Some (Finished status)
  end.

Definition receive_request (w : WorkerType) (c : Config) : Config :=
  match at3 (requests c) w with
  | [] => c
  | txn_batch :: rest =>
      mkConfig (point c) (processed_transactions c) (pointer_type_to_txn_idx_in_block c)
        (pointer_type_to_whether_worker_is_loaded c) (nonces c) (outputs c)
        (set3 w rest (requests c)) (replies c) (set3 w (Batch txn_batch []) (workers c))
        (executed_state_cache c)
  end.

Definition send_reply (w : WorkerType) (execution_results : list ExecutionStatusMultiWorker) (c : Config) :
    Config :=
  mkConfig (point c) (processed_transactions c) (pointer_type_to_txn_idx_in_block c)
    (pointer_type_to_whether_worker_is_loaded c) (nonces c) (outputs c) (requests c)
    (replies c ++ [execution_results]) (set3 w Waiting (workers c)) (executed_state_cache c).

(** The writes of an output, under one lock. *)
Definition apply_output (w : WorkerType) (res : ExecStatus) (output : Output)
    (txn_batch : list PreprocessedTransaction) (execution_results : list ExecutionStatusMultiWorker)
    (c : Config) : Config :=
  mkConfig (point c) (processed_transactions c) (pointer_type_to_txn_idx_in_block c)
    (pointer_type_to_whether_worker_is_loaded c) (nonces c) (outputs c) (requests c) (replies c)
    (set3 w (Batch txn_batch (execution_results ++ [mkReply res w])) (workers c))
    (o_writes output ∪ executed_state_cache c).

Definition worker_step (w : WorkerType) (c : Config) : Config :=
  match at3 (workers c) w with
  | Waiting => receive_request w c
  | Batch [] execution_results => send_reply w execution_results c
  | Batch (txn :: txn_batch) execution_results =>
      with_worker w (Executing txn (Run (program txn)) txn_batch execution_results) c
  | Executing txn (Finished res) txn_batch execution_results =>
      match res with
      | Success output | SkipRest output => apply_output w res output txn_batch execution_results c
      | Abort _ => with_worker w Panicked c
      end
  | Executing txn stage txn_batch execution_results =>
      match stage_step (executed_state_cache c) stage with
      | Some stage => with_worker w (Executing txn stage txn_batch execution_results) c
      | None => with_worker w Panicked c
      end
  | Panicked => c
  end.

(** ** Executions *)

Inductive Thread : Set := Manager | WorkerThread (w : WorkerType).

Definition system_step (t : Thread) (c : Config) : Config :=
  match t with Manager => manager_step c | WorkerThread w => worker_step w c end.

(** The configuration after the first [n] steps of a schedule. *)
Fixpoint run (schedule : nat -> Thread) (n : nat) (c : Config) : Config :=
  match n with O => c | S n => system_step (schedule n) (run schedule n c) end.
End manager.
