(* ===== verification/ManagerInv.v ===== *)
(** * The invariant of the manager and its workers

    What every interleaving of the threads of Manager keeps: the flags of the manager say which
    worker holds a batch, a cross-space batch is alone, every transaction is sent at most once,
    to the worker of its kind and in the order of the block, nonces are checked in the order of
    sending, and results are received in the order of sending up to exchanging native Move and
    native Ethereum transactions. The history the invariant speaks of (what was sent, received,
    and is underway) is computed along the execution by [ghost_step]. *)

From stdpp Require Import gmap relations.
From S2P Require Import Prelude Word Delta WriteSets MVHashMap BlockStm Manager.
Local Open Scope Z_scope.

Lemma at3_set3_eq {A} p (v : A) a : at3 (set3 p v a) p = v.
Proof. by destruct p. Qed.

Lemma at3_set3_ne {A} p q (v : A) a : p <> q -> at3 (set3 p v a) q = at3 a q.
Proof. by destruct p, q. Qed.

Lemma at3_all3 {A} (v : A) p : at3 (all3 v) p = v.
Proof. by destruct p. Qed.

(** ** Reordering native transactions *)

Section reorder.
Context {X : Type} (kind : X -> option TxScanPointer).

Definition independent (a b : X) : Prop :=
  (kind a = Some Aptos /\ kind b = Some Ethereum) \/ (kind a = Some Ethereum /\ kind b = Some Aptos).

Definition exchange (l l' : list X) : Prop :=
  exists l1 a b l2, l = l1 ++ a :: b :: l2 /\ l' = l1 ++ b :: a :: l2 /\ independent a b.

(** Exchanging neighbours of which one is native to Move and one to Ethereum. *)
Definition reorder : list X -> list X -> Prop := rtc exchange.

Lemma reorder_app k1 k2 l l' : reorder l l' -> reorder (k1 ++ l ++ k2) (k1 ++ l' ++ k2).
Proof.
  apply rtc_congruence with (f := fun l => k1 ++ l ++ k2). intros x y (l1 & a & b & l2 & -> & -> & Hab).
  exists (k1 ++ l1), a, b, (l2 ++ k2). by rewrite <- !app_assoc.
Qed.

Lemma reorder_front k l l' : reorder l l' -> reorder (k ++ l) (k ++ l').
Proof. intros E. apply (reorder_app k []) in E. by rewrite !app_nil_r in E. Qed.

Lemma reorder_back k l l' : reorder l l' -> reorder (l ++ k) (l' ++ k).
Proof. apply (reorder_app [] k). Qed.

Lemma reorder_perm l l' : reorder l l' -> l ≡ₚ l'.
Proof.
  induction 1 as [| x y z (l1 & a & b & l2 & -> & -> & _) _ IH]; [done |]. rewrite <- IH.
  by rewrite (Permutation_swap b a).
Qed.

(** A class that holds no two independent elements keeps its order. *)
Lemma reorder_filter (P : X -> Prop) `{!forall x, Decision (P x)} l l' :
  (forall a b, a ∈ l -> b ∈ l -> independent a b -> P a -> P b -> False) ->
  reorder l l' -> filter P l = filter P l'.
Proof.
  intros HP E. induction E as [| x y z Hxy Hyz IH]; [done |].
  assert (Hp : x ≡ₚ y) by (apply reorder_perm, rtc_once; done).
  rewrite <- IH by (intros a b; rewrite <- Hp; apply HP).
  destruct Hxy as (l1 & a & b & l2 & -> & -> & Hab). rewrite !list.filter_app, !list.filter_cons.
  destruct (decide (P a)) as [Ha |], (decide (P b)) as [Hb |]; try done.
  exfalso. apply (HP a b); try done; set_solver.
Qed.

Lemma reorder_blocks la le :
  Forall (fun x => kind x = Some Aptos) la -> Forall (fun x => kind x = Some Ethereum) le ->
  reorder (la ++ le) (le ++ la) /\ reorder (le ++ la) (la ++ le).
Proof.
  intros Ha He. revert le He. induction Ha as [| a la Hka Ha IH]; intros le He; [by rewrite app_nil_r |].
  assert (Hmove : forall k, reorder (a :: le ++ k) (le ++ a :: k) /\ reorder (le ++ a :: k) (a :: le ++ k)).
  { clear IH Ha. induction He as [| e le Hke He IH]; intros k; [done |]. cbn. destruct (IH k) as [I1 I2]. split.
    - eapply rtc_l; [exists [], a, e, (le ++ k); split_and!; try done; by left |]. by apply (reorder_front [e]).
    - eapply rtc_r; [by apply (reorder_front [e]) |]. exists [], e, a, (le ++ k). split_and!; try done; by right. }
  destruct (IH le He) as [I1 I2]. cbn. split.
  - etrans; [apply (reorder_front [a]), I1 |]. apply Hmove.
  - etrans; [apply Hmove |]. apply (reorder_front [a]), I2.
Qed.

(** One list per worker, put together. *)
Definition join3 (f : TxScanPointer -> list X) : list X := f Aptos ++ f Ethereum ++ f Cross.

(** What a worker adds may pass what the worker of the other space holds. *)
Lemma join3_add p f f' l :
  f' p = f p ++ l -> (forall q, q <> p -> f' q = f q) ->
  (forall q, Forall (fun x => kind x = Some q) (f q)) -> Forall (fun x => kind x = Some p) l ->
  (p <> Cross -> f Cross = []) -> reorder (join3 f ++ l) (join3 f').
Proof.
  intros Hp Hq Hk Hl Hc. unfold join3. destruct p.
  - rewrite Hp, !Hq, Hc by done. rewrite !app_nil_r, <- !app_assoc. apply reorder_front.
    apply (reorder_blocks _ _ Hl (Hk Ethereum)).
  - rewrite Hp, !Hq, Hc by done. by rewrite !app_nil_r, <- !app_assoc.
  - rewrite Hp, !Hq by done. by rewrite <- !app_assoc.
Qed.

Lemma join3_remove p f f' :
  f' p = [] -> (forall q, q <> p -> f' q = f q) -> (forall q, Forall (fun x => kind x = Some q) (f q)) ->
  (p = Cross -> f Aptos = [] /\ f Ethereum = []) -> reorder (join3 f) (f p ++ join3 f').
Proof.
  intros Hp Hq Hk Hc. unfold join3. destruct p.
  - by rewrite Hp, !Hq by done.
  - rewrite Hp, !Hq by done. cbn. rewrite !app_assoc. apply reorder_back, (reorder_blocks _ _ (Hk Aptos) (Hk Ethereum)).
  - rewrite Hp, !Hq by done. destruct Hc as [-> ->]; [done |]. cbn. by rewrite app_nil_r.
Qed.

Lemma join3_ext f f' : (forall q, f' q = f q) -> join3 f' = join3 f.
Proof. intros E. unfold join3. by rewrite !E. Qed.
End reorder.

Section invariant.
Context {BCS : BcsU128} {K : Type} `{Countable K} {Info Failure : Type}.
Context {Address : Type} `{Countable Address} {Payload : Type}.
Abbreviation Txn := (PreprocessedTransaction (Address := Address) (Payload := Payload)).
Abbreviation Output := (TxnOutput (K := K) (Info := Info)).
Abbreviation ExecStatus := (ExecutionStatus (K := K) (Info := Info) (Failure := Failure)).
Abbreviation Prog := (Program (K := K) (Info := Info) (Failure := Failure)).
Abbreviation Nonces := (gmap Address Z).
Abbreviation Cfg := (Config (K := K) (Info := Info) (Failure := Failure) (Address := Address) (Payload := Payload)).
Context (program : Txn -> Prog) (base_view : K -> option (list byte)).
Context (skip_output : Output) (block : list Txn) (previous_nonces : Nonces).

(** ** Transactions with their place in the block *)

Abbreviation Item := (nat * Txn)%type.
Abbreviation Result := (Item * ExecStatus)%type.

(** The pointer that sends a transaction. *)
Definition kind_of (txn : Txn) : option TxScanPointer :=
  match txn with
  | UserTransaction inner_tx => transaction_type_to_scanning_pointer (transaction_type inner_tx)
  | StateCheckpoint => Some Cross
  | _ => None
  end.

Definition of_kind (p : TxScanPointer) (x : Item) : Prop := kind_of x.2 = Some p.

#[export] Instance of_kind_dec p x : Decision (of_kind p x).
Proof. unfold of_kind. solve_decision. Defined.

Definition items : list Item := imap pair block.

Definition between (p : TxScanPointer) (i j : nat) : list Item := filter (of_kind p) (drop i (take j items)).

(** The nonces after sending transactions in some order, each with its check. *)
Definition item_nonce (n : Nonces) (x : Item) : result unit Nonces :=
  match x.2 with
  | UserTransaction inner_tx => check_nonce n (sender inner_tx) (sequence_number inner_tx)
  | _ => Ok n
  end.

Fixpoint nonces_after (n : Nonces) (l : list Item) : result unit Nonces :=
  match l with
  | [] => Ok n
  | x :: l => let? n := item_nonce n x in nonces_after n l
  end.

Lemma nonces_after_app n l k :
  nonces_after n (l ++ k) = let? n := nonces_after n l in nonces_after n k.
Proof. revert n. induction l as [| x l IH]; intros n; [done |]. cbn. destruct (item_nonce n x); cbn; auto. Qed.

(** ** What a scan finds *)

(** The workers a kind of transaction needs free. *)
Definition available (loaded : Array3 bool) (p : TxScanPointer) : bool :=
  match p with
  | Aptos => negb (at3 loaded Aptos || at3 loaded Cross)
  | Ethereum => negb (at3 loaded Ethereum || at3 loaded Cross)
  | Cross => negb (at3 loaded Aptos || at3 loaded Ethereum || at3 loaded Cross)
  end.

Abbreviation check := (check_whether_need_to_wait_or_skip_txn (Address := Address) (Payload := Payload)).

Lemma check_Ok txn loaded p processed n s handle s' :
  check txn loaded p processed n s = (Ok handle, s') ->
  kind_of txn = Some p /\ handle = p /\ available loaded p = true /\
  item_nonce (previous_nonce_per_address s) (tx_pointer_idx s, txn) = Ok (previous_nonce_per_address s') /\
  tx_pointer_idx s' = tx_pointer_idx s.
Proof.
  destruct txn as [t | | | |]; cbn -[bool_decide]; try done.
  - unfold bind, lift, item_nonce. cbn -[bool_decide].
    destruct (transaction_type_to_scanning_pointer _) as [q |] eqn:Hq; cbn -[bool_decide]; [| done].
    case_bool_decide as Hp; [done |]. subst.
    destruct (transaction_type t); cbn in Hq; try discriminate Hq; injection Hq as <-;
      destruct loaded as [[] [] []]; cbn; try done; unfold update_nonce;
      (destruct (check_nonce _ _ _) eqn:E; [| done | done]); intros [= <- <-]; by cbn.
  - unfold bind, throw, ret, modify. destruct loaded as [[] [] []]; cbn -[bool_decide]; try done.
    destruct (_ =? _)%nat; cbn -[bool_decide]; [| done]. case_bool_decide as Hp; [done |]. subst.
    by intros [= <- <-].
Qed.

Lemma check_Err txn loaded p processed n s e s' :
  check txn loaded p processed n s = (Err e, s') ->
  previous_nonce_per_address s' = previous_nonce_per_address s /\
  (s' = s \/ (tx_pointer_idx s' = S (tx_pointer_idx s) /\ kind_of txn <> Some p)).
Proof.
  destruct txn as [t | | | |]; cbn -[bool_decide]; try (intros [= <- <-]; by auto).
  - unfold bind, lift. cbn -[bool_decide].
    destruct (transaction_type_to_scanning_pointer _) as [q |] eqn:Hq; cbn -[bool_decide]; [| done].
    case_bool_decide as Hp; [intros [= <- <-]; split; [done |]; right; split; [done |]; congruence |].
    destruct (transaction_type t); cbn; try done; destruct loaded as [[] [] []]; cbn; try (intros [= <- <-]; by auto);
      unfold update_nonce; (destruct (check_nonce _ _ _) eqn:E; [done | | done]); intros [= <- <-]; by auto.
  - unfold bind, throw, ret, modify. destruct loaded as [[] [] []]; cbn -[bool_decide]; try (intros [= <- <-]; by auto).
    destruct (_ =? _)%nat; cbn -[bool_decide]; [| intros [= <- <-]; by auto].
    case_bool_decide as Hp; intros [= <- <-]. split; [done |]. right. split; [done |]. congruence.
Qed.

Lemma between_nil p i : between p i i = [].
Proof. unfold between. by rewrite drop_ge by (rewrite length_take; lia). Qed.

(** A scan sends the transactions of its kind it passes, in order. *)
Lemma scan_spec fuel loaded p processed batch handle s batch' handle' s' :
  scan_batch (Failure := Failure) block fuel loaded p processed batch handle s = (Ok (batch', handle'), s') ->
  let sent := between p (tx_pointer_idx s) (tx_pointer_idx s') in
  (tx_pointer_idx s <= tx_pointer_idx s')%nat /\ batch' = batch ++ sent.*2 /\
  (if decide (sent = []) then handle' = handle else handle' = p /\ available loaded p = true) /\
  nonces_after (previous_nonce_per_address s) sent = Ok (previous_nonce_per_address s').
Proof.
  revert batch handle s. induction fuel as [| fuel IH]; intros batch handle s.
  { cbn. intros [= <- <- <-]. by rewrite between_nil, app_nil_r. }
  cbn. destruct (block !! tx_pointer_idx s) as [txn |] eqn:Et.
  2: { intros [= <- <- <-]. by rewrite between_nil, app_nil_r. }
  assert (Hstep : forall j, (tx_pointer_idx s < j)%nat ->
            between p (tx_pointer_idx s) j =
              (if decide (of_kind p (tx_pointer_idx s, txn)) then [(tx_pointer_idx s, txn)] else []) ++
              between p (S (tx_pointer_idx s)) j).
  { intros j Hj. unfold between. erewrite drop_S; [| rewrite lookup_take_lt by done; unfold items; by rewrite list_lookup_imap, Et].
    rewrite list.filter_cons. by case_decide. }
  assert (Hmain : match check txn loaded p processed (length block) s with
    | (Ok handle, s) => scan_batch (Failure := Failure) block fuel loaded p processed (batch ++ [txn]) handle (skip_txn s)
    | (Err _, s) => (Ok (batch, handle), s) | (Panic, s) => (Panic, s) end = (Ok (batch', handle'), s') ->
    let sent := between p (tx_pointer_idx s) (tx_pointer_idx s') in
    (tx_pointer_idx s <= tx_pointer_idx s')%nat /\ batch' = batch ++ sent.*2 /\
    (if decide (sent = []) then handle' = handle else handle' = p /\ available loaded p = true) /\
    nonces_after (previous_nonce_per_address s) sent = Ok (previous_nonce_per_address s')).
  2: { by destruct txn. }
  destruct (check txn loaded p processed (length block) s) as [[h | e |] s1] eqn:Ec; [| | done].
  - apply check_Ok in Ec as (Hk & -> & Ha & Hn & Hi). intros Es. apply IH in Es as (Hle & -> & Hh & Hn').
    cbn [skip_txn tx_pointer_idx previous_nonce_per_address] in *. rewrite Hi in *. rewrite Hstep by lia.
    rewrite decide_True by done. split_and!; [lia | by rewrite <- app_assoc | |].
    + rewrite decide_False by done. split; [| done]. case_decide; [done | by destruct Hh].
    + cbn [app nonces_after]. by rewrite Hn.
  - apply check_Err in Ec as (Hn & Hs). intros [= <- <- <-]. destruct Hs as [-> | [Hi Hk]].
    + cbn zeta. by rewrite between_nil, app_nil_r.
    + cbn zeta. rewrite Hi, Hstep, decide_False, between_nil by (try lia; done). cbn.
      rewrite app_nil_r, Hn. by split_and!; [lia | | |].
Qed.

(** ** The history of an execution *)

(** What a worker holds: nothing, a batch in its channel, a batch of which the first part is
    executed, or a batch whose results are in the channel of replies. *)
Inductive Slot : Type :=
| Free
| Queued (batch : list Item)
| Working (done : list Result) (todo : list Item)
| Replied (done : list Result).

Record Ghost : Type := mkGhost {
  g_slots : Array3 Slot;
  g_queue : list TxScanPointer;
  g_received : list Result;
  g_sent : list Item;
}.

Definition slot_items (s : Slot) : list Item :=
  match s with
  | Free | Replied _ => []
  | Queued batch => batch
  | Working done todo => done.*1 ++ todo
  end.

Definition slot_replied (s : Slot) : list Result := match s with Replied done => done | _ => [] end.

Definition replied (slots : Array3 Slot) (queue : list TxScanPointer) : list Result :=
  mjoin ((fun p => slot_replied (at3 slots p)) <$> queue).

Definition underway (slots : Array3 Slot) : list Item := join3 (fun p => slot_items (at3 slots p)).

(** The batch the manager sends when it scans. *)
Definition scanned (p : TxScanPointer) (c : Cfg) : list Item :=
  match scan_and_send block p c with
  | Ok c' => between p (at3 (pointer_type_to_txn_idx_in_block c) p) (at3 (pointer_type_to_txn_idx_in_block c') p)
  | _ => []
  end.

Definition ghost_manager (c : Cfg) (g : Ghost) : Ghost :=
  match point c with
  | Scanning p =>
      match scanned p c with
      | [] => g
      | batch => mkGhost (set3 p (Queued batch) (g_slots g)) (g_queue g) (g_received g) (g_sent g ++ batch)
      end
  | Receiving p =>
      match at3 (pointer_type_to_whether_worker_is_loaded c) p, g_queue g with
      | true, q :: queue =>
          mkGhost (set3 q Free (g_slots g)) queue
            (g_received g ++ slot_replied (at3 (g_slots g) q)) (g_sent g)
      | _, _ => g
      end
  | _ => g
  end.

Definition ghost_worker (w : TxScanPointer) (c : Cfg) (g : Ghost) : Ghost :=
  let set s := mkGhost (set3 w s (g_slots g)) (g_queue g) (g_received g) (g_sent g) in
  match at3 (workers c) w, at3 (g_slots g) w with
  | Waiting, Queued batch => set (Working [] batch)
  | Batch [] _, Working done _ =>
      mkGhost (set3 w (Replied done) (g_slots g)) (g_queue g ++ [w]) (g_received g) (g_sent g)
  | Executing _ (Finished ((Success _ | SkipRest _) as res)) _ _, Working done (x :: todo) =>
      set (Working (done ++ [(x, res)]) todo)
  | _, _ => g
  end.

Definition ghost_step (t : Thread) (c : Cfg) (g : Ghost) : Ghost :=
  match t with Manager => ghost_manager c g | WorkerThread w => ghost_worker w c g end.

Definition ghost_start : Ghost := mkGhost (all3 Free) [] [] [].

(** ** The invariant *)

Definition committed (s : ExecStatus) : Prop :=
  match s with Success o | SkipRest o => o_deltas o = ∅ | Abort _ => False end.

Definition outcome (s : ExecStatus) : option Output :=
  match s with Success o | SkipRest o => Some o | Abort _ => None end.

Definition reply (p : TxScanPointer) (x : Result) : ExecutionStatusMultiWorker := mkReply x.2 p.

Definition stage_ok (s : Stage (K := K) (Info := Info) (Failure := Failure)) : Prop :=
  match s with Finished (Success o | SkipRest o) => o_deltas o = ∅ | _ => True end.

Definition worker_ok (p : TxScanPointer) (done : list Result) (todo : list Item)
    (w : Worker (Address := Address) (Payload := Payload)) : Prop :=
  match w with
  | Waiting => False
  | Batch batch results => batch = todo.*2 /\ results = reply p <$> done
  | Executing txn stage batch results =>
      txn :: batch = todo.*2 /\ results = reply p <$> done /\ stage_ok stage
  | Panicked => True
  end.

Definition slot_ok (p : TxScanPointer) (s : Slot) (loaded : bool) (requests : list (list Txn))
    (worker : Worker (Address := Address) (Payload := Payload)) : Prop :=
  match s with
  | Free => loaded = false /\ requests = [] /\ worker = Waiting
  | Queued batch => loaded = true /\ requests = [batch.*2] /\ worker = Waiting /\ batch <> []
  | Working done todo => loaded = true /\ requests = [] /\ worker_ok p done todo worker /\
      Forall (fun x => committed x.2) done /\ done.*1 ++ todo <> []
  | Replied done => loaded = true /\ requests = [] /\ worker = Waiting /\
      Forall (fun x => committed x.2) done /\ done <> []
  end.

Record inv (c : Cfg) (g : Ghost) : Prop := {
  inv_slot : forall p, slot_ok p (at3 (g_slots g) p) (at3 (pointer_type_to_whether_worker_is_loaded c) p)
    (at3 (requests c) p) (at3 (workers c) p);
  inv_queue : NoDup (g_queue g) /\
    (forall p, p ∈ g_queue g <-> exists done, at3 (g_slots g) p = Replied done) /\
    replies c = (fun p => reply p <$> slot_replied (at3 (g_slots g) p)) <$> g_queue g;
  inv_received : processed_transactions c = length (g_received g) /\
    outputs c = omap (fun x => outcome x.2) (g_received g) /\
    Forall (fun x => committed x.2) (g_received g);
  inv_kinds : forall p, Forall (of_kind p) (slot_items (at3 (g_slots g) p));
  inv_cross : at3 (g_slots g) Cross <> Free -> at3 (g_slots g) Aptos = Free /\ at3 (g_slots g) Ethereum = Free;
  inv_order : reorder (fun x : Item => kind_of x.2) (g_sent g)
    ((g_received g).*1 ++ (replied (g_slots g) (g_queue g)).*1 ++ underway (g_slots g));
  inv_sent : forall p, filter (of_kind p) (g_sent g) =
    filter (of_kind p) (take (at3 (pointer_type_to_txn_idx_in_block c) p) items);
  inv_known : Forall (fun x : Item => exists p, of_kind p x) (g_sent g);
  inv_nonces : nonces_after previous_nonces (g_sent g) = Ok (nonces c);
  inv_returned : match point c with
    | Returned (Ok outs) => (length block <= processed_transactions c)%nat /\
        outs = resize_outputs skip_output (outputs c) (length block)
    | Returned (Err _) => False
    | _ => True
    end;
}.

Lemma inv_start : inv (start previous_nonces) ghost_start.
Proof.
  split; cbn; try done.
  - intros []; done.
  - split; [apply NoDup_nil_2 | split; [| done]]. intros p. split; [by intros ?%elem_of_nil |].
    rewrite at3_all3. by intros [? ?].
  - intros []; apply Forall_nil_2.
  - by intros [].
Qed.

(** ** Slots and order *)

Lemma replied_set3 p s slots queue : p ∉ queue -> replied (set3 p s slots) queue = replied slots queue.
Proof.
  intros Hp. unfold replied. f_equal. apply list_fmap_ext. intros i q Hq. rewrite at3_set3_ne; [done |].
  intros ->. by apply Hp, (list_elem_of_lookup_2 _ i).
Qed.

Lemma replies_set3 p s slots (queue : list TxScanPointer) : p ∉ queue ->
  (fun q => reply q <$> slot_replied (at3 (set3 p s slots) q)) <$> queue =
  (fun q => reply q <$> slot_replied (at3 slots q)) <$> queue.
Proof.
  intros Hp. apply list_fmap_ext. intros i q Hq. rewrite at3_set3_ne; [done |].
  intros ->. by apply Hp, (list_elem_of_lookup_2 _ i).
Qed.

Lemma underway_same p s slots : slot_items s = slot_items (at3 slots p) -> underway (set3 p s slots) = underway slots.
Proof.
  intros Hs. apply join3_ext. intros q. destruct (decide (p = q)) as [<- | ?]; [by rewrite at3_set3_eq | by rewrite at3_set3_ne].
Qed.

Abbreviation reordered := (reorder (fun x : Item => kind_of x.2)).

(** ** The invariant is kept by the workers *)

Lemma set3_at3 {A} p (a : Array3 A) : set3 p (at3 a p) a = a.
Proof. by destruct p, a. Qed.

Lemma inv_at_point c g p :
  inv c g ->
  match p with
  | Returned (Ok outs) => (length block <= processed_transactions c)%nat /\
      outs = resize_outputs skip_output (outputs c) (length block)
  | Returned (Err _) => False
  | _ => True
  end ->
  inv (at_point p c) g.
Proof. intros [] Hp. by split. Qed.

(** The fields of the manager. *)
Definition same_manager (c c' : Cfg) : Prop :=
  point c' = point c /\ processed_transactions c' = processed_transactions c /\
  pointer_type_to_txn_idx_in_block c' = pointer_type_to_txn_idx_in_block c /\
  pointer_type_to_whether_worker_is_loaded c' = pointer_type_to_whether_worker_is_loaded c /\
  nonces c' = nonces c /\ outputs c' = outputs c.

(** A worker goes on with its batch. *)
Lemma inv_work w c c' g s :
  inv c g -> same_manager c c' -> replies c' = replies c ->
  (forall p, p <> w -> at3 (requests c') p = at3 (requests c) p /\ at3 (workers c') p = at3 (workers c) p) ->
  slot_ok w s (at3 (pointer_type_to_whether_worker_is_loaded c) w) (at3 (requests c') w) (at3 (workers c') w) ->
  slot_items s = slot_items (at3 (g_slots g) w) -> at3 (g_slots g) w <> Free ->
  (forall done, at3 (g_slots g) w <> Replied done) -> (forall done, s <> Replied done) ->
  inv c' (mkGhost (set3 w s (g_slots g)) (g_queue g) (g_received g) (g_sent g)).
Proof.
  intros Hi (Hp & Hpr & Hptr & Hl & Hn & Ho) Hrep Hother Hslot Hitems Hfree Hold Hnew. destruct Hi. destruct inv_queue0 as (Hnd & Hq & Hr).
  assert (Hw : w ∉ g_queue g) by (intros [done ?]%Hq; by eapply Hold).
  split; cbn [g_slots g_queue g_received g_sent]; rewrite ?Hp, ?Hpr, ?Hptr, ?Hl, ?Hn, ?Ho; try done.
  - intros p. destruct (decide (p = w)) as [-> | Hne]; [by rewrite at3_set3_eq |].
    destruct (Hother p Hne) as [-> ->]. rewrite at3_set3_ne by done. apply inv_slot0.
  - split; [done | split; [| by rewrite Hrep, replies_set3]]. intros p. rewrite Hq.
    destruct (decide (p = w)) as [-> | Hne]; [| by rewrite at3_set3_ne].
    rewrite at3_set3_eq. split; intros [done Hd]; [by apply Hold in Hd | by apply Hnew in Hd].
  - intros p. destruct (decide (p = w)) as [-> | Hne]; [by rewrite at3_set3_eq, Hitems |].
    rewrite at3_set3_ne by done. apply inv_kinds0.
  - destruct w; cbn; [| | intros _; by apply inv_cross0]; intros Hc; by destruct (inv_cross0 Hc).
  - by rewrite replied_set3, underway_same.
Qed.

Lemma inv_reply w c g done todo results :
  inv c g -> at3 (workers c) w = Batch [] results -> at3 (g_slots g) w = Working done todo ->
  inv (send_reply w results c) (mkGhost (set3 w (Replied done) (g_slots g)) (g_queue g ++ [w]) (g_received g) (g_sent g)).
Proof.
  intros Hi Hw Hs. destruct Hi. destruct inv_queue0 as (Hnd & Hq & Hr).
  assert (Hn : w ∉ g_queue g) by (intros [d Hd]%Hq; by rewrite Hs in Hd).
  pose proof (inv_slot0 w) as Hok. rewrite Hs, Hw in Hok. destruct Hok as (Hl & Hreq & [Ht ->] & Hc & Hne).
  destruct todo; [| done]. rewrite app_nil_r in Hne.
  split; cbn [g_slots g_queue g_received g_sent send_reply point processed_transactions pointer_type_to_txn_idx_in_block
    pointer_type_to_whether_worker_is_loaded nonces outputs requests replies workers]; try done.
  - intros p. destruct (decide (p = w)) as [-> | Hp]; [| by rewrite !at3_set3_ne].
    rewrite !at3_set3_eq. split_and!; try done. by intros ->.
  - split; [apply list.NoDup_app; split_and!; [done | | apply NoDup_singleton]; by intros p Hp ->%list_elem_of_singleton |].
    split.
    + intros p. rewrite elem_of_app, list_elem_of_singleton, Hq. destruct (decide (p = w)) as [-> | Hp].
      * rewrite at3_set3_eq. split; [by eexists | by right].
      * rewrite at3_set3_ne by done. split; [by intros [? | ?] | by left].
    + rewrite fmap_app, replies_set3, Hr by done. cbn. by rewrite at3_set3_eq.
  - intros p. destruct (decide (p = w)) as [-> | Hp]; [by rewrite at3_set3_eq; apply Forall_nil_2 | by rewrite at3_set3_ne].
  - clear -inv_cross0 Hs. destruct w; cbn in *; [intros Hx; destruct (inv_cross0 Hx); congruence .. | intros _; apply inv_cross0; congruence].
  - etrans; [exact inv_order0 |]. apply reorder_front. unfold replied at 2. rewrite fmap_app, join_app.
    fold (replied (set3 w (Replied done) (g_slots g)) (g_queue g)). rewrite replied_set3 by done. cbn.
    rewrite at3_set3_eq, fmap_app, <- app_assoc. cbn [slot_replied]. rewrite app_nil_r. apply reorder_front.
    etrans; [apply (join3_remove _ w (fun p => slot_items (at3 (g_slots g) p)) (fun p => slot_items (at3 (set3 w (Replied done) (g_slots g)) p))) |].
    + by rewrite at3_set3_eq.
    + intros q Hq'. by rewrite at3_set3_ne.
    + exact inv_kinds0.
    + intros ->. destruct inv_cross0 as [-> ->]; [by rewrite Hs | done].
    + rewrite Hs. cbn. by rewrite app_nil_r.
Qed.

Lemma stage_step_ok cache stage stage' : stage_ok stage -> stage_step base_view cache stage = Some stage' -> stage_ok stage'.
Proof.
  destruct stage as [[[o | o | e] | key cont] | skip o [| [key d] deltas] writes | s]; cbn; intros Hs.
  1-2: destruct (_ || _); by intros [= <-].
  1-2: by intros [= <-].
  - unfold merge_delta_writes. destruct (squash_writes _ _); cbn; try done. intros [= <-]. by destruct skip.
  - destruct (try_into_write_op _ _ _); try done. by intros [= <-].
  - by intros [= <-].
Qed.

Lemma inv_worker w c g : inv c g -> inv (worker_step program base_view w c) (ghost_worker w c g).
Proof.
  intros Hi. pose proof (inv_slot _ _ Hi w) as Hok. unfold worker_step, ghost_worker.
  assert (Hsame : forall s, same_manager c (with_worker w s c)) by done.
  assert (Hkeep : forall s, at3 (g_slots g) w <> Free -> (forall done, at3 (g_slots g) w <> Replied done) ->
    slot_ok w (at3 (g_slots g) w) (at3 (pointer_type_to_whether_worker_is_loaded c) w) (at3 (requests c) w) s ->
    inv (with_worker w s c) g).
  { intros s Hf Hr Hs. replace g with (mkGhost (set3 w (at3 (g_slots g) w) (g_slots g)) (g_queue g) (g_received g) (g_sent g))
      by (rewrite set3_at3; by destruct g).
    eapply (inv_work w c); try done; cbn; [| by rewrite at3_set3_eq]. intros p Hp. by rewrite at3_set3_ne. }
  destruct (at3 (g_slots g) w) as [| batch | done todo | done] eqn:Hs; cbn [slot_ok] in Hok.
  - destruct Hok as (Hl & Hr & Hw). rewrite Hw. unfold receive_request. by rewrite Hr.
  - destruct Hok as (Hl & Hr & Hw & Hne). rewrite Hw. unfold receive_request. rewrite Hr.
    eapply (inv_work w c); try done; cbn -[slot_ok]; rewrite ?at3_set3_eq, ?Hs; try done.
    intros p Hp. by rewrite !at3_set3_ne.
  - destruct Hok as (Hl & Hr & Hw & Hc & Hne).
    destruct (at3 (workers c) w) as [| [| txn batch] results | txn stage batch results |] eqn:Ew; [done | | | | done].
    + by eapply inv_reply.
    + destruct Hw as [Ht ->]. apply Hkeep; [done | done |]. split_and!; try done.
    + destruct Hw as (Ht & -> & Hst).
      assert (Hnext : forall s, (exists s0, s = Some s0 /\ stage_ok s0) \/ s = None ->
        inv (match s with Some stage => with_worker w (Executing txn stage batch (reply w <$> done)) c
             | None => with_worker w Panicked c end) g).
      { intros s [(s0 & -> & Hs0) | ->]; (apply Hkeep; [done | done |]; by split_and!). }
      assert (Hstep : forall s, stage_ok s -> (exists s0, stage_step base_view (executed_state_cache c) s = Some s0 /\ stage_ok s0)
                \/ stage_step base_view (executed_state_cache c) s = None).
      { intros s Hs0. destruct (stage_step _ _ s) as [s0 |] eqn:E; [| by right]. left. exists s0. split; [done |].
        by eapply stage_step_ok. }
      destruct stage as [p | skip o deltas writes | [o | o | e]]; try (apply Hnext, Hstep; done).
      3: { apply Hkeep; [done | done |]. by split_and!. }
      all: destruct todo as [| x todo]; [done |]; injection Ht as -> ->;
        (eapply (inv_work w c); try done; cbn -[slot_ok]; rewrite ?at3_set3_eq, ?Hs; try done);
        [intros p Hp; by rewrite !at3_set3_ne | | cbn; by rewrite fmap_app, <- app_assoc];
        cbn; rewrite !fmap_app, Hl; split_and!; try done;
        [apply Forall_app; split; [done | by apply Forall_singleton] | rewrite <- app_assoc; by destruct (done.*1)].
  - destruct Hok as (Hl & Hr & Hw & Hc & Hne). rewrite Hw. unfold receive_request. by rewrite Hr.
Qed.

(** ** The invariant is kept by the manager *)

Lemma process_results_spec p (done : list Result) loaded outs n :
  Forall (fun x => committed x.2) done ->
  process_results (reply p <$> done) loaded outs n =
    Ok (match done with [] => loaded | _ => set3 p false loaded end,
        outs ++ omap (fun x => outcome x.2) done, (n + length done)%nat).
Proof.
  intros Hd. revert loaded outs n. induction Hd as [| [x s] done Hs Hd IH]; intros loaded outs n.
  { cbn. by rewrite app_nil_r, Nat.add_0_r. }
  assert (Hset : forall b : Array3 bool, set3 p false (set3 p false b) = set3 p false b) by (by destruct p).
  destruct s as [o | o | e]; cbn in Hs |- *; [| | done];
    rewrite Hs, map_size_empty, bool_decide_eq_true_2 by done;
    rewrite IH, <- app_assoc, Nat.add_succ_r; destruct done; by rewrite ?Hset.
Qed.

Lemma inv_receive p c g :
  inv c g -> point c = Receiving p -> inv (continue_at (next_point p) c (try_receive p c)) (ghost_manager c g).
Proof.
  intros Hi Hp. unfold try_receive, ghost_manager. rewrite Hp.
  assert (Hsame : inv (at_point (next_point p) c) g) by (apply inv_at_point; [done | by destruct p]).
  destruct (at3 _ p) eqn:El; [| done]. destruct Hi. destruct inv_queue0 as (Hnd & Hq & Hr). rewrite Hr.
  destruct (g_queue g) as [| q queue] eqn:Eq; [done |]. rewrite fmap_cons. cbn [fmap list_fmap].
  destruct (proj1 (Hq q) ltac:(by left)) as [done Hd]. rewrite Hd. cbn [slot_replied].
  pose proof (inv_slot0 q) as Hok. rewrite Hd in Hok. destruct Hok as (Hl & Hreq & Hw & Hc & Hne).
  rewrite (process_results_spec q done) by done. cbn [result_bind continue_at].
  destruct done as [| d done']; [done |]. set (done := d :: done') in *. apply list.NoDup_cons in Hnd as [Hnq Hnd].
  destruct inv_received0 as (Hpr & Ho & Hcr).
  split; cbn [at_point g_slots g_queue g_received g_sent point processed_transactions pointer_type_to_txn_idx_in_block
    pointer_type_to_whether_worker_is_loaded nonces outputs requests replies workers]; try done.
  - intros p'. destruct (decide (p' = q)) as [-> | Hp']; [by rewrite !at3_set3_eq | by rewrite !at3_set3_ne].
  - split; [done | split]; [| by rewrite replies_set3]. intros p'. destruct (decide (p' = q)) as [-> | Hp'].
    + rewrite at3_set3_eq. split; [done | by intros [? ?]].
    + rewrite at3_set3_ne, <- Hq, elem_of_cons by done. split; [by right | by intros [? | ?]].
  - rewrite length_app, omap_app, Hpr, Ho. split_and!; try done. by apply Forall_app.
  - intros p'. destruct (decide (p' = q)) as [-> | Hp']; [rewrite at3_set3_eq; apply Forall_nil_2 | by rewrite at3_set3_ne].
  - clear -inv_cross0. destruct q; cbn in *; [naive_solver .. | done].
  - rewrite underway_same by (by rewrite Hd). rewrite replied_set3 by done.
    unfold replied in inv_order0. rewrite fmap_cons in inv_order0. cbn [mjoin list_join] in inv_order0.
    rewrite Hd, fmap_app in inv_order0. by rewrite fmap_app, <- !app_assoc in *.
  - by destruct p.
Qed.

Lemma scan_no_Err fuel loaded p processed batch handle s e s' :
  scan_batch (Failure := Failure) block fuel loaded p processed batch handle s <> (Err e, s').
Proof.
  revert batch handle s. induction fuel as [| fuel IH]; intros batch handle s; cbn; [done |].
  destruct (block !! _) as [[] |]; try done; destruct (check _ _ _ _ _ _) as [[] ?]; done.
Qed.

Lemma filter_take_between p i j :
  (i <= j)%nat -> filter (of_kind p) (take j items) = filter (of_kind p) (take i items) ++ between p i j.
Proof.
  intros Hij. unfold between. rewrite <- list.filter_app. f_equal.
  rewrite <- (take_drop i (take j items)) at 1. rewrite take_take. by replace (i `min` j)%nat with i by lia.
Qed.

Lemma filter_other_kind p q (l : list Item) : p <> q -> Forall (of_kind p) l -> filter (of_kind q) l = [].
Proof.
  intros Hpq Hl. induction Hl as [| x l Hx Hl IH]; [done |]. rewrite list.filter_cons_False; [done |].
  unfold of_kind in *. congruence.
Qed.

Lemma filter_of_kind p (l : list Item) : Forall (of_kind p) l -> filter (of_kind p) l = l.
Proof. induction 1 as [| x l Hx Hl IH]; [done |]. by rewrite list.filter_cons_True, IH. Qed.

Lemma between_kind p i j : Forall (of_kind p) (between p i j).
Proof. apply list.Forall_forall. intros x Hx%list_elem_of_filter. apply Hx. Qed.

(** Sending a batch to a worker that is there. *)
Lemma send_ok (batch : list Item) p (c : Cfg) :
  batch <> [] -> Forall (of_kind p) batch -> at3 (workers c) p = Waiting ->
  send_txns_to_worker batch.*2 p p c =
    Ok (mkConfig (point c) (processed_transactions c) (pointer_type_to_txn_idx_in_block c)
          (set3 p true (pointer_type_to_whether_worker_is_loaded c)) (nonces c) (outputs c)
          (set3 p (at3 (requests c) p ++ [batch.*2]) (requests c)) (replies c) (workers c) (executed_state_cache c)).
Proof.
  intros Hne Hk Hw. unfold send_txns_to_worker. rewrite Hw.
  destruct (exists_last Hne) as (l & x & ->). apply Forall_app in Hk as [_ Hx]. rewrite Forall_singleton in Hx.
  rewrite fmap_app. cbn [fmap list_fmap]. rewrite last_snoc. unfold of_kind in Hx.
  destruct x as [i [t | | | |]]; cbn in Hx; [reflexivity | discriminate Hx .. |]. by injection Hx as <-.
Qed.

Lemma available_free c g p :
  inv c g -> available (pointer_type_to_whether_worker_is_loaded c) p = true ->
  at3 (g_slots g) p = Free /\ (p <> Cross -> at3 (g_slots g) Cross = Free) /\
  (p = Cross -> at3 (g_slots g) Aptos = Free /\ at3 (g_slots g) Ethereum = Free).
Proof.
  intros Hi Ha.
  assert (Hf : forall q, at3 (pointer_type_to_whether_worker_is_loaded c) q = false -> at3 (g_slots g) q = Free).
  { intros q Hq. pose proof (inv_slot _ _ Hi q) as Hok. destruct (at3 (g_slots g) q); [done | ..];
      destruct Hok as [Hl _]; congruence. }
  destruct p; unfold available in Ha; apply negb_true_iff, orb_false_iff in Ha as [Ha1 Ha2].
  3: apply orb_false_iff in Ha1 as [Ha0 Ha1].
  all: split_and!; auto; done.
Qed.

Lemma scan_and_send_no_Err p (c : Cfg) e : scan_and_send block p c <> Err e.
Proof.
  unfold scan_and_send. destruct (scan_batch _ _ _ _ _ _ _ _) as [[[batch handle] | e' |] s] eqn:Es; [| | done].
  - case_bool_decide; [done |]. unfold send_txns_to_worker. destruct (list.last batch) as [[] |]; try done;
      by destruct (at3 (workers _) _).
  - by apply scan_no_Err in Es.
Qed.

(** The pointer moves on over the transactions sent, which are flagged and in the channel. *)
Lemma scan_and_send_Ok p c g c' :
  inv c g -> scan_and_send block p c = Ok c' ->
  let i := at3 (pointer_type_to_txn_idx_in_block c) p in
  exists j l r n,
    c' = mkConfig (point c) (processed_transactions c) (set3 p j (pointer_type_to_txn_idx_in_block c))
      l n (outputs c) r (replies c) (workers c) (executed_state_cache c) /\ (i <= j)%nat /\
    nonces_after (nonces c) (between p i j) = Ok n /\
    (if decide (between p i j = [])
     then l = pointer_type_to_whether_worker_is_loaded c /\ r = requests c
     else available (pointer_type_to_whether_worker_is_loaded c) p = true /\
       l = set3 p true (pointer_type_to_whether_worker_is_loaded c) /\
       r = set3 p [(between p i j).*2] (requests c)).
Proof.
  intros Hi E i. unfold scan_and_send in E.
  destruct (scan_batch _ _ _ _ _ _ _ _) as [[[batch handle] | e' |] s] eqn:Es; [| done | done].
  apply scan_spec in Es as (Hle & -> & Hh & Hn). cbn [tx_pointer_idx previous_nonce_per_address] in *. fold i in Hle, Hh, Hn, E.
  set (j := tx_pointer_idx s) in *. cbn [app] in E.
  destruct (decide (between p i j = [])) as [Hs | Hs].
  - rewrite Hs, bool_decide_eq_true_2 in E by done. injection E as <-. do 4 eexists. split_and!; [done.. |].
    by rewrite decide_True.
  - rewrite bool_decide_eq_false_2 in E by (by destruct (between p i j)). destruct Hh as [-> Ha].
    destruct (available_free _ _ _ Hi Ha) as (Hf & _). pose proof (inv_slot _ _ Hi p) as Hok. rewrite Hf in Hok.
    rewrite send_ok in E; [| done | apply between_kind | apply Hok]. injection E as <-. do 4 eexists.
    split_and!; [done.. |]. rewrite decide_False by done. split_and!; [done.. |].
    destruct Hok as (_ & Hr & _). cbn [requests]. by rewrite Hr.
Qed.

Lemma inv_scan p c g :
  inv c g -> point c = Scanning p -> inv (continue_at (Receiving p) c (scan_and_send block p c)) (ghost_manager c g).
Proof.
  intros Hi Hp. unfold ghost_manager, scanned. rewrite Hp.
  destruct (scan_and_send block p c) as [c' | e |] eqn:E; [| by apply scan_and_send_no_Err in E | by apply inv_at_point].
  destruct (scan_and_send_Ok _ _ _ _ Hi E) as (j & l & r & n & -> & Hle & Hn & Hlr).
  set (i := at3 (pointer_type_to_txn_idx_in_block c) p) in *. pose proof (between_kind p i j) as Hk.
  unfold continue_at, at_point. cbn [point processed_transactions pointer_type_to_txn_idx_in_block
    pointer_type_to_whether_worker_is_loaded nonces outputs requests replies workers]. rewrite at3_set3_eq.
  assert (Hsent : forall q, filter (of_kind q) (g_sent g ++ between p i j) =
    filter (of_kind q) (take (at3 (set3 p j (pointer_type_to_txn_idx_in_block c)) q) items)).
  { intros q. rewrite list.filter_app, (inv_sent _ _ Hi q). destruct (decide (p = q)) as [<- | Hq].
    - by rewrite at3_set3_eq, (filter_of_kind p (between p i j)), (filter_take_between p i j).
    - by rewrite at3_set3_ne, (filter_other_kind p q (between p i j)), app_nil_r. }
  assert (Hnon : nonces_after previous_nonces (g_sent g ++ between p i j) = Ok n).
  { by rewrite nonces_after_app, (inv_nonces _ _ Hi). }
  destruct (decide (between p i j = [])) as [Hs | Hs].
  { rewrite Hs in *. rewrite app_nil_r in *. destruct Hlr as [-> ->]. destruct Hi. by split. }
  destruct Hlr as (Ha & -> & ->). destruct (available_free _ _ _ Hi Ha) as (Hf & Hcr & Hna).
  destruct (between p i j) as [| b batch] eqn:Eb; [done |]. destruct Hi. destruct inv_queue0 as (Hnd & Hq & Hr).
  assert (Hnq : p ∉ g_queue g) by (intros [d Hd]%Hq; congruence).
  pose proof (inv_slot0 p) as Hok. rewrite Hf in Hok. destruct Hok as (Hl & Hreq & Hw).
  split; cbn [g_slots g_queue g_received g_sent point processed_transactions pointer_type_to_txn_idx_in_block
    pointer_type_to_whether_worker_is_loaded nonces outputs requests replies workers]; try done.
  - intros q. destruct (decide (p = q)) as [<- | Hq']; [| by rewrite !at3_set3_ne].
    rewrite !at3_set3_eq. by split_and!.
  - split; [done | split; [| by rewrite replies_set3]]. intros q. rewrite Hq.
    destruct (decide (p = q)) as [<- | Hq']; [| by rewrite at3_set3_ne]. rewrite at3_set3_eq, Hf.
    split; intros [d ?]; done.
  - intros q. destruct (decide (p = q)) as [<- | Hq']; [by rewrite at3_set3_eq | by rewrite at3_set3_ne].
  - destruct p; cbn in *; [intros Hx; by rewrite Hcr in Hx .. | intros _; by apply Hna].
  - rewrite replied_set3 by done. etrans; [apply reorder_back, inv_order0 |]. rewrite <- !app_assoc.
    do 2 apply reorder_front. apply (join3_add _ p); [by rewrite at3_set3_eq, Hf | | done | done |].
    + intros q Hq'. by rewrite at3_set3_ne.
    + intros Hp'. by rewrite Hcr.
  - apply Forall_app. split; [done |]. apply (list.Forall_impl _ _ _ Hk). intros x Hx. by exists p.
Qed.

Lemma inv_step t c g : inv c g -> inv (system_step program base_view skip_output block t c) (ghost_step t c g).
Proof.
  intros Hi. destruct t as [| w]; [| by apply inv_worker]. cbn. unfold manager_step.
  destruct (point c) as [| p | p | r] eqn:Hp.
  - unfold ghost_manager. rewrite Hp. destruct (_ <? _)%nat eqn:El; apply inv_at_point; try done.
    apply Nat.ltb_ge in El. done.
  - by apply inv_scan.
  - by apply inv_receive.
  - unfold ghost_manager. by rewrite Hp.
Qed.

(** The history after the first [n] steps of a schedule. *)
Fixpoint ghost_run (schedule : nat -> Thread) (n : nat) : Ghost :=
  match n with
  | O => ghost_start
  | S n => ghost_step (schedule n)
             (run program base_view skip_output block schedule n (start previous_nonces)) (ghost_run schedule n)
  end.

Lemma inv_run schedule n :
  inv (run program base_view skip_output block schedule n (start previous_nonces)) (ghost_run schedule n).
Proof. induction n as [| n IH]; [apply inv_start | by apply inv_step]. Qed.

Definition holds_batch (c : Cfg) (p : TxScanPointer) : Prop :=
  at3 (workers c) p <> Waiting \/ at3 (requests c) p <> [].

(** C23. Cross-space transactions run alone. However the threads are interleaved, while the cross
    worker holds a batch neither the Move worker nor the Ethereum worker does, and the manager's
    flags agree; a worker holds at most one batch at a time, and only while it is flagged as
    loaded. *)
Theorem cross_runs_alone (schedule : nat -> Thread) (n : nat) :
  let c := run program base_view skip_output block schedule n (start previous_nonces) in
  let loaded := at3 (pointer_type_to_whether_worker_is_loaded c) in
  (holds_batch c Cross -> ~ holds_batch c Aptos /\ ~ holds_batch c Ethereum) /\
  (loaded Cross = true -> loaded Aptos = false /\ loaded Ethereum = false) /\
  (forall p, holds_batch c p -> loaded p = true) /\
  (forall p, (length (at3 (requests c) p) <= 1)%nat /\
     (at3 (workers c) p <> Waiting -> at3 (requests c) p = [])).
Proof.
  intros c loaded. pose proof (inv_run schedule n) as Hi. fold c in Hi. set (g := ghost_run schedule n) in *.
  assert (Hs : forall p, (at3 (g_slots g) p = Free -> ~ holds_batch c p /\ loaded p = false) /\
            (at3 (g_slots g) p <> Free -> loaded p = true) /\
            (length (at3 (requests c) p) <= 1)%nat /\ (at3 (workers c) p <> Waiting -> at3 (requests c) p = [])).
  { intros p. pose proof (inv_slot _ _ Hi p) as Hok. unfold holds_batch, loaded.
    destruct (at3 (g_slots g) p); cbn in Hok.
    - destruct Hok as (-> & -> & ->). split_and!; try done; [intros _; split; [by intros [] | done] | cbn; lia].
    - destruct Hok as (-> & -> & -> & _). by split_and!.
    - destruct Hok as (-> & -> & _). split_and!; try done. cbn. lia.
    - destruct Hok as (-> & -> & -> & _). split_and!; try done. cbn. lia. }
  assert (Hb : forall p, holds_batch c p -> at3 (g_slots g) p <> Free).
  { intros p Hp Hf. by apply Hs in Hf as [? _]. }
  split_and!.
  - intros Hc%Hb%(inv_cross _ _ Hi). split; apply Hs, Hc.
  - intros Hl. destruct (inv_cross _ _ Hi) as [Ha He]; [intros Hf; apply Hs in Hf as [_ ?]; congruence |].
    split; by apply Hs.
  - intros p Hp%Hb. by apply Hs.
  - intros p. apply Hs.
Qed.
End invariant.
