(* ===== verification/ManagerSerial.v ===== *)
(** * The manager serializes a block

    The outputs the manager returns, and the cache of writes it leaves, are those of executing
    the block one transaction at a time in the order in which the results came in, when native
    Move transactions and native Ethereum transactions keep to state of their own. The order is
    a permutation of the block that keeps the order of the block within each kind of transaction
    and the order of nonces of every sender that stays in one space. *)

From stdpp Require Import gmap relations.
From S2P Require Import Prelude Word Delta WriteSets MVHashMap BlockStm Manager ManagerInv.
Local Open Scope Z_scope.

Section serial.
Context {BCS : BcsU128} {K : Type} `{Countable K} {Info Failure : Type}.
Context {Address : Type} `{Countable Address} {Payload : Type}.
Abbreviation Txn := (PreprocessedTransaction (Address := Address) (Payload := Payload)).
Abbreviation Output := (TxnOutput (K := K) (Info := Info)).
Abbreviation ExecStatus := (ExecutionStatus (K := K) (Info := Info) (Failure := Failure)).
Abbreviation Prog := (Program (K := K) (Info := Info) (Failure := Failure)).
Abbreviation Nonces := (gmap Address Z).
Abbreviation Cfg := (Config (K := K) (Info := Info) (Failure := Failure) (Address := Address) (Payload := Payload)).
Abbreviation Item := (nat * Txn)%type.
Abbreviation Result := (Item * ExecStatus)%type.
Abbreviation StageT := (Stage (K := K) (Info := Info) (Failure := Failure)).
Abbreviation GhostT := (Ghost (K := K) (Info := Info) (Failure := Failure) (Address := Address) (Payload := Payload)).
Context (program : Txn -> Prog) (base_view : K -> option (list byte)).
Context (skip_output : Output) (block : list Txn) (previous_nonces : Nonces).

Abbreviation execute_txn := (execute_sequential_txn (Failure := Failure) base_view).

(** ** The reference: one transaction at a time *)

Definition status_writes (s : ExecStatus) : gmap K WriteOp :=
  match s with Success o | SkipRest o => o_writes o | Abort _ => ∅ end.

(** Executing transactions in turn, each over the writes of those before; unlike
    [execute_transactions_sequential] it goes on after a [SkipRest]. *)
Fixpoint execute_in_turn (txns : list Txn) (data_map : gmap K WriteOp) :
    result Failure (list Output * gmap K WriteOp) :=
  match txns with
  | [] => Ok ([], data_map)
  | txn :: txns =>
      let? res := execute_txn data_map (program txn) in
      match res with
      | Success output | SkipRest output =>
          let? ' (outs, data_map) := execute_in_turn txns (o_writes output ∪ data_map) in
          Ok (output :: outs, data_map)
      | Abort err => Err err
      end
  end.

(** ** Finishing a transaction *)

(** What the worker makes of a stage if nobody else writes. *)
Definition finish_stage (cache : gmap K WriteOp) (stage : StageT) : result Failure ExecStatus :=
  match stage with
  | Run p => execute_txn cache p
  | Materialize skip_rest output deltas writes =>
      let? rest := try_into_write_set (btree_value base_view cache) deltas in
      let? o := merge_delta_writes output (list_to_map writes ∪ rest) in
      Ok (if skip_rest then SkipRest o else Success o)
  | Finished status => Ok status
  end.

Lemma try_into_write_op_cases view key d :
  (exists op, try_into_write_op (K := K) (Failure := Failure) view key d = Ok op) \/
  try_into_write_op (K := K) (Failure := Failure) view key d = Panic.
Proof.
  unfold try_into_write_op. destruct (view key) as [[b |] | |]; auto. unfold deserialize.
  destruct (bcs_from_bytes b); cbn; [| by right]. destruct (apply_to _ _); [left; by eexists | by right ..].
Qed.

Lemma merge_delta_writes_cases (o : Output) dw :
  (exists o', merge_delta_writes (Failure := Failure) o dw = Ok o') \/ merge_delta_writes (Failure := Failure) o dw = Panic.
Proof. unfold merge_delta_writes. destruct (squash_writes _ _); [left; by eexists | by right ..]. Qed.

Lemma finish_stage_step cache stage :
  match stage_step base_view cache stage with
  | Some stage' => finish_stage cache stage' = finish_stage cache stage
  | None => finish_stage cache stage = Panic
  end.
Proof.
  assert (Hout : forall (o : Output) (b : bool) (f : Output -> ExecStatus), f = (if b then SkipRest else Success) ->
    finish_stage cache (if o_discarded o || bool_decide (o_deltas o = ∅) then Finished (f (without_deltas o))
      else Materialize b o (map_to_list (o_deltas o)) []) =
    (let? o := into_transaction_output (btree_value base_view cache) o in Ok (f o))).
  { intros o b f ->. unfold into_transaction_output. destruct (_ || _); cbn; [by destruct b |].
    destruct (try_into_write_set _ _); cbn; try done. rewrite map_empty_union.
    destruct (merge_delta_writes _ _); cbn; try done. by destruct b. }
  destruct stage as [[[o | o | e] | key cont] | skip o [| [key d] deltas] writes | s]; cbn [stage_step]; try done.
  - specialize (Hout o false Success eq_refl). destruct (_ || _); exact Hout.
  - specialize (Hout o true SkipRest eq_refl). destruct (_ || _); exact Hout.
  - cbn [finish_stage]. unfold execute_sequential_txn. cbn [run_program].
    destruct (btree_value base_view cache key) eqn:E; try done. unfold btree_value in E. by destruct (cache !! key).
  - cbn. rewrite map_union_empty. by destruct (merge_delta_writes_cases o (list_to_map writes)) as [[o' ->] | ->].
  - cbn. destruct (try_into_write_op_cases (btree_value base_view cache) key d) as [[op ->] | ->]; [| done]. cbn.
    destruct (try_into_write_set _ deltas) as [rest | |]; cbn; try done.
    rewrite list_to_map_app. cbn. rewrite insert_empty, <- map_union_assoc.
    by rewrite <- insert_union_singleton_l.
Qed.

(** ** Where a transaction reads and writes *)

Section footprint.
Context (R W : K -> Prop).

(** The keys a program may fetch and the keys its output may change, whatever it fetches. *)
Fixpoint within (p : Prog) : Prop :=
  match p with
  | Finish (Success o | SkipRest o) =>
      (forall key, key ∈ dom (o_writes o) -> W key) /\ (forall key, key ∈ dom (o_deltas o) -> R key /\ W key)
  | Finish (Abort _) => True
  | Fetch key cont => R key /\ forall v, within (cont v)
  end.

Definition stage_within (s : StageT) : Prop :=
  match s with
  | Run p => within p
  | Materialize _ o deltas writes =>
      (forall key, key ∈ dom (o_writes o) -> W key) /\ (forall key, key ∈ deltas.*1 -> R key /\ W key) /\
      (forall key, key ∈ writes.*1 -> W key)
  | Finished s => forall key, key ∈ dom (status_writes s) -> W key
  end.

Lemma squash_writes_keys l (m m' : gmap K WriteOp) key :
  squash_writes l m = Ok m' -> key ∈ dom m' -> key ∈ dom m \/ key ∈ l.*1.
Proof.
  revert m. induction l as [| [k op] l IH]; intros m; cbn; [intros [= ->]; by left |].
  assert (Hput : forall o, key ∈ dom (put k o m) -> key ∈ dom m \/ key = k).
  { intros [w |]; cbn; [rewrite dom_insert, elem_of_union, elem_of_singleton; intros [-> | ?]; [by right | by left] |].
    rewrite dom_delete. intros [? _]%elem_of_difference. by left. }
  destruct (m !! k) as [r |]; [destruct (squash_op r op) as [o | |]; cbn; try done | cbn]; intros E Hk;
    (destruct (IH _ E Hk) as [Hd | Hd]; [| by right; right]).
  - destruct (Hput _ Hd) as [? | ->]; [by left | right; by left].
  - destruct (Hput (Some op) Hd) as [? | ->]; [by left | right; by left].
Qed.

Lemma try_into_write_set_keys view deltas (dw : gmap K WriteOp) key :
  try_into_write_set (Failure := Failure) view deltas = Ok dw -> key ∈ dom dw -> key ∈ deltas.*1.
Proof.
  revert dw. induction deltas as [| [k d] deltas IH]; intros dw; cbn; [intros [= <-]; by rewrite dom_empty |].
  destruct (try_into_write_op _ _ _); cbn; try done. destruct (try_into_write_set _ _) as [rest | |]; cbn; try done.
  intros [= <-]. rewrite dom_insert, elem_of_union, elem_of_singleton. intros [-> | Hk]; [by left | right; by eapply IH].
Qed.

Lemma stage_within_step cache stage stage' :
  stage_within stage -> stage_step base_view cache stage = Some stage' -> stage_within stage'.
Proof.
  assert (Hout : forall (o : Output) (b : bool) (f : Output -> ExecStatus), f = (if b then SkipRest else Success) ->
    within (Finish (f o)) ->
    stage_within (if o_discarded o || bool_decide (o_deltas o = ∅) then Finished (f (without_deltas o))
      else Materialize b o (map_to_list (o_deltas o)) [])).
  { intros o b f -> Hw. assert (Hw' : (forall key, key ∈ dom (o_writes o) -> W key) /\
      (forall key, key ∈ dom (o_deltas o) -> R key /\ W key)) by (by destruct b). destruct Hw' as [H1 H2].
    destruct (_ || _); [by destruct b |]. cbn. split; [done | split; [| by intros key ?%elem_of_nil]].
    intros key Hk%keys_of_map. by apply H2. }
  destruct stage as [[[o | o | e] | key cont] | skip o [| [key d] deltas] writes | s]; cbn [stage_step]; intros Hw.
  - specialize (Hout o false Success eq_refl Hw). destruct (_ || _); intros [= <-]; exact Hout.
  - specialize (Hout o true SkipRest eq_refl Hw). destruct (_ || _); intros [= <-]; exact Hout.
  - intros [= <-]. cbn. intros key Hk. by rewrite dom_empty in Hk.
  - intros [= <-]. apply Hw.
  - unfold merge_delta_writes. destruct (squash_writes _ _) as [m' | |] eqn:E; try done. intros [= <-].
    destruct Hw as (H1 & _ & H3).
    assert (Hm : forall key, key ∈ dom m' -> W key).
    { intros key Hk. destruct (squash_writes_keys _ _ _ _ E Hk) as [Hd | Hd%keys_of_map]; [by apply H1 |].
      apply H3. apply elem_of_dom in Hd as [w Hd]. apply elem_of_list_to_map_2 in Hd.
      apply list_elem_of_fmap. by exists (key, w). }
    by destruct skip.
  - destruct (try_into_write_op _ _ _); try done. intros [= <-]. destruct Hw as (H1 & H2 & H3). cbn.
    split; [done | split; [intros k Hk; apply H2; by right |]]. rewrite fmap_app. cbn.
    intros k [Hk | ->%list_elem_of_singleton]%elem_of_app; [by apply H3 | apply H2; by left].
  - by intros [= <-].
Qed.

Context (cache cache' : gmap K WriteOp) (Hagree : forall key, R key -> cache !! key = cache' !! key).

Lemma btree_value_agree key : R key -> btree_value base_view cache key = btree_value base_view cache' key.
Proof. intros Hk. unfold btree_value. by rewrite (Hagree key Hk). Qed.

Lemma try_into_write_set_agree deltas :
  (forall key, key ∈ deltas.*1 -> R key) ->
  try_into_write_set (Failure := Failure) (btree_value base_view cache) deltas =
  try_into_write_set (btree_value base_view cache') deltas.
Proof.
  induction deltas as [| [k d] deltas IH]; intros Hk; [done |]. cbn.
  replace (try_into_write_op (btree_value base_view cache) k d)
    with (try_into_write_op (Failure := Failure) (btree_value base_view cache') k d).
  - rewrite IH; [done |]. intros key Hin. apply Hk. by right.
  - unfold try_into_write_op. rewrite btree_value_agree; [done |]. apply Hk. by left.
Qed.

Lemma execute_agree p : within p -> execute_txn cache p = execute_txn cache' p.
Proof.
  unfold execute_sequential_txn.
  assert (Hout : forall o : Output, (forall key, key ∈ dom (o_deltas o) -> R key /\ W key) ->
    into_transaction_output (Failure := Failure) (btree_value base_view cache) o =
    into_transaction_output (btree_value base_view cache') o).
  { intros o Ho. unfold into_transaction_output. destruct (_ || _); [done |].
    rewrite try_into_write_set_agree; [done |]. intros key Hk%keys_of_map. by apply Ho. }
  induction p as [[o | o | e] | key cont IH]; cbn; intros Hp; [rewrite Hout; [done | apply Hp] .. | done |].
  destruct Hp as [Hk Hp]. rewrite <- btree_value_agree by done.
  destruct (btree_value base_view cache key); [apply IH, Hp .. | done].
Qed.

Lemma finish_stage_agree stage : stage_within stage -> finish_stage cache stage = finish_stage cache' stage.
Proof.
  destruct stage as [p | skip o deltas writes | s]; cbn; [apply execute_agree | | done].
  intros (_ & Hd & _). rewrite try_into_write_set_agree; [done |]. intros key Hk. by apply Hd.
Qed.
End footprint.

Lemma execute_within R W cache p s :
  within R W p -> execute_txn cache p = Ok s -> forall key, key ∈ dom (status_writes s) -> W key.
Proof.
  assert (Hout : forall o o' : Output, (forall key, key ∈ dom (o_writes o) -> W key) ->
    (forall key, key ∈ dom (o_deltas o) -> R key /\ W key) ->
    into_transaction_output (Failure := Failure) (btree_value base_view cache) o = Ok o' ->
    forall key, key ∈ dom (o_writes o') -> W key).
  { intros o o' Hw Hd. unfold into_transaction_output. destruct (_ || _); [by intros [= <-] |].
    destruct (try_into_write_set _ _) as [dw | |] eqn:Et; cbn; try done. unfold merge_delta_writes.
    destruct (squash_writes _ _) as [m' | |] eqn:E; cbn; try done. intros [= <-] key Hk. cbn in Hk.
    destruct (squash_writes_keys _ _ _ _ E Hk) as [? | Hdw%keys_of_map]; [by apply Hw |].
    apply Hd. apply keys_of_map. by eapply try_into_write_set_keys. }
  unfold execute_sequential_txn. induction p as [[o | o | e] | key cont IH]; cbn; intros Hp.
  1-2: destruct (into_transaction_output _ _) as [o' | |] eqn:E; cbn; try done; intros [= <-]; cbn;
    eapply Hout; [apply Hp | apply Hp | done].
  - intros [= <-] key Hk. cbn in Hk. by rewrite dom_empty in Hk.
  - destruct (btree_value base_view cache key); cbn; try done; apply IH, Hp.
Qed.

(** ** The spaces *)

(** Native Move transactions write no key that a native Ethereum transaction reads or writes,
    and conversely; cross-space transactions may use any key. *)
Record separated (reads writes : TxScanPointer -> K -> Prop) : Prop := {
  sep_program : forall txn p, txn ∈ block -> kind_of txn = Some p -> within (reads p) (writes p) (program txn);
  sep_aptos : forall key, writes Aptos key -> ~ reads Ethereum key /\ ~ writes Ethereum key;
  sep_ethereum : forall key, writes Ethereum key -> ~ reads Aptos key /\ ~ writes Aptos key;
}.

Context (reads writes : TxScanPointer -> K -> Prop) (Hsep : separated reads writes).

(** The results of [l], in turn, take the first map to the second. *)
Fixpoint ran (data_map : gmap K WriteOp) (l : list Result) (data_map' : gmap K WriteOp) : Prop :=
  match l with
  | [] => data_map = data_map'
  | (x, s) :: l =>
      execute_txn data_map (program x.2) = Ok s /\ ran (status_writes s ∪ data_map) l data_map'
  end.

Lemma ran_app m l k m' : ran m (l ++ k) m' <-> exists m1, ran m l m1 /\ ran m1 k m'.
Proof.
  revert m. induction l as [| [x s] l IH]; intros m; cbn; [naive_solver |]. rewrite IH. naive_solver.
Qed.

Lemma separated_natives p q key :
  (p = Aptos /\ q = Ethereum) \/ (p = Ethereum /\ q = Aptos) -> writes p key -> ~ reads q key /\ ~ writes q key.
Proof. intros [[-> ->] | [-> ->]]; apply Hsep. Qed.

Definition natives (p q : TxScanPointer) : Prop := (p = Aptos /\ q = Ethereum) \/ (p = Ethereum /\ q = Aptos).

Lemma outside_writes p q (s : ExecStatus) (m : gmap K WriteOp) :
  natives p q -> (forall key, key ∈ dom (status_writes s) -> writes p key) ->
  forall key, reads q key -> m !! key = (status_writes s ∪ m) !! key.
Proof.
  intros Hpq Hw key Hr. symmetry. apply lookup_union_r, not_elem_of_dom. intros Hk%Hw.
  by apply (separated_natives p q) in Hk as [? _].
Qed.

Lemma ran_swap m a b p q l m' :
  natives p q -> a.1.2 ∈ block -> b.1.2 ∈ block -> kind_of a.1.2 = Some p -> kind_of b.1.2 = Some q ->
  ran m (a :: b :: l) m' -> ran m (b :: a :: l) m'.
Proof.
  intros Hpq Ha Hb Hka Hkb. destruct a as [x s], b as [y t]. cbn in *. intros (E1 & E2 & Hl).
  assert (Hqp : natives q p) by (unfold natives in *; naive_solver).
  pose proof (sep_program _ _ Hsep _ _ Ha Hka) as Wa. pose proof (sep_program _ _ Hsep _ _ Hb Hkb) as Wb.
  pose proof (execute_within _ _ _ _ _ Wa E1) as Ws. pose proof (execute_within _ _ _ _ _ Wb E2) as Wt.
  split_and!.
  - rewrite <- E2. apply (execute_agree (reads q) (writes q)); [| done]. by apply (outside_writes p q).
  - rewrite <- E1. symmetry. apply (execute_agree (reads p) (writes p)); [| done]. by apply (outside_writes q p).
  - rewrite !map_union_assoc in *. rewrite (map_union_comm (status_writes s)); [done |].
    apply map_disjoint_dom. intros key Hk1%Ws Hk2%Wt. by apply (separated_natives p q) in Hk1 as [_ ?].
Qed.

Lemma ran_reorder m l l' m' :
  reorder (fun x : Result => kind_of x.1.2) l l' -> (forall x, x ∈ l -> x.1.2 ∈ block) -> ran m l m' -> ran m l' m'.
Proof.
  intros E. induction E as [| x y z Hxy Hyz IH]; intros Hb Hr; [done |].
  assert (Hp : x ≡ₚ y) by (apply reorder_perm with (kind := fun x : Result => kind_of x.1.2), rtc_once; done).
  apply IH; [intros a Ha; apply Hb; by rewrite Hp |].
  destruct Hxy as (l1 & a & b & l2 & -> & -> & Hab). apply ran_app in Hr as (m1 & H1 & H2).
  apply ran_app. exists m1. split; [done |].
  destruct Hab as [[Ha Hb'] | [Ha Hb']]; (eapply ran_swap; [| | | exact Ha | exact Hb' | exact H2]);
    [by left | .. | by right | |]; apply Hb; set_solver.
Qed.

(** ** The workers and the cache *)

Definition slot_done (s : Slot (K := K) (Info := Info) (Failure := Failure) (Address := Address) (Payload := Payload)) :
    list Result := match s with Working done _ => done | _ => [] end.

Definition log (g : GhostT) : list Result :=
  g_received g ++ replied (g_slots g) (g_queue g) ++ join3 (fun p => slot_done (at3 (g_slots g) p)).

Record serial (c : Cfg) (g : GhostT) : Prop := {
  serial_log : ran ∅ (log g) (executed_state_cache c);
  serial_stage : forall p txn stage batch results, at3 (workers c) p = Executing txn stage batch results ->
    stage_within (reads p) (writes p) stage /\
    finish_stage (executed_state_cache c) stage = execute_txn (executed_state_cache c) (program txn);
}.

Abbreviation invariant := (inv skip_output block previous_nonces).

Lemma sent_in_block (c : Cfg) (g : GhostT) x : invariant c g -> x ∈ g_sent g -> x.2 ∈ block.
Proof.
  intros Hi Hx. pose proof (inv_known _ _ _ _ _ Hi) as Hk. rewrite list.Forall_forall in Hk.
  destruct (Hk x Hx) as [p Hp].
  assert (Hin : x ∈ filter (of_kind p) (g_sent g)) by (by apply list_elem_of_filter).
  rewrite (inv_sent _ _ _ _ _ Hi p) in Hin. apply list_elem_of_filter in Hin as [_ Hin].
  apply list_elem_of_lookup in Hin as [i Hin]. apply lookup_take_Some in Hin as [Hin _].
  unfold items in Hin. rewrite list_lookup_imap in Hin. destruct (block !! i) as [t |] eqn:Et; [| done].
  injection Hin as <-. by apply list_elem_of_lookup_2 in Et.
Qed.

Lemma slot_in_block (c : Cfg) (g : GhostT) p x :
  invariant c g -> x ∈ slot_items (at3 (g_slots g) p) -> x.2 ∈ block /\ kind_of x.2 = Some p.
Proof.
  intros Hi Hx. split.
  - eapply sent_in_block; [done |]. rewrite (reorder_perm _ _ _ (inv_order _ _ _ _ _ Hi)).
    rewrite !elem_of_app. do 2 right. unfold underway, join3. rewrite !elem_of_app. destruct p; auto.
  - pose proof (inv_kinds _ _ _ _ _ Hi p) as Hk. rewrite list.Forall_forall in Hk. by apply Hk.
Qed.

Lemma log_in_block (c : Cfg) (g : GhostT) x : invariant c g -> x ∈ log g -> x.1.2 ∈ block.
Proof.
  intros Hi Hx. eapply sent_in_block; [done |]. rewrite (reorder_perm _ _ _ (inv_order _ _ _ _ _ Hi)).
  unfold log, underway, join3 in *. rewrite !elem_of_app in *.
  assert (Hd : forall p, x ∈ slot_done (at3 (g_slots g) p) -> x.1 ∈ slot_items (at3 (g_slots g) p)).
  { intros p. destruct (at3 (g_slots g) p); cbn; try by intros ?%elem_of_nil. intros Hin.
    apply elem_of_app. left. by apply list_elem_of_fmap_2. }
  assert (Hf : forall l : list Result, x ∈ l -> x.1 ∈ l.*1) by (intros; by apply list_elem_of_fmap_2).
  destruct Hx as [Hx | [Hx | [Hx | [Hx | Hx]]]]; eauto 7.
Qed.

Lemma done_kind (c : Cfg) (g : GhostT) p x : invariant c g -> x ∈ slot_done (at3 (g_slots g) p) -> kind_of x.1.2 = Some p.
Proof.
  intros Hi Hx. apply (slot_in_block c g p); [done |].
  destruct (at3 (g_slots g) p); cbn in *; try by apply elem_of_nil in Hx.
  apply elem_of_app. left. by apply list_elem_of_fmap_2.
Qed.

Lemma serial_start : serial (start previous_nonces) ghost_start.
Proof. split; [done |]. intros p txn stage batch results. cbn. by rewrite at3_all3. Qed.

(** ** Every step keeps it *)

Lemma log_same (g g' : GhostT) :
  g_received g' = g_received g -> g_queue g' = g_queue g ->
  (forall p, p ∈ g_queue g -> slot_replied (at3 (g_slots g') p) = slot_replied (at3 (g_slots g) p)) ->
  (forall p, slot_done (at3 (g_slots g') p) = slot_done (at3 (g_slots g) p)) -> log g' = log g.
Proof.
  intros Hr Hq Hs Hd. unfold log, replied. rewrite Hr, Hq, (join3_ext _ _ Hd). do 2 f_equal. f_equal.
  apply list_fmap_ext. intros i p Hp. apply Hs. by eapply list_elem_of_lookup_2.
Qed.

Lemma serial_commit w (c : Cfg) (g : GhostT) res output x done todo batch results :
  invariant c g -> serial c g -> outcome res = Some output -> status_writes res = o_writes output ->
  at3 (workers c) w = Executing x.2 (Finished res) batch results -> at3 (g_slots g) w = Working done (x :: todo) ->
  serial (apply_output w res output batch results c)
    (mkGhost (set3 w (Working (done ++ [(x, res)]) todo) (g_slots g)) (g_queue g) (g_received g) (g_sent g)).
Proof.
  intros Hi [Hlog Hstage] Ho Hsw Hw Hs. destruct (Hstage w _ _ _ _ Hw) as [Hin Hfin]. cbn in Hin, Hfin.
  assert (Hx : x.2 ∈ block /\ kind_of x.2 = Some w).
  { eapply slot_in_block; [done |]. rewrite Hs. cbn. apply elem_of_app. right. by left. }
  assert (Hnq : w ∉ g_queue g).
  { intros Hq. apply (inv_queue _ _ _ _ _ Hi) in Hq as [d Hd]. congruence. }
  split; cbn [apply_output executed_state_cache workers].
  - rewrite <- Hsw. apply (ran_reorder _ (log g ++ [(x, res)])).
    + unfold log. cbn [g_received g_queue g_slots]. rewrite replied_set3, <- !app_assoc by done.
      do 2 apply reorder_front. apply (join3_add _ w).
      * by rewrite at3_set3_eq, Hs.
      * intros q Hq. by rewrite at3_set3_ne.
      * intros q. apply list.Forall_forall. intros y Hy. by eapply done_kind.
      * rewrite Forall_singleton. apply Hx.
      * intros Hne. destruct (at3 (g_slots g) Cross) eqn:Ec; try done.
        destruct (inv_cross _ _ _ _ _ Hi) as [Ha He]; [by rewrite Ec |]. destruct w; congruence.
    + intros y [Hy | ->%list_elem_of_singleton]%elem_of_app; [by eapply log_in_block | apply Hx].
    + apply ran_app. eexists. split; [exact Hlog |]. by split.
  - intros p txn stage b r Hp. destruct (decide (w = p)) as [<- | Hne]; [by rewrite at3_set3_eq in Hp |].
    rewrite at3_set3_ne in Hp by done. destruct (Hstage p _ _ _ _ Hp) as [Hin' Hfin']. split; [done |].
    pose proof (inv_slot _ _ _ _ _ Hi p) as Hok. rewrite Hp in Hok.
    destruct (at3 (g_slots g) p) as [| | d t |] eqn:Ep; cbn in Hok; try (destruct Hok as (_ & _ & Hok & _); done).
    { by destruct Hok as (_ & _ & Hok). }
    destruct Hok as (_ & _ & (Ht & _ & _) & _).
    assert (Hnat : natives w p).
    { unfold natives. destruct w, p; try done; try (by left); try (by right);
        (destruct (inv_cross _ _ _ _ _ Hi) as [Ha He]; [by congruence | congruence]). }
    assert (Hy : txn ∈ block /\ kind_of txn = Some p).
    { destruct t as [| y t]; [done |]. injection Ht as -> _. eapply (slot_in_block c g); [done |]. rewrite Ep. cbn.
      apply elem_of_app. right. by left. }
    rewrite <- Hsw. assert (Hag : forall key, reads p key -> executed_state_cache c !! key = (status_writes res ∪ executed_state_cache c) !! key)
      by (by apply (outside_writes w p)).
    rewrite <- (finish_stage_agree (reads p) (writes p) _ _ Hag stage Hin'), Hfin'.
    apply (execute_agree (reads p) (writes p) _ _ Hag), Hsep; apply Hy.
Qed.

Lemma serial_worker w (c : Cfg) (g : GhostT) :
  invariant c g -> serial c g -> serial (worker_step program base_view w c) (ghost_worker w c g).
Proof.
  intros Hi Hs. pose proof (inv_slot _ _ _ _ _ Hi w) as Hok.
  assert (Hnq : forall d t, at3 (g_slots g) w = Working d t -> w ∉ g_queue g).
  { intros d t Hw [d' Hd]%(inv_queue _ _ _ _ _ Hi). congruence. }
  assert (Hgo : forall c' s, executed_state_cache c' = executed_state_cache c ->
    (forall p, p <> w -> at3 (workers c') p = at3 (workers c) p) ->
    (forall txn stage batch results, at3 (workers c') w = Executing txn stage batch results ->
       stage_within (reads w) (writes w) stage /\
       finish_stage (executed_state_cache c) stage = execute_txn (executed_state_cache c) (program txn)) ->
    slot_done s = slot_done (at3 (g_slots g) w) -> slot_replied s = slot_replied (at3 (g_slots g) w) ->
    serial c' (mkGhost (set3 w s (g_slots g)) (g_queue g) (g_received g) (g_sent g))).
  { intros c' s Hc Hother Hnew Hd Hr. destruct Hs as [Hlog Hstage]. split.
    - rewrite Hc. erewrite log_same; [exact Hlog | done | done | |]; intros p; [intros _ |]; cbn;
        (destruct (decide (w = p)) as [<- | ?]; [by rewrite at3_set3_eq | by rewrite at3_set3_ne]).
    - intros p txn stage batch results Hp. rewrite Hc. destruct (decide (p = w)) as [-> | Hne]; [by eapply Hnew |].
      rewrite Hother in Hp by done. by eapply Hstage. }
  assert (Hkeep : forall s, (forall txn stage batch results, s = Executing txn stage batch results ->
       stage_within (reads w) (writes w) stage /\
       finish_stage (executed_state_cache c) stage = execute_txn (executed_state_cache c) (program txn)) ->
    serial (with_worker w s c) g).
  { intros s Hnew. replace g with (mkGhost (set3 w (at3 (g_slots g) w) (g_slots g)) (g_queue g) (g_received g) (g_sent g))
      by (rewrite set3_at3; by destruct g).
    apply Hgo; cbn; rewrite ?at3_set3_eq; try done. intros p Hp. by rewrite at3_set3_ne. }
  unfold worker_step, ghost_worker.
  destruct (at3 (workers c) w) as [| [| txn batch] results | txn stage batch results |] eqn:Ew.
  - unfold receive_request. destruct (at3 (g_slots g) w) as [| b | d t | d] eqn:Eg; cbn in Hok.
    2: { destruct Hok as (_ & -> & _). apply Hgo; cbn; rewrite ?at3_set3_eq; try done.
         intros p Hp. by rewrite at3_set3_ne. }
    all: destruct Hok as (_ & Hreq & _); try done; by rewrite Hreq.
  - destruct (at3 (g_slots g) w) as [| b | d t | d] eqn:Eg; cbn in Hok; try (by destruct Hok as (_ & _ & ?)); try (by destruct Hok as (_ & _ & ? & _)).
    destruct Hs as [Hlog Hstage]. split; cbn [send_reply executed_state_cache workers].
    + eapply ran_reorder; [| by intros; eapply log_in_block | exact Hlog]. unfold log. cbn [g_received g_queue g_slots].
      apply reorder_front. unfold replied at 2. rewrite fmap_app, join_app.
      fold (replied (set3 w (Replied d) (g_slots g)) (g_queue g)). rewrite replied_set3 by (by eapply Hnq).
      cbn [fmap list_fmap mjoin list_join]. rewrite at3_set3_eq, <- app_assoc. cbn [slot_replied]. rewrite app_nil_r.
      apply reorder_front. etrans; [apply (join3_remove _ w _ (fun p => slot_done (at3 (set3 w (Replied d) (g_slots g)) p))) |].
      * by rewrite at3_set3_eq.
      * intros q Hq. by rewrite at3_set3_ne.
      * intros q. apply list.Forall_forall. intros y Hy. by eapply done_kind.
      * intros ->. destruct (inv_cross _ _ _ _ _ Hi) as [-> ->]; [by rewrite Eg | done].
      * cbn beta. by rewrite ?Eg.
    + intros p txn stage b r Hp. destruct (decide (w = p)) as [<- | Hne]; [by rewrite at3_set3_eq in Hp |].
      rewrite at3_set3_ne in Hp by done. by eapply Hstage.
  - apply Hkeep. intros txn' stage' b' r' [= <- <- <- <-]. cbn. split; [| done].
    destruct (at3 (g_slots g) w) as [| b | d t | d] eqn:Eg; cbn in Hok; try (by destruct Hok as (_ & _ & ?)); try (by destruct Hok as (_ & _ & ? & _)).
    destruct Hok as (_ & _ & [Ht _] & _). destruct t as [| y t]; [done |]. injection Ht as -> _.
    destruct (slot_in_block c g w y Hi) as [Hb Hk]; [rewrite Eg; cbn; apply elem_of_app; right; by left |]. by apply Hsep.
  - destruct (serial_stage _ _ Hs w _ _ _ _ Ew) as [Hin Hfin].
    pose proof (finish_stage_step (executed_state_cache c) stage) as Hstep.
    destruct stage as [p | skip o deltas writes' | [o | o | e]].
    1-2: destruct (stage_step _ _ _) as [stage' |] eqn:E; apply Hkeep; [| done];
      intros txn' stage0 b' r' [= <- <- <- <-]; split; [by eapply stage_within_step | congruence].
    3: by apply Hkeep.
    all: destruct (at3 (g_slots g) w) as [| b | d t | d] eqn:Eg; cbn in Hok; try (by destruct Hok as (_ & _ & ?)); try (by destruct Hok as (_ & _ & ? & _));
      destruct Hok as (_ & _ & (Ht & _ & _) & _); destruct t as [| y t]; [done |]; injection Ht as -> _; by eapply serial_commit.
  - done.
Qed.

Lemma serial_manager (c : Cfg) (g : GhostT) :
  invariant c g -> serial c g -> serial (manager_step skip_output block c) (ghost_manager block c g).
Proof.
  intros Hi [Hlog Hstage]. unfold manager_step, ghost_manager. destruct (point c) as [| p | p | r] eqn:Hp; [| | | by split].
  - destruct (_ <? _)%nat; by split.
  - unfold scanned. destruct (scan_and_send block p c) as [c' | e |] eqn:E; [| by split ..].
    destruct (scan_and_send_Ok _ _ _ _ _ _ _ Hi E) as (j & l & r & n & -> & _ & _ & Hlr). cbn [continue_at pointer_type_to_txn_idx_in_block].
    rewrite at3_set3_eq. destruct (between block p _ j) as [| b batch] eqn:Eb; [by split |].
    destruct Hlr as (Ha & _ & _). destruct (available_free _ _ _ _ _ _ Hi Ha) as (Hf & _).
    split; [| done]. erewrite log_same; [exact Hlog | done | done | |]; intros q; [intros _ |]; cbn;
      (destruct (decide (p = q)) as [<- | ?]; [by rewrite at3_set3_eq, Hf | by rewrite at3_set3_ne]).
  - unfold try_receive. destruct (at3 _ p) eqn:El; [| by split]. destruct (inv_queue _ _ _ _ _ Hi) as (Hnd & Hq & Hr).
    rewrite Hr. destruct (g_queue g) as [| q queue] eqn:Eq; [by split |]. rewrite fmap_cons. cbn [fmap list_fmap].
    destruct (proj1 (Hq q) ltac:(by left)) as [done Hd]. rewrite Hd. cbn [slot_replied].
    pose proof (inv_slot _ _ _ _ _ Hi q) as Hok. rewrite Hd in Hok. destruct Hok as (Hl & Hreq & Hw & Hc & Hne).
    rewrite (process_results_spec q done) by done. cbn [result_bind continue_at]. apply list.NoDup_cons in Hnd as [Hnq Hnd].
    split; [| done]. cbn [at_point executed_state_cache]. unfold log in *. cbn [g_received g_queue g_slots].
    rewrite Eq in Hlog. unfold replied in Hlog. rewrite fmap_cons in Hlog. cbn [mjoin list_join] in Hlog. rewrite Hd in Hlog.
    rewrite replied_set3, <- app_assoc by done. cbn [slot_replied] in Hlog. rewrite <- app_assoc in Hlog.
    rewrite (join3_ext (fun p => slot_done (at3 (g_slots g) p))); [exact Hlog |].
    intros p'. destruct (decide (q = p')) as [<- | ?]; [by rewrite at3_set3_eq, Hd | by rewrite at3_set3_ne].
Qed.

Lemma serial_run schedule n :
  serial (run program base_view skip_output block schedule n (start previous_nonces))
    (ghost_run program base_view skip_output block previous_nonces schedule n).
Proof.
  induction n as [| n IH]; [apply serial_start |]. cbn. pose proof (inv_run program base_view skip_output block previous_nonces schedule n).
  destruct (schedule n); [by apply serial_manager | by apply serial_worker].
Qed.

(** ** A finished block *)

Lemma kinds_count (l : list Item) :
  length l = (length (filter (of_kind Aptos) l) + length (filter (of_kind Ethereum) l) +
    length (filter (of_kind Cross) l) + length (filter (fun x : Item => kind_of x.2 = None) l))%nat.
Proof.
  induction l as [| x l IH]; [done |]. rewrite !list.filter_cons.
  repeat case_decide; cbn [length]; try lia; unfold of_kind in *; exfalso; destruct (kind_of x.2) as [[] |]; congruence.
Qed.

Lemma kinds_perm (l : list Item) :
  Forall (fun x : Item => exists p, of_kind p x) l ->
  l ≡ₚ filter (of_kind Aptos) l ++ filter (of_kind Ethereum) l ++ filter (of_kind Cross) l.
Proof.
  induction 1 as [| x l [p Hp] Hl IH]; [done |]. rewrite !list.filter_cons.
  destruct p.
  - rewrite decide_True, !decide_False by (unfold of_kind in *; congruence). cbn. by rewrite <- IH.
  - rewrite (decide_True (P := of_kind Ethereum x)), !decide_False by (unfold of_kind in *; congruence).
    cbn. rewrite <- Permutation_middle. by rewrite <- IH.
  - rewrite (decide_True (P := of_kind Cross x)), !decide_False by (unfold of_kind in *; congruence).
    rewrite (app_assoc (filter (of_kind Aptos) l)), <- Permutation_middle, <- app_assoc. by rewrite <- IH.
Qed.

Lemma filter_take_length (P : Item -> Prop) `{!forall x, Decision (P x)} i (l : list Item) :
  (length (filter P (take i l)) <= length (filter P l))%nat /\
  (length (filter P (take i l)) = length (filter P l) -> filter P (take i l) = filter P l).
Proof.
  assert (E : filter P l = filter P (take i l) ++ filter P (drop i l)) by (by rewrite <- list.filter_app, take_drop).
  rewrite E, length_app. split; [lia |]. intros El. destruct (filter P (drop i l)); [by rewrite app_nil_r | cbn in El; lia].
Qed.

(** When the manager has counted the whole block, everything was sent and nothing is underway. *)
Lemma finished_block (c : Cfg) (g : GhostT) :
  invariant c g -> (length block <= processed_transactions c)%nat ->
  reorder (fun x : Item => kind_of x.2) (g_sent g) (g_received g).*1 /\ log g = g_received g /\
  (forall p, filter (of_kind p) (g_sent g) = filter (of_kind p) (items block)) /\ g_sent g ≡ₚ items block /\
  length (g_received g) = length block /\ underway (g_slots g) = [].
Proof.
  intros Hi Hn. pose proof (inv_order _ _ _ _ _ Hi) as Ho. pose proof (Permutation_length (reorder_perm _ _ _ Ho)) as Hl.
  destruct (inv_received _ _ _ _ _ Hi) as (Hp & _ & _). rewrite !length_app, !length_fmap in Hl.
  pose proof (kinds_count (g_sent g)) as Hk. pose proof (kinds_count (items block)) as Hb.
  pose proof (inv_known _ _ _ _ _ Hi) as Hkn.
  assert (Hnone : filter (fun x : Item => kind_of x.2 = None) (g_sent g) = []).
  { clear -Hkn. induction Hkn as [| x l [p Hp] Hl IH]; [done |]. rewrite list.filter_cons_False; [done |].
    unfold of_kind in Hp. congruence. }
  rewrite Hnone, !(inv_sent _ _ _ _ _ Hi) in Hk. cbn [length] in Hk.
  assert (Hlen : length (items block) = length block) by (unfold items; by rewrite length_imap).
  pose proof (fun p => filter_take_length (of_kind p) (at3 (pointer_type_to_txn_idx_in_block c) p) (items block)) as Ht.
  pose proof (Ht Aptos) as [Ha Ha']. pose proof (Ht Ethereum) as [He He']. pose proof (Ht Cross) as [Hc Hc'].
  assert (Hrep : replied (g_slots g) (g_queue g) = []) by (apply nil_length_inv; lia).
  assert (Hund : underway (g_slots g) = []) by (apply nil_length_inv; lia).
  assert (Hf : forall p, filter (of_kind p) (g_sent g) = filter (of_kind p) (items block)).
  { intros p. rewrite (inv_sent _ _ _ _ _ Hi). destruct p; [apply Ha' | apply He' | apply Hc']; lia. }
  rewrite Hrep, Hund in Ho. cbn in Ho. rewrite app_nil_r in Ho. split_and!; try done; [| | lia].
  - assert (Hd : forall p, slot_done (at3 (g_slots g) p) = []).
    { intros p. assert (Hs : slot_items (at3 (g_slots g) p) = []).
      { unfold underway, join3 in Hund. apply app_eq_nil in Hund as [? Hund]. apply app_eq_nil in Hund as [? ?]. by destruct p. }
      destruct (at3 (g_slots g) p) as [| | d t |]; try done. cbn in *. apply app_eq_nil in Hs as [Hs _]. by destruct d. }
    unfold log, join3. rewrite Hrep, !Hd. apply app_nil_r.
  - rewrite (kinds_perm (g_sent g)), !Hf by done. symmetry. apply kinds_perm.
    apply list.Forall_forall. intros x Hx. destruct (kind_of x.2) as [p |] eqn:E; [by exists p |].
    assert (Hx' : x ∈ filter (fun x : Item => kind_of x.2 = None) (items block)) by (by apply list_elem_of_filter).
    destruct (filter (fun x : Item => kind_of x.2 = None) (items block)); [by apply elem_of_nil in Hx' | cbn in Hb; lia].
Qed.

(** ** Nonces *)

Definition next_nonce (n : Nonces) (s : Address) : Z :=
  match n !! s with Some last => last + 1 | None => 0 end.

(** The nonce of a transaction of the sender. *)
Definition nonce_of (s : Address) (x : Item) : option Z :=
  match x.2 with
  | UserTransaction t => if decide (sender t = s) then Some (sequence_number t) else None
  | _ => None
  end.

Lemma item_nonce_spec n (x : Item) n' s :
  item_nonce n x = Ok n' ->
  match nonce_of s x with
  | Some k => k = next_nonce n s /\ next_nonce n' s = next_nonce n s + 1
  | None => n' !! s = n !! s
  end.
Proof.
  unfold item_nonce, nonce_of, next_nonce, check_nonce. destruct x as [i [t | | | |]]; cbn; try by intros [= ->].
  destruct (decide (sender t = s)) as [<- | Hs].
  - destruct (n !! sender t) as [last |]; destruct (sequence_number t =? 0) eqn:E0; b2p; try done.
    + destruct (last =? _) eqn:E1; [| done]. b2p. intros [= <-]. rewrite lookup_insert_eq. lia.
    + intros [= <-]. rewrite lookup_insert_eq. lia.
  - intros E. destruct (n !! sender t); destruct (sequence_number t =? 0); try done; [destruct (_ =? _); [| done] |];
      injection E as <-; by rewrite lookup_insert_ne.
Qed.

Lemma nonces_consecutive n (l : list Item) n' s :
  nonces_after n l = Ok n' ->
  omap (nonce_of s) l = seqZ (next_nonce n s) (Z.of_nat (length (omap (nonce_of s) l))) /\
  next_nonce n' s = next_nonce n s + Z.of_nat (length (omap (nonce_of s) l)).
Proof.
  revert n. induction l as [| x l IH]; intros n; cbn [nonces_after]; [intros [= ->]; cbn; split; [done | lia] |].
  destruct (item_nonce n x) as [n1 | |] eqn:E; cbn [result_bind]; try done. intros Hl.
  destruct (IH _ Hl) as [I1 I2]. pose proof (item_nonce_spec _ _ _ s E) as Hx. cbn [omap list_omap].
  destruct (nonce_of s x) as [k |]; cbn [length].
  - destruct Hx as [-> Hx]. rewrite seqZ_cons by lia. split; [| lia]. rewrite I1 at 1. do 2 f_equal; lia.
  - unfold next_nonce in *. rewrite <- Hx. done.
Qed.

Lemma omap_filter {A B} (f : A -> option B) (P : A -> Prop) `{!forall x, Decision (P x)} (l : list A) :
  (forall x, ~ P x -> f x = None) -> omap f (filter P l) = omap f l.
Proof.
  intros HP. induction l as [| x l IH]; [done |]. rewrite list.filter_cons. case_decide as Hx; cbn; rewrite IH; [done |].
  by rewrite HP.
Qed.

(** ** Sequential execution *)

Lemma ran_in_turn m (l : list Result) m' :
  ran m l m' -> Forall (fun x => committed x.2) l ->
  execute_in_turn (l.*1.*2) m = Ok (omap (fun x => outcome x.2) l, m').
Proof.
  revert m. induction l as [| [x s] l IH]; intros m; cbn; [by intros -> |].
  intros [E Hl] Hc. apply Forall_cons_1 in Hc as [Hs Hc]. rewrite E. cbn.
  destruct s as [o | o | e]; cbn in *; [| | done]; by rewrite IH.
Qed.

Lemma in_turn_sequential txns m outs m' :
  (forall txn data_map o, txn ∈ txns -> execute_txn data_map (program txn) <> Ok (SkipRest o)) ->
  execute_in_turn txns m = Ok (outs, m') -> execute_sequential base_view (program <$> txns) m = Ok outs.
Proof.
  revert m outs. induction txns as [| txn txns IH]; intros m outs Hskip; cbn; [by intros [= <- <-] |].
  destruct (execute_txn m (program txn)) as [s | |] eqn:E; cbn; try done.
  destruct s as [o | o | e]; [| exfalso; by eapply Hskip; [left |] | done].
  destruct (execute_in_turn txns _) as [[os m1] | |] eqn:E1; cbn; try done. intros [= <- <-].
  erewrite IH; [done | | done]. intros t d o' Ht. apply Hskip. by right.
Qed.

(** A sender that does not send native transactions of both spaces. *)
Definition one_space (s : Address) : Prop :=
  forall t t', UserTransaction t ∈ block -> UserTransaction t' ∈ block -> sender t = s -> sender t' = s ->
    ~ (transaction_type t = AptosTx /\ transaction_type t' = EthereumTx).

Lemma one_space_order s l l' :
  one_space s -> (forall x : Item, x ∈ l -> x.2 ∈ block) -> reorder (fun x : Item => kind_of x.2) l l' ->
  omap (nonce_of s) l = omap (nonce_of s) l'.
Proof.
  intros Hs Hb Ho. rewrite <- (omap_filter _ (fun x => is_Some (nonce_of s x)) l) by (intros x Hx; by apply eq_None_not_Some).
  rewrite <- (omap_filter _ (fun x => is_Some (nonce_of s x)) l') by (intros x Hx; by apply eq_None_not_Some).
  f_equal. eapply reorder_filter; [| exact Ho]. intros a b Ha Hbb Hab Ia Ib.
  assert (Hkind : forall x p, x ∈ l -> is_Some (nonce_of s x) -> kind_of x.2 = Some p -> p <> Cross ->
    exists t, x.2 = UserTransaction t /\ sender t = s /\ transaction_type t = if decide (p = Aptos) then AptosTx else EthereumTx).
  { intros x p Hx [k Hk] Hp Hc. unfold nonce_of in Hk. destruct x as [i [t | | | |]]; cbn in *; try done.
    exists t. destruct (decide (sender t = s)); [| done]. split_and!; try done.
    destruct (transaction_type t); cbn in Hp; try done; injection Hp as <-; done. }
  destruct Hab as [[Ka Kb] | [Ka Kb]];
    destruct (Hkind _ _ Ha Ia Ka ltac:(done)) as (ta & Ea & Sa & Ta); destruct (Hkind _ _ Hbb Ib Kb ltac:(done)) as (tb & Eb & Sb & Tb);
    cbn in Ta, Tb; apply Hb in Ha; apply Hb in Hbb; rewrite Ea in Ha; rewrite Eb in Hbb;
    [apply (Hs ta tb) | apply (Hs tb ta)]; done.
Qed.

(** C1. The manager serializes a block. Suppose native Move transactions and native Ethereum
    transactions read and write state of their own (cross-space ones may use any). However the
    threads are interleaved, if the manager returns outputs then there is an order of the block
    (the one in which results came in) such that executing the transactions one at a time in
    that order gives exactly these outputs and the writes in the cache, which is also what
    [execute_transactions_sequential] returns for the reordered block when no transaction asks
    to skip the rest. The order keeps that of the block within each kind of transaction, and a
    sender that stays in one space has its transactions executed with consecutive nonces from
    the one after its previous nonce on. *)
Theorem prototype_serializable (schedule : nat -> Thread) (n : nat) (outs : list Output) :
  let c := run program base_view skip_output block schedule n (start previous_nonces) in
  point c = Returned (Ok outs) ->
  exists order : list Item,
    order ≡ₚ items block /\
    (forall p, filter (of_kind p) order = filter (of_kind p) (items block)) /\
    (forall s, one_space s -> omap (nonce_of s) order =
       seqZ (next_nonce previous_nonces s) (Z.of_nat (length (omap (nonce_of s) order)))) /\
    execute_in_turn order.*2 ∅ = Ok (outs, executed_state_cache c) /\
    ((forall txn data_map o, txn ∈ block -> execute_txn data_map (program txn) <> Ok (SkipRest o)) ->
     execute_transactions_sequential base_view skip_output (program <$> order.*2) = Ok outs).
Proof.
  intros c Hret. pose proof (inv_run program base_view skip_output block previous_nonces schedule n) as Hi. fold c in Hi.
  pose proof (serial_log _ _ (serial_run schedule n)) as Hlog. fold c in Hlog.
  set (g := ghost_run program base_view skip_output block previous_nonces schedule n) in *.
  pose proof (inv_returned _ _ _ _ _ Hi) as Hr. rewrite Hret in Hr. destruct Hr as [Hn ->].
  destruct (finished_block c g Hi Hn) as (Hord & Hl & Hf & Hperm & Hlen & _).
  destruct (inv_received _ _ _ _ _ Hi) as (Hp & Ho & Hc). rewrite Hl in Hlog.
  assert (Hres : resize_outputs skip_output (outputs c) (length block) = outputs c).
  { assert (Hlo : length (outputs c) = length block).
    { rewrite Ho, <- Hlen. clear -Hc. induction Hc as [| [x s] l Hs Hl IH]; [done |]. cbn.
      destruct s; cbn in *; [by rewrite IH .. | done]. }
    unfold resize_outputs. rewrite Hlo, Nat.sub_diag, take_ge by lia. apply app_nil_r. }
  pose proof (ran_in_turn _ _ _ Hlog Hc) as Hturn. rewrite <- Ho in Hturn. rewrite Hres.
  exists (g_received g).*1. pose proof (reorder_perm _ _ _ Hord) as Hpr. split_and!; try done.
  - by rewrite <- Hpr.
  - intros p. rewrite <- Hf. symmetry. eapply reorder_filter; [| exact Hord]. intros a b _ _ Hab Ka Kb.
    unfold of_kind in *. destruct Hab as [[? ?] | [? ?]]; congruence.
  - intros s Hs. rewrite <- (one_space_order s (g_sent g)); [| done | by intros; eapply sent_in_block | done].
    eapply nonces_consecutive. apply Hi.
  - intros Hskip. unfold execute_transactions_sequential.
    erewrite in_turn_sequential; [| | exact Hturn]; cbn; [rewrite !length_fmap, Hlen; by rewrite Hres |].
    intros txn m o Ht. apply Hskip. apply list_elem_of_fmap in Ht as (x & -> & Hx). rewrite <- Hpr in Hx.
    by eapply sent_in_block.
Qed.
End serial.

(** ** An instance *)

(** A Move transaction, an Ethereum transaction of another sender and a cross-space transaction
    of the first sender, with the checkpoint that closes a block. The first two work on keys 1
    and 2, the third reads both; the outputs carry the transaction's payload. *)
Module Sample.

Abbreviation SampleTxn := (PreprocessedTransaction (Address := nat) (Payload := nat)).

Definition tx (ty : TxType) (who : nat) (nonce : Z) (id : nat) : SampleTxn :=
  UserTransaction (mkSigned who nonce ty id).

Definition block : list SampleTxn := [tx AptosTx 10 0 1; tx EthereumTx 20 0 2; tx CrossTxAptosOrigin 10 1 3; StateCheckpoint].

Definition output (id : nat) (w : gmap nat WriteOp) : TxnOutput (K := nat) (Info := nat) := mkTxnOutput w ∅ false id.

Definition append (b : byte) (v : result ViewError (option (list byte))) : list byte :=
  match v with Ok (Some l) => b :: l | _ => [b] end.

Definition program (txn : SampleTxn) : Program (K := nat) (Info := nat) (Failure := unit) :=
  match txn with
  | UserTransaction t =>
      let id := payload t in
      match transaction_type t with
      | AptosTx => Fetch 1%nat (fun v => Finish (Success (output id {[1%nat := Modification (append Byte.x01 v)]})))
      | EthereumTx => Fetch 2%nat (fun v => Finish (Success (output id {[2%nat := Modification (append Byte.x02 v)]})))
      | _ => Fetch 1%nat (fun v => Fetch 2%nat (fun v' =>
               Finish (Success (output id {[3%nat := Modification (append Byte.x03 v ++ append Byte.x04 v')]}))))
      end
  | _ => Finish (Success (output 0 ∅))
  end.

Definition base_view (key : nat) : option (list byte) := None.

(** At first only the manager and the Ethereum worker run, then every thread in turn. *)
Definition schedule (n : nat) : Thread :=
  if (n <? 60)%nat then (if Nat.even n then Manager else WorkerThread Ethereum)
  else match (n mod 4)%nat with
       | 0%nat => Manager
       | 1%nat => WorkerThread Aptos
       | 2%nat => WorkerThread Ethereum
       | _ => WorkerThread Cross
       end.

Abbreviation final := (run (BCS := bcs_le) program base_view (output 0 ∅) block schedule 240 (start ∅)).

(** The outputs, the one of the Ethereum transaction first. *)
Definition outs : list (TxnOutput (K := nat) (Info := nat)) :=
  [output 2 {[2%nat := Modification [Byte.x02]]}; output 1 {[1%nat := Modification [Byte.x01]]};
   output 3 {[3%nat := Modification [Byte.x03; Byte.x01; Byte.x04; Byte.x02]]}; output 0 ∅].

Definition reads (p : TxScanPointer) (key : nat) : Prop :=
  match p with Aptos => key = 1%nat | Ethereum => key = 2%nat | Cross => True end.
Definition writes (p : TxScanPointer) (key : nat) : Prop :=
  match p with Aptos => key = 1%nat | Ethereum => key = 2%nat | Cross => True end.
End Sample.

Lemma sample_separated : separated Sample.program Sample.block Sample.reads Sample.writes.
Proof.
  split; [| by intros key -> ..]. intros txn p Hb Hk. unfold Sample.block in Hb. rewrite !elem_of_cons, elem_of_nil in Hb.
  destruct Hb as [-> | [-> | [-> | [-> | []]]]]; injection Hk as <-; cbn; try (by split_and!).
  all: split; [done |]; intros v; try (split; [done |]; intros v').
  all: split; intros key; rewrite ?dom_singleton, ?dom_empty, ?elem_of_singleton; done.
Qed.

(** The manager returns the outputs of this block in the order of completion, which is not the
    order of the block. *)
Lemma prototype_serializable_witness :
  point Sample.final = Returned (Ok Sample.outs) /\
  exists order : list (nat * Sample.SampleTxn),
    order ≡ₚ items Sample.block /\ order <> items Sample.block /\
    execute_in_turn (BCS := bcs_le) Sample.program Sample.base_view order.*2 ∅ = Ok (Sample.outs, executed_state_cache Sample.final).
Proof.
  assert (Hp : point Sample.final = Returned (Ok Sample.outs)) by (vm_compute; reflexivity).
  split; [exact Hp |].
  destruct (prototype_serializable (BCS := bcs_le) Sample.program Sample.base_view (Sample.output 0 ∅) Sample.block ∅ Sample.reads Sample.writes
    sample_separated Sample.schedule 240 Sample.outs Hp) as (order & Hperm & _ & _ & He & _).
  exists order. split; [done |]. split; [| exact He]. intros ->.
  assert (Hx : execute_in_turn (BCS := bcs_le) Sample.program Sample.base_view (items Sample.block).*2 ∅ =
    Ok ([Sample.output 1 {[1%nat := Modification [Byte.x01]]}; Sample.output 2 {[2%nat := Modification [Byte.x02]]};
         Sample.output 3 {[3%nat := Modification [Byte.x03; Byte.x01; Byte.x04; Byte.x02]]}; Sample.output 0 ∅],
        executed_state_cache Sample.final)) by (vm_compute; reflexivity).
  rewrite Hx in He. discriminate He.
Defined.

