(* ===== verification/ManagerLive.v ===== *)
(** * The manager finishes a block

    Under a fair scheduler the manager returns: for a block of user transactions followed by the
    checkpoint, whose senders number their transactions consecutively in the order of the block,
    no interleaving blocks or panics. Progress is measured by what the pointers have left to
    scan and by the stage of the batch each worker holds; between two decreases of that measure
    a worker runs a program, which ends, or the manager polls. *)

From stdpp Require Import gmap relations.
From S2P Require Import Prelude Word Delta WriteSets MVHashMap BlockStm Manager ManagerInv ManagerSerial.
Local Open Scope Z_scope.

Section live.
Context {BCS : BcsU128} {K : Type} `{Countable K} {Info Failure : Type}.
Context {Address : Type} `{Countable Address} {Payload : Type}.
Abbreviation Txn := (PreprocessedTransaction (Address := Address) (Payload := Payload)).
Abbreviation Output := (TxnOutput (K := K) (Info := Info)).
Abbreviation ExecStatus := (ExecutionStatus (K := K) (Info := Info) (Failure := Failure)).
Abbreviation Prog := (Program (K := K) (Info := Info) (Failure := Failure)).
Abbreviation Nonces := (gmap Address Z).
Abbreviation Cfg := (Config (K := K) (Info := Info) (Failure := Failure) (Address := Address) (Payload := Payload)).
Abbreviation Item := (nat * Txn)%type.
Abbreviation StageT := (Stage (K := K) (Info := Info) (Failure := Failure)).
Abbreviation GhostT := (Ghost (K := K) (Info := Info) (Failure := Failure) (Address := Address) (Payload := Payload)).
Abbreviation SlotT := (Slot (K := K) (Info := Info) (Failure := Failure) (Address := Address) (Payload := Payload)).
Context (program : Txn -> Prog) (base_view : K -> option (list byte)).
Context (skip_output : Output) (block : list Txn) (previous_nonces : Nonces).
Abbreviation execute_txn := (execute_sequential_txn (Failure := Failure) base_view).
Abbreviation invariant := (inv skip_output block previous_nonces).

(** ** Blocks the manager can finish *)

Definition user_txn (txn : Txn) : Prop :=
  exists t, txn = UserTransaction t /\ transaction_type t <> PlaceholderTypeTx.

(** User transactions and then the checkpoint, nonces consecutive per sender in the order of
    the block, and no transaction aborts or panics, whatever it reads. *)
Record wf_block : Prop := {
  wf_users : exists users, block = users ++ [StateCheckpoint] /\ Forall user_txn users;
  wf_previous : forall s k, previous_nonces !! s = Some k -> 0 <= k;
  wf_nonces : exists n, nonces_after previous_nonces (items block) = Ok n;
  wf_programs : forall txn data_map, txn ∈ block ->
    exists s, execute_txn data_map (program txn) = Ok s /\ is_Some (outcome s);
}.

Context (Hwf : wf_block).

Lemma items_lookup i (txn : Txn) : block !! i = Some txn -> items block !! i = Some (i, txn).
Proof. intros E. unfold items. by rewrite list_lookup_imap, E. Qed.

Lemma items_elem x : x ∈ items block <-> block !! x.1 = Some x.2.
Proof.
  rewrite list_elem_of_lookup. split.
  - intros [i Hi]. unfold items in Hi. rewrite list_lookup_imap in Hi. destruct (block !! i) eqn:E; [| done].
    by injection Hi as <-.
  - intros E. exists x.1. rewrite (items_lookup _ _ E). by destruct x.
Qed.

Lemma items_NoDup : NoDup (items block).
Proof.
  apply NoDup_alt. intros i j x Hi Hj. unfold items in *. rewrite list_lookup_imap in Hi, Hj.
  destruct (block !! i); [| done]. destruct (block !! j); [| done]. cbn in *. congruence.
Qed.

Lemma block_kind i txn : block !! i = Some txn ->
  match txn with
  | UserTransaction t => is_Some (kind_of (UserTransaction t : Txn)) /\ (i < length block - 1)%nat
  | StateCheckpoint => i = (length block - 1)%nat
  | _ => False
  end.
Proof.
  destruct (wf_users Hwf) as (users & -> & Hu). intros E. rewrite length_app. cbn [length].
  apply lookup_app_Some in E as [E | [Hle E]].
  - pose proof (lookup_lt_Some _ _ _ E) as Hlt. rewrite Forall_lookup in Hu. destruct (Hu _ _ E) as (t & -> & Ht).
    split; [| lia]. cbn. destruct (transaction_type t); [by eexists .. | done].
  - destruct (i - length users)%nat eqn:Ei; [| done]. injection E as <-. lia.
Qed.

(** ** Nonces of transactions not sent yet *)

Lemma nonces_nonneg n (l : list Item) n' s k :
  (forall s k, n !! s = Some k -> 0 <= k) -> nonces_after n l = Ok n' -> n' !! s = Some k -> 0 <= k.
Proof.
  revert n. induction l as [| x l IH]; intros n Hn; cbn [nonces_after]; [intros [= ->]; eauto |].
  destruct (item_nonce n x) as [n1 | |] eqn:E; cbn [result_bind]; try done. apply IH. intros s' k' Hs'.
  pose proof (item_nonce_spec n x n1 s' E) as Hx. unfold next_nonce in Hx.
  destruct (nonce_of s' x); [| rewrite Hx in Hs'; by eapply Hn].
  rewrite Hs' in Hx. destruct (n !! s') as [last |] eqn:El; [apply Hn in El |]; lia.
Qed.

Lemma omap_split {A B} (f : A -> option B) l x y :
  x ∈ l -> f x = Some y -> exists l1 l2, l = l1 ++ x :: l2 /\ omap f l !! length (omap f l1) = Some y.
Proof.
  intros (l1 & l2 & ->)%list_elem_of_split Hy. exists l1, l2. split; [done |].
  rewrite omap_app. cbn. rewrite Hy. by rewrite list_lookup_middle.
Qed.

Lemma omap_inj {A B} (f : A -> option B) l x x' y :
  NoDup (omap f l) -> x ∈ l -> x' ∈ l -> f x = Some y -> f x' = Some y -> x = x'.
Proof.
  induction l as [| a l IH]; [by intros _ ?%elem_of_nil |]. cbn.
  assert (Hin : forall z, z ∈ l -> f z = Some y -> y ∈ omap f l) by (intros z Hz Hf; apply list_elem_of_omap; by exists z).
  intros Hnd [-> | Hx]%elem_of_cons [-> | Hx']%elem_of_cons E E'; try done.
  - rewrite E in Hnd. apply list.NoDup_cons in Hnd as [Hn _]. destruct Hn. by eapply Hin.
  - rewrite E' in Hnd. apply list.NoDup_cons in Hnd as [Hn _]. destruct Hn. by eapply Hin.
  - apply IH; try done. destruct (f a); [by apply list.NoDup_cons in Hnd as [_ ?] | done].
Qed.

Lemma nonce_ready (sent : list Item) n x :
  (forall y, y ∈ sent -> y ∈ items block) -> nonces_after previous_nonces sent = Ok n -> x ∈ items block -> x ∉ sent ->
  item_nonce n x <> Panic /\
  ((forall y, y ∈ items block -> (y.1 < x.1)%nat -> y ∈ sent) -> exists n', item_nonce n x = Ok n').
Proof.
  intros Hsub Hsent Hx Hnx. destruct (wf_nonces Hwf) as [nB HB].
  unfold item_nonce. destruct x as [i [t | | | |]]; cbn [snd]; try (split; [done | intros _; by eexists]).
  set (x := (i, UserTransaction t)) in *. set (s := sender t).
  assert (Hxs : nonce_of s x = Some (sequence_number t)) by (cbn; by rewrite decide_True).
  destruct (nonces_consecutive _ _ _ s Hsent) as [S1 S2]. destruct (nonces_consecutive _ _ _ s HB) as [B1 _].
  destruct (omap_split (nonce_of s) (items block) x _ Hx Hxs) as (l1 & l2 & El & Hk).
  set (k := length (omap (nonce_of s) l1)) in *. set (m := length (omap (nonce_of s) sent)) in *.
  set (b := next_nonce previous_nonces s) in *.
  assert (Hseq : sequence_number t = b + Z.of_nat k).
  { rewrite B1 in Hk. apply lookup_seqZ in Hk as [-> _]. lia. }
  assert (Hinj : forall y, y ∈ items block -> nonce_of s y = Some (sequence_number t) -> y = x).
  { intros y Hy Ey. eapply (omap_inj (nonce_of s)); [| exact Hy | exact Hx | exact Ey | exact Hxs].
    rewrite B1. apply NoDup_seqZ. }
  assert (Hmk : (m <= k)%nat).
  { destruct (decide (m <= k)%nat); [done |]. exfalso.
    assert (Hin : sequence_number t ∈ omap (nonce_of s) sent) by (rewrite S1; apply elem_of_seqZ; lia).
    apply list_elem_of_omap in Hin as (y & Hy & Ey). by rewrite (Hinj y) in Hy by auto. }
  assert (Hneg : forall last, n !! s = Some last -> 0 <= last) by (intros; eapply nonces_nonneg; [apply (wf_previous Hwf) | exact Hsent | done]).
  assert (Hb : 0 <= b).
  { unfold b, next_nonce. destruct (previous_nonces !! s) eqn:E; [apply (wf_previous Hwf) in E |]; lia. }
  unfold check_nonce. fold s. unfold next_nonce at 1 in S2. split.
  - destruct (n !! s) as [last |]; [| by destruct (_ =? _)]. specialize (Hneg _ eq_refl).
    destruct (_ =? 0) eqn:E0; b2p; [lia | by destruct (_ =? _)].
  - intros Hearlier. assert (Hkm : (k <= m)%nat).
    { destruct (decide (k = 0)%nat) as [-> | Hk0]; [lia |].
      assert (Hin : b + Z.of_nat (k - 1) ∈ omap (nonce_of s) l1).
      { assert (Hl : omap (nonce_of s) l1 !! (k - 1)%nat = Some (b + Z.of_nat (k - 1))); [| by eapply list_elem_of_lookup_2].
        pose proof (f_equal (fun l => omap (nonce_of s) l !! (k - 1)%nat) El) as E. cbn beta in E.
        rewrite omap_app, lookup_app_l in E by (fold k; lia). rewrite <- E, B1. apply lookup_seqZ.
        apply lookup_lt_Some in Hk. lia. }
      apply list_elem_of_omap in Hin as (y & Hy & Ey).
      assert (Hys : b + Z.of_nat (k - 1) ∈ omap (nonce_of s) sent).
      { apply list_elem_of_omap. exists y. split; [| done]. apply Hearlier; [rewrite El; set_solver |].
        apply list_elem_of_lookup in Hy as [j Hj]. pose proof (lookup_lt_Some _ _ _ Hj) as Hjl.
        assert (Hyi : items block !! j = Some y) by (rewrite El, lookup_app_l; done).
        assert (Hxi : items block !! length l1 = Some x) by (rewrite El; by apply list_lookup_middle).
        unfold items in Hyi, Hxi. rewrite list_lookup_imap in Hyi, Hxi.
        destruct (block !! j); [| done]. destruct (block !! length l1); [| done].
        injection Hyi as <-. injection Hxi as Hxi _. cbn. lia. }
      rewrite S1 in Hys. apply elem_of_seqZ in Hys. lia. }
    destruct (n !! s) as [last |].
    + specialize (Hneg _ eq_refl). rewrite (proj2 (Z.eqb_neq _ 0)), (proj2 (Z.eqb_eq last _)) by lia. by eexists.
    + rewrite (proj2 (Z.eqb_eq _ 0)) by lia. by eexists.
Qed.

(** ** The manager does not panic *)

Abbreviation check := (check_whether_need_to_wait_or_skip_txn (Address := Address) (Payload := Payload)).

(** A check panics only in the nonce, and a transaction of the pointer's kind that is not
    held up goes through when its nonce does. *)
Lemma check_user (t : SignatureCheckedTransaction (Address := Address) (Payload := Payload)) loaded p processed n s q :
  kind_of (UserTransaction t) = Some q ->
  match check (UserTransaction t) loaded p processed n s with
  | (Panic, _) => q = p /\ item_nonce (previous_nonce_per_address s) (tx_pointer_idx s, UserTransaction t) = Panic
  | (Ok _, s') => tx_pointer_idx s' = tx_pointer_idx s
  | (Err _, s') => tx_pointer_idx s' =
      if bool_decide (q = p) then tx_pointer_idx s else S (tx_pointer_idx s)
  end /\
  (q = p -> available loaded p = true ->
   (exists n', item_nonce (previous_nonce_per_address s) (tx_pointer_idx s, UserTransaction t) = Ok n') ->
   exists h s', check (UserTransaction t) loaded p processed n s = (Ok h, s')).
Proof.
  cbn [kind_of check_whether_need_to_wait_or_skip_txn]. intros Hq. unfold bind, lift, item_nonce. cbn [snd]. rewrite Hq. cbn [unwrap].
  destruct (decide (q = p)) as [-> | Hne].
  - rewrite bool_decide_eq_false_2, bool_decide_eq_true_2 by (try intros Hn; by try apply Hn).
    destruct (transaction_type t); cbn in Hq; try discriminate Hq; injection Hq as <-;
      destruct loaded as [[] [] []]; cbn; try (by split); unfold update_nonce;
      (destruct (check_nonce _ _ _); cbn; split; [done | by eauto | done | by intros _ _ [? [=]] | by split | by intros _ _ [? [=]]]).
  - rewrite bool_decide_eq_true_2, bool_decide_eq_false_2 by done. by split.
Qed.

(** What the manager has sent, seen from the scan of [p]. *)
Record scan_ready (p : TxScanPointer) (s : Scan (Address := Address)) (sent : list Item) : Prop := {
  sr_items : forall y, y ∈ sent -> y ∈ items block;
  sr_nonces : nonces_after previous_nonces sent = Ok (previous_nonce_per_address s);
  sr_kind : forall y, y ∈ sent -> of_kind p y -> (y.1 < tx_pointer_idx s)%nat;
}.

Lemma scan_ready_step p s sent txn loaded processed h s' :
  scan_ready p s sent -> block !! tx_pointer_idx s = Some txn -> check txn loaded p processed (length block) s = (Ok h, s') ->
  scan_ready p (skip_txn s') (sent ++ [(tx_pointer_idx s, txn)]).
Proof.
  intros [H1 H2 H3] Ht E. apply check_Ok in E as (_ & _ & _ & Hn & Hi). split; cbn.
  - intros y [Hy | ->%list_elem_of_singleton]%elem_of_app; [by apply H1 |]. by apply items_elem.
  - rewrite nonces_after_app, H2. cbn. by rewrite Hn.
  - intros y [Hy | ->%list_elem_of_singleton]%elem_of_app Hk; cbn; [apply H3 in Hy; [lia | done] | lia].
Qed.

Lemma scan_ready_fresh p s sent txn :
  scan_ready p s sent -> block !! tx_pointer_idx s = Some txn -> kind_of txn = Some p ->
  (tx_pointer_idx s, txn) ∈ items block /\ (tx_pointer_idx s, txn) ∉ sent.
Proof.
  intros [_ _ H3] Ht Hk. split; [by apply items_elem |]. intros Hin. apply H3 in Hin; [cbn in Hin; lia | done].
Qed.

Lemma check_no_panic p s sent txn loaded processed s' :
  scan_ready p s sent -> block !! tx_pointer_idx s = Some txn ->
  check txn loaded p processed (length block) s <> (Panic, s').
Proof.
  intros Hr Ht E. pose proof (block_kind _ _ Ht) as Hk. destruct txn as [t | | | |]; try done.
  - destruct Hk as [[q Hq] _]. destruct (check_user t loaded p processed (length block) s q Hq) as [Hc _].
    rewrite E in Hc. destruct Hc as [-> Hp]. destruct (scan_ready_fresh _ _ _ _ Hr Ht Hq) as [Hi Hn].
    by destruct (nonce_ready sent _ _ (sr_items _ _ _ Hr) (sr_nonces _ _ _ Hr) Hi Hn).
  - cbn in E. unfold bind, throw, ret, modify in E. destruct (_ || _); [done |]. destruct (negb _); [done |]. by destruct (bool_decide _).
Qed.

Lemma scan_no_panic fuel p loaded processed batch handle s sent s' :
  scan_ready p s sent -> scan_batch (Failure := Failure) block fuel loaded p processed batch handle s <> (Panic, s').
Proof.
  revert batch handle s sent. induction fuel as [| fuel IH]; intros batch handle s sent Hr; cbn; [done |].
  destruct (block !! tx_pointer_idx s) as [txn |] eqn:Ht; [| done].
  pose proof (block_kind _ _ Ht) as Hk.
  destruct txn as [t | | | |]; try done;
    (destruct (check _ _ _ _ _ _) as [[h | e |] s1] eqn:E; [| done | by eapply check_no_panic in E]);
    (eapply IH, scan_ready_step; [done | done | exact E]).
Qed.

Lemma inv_scan_ready (c : Cfg) (g : GhostT) p :
  invariant c g -> scan_ready p (mkScan (at3 (pointer_type_to_txn_idx_in_block c) p) (nonces c)) (g_sent g).
Proof.
  intros Hi. assert (Htake : forall q y, y ∈ g_sent g -> of_kind q y ->
    y ∈ take (at3 (pointer_type_to_txn_idx_in_block c) q) (items block)).
  { intros q y Hy Hk. assert (Hin : y ∈ filter (of_kind q) (g_sent g)) by (by apply list_elem_of_filter).
    rewrite (inv_sent _ _ _ _ _ Hi) in Hin. by apply list_elem_of_filter in Hin as [_ ?]. }
  split; cbn.
  - intros y Hy. pose proof (inv_known _ _ _ _ _ Hi) as Hk. rewrite list.Forall_forall in Hk. destruct (Hk y Hy) as [q Hq].
    specialize (Htake q y Hy Hq). apply list_elem_of_lookup in Htake as [i Hi']. apply lookup_take_Some in Hi' as [Hi' _].
    by eapply list_elem_of_lookup_2.
  - apply Hi.
  - intros y Hy Hk. specialize (Htake p y Hy Hk). apply list_elem_of_lookup in Htake as [i Hi'].
    apply lookup_take_Some in Hi' as [Hi' Hlt]. unfold items in Hi'. rewrite list_lookup_imap in Hi'.
    destruct (block !! i); [| done]. by injection Hi' as <-.
Qed.

Lemma scan_and_send_total p (c : Cfg) (g : GhostT) : invariant c g -> exists c', scan_and_send block p c = Ok c'.
Proof.
  intros Hi. destruct (scan_and_send block p c) as [c' | e |] eqn:E; [by eexists | by apply scan_and_send_no_Err in E |].
  exfalso. unfold scan_and_send in E.
  destruct (scan_batch _ _ _ _ _ _ _ _) as [[[batch handle] | e' |] s] eqn:Es; [| done |].
  - apply scan_spec in Es as (_ & -> & Hh & _). cbn [app] in E. case_bool_decide as Hb; [done |].
    set (sent := between _ _ _ _) in *. rewrite decide_False in Hh by (intros Hs; apply Hb; by rewrite Hs).
    destruct Hh as [-> Ha]. destruct (available_free _ _ _ _ _ _ Hi Ha) as (Hf & _).
    pose proof (inv_slot _ _ _ _ _ Hi p) as Hok. rewrite Hf in Hok.
    rewrite send_ok in E; [done | intros Hs; apply Hb; by rewrite Hs | apply between_kind | apply Hok].
  - by eapply scan_no_panic, Es; apply (inv_scan_ready c g).
Qed.

(** ** The measure *)

Definition phase (s : SlotT) : nat :=
  match s with Free => 0 | Replied _ => 1 | Working _ _ => 2 | Queued _ => 3 end.

Definition left_to_scan (c : Cfg) (p : TxScanPointer) : nat :=
  length block - at3 (pointer_type_to_txn_idx_in_block c) p.

Definition measure (c : Cfg) (g : GhostT) : nat :=
  4 * (left_to_scan c Aptos + left_to_scan c Ethereum + left_to_scan c Cross) +
  (phase (at3 (g_slots g) Aptos) + phase (at3 (g_slots g) Ethereum) + phase (at3 (g_slots g) Cross)).

Lemma measure_set_slot c c' g g' p s :
  pointer_type_to_txn_idx_in_block c' = pointer_type_to_txn_idx_in_block c -> g_slots g' = set3 p s (g_slots g) ->
  (measure c' g' + phase (at3 (g_slots g) p) = measure c g + phase s)%nat.
Proof. intros Hc Hg. unfold measure, left_to_scan. rewrite Hc, Hg. destruct p; cbn; lia. Qed.

Definition succ_point (p : Point (K := K) (Info := Info) (Failure := Failure)) : Point :=
  match p with
  | LoopHead => Scanning Aptos
  | Scanning p => Receiving p
  | Receiving p => next_point p
  | Returned r => Returned r
  end.

Lemma scan_end fuel loaded p processed batch handle s :
  (length block <= tx_pointer_idx s)%nat ->
  scan_batch (Failure := Failure) block fuel loaded p processed batch handle s = (Ok (batch, handle), s).
Proof. intros Hl. destruct fuel; [done |]. cbn. by rewrite lookup_ge_None_2. Qed.

(** A scan that moves its pointer decreases the measure, and one that does not changes nothing. *)
Lemma scan_measure p (c : Cfg) (g : GhostT) c' :
  invariant c g -> point c = Scanning p -> scan_and_send block p c = Ok c' ->
  if decide (at3 (pointer_type_to_txn_idx_in_block c') p = at3 (pointer_type_to_txn_idx_in_block c) p)
  then c' = c /\ ghost_manager block c g = g
  else (measure (at_point (Receiving p) c') (ghost_manager block c g) < measure c g)%nat.
Proof.
  intros Hi Hp E. destruct (scan_and_send_Ok _ _ _ _ _ _ _ Hi E) as (j & l & r & n & Ec & Hle & Hn & Hlr).
  unfold ghost_manager, scanned. rewrite Hp, E. subst c'. cbn [pointer_type_to_txn_idx_in_block]. rewrite at3_set3_eq.
  set (i := at3 (pointer_type_to_txn_idx_in_block c) p) in *. destruct (decide (j = i)) as [Hj | Hj].
  - assert (Hb : between block p i j = []) by (rewrite Hj; apply between_nil).
    rewrite Hb in *. rewrite decide_True in Hlr by done. destruct Hlr as [-> ->]. split; [| done].
    injection Hn as <-. rewrite Hj. unfold i. rewrite set3_at3. by destruct c.
  - assert (Hlt : (i < length block)%nat).
    { destruct (decide (i < length block)%nat); [done |]. exfalso. unfold scan_and_send in E. fold i in E.
      rewrite scan_end in E by (cbn; lia). cbn in E. injection E as Ej _ _ _.
      pose proof (f_equal (fun a => at3 a p) Ej) as Ea. cbn beta in Ea. rewrite !at3_set3_eq in Ea. by subst. }
    assert (Hm : forall g' : GhostT, (measure (at_point (Receiving p) (mkConfig (point c) (processed_transactions c)
        (set3 p j (pointer_type_to_txn_idx_in_block c)) l n (outputs c) r (replies c) (workers c) (executed_state_cache c))) g' +
        4 <= measure c g')%nat).
    { intros g'. unfold measure, left_to_scan. unfold i in *. destruct p; cbn in *; lia. }
    destruct (between block p i j) as [| b batch]; [specialize (Hm g); lia |].
    destruct Hlr as (Ha & _ & _). destruct (available_free _ _ _ _ _ _ Hi Ha) as (Hf & _).
    set (g' := mkGhost _ _ _ _). specialize (Hm g').
    pose proof (measure_set_slot c c g g' p (Queued (b :: batch)) eq_refl eq_refl) as Hs. rewrite Hf in Hs. cbn [phase] in Hs. lia.
Qed.

Lemma receive_measure p (c : Cfg) (g : GhostT) :
  invariant c g -> point c = Receiving p -> at3 (pointer_type_to_whether_worker_is_loaded c) p = true -> g_queue g <> [] ->
  exists c', try_receive p c = Ok c' /\ (measure (at_point (next_point p) c') (ghost_manager block c g) < measure c g)%nat.
Proof.
  intros Hi Hp El Hne. unfold try_receive, ghost_manager. rewrite Hp, El. destruct (inv_queue _ _ _ _ _ Hi) as (Hnd & Hq & Hrp). rewrite Hrp.
  destruct (g_queue g) as [| q queue] eqn:Eq; [done |]. rewrite fmap_cons. cbn [fmap list_fmap].
  destruct (proj1 (Hq q) ltac:(by left)) as [done Hd]. rewrite Hd. cbn [slot_replied].
  pose proof (inv_slot _ _ _ _ _ Hi q) as Hok. rewrite Hd in Hok. destruct Hok as (Hl & Hreq & Hw & Hc & _).
  rewrite (process_results_spec q done) by done. cbn [result_bind]. eexists. split; [done |].
  set (c' := at_point _ _). set (g' := mkGhost _ _ _ _).
  pose proof (measure_set_slot c c' g g' q Free eq_refl eq_refl) as Hs. rewrite Hd in Hs. cbn [phase] in Hs. lia.
Qed.

Lemma receive_idle p (c : Cfg) (g : GhostT) :
  invariant c g -> point c = Receiving p -> at3 (pointer_type_to_whether_worker_is_loaded c) p = false \/ g_queue g = [] ->
  try_receive p c = Ok c /\ ghost_manager block c g = g.
Proof.
  intros Hi Hp Hor. unfold try_receive, ghost_manager. rewrite Hp. destruct (at3 _ p); [| done]. destruct Hor as [? | Hq]; [done |].
  destruct (inv_queue _ _ _ _ _ Hi) as (_ & _ & ->). by rewrite Hq.
Qed.

Lemma manager_progress (c : Cfg) (g : GhostT) :
  invariant c g -> (forall r, point c <> Returned r) ->
  let c' := manager_step skip_output block c in
  let g' := ghost_manager block c g in
  (measure c' g' < measure c g)%nat /\ point c' = succ_point (point c) \/
  c' = at_point (succ_point (point c)) c /\ g' = g \/
  exists outs, c' = at_point (Returned (Ok outs)) c /\ g' = g.
Proof.
  intros Hi Hr. cbn zeta. unfold manager_step. destruct (point c) as [| p | p | r] eqn:Hp; [| | | by destruct (Hr r)].
  - unfold ghost_manager. rewrite Hp. destruct (_ <? _)%nat; [right; left; done | right; right; by eexists].
  - destruct (scan_and_send_total p c g Hi) as [c' E]. pose proof (scan_measure p c g c' Hi Hp E) as Hm. rewrite E. cbn [continue_at succ_point].
    destruct (decide _); [right; left; destruct Hm as [-> ->]; done | left; done].
  - destruct (at3 (pointer_type_to_whether_worker_is_loaded c) p) eqn:El; [destruct (decide (g_queue g = [])) as [Hq | Hq] |].
    2: { destruct (receive_measure p c g Hi Hp El Hq) as (c' & -> & Hm). by left. }
    all: destruct (receive_idle p c g Hi Hp) as [-> ->]; [by auto |]; right; by left.
Qed.

(** ** Some pointer moves *)

Lemma scan_moves p (c : Cfg) txn c' :
  block !! at3 (pointer_type_to_txn_idx_in_block c) p = Some txn ->
  match check txn (pointer_type_to_whether_worker_is_loaded c) p (processed_transactions c) (length block)
      (mkScan (at3 (pointer_type_to_txn_idx_in_block c) p) (nonces c)) with
  | (Ok _, _) => True
  | (Err _, s') => (at3 (pointer_type_to_txn_idx_in_block c) p < tx_pointer_idx s')%nat
  | (Panic, _) => False
  end ->
  scan_and_send block p c = Ok c' ->
  at3 (pointer_type_to_txn_idx_in_block c') p <> at3 (pointer_type_to_txn_idx_in_block c) p.
Proof.
  intros Ht Hc E. set (i := at3 (pointer_type_to_txn_idx_in_block c) p) in *.
  pose proof (lookup_lt_Some _ _ _ Ht) as Hlt. pose proof (block_kind _ _ Ht) as Hk.
  assert (Hs : forall b h s, scan_batch (Failure := Failure) block (length block - i) (pointer_type_to_whether_worker_is_loaded c) p
     (processed_transactions c) [] Cross (mkScan i (nonces c)) = (Ok (b, h), s) -> (i < tx_pointer_idx s)%nat).
  { intros b h s. destruct (length block - i)%nat as [| fuel] eqn:Ef; [lia |]. cbn. rewrite Ht.
    destruct txn as [t | | | |]; try done; (destruct (check _ _ _ _ _ _) as [[h1 | e |] s1] eqn:Ec; [| intros [= _ _ <-]; done | done]);
      apply check_Ok in Ec as (_ & _ & _ & _ & Hi1); cbn in Hi1; intros Es; apply scan_spec in Es as (Hle & _); cbn in Hle; lia. }
  unfold scan_and_send in E. fold i in E. destruct (scan_batch _ _ _ _ _ _ _ _) as [[[batch handle] | e' |] s] eqn:Es; [| done | done].
  specialize (Hs _ _ _ eq_refl).
  assert (Hp' : at3 (pointer_type_to_txn_idx_in_block c') p = tx_pointer_idx s); [| lia].
  case_bool_decide; [injection E as <-; apply at3_set3_eq |]. unfold send_txns_to_worker in E. cbn in E.
  destruct (list.last batch) as [[] |]; try done; try (destruct (at3 (workers c) handle); try done); injection E as <-; apply at3_set3_eq.
Qed.

(** The first place of the block that is not sent. *)
Lemma first_unsent (sent : list nat) n :
  (exists i, (i < n)%nat /\ i ∉ sent) ->
  exists i, (i < n)%nat /\ i ∉ sent /\ forall j, (j < i)%nat -> j ∈ sent.
Proof.
  induction n as [| n IH]; [intros (i & Hi & _); lia |]. intros (i & Hi & Hn).
  destruct (decide (Forall (fun j => j ∈ sent) (seq 0 n))) as [Hall | Hall].
  - exists n. split; [lia |]. rewrite Forall_seq in Hall. split; [| intros j Hj; apply Hall; lia].
    destruct (decide (i = n)) as [-> | ?]; [done |]. destruct Hn. apply Hall. lia.
  - apply not_Forall_Exists in Hall; [| apply _]. apply list.Exists_exists in Hall as (j & Hj & Hjn). apply elem_of_seq in Hj.
    destruct IH as (k & Hk & Hkn & Hks); [exists j; split; [lia | done] |]. exists k. split; [lia | done].
Qed.

Lemma some_pointer_moves (c : Cfg) (g : GhostT) :
  invariant c g -> (forall p, at3 (g_slots g) p = Free) -> (processed_transactions c < length block)%nat ->
  exists p, forall l c', scan_and_send block p (at_point l c) = Ok c' ->
    at3 (pointer_type_to_txn_idx_in_block c') p <> at3 (pointer_type_to_txn_idx_in_block c) p.
Proof.
  intros Hi Hfree Hlt.
  assert (Hloaded : forall p, at3 (pointer_type_to_whether_worker_is_loaded c) p = false).
  { intros p. pose proof (inv_slot _ _ _ _ _ Hi p) as Hok. rewrite Hfree in Hok. apply Hok. }
  assert (Hav : forall p, available (pointer_type_to_whether_worker_is_loaded c) p = true).
  { intros p. unfold available. destruct p; by rewrite !Hloaded. }
  assert (Hsent : (g_sent g) ≡ₚ (g_received g).*1).
  { rewrite (reorder_perm _ _ _ (inv_order _ _ _ _ _ Hi)). unfold underway, join3. rewrite !Hfree.
    assert (Hq : g_queue g = []).
    { destruct (g_queue g) as [| q queue] eqn:Eq; [done |]. destruct (inv_queue _ _ _ _ _ Hi) as (_ & Hq & _).
      destruct (proj1 (Hq q)) as [d Hd]; [rewrite Eq; by left |]. by rewrite Hfree in Hd. }
    rewrite Hq. cbn. by rewrite app_nil_r. }
  assert (Hlen : length (g_sent g) = processed_transactions c).
  { rewrite Hsent, length_fmap. symmetry. apply (inv_received _ _ _ _ _ Hi). }
  assert (Hitems : forall y, y ∈ g_sent g -> block !! y.1 = Some y.2).
  { intros y Hy. apply items_elem. eapply sr_items; [by apply (inv_scan_ready c g Aptos) | done]. }
  destruct (first_unsent (g_sent g).*1 (length block)) as (i & Hib & Hin & Hbefore).
  { destruct (decide (Forall (fun j => j ∈ (g_sent g).*1) (seq 0 (length block)))) as [Hall | Hall].
    - exfalso. assert (Hsub : seq 0 (length block) ⊆+ (g_sent g).*1).
      { apply NoDup_submseteq; [apply NoDup_seq |]. intros j Hj. rewrite list.Forall_forall in Hall. by apply Hall. }
      apply submseteq_length in Hsub. rewrite length_seq, length_fmap in Hsub. lia.
    - apply not_Forall_Exists in Hall; [| apply _]. apply list.Exists_exists in Hall as (j & Hj & Hjn). apply elem_of_seq in Hj.
      exists j. split; [lia | done]. }
  destruct (lookup_lt_is_Some_2 block i Hib) as [txn Ht].
  assert (Hun : (i, txn) ∉ g_sent g) by (intros Hs; apply Hin, list_elem_of_fmap; by exists (i, txn)).
  assert (Hprev : forall j t, (j < i)%nat -> block !! j = Some t -> (j, t) ∈ g_sent g).
  { intros j t Hj Hjt. apply Hbefore, list_elem_of_fmap in Hj as (y & -> & Hy). pose proof (Hitems y Hy) as E.
    rewrite Hjt in E. injection E as ->. by destruct y. }
  assert (Hkind : exists p, kind_of txn = Some p).
  { pose proof (block_kind _ _ Ht) as Hk. destruct txn; try done; [by destruct Hk as [[p ?] _]; exists p | by exists Cross]. }
  destruct Hkind as [p Hk]. exists p. intros l c' E. set (j := at3 (pointer_type_to_txn_idx_in_block c) p).
  pose proof (inv_scan_ready c g p Hi) as Hr.
  assert (Hji : (j <= i)%nat).
  { destruct (decide (j <= i)%nat); [done |]. exfalso. apply Hun.
    assert (Hf : (i, txn) ∈ filter (of_kind p) (take j (items block))).
    { apply list_elem_of_filter. split; [done |]. apply (list_elem_of_lookup_2 _ i). rewrite lookup_take_lt by lia. by apply items_lookup. }
    unfold j in Hf. rewrite <- (inv_sent _ _ _ _ _ Hi) in Hf. by apply list_elem_of_filter in Hf as [_ ?]. }
  destruct (lookup_lt_is_Some_2 block j ltac:(lia)) as [tj Htj].
  apply (scan_moves p (at_point l c) tj); [exact Htj | | exact E]. cbn [at_point pointer_type_to_txn_idx_in_block
    pointer_type_to_whether_worker_is_loaded processed_transactions nonces].
  fold j. pose proof (block_kind _ _ Htj) as Hkj. destruct (decide (j = i)) as [Eji | Hne].
  - rewrite Eji in Htj |- *. assert (tj = txn) as -> by congruence. destruct txn as [t | | | |]; try done.
    + destruct (check_user t (pointer_type_to_whether_worker_is_loaded c) p (processed_transactions c) (length block) (mkScan i (nonces c)) p Hk) as [_ Hok].
      destruct Hok as (h & s' & ->); [done | apply Hav | | done].
      apply (nonce_ready (g_sent g)); [apply Hr | apply Hi | by apply items_elem | done |].
      intros [y1 y2] Hy%items_elem Hlt'. by apply Hprev.
    + injection Hk as <-. cbn [check_whether_need_to_wait_or_skip_txn]. rewrite !Hloaded. cbn [orb].
      assert (Hp : processed_transactions c = (length block - 1)%nat).
      { rewrite <- Hlen. assert (Hsub : seq 0 i ⊆+ (g_sent g).*1).
        { apply NoDup_submseteq; [apply NoDup_seq |]. intros k Hk%elem_of_seq. apply Hbefore. lia. }
        apply submseteq_length in Hsub. rewrite length_seq, length_fmap in Hsub. lia. }
      rewrite Hp, Nat.eqb_refl. cbn [negb]. by rewrite bool_decide_eq_false_2 by (intros Hn; by apply Hn).
  - destruct tj as [t | | | |]; try done; [| lia]. destruct Hkj as [[q Hq] _].
    assert (Hqp : q <> p).
    { intros ->. assert (Hs : (j, UserTransaction t) ∈ g_sent g) by (apply Hprev; [lia | done]).
      apply (sr_kind _ _ _ Hr) in Hs; [cbn in Hs; fold j in Hs; lia | done]. }
    destruct (check_user t (pointer_type_to_whether_worker_is_loaded c) p (processed_transactions c) (length block)
      (mkScan j (nonces c)) q Hq) as [Hc _]. fold j.
    destruct (check _ _ _ _ _ _) as [[h | e |] s'] eqn:Ec; [done | | by destruct Hc].
    rewrite bool_decide_eq_false_2 in Hc by done. cbn in Hc. lia.
Qed.

(** ** The workers *)

Context (reads writes : TxScanPointer -> K -> Prop) (Hsep : separated program block reads writes).
Abbreviation serial_inv := (serial program base_view reads writes).

Definition alive (c : Cfg) : Prop := forall p, at3 (workers c) p <> Panicked.

(** A worker with a transaction comes to a result, and not to an abort. *)
Lemma worker_alive w (c : Cfg) (g : GhostT) :
  invariant c g -> serial_inv c g -> alive c -> alive (worker_step program base_view w c).
Proof.
  intros Hi Hs Ha.
  assert (Hset : forall c' s, workers c' = set3 w s (workers c) -> s <> Panicked -> alive c').
  { intros c' s E Hs' p. rewrite E. destruct (decide (w = p)) as [<- | Hne]; [by rewrite at3_set3_eq | by rewrite at3_set3_ne]. }
  unfold worker_step. destruct (at3 (workers c) w) as [| [| txn batch] results | txn stage batch results |] eqn:Ew.
  - unfold receive_request. destruct (at3 (requests c) w); [done |]. by eapply Hset.
  - by eapply Hset.
  - by eapply Hset.
  - destruct (serial_stage _ _ _ _ _ _ Hs w _ _ _ _ Ew) as [_ Hfin].
    assert (Hx : txn ∈ block).
    { pose proof (inv_slot _ _ _ _ _ Hi w) as Hok. rewrite Ew in Hok.
      destruct (at3 (g_slots g) w) as [| b | d t | d] eqn:Eg; cbn in Hok; try (by destruct Hok as (_ & _ & ?)); try (by destruct Hok as (_ & _ & ? & _)).
      destruct Hok as (_ & _ & (Ht & _ & _) & _). destruct t as [| y t]; [done |]. injection Ht as -> _.
      eapply (slot_in_block _ _ _ c g w y Hi). rewrite Eg. cbn. apply elem_of_app. right. by left. }
    destruct (wf_programs Hwf txn (executed_state_cache c) Hx) as (s & Es & Hout). rewrite Es in Hfin.
    pose proof (finish_stage_step base_view (executed_state_cache c) stage) as Hstep.
    destruct stage as [p | skip o deltas ws | [o | o | e]]; try (by eapply Hset).
    + destruct (stage_step _ _ _); [by eapply Hset | by rewrite Hfin in Hstep].
    + destruct (stage_step _ _ _); [by eapply Hset | by rewrite Hfin in Hstep].
    + injection Hfin as <-. by destruct Hout.
  - by destruct (Ha w).
Qed.

Lemma worker_measure w (c : Cfg) (g : GhostT) :
  invariant c g ->
  let c' := worker_step program base_view w c in
  let g' := ghost_worker w c g in
  (measure c' g' <= measure c g)%nat /\
  ((exists b, at3 (g_slots g) w = Queued b) \/ (exists r, at3 (workers c) w = Batch [] r) -> (measure c' g' < measure c g)%nat) /\
  (at3 (workers c) w = Waiting -> at3 (requests c) w = [] -> c' = c /\ g' = g).
Proof.
  intros Hi. cbn zeta. pose proof (inv_slot _ _ _ _ _ Hi w) as Hok.
  assert (Hptr : pointer_type_to_txn_idx_in_block (worker_step program base_view w c) = pointer_type_to_txn_idx_in_block c).
  { unfold worker_step. destruct (at3 (workers c) w) as [| [| ? ?] ? | ? [? | ? ? ? ? | [| |]] ? ? |]; try done;
      [unfold receive_request; by destruct (at3 (requests c) w) | by destruct (stage_step _ _ _) ..]. }
  pose proof (fun s => measure_set_slot c (worker_step program base_view w c) g (ghost_worker w c g) w s Hptr) as Hm.
  assert (Hsame : ghost_worker w c g = g -> measure (worker_step program base_view w c) (ghost_worker w c g) = measure c g).
  { intros ->. unfold measure, left_to_scan. by rewrite Hptr. }
  revert Hm Hsame. unfold ghost_worker, worker_step.
  destruct (at3 (g_slots g) w) as [| b | d t | d] eqn:Eg; cbn in Hok.
  - destruct Hok as (_ & Hreq & ->). unfold receive_request. rewrite Hreq. intros _ _. split_and!; [done | naive_solver | done].
  - destruct Hok as (_ & Hreq & -> & _). unfold receive_request. rewrite Hreq. intros Hm _.
    specialize (Hm _ eq_refl). cbn [phase] in Hm. split_and!; [lia | intros _; lia | done].
  - destruct Hok as (_ & Hreq & Hw & _). destruct (at3 (workers c) w) as [| [| txn batch] results | txn stage batch results |]; [done | | | |].
    + intros Hm _. specialize (Hm _ eq_refl). cbn [phase] in Hm. split_and!; [lia | intros _; lia | done].
    + intros _ Hs. rewrite Hs by done. split_and!; [done | naive_solver | done].
    + destruct Hw as (Ht & _ & _). destruct stage as [p | skip o deltas ws | [o | o | e]];
        try (intros _ Hs; rewrite Hs by done; split_and!; [done | naive_solver | done]).
      all: destruct t; [done |]; intros Hm _; specialize (Hm _ eq_refl); cbn [phase] in Hm; split_and!; [lia | naive_solver | done].
    + intros _ _. split_and!; [done | naive_solver | done].
  - destruct Hok as (_ & Hreq & -> & _). unfold receive_request. rewrite Hreq. intros _ _. split_and!; [done | naive_solver | done].
Qed.

(** ** Fair schedules *)

#[local] Instance Thread_eq_dec : EqDecision Thread.
Proof. solve_decision. Defined.

Definition fair (schedule : nat -> Thread) : Prop :=
  forall t n, exists n', (n <= n')%nat /\ schedule n' = t.

Context (schedule : nat -> Thread) (Hfair : fair schedule).

Abbreviation C n := (run program base_view skip_output block schedule n (start previous_nonces)).
Abbreviation G n := (ghost_run program base_view skip_output block previous_nonces schedule n).

(** A thread comes to its next step. *)
Lemma next_turn t n :
  exists n', (n <= n')%nat /\ schedule n' = t /\ forall k, (n <= k < n')%nat -> schedule k <> t.
Proof.
  destruct (Hfair t n) as (m & Hle & Hm). remember (m - n)%nat as d eqn:Hd. revert n Hle Hd.
  induction d as [| d IH]; intros n Hle Hd.
  - exists n. replace m with n in Hm by lia. split_and!; [lia | done | lia].
  - destruct (decide (schedule n = t)) as [Hn | Hn]; [exists n; split_and!; [lia | done | lia] |].
    destruct (IH (S n)) as (n' & H1 & H2 & H3); [lia | lia |]. exists n'. split_and!; [lia | done |].
    intros k Hk. destruct (decide (k = n)) as [-> | ?]; [done |]. apply H3. lia.
Qed.

Lemma run_inv n : invariant (C n) (G n).
Proof. apply inv_run. Qed.

Lemma run_alive n : alive (C n).
Proof.
  induction n as [| n IH]; [intros p; cbn; by rewrite at3_all3 |]. cbn.
  destruct (schedule n) as [| w]; [| eapply worker_alive; [apply run_inv | by apply serial_run | done]].
  intros p. pose proof (run_inv n) as Hi. unfold system_step, manager_step. destruct (point (C n)) as [| q | q | r]; try apply IH.
  - destruct (_ <? _)%nat; apply IH.
  - destruct (scan_and_send block q (C n)) as [c' | |] eqn:E; try apply IH.
    destruct (scan_and_send_Ok _ _ _ _ _ _ _ Hi E) as (j & l & r & m & -> & _). apply IH.
  - unfold try_receive. destruct (at3 _ q); [| apply IH]. destruct (replies (C n)); [apply IH |].
    destruct (process_results _ _ _ _) as [[[? ?] ?] | |]; apply IH.
Qed.

Lemma succ_point_live p r : (forall r', p <> Returned r') -> succ_point p <> Returned r.
Proof. intros Hp. by destruct p as [| [] | [] | r']. Qed.

Lemma point_cases (p : Point (K := K) (Info := Info) (Failure := Failure)) :
  (exists r, p = Returned r) \/ forall r, p <> Returned r.
Proof. destruct p as [| p | p | r]; [by right .. | by left; exists r]. Qed.

Lemma manager_returned (c : Cfg) (g : GhostT) r :
  point c = Returned r -> manager_step skip_output block c = c /\ ghost_manager block c g = g.
Proof. intros Hp. unfold manager_step, ghost_manager. by rewrite Hp. Qed.

(** The manager only returns with outputs. *)
Lemma run_returned n r : point (C n) = Returned r -> exists outs, r = Ok outs.
Proof.
  revert r. induction n as [| n IH]; intros r; [done |]. pose proof (run_inv n) as Hi. cbn.
  destruct (schedule n) as [| w]; cbn.
  - destruct (point_cases (point (C n))) as [[r' Hp] | Hp].
    + destruct (manager_returned _ (G n) _ Hp) as [-> _]. apply IH.
    + destruct (manager_progress (C n) (G n) Hi Hp) as [[_ ->] | [[-> _] | (outs & -> & _)]]; [| | intros [= <-]; by eexists];
        intros E; by apply succ_point_live in E.
  - intros Hr. apply IH. rewrite <- Hr. unfold worker_step.
    destruct (at3 (workers (C n)) w) as [| [| ? ?] ? | ? [? | ? ? ? ? | [| |]] ? ? |]; try done;
      [unfold receive_request; by destruct (at3 (requests (C n)) w) | by destruct (stage_step _ _ _) ..].
Qed.

Definition returned (n : nat) : Prop := exists outs, point (C n) = Returned (Ok outs).
Definition remaining (n : nat) : nat := measure (C n) (G n).

Lemma remaining_step n : (remaining (S n) <= remaining n)%nat.
Proof.
  unfold remaining. pose proof (run_inv n) as Hi. cbn [run ghost_run].
  destruct (schedule n) as [| w]; cbn [system_step ghost_step].
  - destruct (point_cases (point (C n))) as [[r' Hp] | Hp].
    + by destruct (manager_returned _ (G n) _ Hp) as [-> ->].
    + destruct (manager_progress (C n) (G n) Hi Hp) as [[Hm _] | [[-> ->] | (outs & -> & ->)]]; [lia | done | done].
  - apply worker_measure, Hi.
Qed.

Lemma remaining_mono n n' : (n <= n')%nat -> (remaining n' <= remaining n)%nat.
Proof. induction 1 as [| n' _ IH]; [done |]. pose proof (remaining_step n'). lia. Qed.

(** Something is gained from step [n] on. *)
Definition gain (n : nat) : Prop := exists n', (n <= n')%nat /\ (returned n' \/ (remaining n' < remaining n)%nat).

Lemma gain_later n n' : (n <= n')%nat -> gain n' -> gain n.
Proof.
  intros Hle (m & Hm & [Hr | Hr]); exists m; (split; [lia |]); [by left | right]. pose proof (remaining_mono n n' Hle). lia.
Qed.

(** Only a worker itself changes its state, and it keeps its requests until then. *)
Lemma worker_untouched w n :
  schedule n <> WorkerThread w ->
  at3 (workers (C (S n))) w = at3 (workers (C n)) w /\ (at3 (requests (C n)) w <> [] -> at3 (requests (C (S n))) w <> []).
Proof.
  intros Hn. pose proof (run_inv n) as Hi. cbn. destruct (schedule n) as [| w']; cbn.
  - unfold manager_step. destruct (point (C n)) as [| q | q | r]; try done.
    + by destruct (_ <? _)%nat.
    + destruct (scan_and_send block q (C n)) as [c' | |] eqn:E; try done.
      destruct (scan_and_send_Ok _ _ _ _ _ _ _ Hi E) as (j & l & r & m & -> & _ & _ & Hlr). split; [done |]. cbn.
      destruct (decide _) as [Hd | Hd]; [by destruct Hlr as [_ ->] |]. destruct Hlr as (_ & _ & ->).
      destruct (decide (q = w)) as [-> | ?]; [by rewrite at3_set3_eq | by rewrite at3_set3_ne].
    + unfold try_receive. destruct (at3 _ q); [| done]. destruct (replies (C n)); [done |].
      by destruct (process_results _ _ _ _) as [[[? ?] ?] | |].
  - assert (Hne : w' <> w) by congruence. unfold worker_step.
    destruct (at3 (workers (C n)) w') as [| [| ? ?] ? | ? [? | ? ? ? ? | [| |]] ? ? |];
      try (unfold receive_request; destruct (at3 (requests (C n)) w')); try destruct (stage_step _ _ _);
      cbn; rewrite ?at3_set3_ne by done; done.
Qed.

Lemma worker_until w n n' :
  (n <= n')%nat -> (forall k, (n <= k < n')%nat -> schedule k <> WorkerThread w) ->
  at3 (workers (C n')) w = at3 (workers (C n)) w /\ (at3 (requests (C n)) w <> [] -> at3 (requests (C n')) w <> []).
Proof.
  induction 1 as [| n' Hle IH]; intros Hk; [done |]. destruct (worker_untouched w n') as [H1 H2]; [apply Hk; lia |].
  destruct IH as [I1 I2]; [intros k Hk'; apply Hk; lia |]. split; [congruence | auto].
Qed.

(** A worker with a batch in its channel takes it. *)
Lemma gain_queued w n : at3 (workers (C n)) w = Waiting -> at3 (requests (C n)) w <> [] -> gain n.
Proof.
  intros Hw Hr. destruct (next_turn (WorkerThread w) n) as (n' & Hle & Hn & Hk).
  destruct (worker_until w n n' Hle Hk) as [H1 H2]. rewrite Hw in H1. specialize (H2 Hr).
  exists (S n'). split; [lia |]. right. pose proof (remaining_mono n n' Hle). unfold remaining in *.
  destruct (worker_measure w (C n') (G n') (run_inv n')) as (_ & Hlt & _).
  cbn [run ghost_run]. rewrite Hn. cbn [system_step ghost_step].
  enough (Hx : (measure (worker_step program base_view w (C n')) (ghost_worker w (C n') (G n')) < measure (C n') (G n'))%nat) by lia.
  apply Hlt. left. pose proof (inv_slot _ _ _ _ _ (run_inv n') w) as Hok. rewrite H1 in Hok.
  destruct (at3 (g_slots (G n')) w); cbn in Hok; [by destruct Hok as (_ & ? & _) | by eexists | by destruct Hok as (_ & _ & ? & _) | by destruct Hok as (_ & ? & _)].
Qed.

(** A worker that is not waiting comes to its next state. *)
Lemma gain_turn w s n :
  at3 (workers (C n)) w = s ->
  (forall n', at3 (workers (C n')) w = s -> C (S n') = worker_step program base_view w (C n') ->
     G (S n') = ghost_worker w (C n') (G n') -> gain n') -> gain n.
Proof.
  intros Hs Hnext. destruct (next_turn (WorkerThread w) n) as (n' & Hle & Hn & Hk).
  destruct (worker_until w n n' Hle Hk) as [H1 _]. apply (gain_later n n' Hle).
  apply Hnext; [congruence | cbn; by rewrite Hn ..].
Qed.

Section executing.
Context (w : WorkerType) (txn : Txn) (batch : list Txn) (results : list (ExecutionStatusMultiWorker (K := K) (Info := Info) (Failure := Failure))).
Hypothesis Hbatch : forall results' k, at3 (workers (C k)) w = Batch batch results' -> gain k.

Lemma gain_finished s k : at3 (workers (C k)) w = Executing txn (Finished s) batch results -> gain k.
Proof.
  intros Hk. apply (gain_turn _ _ _ Hk). clear k Hk. intros k Hk HC _. pose proof (run_alive (S k) w) as Ha.
  assert (Hw : exists results', at3 (workers (C (S k))) w = Batch batch results').
  { rewrite HC in *. unfold worker_step in *. rewrite Hk in *. destruct s as [o | o | e]; cbn in *; rewrite ?at3_set3_eq in *;
      [by eexists .. | done]. }
  destruct Hw as [results' Hw]. apply (gain_later k (S k)); [lia |]. by eapply Hbatch.
Qed.

Lemma gain_stage_step s k :
  at3 (workers (C k)) w = Executing txn s batch results -> (match s with Finished _ => False | _ => True end) ->
  (forall cache s' k', stage_step base_view cache s = Some s' ->
     at3 (workers (C k')) w = Executing txn s' batch results -> gain k') -> gain k.
Proof.
  intros Hk Hns Hnext. apply (gain_turn _ _ _ Hk). clear k Hk. intros k Hk HC _. pose proof (run_alive (S k) w) as Ha.
  apply (gain_later k (S k)); [lia |]. rewrite HC in Ha. unfold worker_step in Ha. rewrite Hk in Ha.
  assert (HC' := HC). unfold worker_step in HC'. rewrite Hk in HC'.
  destruct (stage_step base_view (executed_state_cache (C k)) s) as [s' |] eqn:Es.
  - apply (Hnext _ s' _ Es). rewrite HC'. destruct s; try done; rewrite ?Es; cbn; apply at3_set3_eq.
  - exfalso. destruct s; try done; rewrite ?Es in Ha; cbn in Ha; by rewrite at3_set3_eq in Ha.
Qed.

Lemma gain_executing stage k : at3 (workers (C k)) w = Executing txn stage batch results -> gain k.
Proof.
  assert (Hmat : forall deltas skip o ws k, at3 (workers (C k)) w = Executing txn (Materialize skip o deltas ws) batch results -> gain k).
  { induction deltas as [| [key d] deltas IHd]; intros skip o ws k' Hk; apply (gain_stage_step _ _ Hk I); intros cache s' k2; cbn.
    - destruct (merge_delta_writes _ _); try done. intros [= <-]. apply gain_finished.
    - destruct (try_into_write_op _ _ _); try done. intros [= <-]. apply IHd. }
  destruct stage as [p | skip o deltas ws | s]; [| apply Hmat | apply gain_finished].
  revert k. induction p as [s | key cont IHp]; intros k Hk; apply (gain_stage_step _ _ Hk I); intros cache s' k'; cbn.
  - destruct s as [o | o | e]; try destruct (_ || _); intros [= <-]; first [apply gain_finished | apply Hmat].
  - intros [= <-]. apply IHp.
Qed.
End executing.

Lemma gain_batch w batch results n : at3 (workers (C n)) w = Batch batch results -> gain n.
Proof.
  revert results n. induction batch as [| txn batch IH]; intros results n Hs; apply (gain_turn _ _ _ Hs); clear n Hs; intros n Hs HC HG.
  - exists (S n). split; [lia |]. right. unfold remaining. rewrite HC, HG. apply worker_measure; [apply run_inv |]. right. by eexists.
  - apply (gain_later n (S n)); [lia |]. eapply (gain_executing w txn batch results IH (Run (program txn))).
    rewrite HC. unfold worker_step. rewrite Hs. cbn. apply at3_set3_eq.
Qed.

Lemma gain_working w n : at3 (workers (C n)) w <> Waiting -> gain n.
Proof.
  intros Hw. destruct (at3 (workers (C n)) w) as [| batch results | txn stage batch results |] eqn:Es;
    [done | by eapply gain_batch | | by destruct (run_alive n w)].
  eapply (gain_executing w txn batch results); [| exact Es]. intros. by eapply gain_batch.
Qed.

(** ** The manager alone *)

Definition quiet (c : Cfg) : Prop := forall p, at3 (workers c) p = Waiting /\ at3 (requests c) p = [].

(** The point at which the manager gets on. *)
Definition target (p : Point) (c : Cfg) (g : GhostT) : Prop :=
  (measure (manager_step skip_output block (at_point p c)) (ghost_manager block (at_point p c) g) < measure c g)%nat \/
  exists outs, point (manager_step skip_output block (at_point p c)) = Returned (Ok outs).

Lemma quiet_target (c : Cfg) (g : GhostT) :
  invariant c g -> quiet c -> exists p, (forall r, p <> Returned r) /\ target p c g.
Proof.
  intros Hi Hq. destruct (g_queue g) as [| q queue] eqn:Eq.
  - assert (Hfree : forall p, at3 (g_slots g) p = Free).
    { intros p. pose proof (inv_slot _ _ _ _ _ Hi p) as Hok. destruct (Hq p) as [Hw Hr]. rewrite Hw, Hr in Hok.
      destruct (at3 (g_slots g) p) as [| b | d t | d] eqn:Es; cbn in Hok; [done | by destruct Hok as (_ & ? & _) | by destruct Hok as (_ & _ & ? & _) |].
      assert (Hin : p ∈ g_queue g) by (apply (inv_queue _ _ _ _ _ Hi); by eexists). rewrite Eq in Hin. by apply elem_of_nil in Hin. }
    destruct (decide (processed_transactions c < length block)%nat) as [Hlt | Hge].
    + destruct (some_pointer_moves c g Hi Hfree Hlt) as [p Hp]. exists (Scanning p). split; [done |]. left.
      assert (Hi' : invariant (at_point (Scanning p) c) g) by (by apply inv_at_point).
      destruct (scan_and_send_total p _ g Hi') as [c' E]. pose proof (scan_measure p _ g c' Hi' eq_refl E) as Hm.
      rewrite decide_False in Hm by (by eapply Hp). unfold manager_step. cbn [point at_point]. fold (at_point (Scanning p) c).
      by rewrite E.
    + exists LoopHead. split; [done |]. right. unfold manager_step. cbn [point at_point].
      destruct (_ <? _)%nat eqn:El; [apply Nat.ltb_lt in El; cbn in El; lia |]. by eexists.
  - exists (Receiving q). split; [done |]. left. assert (Hi' : invariant (at_point (Receiving q) c) g) by (by apply inv_at_point).
    destruct (proj1 (proj1 (proj2 (inv_queue _ _ _ _ _ Hi)) q)) as [d Hd]; [rewrite Eq; by left |].
    pose proof (inv_slot _ _ _ _ _ Hi q) as Hok. rewrite Hd in Hok.
    destruct (receive_measure q _ g Hi' eq_refl) as (c' & E & Hm); [apply Hok | by rewrite Eq |].
    unfold manager_step. cbn [point at_point]. fold (at_point (Receiving q) c). rewrite E. exact Hm.
Qed.

Lemma points_cyclic (p q : Point (K := K) (Info := Info) (Failure := Failure)) :
  (forall r, p <> Returned r) -> (forall r, q <> Returned r) -> exists d, Nat.iter d succ_point p = q.
Proof.
  intros Hp Hq. destruct p as [| [] | [] | r]; [.. | by destruct (Hp r)]; destruct q as [| [] | [] | r]; try (by destruct (Hq r));
    first [by exists 0%nat | by exists 1%nat | by exists 2%nat | by exists 3%nat | by exists 4%nat | by exists 5%nat | by exists 6%nat].
Qed.

(** While the workers wait, nothing happens until the manager's turn. *)
Lemma quiet_until n n' :
  quiet (C n) -> (n <= n')%nat -> (forall k, (n <= k < n')%nat -> schedule k <> Manager) -> C n' = C n /\ G n' = G n.
Proof.
  intros Hq. induction 1 as [| n' Hle IH]; intros Hk; [done |]. destruct IH as [IC IG]; [intros k Hk'; apply Hk; lia |].
  cbn [run ghost_run]. destruct (schedule n') as [| w] eqn:Es; [destruct (Hk n'); [lia | done] |]. cbn [system_step ghost_step].
  rewrite <- IC in Hq. destruct (Hq w) as [Hw Hr]. destruct (worker_measure w (C n') (G n') (run_inv n')) as (_ & _ & Hx).
  destruct (Hx Hw Hr) as [-> ->]. by rewrite IC, IG.
Qed.

Lemma gain_walk d p n :
  quiet (C n) -> (forall r, point (C n) <> Returned r) -> Nat.iter d succ_point (point (C n)) = p -> target p (C n) (G n) -> gain n.
Proof.
  revert n. induction d as [| d IH]; intros n Hq Hr Hp Ht; destruct (next_turn Manager n) as (n' & Hle & Hn & Hk);
    destruct (quiet_until n n' Hq Hle Hk) as [HC HG].
  - exists (S n'). split; [lia |]. unfold returned, remaining. cbn [run ghost_run]. rewrite Hn. cbn [system_step ghost_step]. rewrite HC, HG.
    cbn in Hp. subst p. unfold target in Ht. replace (at_point (point (C n)) (C n)) with (C n) in Ht by (by destruct (C n)).
    destruct Ht as [Ht | Ht]; [by right | by left].
  - assert (HC' : C (S n') = manager_step skip_output block (C n)) by (cbn [run]; by rewrite Hn, HC).
    assert (HG' : G (S n') = ghost_manager block (C n) (G n)) by (cbn [ghost_run]; by rewrite Hn, HC, HG).
    destruct (manager_progress (C n) (G n) (run_inv n) Hr) as [[Hm _] | [[Hm Hg] | (outs & Hm & _)]].
    + exists (S n'). split; [lia |]. right. unfold remaining. by rewrite HC', HG'.
    + assert (Hrem : remaining (S n') = remaining n) by (unfold remaining; by rewrite HC', HG', Hm, Hg).
      rewrite <- HC' in Hm. rewrite <- HG' in Hg.
      destruct (IH (S n')) as (m & Hle' & Hgain).
      * by rewrite Hm.
      * rewrite Hm. cbn [point at_point]. intros r. by apply succ_point_live.
      * rewrite Hm. cbn [point at_point]. rewrite <- Hp. by rewrite Nat.iter_swap.
      * by rewrite Hm, Hg.
      * exists m. split; [lia |]. by rewrite <- Hrem.
    + exists (S n'). split; [lia |]. left. exists outs. by rewrite HC', Hm.
Qed.

Lemma always_gain n : gain n.
Proof.
  destruct (point_cases (point (C n))) as [[r Hr] | Hr].
  { exists n. split; [lia |]. left. destruct (run_returned n r Hr) as [outs ->]. by exists outs. }
  assert (Hbusy : forall p, (at3 (workers (C n)) p = Waiting /\ at3 (requests (C n)) p = []) \/ gain n).
  { intros p. destruct (at3 (workers (C n)) p) eqn:Ew; [| right; eapply (gain_working p); by rewrite Ew ..].
    destruct (at3 (requests (C n)) p) eqn:Er; [by left | right]. eapply (gain_queued p); [done | by rewrite Er]. }
  destruct (Hbusy Aptos) as [Ha |]; [| done]. destruct (Hbusy Ethereum) as [He |]; [| done]. destruct (Hbusy Cross) as [Hc |]; [| done].
  assert (Hq : quiet (C n)) by (by intros []).
  destruct (quiet_target (C n) (G n) (run_inv n) Hq) as (p & Hp & Ht).
  destruct (points_cyclic (point (C n)) p Hr Hp) as [d Hd]. by eapply gain_walk.
Qed.

(** ** Aborts *)

Lemma panicked_stays w n n' :
  (n <= n')%nat -> at3 (workers (C n)) w = Panicked -> at3 (workers (C n')) w = Panicked.
Proof.
  intros Hle Hp. induction Hle as [| n' Hle IH]; [done |]. destruct (decide (schedule n' = WorkerThread w)) as [Hw | Hw].
  - cbn. rewrite Hw. cbn. unfold worker_step. by rewrite IH.
  - destruct (worker_untouched w n' Hw) as [-> _]. done.
Qed.

(** C33. An aborted transaction is never reported: when a worker has panicked (which it does when
    a transaction aborts), the manager does not return any more, neither outputs nor the error,
    whatever the schedule; it polls for ever. *)
Theorem abort_blocks_manager (w : WorkerType) (n n' : nat) :
  at3 (workers (C n)) w = Panicked -> (n <= n')%nat ->
  (forall outs, point (C n') <> Returned (Ok outs)) /\ (forall e, point (C n') <> Returned (Err e)).
Proof.
  intros Hp Hle. apply (panicked_stays _ _ _ Hle) in Hp. pose proof (inv_run program base_view skip_output block previous_nonces schedule n') as Hi.
  split; intros x Hx; pose proof (inv_returned _ _ _ _ _ Hi) as Hr; rewrite Hx in Hr; [| done].
  destruct Hr as [Hn _]. destruct (finished_block _ _ _ _ _ Hi Hn) as (_ & _ & _ & _ & _ & Hund).
  pose proof (inv_slot _ _ _ _ _ Hi w) as Hok. rewrite Hp in Hok. unfold underway, join3 in Hund.
  apply app_eq_nil in Hund as [Ha Hund]. apply app_eq_nil in Hund as [He Hc].
  assert (Hs : slot_items (at3 (g_slots (G n')) w) = []) by (by destruct w).
  destruct (at3 (g_slots (G n')) w) as [| b | d t | d]; cbn in Hok, Hs; try (by destruct Hok as (_ & _ & ?)); try (by destruct Hok as (_ & _ & ? & _)).
  by destruct Hok as (_ & _ & _ & _ & ?).
Qed.

(** C13. The manager finishes: a block of user transactions closed by the checkpoint, numbered
    consecutively per sender in the order of the block, whose native transactions keep to the
    state of their space and never abort, is executed completely under every fair schedule of
    the manager and the three workers. There is no deadlock, no endless polling and no panic. *)
Theorem prototype_finishes : exists n outs, point (C n) = Returned (Ok outs).
Proof.
  enough (Hall : forall m n, (remaining n <= m)%nat -> exists n', returned n') by (destruct (Hall _ 0%nat (le_n _)) as (n' & outs & Hr); by exists n', outs).
  induction m as [| m IH]; intros n Hm; destruct (always_gain n) as (n' & _ & [Hr | Hlt]); try (by exists n'); [lia |].
  apply (IH n'). lia.
Qed.
End live.

(** ** Instances *)

(** Every thread in turn. *)
Definition round_robin (n : nat) : Thread :=
  match (n mod 4)%nat with
  | 0%nat => Manager
  | 1%nat => WorkerThread Aptos
  | 2%nat => WorkerThread Ethereum
  | _ => WorkerThread Cross
  end.

Lemma round_robin_fair : fair round_robin.
Proof.
  intros t n. set (r := match t with Manager => 0 | WorkerThread Aptos => 1 | WorkerThread Ethereum => 2 | _ => 3 end%nat).
  exists (4 * n + r)%nat. split; [lia |]. unfold round_robin.
  replace ((4 * n + r) mod 4)%nat with r; [unfold r; by destruct t as [| []] |].
  rewrite Nat.add_comm, (Nat.mul_comm 4 n), Nat.Div0.mod_add. symmetry. apply Nat.mod_small. unfold r. destruct t as [| []]; lia.
Qed.

Lemma sample_wf : wf_block (BCS := bcs_le) Sample.program Sample.base_view Sample.block ∅.
Proof.
  split.
  - exists [Sample.tx AptosTx 10 0 1; Sample.tx EthereumTx 20 0 2; Sample.tx CrossTxAptosOrigin 10 1 3]. split; [done |].
    repeat (apply Forall_cons; [by eexists |]). apply Forall_nil_2.
  - intros s k. by rewrite lookup_empty.
  - eexists. vm_compute. reflexivity.
  - intros txn data_map Hin. unfold Sample.block in Hin. rewrite !elem_of_cons, elem_of_nil in Hin.
    unfold execute_sequential_txn.
    destruct Hin as [-> | [-> | [-> | [-> | []]]]]; cbn -[btree_value]; unfold btree_value;
      repeat (destruct (data_map !! _); cbn); by eexists.
Qed.

Lemma prototype_finishes_witness :
  exists n outs, point (run (BCS := bcs_le) Sample.program Sample.base_view (Sample.output 0 ∅) Sample.block round_robin n (start ∅)) =
    Returned (Ok outs).
Proof.
  exact (prototype_finishes (BCS := bcs_le) Sample.program Sample.base_view (Sample.output 0 ∅) Sample.block ∅ sample_wf
    Sample.reads Sample.writes sample_separated round_robin round_robin_fair).
Defined.

(** A Move transaction that aborts. *)
Definition aborting (txn : Sample.SampleTxn) : Program (K := nat) (Info := nat) (Failure := unit) :=
  match txn with StateCheckpoint => Finish (Success (Sample.output 0 ∅)) | _ => Finish (Abort tt) end.

Lemma abort_blocks_manager_witness :
  let c n := run (BCS := bcs_le) aborting Sample.base_view (Sample.output 0 ∅) Sample.block round_robin n (start ∅) in
  at3 (workers (c 40%nat)) Aptos = Panicked /\
  forall n', (40 <= n')%nat -> (forall outs, point (c n') <> Returned (Ok outs)) /\ (forall e, point (c n') <> Returned (Err e)).
Proof.
  intros c. assert (Hp : at3 (workers (c 40%nat)) Aptos = Panicked) by (vm_compute; reflexivity).
  split; [exact Hp |]. intros n' Hle.
  exact (abort_blocks_manager (BCS := bcs_le) aborting Sample.base_view (Sample.output 0 ∅) Sample.block ∅ round_robin Aptos 40 n' Hp Hle).
Defined.
