(* ===== verification/StateDb.v ===== *)
(** * The state database

    What the world state of the EVM is loaded from and committed to. [StateKey] of
    src/cfx-evm/utils/primitives/src/storage_key.rs names an entry; [StorageTrait] of
    backend/storage/src/lib.rs is the class of stores, with two implementations: [InMemoryDb]
    (backend/storage/src/in_memory.rs) and [ViewWrapper]
    (src/aptos-move/ethereum-vm/src/state.rs), an overlay over the state of the chain whose
    changes [drain] turns into Move write operations. [StateDb] and [StateDbExt]
    (backend/statedb/src) read and write accounts, code and storage values in RLP, deleting
    default values. RLP and BCS are third-party code: parameters with the round trips the code
    relies on.

    Shown here: distinct keys are stored under distinct names in both stores, so that both are
    maps ([StorageLaws]); what [drain] returns, applied to the state of the chain, is what the
    overlay shows. *)

From stdpp Require Import gmap.
From S2P Require Import Prelude Word Arith SharedCache WriteSets.
Local Open Scope Z_scope.

#[export] Instance byte_eq_dec : EqDecision byte := Byte.byte_eq_dec.

#[export] Instance byte_countable : Countable byte :=
  inj_countable' byte_to_Z byte_of_Z byte_of_Z_to_Z.

(** ** Keys *)

(** [OwnedStateKey], and [StateKey], which borrows the same data. *)
Inductive OwnedStateKey : Set :=
| AccountKey (address : Z)
| StorageKey (address : Z) (storage_key : list byte)
| CodeKey (address : Z).

#[export] Instance OwnedStateKey_eq_dec : EqDecision OwnedStateKey.
Proof. solve_decision. Defined.

#[export] Instance OwnedStateKey_countable : Countable OwnedStateKey.
Proof.
  refine (inj_countable'
    (fun k => match k with
       | AccountKey a => inl (inl a)
       | StorageKey a k => inr (a, k)
       | CodeKey a => inl (inr a)
       end)
    (fun x => match x with
       | inl (inl a) => AccountKey a
       | inr (a, k) => StorageKey a k
       | inl (inr a) => CodeKey a
       end) _). by intros [].
Defined.

(** The 20 bytes of an [Address]. *)
Definition address_bytes (address : Z) : list byte := to_be 20 address.

Definition STORAGE_PREFIX : list byte := [x73; x74; x6f; x72; x65]%byte.
Definition CODE_PREFIX : list byte := [x63; x6f; x64; x65]%byte.

(** [impl From<OwnedStateKey> for Vec<u8>] *)
Definition key_into_bytes (key : OwnedStateKey) : list byte :=
  match key with
  | AccountKey address => address_bytes address
  | StorageKey address storage_key => address_bytes address ++ STORAGE_PREFIX ++ storage_key
  | CodeKey address => address_bytes address ++ CODE_PREFIX
  end.

Inductive EvmPath : Set :=
| PathAccount
| PathStorage (key : list byte)
| PathCode
| PathEventNonce.

#[export] Instance EvmPath_eq_dec : EqDecision EvmPath.
Proof. solve_decision. Defined.

(** [StorageKey] of the ethereum-vm crate *)
Record EvmStorageKey : Set := mkEvmStorageKey { esk_address : Z; esk_path : EvmPath }.

#[export] Instance EvmStorageKey_eq_dec : EqDecision EvmStorageKey.
Proof. solve_decision. Defined.

#[export] Instance EvmStorageKey_countable : Countable EvmStorageKey.
Proof.
  refine (inj_countable'
    (fun k => (esk_address k, match esk_path k with
       | PathAccount => inl 0 | PathStorage s => inr s | PathCode => inl 1 | PathEventNonce => inl 2
       end))
    (fun x => mkEvmStorageKey x.1 (match x.2 with
       | inl 0 => PathAccount | inr s => PathStorage s | inl 1 => PathCode | inl _ => PathEventNonce
       end)) _). by intros [? []].
Defined.

Definition event_nonce_key (address : Z) : EvmStorageKey := mkEvmStorageKey address PathEventNonce.

(** [impl From<OwnedStateKey> for StorageKey] *)
Definition evm_storage_key (key : OwnedStateKey) : EvmStorageKey :=
  match key with
  | AccountKey address => mkEvmStorageKey address PathAccount
  | StorageKey address storage_key => mkEvmStorageKey address (PathStorage storage_key)
  | CodeKey address => mkEvmStorageKey address PathCode
  end.

(** [eth_address_to_aptos_address]: the 20 bytes of the address, then zeros up to 32. *)
Definition eth_address_to_aptos_address (eth_address : Z) : list byte :=
  address_bytes eth_address ++ replicate 12 x00%byte.

Record AccessPath : Set := mkAccessPath { ap_account : list byte; ap_path : list byte }.

#[export] Instance AccessPath_eq_dec : EqDecision AccessPath.
Proof. solve_decision. Defined.

#[export] Instance AccessPath_countable : Countable AccessPath.
Proof.
  refine (inj_countable' (fun p => (ap_account p, ap_path p)) (fun x => mkAccessPath x.1 x.2) _).
  by intros [].
Defined.

(** [bcs::to_bytes(&Path::Evm(path))]: the bcs crate's encoding, which is injective. *)
Class BcsPath : Type := {
  bcs_path : EvmPath -> list byte;
  bcs_path_inj : Inj (=) (=) bcs_path;
}.

(** [impl From<StorageKey> for AptosStateKey] *)
Definition evm_access_path `{BcsPath} (key : EvmStorageKey) : AccessPath :=
  mkAccessPath (eth_address_to_aptos_address (esk_address key)) (bcs_path (esk_path key)).

(** ** Stores *)

(** [ErrorKind] of backend/statedb/src/error.rs, without the error each kind wraps. *)
Inductive DbError : Set :=
| DbAccount
| DbStorage
| DbDecoder
| IncompleteDatabase (address : Z).

Abbreviation db_result := (result DbError).

Class StorageTrait (K T : Type) : Type := {
  storage_get : T -> K -> db_result (option (list byte));
  storage_set : K -> list byte -> M DbError T unit;
  storage_delete : K -> M DbError T unit;
  storage_commit : Z -> M DbError T unit;
}.

(** [StorageKeyWrapper]: a store for keys that convert into the keys of the wrapped one. *)
Definition StorageKeyWrapper {K K' T} (into : K -> K') (inner : StorageTrait K' T) :
    StorageTrait K T := {|
  storage_get t key := storage_get t (into key);
  storage_set access_key value := storage_set (into access_key) value;
  storage_delete access_key := storage_delete (into access_key);
  storage_commit epoch := storage_commit epoch;
|}.

Abbreviation InMemoryDb := (gmap (list byte) (list byte)).

#[export] Instance in_memory_storage : StorageTrait (list byte) InMemoryDb := {|
  storage_get t key := Ok (t !! key);
  storage_set access_key value := modify (insert access_key value);
  storage_delete access_key := modify (delete access_key);
  storage_commit _epoch := ret tt;
|}.

#[export] Instance in_memory_state : StorageTrait OwnedStateKey InMemoryDb :=
  StorageKeyWrapper key_into_bytes in_memory_storage.

Section view_wrapper.
Context `{BcsPath} {E : Type}.

(** [ViewWrapper]: [inner] is the [StateView], whose [get_state_value] may fail. *)
Record ViewWrapper : Type := mkViewWrapper {
  view_inner : AccessPath -> result E (option (list byte));
  view_cache : gmap EvmStorageKey (option (list byte));
}.

Definition view_get (self : ViewWrapper) (key : EvmStorageKey) : db_result (option (list byte)) :=
  match view_cache self !! key with
  | Some cached_value => Ok cached_value
  | None =>
      match view_inner self (evm_access_path key) with
      | Ok value => Ok value
      | _ => Panic
      end
  end.

Definition view_insert (access_key : EvmStorageKey) (value : option (list byte)) :
    M DbError ViewWrapper unit :=
  modify (fun self => mkViewWrapper (view_inner self) (<[access_key := value]> (view_cache self))).

#[export] Instance view_storage : StorageTrait EvmStorageKey ViewWrapper := {|
  storage_get := view_get;
  storage_set access_key value := view_insert access_key (Some value);
  storage_delete access_key := view_insert access_key None;
  storage_commit _epoch := ret tt;
|}.

#[export] Instance view_state : StorageTrait OwnedStateKey ViewWrapper :=
  StorageKeyWrapper evm_storage_key view_storage.

Definition drain_entry (self : ViewWrapper) (entry : EvmStorageKey * option (list byte)) :
    option (AccessPath * WriteOp) :=
  let state_key := evm_access_path entry.1 in
  let has_old_value :=
    match view_inner self state_key with Ok (Some _) => true | _ => false end in
  match has_old_value, entry.2 with
  | true, Some v => Some (Modification v)
  | true, None => Some Deletion
  | false, Some v => Some (Creation v)
  | false, None => None
  end ≫= fun op => Some (state_key, op).

(** [drain]: the cache is a [HashMap], drained in an order of its own. *)
Definition drain (self : ViewWrapper) : list (AccessPath * WriteOp) :=
  omap (drain_entry self) (map_to_list (view_cache self)).
End view_wrapper.

Arguments ViewWrapper : clear implicits.

(** ** Accounts, code and storage values *)

Record CodeInfo : Set := mkCodeInfo { ci_code : list byte }.

Definition code_size (self : CodeInfo) : Z := len (ci_code self).

Record Account : Set := mkAccount {
  address_local_info : Z;
  acc_balance : Z;
  acc_nonce : Z;
  acc_code_hash : Z;
}.

Record EthereumAccount : Set := mkEthereumAccount {
  ea_balance : Z;
  ea_nonce : Z;
  ea_code_hash : Z;
}.

Definition new_empty_with_balance (address balance nonce : Z) : Account :=
  mkAccount address balance nonce KECCAK_EMPTY.

Definition new_empty (address : Z) : Account := new_empty_with_balance address 0 0.

Definition from_ethereum_account (address : Z) (a : EthereumAccount) : Account :=
  mkAccount address (ea_balance a) (ea_nonce a) (ea_code_hash a).

(** [to_evm_account] asserts that the account is in the space [Ethereum], the only one. *)
Definition to_evm_account (self : Account) : EthereumAccount :=
  mkEthereumAccount (acc_balance self) (acc_nonce self) (acc_code_hash self).

Record StorageValue : Set := mkStorageValue { sv_value : Z }.

Inductive StorageLayout : Set := Regular (version : Z).

Class IsDefault (A : Type) : Type := is_default : A -> bool.

#[export] Instance account_is_default : IsDefault Account := fun self =>
  (acc_balance self =? 0) && (acc_nonce self =? 0) && (acc_code_hash self =? KECCAK_EMPTY).
#[export] Instance code_info_is_default : IsDefault CodeInfo := fun self => len (ci_code self) =? 0.
#[export] Instance storage_value_is_default : IsDefault StorageValue := fun self => sv_value self =? 0.
#[export] Instance u256_is_default : IsDefault Z := fun self => self =? 0.

(** ** RLP

    [rlp::encode] and [rlp::decode] of the values stored, and the number of items of an encoded
    list. *)
Class RlpCodec (A : Type) : Type := {
  rlp_encode : A -> list byte;
  rlp_decode : list byte -> option A;
}.

Class Rlp : Type := {
  #[global] rlp_ethereum_account :: RlpCodec EthereumAccount;
  #[global] rlp_code_info :: RlpCodec CodeInfo;
  #[global] rlp_storage_value :: RlpCodec StorageValue;
  #[global] rlp_u256 :: RlpCodec Z;
  rlp_item_count : list byte -> option Z;
}.

(** [impl Encodable for Account] *)
#[export] Instance rlp_account `{Rlp} : RlpCodec Account := {|
  rlp_encode self := rlp_encode (to_evm_account self);
  rlp_decode _ := None; (* [Account] is not [Decodable]: it is read by [new_from_rlp] *)
|}.

Definition new_from_rlp `{Rlp} (address : Z) (rlp : list byte) : db_result Account :=
  match rlp_item_count rlp with
  | Some 3 =>
      match rlp_decode rlp with
      | Some a => Ok (from_ethereum_account address a)
      | None => Err DbAccount
      end
  | _ => Err DbAccount
  end.

(** ** [StateDb] *)

Definition STORAGE_INTEREST_STAKING_CONTRACT_ADDRESS : Z :=
  0x0888000000000000000000000000000000000002.

(** [b"total_issued_tokens"] *)
Definition TOTAL_TOKENS_KEY : list byte :=
  [x74; x6f; x74; x61; x6c; x5f; x69; x73; x73; x75; x65; x64; x5f; x74; x6f; x6b; x65; x6e; x73]%byte.

Definition total_issued_tokens_key : OwnedStateKey :=
  StorageKey STORAGE_INTEREST_STAKING_CONTRACT_ADDRESS TOTAL_TOKENS_KEY.

Section state_db.
Context `{Rlp} {T : Type} {ST : StorageTrait OwnedStateKey T}.

Definition get_raw (db : T) (key : OwnedStateKey) : db_result (option (list byte)) :=
  storage_get db key.
Definition set_raw (key : OwnedStateKey) (value : list byte) : M DbError T unit :=
  storage_set key value.
Definition db_delete (key : OwnedStateKey) : M DbError T unit := storage_delete key.
Definition db_commit (epoch_id : Z) : M DbError T unit := storage_commit epoch_id.

Definition db_get {A} `{RlpCodec A} (db : T) (key : OwnedStateKey) : db_result (option A) :=
  match get_raw db key with
  | Ok None => Ok None
  | Ok (Some raw) =>
      match rlp_decode raw with
      | Some a => Ok (Some a)
      | None => Err DbDecoder
      end
  | Err e => Err e
  | Panic => Panic
  end.

Definition db_set {A} `{RlpCodec A} `{IsDefault A} (key : OwnedStateKey) (value : A) :
    M DbError T unit :=
  if is_default value then db_delete key else set_raw key (rlp_encode value).

Definition get_account (db : T) (address : Z) : db_result (option Account) :=
  match get_raw db (AccountKey address) with
  | Ok None => Ok None
  | Ok (Some raw) => let? a := new_from_rlp address raw in Ok (Some a)
  | Err e => Err e
  | Panic => Panic
  end.

Definition get_code (db : T) (address code_hash : Z) : db_result (option CodeInfo) :=
  db_get db (CodeKey address).

Definition get_total_issued_tokens (db : T) : db_result Z :=
  let? total_issued_tokens_opt := db_get (A := Z) db total_issued_tokens_key in
  Ok (default 0 total_issued_tokens_opt).

Definition set_total_issued_tokens (total_issued_tokens : Z) : M DbError T unit :=
  db_set total_issued_tokens_key total_issued_tokens.
End state_db.

(** ** What the state relies on *)

Definition key_address (key : OwnedStateKey) : Z :=
  match key with AccountKey a | StorageKey a _ | CodeKey a => a end.

(** Addresses are 20 bytes. *)
Definition is_address (a : Z) : Prop := is_word 160 a.

Definition valid_key (key : OwnedStateKey) : Prop := is_address (key_address key).

(** A store is a map on the keys in use, and writing to it does not fail. *)
Class StorageLaws (K T : Type) `{EqDecision K} (valid : K -> Prop) {ST : StorageTrait K T} : Prop := {
  storage_set_ok k v (t : T) : (storage_set k v t).1 = Ok tt;
  storage_delete_ok k (t : T) : (storage_delete k t).1 = Ok tt;
  storage_commit_ok e (t : T) : (storage_commit (K := K) e t).1 = Ok tt;
  storage_get_set k v (t : T) k' :
    valid k -> valid k' ->
    storage_get (storage_set k v t).2 k' = if decide (k = k') then Ok (Some v) else storage_get t k';
  storage_get_delete k (t : T) k' :
    valid k -> valid k' ->
    storage_get (storage_delete k t).2 k' = if decide (k = k') then Ok None else storage_get t k';
  storage_get_commit e (t : T) k :
    storage_get (K := K) (storage_commit (K := K) e t).2 k = storage_get t k;
}.

(** Decoding inverts encoding for values of their types, and an account is a list of three. *)
Class RlpLaws `{Rlp} : Prop := {
  rlp_account_roundtrip a :
    is_u256 (ea_balance a) -> is_u256 (ea_nonce a) -> is_u256 (ea_code_hash a) ->
    rlp_decode (rlp_encode a) = Some a;
  rlp_account_items (a : EthereumAccount) : rlp_item_count (rlp_encode a) = Some 3;
  rlp_code_roundtrip (c : CodeInfo) : rlp_decode (rlp_encode c) = Some c;
  rlp_value_roundtrip (v : StorageValue) : is_u256 (sv_value v) -> rlp_decode (rlp_encode v) = Some v;
  rlp_u256_roundtrip (v : Z) : is_u256 v -> rlp_decode (rlp_encode v) = Some v;
}.

(** ** Keys and stores *)

Lemma address_bytes_inj a b : is_address a -> is_address b -> address_bytes a = address_bytes b -> a = b.
Proof.
  unfold is_address, is_word, address_bytes. intros Ha Hb E%(f_equal be_to_Z).
  rewrite !be_to_Z_to_be in E. change (256 ^ Z.of_nat 20) with (2 ^ 160) in E.
  by rewrite !Z.mod_small in E.
Qed.

Lemma address_bytes_app_inj a b k l :
  is_address a -> is_address b -> address_bytes a ++ k = address_bytes b ++ l -> a = b /\ k = l.
Proof.
  intros Ha Hb [E ->]%app_inj_1; [| by unfold address_bytes; rewrite !length_to_be].
  by apply address_bytes_inj in E.
Qed.

Definition key_suffix (key : OwnedStateKey) : list byte :=
  match key with
  | AccountKey _ => []
  | StorageKey _ storage_key => STORAGE_PREFIX ++ storage_key
  | CodeKey _ => CODE_PREFIX
  end.

Lemma key_into_bytes_split k : key_into_bytes k = address_bytes (key_address k) ++ key_suffix k.
Proof. destruct k; cbn [key_into_bytes key_address key_suffix]; [by rewrite app_nil_r | done | done]. Qed.

Lemma key_into_bytes_inj k l :
  is_address (key_address k) -> is_address (key_address l) ->
  key_into_bytes k = key_into_bytes l -> k = l.
Proof.
  rewrite !key_into_bytes_split. intros Ha Hb [E Es]%address_bytes_app_inj; [| done..].
  destruct k, l; cbn in E, Es; simplify_eq; done.
Qed.

Lemma evm_storage_key_inj k l : evm_storage_key k = evm_storage_key l -> k = l.
Proof. destruct k, l; simpl; congruence. Qed.

Lemma evm_access_path_inj `{BcsPath} k l :
  is_address (esk_address k) -> is_address (esk_address l) ->
  evm_access_path k = evm_access_path l -> k = l.
Proof.
  destruct k as [a p], l as [b q]. cbn [esk_address]. intros Ha Hb E.
  pose proof (f_equal ap_account E) as Ea. pose proof (f_equal ap_path E) as Ep.
  cbn [evm_access_path ap_account ap_path esk_address esk_path] in Ea, Ep.
  unfold eth_address_to_aptos_address in Ea.
  apply address_bytes_app_inj in Ea as [-> _]; [| done..].
  by apply bcs_path_inj in Ep as ->.
Qed.

(** Converting keys keeps a store a map if it keeps keys apart. *)
Lemma wrapper_laws {K K' T} `{EqDecision K, EqDecision K'} (into : K -> K') (inner : StorageTrait K' T)
    (valid : K -> Prop) (valid' : K' -> Prop) (L : StorageLaws K' T valid') :
  (forall k, valid k -> valid' (into k)) ->
  (forall k l, valid k -> valid l -> into k = into l -> k = l) ->
  StorageLaws K T valid (ST := StorageKeyWrapper into inner).
Proof.
  intros Hv Hinj. destruct L as [set_ok delete_ok commit_ok get_set get_delete get_commit].
  split; cbn; intros; auto.
  - rewrite get_set by auto. repeat case_decide; naive_solver.
  - rewrite get_delete by auto. repeat case_decide; naive_solver.
Qed.

#[export] Instance in_memory_laws : StorageLaws (list byte) InMemoryDb (fun _ => True).
Proof.
  split; intros; try done; cbn; case_decide; subst; f_equal.
  - apply lookup_insert_eq.
  - by apply lookup_insert_ne.
  - apply lookup_delete_eq.
  - by apply lookup_delete_ne.
Qed.

#[export] Instance in_memory_state_laws : StorageLaws OwnedStateKey InMemoryDb valid_key.
Proof. apply (wrapper_laws _ _ _ _ in_memory_laws); [done | apply key_into_bytes_inj]. Qed.

#[export] Instance view_laws `{BcsPath} {E} : StorageLaws EvmStorageKey (ViewWrapper E) (fun _ => True).
Proof.
  split; intros; try done; cbn; unfold view_get, view_insert, modify; cbn; case_decide; subst;
    rewrite ?lookup_insert_eq, ?lookup_insert_ne by done; done.
Qed.

#[export] Instance view_state_laws `{BcsPath} {E} : StorageLaws OwnedStateKey (ViewWrapper E) valid_key.
Proof. apply (wrapper_laws _ _ _ _ view_laws); [done | intros k l _ _; apply evm_storage_key_inj]. Qed.

(** ** Draining the overlay *)

(** Write operations applied in turn to a state; [None] if one does not apply. *)
Fixpoint apply_ops (ops : list (AccessPath * WriteOp)) (state : gmap AccessPath (list byte)) :
    option (gmap AccessPath (list byte)) :=
  match ops with
  | [] => Some state
  | (path, op) :: ops =>
      match apply_write op (state !! path) with
      | Some value => apply_ops ops (partial_alter (fun _ => value) path state)
      | None => None
      end
  end.

Section drain.
Context `{BcsPath} {E : Type} (base : gmap AccessPath (list byte)).

(** The overlay over a state whose reads succeed. *)
Definition overlay (cache : gmap EvmStorageKey (option (list byte))) : ViewWrapper E :=
  mkViewWrapper (fun path => Ok (base !! path)) cache.

(** The operation of an entry, if it has one, leaves the entry's value. *)
Lemma drain_entry_applies cache k v ops state :
  state !! evm_access_path k = base !! evm_access_path k ->
  exists state',
    apply_ops (option_list (drain_entry (overlay cache) (k, v)) ++ ops) state = apply_ops ops state' /\
    state' !! evm_access_path k = v /\
    forall p, p <> evm_access_path k -> state' !! p = state !! p.
Proof.
  intros Hk. unfold drain_entry, overlay. cbn [view_inner fst snd].
  destruct (base !! evm_access_path k) as [old |] eqn:Hb, v as [v |]; cbn -[evm_access_path];
    rewrite ?Hk; cbn -[evm_access_path]; (eexists; split; [reflexivity |]);
    (split; [by rewrite ?lookup_partial_alter_eq | intros; by rewrite ?lookup_partial_alter_ne]).
Qed.

Lemma drain_list cache (l : list (EvmStorageKey * option (list byte))) state :
  NoDup l.*1 -> Forall (fun kv => is_address (esk_address kv.1)) l ->
  Forall (fun kv => state !! evm_access_path kv.1 = base !! evm_access_path kv.1) l ->
  exists state',
    apply_ops (omap (drain_entry (overlay cache)) l) state = Some state' /\
    Forall (fun kv => state' !! evm_access_path kv.1 = kv.2) l /\
    forall p, Forall (fun kv => evm_access_path kv.1 <> p) l -> state' !! p = state !! p.
Proof.
  revert state. induction l as [| [k v] l IH]; intros state Hnd Hv Hs; [by exists state |].
  apply list.NoDup_cons in Hnd as [Hk Hnd].
  apply list.Forall_cons in Hv as [Hvk Hv]. apply list.Forall_cons in Hs as [Hsk Hs].
  destruct (drain_entry_applies cache k v (omap (drain_entry (overlay cache)) l) state Hsk)
    as (state1 & Happ & Hval & Hother).
  assert (Forall (fun kv => evm_access_path kv.1 <> evm_access_path k) l) as Hne.
  { rewrite list.Forall_forall in Hv |- *. intros kv Hkv Heq. apply Hk.
    apply evm_access_path_inj in Heq as <-; [| by apply Hv | done].
    by apply (list_elem_of_fmap_2 fst) in Hkv. }
  destruct (IH state1 Hnd Hv) as (state' & Happ' & Hl & Hout).
  { rewrite list.Forall_forall in Hs, Hne |- *. intros kv Hkv.
    rewrite Hother by by apply Hne. by apply Hs. }
  exists state'. split; [| split].
  - rewrite <- Happ', <- Happ. cbn [omap list_omap]. by destruct (drain_entry _ _).
  - constructor; [| done]. cbn. by rewrite Hout.
  - intros p [Hp Hps]%list.Forall_cons. rewrite Hout, Hother; [done | | done]. cbn in Hp. congruence.
Qed.
End drain.

(** C24. Draining the overlay of an EVM execution. The operations returned apply to the state of
    the chain: creations only where nothing is stored, modifications and deletions only where
    something is. Afterwards every EVM key holds what the overlay showed for it, and every access
    path outside the keys the execution wrote is untouched, so that accounts, code, storage and
    event nonces of distinct addresses never share a place and no Move resource is overwritten. *)
Theorem drain_materializes `{BcsPath} {E} (base : gmap AccessPath (list byte))
    (cache : gmap EvmStorageKey (option (list byte))) :
  (forall k, k ∈ dom cache -> is_address (esk_address k)) ->
  exists final,
    apply_ops (drain (overlay (E := E) base cache)) base = Some final /\
    (forall k, is_address (esk_address k) ->
       view_get (overlay (E := E) base cache) k = Ok (final !! evm_access_path k)) /\
    (forall p, (forall k, k ∈ dom cache -> evm_access_path k <> p) -> final !! p = base !! p).
Proof.
  intros Hvalid.
  assert (forall kv, kv ∈ map_to_list cache -> kv.1 ∈ dom cache) as Hdom.
  { intros [k v] Hkv%elem_of_map_to_list. by apply elem_of_dom_2 in Hkv. }
  destruct (drain_list (E := E) base cache (map_to_list cache) base) as (final & Happ & Hin & Hout).
  - apply NoDup_fst_map_to_list.
  - apply list.Forall_forall. auto.
  - by apply list.Forall_forall.
  - rewrite list.Forall_forall in Hin. exists final. split; [exact Happ | split].
    + intros k Hk. unfold view_get, overlay. cbn [view_cache view_inner].
      destruct (cache !! k) as [v |] eqn:Hc.
      * f_equal. symmetry. apply (Hin (k, v)). by apply elem_of_map_to_list.
      * f_equal. symmetry. apply Hout, list.Forall_forall. intros kv Hkv Heq.
        apply evm_access_path_inj in Heq as <-; [| auto | done].
        apply Hdom, elem_of_dom in Hkv as [? Hkv]. by rewrite Hc in Hkv.
    + intros p Hp. apply Hout, list.Forall_forall. auto.
Qed.

(** A concrete encoding of paths. *)
Definition sample_bcs_path : BcsPath.
Proof.
  refine {| bcs_path p := match p with
    | PathAccount => [x00]%byte | PathStorage k => x01%byte :: k | PathCode => [x02]%byte
    | PathEventNonce => [x03]%byte end |}.
  intros [] []; simpl; congruence.
Defined.

#[local] Existing Instance sample_bcs_path.

Lemma drain_materializes_witness :
  let key := mkEvmStorageKey 5 (PathStorage [x07]%byte) in
  let gone := mkEvmStorageKey 5 PathCode in
  let base := {[evm_access_path gone := [x01]%byte]} in
  let cache := <[key := Some [x2a]%byte]> {[gone := None]} in
  exists final,
    apply_ops (drain (overlay (E := unit) base cache)) base = Some final /\
    final !! evm_access_path gone = None /\ final !! evm_access_path key = Some [x2a]%byte.
Proof.
  intros key gone base cache.
  destruct (drain_materializes (E := unit) base cache) as (final & Happ & Hget & _).
  - intros k Hk. apply dom_insert, elem_of_union in Hk as [->%elem_of_singleton | Hk];
      [| apply dom_singleton, elem_of_singleton in Hk as ->]; unfold is_address, is_word; simpl; lia.
  - exists final. split; [exact Happ |].
    assert (forall k, is_address (esk_address k) -> forall v,
      view_get (overlay (E := unit) base cache) k = Ok v -> final !! evm_access_path k = v) as Hv.
    { intros k Hk v E. rewrite (Hget k Hk) in E. by injection E. }
    split; (eapply Hv; [unfold is_address, is_word; simpl; lia | by vm_compute]).
Defined.

(** Concrete encodings of the values stored: fields of 32 bytes. *)
Definition fixed_codec {A} (to : A -> list Z) (from : list Z -> A) (n : nat) : RlpCodec A := {|
  rlp_encode a := mjoin (to_be 32 <$> to a);
  rlp_decode bytes :=
    if decide (length bytes = 32 * n)%nat
    then Some (from ((fun i => be_to_Z (take 32 (drop (32 * i) bytes))) <$> seq 0 n)) else None;
|}.

Definition sample_rlp : Rlp := {|
  rlp_ethereum_account := fixed_codec (fun a => [ea_balance a; ea_nonce a; ea_code_hash a])
    (fun l => mkEthereumAccount (l !!! 0%nat) (l !!! 1%nat) (l !!! 2%nat)) 3;
  rlp_code_info := {| rlp_encode := ci_code; rlp_decode bytes := Some (mkCodeInfo bytes) |};
  rlp_storage_value := fixed_codec (fun v => [sv_value v]) (fun l => mkStorageValue (l !!! 0%nat)) 1;
  rlp_u256 := fixed_codec (fun v => [v]) (fun l => l !!! 0%nat) 1;
  rlp_item_count bytes := if decide (length bytes = 96%nat) then Some 3 else None;
|}.

Lemma sample_rlp_laws : RlpLaws (H := sample_rlp).
Proof.
  split.
  - intros [b n h] Hb Hn Hh. cbn [rlp_decode rlp_encode rlp_ethereum_account sample_rlp fixed_codec ea_balance ea_nonce ea_code_hash] in *.
    cbn [fmap list_fmap mjoin list_join]. rewrite app_nil_r, decide_True by (rewrite !length_app, !length_to_be; done).
    cbn [seq fmap list_fmap]. cbn [Nat.mul Nat.add]. 
    change 64%nat with (32 + 32)%nat.
    rewrite drop_0, <- drop_drop.
    rewrite !(drop_app_length' (to_be 32 b)), !(take_app_length' (to_be 32 b)) by by rewrite length_to_be.
    rewrite !(drop_app_length' (to_be 32 n)), !(take_app_length' (to_be 32 n)) by by rewrite length_to_be.
    rewrite take_ge by by rewrite length_to_be.
    cbn [lookup_total list_lookup_total]. by rewrite !be_to_Z_to_be_32.
  - intros a. cbn [rlp_item_count rlp_encode rlp_ethereum_account sample_rlp fixed_codec].
    cbn [fmap list_fmap mjoin list_join]. by rewrite decide_True by (rewrite !length_app, !length_to_be; done).
  - by intros [].
  - intros [v] Hv. cbn [rlp_decode rlp_encode rlp_storage_value sample_rlp fixed_codec sv_value] in *.
    cbn [fmap list_fmap mjoin list_join]. rewrite app_nil_r, decide_True by by rewrite length_to_be.
    cbn [seq fmap list_fmap]. rewrite Nat.mul_0_r, drop_0, take_ge by by rewrite length_to_be.
    cbn [lookup_total list_lookup_total]. by rewrite be_to_Z_to_be_32.
  - intros v Hv. cbn [rlp_decode rlp_encode rlp_u256 sample_rlp fixed_codec] in *.
    cbn [fmap list_fmap mjoin list_join]. rewrite app_nil_r, decide_True by by rewrite length_to_be.
    cbn [seq fmap list_fmap]. rewrite Nat.mul_0_r, drop_0, take_ge by by rewrite length_to_be.
    cbn [lookup_total list_lookup_total]. by rewrite be_to_Z_to_be_32.
Qed.
