(* ===== verification/SolidityAbi.v ===== *)
(** * The Solidity ABI

    src/cfx-evm/utils/solidity-abi: values encoded in the layout of Solidity's contract ABI, by
    which EVM logs travel as Move events and internal contracts read their arguments. A type's
    encoding is a record [ABIVariable] of its constants and functions, as the trait of that name;
    the implementations are values and functions on such records. Tuples (the macro
    [impl_abi_serde] of lib.rs) and structs (the derive macro of solidity-abi-derive) are lists of
    fields, [ABIFields].

    Shown here: the class [ABILaws] of encodings that decoding inverts, which every
    implementation joins; hence decoding what was encoded gives the value back, whatever follows
    it, for every type built from them. *)

From stdpp Require Import strings.
From S2P Require Import Prelude Word Arith.
Local Open Scope Z_scope.

Inductive ABIDecodeError : Set := mkABIDecodeError (desc : string).

Abbreviation abi_result := (result ABIDecodeError).

(** ** utils.rs *)

Record LinkedBytes : Set := mkLinkedBytes { lb_length : Z; lb_data : list (list byte) }.

Definition padded_big_endian (length : Z) : list byte := to_be 32 length.

Definition lb_new : LinkedBytes := mkLinkedBytes 0 [].
Definition from_bytes (bytes : list byte) : LinkedBytes := mkLinkedBytes (len bytes) [bytes].
Definition lb_append (self other : LinkedBytes) : LinkedBytes :=
  mkLinkedBytes (lb_length self + lb_length other) (lb_data self ++ lb_data other).
Definition to_vec (self : LinkedBytes) : list byte := concat (lb_data self).

Definition abi_require (claim : bool) (desc : string) : abi_result unit :=
  if negb claim then Err (mkABIDecodeError desc) else Ok tt.

(** The iterator is the slice that is left of it. *)
Definition pull_slice (iter : list byte) (n : Z) (err_desc : string) :
    abi_result (list byte * list byte) :=
  let? _ := abi_require (n <=? len iter) err_desc in
  let? result := unwrap (slice iter 0 n) in
  let? iter := unwrap (slice iter n (len iter)) in
  Ok (result, iter).

(** [location.as_u64() as usize] *)
Definition abi_as_usize (location : Z) : abi_result Z :=
  if location <? 2 ^ 64 then Ok location else Panic.

Record ABIVariable (A : Type) : Type := mkABIVariable {
  BASIC_TYPE : bool;
  STATIC_LENGTH : option Z;
  from_abi : list byte -> abi_result A;
  to_abi : A -> abi_result LinkedBytes;
  to_packed_abi : A -> abi_result LinkedBytes;
}.
Arguments mkABIVariable {A} _ _ _ _ _.
Arguments BASIC_TYPE {A} _.
Arguments STATIC_LENGTH {A} _.
Arguments from_abi {A} _ _.
Arguments to_abi {A} _ _.
Arguments to_packed_abi {A} _ _.

Definition read_abi_list {A} (T : ABIVariable A) (data pointer : list byte) :
    abi_result (A * list byte) :=
  let? '(res, pointer) :=
    match STATIC_LENGTH T with
    | Some n => pull_slice pointer n "Incomplete static input parameter"
    | None =>
        let? '(bytes, pointer) :=
          pull_slice pointer 32 "Incomplete location for dynamic input parameter" in
        let location := be_to_Z bytes in
        let? _ := abi_require (location <? len data) "Location out of bounds" in
        let? loc := abi_as_usize location in
        let? res := unwrap (slice data loc (len data)) in
        Ok (res, pointer)
    end in
  let? a := from_abi T res in
  Ok (a, pointer).

Record ABIListWriter : Set := mkABIListWriter {
  heads_length : Z;
  heads : LinkedBytes;
  tails : LinkedBytes;
}.

Definition with_heads_length (heads_length : Z) : ABIListWriter :=
  mkABIListWriter heads_length lb_new lb_new.

Definition write_down {A} (T : ABIVariable A) (input : A) (self : ABIListWriter) :
    abi_result ABIListWriter :=
  let? encoded := to_abi T input in
  match STATIC_LENGTH T with
  | Some n =>
      if lb_length encoded =? n
      then Ok (mkABIListWriter (heads_length self) (lb_append (heads self) encoded) (tails self))
      else Panic
  | None =>
      let location := from_bytes (padded_big_endian (lb_length (tails self) + heads_length self)) in
      Ok (mkABIListWriter (heads_length self) (lb_append (heads self) location)
            (lb_append (tails self) encoded))
  end.

Definition into_linked_bytes (self : ABIListWriter) : abi_result LinkedBytes :=
  if lb_length (heads self) =? heads_length self
  then Ok (lb_append (heads self) (tails self)) else Panic.

(** ** basic.rs and bytes.rs *)

(** [Address], as a number of 160 bits *)
Definition abi_address : ABIVariable Z := {|
  BASIC_TYPE := true;
  STATIC_LENGTH := Some 32;
  from_abi data :=
    let? _ := abi_require (len data =? 32) "Invalid call data length" in
    let? bytes := unwrap (slice data 12 32) in
    Ok (be_to_Z bytes);
  to_abi self := Ok (from_bytes (replicate 12 x00%byte ++ to_be 20 self));
  to_packed_abi self := Ok (from_bytes (to_be 20 self));
|}.

Definition abi_u256 : ABIVariable Z := {|
  BASIC_TYPE := true;
  STATIC_LENGTH := Some 32;
  from_abi data :=
    let? _ := abi_require (len data =? 32) "Invalid call data length" in
    Ok (be_to_Z data);
  to_abi self := Ok (from_bytes (to_be 32 self));
  to_packed_abi self := Ok (from_bytes (to_be 32 self));
|}.

Definition abi_bool : ABIVariable bool := {|
  BASIC_TYPE := true;
  STATIC_LENGTH := Some 32;
  from_abi data :=
    let? _ := abi_require (len data =? 32) "Invalid call data length" in
    let? b := unwrap (index data 31) in
    Ok (negb (byte_to_Z b =? 0));
  to_abi self :=
    Ok (from_bytes (replicate 31 x00%byte ++ [if self then x01 else x00]%byte));
  to_packed_abi self := Ok (from_bytes [if self then x01 else x00]%byte);
|}.

(** [impl_abi_variable_for_primitive]: an unsigned integer of [BYTES] bytes *)
Definition abi_primitive (BYTES : Z) : ABIVariable Z := {|
  BASIC_TYPE := true;
  STATIC_LENGTH := Some 32;
  from_abi data :=
    let? _ := abi_require (len data =? 32) "Invalid call data length" in
    let? bytes := unwrap (slice data (32 - BYTES) (len data)) in
    Ok (be_to_Z bytes);
  to_abi self :=
    let? answer := unwrap (copy_at (replicate 32 x00%byte) (32 - BYTES) (to_be (Z.to_nat BYTES) self)) in
    Ok (from_bytes answer);
  to_packed_abi self := Ok (from_bytes (to_be (Z.to_nat BYTES) self));
|}.

(** [Bytes], that is [Vec<u8>] *)
Definition abi_bytes : ABIVariable (list byte) := {|
  BASIC_TYPE := false;
  STATIC_LENGTH := None;
  from_abi data :=
    let? '(bytes, data_without_length) := pull_slice data 32 "Incomplete length for byte array" in
    let expected_length := be_to_Z bytes in
    if len data_without_length <? expected_length
    then Err (mkABIDecodeError "Invalid length in byte array")
    else
      let? length := abi_as_usize expected_length in
      unwrap (slice data_without_length 0 length);
  to_abi self :=
    Ok (from_bytes (padded_big_endian (len self) ++ self ++
                    replicate (Z.to_nat (31 - (len self + 31) mod 32)) x00%byte));
  to_packed_abi self := Ok (from_bytes self);
|}.

(** [[u8; N]] for [N] at most 32 *)
Definition abi_byte_array (N : Z) : ABIVariable (list byte) := {|
  BASIC_TYPE := true;
  STATIC_LENGTH := Some 32;
  from_abi data :=
    if len data <? N then Err (mkABIDecodeError "Invalid length in byte array")
    else unwrap (slice data 0 N);
  to_abi self :=
    let? result := unwrap (copy_at (replicate 32 x00%byte) 0 self) in
    Ok (from_bytes result);
  to_packed_abi self := Ok (from_bytes self);
|}.

(** [H256], as a number of 256 bits: the 32 bytes of the hash *)
Definition abi_h256 : ABIVariable Z := {|
  BASIC_TYPE := BASIC_TYPE (abi_byte_array 32);
  STATIC_LENGTH := STATIC_LENGTH (abi_byte_array 32);
  from_abi data :=
    let? bytes := from_abi (abi_byte_array 32) data in
    Ok (be_to_Z bytes);
  to_abi self := to_abi (abi_byte_array 32) (to_be 32 self);
  to_packed_abi self := to_packed_abi (abi_byte_array 32) (to_be 32 self);
|}.

(** ** array.rs *)

(** Runs [f] [n] times, or until it fails: a loop over a counter. *)
Fixpoint repeat_pos {E S} (n : positive) (f : S -> result E S) (s : S) : result E S :=
  match n with
  | xH => f s
  | xO n => let? s := repeat_pos n f s in repeat_pos n f s
  | xI n => let? s := f s in let? s := repeat_pos n f s in repeat_pos n f s
  end.

Definition repeat_Z {E S} (n : Z) (f : S -> result E S) (s : S) : result E S :=
  match n with Zpos n => repeat_pos n f s | _ => Ok s end.

(** An iteration of the loops that read items into [results]. *)
Definition read_item {A} (T : ABIVariable A) (data : list byte) (s : list A * list byte) :
    abi_result (list A * list byte) :=
  let? '(item, pointer) := read_abi_list T data s.2 in
  Ok (s.1 ++ [item], pointer).

Fixpoint write_items {A} (T : ABIVariable A) (items : list A) (recorder : ABIListWriter) :
    abi_result ABIListWriter :=
  match items with
  | [] => Ok recorder
  | item :: items =>
      let? recorder := write_down T item recorder in
      write_items T items recorder
  end.

Fixpoint append_packed {A} (T : ABIVariable A) (items : list A) (record : LinkedBytes) :
    abi_result LinkedBytes :=
  match items with
  | [] => Ok record
  | item :: items =>
      let? packed := to_packed_abi T item in
      append_packed T items (lb_append record packed)
  end.

(** [Vec<T>] *)
Definition abi_vec {A} (T : ABIVariable A) : ABIVariable (list A) := {|
  BASIC_TYPE := false;
  STATIC_LENGTH := None;
  from_abi data :=
    let? '(bytes, data_without_length) :=
      pull_slice data 32 "Incomplete length for dynamic input parameter" in
    let expected_length := be_to_Z bytes in
    let? '(results, _) :=
      repeat_Z expected_length (read_item T data_without_length) ([], data_without_length) in
    Ok results;
  to_abi self :=
    let length := from_bytes (padded_big_endian (len self)) in
    let? recorder :=
      write_items T self (with_heads_length (default 32 (STATIC_LENGTH T) * len self)) in
    let? bytes := into_linked_bytes recorder in
    Ok (lb_append length bytes);
  to_packed_abi self := append_packed T self lb_new;
|}.

(** [[T; N]] *)
Definition abi_array {A} (T : ABIVariable A) (N : Z) : ABIVariable (list A) := {|
  BASIC_TYPE := false;
  STATIC_LENGTH :=
    match STATIC_LENGTH T with Some length => Some (length * N) | None => None end;
  from_abi data :=
    let? '(results, _) := repeat_Z N (read_item T data) ([], data) in
    if len results =? N then Ok results else Panic;
  to_abi self :=
    let? recorder :=
      write_items T self (with_heads_length (default 32 (STATIC_LENGTH T) * N)) in
    into_linked_bytes recorder;
  to_packed_abi self := append_packed T self lb_new;
|}.

(** ** Tuples and structs *)

(** The fields of a tuple or struct, in order. *)
Record ABIFields (A : Type) : Type := mkABIFields {
  field_lengths : list (option Z);
  read_fields : list byte -> list byte -> abi_result (A * list byte);
  write_fields : A -> ABIListWriter -> abi_result ABIListWriter;
  pack_fields : A -> LinkedBytes -> abi_result LinkedBytes;
}.
Arguments mkABIFields {A} _ _ _ _.
Arguments field_lengths {A} _.
Arguments read_fields {A} _ _ _.
Arguments write_fields {A} _ _ _.
Arguments pack_fields {A} _ _ _.

Definition no_fields : ABIFields unit := {|
  field_lengths := [];
  read_fields _ pointer := Ok (tt, pointer);
  write_fields _ recorder := Ok recorder;
  pack_fields _ recorder := Ok recorder;
|}.

Definition field {A B} (T : ABIVariable A) (F : ABIFields B) : ABIFields (A * B) := {|
  field_lengths := STATIC_LENGTH T :: field_lengths F;
  read_fields data pointer :=
    let? '(a, pointer) := read_abi_list T data pointer in
    let? '(b, pointer) := read_fields F data pointer in
    Ok ((a, b), pointer);
  write_fields self recorder :=
    let? recorder := write_down T self.1 recorder in
    write_fields F self.2 recorder;
  pack_fields self recorder :=
    let? packed := to_packed_abi T self.1 in
    pack_fields F self.2 (lb_append recorder packed);
|}.

Definition fields_heads_length {A} (F : ABIFields A) : Z :=
  foldl (fun n l => n + default 32 l) 0 (field_lengths F).

Definition add_static_length (answer length : option Z) : option Z :=
  match answer, length with
  | _, None | None, _ => None
  | Some x, Some y => Some (x + y)
  end.

(** [#[derive(ABIVariable)]] *)
Definition abi_struct {A} (F : ABIFields A) : ABIVariable A := {|
  BASIC_TYPE := false;
  STATIC_LENGTH := foldl add_static_length (Some 0) (field_lengths F);
  from_abi data :=
    let? '(a, _) := read_fields F data data in
    Ok a;
  to_abi self :=
    let? recorder := write_fields F self (with_heads_length (fields_heads_length F)) in
    into_linked_bytes recorder;
  to_packed_abi self := pack_fields F self lb_new;
|}.

(** ** [ABIDecodable] and [ABIEncodable] *)

Definition abi_decode {A} (T : ABIVariable A) (data : list byte) : abi_result A :=
  let? '(a, _) := read_abi_list T data data in
  Ok a.

Definition abi_encode {A} (T : ABIVariable A) (self : A) : abi_result (list byte) :=
  let? recorder :=
    write_down T self (with_heads_length (default 32 (STATIC_LENGTH T))) in
  let? bytes := into_linked_bytes recorder in
  Ok (to_vec bytes).

Definition abi_decode_tuple {A} (F : ABIFields A) (data : list byte) : abi_result A :=
  let? '(a, _) := read_fields F data data in
  Ok a.

Definition abi_encode_tuple {A} (F : ABIFields A) (self : A) : abi_result (list byte) :=
  let? recorder := write_fields F self (with_heads_length (fields_heads_length F)) in
  let? bytes := into_linked_bytes recorder in
  Ok (to_vec bytes).

(** ** Lemmas on bytes and slices *)

Definition wf_linked (e : LinkedBytes) : Prop := lb_length e = len (to_vec e).

Lemma wf_from_bytes l : wf_linked (from_bytes l).
Proof. unfold wf_linked, to_vec, from_bytes; simpl. by rewrite app_nil_r. Qed.

Lemma to_vec_from_bytes l : to_vec (from_bytes l) = l.
Proof. unfold to_vec, from_bytes; simpl. apply app_nil_r. Qed.

Lemma to_vec_append e f : to_vec (lb_append e f) = to_vec e ++ to_vec f.
Proof. unfold to_vec, lb_append; simpl. apply concat_app. Qed.

Lemma wf_append e f : wf_linked e -> wf_linked f -> wf_linked (lb_append e f).
Proof. unfold wf_linked. rewrite to_vec_append, len_app. simpl. lia. Qed.

Lemma wf_new : wf_linked lb_new.
Proof. done. Qed.

Lemma slice_app_l {A} (a b : list A) : slice (a ++ b) 0 (len a) = Some a.
Proof.
  rewrite slice_Some by (rewrite ?len_app; pose proof (len_nonneg a); pose proof (len_nonneg b); lia).
  rewrite drop_0. f_equal. unfold len. rewrite take_app_le by lia. apply take_ge. lia.
Qed.

Lemma slice_app_r {A} (a b : list A) : slice (a ++ b) (len a) (len (a ++ b)) = Some b.
Proof.
  rewrite slice_Some by (rewrite ?len_app; pose proof (len_nonneg a); pose proof (len_nonneg b); lia).
  f_equal. rewrite len_app. unfold len.
  rewrite drop_app_ge by lia. rewrite take_ge by (rewrite length_drop; lia).
  replace (Z.to_nat _ - _)%nat with O by lia. done.
Qed.

Lemma pull_slice_app a b n err : n = len a -> pull_slice (a ++ b) n err = Ok (a, b).
Proof.
  intros ->. unfold pull_slice, abi_require.
  rewrite (proj2 (Z.leb_le (len a) (len (a ++ b)))) by (rewrite len_app; pose proof (len_nonneg b); lia).
  cbn. rewrite slice_app_l. cbn. by rewrite slice_app_r.
Qed.

Lemma be_to_Z_padded n : 0 <= n < 2 ^ 64 -> be_to_Z (padded_big_endian n) = n.
Proof. intros. apply be_to_Z_to_be_32. unfold is_u256, is_word. lia. Qed.

Lemma len_padded n : len (padded_big_endian n) = 32.
Proof. apply len_to_be. Qed.

#[export] Hint Resolve wf_from_bytes wf_append wf_new : hemvm.

(** ** Encodings that decoding inverts *)

(** A value of a static type is encoded in [STATIC_LENGTH] bytes; one of a dynamic type in some,
    and decoding it does not depend on what follows. *)
Class ABILaws {A} (T : ABIVariable A) (ok : A -> Prop) : Prop := {
  abi_static_nonneg n : STATIC_LENGTH T = Some n -> 0 <= n;
  abi_to x : ok x -> exists e, to_abi T x = Ok e /\ wf_linked e /\
    match STATIC_LENGTH T with
    | Some n => lb_length e = n /\ (len (to_vec e) < 2 ^ 64 -> from_abi T (to_vec e) = Ok x)
    | None => 0 < lb_length e /\
        forall rest, len (to_vec e ++ rest) < 2 ^ 64 -> from_abi T (to_vec e ++ rest) = Ok x
    end;
}.

(** *** The writer *)

Record wf_writer (w : ABIListWriter) : Prop := {
  ww_heads : wf_linked (heads w);
  ww_tails : wf_linked (tails w);
}.

(** [w'] is [w] with more written. *)
Record extends (w w' : ABIListWriter) : Prop := {
  ex_length : heads_length w' = heads_length w;
  ex_heads : to_vec (heads w) `prefix_of` to_vec (heads w');
  ex_tails : to_vec (tails w) `prefix_of` to_vec (tails w');
}.

#[export] Instance extends_preorder : PreOrder extends.
Proof.
  split; [by intros w |]. intros a b c [] []. split; [congruence | by etrans..].
Qed.

(** What is read back once the writer is complete, followed by anything. *)
Definition written {X} (read : list byte -> list byte -> abi_result (X * list byte)) (x : X)
    (w w' : ABIListWriter) : Prop :=
  forall final rest,
    extends w' final -> wf_writer final -> len (to_vec (heads final)) = heads_length final ->
    let data := to_vec (heads final) ++ to_vec (tails final) ++ rest in
    len data < 2 ^ 64 ->
    read data (drop (length (to_vec (heads w))) data) =
      Ok (x, drop (length (to_vec (heads w'))) data).

Lemma wf_with_heads_length n : wf_writer (with_heads_length n).
Proof. done. Qed.

Lemma drop_prefix (a b c : list byte) : drop (length a) ((a ++ b) ++ c) = b ++ c.
Proof. rewrite <- app_assoc. apply drop_app_length. Qed.

Section write_down.
Context {A : Type} (T : ABIVariable A) (x : A) (e : LinkedBytes).
Hypotheses (He : to_abi T x = Ok e) (Hwe : wf_linked e).

Lemma read_static n data p :
  STATIC_LENGTH T = Some n -> lb_length e = n -> from_abi T (to_vec e) = Ok x ->
  read_abi_list T data (to_vec e ++ p) = Ok (x, p).
Proof.
  intros Hs Hn Hfrom. unfold read_abi_list. rewrite Hs, pull_slice_app by (unfold wf_linked in Hwe; lia).
  cbn. by rewrite Hfrom.
Qed.

Lemma read_dynamic loc a rest p :
  STATIC_LENGTH T = None -> 0 < lb_length e -> len loc = 32 -> be_to_Z loc = len a ->
  len (a ++ to_vec e ++ rest) < 2 ^ 64 -> from_abi T (to_vec e ++ rest) = Ok x ->
  read_abi_list T (a ++ to_vec e ++ rest) (loc ++ p) = Ok (x, p).
Proof.
  intros Hs Hpos Hloc Hbe Hlen Hfrom. unfold read_abi_list, abi_require, abi_as_usize.
  rewrite Hs, pull_slice_app by lia. cbn [result_bind]. rewrite Hbe.
  pose proof (len_nonneg rest). unfold wf_linked in Hwe.
  rewrite (proj2 (Z.ltb_lt _ _)) by (rewrite !len_app; lia). cbn [negb result_bind].
  rewrite (proj2 (Z.ltb_lt _ _)) by (rewrite !len_app in Hlen; lia). cbn [result_bind].
  rewrite slice_app_r. cbn. by rewrite Hfrom.
Qed.

Lemma write_static n w :
  STATIC_LENGTH T = Some n -> lb_length e = n ->
  (len (to_vec e) < 2 ^ 64 -> from_abi T (to_vec e) = Ok x) -> wf_writer w ->
  exists w', write_down T x w = Ok w' /\ wf_writer w' /\ extends w w' /\
    len (to_vec (heads w')) = len (to_vec (heads w)) + n /\ written (read_abi_list T) x w w'.
Proof.
  intros Hs Hn Hfrom [Hh Ht]. unfold write_down. rewrite He. cbn [result_bind].
  rewrite Hs, Hn, Z.eqb_refl. eexists; split; [reflexivity |].
  split; [split; cbn [heads tails]; auto with hemvm |].
  split; [split; cbn [heads tails heads_length]; [done | rewrite to_vec_append; by eexists | done] |].
  cbn [heads]. rewrite to_vec_append, len_app. split; [unfold wf_linked in Hwe; lia |].
  intros final rest [_ [h Hfinal] _] _ _ data Hdata. cbn [heads] in Hfinal |- *. rewrite to_vec_append in Hfinal |- *.
  subst data. rewrite Hfinal in *.
  rewrite <- !app_assoc, drop_app_length, length_app, <- drop_drop, !drop_app_length.
  apply (read_static n); try done. apply Hfrom.
  rewrite <- !app_assoc, len_app, (len_app (to_vec e)) in Hdata.
  pose proof (len_nonneg (to_vec (heads w))). pose proof (len_nonneg (h ++ to_vec (tails final) ++ rest)). lia.
Qed.

Lemma write_dynamic w :
  STATIC_LENGTH T = None -> 0 < lb_length e ->
  (forall rest, len (to_vec e ++ rest) < 2 ^ 64 -> from_abi T (to_vec e ++ rest) = Ok x) ->
  wf_writer w ->
  exists w', write_down T x w = Ok w' /\ wf_writer w' /\ extends w w' /\
    len (to_vec (heads w')) = len (to_vec (heads w)) + 32 /\ written (read_abi_list T) x w w'.
Proof.
  intros Hs Hpos Hfrom [Hh Ht]. unfold write_down. rewrite He. cbn [result_bind]. rewrite Hs.
  set (loc := padded_big_endian (lb_length (tails w) + heads_length w)).
  assert (len loc = 32) as Hloc by apply len_padded.
  eexists; split; [reflexivity |]. split; [split; cbn [heads tails]; auto with hemvm |].
  split; [split; cbn [heads tails heads_length]; [done | rewrite to_vec_append; by eexists ..] |].
  cbn [heads]. rewrite to_vec_append, to_vec_from_bytes, len_app. split; [lia |].
  intros final rest [Hlen [h Eh] [t Et]] _ Hfull data Hdata. cbn [heads tails heads_length] in *.
  rewrite to_vec_append, to_vec_from_bytes in Eh. rewrite to_vec_append in Et.
  rewrite to_vec_append, to_vec_from_bytes.
  assert (data = (to_vec (heads final) ++ to_vec (tails w)) ++ to_vec e ++ t ++ rest) as Edata
    by (unfold data; rewrite Et, <- !app_assoc; done).
  assert (data = to_vec (heads w) ++ loc ++ h ++ to_vec (tails final) ++ rest) as Edata'
    by (unfold data; rewrite Eh, <- !app_assoc; done).
  rewrite Edata' at 2 3. rewrite length_app, <- drop_drop, !drop_app_length.
  rewrite Edata in Hdata |- *. apply read_dynamic; try done.
  - unfold loc. rewrite Ht, len_app, Hfull, Hlen. rewrite Z.add_comm. apply be_to_Z_padded.
    rewrite !len_app in Hdata. pose proof (len_nonneg (to_vec (heads final))).
    pose proof (len_nonneg (to_vec (tails w))). pose proof (len_nonneg (to_vec e)).
    pose proof (len_nonneg t). pose proof (len_nonneg rest). lia.
  - apply Hfrom. rewrite (len_app (_ ++ _)) in Hdata.
    pose proof (len_nonneg (to_vec (heads final) ++ to_vec (tails w))). lia.
Qed.
End write_down.

Lemma write_down_spec {A} (T : ABIVariable A) ok `{!ABILaws T ok} x w :
  ok x -> wf_writer w ->
  exists w', write_down T x w = Ok w' /\ wf_writer w' /\ extends w w' /\
    len (to_vec (heads w')) = len (to_vec (heads w)) + default 32 (STATIC_LENGTH T) /\
    written (read_abi_list T) x w w'.
Proof.
  intros Hx Hw. destruct (abi_to x Hx) as (e & He & Hwe & Hlaw).
  destruct (STATIC_LENGTH T) as [n |] eqn:Hs; destruct Hlaw.
  - by apply (write_static T x e He Hwe n).
  - by apply (write_dynamic T x e He Hwe).
Qed.

(** Only a dynamic value goes to the tails. *)
Lemma write_static_tails {A} (T : ABIVariable A) x w w' :
  STATIC_LENGTH T <> None -> write_down T x w = Ok w' -> tails w' = tails w.
Proof.
  intros Hs. unfold write_down. destruct (to_abi T x) as [e | |]; [| done..]. cbn [result_bind].
  destruct (STATIC_LENGTH T); [| done]. destruct (_ =? _); [| done]. by intros [= <-].
Qed.

(** *** Loops *)

Fixpoint repeat_nat {E S} (n : nat) (f : S -> result E S) (s : S) : result E S :=
  match n with
  | O => Ok s
  | Datatypes.S n => let? s := f s in repeat_nat n f s
  end.

Lemma repeat_nat_add {E S} n m (f : S -> result E S) s :
  repeat_nat (n + m) f s = let? s := repeat_nat n f s in repeat_nat m f s.
Proof.
  revert s. induction n as [| n IH]; intros s; [done |]. cbn. destruct (f s); [apply IH | done..].
Qed.

Lemma result_bind_ext {E A B} (r : result E A) (k k' : A -> result E B) :
  (forall a, k a = k' a) -> result_bind r k = result_bind r k'.
Proof. intros Hk. destruct r; cbn; auto. Qed.

Lemma repeat_pos_nat {E S} n (f : S -> result E S) s : repeat_pos n f s = repeat_nat (Pos.to_nat n) f s.
Proof.
  revert s. induction n as [n IH | n IH |]; intros s; cbn [repeat_pos].
  - replace (Pos.to_nat n~1) with (1 + (Pos.to_nat n + Pos.to_nat n))%nat by lia.
    cbn [repeat_nat Nat.add]. apply result_bind_ext. intros s'.
    rewrite repeat_nat_add, IH. apply result_bind_ext, IH.
  - replace (Pos.to_nat n~0) with (Pos.to_nat n + Pos.to_nat n)%nat by lia.
    rewrite repeat_nat_add, IH. apply result_bind_ext, IH.
  - change (Pos.to_nat 1) with 1%nat. cbn [repeat_nat]. by destruct (f s).
Qed.

Lemma repeat_Z_len {E S A} (l : list A) (f : S -> result E S) s :
  repeat_Z (len l) f s = repeat_nat (length l) f s.
Proof.
  unfold repeat_Z, len. destruct (length l) as [| n]; [done |].
  rewrite <- (SuccNat2Pos.id_succ n) at 2. apply repeat_pos_nat.
Qed.

Section items.
Context {A : Type} (T : ABIVariable A) (ok : A -> Prop) `{!ABILaws T ok}.

Definition read_items (n : nat) (acc : list A) (data pointer : list byte) :
    abi_result (list A * list byte) :=
  repeat_nat n (read_item T data) (acc, pointer).

Lemma write_items_spec items w :
  Forall ok items -> wf_writer w ->
  exists w', write_items T items w = Ok w' /\ wf_writer w' /\ extends w w' /\
    len (to_vec (heads w')) = len (to_vec (heads w)) + default 32 (STATIC_LENGTH T) * len items /\
    forall acc, written (read_items (length items) acc) (acc ++ items) w w'.
Proof.
  revert w. induction items as [| x items IH]; intros w Hok Hw.
  - exists w. repeat (split; [done || (cbn; rewrite ?len_nil; lia) |]).
    intros acc final rest _ _ _ data _. cbn. by rewrite app_nil_r.
  - apply list.Forall_cons in Hok as [Hx Hok].
    destruct (write_down_spec T ok x w Hx Hw) as (w1 & Hw1 & Hwf1 & Hext1 & Hlen1 & Hread1).
    destruct (IH w1 Hok Hwf1) as (w2 & Hw2 & Hwf2 & Hext2 & Hlen2 & Hread2).
    exists w2. cbn [write_items]. rewrite Hw1. cbn [result_bind].
    split; [done |]. split; [done |]. split; [by etrans |]. split; [rewrite len_cons; lia |].
    intros acc final rest Hf Hwf Hfull data Hdata. unfold read_items. cbn [repeat_nat length].
    unfold read_item at 1. cbn [fst snd]. subst data.
    rewrite (Hread1 final rest) by (done || by etrans). cbn [result_bind].
    etrans; [exact (Hread2 (acc ++ [x]) final rest Hf Hwf Hfull Hdata) |]. by rewrite <- app_assoc.
Qed.
End items.

(** *** Implementations *)

Ltac static_law :=
  split; [by intros ? [= <-] |]; intros x Hx; eexists; split; [reflexivity |];
  split; [apply wf_from_bytes |]; cbn [STATIC_LENGTH]; rewrite to_vec_from_bytes; (split; [| intros _]).

#[export] Instance abi_address_laws : ABILaws abi_address (is_word 160).
Proof.
  static_law; cbn [from_abi from_bytes lb_length abi_address];
    [by rewrite len_app, len_replicate, len_to_be |].
  unfold abi_require. rewrite len_app, len_replicate, len_to_be. cbn [Z.eqb negb result_bind].
  assert (slice (replicate 12 x00%byte ++ to_be 20 x) 12 32 = Some (to_be 20 x)) as ->.
  { rewrite <- (slice_app_r (replicate 12 x00%byte) (to_be 20 x)). by rewrite len_app, len_replicate, len_to_be. }
  cbn [unwrap result_bind]. rewrite be_to_Z_to_be.
  rewrite Z.mod_small; [done | exact Hx].
Qed.

#[export] Instance abi_u256_laws : ABILaws abi_u256 is_u256.
Proof.
  static_law; cbn [from_abi from_bytes lb_length abi_u256]; [by rewrite len_to_be |].
  unfold abi_require. rewrite len_to_be. cbn [Z.eqb negb result_bind].
  by rewrite be_to_Z_to_be_32.
Qed.

#[export] Instance abi_bool_laws : ABILaws abi_bool (fun _ => True).
Proof. static_law; by destruct x. Qed.

Lemma copy_at_end (n : nat) (l : list byte) :
  len l <= Z.of_nat n ->
  copy_at (replicate n x00%byte) (Z.of_nat n - len l) l =
    Some (replicate (n - length l) x00%byte ++ l).
Proof.
  intros Hl. rewrite copy_at_Some by (rewrite ?len_replicate; lia). f_equal.
  rewrite take_replicate, drop_ge by (rewrite length_replicate; lia).
  rewrite app_nil_r. do 2 f_equal. unfold len in *. lia.
Qed.

#[export] Instance abi_primitive_laws BYTES :
  TCEq (0 <=? BYTES) true -> TCEq (BYTES <=? 32) true -> ABILaws (abi_primitive BYTES) (is_word (8 * BYTES)).
Proof.
  rewrite !TCEq_eq, !Z.leb_le. intros H0 H32. split; [by intros ? [= <-] |]. intros x Hx.
  assert (len (to_be (Z.to_nat BYTES) x) = BYTES) as Hlen by (rewrite len_to_be; lia).
  pose proof (copy_at_end 32 (to_be (Z.to_nat BYTES) x)) as Hcopy.
  rewrite Hlen in Hcopy. change (Z.of_nat 32) with 32 in Hcopy.
  cbn [to_abi abi_primitive]. rewrite Hcopy by lia. cbn [unwrap result_bind].
  eexists; split; [reflexivity |]. split; [apply wf_from_bytes |]. cbn [STATIC_LENGTH lb_length from_bytes].
  rewrite to_vec_from_bytes. rewrite length_to_be. set (z := replicate _ _).
  assert (len (z ++ to_be (Z.to_nat BYTES) x) = 32) as Hall
    by (unfold z; rewrite len_app, len_replicate, Hlen; lia).
  split; [exact Hall | intros _]. cbn [from_abi abi_primitive]. unfold abi_require. rewrite Hall. cbn [Z.eqb negb result_bind].
  replace (32 - BYTES) with (len z) by (rewrite len_app in Hall; lia). rewrite <- Hall, slice_app_r.
  cbn [unwrap result_bind]. rewrite be_to_Z_to_be, Z.mod_small; [done |].
  unfold is_word in Hx. rewrite Z2Nat.id by lia. change 256 with (2 ^ 8). rewrite <- Z.pow_mul_r by lia. lia.
Qed.

#[export] Instance abi_bytes_laws : ABILaws abi_bytes (fun l => len l < 2 ^ 64).
Proof.
  split; [done |]. intros l Hl. cbn [to_abi abi_bytes STATIC_LENGTH].
  set (pad := replicate _ _). eexists; split; [reflexivity |]. split; [apply wf_from_bytes |].
  rewrite to_vec_from_bytes. cbn [lb_length from_bytes]. rewrite len_app, len_padded.
  pose proof (len_nonneg (l ++ pad)). pose proof (len_nonneg l). split; [lia |]. intros rest Hrest.
  cbn [from_abi abi_bytes]. rewrite <- !app_assoc, pull_slice_app by by rewrite len_padded. cbn [result_bind].
  rewrite be_to_Z_padded by lia.
  rewrite (proj2 (Z.ltb_ge _ _)) by (rewrite len_app; pose proof (len_nonneg (pad ++ rest)); lia).
  unfold abi_as_usize. rewrite (proj2 (Z.ltb_lt _ _)) by lia. cbn [result_bind].
  by rewrite slice_app_l.
Qed.

#[export] Instance abi_byte_array_laws N :
  TCEq (N <=? 32) true -> ABILaws (abi_byte_array N) (fun l => len l = N).
Proof.
  rewrite TCEq_eq, Z.leb_le. intros H32. split; [by intros ? [= <-] |]. intros l <-.
  pose proof (len_nonneg l). cbn [to_abi abi_byte_array].
  rewrite copy_at_Some by (rewrite ?len_replicate; lia). cbn [unwrap result_bind].
  eexists; split; [reflexivity |]. split; [apply wf_from_bytes |]. cbn [STATIC_LENGTH lb_length from_bytes].
  rewrite to_vec_from_bytes. change (take (Z.to_nat 0) _) with (@nil byte). rewrite app_nil_l.
  rewrite drop_replicate, len_app, len_replicate. split; [unfold len in *; lia | intros _].
  cbn [from_abi abi_byte_array]. rewrite len_app, len_replicate, (proj2 (Z.ltb_ge _ _)) by lia.
  by rewrite slice_app_l.
Qed.

#[export] Instance abi_h256_laws : ABILaws abi_h256 is_u256.
Proof.
  split; [by intros ? [= <-] |]. intros x Hx.
  destruct (abi_to (T := abi_byte_array 32) (to_be 32 x)) as (e & He & Hwf & Hlen & Hfrom);
    [by rewrite len_to_be |].
  exists e. split; [exact He |]. split; [exact Hwf |]. split; [exact Hlen | intros Hs].
  cbn [from_abi abi_h256]. rewrite Hfrom by done. cbn [result_bind]. by rewrite be_to_Z_to_be_32.
Qed.

(** A complete writer gives its heads, then its tails. *)
Lemma into_linked_spec w :
  wf_writer w -> len (to_vec (heads w)) = heads_length w ->
  exists e, into_linked_bytes w = Ok e /\ wf_linked e /\
    to_vec e = to_vec (heads w) ++ to_vec (tails w).
Proof.
  intros [Hh Ht] Hlen. unfold into_linked_bytes. rewrite Hh, Hlen, Z.eqb_refl.
  eexists; split; [reflexivity |]. split; [by apply wf_append | apply to_vec_append].
Qed.

(** What is read from the start of a complete writer that began with nothing written. *)
Lemma written_all {X} (read : list byte -> list byte -> abi_result (X * list byte)) x n w' e rest :
  written read x (with_heads_length n) w' -> wf_writer w' ->
  len (to_vec (heads w')) = heads_length w' -> to_vec e = to_vec (heads w') ++ to_vec (tails w') ->
  len (to_vec e ++ rest) < 2 ^ 64 ->
  exists pointer, read (to_vec e ++ rest) (to_vec e ++ rest) = Ok (x, pointer).
Proof.
  intros Hw Hwf Hlen -> Hsmall. rewrite <- app_assoc in *.
  eexists. exact (Hw w' rest ltac:(done) Hwf Hlen Hsmall).
Qed.

Section sequences.
Context {A : Type} (T : ABIVariable A) (ok : A -> Prop) `{!ABILaws T ok}.

(** The items of a vector or array, written and read back. *)
Lemma write_all_items items :
  Forall ok items ->
  exists w e, write_items T items (with_heads_length (default 32 (STATIC_LENGTH T) * len items)) = Ok w /\
    into_linked_bytes w = Ok e /\ wf_linked e /\
    default 32 (STATIC_LENGTH T) * len items <= lb_length e /\
    (STATIC_LENGTH T <> None -> lb_length e = default 32 (STATIC_LENGTH T) * len items) /\
    forall rest, len (to_vec e ++ rest) < 2 ^ 64 ->
      exists pointer,
        repeat_Z (len items) (read_item T (to_vec e ++ rest)) ([], to_vec e ++ rest) = Ok (items, pointer).
Proof.
  intros Hok. set (n := default 32 (STATIC_LENGTH T) * len items).
  destruct (write_items_spec T ok items (with_heads_length n) Hok (wf_with_heads_length n))
    as (w & Hw & Hwf & Hext & Hlen & Hread).
  assert (len (to_vec (heads w)) = heads_length w) as Hfull
    by (rewrite (ex_length _ _ Hext); cbn; rewrite Hlen; done).
  destruct (into_linked_spec w Hwf Hfull) as (e & He & Hwe & Hvec).
  exists w, e. unfold wf_linked in Hwe. rewrite Hwe, Hvec, len_app, Hfull, (ex_length _ _ Hext).
  pose proof (len_nonneg (to_vec (tails w))). do 4 (split; [done || (cbn; lia) |]). split.
  - intros Hs. cbn [heads_length with_heads_length].
    assert (to_vec (tails w) = []) as ->; [| by rewrite len_nil, Z.add_0_r].
    assert (tails w = lb_new) as ->; [| done].
    clear -Hw Hs. change lb_new with (tails (with_heads_length n)). revert Hw.
    generalize (with_heads_length n). induction items as [| x items IH]; intros w0; cbn; [by intros [= ->] |].
    destruct (write_down T x w0) as [w1 | |] eqn:Hw1; [| done..]. cbn [result_bind].
    intros ->%IH. by apply (write_static_tails T x).
  - intros rest Hrest. rewrite repeat_Z_len. rewrite <- Hvec in *.
    by apply (written_all (read_items T (length items) []) items n w e rest (Hread [])).
Qed.

#[export] Instance abi_vec_laws : ABILaws (abi_vec T) (fun l => Forall ok l /\ len l < 2 ^ 64).
Proof.
  split; [done |]. intros items [Hok Hlen].
  destruct (write_all_items items Hok) as (w & e & Hw & He & Hwe & _ & _ & Hread).
  cbn [to_abi abi_vec STATIC_LENGTH]. rewrite Hw. cbn [result_bind]. rewrite He. cbn [result_bind].
  eexists; split; [reflexivity |]. split; [auto with hemvm |].
  cbn [lb_append lb_length from_bytes]. rewrite len_padded.
  unfold wf_linked in Hwe. pose proof (len_nonneg (to_vec e)). pose proof (len_nonneg items).
  split; [lia |]. intros rest. rewrite to_vec_append, to_vec_from_bytes, <- app_assoc, len_app. intros Hr.
  cbn [from_abi abi_vec]. rewrite pull_slice_app by by rewrite len_padded. cbn [result_bind].
  rewrite be_to_Z_padded by lia. rewrite len_padded in Hr.
  destruct (Hread rest) as [pointer ->]; [lia |]. done.
Qed.

(** An array has items, or a static item type: Solidity has no arrays of length zero. *)
#[export] Instance abi_array_laws N :
  TCEq (0 <? N) true -> ABILaws (abi_array T N) (fun l => Forall ok l /\ len l = N).
Proof.
  rewrite TCEq_eq, Z.ltb_lt. intros HN. split.
  { cbn [STATIC_LENGTH abi_array]. intros n. destruct (STATIC_LENGTH T) as [k |] eqn:E; [| done].
    intros [= <-]. pose proof (abi_static_nonneg k E). lia. }
  intros items [Hok <-].
  destruct (write_all_items items Hok) as (w & e & Hw & He & Hwe & Hlen & Hstatic & Hread).
  cbn [to_abi abi_array STATIC_LENGTH from_abi]. rewrite Hw. cbn [result_bind]. rewrite He.
  exists e. do 2 (split; [done |]).
  destruct (STATIC_LENGTH T) as [n |] eqn:Es; cbn [default] in *.
  - rewrite Hstatic by done. split; [done |]. intros Hsmall.
    destruct (Hread []) as [pointer Hp]; [by rewrite app_nil_r |]. rewrite app_nil_r in Hp. rewrite Hp.
    cbn [result_bind]. by rewrite Z.eqb_refl.
  - split; [lia |]. intros rest Hrest. destruct (Hread rest Hrest) as [pointer ->].
    cbn [result_bind]. by rewrite Z.eqb_refl.
Qed.
End sequences.

(** *** Tuples and structs *)

Definition heads_sum (lengths : list (option Z)) : Z := foldl (fun n l => n + default 32 l) 0 lengths.

Lemma heads_sum_acc lengths n :
  foldl (fun n l => n + default 32 l) n lengths = n + heads_sum lengths.
Proof.
  unfold heads_sum. revert n. induction lengths as [| l ls IH]; intros n; cbn [foldl]; [lia |].
  rewrite IH, (IH (0 + default 32 l)). lia.
Qed.

Lemma heads_sum_cons l lengths : heads_sum (l :: lengths) = default 32 l + heads_sum lengths.
Proof. unfold heads_sum at 1. cbn [foldl]. apply heads_sum_acc. Qed.

Lemma heads_sum_nonneg lengths :
  Forall (fun l => 0 <= default 32 l) lengths -> 0 <= heads_sum lengths.
Proof. induction 1; [done |]. rewrite heads_sum_cons. lia. Qed.

Lemma struct_dynamic lengths : foldl add_static_length None lengths = None.
Proof. induction lengths as [| [] ls IH]; done. Qed.

(** The static length of a struct: the sum of its fields', unless one is dynamic. *)
Lemma struct_static lengths n :
  foldl add_static_length (Some n) lengths =
    if bool_decide (Forall (fun l => l <> None) lengths) then Some (n + heads_sum lengths) else None.
Proof.
  revert n. induction lengths as [| [l |] ls IH]; intros n; cbn [foldl add_static_length].
  - cbn. f_equal. lia.
  - rewrite IH, heads_sum_cons. cbn [from_option id].
    rewrite (bool_decide_ext (Forall _ (Some l :: ls)) (Forall (fun l => l <> None) ls))
      by (rewrite list.Forall_cons; naive_solver).
    case_bool_decide; [f_equal; unfold id; lia | done].
  - rewrite bool_decide_eq_false_2 by (rewrite list.Forall_cons; naive_solver).
    apply struct_dynamic.
Qed.

Class FieldLaws {A} (F : ABIFields A) (ok : A -> Prop) : Prop := {
  fl_nonneg : Forall (fun l => 0 <= default 32 l) (field_lengths F);
  fl_write x w : ok x -> wf_writer w ->
    exists w', write_fields F x w = Ok w' /\ wf_writer w' /\ extends w w' /\
      len (to_vec (heads w')) = len (to_vec (heads w)) + heads_sum (field_lengths F) /\
      (Forall (fun l => l <> None) (field_lengths F) -> tails w' = tails w) /\
      written (read_fields F) x w w';
}.

#[export] Instance no_fields_laws : FieldLaws no_fields (fun _ => True).
Proof.
  split; [constructor |]. intros [] w _ Hw. exists w. do 3 (split; [done |]).
  split; [cbn; lia |]. split; [done |]. by intros final rest _ _ _ data _.
Qed.

#[export] Instance field_laws {A B} (T : ABIVariable A) okA (F : ABIFields B) okB :
  ABILaws T okA -> FieldLaws F okB -> FieldLaws (field T F) (fun x => okA x.1 /\ okB x.2).
Proof.
  intros LT LF. split.
  { constructor; [| apply fl_nonneg]. destruct (STATIC_LENGTH T) eqn:E; cbn; [| done].
    by apply (abi_static_nonneg (T := T)). }
  intros [a b] w [Ha Hb] Hw. cbn [fst snd] in *.
  destruct (write_down_spec T okA a w Ha Hw) as (w1 & Hw1 & Hwf1 & Hext1 & Hlen1 & Hread1).
  destruct (fl_write (F := F) b w1 Hb Hwf1) as (w2 & Hw2 & Hwf2 & Hext2 & Hlen2 & Htails & Hread2).
  exists w2. cbn [write_fields field fst snd field_lengths read_fields]. rewrite Hw1. cbn [result_bind].
  split; [done |]. split; [done |]. split; [by etrans |].
  split; [rewrite heads_sum_cons; lia |]. split.
  { intros [Hs Hf]%list.Forall_cons. rewrite Htails by done. by apply (write_static_tails T a). }
  intros final rest Hf Hwf Hfull data Hdata. subst data.
  rewrite (Hread1 final rest) by (done || by etrans). cbn [result_bind].
  by rewrite (Hread2 final rest).
Qed.

(** The fields of a struct or tuple, written and read back. *)
Lemma write_all_fields {A} (F : ABIFields A) ok `{!FieldLaws F ok} x :
  ok x ->
  exists w e, write_fields F x (with_heads_length (fields_heads_length F)) = Ok w /\
    into_linked_bytes w = Ok e /\ wf_linked e /\ heads_sum (field_lengths F) <= lb_length e /\
    (Forall (fun l => l <> None) (field_lengths F) -> lb_length e = heads_sum (field_lengths F)) /\
    forall rest, len (to_vec e ++ rest) < 2 ^ 64 ->
      exists pointer, read_fields F (to_vec e ++ rest) (to_vec e ++ rest) = Ok (x, pointer).
Proof.
  intros Hx. set (n := fields_heads_length F).
  destruct (fl_write (F := F) x (with_heads_length n) Hx (wf_with_heads_length n))
    as (w & Hw & Hwf & Hext & Hlen & Htails & Hread).
  assert (len (to_vec (heads w)) = heads_length w) as Hfull
    by (rewrite (ex_length _ _ Hext), Hlen; done).
  destruct (into_linked_spec w Hwf Hfull) as (e & He & Hwe & Hvec).
  exists w, e. unfold wf_linked in *. rewrite Hwe, Hvec, len_app, Hlen.
  change (len (to_vec (heads (with_heads_length n)))) with 0. rewrite Z.add_0_l.
  pose proof (len_nonneg (to_vec (tails w))). do 2 (split; [done |]). split; [lia |].
  split; [lia |]. split.
  - intros Hs. rewrite Htails by done. apply Z.add_0_r.
  - intros rest Hrest. rewrite <- Hvec in *. by apply (written_all (read_fields F) x n w e rest Hread).
Qed.

#[export] Instance abi_struct_laws {A} (F : ABIFields A) ok :
  FieldLaws F ok -> ABILaws (abi_struct F) ok.
Proof.
  intros LF. split.
  { cbn [STATIC_LENGTH abi_struct]. intros n. rewrite struct_static. case_bool_decide; [| done].
    intros [= <-]. pose proof (heads_sum_nonneg _ (fl_nonneg (F := F))). lia. }
  intros x Hx. destruct (write_all_fields F ok x Hx) as (w & e & Hw & He & Hwe & Hlen & Hstatic & Hread).
  exists e. cbn [to_abi abi_struct STATIC_LENGTH from_abi]. rewrite Hw. cbn [result_bind].
  do 2 (split; [done |]). rewrite struct_static. case_bool_decide as Hs.
  - rewrite Hstatic by done. split; [done |]. intros Hsmall.
    destruct (Hread []) as [pointer Hp]; rewrite app_nil_r in *; [done |]. by rewrite Hp.
  - split; [| intros rest Hrest; by destruct (Hread rest Hrest) as [pointer ->]].
    apply not_Forall_Exists, list.Exists_exists in Hs as (l & Hl & Hnone); [| intros l; destruct l; [left | right]; naive_solver].
    pose proof (fl_nonneg (F := F)) as Hnn. clear -Hl Hnone Hlen Hnn.
    enough (32 <= heads_sum (field_lengths F)) by lia. clear Hlen.
    induction (field_lengths F) as [| k ls IH]; [by apply elem_of_nil in Hl |].
    apply list.Forall_cons in Hnn as [Hk Hnn]. rewrite heads_sum_cons.
    pose proof (heads_sum_nonneg _ Hnn).
    apply elem_of_cons in Hl as [<- | Hl]; [destruct l; naive_solver lia |].
    specialize (IH Hl Hnn). lia.
Qed.

Lemma abi_value_roundtrip {A} (T : ABIVariable A) (ok : A -> Prop) `{!ABILaws T ok} x :
  ok x -> exists bytes, abi_encode T x = Ok bytes /\
    forall rest, len (bytes ++ rest) < 2 ^ 64 -> abi_decode T (bytes ++ rest) = Ok x.
Proof.
  intros Hx. unfold abi_encode, abi_decode.
  pose proof (field_laws T ok no_fields (fun _ => True) _ _) as LF.
  destruct (write_all_fields (field T no_fields) _ (x, tt) (conj Hx I))
    as (w & e & Hw & He & _ & _ & _ & Hread).
  cbn [write_fields field no_fields fst snd] in Hw. unfold fields_heads_length in Hw.
  cbn [field_lengths field no_fields foldl] in Hw. rewrite Z.add_0_l in Hw.
  destruct (write_down T x _) as [w' | |]; [| done..]. cbn [result_bind] in *.
  injection Hw as ->. rewrite He. eexists; split; [reflexivity |]. intros rest Hrest.
  destruct (Hread rest Hrest) as [pointer Hp]. cbn [read_fields field no_fields] in Hp.
  destruct (read_abi_list T _ _) as [[a p] | |]; [| done..]. cbn in Hp |- *. by injection Hp as ->.
Qed.


