(* ===== verification/AbiDecode.v ===== *)
(** * Decoding any bytes

    The decoders of [SolidityAbi] read what anyone may send: the input of a call to an internal
    contract, the output of a contract that reverts. Here the class [ABIDecodes] of types whose
    decoder returns a value of the type or an error on any bytes that fit in memory, and does not
    panic; every implementation joins it, and so does every type built from them. *)

From stdpp Require Import strings.
From S2P Require Import Prelude Word Arith SolidityAbi.
Local Open Scope Z_scope.

(** The decoder of a static type is given as many bytes as it asks for. *)
Class ABIDecodes {A} (T : ABIVariable A) (ok : A -> Prop) : Prop := {
  ad_static n : STATIC_LENGTH T = Some n -> 0 <= n;
  ad_from data :
    len data < 2 ^ 64 -> (forall n, STATIC_LENGTH T = Some n -> len data = n) ->
    rwp (from_abi T data) ok (fun _ => True);
}.

Lemma slice_returns {E A} (l : list A) a b :
  0 <= a <= b -> b <= len l -> rwp (E := E) (unwrap (slice l a b)) (fun r => len r = b - a) (fun _ => True).
Proof.
  intros Hab Hb. rewrite slice_Some by lia. cbn [unwrap rwp]. unfold len in *. rewrite length_take, length_drop. lia.
Qed.

Lemma pull_slice_returns l n e :
  0 <= n -> rwp (pull_slice l n e) (fun p => len p.2 = len l - n /\ len p.1 = n) (fun _ => True).
Proof.
  intros Hn. unfold pull_slice, abi_require. destruct (Z.leb_spec n (len l)); [| done]. cbn [negb result_bind].
  rewrite !slice_Some by lia. cbn [unwrap result_bind rwp fst snd]. unfold len in *.
  rewrite !length_take, !length_drop. lia.
Qed.

Section lists.
Context {A : Type} (T : ABIVariable A) (ok : A -> Prop) `{!ABIDecodes T ok}.

(** What is read is a value of the type, and the pointer moves past its head. *)
Lemma read_abi_list_returns data pointer :
  len data < 2 ^ 64 -> len pointer < 2 ^ 64 ->
  rwp (read_abi_list T data pointer)
    (fun p => ok p.1 /\ len p.2 = len pointer - default 32 (STATIC_LENGTH T)) (fun _ => True).
Proof.
  intros Hd Hp. unfold read_abi_list. apply rwp_bind.
  destruct (STATIC_LENGTH T) as [n |] eqn:En; cbn [default from_option id].
  - pose proof (ad_static n En). eapply rwp_mono; [by apply pull_slice_returns | | done].
    intros [res rest] [Hr Hl]. cbn [fst snd] in *. apply rwp_bind.
    eapply rwp_mono; [apply ad_from; [pose proof (len_nonneg rest); lia |] | | done].
    + intros m Em. rewrite En in Em. by injection Em as <-.
    + intros a Ha. by split.
  - apply rwp_bind. eapply rwp_mono; [by apply pull_slice_returns | | done].
    intros [bytes rest] [Hr _]. cbn beta iota. cbn [fst snd] in Hr.
    unfold abi_require. destruct (Z.ltb_spec (be_to_Z bytes) (len data)); [| done]. cbn [negb result_bind].
    pose proof (be_to_Z_bound bytes). unfold abi_as_usize. rewrite (proj2 (Z.ltb_lt _ (2 ^ 64))) by lia. cbn [result_bind].
    apply rwp_bind. eapply rwp_mono; [apply slice_returns; [lia | lia] | | done]. intros res Hres. cbv beta in Hres. cbn [rwp].
    apply rwp_bind. eapply rwp_mono; [apply ad_from; [lia | by rewrite En] | | done]. intros a Ha. split; [done |]. exact Hr.
Qed.

Lemma repeat_nat_returns {E S} (f : S -> result E S) (P : nat -> S -> Prop) n k s :
  (forall k s, P k s -> rwp (f s) (P (Datatypes.S k)) (fun _ => True)) -> P k s ->
  rwp (repeat_nat n f s) (P (n + k)%nat) (fun _ => True).
Proof.
  intros Hf. revert k s. induction n as [| n IH]; intros k s Hs; [done |]. cbn [repeat_nat]. apply rwp_bind.
  eapply rwp_mono; [by apply Hf | | done]. intros s' Hs'. replace (Datatypes.S n + k)%nat with (n + Datatypes.S k)%nat by lia.
  by apply IH.
Qed.

Lemma repeat_Z_nat {E S} n (f : S -> result E S) s : repeat_Z n f s = repeat_nat (Z.to_nat n) f s.
Proof. destruct n as [| p | p]; [done | | done]. cbn [repeat_Z]. by rewrite repeat_pos_nat. Qed.

Lemma read_items_returns n data :
  len data < 2 ^ 64 ->
  rwp (repeat_Z n (read_item T data) ([], data))
    (fun p => Forall ok p.1 /\ length p.1 = Z.to_nat n) (fun _ => True).
Proof.
  intros Hd. rewrite repeat_Z_nat.
  eapply rwp_mono; [apply (repeat_nat_returns _ (fun k p => Forall ok p.1 /\ length p.1 = k /\ len p.2 < 2 ^ 64) _ 0) | |].
  - intros k [items pointer] (Hok & Hk & Hp). cbn [fst snd] in *. unfold read_item. cbn [fst snd]. apply rwp_bind.
    eapply rwp_mono; [by apply read_abi_list_returns | | done]. intros [item p] [Hi Hl]. cbn [rwp fst snd] in *.
    split_and!; [apply Forall_app; by repeat constructor | rewrite length_app; cbn; lia |].
    destruct (STATIC_LENGTH T) as [m |] eqn:Em; cbn in Hl; [pose proof (ad_static m Em) |]; lia.
  - by split_and!.
  - intros p (? & Hl & _). split; [done | lia].
  - done.
Qed.
End lists.

(** ** Implementations *)

Ltac static_decodes :=
  split; [by intros ? [= <-] |]; intros data Hd Hn; specialize (Hn _ eq_refl); cbn [from_abi abi_address abi_u256 abi_bool abi_primitive];
  unfold abi_require; rewrite ?Hn; cbn [Z.eqb Pos.eqb negb result_bind].

Lemma be_to_Z_word (l : list byte) n : len l = n -> 0 <= be_to_Z l < 2 ^ (8 * n).
Proof. intros <-. pose proof (be_to_Z_bound l). pose proof (len_nonneg l). rewrite Z.pow_mul_r by lia. done. Qed.

#[export] Instance abi_address_decodes : ABIDecodes abi_address (is_word 160).
Proof.
  static_decodes. rewrite slice_Some by lia. cbn [unwrap result_bind rwp].
  apply (be_to_Z_word _ 20). unfold len in *. rewrite length_take, length_drop. lia.
Qed.

#[export] Instance abi_u256_decodes : ABIDecodes abi_u256 is_u256.
Proof. static_decodes. cbn [rwp]. by apply (be_to_Z_word _ 32). Qed.

#[export] Instance abi_bool_decodes : ABIDecodes abi_bool (fun _ => True).
Proof.
  static_decodes. unfold index. cbn [Z.ltb Z.leb].
  destruct (data !! Z.to_nat 31) as [b |] eqn:E; [done |].
  apply lookup_ge_None in E. unfold len in Hn. lia.
Qed.

#[export] Instance abi_primitive_decodes BYTES :
  TCEq (0 <=? BYTES) true -> TCEq (BYTES <=? 32) true -> ABIDecodes (abi_primitive BYTES) (is_word (8 * BYTES)).
Proof.
  rewrite !TCEq_eq, !Z.leb_le. intros H0 H32. static_decodes. apply rwp_bind.
  eapply rwp_mono; [apply slice_returns; lia | | done]. intros r Hr. cbv beta in Hr. cbn [rwp].
  apply be_to_Z_word. lia.
Qed.

#[export] Instance abi_bytes_decodes : ABIDecodes abi_bytes (fun l => len l < 2 ^ 64).
Proof.
  split; [done |]. intros data Hd _. cbn [from_abi abi_bytes]. apply rwp_bind.
  eapply rwp_mono; [by apply pull_slice_returns | | done]. intros [bytes rest] [Hr _]. cbn [fst snd] in *.
  destruct (Z.ltb_spec (len rest) (be_to_Z bytes)); [done |].
  pose proof (be_to_Z_bound bytes). unfold abi_as_usize. rewrite (proj2 (Z.ltb_lt _ (2 ^ 64))) by lia. cbn [result_bind].
  eapply rwp_mono; [apply slice_returns; lia | | done]. intros r Hr'. cbv beta in Hr'. lia.
Qed.

#[export] Instance abi_byte_array_decodes N :
  TCEq (0 <=? N) true -> ABIDecodes (abi_byte_array N) (fun l => len l = N).
Proof.
  rewrite TCEq_eq, Z.leb_le. intros H0. split; [by intros ? [= <-] |]. intros data Hd _. cbn [from_abi abi_byte_array].
  destruct (Z.ltb_spec (len data) N); [done |].
  eapply rwp_mono; [apply slice_returns; lia | | done]. intros r Hr'. cbv beta in Hr'. lia.
Qed.

#[export] Instance abi_h256_decodes : ABIDecodes abi_h256 is_u256.
Proof.
  split; [by intros ? [= <-] |]. intros data Hd Hn. cbn [from_abi abi_h256]. apply rwp_bind.
  eapply rwp_mono; [by apply (ad_from (T := abi_byte_array 32)) | | done]. intros l Hl. by apply (be_to_Z_word _ 32).
Qed.

#[export] Instance abi_vec_decodes {A} (T : ABIVariable A) ok `{!ABIDecodes T ok} : ABIDecodes (abi_vec T) (Forall ok).
Proof.
  split; [done |]. intros data Hd _. cbn [from_abi abi_vec]. apply rwp_bind.
  eapply rwp_mono; [by apply pull_slice_returns | | done]. intros [bytes rest] [Hr _]. cbn [fst snd] in Hr. cbn beta iota.
  apply rwp_bind. eapply rwp_mono; [apply (read_items_returns T ok); lia | | done]. by intros [results p] [? _].
Qed.

#[export] Instance abi_array_decodes {A} (T : ABIVariable A) ok N `{!ABIDecodes T ok} :
  TCEq (0 <=? N) true -> ABIDecodes (abi_array T N) (fun l => Forall ok l /\ len l = N).
Proof.
  rewrite TCEq_eq, Z.leb_le. intros H0. split.
  - cbn. destruct (STATIC_LENGTH T) as [m |] eqn:Em; [| done]. intros n [= <-]. pose proof (ad_static m Em). nia.
  - intros data Hd _. cbn [from_abi abi_array]. apply rwp_bind.
    eapply rwp_mono; [by apply (read_items_returns T ok) | | done]. intros [results p] [Hok Hl]. cbn [fst snd] in *.
    assert (Hlen : len results = N) by (unfold len; lia). rewrite Hlen, Z.eqb_refl. by cbn [rwp].
Qed.

(** Fields of tuples and structs. *)
Class FieldsDecode {A} (F : ABIFields A) (ok : A -> Prop) : Prop := {
  fd_static : Forall (fun l => forall n, l = Some n -> 0 <= n) (field_lengths F);
  fd_read data pointer :
    len data < 2 ^ 64 -> len pointer < 2 ^ 64 ->
    rwp (read_fields F data pointer) (fun p => ok p.1) (fun _ => True);
}.

#[export] Instance no_fields_decode : FieldsDecode no_fields (fun _ => True).
Proof. by split. Qed.

#[export] Instance field_decode {A B} (T : ABIVariable A) okA (F : ABIFields B) okB :
  ABIDecodes T okA -> FieldsDecode F okB -> FieldsDecode (field T F) (fun p => okA p.1 /\ okB p.2).
Proof.
  intros HT HF. split; [constructor; [by apply ad_static | by apply fd_static] |].
  intros data pointer Hd Hp. cbn [read_fields field]. apply rwp_bind.
  eapply rwp_mono; [by apply (read_abi_list_returns T okA) | | done]. intros [a p] [Ha Hl]. cbn [fst snd] in *.
  apply rwp_bind. eapply rwp_mono; [eapply (fd_read (F := F)); [done |] | | done].
  - destruct (STATIC_LENGTH T) as [m |] eqn:Em; cbn in Hl; [pose proof (ad_static m Em) |]; lia.
  - intros [b q] Hb. by split.
Qed.

#[export] Instance abi_struct_decodes {A} (F : ABIFields A) ok : FieldsDecode F ok -> ABIDecodes (abi_struct F) ok.
Proof.
  intros HF. split.
  - cbn. intros n. pose proof (fd_static (F := F)) as Hs.
    assert (Hacc : forall m, 0 <= m -> foldl add_static_length (Some m) (field_lengths F) = Some n -> 0 <= n).
    { induction Hs as [| l ls Hl Hs IH]; intros m Hm; cbn; [by intros [= <-] |].
      destruct l as [k |]; cbn; [apply IH; specialize (Hl _ eq_refl); lia | by rewrite struct_dynamic]. }
    by apply Hacc.
  - intros data Hd _. cbn [from_abi abi_struct]. apply rwp_bind.
    eapply rwp_mono; [by apply (fd_read (F := F)) | | done]. by intros [a p] ?.
Qed.

Lemma abi_decode_returns {A} (T : ABIVariable A) ok `{!ABIDecodes T ok} data :
  len data < 2 ^ 64 -> rwp (abi_decode T data) ok (fun _ => True).
Proof.
  intros Hd. unfold abi_decode. apply rwp_bind. eapply rwp_mono; [by apply (read_abi_list_returns T ok) | | done].
  by intros [a p] [? _].
Qed.

Lemma abi_decode_tuple_returns {A} (F : ABIFields A) ok `{!FieldsDecode F ok} data :
  len data < 2 ^ 64 -> rwp (abi_decode_tuple F data) ok (fun _ => True).
Proof.
  intros Hd. unfold abi_decode_tuple. apply rwp_bind. eapply rwp_mono; [by apply (fd_read (F := F)) | | done].
  by intros [a p] ?.
Qed.
