(* ===== verification/Events.v ===== *)
(** * EVM logs as Move events

    src/aptos-move/ethereum-vm/src/events.rs: every EVM log becomes a Move event under the
    contract's account, numbered by a counter kept in the state per contract, with the topics and
    data encoded by the Solidity ABI; and back.

    Shown here: the conversion is invertible, and within one transaction the logs of a contract
    are numbered consecutively from the number read; but the counter is written in big-endian and
    read in little-endian order, so that numbers do not continue from one transaction to the
    next. *)

From stdpp Require Import gmap sorting.
From S2P Require Import Prelude Word Arith VmTypes FrameContext StateDb SolidityAbi.
Local Open Scope Z_scope.

Record LogEntryWithNonce : Set := mkLogEntryWithNonce { lwn_log : LogEntry; lwn_nonce : Z }.

(** [TypeTag], as far as events use it *)
Inductive TypeTag : Set := TagU8 | TagVector (element : TypeTag).

Record EventKey : Set := mkEventKey { creation_number : Z; account_address : list byte }.

Record ContractEvent : Set := mkContractEvent {
  event_key : EventKey;
  sequence_number : Z;
  event_type_tag : TypeTag;
  event_data : list byte;
}.

(** [LogEntryPayload]: the topics and the data *)
Abbreviation LogEntryPayload := (list Z * (list byte * unit))%type.

Definition payload_abi : ABIVariable LogEntryPayload :=
  abi_struct (field (abi_vec abi_h256) (field abi_bytes no_fields)).

(** [impl From<LogEntryWithNonce> for ContractEvent] *)
Definition event_of_log {E} (value : LogEntryWithNonce) : result E ContractEvent :=
  let log := lwn_log value in
  let account_address := eth_address_to_aptos_address (log_address log) in
  let event_key := mkEventKey 0 account_address in
  match abi_encode payload_abi (log_topics_of log, (log_data log, tt)) with
  | Ok payload => Ok (mkContractEvent event_key (lwn_nonce value) (TagVector TagU8) payload)
  | _ => Panic
  end.

(** [aptos_address_to_eth_address] *)
Definition aptos_address_to_eth_address {E} (aptos_address : list byte) : result E Z :=
  let? bytes := unwrap (slice aptos_address 0 20) in
  Ok (be_to_Z bytes).

(** [impl TryFrom<ContractEvent> for LogEntryWithNonce] *)
Definition log_of_event (value : ContractEvent) : abi_result LogEntryWithNonce :=
  let? '(topics, (data, _)) := abi_decode payload_abi (event_data value) in
  let? address := aptos_address_to_eth_address (account_address (event_key value)) in
  Ok (mkLogEntryWithNonce (mkLogEntry address topics data Ethereum) (sequence_number value)).

Fixpoint collect {E A B} (f : A -> result E B) (l : list A) : result E (list B) :=
  match l with
  | [] => Ok []
  | a :: l => let? b := f a in let? bs := collect f l in Ok (b :: bs)
  end.

Definition aptos_events_to_evm_events (events : list ContractEvent) : abi_result (list LogEntry) :=
  collect (fun e => let? l := log_of_event e in Ok (lwn_log l)) events.

Section numbering.
Context {T : Type} {ST : StorageTrait EvmStorageKey T}.

(** [u64::from_le_bytes] *)
Definition from_le_bytes (encoded : list byte) : Z := be_to_Z (rev encoded).

(** [copy_from_slice] panics unless there are 8 bytes. *)
Definition read_nonce (storage : T) (address : Z) : db_result Z :=
  let? o := storage_get storage (event_nonce_key address) in
  match o with
  | None => Ok 0
  | Some x => if len x =? 8 then Ok (from_le_bytes x) else Panic
  end.

Definition write_nonce (address nonce : Z) : M DbError T unit :=
  let encoded := to_be 8 nonce in
  storage_set (event_nonce_key address) encoded.

(** The closure mapped over the logs, with [nonce_map], the numbers to be used next. *)
Fixpoint number_logs (storage : T) (logs : list LogEntry) (nonce_map : gmap Z Z) :
    db_result (list LogEntryWithNonce * gmap Z Z) :=
  match logs with
  | [] => Ok ([], nonce_map)
  | log :: logs =>
      let address := log_address log in
      let? '(nonce, nonce_map) :=
        match nonce_map !! address with
        | None =>
            let? current_nonce := read_nonce storage address in
            let? next := checked_add 64 current_nonce 1 in
            Ok (current_nonce, <[address := next]> nonce_map)
        | Some nonce =>
            let? next := checked_add 64 nonce 1 in
            Ok (nonce, <[address := next]> nonce_map)
        end in
      let? '(rest, nonce_map) := number_logs storage logs nonce_map in
      Ok (mkLogEntryWithNonce log nonce :: rest, nonce_map)
  end.

Fixpoint write_nonces (nonces : list (Z * Z)) : M DbError T unit :=
  match nonces with
  | [] => ret tt
  | (address, nonce) :: nonces => write_nonce address nonce ;;; write_nonces nonces
  end.

(** The order of a [BTreeMap] *)
Definition by_address (a b : Z * Z) : Prop := a.1 <= b.1.

#[export] Instance by_address_dec : RelDecision by_address.
Proof. intros a b. unfold by_address. apply _. Defined.

Definition assign_event_nonce (logs : list LogEntry) : M DbError T (list LogEntryWithNonce) :=
  storage <~ get ;;
  p <~ lift (number_logs storage logs ∅) ;;
  write_nonces (merge_sort by_address (map_to_list p.2)) ;;;
  ret p.1.

Definition evm_events_to_aptos_events (events : list LogEntry) : M DbError T (list ContractEvent) :=
  numbered <~ assign_event_nonce events ;;
  lift (collect event_of_log numbered).
End numbering.

(** ** The conversion of one log *)

(** A log as the EVM makes it: 20 bytes of address, topics of 32 bytes, and a payload that fits in
    memory. *)
Record wf_log (log : LogEntry) : Prop := {
  wl_address : is_address (log_address log);
  wl_topics : Forall is_u256 (log_topics_of log);
  wl_topic_count : len (log_topics_of log) < 2 ^ 64;
  wl_data : len (log_data log) < 2 ^ 64;
  wl_payload : forall bytes,
    abi_encode payload_abi (log_topics_of log, (log_data log, tt)) = Ok bytes -> len bytes < 2 ^ 64;
}.

Lemma payload_roundtrip topics data :
  Forall is_u256 topics -> len topics < 2 ^ 64 -> len data < 2 ^ 64 ->
  exists bytes, abi_encode payload_abi (topics, (data, tt)) = Ok bytes /\
    (len bytes < 2 ^ 64 -> abi_decode payload_abi bytes = Ok (topics, (data, tt))).
Proof.
  intros Ht Hn Hd. unfold payload_abi.
  destruct (abi_value_roundtrip
              (abi_struct (field (abi_vec abi_h256) (field abi_bytes no_fields))) _ (topics, (data, tt)))
    as (bytes & Henc & Hdec); [done |].
  exists bytes. split; [done |]. intros Hs. specialize (Hdec []). rewrite app_nil_r in Hdec. auto.
Qed.

Lemma address_roundtrip {E} a :
  is_address a -> aptos_address_to_eth_address (E := E) (eth_address_to_aptos_address a) = Ok a.
Proof.
  intros Ha. unfold aptos_address_to_eth_address, eth_address_to_aptos_address.
  replace 20 with (len (address_bytes a)) by apply len_to_be.
  rewrite slice_app_l. cbn [unwrap result_bind]. unfold address_bytes.
  rewrite be_to_Z_to_be, Z.mod_small; [done | exact Ha].
Qed.

Lemma event_log_roundtrip {E} l :
  wf_log (lwn_log l) ->
  exists e, event_of_log (E := E) l = Ok e /\ log_of_event e = Ok l /\ sequence_number e = lwn_nonce l.
Proof.
  intros [Ha Ht Hn Hd Hp]. unfold event_of_log.
  destruct (payload_roundtrip _ _ Ht Hn Hd) as (bytes & Henc & Hdec). rewrite Henc.
  eexists; split; [reflexivity |]. split; [| done]. unfold log_of_event.
  cbn [event_data event_key account_address sequence_number].
  rewrite Hdec by by apply Hp. cbn [result_bind]. rewrite address_roundtrip by done. cbn [result_bind].
  by destruct l as [[? ? ? []] ?].
Qed.

Lemma collect_roundtrip {E} ls :
  Forall (fun l => wf_log (lwn_log l)) ls ->
  exists es, collect (event_of_log (E := E)) ls = Ok es /\
    aptos_events_to_evm_events es = Ok (lwn_log <$> ls) /\ sequence_number <$> es = lwn_nonce <$> ls.
Proof.
  induction 1 as [| l ls Hl _ (es & Hes & Hback & Hnum)]; [by exists [] |].
  destruct (event_log_roundtrip (E := E) l Hl) as (e & He & Hlog & Hseq).
  exists (e :: es). cbn [collect]. rewrite He, Hes. split; [done |].
  unfold aptos_events_to_evm_events in *. cbn [collect]. rewrite Hlog. cbn [result_bind]. rewrite Hback.
  split; [done |]. rewrite !fmap_cons, Hseq, Hnum. done.
Qed.

(** ** The numbers *)

(** How many of the logs are of a contract. *)
Definition logs_of (a : Z) (logs : list LogEntry) : Z :=
  len (filter (fun l => log_address l = a) logs).

Section numbers.
Context {T : Type} {ST : StorageTrait EvmStorageKey T}.

(** The number the next log of a contract gets. *)
Definition next_number (storage : T) (nonce_map : gmap Z Z) (a : Z) : db_result Z :=
  match nonce_map !! a with Some n => Ok n | None => read_nonce storage a end.

Lemma logs_of_cons a log logs :
  logs_of a (log :: logs) = (if decide (log_address log = a) then 1 else 0) + logs_of a logs.
Proof. unfold logs_of. rewrite list.filter_cons. case_decide; rewrite ?len_cons; lia. Qed.

Lemma logs_of_nil a : logs_of a [] = 0.
Proof. done. Qed.

Lemma logs_of_nonneg a logs : 0 <= logs_of a logs.
Proof. apply len_nonneg. Qed.

Lemma number_logs_spec storage logs m :
  (forall log, log ∈ logs -> exists n, next_number storage m (log_address log) = Ok n /\
     n + logs_of (log_address log) logs < 2 ^ 64) ->
  exists rs m', number_logs storage logs m = Ok (rs, m') /\ lwn_log <$> rs = logs /\
    (forall i r, rs !! i = Some r ->
       exists n, next_number storage m (log_address (lwn_log r)) = Ok n /\
         lwn_nonce r = n + logs_of (log_address (lwn_log r)) (take i logs)) /\
    (forall a, m' !! a = if decide (0 < logs_of a logs)
       then match next_number storage m a with Ok n => Some (n + logs_of a logs) | _ => None end
       else m !! a).
Proof.
  revert m. induction logs as [| log logs IH]; intros m Hn.
  - exists [], m. do 3 (split; [done |]). intros a. by rewrite decide_False by (cbv; done).
  - destruct (Hn log) as (n & Hlog & Hbound); [apply elem_of_cons; by left |].
    set (a := log_address log) in *. set (m1 := <[a := n + 1]> m).
    rewrite logs_of_cons, decide_True in Hbound by done. pose proof (logs_of_nonneg a logs).
    assert (forall b, next_number storage m1 b = if decide (b = a) then Ok (n + 1) else next_number storage m b)
      as Hm1.
    { intros b. unfold next_number, m1. case_decide as Hb; [subst b; by rewrite lookup_insert_eq |].
      by rewrite lookup_insert_ne. }
    destruct (IH m1) as (rs & m' & Hrs & Hlogs & Hnums & Hm').
    { intros l Hl. destruct (Hn l) as (k & Hk & Hkb); [apply elem_of_cons; by right |].
      rewrite logs_of_cons in Hkb. rewrite Hm1. fold a in Hkb.
      destruct (decide (log_address l = a)) as [Hla | Hla].
      - rewrite Hla in *. rewrite decide_True in Hkb by done.
        exists (n + 1). split; [done |]. rewrite Hlog in Hk. injection Hk as <-. lia.
      - exists k. split; [done |]. destruct (decide _); lia. }
    exists (mkLogEntryWithNonce log n :: rs), m'. split; [| split; [| split]].
    + cbn [number_logs]. fold a. unfold next_number in Hlog.
      assert (checked_add (E := DbError) 64 n 1 = Ok (n + 1)) as Hadd
        by (unfold checked_add; case_if; [done | lia]).
      destruct (m !! a) as [k |]; [injection Hlog as -> | rewrite Hlog; cbn [result_bind]];
        rewrite Hadd; cbn [result_bind]; fold m1; by rewrite Hrs.
    + rewrite fmap_cons, Hlogs. done.
    + intros [| i] r; cbn [lookup list_lookup take];
        [intros [= <-]; exists n; split; [done |]; rewrite logs_of_nil; cbn; lia |].
      intros Hr. destruct (Hnums i r Hr) as (k & Hk & Hnum). rewrite Hm1 in Hk.
      rewrite logs_of_cons. fold a.
      destruct (decide (log_address (lwn_log r) = a)) as [Ha | Ha].
      * injection Hk as <-. rewrite Ha in *. rewrite decide_True by done.
        exists n. split; [done | lia].
      * rewrite decide_False by done. exists k. split; [done | lia].
    + intros b. rewrite Hm', Hm1, logs_of_cons. fold a. pose proof (logs_of_nonneg b logs).
      destruct (decide (b = a)) as [-> | Hb].
      * rewrite (decide_True (P := a = a)) by done. rewrite Hlog.
        rewrite (decide_True (P := 0 < 1 + _)) by lia.
        case_decide; [f_equal; lia |]. unfold m1. rewrite lookup_insert_eq. f_equal. lia.
      * rewrite (decide_False (P := a = b)) by done. rewrite Z.add_0_l.
        case_decide; [done |]. unfold m1. by rewrite lookup_insert_ne.
Qed.

Context (valid : EvmStorageKey -> Prop) `{!StorageLaws EvmStorageKey T valid}.
Hypothesis (Hvalid : forall a, is_address a -> valid (event_nonce_key a)).

Lemma len_8_be n : (len (to_be 8 n) =? 8) = true.
Proof. by rewrite len_to_be. Qed.

(** A counter written in big-endian order is read in little-endian order. *)
Lemma read_write_nonce (s : T) a n b :
  is_address a -> is_address b ->
  (write_nonce a n s).1 = Ok tt /\
  read_nonce (write_nonce a n s).2 b =
    if decide (a = b) then Ok (from_le_bytes (to_be 8 n)) else read_nonce s b.
Proof.
  intros Ha Hb. split; [apply storage_set_ok |]. unfold read_nonce, write_nonce.
  rewrite storage_get_set by auto. destruct (decide (a = b)) as [-> | Hab].
  - rewrite decide_True by done. cbn [result_bind]. by rewrite len_8_be.
  - rewrite decide_False by (unfold event_nonce_key; congruence). done.
Qed.

Lemma write_nonces_spec l (s : T) :
  NoDup l.*1 -> Forall (fun an => is_address an.1) l ->
  (write_nonces l s).1 = Ok tt /\
  forall b, is_address b -> read_nonce (write_nonces l s).2 b =
    match (list_to_map l : gmap Z Z) !! b with
    | Some n => Ok (from_le_bytes (to_be 8 n))
    | None => read_nonce s b
    end.
Proof.
  revert s. induction l as [| [a n] l IH]; intros s Hnd Ha; [done |].
  apply list.NoDup_cons in Hnd as [Hin Hnd]. apply list.Forall_cons in Ha as [Ha Hl].
  cbn [write_nonces]. unfold bind.
  destruct (read_write_nonce s a n a Ha Ha) as [Hok _]. cbn [fst] in *.
  pose proof (fun b Hb => proj2 (read_write_nonce s a n b Ha Hb)) as Hread.
  destruct (write_nonce a n s) as [r s1]. cbn [fst snd] in *. subst r.
  destruct (IH s1 Hnd Hl) as [Hok1 Hread1]. split; [done |]. intros b Hb.
  rewrite Hread1, Hread, list_to_map_cons by done. destruct (decide (a = b)) as [-> | Hab].
  - rewrite lookup_insert_eq. by rewrite not_elem_of_list_to_map_1.
  - by rewrite lookup_insert_ne.
Qed.

(** A transaction's logs, numbered, and the counters left behind. *)
Lemma assign_spec (storage : T) logs :
  Forall wf_log logs ->
  (forall log, log ∈ logs -> exists n, read_nonce storage (log_address log) = Ok n /\
     n + logs_of (log_address log) logs < 2 ^ 64) ->
  exists rs storage', assign_event_nonce logs storage = (Ok rs, storage') /\ lwn_log <$> rs = logs /\
    (forall i r, rs !! i = Some r ->
       exists n, read_nonce storage (log_address (lwn_log r)) = Ok n /\
         lwn_nonce r = n + logs_of (log_address (lwn_log r)) (take i logs)) /\
    (forall log n, log ∈ logs -> read_nonce storage (log_address log) = Ok n ->
       read_nonce storage' (log_address log) =
         Ok (from_le_bytes (to_be 8 (n + logs_of (log_address log) logs)))).
Proof.
  intros Hwf Hn. destruct (number_logs_spec storage logs ∅) as (rs & m & Hrs & Hlogs & Hnums & Hm).
  { intros log Hlog. unfold next_number. rewrite lookup_empty. auto. }
  assert (forall log, log ∈ logs -> 0 < logs_of (log_address log) logs) as Hpos.
  { intros log Hlog. unfold logs_of. destruct (filter _ logs) as [| x l] eqn:E;
      [| rewrite len_cons; pose proof (len_nonneg l); lia].
    assert (log ∈ filter (fun l => log_address l = log_address log) logs) as Hf
      by by apply list_elem_of_filter. rewrite E in Hf. by apply elem_of_nil in Hf. }
  set (l := merge_sort by_address (map_to_list m)).
  assert (l ≡ₚ map_to_list m) as Hperm by apply merge_sort_Permutation.
  assert ((list_to_map l : gmap Z Z) = m) as Hmap.
  { rewrite <- (list_to_map_to_list m). apply list_to_map_proper; [| done].
    rewrite Hperm. apply NoDup_fst_map_to_list. }
  destruct (write_nonces_spec l storage) as [Hok Hread].
  { rewrite Hperm. apply NoDup_fst_map_to_list. }
  { apply list.Forall_forall. intros [a n] Han. rewrite Hperm, elem_of_map_to_list, Hm in Han.
    cbn. destruct (decide (0 < logs_of a logs)) as [Hc |]; [| done].
    unfold logs_of in Hc. destruct (filter _ logs) as [| x xs] eqn:E; [by cbv in Hc |].
    assert (x ∈ filter (fun l => log_address l = a) logs) as Hx by (rewrite E; apply elem_of_cons; by left).
    apply list_elem_of_filter in Hx as [<- Hx].
    rewrite list.Forall_forall in Hwf. by apply wl_address, Hwf. }
  exists rs, (write_nonces l storage).2. unfold assign_event_nonce, bind, get, lift. rewrite Hrs. cbn [snd fst].
  fold l. destruct (write_nonces l storage) as [r storage'] eqn:Hw. cbn [fst snd] in *. subst r.
  split; [done |]. split; [done |]. split; [exact Hnums |].
  intros log n Hlog Hrd. rewrite list.Forall_forall in Hwf.
  rewrite Hread by by apply wl_address, Hwf. rewrite Hmap, Hm, decide_True by auto.
  unfold next_number. rewrite lookup_empty, Hrd. done.
Qed.
End numbers.

(** C27. Logs become events and back: if the counters of the contracts can be read and do not run
    over, converting the logs of a transaction succeeds, converting the events back gives the
    logs, and the events of each contract are numbered consecutively, in the order of its logs,
    from the number read for the contract. *)
Theorem events_roundtrip {T} {ST : StorageTrait EvmStorageKey T} (valid : EvmStorageKey -> Prop)
    `{!StorageLaws EvmStorageKey T valid} (storage : T) (logs : list LogEntry) :
  (forall a, is_address a -> valid (event_nonce_key a)) ->
  Forall wf_log logs ->
  (forall log, log ∈ logs -> exists n, read_nonce storage (log_address log) = Ok n /\
     n + logs_of (log_address log) logs < 2 ^ 64) ->
  exists events storage', evm_events_to_aptos_events logs storage = (Ok events, storage') /\
    aptos_events_to_evm_events events = Ok logs /\
    forall i log e, logs !! i = Some log -> events !! i = Some e ->
      exists n, read_nonce storage (log_address log) = Ok n /\
        sequence_number e = n + logs_of (log_address log) (take i logs).
Proof.
  intros Hv Hwf Hn. destruct (assign_spec valid Hv storage logs Hwf Hn) as (rs & st & Hrs & Hlogs & Hnums & _).
  destruct (collect_roundtrip (E := DbError) rs) as (es & Hes & Hback & Hseq).
  { rewrite <- Hlogs in Hwf. by apply (proj1 (list.Forall_fmap _ _ _)) in Hwf. }
  exists es, st. unfold evm_events_to_aptos_events, bind, lift. rewrite Hrs, Hes, Hback, Hlogs.
  do 2 (split; [done |]). intros i log e Hi He.
  assert (exists r, rs !! i = Some r /\ lwn_log r = log) as (r & Hr & <-).
  { rewrite <- Hlogs, list_lookup_fmap in Hi. destruct (rs !! i); [| done]. naive_solver. }
  destruct (Hnums i r Hr) as (n & Hrd & Hnum). exists n. split; [done |].
  apply (f_equal (.!! i)) in Hseq. rewrite !list_lookup_fmap, He, Hr in Hseq.
  cbn in Hseq. congruence.
Qed.

(** C28. The event counter does not survive a transaction: it is written in big-endian and read in
    little-endian order, so a contract that never emitted an event numbers its first one 0 and
    the one of the next transaction 2^56. *)
Theorem event_numbers_jump {T} {ST : StorageTrait EvmStorageKey T} (valid : EvmStorageKey -> Prop)
    `{!StorageLaws EvmStorageKey T valid} (storage : T) (log : LogEntry) :
  (forall a, is_address a -> valid (event_nonce_key a)) ->
  wf_log log -> storage_get storage (event_nonce_key (log_address log)) = Ok None ->
  exists e storage1 e' storage2,
    evm_events_to_aptos_events [log] storage = (Ok [e], storage1) /\ sequence_number e = 0 /\
    evm_events_to_aptos_events [log] storage1 = (Ok [e'], storage2) /\ sequence_number e' = 2 ^ 56.
Proof.
  intros Hv Hwf Hnone.
  assert (logs_of (log_address log) [log] = 1) as Hone
    by (rewrite logs_of_cons, decide_True by done; done).
  assert (forall st n, read_nonce st (log_address log) = Ok n -> n < 2 ^ 57 ->
    exists e st', evm_events_to_aptos_events [log] st = (Ok [e], st') /\ sequence_number e = n /\
      read_nonce st' (log_address log) = Ok (from_le_bytes (to_be 8 (n + 1)))) as Hstep.
  { intros st n Hrd Hb.
    destruct (assign_spec valid Hv st [log]) as (rs & st' & Hrs & Hlogs & Hnums & Hafter).
    { by constructor. }
    { intros l ->%list_elem_of_singleton. exists n. rewrite Hone. split; [done | lia]. }
    destruct rs as [| r [|]]; [done | | done]. injection Hlogs as Hl.
    destruct (Hnums O r eq_refl) as (k & Hk & Hnum). rewrite Hl, Hrd in Hk. injection Hk as <-.
    destruct (event_log_roundtrip (E := DbError) r) as (e & He & _ & Hseq); [by rewrite Hl |].
    exists e, st'. unfold evm_events_to_aptos_events, bind, lift. rewrite Hrs. cbn [collect]. rewrite He.
    split; [done |]. split; [cbn [take] in Hnum; rewrite Hseq, Hnum, logs_of_nil; lia |].
    specialize (Hafter log n ltac:(by apply list_elem_of_singleton) Hrd). by rewrite Hone in Hafter. }
  destruct (Hstep storage 0) as (e & s1 & He & Hseq & Hrd); [unfold read_nonce; by rewrite Hnone | lia |].
  replace (from_le_bytes (to_be 8 (0 + 1))) with (2 ^ 56) in Hrd by by vm_compute.
  destruct (Hstep s1 (2 ^ 56) Hrd) as (e' & s2 & He' & Hseq' & _); [lia |].
  by exists e, s1, e', s2.
Qed.

(** A log, and a store in which nothing is kept. *)
Definition sample_log : LogEntry := mkLogEntry 5 [7; 9] [x01; x02]%byte Ethereum.

Lemma sample_log_wf : wf_log sample_log.
Proof.
  split; cbn -[abi_encode]; try (repeat constructor; cbn; lia).
  intros bytes Henc. vm_compute in Henc. injection Henc as <-. by vm_compute.
Qed.

#[local] Existing Instance sample_bcs_path.

Lemma events_roundtrip_witness :
  exists events storage',
    evm_events_to_aptos_events [sample_log; sample_log] (overlay (E := unit) ∅ ∅) = (Ok events, storage') /\
    aptos_events_to_evm_events events = Ok [sample_log; sample_log].
Proof.
  destruct (events_roundtrip (fun _ => True) (overlay (E := unit) ∅ ∅) [sample_log; sample_log])
    as (events & storage' & H1 & H2 & _).
  - done.
  - repeat constructor; apply sample_log_wf.
  - intros log Hlog. exists 0. assert (log = sample_log) as -> by set_solver. by vm_compute.
  - by exists events, storage'.
Defined.

Lemma event_numbers_jump_witness :
  exists e storage1 e' storage2,
    evm_events_to_aptos_events [sample_log] (overlay (E := unit) ∅ ∅) = (Ok [e], storage1) /\
    sequence_number e = 0 /\
    evm_events_to_aptos_events [sample_log] storage1 = (Ok [e'], storage2) /\ sequence_number e' = 2 ^ 56.
Proof.
  apply (event_numbers_jump (fun _ => True) (overlay (E := unit) ∅ ∅) sample_log).
  - done.
  - apply sample_log_wf.
  - by vm_compute.
Defined.
