(* ===== verification/WorldState.v ===== *)
(** * The world state

    src/cfx-evm/src/state/mod.rs and account_entry.rs: the accounts of the EVM as a cache of
    entries over the state database, with checkpoints that remember, for every account changed
    since they were made, the entry it had before; and the commit of the cache.

    [State] is the record of that name. Its methods take [&self] and mutate the cache behind a
    lock, or [&mut self]: all are computations over it. A guard returned by [require_or_set] is
    the entry it guards, changed by [with_account]. The write cache of an account is copied on
    write, a value. The read cache is shared by an entry and its copies in checkpoints; it only
    holds values of a database that does not change before the commit, so each copy has one of
    its own here. The Move VM handle of [State] belongs to cross-space calls and is left out. *)

From stdpp Require Import gmap sorting.
From S2P Require Import Prelude Word Arith SharedCache VmTypes FrameContext StateDb.
Local Open Scope Z_scope.

Inductive RequireCache : Set := RequireNone | RequireCode.

(** ** [OverlayAccount] *)

Record OverlayAccount : Type := mkOverlayAccount {
  oa_address : Z;
  oa_balance : Z;
  oa_nonce : Z;
  storage_value_read_cache : gmap (list byte) Z;
  storage_value_write_cache : gmap (list byte) Z;
  storage_layout_change : option StorageLayout;
  oa_code_hash : Z;
  oa_code : option CodeInfo;
  is_newly_created_contract : bool;
  invalidated_storage : bool;
}.

Definition from_loaded (address : Z) (account : Account) : OverlayAccount := {|
  oa_address := address;
  oa_balance := acc_balance account;
  oa_nonce := acc_nonce account;
  storage_value_read_cache := ∅;
  storage_value_write_cache := ∅;
  storage_layout_change := None;
  oa_code_hash := acc_code_hash account;
  oa_code := None;
  is_newly_created_contract := false;
  invalidated_storage := false;
|}.

Definition new_basic (address balance nonce : Z) : OverlayAccount := {|
  oa_address := address;
  oa_balance := balance;
  oa_nonce := nonce;
  storage_value_read_cache := ∅;
  storage_value_write_cache := ∅;
  storage_layout_change := None;
  oa_code_hash := KECCAK_EMPTY;
  oa_code := None;
  is_newly_created_contract := false;
  invalidated_storage := false;
|}.

Definition new_removed (address : Z) : OverlayAccount := {|
  oa_address := address;
  oa_balance := 0;
  oa_nonce := 0;
  storage_value_read_cache := ∅;
  storage_value_write_cache := ∅;
  storage_layout_change := None;
  oa_code_hash := KECCAK_EMPTY;
  oa_code := None;
  is_newly_created_contract := false;
  invalidated_storage := true;
|}.

Definition oa_new_contract (address balance nonce : Z) (invalidated_storage : bool)
    (storage_layout : option StorageLayout) : OverlayAccount := {|
  oa_address := address;
  oa_balance := balance;
  oa_nonce := nonce;
  storage_value_read_cache := ∅;
  storage_value_write_cache := ∅;
  storage_layout_change := storage_layout;
  oa_code_hash := KECCAK_EMPTY;
  oa_code := None;
  is_newly_created_contract := true;
  invalidated_storage := invalidated_storage;
|}.

Definition as_account (self : OverlayAccount) : Account :=
  mkAccount (oa_address self) (oa_balance self) (oa_nonce self) (oa_code_hash self).

(** [is_builtin_address]: the high four bits of the first of the 20 bytes are zero, and the
    address is not. *)
Definition is_builtin_address (address : Z) : bool :=
  (Z.land (Z.shiftr address 152) 0xF0 =? 0) && negb (address =? 0).

Definition fresh_storage (self : OverlayAccount) : bool :=
  let builtin_address := is_builtin_address (oa_address self) in
  (is_newly_created_contract self && negb builtin_address) || invalidated_storage self.

Definition removed_without_update (self : OverlayAccount) : bool :=
  invalidated_storage self && is_default (as_account self).

Definition is_code_loaded (self : OverlayAccount) : bool :=
  bool_decide (is_Some (oa_code self)) || (oa_code_hash self =? KECCAK_EMPTY).

Definition is_null (self : OverlayAccount) : bool :=
  (oa_balance self =? 0) && (oa_nonce self =? 0) && (oa_code_hash self =? KECCAK_EMPTY).

Definition set_balance_of (balance : Z) (self : OverlayAccount) : OverlayAccount :=
  mkOverlayAccount (oa_address self) balance (oa_nonce self) (storage_value_read_cache self)
    (storage_value_write_cache self) (storage_layout_change self) (oa_code_hash self) (oa_code self)
    (is_newly_created_contract self) (invalidated_storage self).

Definition oa_set_nonce (nonce : Z) (self : OverlayAccount) : OverlayAccount :=
  mkOverlayAccount (oa_address self) (oa_balance self) nonce (storage_value_read_cache self)
    (storage_value_write_cache self) (storage_layout_change self) (oa_code_hash self) (oa_code self)
    (is_newly_created_contract self) (invalidated_storage self).

Definition set_caches (read_cache write_cache : gmap (list byte) Z) (self : OverlayAccount) :
    OverlayAccount :=
  mkOverlayAccount (oa_address self) (oa_balance self) (oa_nonce self) read_cache write_cache
    (storage_layout_change self) (oa_code_hash self) (oa_code self)
    (is_newly_created_contract self) (invalidated_storage self).

Definition set_code_of (code_hash : Z) (code : option CodeInfo) (self : OverlayAccount) :
    OverlayAccount :=
  mkOverlayAccount (oa_address self) (oa_balance self) (oa_nonce self)
    (storage_value_read_cache self) (storage_value_write_cache self) (storage_layout_change self)
    code_hash code (is_newly_created_contract self) (invalidated_storage self).

(** The operators of [U256] panic on overflow. *)
Definition oa_inc_nonce (self : OverlayAccount) : db_result OverlayAccount :=
  let? n := checked_add 256 (oa_nonce self) 1 in
  Ok (oa_set_nonce n self).

Definition oa_add_balance (by_ : Z) (self : OverlayAccount) : db_result OverlayAccount :=
  let? b := checked_add 256 (oa_balance self) by_ in
  Ok (set_balance_of b self).

Definition oa_sub_balance (by_ : Z) (self : OverlayAccount) : db_result OverlayAccount :=
  if by_ <=? oa_balance self
  then Ok (set_balance_of (oa_balance self - by_) self) else Panic.

Definition oa_set_storage (key : list byte) (value : Z) (self : OverlayAccount) : OverlayAccount :=
  set_caches (storage_value_read_cache self) (<[key := value]> (storage_value_write_cache self)) self.

Definition clone_basic (self : OverlayAccount) : OverlayAccount := {|
  oa_address := oa_address self;
  oa_balance := oa_balance self;
  oa_nonce := oa_nonce self;
  storage_value_read_cache := ∅;
  storage_value_write_cache := ∅;
  storage_layout_change := None;
  oa_code_hash := oa_code_hash self;
  oa_code := oa_code self;
  is_newly_created_contract := is_newly_created_contract self;
  invalidated_storage := invalidated_storage self;
|}.

Definition oa_clone_dirty (self : OverlayAccount) : OverlayAccount :=
  let account := clone_basic self in
  mkOverlayAccount (oa_address account) (oa_balance account) (oa_nonce account)
    (storage_value_read_cache self) (storage_value_write_cache self) (storage_layout_change self)
    (oa_code_hash account) (oa_code account) (is_newly_created_contract account)
    (invalidated_storage account).

Definition cached_storage_at (self : OverlayAccount) (key : list byte) : option Z :=
  match storage_value_write_cache self !! key with
  | Some value => Some value
  | None => storage_value_read_cache self !! key
  end.

(** Everything but the address is taken over. *)
Definition oa_overwrite_with (self other : OverlayAccount) : OverlayAccount :=
  mkOverlayAccount (oa_address self) (oa_balance other) (oa_nonce other)
    (storage_value_read_cache other) (storage_value_write_cache other) (storage_layout_change other)
    (oa_code_hash other) (oa_code other) (is_newly_created_contract other) (invalidated_storage other).

(** ** [AccountEntry] *)

Inductive AccountState : Set := CleanFresh | CleanCached | Dirty | Committed.

#[export] Instance AccountState_eq_dec : EqDecision AccountState.
Proof. solve_decision. Defined.

Record AccountEntry : Type := mkAccountEntry {
  ae_account : option OverlayAccount;
  old_balance : option Z;
  ae_state : AccountState;
}.

Definition is_dirty (self : AccountEntry) : bool := bool_decide (ae_state self = Dirty).

Definition ae_overwrite_with (self other : AccountEntry) : AccountEntry :=
  let account :=
    match ae_account other with
    | Some acc =>
        match ae_account self with
        | Some ours => Some (oa_overwrite_with ours acc)
        | None => Some acc
        end
    | None => None
    end in
  mkAccountEntry account (old_balance self) (ae_state other).

Definition ae_clone_dirty (self : AccountEntry) : AccountEntry :=
  mkAccountEntry (oa_clone_dirty <$> ae_account self) (old_balance self) (ae_state self).

Definition new_dirty (account : option OverlayAccount) : AccountEntry :=
  mkAccountEntry account (oa_balance <$> account) Dirty.

Definition new_clean (account : option OverlayAccount) : AccountEntry :=
  mkAccountEntry account (oa_balance <$> account) CleanFresh.

Definition with_state (state : AccountState) (self : AccountEntry) : AccountEntry :=
  mkAccountEntry (ae_account self) (old_balance self) state.

Definition with_entry_account (account : option OverlayAccount) (self : AccountEntry) : AccountEntry :=
  mkAccountEntry account (old_balance self) (ae_state self).

(** ** [State] *)

Abbreviation Cache := (gmap Z AccountEntry).
Abbreviation Checkpoint := (gmap Z (option AccountEntry)).

(** [WorldStatistics] is the number of tokens issued. The checkpoints are lists with the last one
    first. [accounts_to_notify] holds accounts, or the addresses of removed ones. *)
Record State (T : Type) : Type := mkState {
  st_db : T;
  accounts_to_notify : list (Account + Z);
  st_cache : Cache;
  world_statistics : Z;
  world_statistics_checkpoints : list Z;
  checkpoints : list Checkpoint;
}.
Arguments mkState {T} _ _ _ _ _ _.
Arguments st_db {T} _.
Arguments accounts_to_notify {T} _.
Arguments st_cache {T} _.
Arguments world_statistics {T} _.
Arguments world_statistics_checkpoints {T} _.
Arguments checkpoints {T} _.

Section state.
Context (keccak : list byte -> Z) `{Rlp} {T : Type} {ST : StorageTrait OwnedStateKey T}.

Definition State_new (db : T) : db_result (State T) :=
  let? total_issued_tokens := get_total_issued_tokens db in
  Ok (mkState db [] ∅ total_issued_tokens [] []).

Definition set_cache (cache : Cache) (self : State T) : State T :=
  mkState (st_db self) (accounts_to_notify self) cache (world_statistics self)
    (world_statistics_checkpoints self) (checkpoints self).

Definition set_checkpoints (cps : list Checkpoint) (self : State T) : State T :=
  mkState (st_db self) (accounts_to_notify self) (st_cache self) (world_statistics self)
    (world_statistics_checkpoints self) cps.

Definition set_db (db : T) (self : State T) : State T :=
  mkState db (accounts_to_notify self) (st_cache self) (world_statistics self)
    (world_statistics_checkpoints self) (checkpoints self).

(** A change of the database by a [State] method *)
Definition on_db {A} (m : M DbError T A) : M DbError (State T) A := fun self =>
  let '(r, db) := m (st_db self) in (r, set_db db self).

(** *** Storage and code of an account *)

Definition get_and_cache_storage (db : T) (address : Z) (key : list byte)
    (read_cache : gmap (list byte) Z) : db_result (Z * gmap (list byte) Z) :=
  let? o := db_get (A := StorageValue) db (StorageKey address key) in
  match o with
  | Some value => Ok (sv_value value, <[key := sv_value value]> read_cache)
  | None => Ok (0, <[key := 0]> read_cache)
  end.

(** The value, and the account with its read cache filled. *)
Definition oa_storage_at (self : OverlayAccount) (db : T) (key : list byte) :
    db_result (Z * OverlayAccount) :=
  match cached_storage_at self key with
  | Some value => Ok (value, self)
  | None =>
      if fresh_storage self then Ok (0, self)
      else
        let? '(value, read_cache) :=
          get_and_cache_storage db (oa_address self) key (storage_value_read_cache self) in
        Ok (value, set_caches read_cache (storage_value_write_cache self) self)
  end.

Definition cache_code (db : T) (self : OverlayAccount) : db_result (bool * OverlayAccount) :=
  if is_code_loaded self then Ok (true, self)
  else
    let? code := get_code db (oa_address self) (oa_code_hash self) in
    Ok (bool_decide (is_Some code), set_code_of (oa_code_hash self) code self).

Definition oa_init_code (code : list byte) (self : OverlayAccount) : OverlayAccount :=
  set_code_of (keccak code) (Some (mkCodeInfo code)) self.

Definition needs_update (require : RequireCache) (account : OverlayAccount) : bool :=
  match require with
  | RequireNone => false
  | RequireCode => negb (is_code_loaded account)
  end.

Definition update_account_cache (require : RequireCache) (account : OverlayAccount) (db : T) :
    db_result (bool * OverlayAccount) :=
  match require with
  | RequireNone => Ok (true, account)
  | RequireCode => cache_code db account
  end.

(** *** The cache *)

Definition insert_if_vacant {A} (k : Z) (v : A) (m : gmap Z A) : gmap Z A :=
  match m !! k with Some _ => m | None => <[k := v]> m end.

(** Records the value an account had in the last checkpoint, unless it has one recorded. *)
Definition save_in_checkpoint (address : Z) (old_value : option AccountEntry)
    (cps : list Checkpoint) : list Checkpoint :=
  match cps with
  | [] => []
  | checkpoint :: cps => insert_if_vacant address old_value checkpoint :: cps
  end.

Definition update_cache (address : Z) (account : AccountEntry) (self : State T) : State T :=
  let is_dirty := is_dirty account in
  let old_value := st_cache self !! address in
  let self := set_cache (<[address := account]> (st_cache self)) self in
  if is_dirty then set_checkpoints (save_in_checkpoint address old_value (checkpoints self)) self
  else self.

Definition insert_cache_if_fresh_account (address : Z) (maybe_account : option OverlayAccount)
    (self : State T) : State T :=
  match st_cache self !! address with
  | None => set_cache (<[address := new_clean maybe_account]> (st_cache self)) self
  | Some _ => self
  end.

Definition load_account (db : T) (address : Z) : db_result (option OverlayAccount) :=
  let? o := get_account db address in
  Ok (from_loaded address <$> o).

(** The end of [ensure_account_loaded], for an account that is in the cache. *)
Definition update_cached {U} (address : Z) (require : RequireCache)
    (f : option OverlayAccount -> U) : M DbError (State T) U :=
  self <~ get ;;
  account <~ lift (unwrap (st_cache self !! address)) ;;
  match ae_account account with
  | Some maybe_acc =>
      p <~ lift (update_account_cache require maybe_acc (st_db self)) ;;
      modify (set_cache (<[address := with_entry_account (Some p.2) account]> (st_cache self))) ;;;
      if negb p.1 then throw (IncompleteDatabase (oa_address maybe_acc)) else ret tt
  | None => ret tt
  end ;;;
  self <~ get ;;
  ret (f (st_cache self !! address ≫= ae_account)).

Definition ensure_account_loaded {U} (address : Z) (require : RequireCache)
    (f : option OverlayAccount -> U) : M DbError (State T) U :=
  self <~ get ;;
  let cached :=
    match st_cache self !! address with
    | Some maybe_acc =>
        match ae_account maybe_acc with
        | Some account => if negb (needs_update require account) then Some (f (Some account)) else None
        | None => Some (f None)
        end
    | None => None
    end in
  match cached with
  | Some u => ret u
  | None =>
      match st_cache self !! address with
      | Some _ => ret tt
      | None =>
          maybe_loaded_acc <~ lift (load_account (st_db self) address) ;;
          maybe_loaded_acc <~
            match maybe_loaded_acc with
            | Some account =>
                p <~ lift (update_account_cache require account (st_db self)) ;;
                ret (Some p.2)
            | None => ret None
            end ;;
          modify (insert_cache_if_fresh_account address maybe_loaded_acc)
      end ;;;
      update_cached address require f
  end.

Definition require_or_set (address : Z) (require_code : bool)
    (default : Z -> db_result OverlayAccount) : M DbError (State T) unit :=
  self <~ get ;;
  match st_cache self !! address with
  | None =>
      account <~ lift (load_account (st_db self) address) ;;
      modify (insert_cache_if_fresh_account address account)
  | Some _ => ret tt
  end ;;;
  self <~ get ;;
  modify (set_checkpoints
    (save_in_checkpoint address (ae_clone_dirty <$> st_cache self !! address) (checkpoints self))) ;;;
  entry <~ lift (unwrap (st_cache self !! address)) ;;
  let entry := with_state Dirty entry in
  modify (fun self => set_cache (<[address := entry]> (st_cache self)) self) ;;;
  account <~
    match ae_account entry with
    | Some account => ret account
    | None =>
        account <~ lift (default address) ;;
        modify (fun self =>
          set_cache (<[address := with_entry_account (Some account) entry]> (st_cache self)) self) ;;;
        ret account
    end ;;
  if require_code then
    p <~ lift (update_account_cache RequireCode account (st_db self)) ;;
    modify (fun self =>
      set_cache (<[address := with_entry_account (Some p.2) entry]> (st_cache self)) self) ;;;
    if negb p.1 then throw (IncompleteDatabase address) else ret tt
  else ret tt.

(** A change made through the guard of an entry. *)
Definition with_account (address : Z) (f : OverlayAccount -> db_result OverlayAccount) :
    M DbError (State T) unit :=
  self <~ get ;;
  entry <~ lift (unwrap (st_cache self !! address)) ;;
  account <~ lift (unwrap (ae_account entry)) ;;
  account <~ lift (f account) ;;
  modify (set_cache (<[address := with_entry_account (Some account) entry]> (st_cache self))).

Definition require_exists (address : Z) (require_code : bool) : M DbError (State T) unit :=
  require_or_set address require_code (fun address => Err (IncompleteDatabase address)).

Definition require_or_new_basic_account (address account_start_nonce : Z) :
    M DbError (State T) unit :=
  require_or_set address false (fun address => Ok (new_basic address 0 account_start_nonce)).

(** *** [StateOpsTrait] *)

Definition add_total_issued (v : Z) : M DbError (State T) unit :=
  self <~ get ;;
  if bool_decide (world_statistics_checkpoints self = []) then
    n <~ lift (checked_add 256 (world_statistics self) v) ;;
    modify (fun self => mkState (st_db self) (accounts_to_notify self) (st_cache self) n
                          (world_statistics_checkpoints self) (checkpoints self))
  else panic.

Definition subtract_total_issued (v : Z) (self : State T) : State T :=
  mkState (st_db self) (accounts_to_notify self) (st_cache self)
    (Z.max 0 (world_statistics self - v)) (world_statistics_checkpoints self) (checkpoints self).

Definition new_contract (contract balance nonce : Z) (storage_layout : option StorageLayout) :
    M DbError (State T) unit :=
  invalidated_storage <~ ensure_account_loaded contract RequireNone (fun maybe_overlay =>
    match maybe_overlay with Some overlay => invalidated_storage overlay | None => false end) ;;
  modify (update_cache contract
    (new_dirty (Some (oa_new_contract contract balance nonce invalidated_storage storage_layout)))).

Definition state_balance (address : Z) : M DbError (State T) Z :=
  ensure_account_loaded address RequireNone (fun acc =>
    match acc with Some account => oa_balance account | None => 0 end).

Definition is_contract_with_code (address : Z) : M DbError (State T) bool :=
  ensure_account_loaded address RequireNone (fun acc =>
    match acc with Some acc => negb (oa_code_hash acc =? KECCAK_EMPTY) | None => false end).

Definition state_nonce (address : Z) : M DbError (State T) Z :=
  ensure_account_loaded address RequireNone (fun acc =>
    match acc with Some account => oa_nonce account | None => 0 end).

Definition state_init_code (address : Z) (code : list byte) : M DbError (State T) unit :=
  require_exists address false ;;;
  with_account address (fun account => Ok (oa_init_code code account)).

Definition state_code_hash (address : Z) : M DbError (State T) (option Z) :=
  ensure_account_loaded address RequireNone (fun acc => oa_code_hash <$> acc).

Definition state_code_size (address : Z) : M DbError (State T) (option Z) :=
  ensure_account_loaded address RequireCode (fun acc => code_size <$> (acc ≫= oa_code)).

Definition state_code (address : Z) : M DbError (State T) (option (list byte)) :=
  ensure_account_loaded address RequireCode (fun acc => ci_code <$> (acc ≫= oa_code)).

Definition clean_account (address : Z) : M DbError (State T) unit :=
  require_or_new_basic_account address 0 ;;;
  with_account address (fun _ => Ok (from_loaded address (new_empty address))).

Definition state_inc_nonce (address account_start_nonce : Z) : M DbError (State T) unit :=
  require_or_new_basic_account address account_start_nonce ;;;
  with_account address oa_inc_nonce.

Definition state_set_nonce (address nonce : Z) : M DbError (State T) unit :=
  require_or_new_basic_account address nonce ;;;
  with_account address (fun x => Ok (oa_set_nonce nonce x)).

Definition state_exists (address : Z) : M DbError (State T) bool :=
  ensure_account_loaded address RequireNone (fun acc => bool_decide (is_Some acc)).

Definition state_exists_and_not_null (address : Z) : M DbError (State T) bool :=
  ensure_account_loaded address RequireNone (fun acc =>
    match acc with Some acc => negb (is_null acc) | None => false end).

(** [CleanupMode::TrackTouched(set)]: the set is beside the state. *)
Definition on_state {A} (m : M DbError (State T) A) : M DbError (State T * gset Z) A := fun p =>
  let '(r, self) := m p.1 in (r, (self, p.2)).

Definition track (address : Z) : M DbError (State T * gset Z) unit :=
  modify (fun p => (p.1, {[address]} ∪ p.2)).

Definition state_sub_balance (address by_ : Z) (cleanup_mode : CleanupMode) :
    M DbError (State T * gset Z) unit :=
  (if negb (by_ =? 0) then
     on_state (require_exists address false ;;; with_account address (oa_sub_balance by_))
   else ret tt) ;;;
  match cleanup_mode with
  | TrackTouched =>
      exists_ <~ on_state (state_exists address) ;;
      if (exists_ : bool) then track address else ret tt
  | _ => ret tt
  end.

Definition is_force_create (cleanup_mode : CleanupMode) : bool :=
  match cleanup_mode with ForceCreate => true | _ => false end.

Definition state_add_balance (address by_ : Z) (cleanup_mode : CleanupMode) (account_start_nonce : Z) :
    M DbError (State T * gset Z) unit :=
  exists_ <~ on_state (state_exists address) ;;
  (if negb (by_ =? 0) || (is_force_create cleanup_mode && negb exists_) then
     on_state (require_or_new_basic_account address account_start_nonce ;;;
               with_account address (oa_add_balance by_))
   else ret tt) ;;;
  match cleanup_mode with
  | TrackTouched => if (exists_ : bool) then track address else ret tt
  | _ => ret tt
  end.

Definition state_transfer_balance (from to by_ : Z) (cleanup_mode : CleanupMode) (account_start_nonce : Z) :
    M DbError (State T * gset Z) unit :=
  state_sub_balance from by_ cleanup_mode ;;;
  state_add_balance to by_ cleanup_mode account_start_nonce.

Definition remove_contract (address : Z) : M DbError (State T) unit :=
  modify (update_cache address (new_dirty (Some (new_removed address)))).

(** The closure given to [ensure_account_loaded] fills the account's read cache. *)
Definition state_storage_at (address : Z) (key : list byte) : M DbError (State T) Z :=
  acc <~ ensure_account_loaded address RequireNone id ;;
  self <~ get ;;
  match acc with
  | None => ret 0
  | Some account =>
      p <~ lift (oa_storage_at account (st_db self) key) ;;
      with_account address (fun _ => Ok p.2) ;;;
      ret p.1
  end.

Definition state_set_storage (address : Z) (key : list byte) (value : Z) : M DbError (State T) unit :=
  old <~ state_storage_at address key ;;
  if negb (old =? value) then
    require_exists address false ;;;
    with_account address (fun account => Ok (oa_set_storage key value account))
  else ret tt.

Definition SYSTEM_STORAGE_ADDRESS : Z := 0x088800000000000000000000000000000000000a.

Definition set_system_storage (key : list byte) (value : Z) : M DbError (State T) unit :=
  state_set_storage SYSTEM_STORAGE_ADDRESS key value.

Definition get_system_storage (key : list byte) : M DbError (State T) Z :=
  state_storage_at SYSTEM_STORAGE_ADDRESS key.

(** *** [CheckpointTrait] *)

Definition state_checkpoint (self : State T) : Z * State T :=
  (len (checkpoints self),
   mkState (st_db self) (accounts_to_notify self) (st_cache self) (world_statistics self)
     (world_statistics self :: world_statistics_checkpoints self) (∅ :: checkpoints self)).

(** The loop of [discard_checkpoint]: [prev.entry(k).or_insert(v)] *)
Definition merge_checkpoint (prev checkpoint : Checkpoint) : Checkpoint :=
  map_fold (fun k v prev => insert_if_vacant k v prev) prev checkpoint.

Definition discard_checkpoint (self : State T) : State T :=
  match checkpoints self with
  | [] => self
  | checkpoint :: cps =>
      let cps :=
        match cps with
        | [] => []
        | prev :: cps =>
            (if bool_decide (prev = ∅) then checkpoint else merge_checkpoint prev checkpoint) :: cps
        end in
      mkState (st_db self) (accounts_to_notify self) (st_cache self) (world_statistics self)
        (tail (world_statistics_checkpoints self)) cps
  end.

Definition revert_entry (k : Z) (v : option AccountEntry) (cache : Cache) : Cache :=
  match v with
  | Some v =>
      match cache !! k with
      | Some e => <[k := ae_overwrite_with e v]> cache
      | None => <[k := v]> cache
      end
  | None =>
      match cache !! k with
      | Some e => if is_dirty e then delete k cache else cache
      | None => cache
      end
  end.

(** The loop of [revert_to_checkpoint] *)
Definition revert_cache (checkpoint : Checkpoint) (cache : Cache) : Cache :=
  map_fold revert_entry cache checkpoint.

Definition revert_to_checkpoint (self : State T) : db_result unit * State T :=
  match checkpoints self with
  | [] => (Ok tt, self)
  | checkpoint :: cps =>
      match world_statistics_checkpoints self with
      | [] => (Panic, set_checkpoints cps self)
      | world_statistics :: world_statistics_checkpoints =>
          (Ok tt, mkState (st_db self) (accounts_to_notify self)
                    (revert_cache checkpoint (st_cache self)) world_statistics
                    world_statistics_checkpoints cps)
      end
  end.

(** *** [commit] *)

Fixpoint for_each {S A} (f : A -> M DbError S unit) (l : list A) : M DbError S unit :=
  match l with
  | [] => ret tt
  | a :: l => f a ;;; for_each f l
  end.

Definition recycle_storage (killed_addresses : list Z) : M DbError (State T) unit :=
  for_each (fun address => on_db (db_delete (AccountKey address))) killed_addresses.

(** The database entry of a value of the write cache *)
Definition commit_storage_value (address : Z) (kv : list byte * Z) : M DbError (State T) unit :=
  let address_key := StorageKey address kv.1 in
  if kv.2 =? 0 then on_db (db_delete address_key)
  else on_db (db_set address_key (mkStorageValue kv.2)).

(** The write cache is drained in the order of the [HashMap]. That the write cache has one owner,
    which the code asserts, holds when there are no checkpoints, and there are none. *)
Definition oa_commit (self : OverlayAccount) (address : Z) : M DbError (State T) unit :=
  (if invalidated_storage self then recycle_storage [oa_address self] else ret tt) ;;;
  for_each (commit_storage_value (oa_address self)) (map_to_list (storage_value_write_cache self)) ;;;
  match oa_code self with
  | Some code_info => on_db (db_set (CodeKey (oa_address self)) code_info)
  | None => ret tt
  end ;;;
  on_db (db_set (AccountKey address) (as_account self)).

Definition commit_world_statistics : M DbError (State T) unit :=
  self <~ get ;; on_db (set_total_issued_tokens (world_statistics self)).

Definition by_entry_address (a b : Z * AccountEntry) : Prop := a.1 <= b.1.

#[export] Instance by_entry_address_dec : RelDecision by_entry_address.
Proof. intros a b. unfold by_entry_address. apply _. Defined.

Definition notify (x : Account + Z) : M DbError (State T) unit :=
  modify (fun self => mkState (st_db self) (accounts_to_notify self ++ [x]) (st_cache self)
    (world_statistics self) (world_statistics_checkpoints self) (checkpoints self)).

(** The loop over the sorted entries, giving [killed_addresses] *)
Fixpoint commit_entries (entries : list (Z * AccountEntry)) (killed_addresses : list Z) :
    M DbError (State T) (list Z) :=
  match entries with
  | [] => ret killed_addresses
  | (address, entry) :: entries =>
      match ae_account entry with
      | None => commit_entries entries killed_addresses
      | Some account =>
          if removed_without_update account then
            notify (inr address) ;;;
            commit_entries entries (killed_addresses ++ [address])
          else
            oa_commit account address ;;;
            notify (inl (as_account account)) ;;;
            commit_entries entries killed_addresses
      end
  end.

Definition state_commit (epoch_id : Z) : M DbError (State T) unit :=
  self <~ get ;;
  if bool_decide (checkpoints self = []) && bool_decide (world_statistics_checkpoints self = []) then
    let sorted_dirty_accounts := merge_sort by_entry_address (map_to_list (st_cache self)) in
    modify (set_cache ∅) ;;;
    killed_addresses <~ commit_entries sorted_dirty_accounts [] ;;
    recycle_storage killed_addresses ;;;
    commit_world_statistics ;;;
    on_db (db_commit epoch_id)
  else panic.
End state.
