(* ===== verification/WorldSpec.v ===== *)
(** * What the world state promises

    The specification of [State] (WorldState.v): a world maps every address to its account, with
    code and storage resolved; a checkpoint is a copy of the world, discarding one forgets the
    copy, reverting to one restores it. There are no caches, dirty flags, lazily loaded code or
    journals. The operations of [StateOpsTrait] and [CheckpointTrait] are commands, run by the
    implementation and by the specification.

    Shown here: the implementation refines the specification. Every sequence of commands on a
    fresh state gives the answers, errors and panics the specification gives. The proof is a
    simulation between computations, [sim], closed under sequencing. *)

From stdpp Require Import gmap.
From S2P Require Import Prelude Word Arith SharedCache VmTypes FrameContext StateDb WorldState.
Local Open Scope Z_scope.

(** ** Accounts and worlds *)

Record Acct : Type := mkAcct {
  a_balance : Z;
  a_nonce : Z;
  a_code_hash : Z;
  a_code : db_result (option (list byte));
  a_layout : option StorageLayout;
  a_new : bool;
  a_invalidated : bool;
  a_storage : list byte -> db_result Z;
}.

Definition World : Type := Z -> db_result (option Acct).

(** The world, the tokens issued, and the copies of both. *)
Record Snapshots : Type := mkSnapshots {
  cur : World;
  tokens : Z;
  saved : list (World * Z);
}.

(** ** Commands *)

Inductive Cmd : Type :=
| CBalance (address : Z)
| CNonce (address : Z)
| CCodeHash (address : Z)
| CCodeSize (address : Z)
| CCode (address : Z)
| CIsContractWithCode (address : Z)
| CExists (address : Z)
| CExistsAndNotNull (address : Z)
| CStorageAt (address : Z) (key : list byte)
| CTotalIssuedTokens
| CNewContract (address balance nonce : Z) (storage_layout : option StorageLayout)
| CRemoveContract (address : Z)
| CCleanAccount (address : Z)
| CInitCode (address : Z) (code : list byte)
| CIncNonce (address account_start_nonce : Z)
| CSetNonce (address nonce : Z)
| CSubBalance (address by_ : Z) (cleanup_mode : CleanupMode)
| CAddBalance (address by_ : Z) (cleanup_mode : CleanupMode) (account_start_nonce : Z)
| CTransferBalance (from to by_ : Z) (cleanup_mode : CleanupMode) (account_start_nonce : Z)
| CSetStorage (address : Z) (key : list byte) (value : Z)
| CAddTotalIssued (v : Z)
| CSubtractTotalIssued (v : Z)
| CCheckpoint
| CDiscardCheckpoint
| CRevertToCheckpoint.

Inductive Answer : Type :=
| AUnit
| ANum (z : Z)
| ABool (b : bool)
| AOptNum (o : option Z)
| ABytes (o : option (list byte)).

(** [m] with its value turned into an answer *)
Definition answer {E S A} (f : A -> Answer) (m : M E S A) : M E S Answer := a <~ m ;; ret (f a).

Definition done_ {E S} (m : M E S unit) : M E S Answer := answer (fun _ => AUnit) m.

(** Runs commands until one panics, and lists what they give. *)
Fixpoint run_cmds {S} (exec : Cmd -> M DbError S Answer) (cmds : list Cmd) (s : S) :
    list (db_result Answer) :=
  match cmds with
  | [] => []
  | c :: cmds =>
      let '(r, s) := exec c s in
      r :: match r with Panic => [] | _ => run_cmds exec cmds s end
  end.

Section commands.
Context (keccak : list byte -> Z) `{Rlp} {T : Type} {ST : StorageTrait OwnedStateKey T}.

(** *** The implementation *)

Definition exec_cmd (c : Cmd) : M DbError (State T * gset Z) Answer :=
  match c with
  | CBalance a => answer ANum (on_state (state_balance a))
  | CNonce a => answer ANum (on_state (state_nonce a))
  | CCodeHash a => answer AOptNum (on_state (state_code_hash a))
  | CCodeSize a => answer AOptNum (on_state (state_code_size a))
  | CCode a => answer ABytes (on_state (state_code a))
  | CIsContractWithCode a => answer ABool (on_state (is_contract_with_code a))
  | CExists a => answer ABool (on_state (state_exists a))
  | CExistsAndNotNull a => answer ABool (on_state (state_exists_and_not_null a))
  | CStorageAt a k => answer ANum (on_state (state_storage_at a k))
  | CTotalIssuedTokens => p <~ get ;; ret (ANum (world_statistics p.1))
  | CNewContract a b n l => done_ (on_state (new_contract a b n l))
  | CRemoveContract a => done_ (on_state (remove_contract a))
  | CCleanAccount a => done_ (on_state (clean_account a))
  | CInitCode a c => done_ (on_state (state_init_code keccak a c))
  | CIncNonce a n => done_ (on_state (state_inc_nonce a n))
  | CSetNonce a n => done_ (on_state (state_set_nonce a n))
  | CSubBalance a b m => done_ (state_sub_balance a b m)
  | CAddBalance a b m n => done_ (state_add_balance a b m n)
  | CTransferBalance a a' b m n => done_ (state_transfer_balance a a' b m n)
  | CSetStorage a k v => done_ (on_state (state_set_storage a k v))
  | CAddTotalIssued v => done_ (on_state (add_total_issued v))
  | CSubtractTotalIssued v => done_ (on_state (modify (subtract_total_issued v)))
  | CCheckpoint => answer ANum (on_state (fun self => let '(i, self) := state_checkpoint self in (Ok i, self)))
  | CDiscardCheckpoint => done_ (on_state (modify discard_checkpoint))
  | CRevertToCheckpoint => done_ (on_state revert_to_checkpoint)
  end.

(** *** The specification *)

(** What the database holds at a key *)
Definition base_storage (db : T) (a : Z) (key : list byte) : db_result Z :=
  let? o := db_get (A := StorageValue) db (StorageKey a key) in
  Ok (match o with Some v => sv_value v | None => 0 end).

Definition base_code (db : T) (a code_hash : Z) : db_result (option (list byte)) :=
  if code_hash =? KECCAK_EMPTY then Ok None
  else
    let? o := get_code db a code_hash in
    match o with
    | Some c => Ok (Some (ci_code c))
    | None => Err (IncompleteDatabase a)
    end.

Definition base_world (db : T) : World := fun a =>
  let? o := get_account db a in
  Ok (match o with
      | Some x => Some (mkAcct (acc_balance x) (acc_nonce x) (acc_code_hash x)
                          (base_code db a (acc_code_hash x)) None false false (base_storage db a))
      | None => None
      end).

(** The storage of a new contract, or of one at the address of a removed contract, is empty. *)
Definition storage_from (db : T) (a : Z) (new invalidated : bool) (key : list byte) : db_result Z :=
  if (new && negb (is_builtin_address a)) || invalidated then Ok 0 else base_storage db a key.

Definition empty_acct (db : T) (a balance nonce : Z) (layout : option StorageLayout)
    (new invalidated : bool) : Acct :=
  mkAcct balance nonce KECCAK_EMPTY (Ok None) layout new invalidated
    (storage_from db a new invalidated).

Definition put_balance (b : Z) (x : Acct) : Acct :=
  mkAcct b (a_nonce x) (a_code_hash x) (a_code x) (a_layout x) (a_new x) (a_invalidated x) (a_storage x).
Definition put_nonce (n : Z) (x : Acct) : Acct :=
  mkAcct (a_balance x) n (a_code_hash x) (a_code x) (a_layout x) (a_new x) (a_invalidated x) (a_storage x).
Definition put_code (code : list byte) (x : Acct) : Acct :=
  mkAcct (a_balance x) (a_nonce x) (keccak code) (Ok (Some code)) (a_layout x) (a_new x)
    (a_invalidated x) (a_storage x).
Definition put_storage (key : list byte) (v : Z) (x : Acct) : Acct :=
  mkAcct (a_balance x) (a_nonce x) (a_code_hash x) (a_code x) (a_layout x) (a_new x) (a_invalidated x)
    (fun k => if decide (k = key) then Ok v else a_storage x k).

Definition spec_lookup (a : Z) : M DbError Snapshots (option Acct) := fun w => (cur w a, w).

Definition set_world (w : World) (s : Snapshots) : Snapshots := mkSnapshots w (tokens s) (saved s).

Definition world_upd (a : Z) (x : Acct) (w : World) : World :=
  fun b => if decide (b = a) then Ok (Some x) else w b.

Definition spec_put (a : Z) (x : Acct) : M DbError Snapshots unit :=
  modify (fun s => set_world (world_upd a x (cur s)) s).

(** Changes an account, or the one that [default] provides. *)
Definition spec_change (a : Z) (default : db_result Acct) (f : Acct -> db_result Acct) :
    M DbError Snapshots unit :=
  o <~ spec_lookup a ;;
  x <~ lift (match o with Some x => Ok x | None => default end) ;;
  y <~ lift (f x) ;;
  spec_put a y.

Definition spec_read {A} (a : Z) (f : option Acct -> A) : M DbError Snapshots A :=
  o <~ spec_lookup a ;; ret (f o).

Definition spec_code (a : Z) : M DbError Snapshots (option (list byte)) :=
  o <~ spec_lookup a ;;
  match o with Some x => lift (a_code x) | None => ret None end.

Definition spec_storage_at (a : Z) (key : list byte) : M DbError Snapshots Z :=
  o <~ spec_lookup a ;;
  match o with Some x => lift (a_storage x key) | None => ret 0 end.

Definition is_null_acct (x : Acct) : bool :=
  (a_balance x =? 0) && (a_nonce x =? 0) && (a_code_hash x =? KECCAK_EMPTY).

Definition on_world {A} (m : M DbError Snapshots A) : M DbError (Snapshots * gset Z) A := fun p =>
  let '(r, s) := m p.1 in (r, (s, p.2)).

Definition spec_track (a : Z) : M DbError (Snapshots * gset Z) unit :=
  modify (fun p => (p.1, {[a]} ∪ p.2)).

Definition spec_sub (by_ : Z) (x : Acct) : db_result Acct :=
  if by_ <=? a_balance x then Ok (put_balance (a_balance x - by_) x) else Panic.

Definition spec_add (by_ : Z) (x : Acct) : db_result Acct :=
  let? b := checked_add 256 (a_balance x) by_ in Ok (put_balance b x).

Definition spec_inc (x : Acct) : db_result Acct :=
  let? n := checked_add 256 (a_nonce x) 1 in Ok (put_nonce n x).

Definition spec_sub_balance (a by_ : Z) (mode : CleanupMode) : M DbError (Snapshots * gset Z) unit :=
  (if negb (by_ =? 0) then on_world (spec_change a (Err (IncompleteDatabase a)) (spec_sub by_))
   else ret tt) ;;;
  match mode with
  | TrackTouched =>
      b <~ on_world (spec_read a (fun o => bool_decide (is_Some o))) ;;
      if (b : bool) then spec_track a else ret tt
  | _ => ret tt
  end.

Definition spec_add_balance (db : T) (a by_ : Z) (mode : CleanupMode) (start_nonce : Z) :
    M DbError (Snapshots * gset Z) unit :=
  b <~ on_world (spec_read a (fun o => bool_decide (is_Some o))) ;;
  (if negb (by_ =? 0) || (is_force_create mode && negb b)
   then on_world (spec_change a (Ok (empty_acct db a 0 start_nonce None false false)) (spec_add by_))
   else ret tt) ;;;
  match mode with
  | TrackTouched => if (b : bool) then spec_track a else ret tt
  | _ => ret tt
  end.

Definition spec_cmd (db : T) (c : Cmd) : M DbError (Snapshots * gset Z) Answer :=
  match c with
  | CBalance a => on_world (spec_read a (fun o => ANum (match o with Some x => a_balance x | None => 0 end)))
  | CNonce a => on_world (spec_read a (fun o => ANum (match o with Some x => a_nonce x | None => 0 end)))
  | CCodeHash a => on_world (spec_read a (fun o => AOptNum (a_code_hash <$> o)))
  | CCodeSize a => answer (fun o => AOptNum (len <$> o)) (on_world (spec_code a))
  | CCode a => answer ABytes (on_world (spec_code a))
  | CIsContractWithCode a => on_world (spec_read a (fun o =>
      ABool (match o with Some x => negb (a_code_hash x =? KECCAK_EMPTY) | None => false end)))
  | CExists a => on_world (spec_read a (fun o => ABool (bool_decide (is_Some o))))
  | CExistsAndNotNull a => on_world (spec_read a (fun o =>
      ABool (match o with Some x => negb (is_null_acct x) | None => false end)))
  | CStorageAt a k => answer ANum (on_world (spec_storage_at a k))
  | CTotalIssuedTokens => p <~ get ;; ret (ANum (tokens p.1))
  | CNewContract a b n l => done_ (on_world (
      inv <~ spec_read a (fun o => match o with Some x => a_invalidated x | None => false end) ;;
      spec_put a (empty_acct db a b n l true inv)))
  | CRemoveContract a => done_ (on_world (spec_put a (empty_acct db a 0 0 None false true)))
  | CCleanAccount a => done_ (on_world (
      spec_change a (Ok (empty_acct db a 0 0 None false false))
        (fun _ => Ok (empty_acct db a 0 0 None false false))))
  | CInitCode a code => done_ (on_world (
      spec_change a (Err (IncompleteDatabase a)) (fun x => Ok (put_code code x))))
  | CIncNonce a n => done_ (on_world (
      spec_change a (Ok (empty_acct db a 0 n None false false)) spec_inc))
  | CSetNonce a n => done_ (on_world (
      spec_change a (Ok (empty_acct db a 0 n None false false)) (fun x => Ok (put_nonce n x))))
  | CSubBalance a b m => done_ (spec_sub_balance a b m)
  | CAddBalance a b m n => done_ (spec_add_balance db a b m n)
  | CTransferBalance a a' b m n => done_ (spec_sub_balance a b m ;;; spec_add_balance db a' b m n)
  | CSetStorage a k v => done_ (on_world (
      old <~ spec_storage_at a k ;;
      if negb (old =? v) then spec_change a (Err (IncompleteDatabase a)) (fun x => Ok (put_storage k v x))
      else ret tt))
  | CAddTotalIssued v => done_ (on_world (
      s <~ get ;;
      if bool_decide ((saved s).*2 = []) then
        n <~ lift (checked_add 256 (tokens s) v) ;;
        modify (fun s => mkSnapshots (cur s) n (saved s))
      else panic))
  | CSubtractTotalIssued v => done_ (on_world (
      modify (fun s => mkSnapshots (cur s) (Z.max 0 (tokens s - v)) (saved s))))
  | CCheckpoint => answer ANum (on_world (fun s =>
      (Ok (len (saved s)), mkSnapshots (cur s) (tokens s) ((cur s, tokens s) :: saved s))))
  | CDiscardCheckpoint => done_ (on_world (
      modify (fun s => mkSnapshots (cur s) (tokens s) (tail (saved s)))))
  | CRevertToCheckpoint => done_ (on_world (
      modify (fun s => match saved s with
        | [] => s
        | (w, t) :: rest => mkSnapshots w t rest
        end)))
  end.

(** The specification of a fresh state *)
Definition snapshots_new (db : T) (total_issued_tokens : Z) : Snapshots :=
  mkSnapshots (base_world db) total_issued_tokens [].
End commands.

(** ** Simulation *)

(** Two computations from related states: the same value, error or panic, and related states
    unless they panic. *)
Section sim.
Context {S S' : Type} (R : S -> S' -> Prop).

Definition outcome {A} (p : db_result A * S) (p' : db_result A * S') : Prop :=
  match p, p' with
  | (Ok a, s), (Ok a', s') => a = a' /\ R s s'
  | (Err e, s), (Err e', s') => e = e' /\ R s s'
  | (Panic, _), (Panic, _) => True
  | _, _ => False
  end.

Definition sim {A} (m : M DbError S A) (m' : M DbError S' A) : Prop :=
  forall s s', R s s' -> outcome (m s) (m' s').

Lemma sim_ret {A} (a : A) : sim (ret a) (ret a).
Proof. by intros s s' HR. Qed.

Lemma sim_bind {A B} (m : M DbError S A) m' (k k' : A -> M DbError _ B) :
  sim m m' -> (forall a, sim (k a) (k' a)) -> sim (bind m k) (bind m' k').
Proof.
  intros Hm Hk s s' HR. specialize (Hm s s' HR). unfold bind, outcome in *.
  destruct (m s) as [[a | e |] s1], (m' s') as [[a' | e' |] s1']; try done.
  destruct Hm as [-> HR1]. by apply Hk.
Qed.

Lemma sim_modify f f' : (forall s s', R s s' -> R (f s) (f' s')) -> sim (modify f) (modify f').
Proof. intros Hf s s' HR. split; [done | by apply Hf]. Qed.

Lemma sim_answer {A} (f : A -> Answer) m m' : sim m m' -> sim (answer f m) (answer f m').
Proof. intros Hm. apply sim_bind; [done |]. intros a. apply sim_ret. Qed.

Lemma sim_answer_read {A B} (f : A -> Answer) (g : B -> A) (m : M DbError S A) (m' : M DbError S' B) :
  sim m (b <~ m' ;; ret (g b)) -> sim (answer f m) (b <~ m' ;; ret (f (g b))).
Proof.
  intros Hm s s' HR. specialize (Hm s s' HR). unfold answer, bind, ret, outcome in *.
  destruct (m s) as [[a | e |] s1], (m' s') as [[b | e' |] s1']; try done. by destruct Hm as [-> ?].
Qed.
End sim.

(** ** The abstraction *)

#[export] Instance acct_equiv : Equiv Acct := fun x y =>
  (a_balance x, a_nonce x, a_code_hash x, a_code x, (a_layout x, a_new x, a_invalidated x)) =
  (a_balance y, a_nonce y, a_code_hash y, a_code y, (a_layout y, a_new y, a_invalidated y)) /\
  forall k, a_storage x k = a_storage y k.

#[export] Instance acct_equivalence : Equivalence (≡@{Acct}).
Proof.
  split.
  - by intros x; split.
  - intros x y [Hf Hs]. by split.
  - intros x y z [Hf Hs] [Hf' Hs']. split; [by rewrite Hf | intros k; by rewrite Hs].
Qed.

Definition view_equiv (v v' : db_result (option Acct)) : Prop :=
  match v, v' with
  | Ok o, Ok o' => o ≡ o'
  | Err e, Err e' => e = e'
  | Panic, Panic => True
  | _, _ => False
  end.

#[export] Instance view_equivalence : Equivalence view_equiv.
Proof.
  split.
  - intros [o | |]; cbn; [reflexivity | done..].
  - intros [] []; cbn; try done; intros; by symmetry.
  - intros [] [] []; cbn; try done; intros; by etrans.
Qed.

(** *** Types

    What the types of the program guarantee: addresses of 20 bytes, words of 256 bits. The hash
    of an account's code is the hash of the empty string exactly when the code is empty. *)

Record typed_account (acc : OverlayAccount) : Prop := {
  ta_balance : is_u256 (oa_balance acc);
  ta_nonce : is_u256 (oa_nonce acc);
  ta_code_hash : is_u256 (oa_code_hash acc);
  ta_storage : forall k v, storage_value_write_cache acc !! k = Some v -> is_u256 v;
  ta_code : forall c, oa_code acc = Some c -> oa_code_hash acc = KECCAK_EMPTY <-> ci_code c = [];
}.

Record typed_db `{Rlp} {T : Type} {ST : StorageTrait OwnedStateKey T} (db : T) : Prop := {
  td_account : forall a x, get_account db a = Ok (Some x) ->
    is_u256 (acc_balance x) /\ is_u256 (acc_nonce x) /\ is_u256 (acc_code_hash x);
  td_code : forall a h c, get_code db a h = Ok (Some c) -> h <> KECCAK_EMPTY -> ci_code c <> [];
  td_storage : forall a k v, base_storage db a k = Ok v -> is_u256 v;
}.

Section refinement.
Context `{Rlp} {T : Type} {ST : StorageTrait OwnedStateKey T} (db : T).

(** The types matter to some theorems only, those with [strict]. *)
Context (strict : Prop) (Htyped : strict -> typed_db db).

Abbreviation view := (db_result (option Acct)).

Definition code_view (acc : OverlayAccount) : db_result (option (list byte)) :=
  match oa_code acc with
  | Some c => Ok (Some (ci_code c))
  | None => base_code db (oa_address acc) (oa_code_hash acc)
  end.

Definition acct_of (acc : OverlayAccount) : Acct :=
  mkAcct (oa_balance acc) (oa_nonce acc) (oa_code_hash acc) (code_view acc)
    (storage_layout_change acc) (is_newly_created_contract acc) (invalidated_storage acc)
    (fun k => match storage_value_write_cache acc !! k with
       | Some v => Ok v
       | None => storage_from db (oa_address acc) (is_newly_created_contract acc)
                   (invalidated_storage acc) k
       end).

Definition entry_view (a : Z) (o : option AccountEntry) : view :=
  match o with
  | Some e => Ok (acct_of <$> ae_account e)
  | None => base_world db a
  end.

Definition world_of (cache : Cache) : World := fun a => entry_view a (cache !! a).

(** The world before the changes recorded in a checkpoint *)
Definition restore (c : Checkpoint) (w : World) : World := fun a =>
  match c !! a with Some o => entry_view a o | None => w a end.

Fixpoint saved_worlds (w : World) (cps : list Checkpoint) : list World :=
  match cps with
  | [] => []
  | c :: cps => restore c w :: saved_worlds (restore c w) cps
  end.

(** ** The invariant *)

(** The account is the address's; the read cache holds values of the database, and none if the
    storage is fresh. *)
Record account_ok (a : Z) (acc : OverlayAccount) : Prop := {
  ok_address : oa_address acc = a;
  ok_typed : strict -> typed_account acc;
  ok_read_cache : forall k v, storage_value_read_cache acc !! k = Some v ->
    fresh_storage acc = false /\ base_storage db a k = Ok v;
}.

(** An entry that is not dirty, or has no account, shows what the database holds. *)
Record entry_ok (a : Z) (e : AccountEntry) : Prop := {
  ok_valid : strict -> is_address a;
  ok_account : forall acc, ae_account e = Some acc -> account_ok a acc;
  ok_clean : is_dirty e = false \/ ae_account e = None ->
    view_equiv (entry_view a (Some e)) (base_world db a);
}.

Definition cache_ok (cache : Cache) : Prop := forall a e, cache !! a = Some e -> entry_ok a e.

Definition checkpoint_ok (c : Checkpoint) : Prop := forall a e, c !! a = Some (Some e) -> entry_ok a e.

Definition world_equiv (w w' : World) : Prop := forall a, view_equiv (w a) (w' a).

#[export] Instance world_equivalence : Equivalence world_equiv.
Proof.
  split.
  - intros w a. reflexivity.
  - intros w w' Hw a. symmetry. apply Hw.
  - intros w w' w'' Hw Hw' a. etrans; [apply Hw | apply Hw'].
Qed.

(** The state shows the current world, and its checkpoints the saved ones. *)
Record refines (s : State T) (w : Snapshots) : Prop := {
  rf_db : st_db s = db;
  rf_cache : cache_ok (st_cache s);
  rf_checkpoints : Forall checkpoint_ok (checkpoints s);
  rf_world : world_equiv (world_of (st_cache s)) (cur w);
  rf_tokens : world_statistics s = tokens w;
  rf_saved : Forall2 world_equiv (saved_worlds (world_of (st_cache s)) (checkpoints s)) (saved w).*1;
  rf_saved_tokens : world_statistics_checkpoints s = (saved w).*2;
  rf_typed : strict -> is_u256 (world_statistics s) /\ Forall is_u256 (world_statistics_checkpoints s);
}.

#[export] Instance restore_proper c : Proper (world_equiv ==> world_equiv) (restore c).
Proof. intros w w' Hw a. unfold restore. destruct (c !! a); [reflexivity | apply Hw]. Qed.

#[export] Instance saved_worlds_proper :
  Proper (world_equiv ==> eq ==> Forall2 world_equiv) saved_worlds.
Proof.
  intros w w' Hw cps ? <-. revert w w' Hw. induction cps as [| c cps IH]; intros w w' Hw; [constructor |].
  cbn. constructor; [by rewrite Hw | apply IH; by rewrite Hw].
Qed.

#[export] Instance Forall2_world_equivalence : Equivalence (Forall2 world_equiv).
Proof. apply _. Qed.

(** *** Three moves that keep the refinement *)

Lemma world_of_insert cache a e :
  world_equiv (world_of (<[a := e]> cache))
    (fun b => if decide (b = a) then entry_view a (Some e) else world_of cache b).
Proof.
  intros b. unfold world_of. destruct (decide (b = a)) as [-> | Hb].
  - by rewrite lookup_insert_eq.
  - by rewrite lookup_insert_ne.
Qed.

Lemma cache_ok_insert cache a e : cache_ok cache -> entry_ok a e -> cache_ok (<[a := e]> cache).
Proof. intros Hc He b e' [[<- <-] | [_ Hb]]%lookup_insert_Some; [done | by apply Hc]. Qed.

(** Replacing an entry by one that shows the same. *)
Lemma refines_touch s w a e :
  refines s w -> entry_ok a e ->
  view_equiv (entry_view a (Some e)) (entry_view a (st_cache s !! a)) ->
  refines (set_cache (<[a := e]> (st_cache s)) s) w.
Proof.
  intros [Hdb Hc Hcp Hw Ht Hs Hst Hty] He Hv.
  assert (world_equiv (world_of (<[a := e]> (st_cache s))) (world_of (st_cache s))) as Heq.
  { rewrite world_of_insert. intros b. destruct (decide (b = a)) as [-> |]; [exact Hv | reflexivity]. }
  split; cbn; try done.
  - by apply cache_ok_insert.
  - by rewrite Heq.
  - by rewrite Heq.
Qed.

Lemma insert_if_vacant_lookup {A} k (v : A) m a :
  insert_if_vacant k v m !! a =
    match m !! a with Some x => Some x | None => if decide (a = k) then Some v else None end.
Proof.
  unfold insert_if_vacant. destruct (m !! k) eqn:Hk.
  - destruct (m !! a) eqn:Ha; [done |]. rewrite decide_False; congruence.
  - destruct (decide (a = k)) as [-> | Ha].
    + by rewrite lookup_insert_eq, Hk.
    + rewrite lookup_insert_ne by done. by destruct (m !! a).
Qed.

(** Recording an entry that shows what the world does. *)
Lemma refines_journal s w a o :
  refines s w -> (forall e, o = Some e -> entry_ok a e) ->
  view_equiv (entry_view a o) (entry_view a (st_cache s !! a)) ->
  refines (set_checkpoints (save_in_checkpoint a o (checkpoints s)) s) w.
Proof.
  intros [Hdb Hc Hcp Hw Ht Hs Hst Hty] Ho Hv. split; cbn; try done.
  - destruct (checkpoints s) as [| c cps]; cbn; [done |].
    apply list.Forall_cons in Hcp as [Hcp Hcps]. constructor; [| done].
    intros b e. rewrite insert_if_vacant_lookup. destruct (c !! b) eqn:Hb; [intros [= ->]; by apply Hcp |].
    destruct (decide (b = a)) as [-> |]; [| done]. intros [= ->]. by apply Ho.
  - rewrite <- Hs. destruct (checkpoints s) as [| c cps]; cbn; [done |].
    assert (world_equiv (restore (insert_if_vacant a o c) (world_of (st_cache s)))
              (restore c (world_of (st_cache s)))) as Heq.
    { intros b. unfold restore. rewrite insert_if_vacant_lookup. destruct (c !! b); [reflexivity |].
      destruct (decide (b = a)) as [-> |]; [exact Hv | reflexivity]. }
    constructor; [done | by rewrite Heq].
Qed.

(** The last checkpoint, if there is one, has the account recorded. *)
Definition journaled (a : Z) (cps : list Checkpoint) : Prop :=
  match cps with [] => True | c :: _ => is_Some (c !! a) end.

Lemma journaled_save a o cps : journaled a (save_in_checkpoint a o cps).
Proof.
  destruct cps as [| c cps]; cbn; [done |]. rewrite insert_if_vacant_lookup.
  destruct (c !! a); [by eexists |]. rewrite decide_True by done. by eexists.
Qed.

(** Changing an account that is recorded. *)
Lemma refines_write s w a e x :
  refines s w -> journaled a (checkpoints s) -> entry_ok a e ->
  view_equiv (entry_view a (Some e)) (Ok (Some x)) ->
  refines (set_cache (<[a := e]> (st_cache s)) s) (set_world (world_upd a x (cur w)) w).
Proof.
  intros [Hdb Hc Hcp Hw Ht Hs Hst Hty] Hj He Hx.
  assert (world_equiv (world_of (<[a := e]> (st_cache s))) (world_upd a x (cur w))) as Heq.
  { rewrite world_of_insert. intros b. unfold world_upd. destruct (decide (b = a)); [exact Hx | apply Hw]. }
  split; cbn; try done.
  - by apply cache_ok_insert.
  - rewrite <- Hs. destruct (checkpoints s) as [| c cps]; cbn; [done |].
    assert (world_equiv (restore c (world_of (<[a := e]> (st_cache s)))) (restore c (world_of (st_cache s))))
      as Heq'.
    { intros b. unfold restore. destruct (c !! b) eqn:Hb; [reflexivity |].
      rewrite (world_of_insert _ a e b). rewrite decide_False; [reflexivity |].
      intros ->. destruct Hj. congruence. }
    constructor; [done | by rewrite Heq'].
Qed.

Lemma refines_world s w w' :
  refines s w -> world_equiv (cur w) (cur w') -> tokens w' = tokens w -> saved w' = saved w ->
  refines s w'.
Proof. intros [] Hw Ht Hs. split; try done; [by etrans | congruence..]. Qed.

(** *** Loading accounts *)

Lemma from_loaded_ok a x : get_account db a = Ok (Some x) -> account_ok a (from_loaded a x).
Proof.
  intros Hx. split; [done | | intros k v; cbn; by rewrite lookup_empty].
  intros Hstrict. destruct (td_account db (Htyped Hstrict) a x Hx) as (? & ? & ?).
  by split.
Qed.

Lemma load_view a :
  view_equiv (let? o := load_account db a in Ok (acct_of <$> o)) (base_world db a).
Proof.
  unfold load_account, base_world. destruct (get_account db a) as [[x |] | |]; done.
Qed.

Lemma load_ok a o acc : load_account db a = Ok o -> o = Some acc -> account_ok a acc.
Proof.
  unfold load_account. destruct (get_account db a) as [[x |] | |] eqn:Hx; cbn; [| naive_solver..].
  intros [= <-] [= <-]. by apply from_loaded_ok.
Qed.

Lemma lookup_cached s w a e :
  refines s w -> st_cache s !! a = Some e ->
  exists o, cur w a = Ok o /\ acct_of <$> ae_account e ≡ o.
Proof.
  intros HR Hc. pose proof (rf_world s w HR a) as Hw. unfold world_of in Hw. rewrite Hc in Hw. cbn in Hw.
  destruct (cur w a) as [o | |]; [by exists o | done..].
Qed.

Lemma lookup_vacant s w a :
  refines s w -> st_cache s !! a = None ->
  match load_account (st_db s) a with
  | Ok o => exists o', cur w a = Ok o' /\ acct_of <$> o ≡ o'
  | Err e => cur w a = Err e
  | Panic => cur w a = Panic
  end.
Proof.
  intros HR Hc. rewrite (rf_db s w HR). pose proof (rf_world s w HR a) as Hw. unfold world_of in Hw.
  rewrite Hc in Hw. cbn [entry_view] in Hw. pose proof (load_view a) as Hl. rewrite Hw in Hl.
  destruct (load_account db a), (cur w a); cbn in *; try done; [by eexists | congruence].
Qed.

Lemma new_clean_ok a o o' :
  load_account db a = Ok o -> acct_of <$> o' ≡ acct_of <$> o ->
  (forall acc, o' = Some acc -> account_ok a acc) -> (strict -> is_address a) -> entry_ok a (new_clean o').
Proof.
  intros Hl Ho Hok Hva. split; [done | done |]. intros _. cbn [entry_view new_clean ae_account].
  rewrite <- load_view, Hl. exact Ho.
Qed.

(** Caching a loaded account, with its code loaded or not. *)
Lemma refines_load s w a o o' :
  refines s w -> st_cache s !! a = None -> load_account db a = Ok o ->
  acct_of <$> o' ≡ acct_of <$> o -> (forall acc, o' = Some acc -> account_ok a acc) ->
  (strict -> is_address a) ->
  refines (insert_cache_if_fresh_account a o' s) w.
Proof.
  intros HR Hc Hl Ho Hok Hva. unfold insert_cache_if_fresh_account. rewrite Hc. apply refines_touch; [done | |].
  - by apply (new_clean_ok a o).
  - rewrite Hc. cbn [entry_view new_clean ae_account]. rewrite <- load_view, Hl. exact Ho.
Qed.

Lemma insert_fresh_lookup (s : State T) a o :
  st_cache s !! a = None ->
  st_cache (insert_cache_if_fresh_account a o s) !! a = Some (new_clean o).
Proof. intros Hc. unfold insert_cache_if_fresh_account. rewrite Hc. apply lookup_insert_eq. Qed.

Lemma insert_fresh_db (s : State T) a o : st_db (insert_cache_if_fresh_account (T := T) a o s) = st_db s.
Proof. unfold insert_cache_if_fresh_account. by destruct (st_cache s !! a). Qed.

Lemma same_account_ok a e acc' :
  entry_ok a e -> account_ok a acc' -> acct_of <$> ae_account e ≡ Some (acct_of acc') ->
  entry_ok a (with_entry_account (Some acc') e).
Proof.
  intros [Hva _ Hclean] Hok Hv. split; [done | by intros acc [= <-] |]. intros [Hd | [=]].
  rewrite <- (Hclean (or_introl Hd)). cbn. by symmetry.
Qed.

(** Replacing the account of an entry by one that shows the same. *)
Lemma refines_refresh s w a e acc' :
  refines s w -> st_cache s !! a = Some e -> account_ok a acc' ->
  acct_of <$> ae_account e ≡ Some (acct_of acc') ->
  refines (set_cache (<[a := with_entry_account (Some acc') e]> (st_cache s)) s) w.
Proof.
  intros HR Hc Hok Hv. apply refines_touch; [done | |].
  - apply same_account_ok; [by apply (rf_cache s w HR) | done..].
  - rewrite Hc. cbn. by symmetry.
Qed.

(** *** Code *)

Lemma update_code_spec a acc :
  account_ok a acc ->
  match update_account_cache RequireCode acc db with
  | Ok (b, acc') => account_ok a acc' /\ acct_of acc' ≡ acct_of acc /\
      code_view acc = if (b : bool) then Ok (ci_code <$> oa_code acc') else Err (IncompleteDatabase a)
  | Err e => code_view acc = Err e
  | Panic => code_view acc = Panic
  end.
Proof.
  intros Hok. pose proof Hok as [Ha Hty Hr]. cbn. unfold cache_code, is_code_loaded, code_view, base_code.
  rewrite Ha.
  destruct (oa_code acc) as [c |] eqn:Hc; cbn.
  - rewrite Hc. done.
  - destruct (oa_code_hash acc =? KECCAK_EMPTY) eqn:Hh; cbn; [by rewrite Hc |].
    destruct (get_code db a (oa_code_hash acc)) as [[c |] | |] eqn:Hg; cbn; try done.
    + split; [split; [done | | done] |].
      { intros Hs. destruct (Hty Hs). split; cbn; try done. intros ? [= <-]. b2p.
        pose proof (td_code db (Htyped Hs) a _ c Hg Hh). done. }
      split; [| done]. split; [| done]. cbn. unfold code_view, base_code. by rewrite Hc, Ha, Hh, Hg.
    + split; [split; [done | | done] |].
      { intros Hs. destruct (Hty Hs). by split. }
      split; [| done]. split; [| done]. cbn. unfold code_view. by rewrite Hc.
Qed.

(** *** Reads *)

Lemma update_ok require a acc :
  account_ok a acc ->
  forall b acc', update_account_cache require acc db = Ok (b, acc') ->
    account_ok a acc' /\ acct_of acc' ≡ acct_of acc.
Proof.
  intros Hok b acc' Hu. destruct require; [by injection Hu as _ <- |].
  pose proof (update_code_spec a acc Hok) as Hs. rewrite Hu in Hs. naive_solver.
Qed.

Lemma needs_no_update require acc :
  needs_update require acc = false -> update_account_cache require acc db = Ok (true, acc).
Proof. destruct require; [done |]. cbn. unfold cache_code. by destruct (is_code_loaded acc). Qed.

(** The caches are at most refreshed before [f] looks at the account. *)
Section reads.
Context {U : Type} (a : Z) (Hva : strict -> is_address a) (require : RequireCache).
Context (f : option OverlayAccount -> U) (K : option Acct -> M DbError Snapshots U).
Hypothesis (K_none : forall w, K None w = (Ok (f None), w)).
Hypothesis (K_some : forall acc x w, account_ok a acc -> acct_of acc ≡ x ->
  K (Some x) w =
    (match update_account_cache require acc db with
     | Ok (b, acc') => if b then Ok (f (Some acc')) else Err (IncompleteDatabase a)
     | Err e => Err e
     | Panic => Panic
     end, w)).

Lemma update_cached_sim s w e o :
  refines s w -> st_cache s !! a = Some e -> acct_of <$> ae_account e ≡ o ->
  outcome refines (update_cached a require f s) (K o w).
Proof.
  intros HR Hc Ho. unfold update_cached, bind, get, lift, unwrap, modify. rewrite Hc.
  destruct (ae_account e) as [acc |] eqn:Hacc.
  - destruct o as [x |]; [| by inversion Ho]. apply (inj Some) in Ho.
    assert (account_ok a acc) as Hok by by apply (ok_account a e (rf_cache s w HR a e Hc)).
    rewrite (K_some acc x w Hok Ho), (rf_db s w HR).
    destruct (update_account_cache require acc db) as [[b acc'] | |] eqn:Hu; cbn; try done.
    destruct (update_ok require a acc Hok b acc' Hu) as [Hok' Hv].
    assert (refines (set_cache (<[a := with_entry_account (Some acc') e]> (st_cache s)) s) w) as HR'.
    { apply refines_refresh; [done.. |]. rewrite Hacc. constructor. by symmetry. }
    destruct b; cbn; [rewrite lookup_insert_eq; done | rewrite (ok_address a acc Hok); done].
  - destruct o as [x |]; [by inversion Ho |]. rewrite K_none. cbn. rewrite Hc. cbn. by rewrite Hacc.
Qed.

Lemma ensure_sim : sim refines (ensure_account_loaded a require f) (bind (spec_lookup a) K).
Proof.
  intros s w HR. unfold ensure_account_loaded. unfold bind at 1, get.
  assert (bind (spec_lookup a) K w =
    match cur w a with Ok o => K o w | Err e => (Err e, w) | Panic => (Panic, w) end) as -> by done.
  destruct (st_cache s !! a) as [e |] eqn:Hc.
  - destruct (lookup_cached s w a e HR Hc) as (o & -> & Ho).
    destruct (ae_account e) as [acc |] eqn:Hacc.
    + destruct (needs_update require acc) eqn:Hn; cbn [negb].
      * unfold bind, ret. apply (update_cached_sim s w e); [done.. |]. by rewrite Hacc.
      * destruct o as [x |]; [| by inversion Ho]. apply (inj Some) in Ho.
        assert (account_ok a acc) as Hok by by apply (ok_account a e (rf_cache s w HR a e Hc)).
        by rewrite (K_some acc x w Hok Ho), needs_no_update.
    + destruct o as [x |]; [by inversion Ho |]. by rewrite K_none.
  - pose proof (lookup_vacant s w a HR Hc) as Hl. rewrite (rf_db s w HR) in *.
    unfold bind, lift. destruct (load_account db a) as [o | e |] eqn:Hload; [| by rewrite Hl..].
    destruct Hl as (o' & -> & Ho). destruct o as [acc |].
    + destruct o' as [x |]; [| by inversion Ho]. apply (inj Some) in Ho.
      assert (account_ok a acc) as Hok by by apply (load_ok a (Some acc) acc).
      destruct (update_account_cache require acc db) as [[b acc'] | e |] eqn:Hu;
        cbn [snd ret]; [| by rewrite (K_some acc x w Hok Ho), Hu ..].
      destruct (update_ok require a acc Hok b acc' Hu) as [Hok' Hv].
      unfold modify, ret. eapply update_cached_sim.
      * apply (refines_load s w a (Some acc)); try done; [by constructor | by intros ? [= <-]].
      * by apply insert_fresh_lookup.
      * cbn. constructor. by rewrite Hv.
    + destruct o' as [x |]; [by inversion Ho |]. unfold modify, ret.
      eapply update_cached_sim; [by apply (refines_load s w a None) | by apply insert_fresh_lookup | done].
Qed.
End reads.

Lemma read_sim {U} a (f : option OverlayAccount -> U) (g : option Acct -> U) :
  (strict -> is_address a) ->
  f None = g None -> (forall acc x, acct_of acc ≡ x -> f (Some acc) = g (Some x)) ->
  sim refines (ensure_account_loaded a RequireNone f) (spec_read a g).
Proof.
  intros Hva Hn Hs. apply ensure_sim; [done | intros w; by rewrite Hn |].
  intros acc x w _ Hx. cbn. by rewrite (Hs acc x Hx).
Qed.

Lemma code_sim {U} a (f : option CodeInfo -> U) (g : option (list byte) -> U) :
  (strict -> is_address a) -> (forall o, f o = g (ci_code <$> o)) ->
  sim refines (ensure_account_loaded a RequireCode (fun acc => f (acc ≫= oa_code)))
    (o <~ spec_code a ;; ret (g o)).
Proof.
  intros Hva Hfg s w HR.
  assert ((o <~ spec_code a ;; ret (g o)) w =
    (o <~ spec_lookup a ;;
     match o with Some x => c <~ lift (a_code x) ;; ret (g c) | None => ret (g None) end) w) as ->
    by (unfold spec_code, bind, spec_lookup; by destruct (cur w a) as [[] | |]).
  revert s w HR. apply ensure_sim; [done | intros w; cbn; by rewrite Hfg |].
  intros acc x w Hok [Hf _]. pose proof (update_code_spec a acc Hok) as Hu. unfold lift, bind, ret.
  replace (a_code x) with (code_view acc) by (cbn in Hf; congruence).
  destruct (update_account_cache RequireCode acc db) as [[[] acc'] | |]; cbn;
    [destruct Hu as (_ & _ & ->); by rewrite Hfg | by destruct Hu as (_ & _ & ->) | by rewrite Hu..].
Qed.

(** *** Storage *)

Lemma fresh_storage_eq acc :
  fresh_storage acc =
    (is_newly_created_contract acc && negb (is_builtin_address (oa_address acc))) || invalidated_storage acc.
Proof. done. Qed.

Lemma storage_spec a acc k :
  account_ok a acc ->
  match oa_storage_at acc db k with
  | Ok (v, acc') => a_storage (acct_of acc) k = Ok v /\ account_ok a acc' /\ acct_of acc' ≡ acct_of acc
  | Err e => a_storage (acct_of acc) k = Err e
  | Panic => a_storage (acct_of acc) k = Panic
  end.
Proof.
  intros Hacc. pose proof Hacc as [Ha Hty Hr]. unfold oa_storage_at, cached_storage_at. cbn [acct_of a_storage].
  unfold storage_from. rewrite <- fresh_storage_eq.
  destruct (storage_value_write_cache acc !! k) as [v |] eqn:Hw; [by split |].
  destruct (storage_value_read_cache acc !! k) as [v |] eqn:Hrc.
  { destruct (Hr k v Hrc) as [-> Hb]. rewrite Ha. by split. }
  destruct (fresh_storage acc) eqn:Hf; [by split |].
  unfold get_and_cache_storage, base_storage. rewrite Ha.
  destruct (db_get db (StorageKey a k)) as [o | |] eqn:Hg; cbn; [| done..].
  assert (forall v, base_storage db a k = Ok v ->
    account_ok a (set_caches (<[k := v]> (storage_value_read_cache acc)) (storage_value_write_cache acc) acc))
    as Hok.
  { intros v Hv. split; [done | intros Hs; by destruct (Hty Hs) |]. cbn. intros k' v' [[<- <-] | [_ Hk]]%lookup_insert_Some;
      (split; [exact Hf |]); [done | by apply Hr]. }
  unfold base_storage in Hok. rewrite Hg in Hok. destruct o as [v |]; cbn in *; (split; [done |]); (split; [by apply Hok | done]).
Qed.

(** [ensure_account_loaded] without code: the entry, loaded if need be. *)
Lemma ensure_none_eq {U} a (f : option OverlayAccount -> U) (s : State T) :
  exists s',
    ensure_account_loaded a RequireNone f s =
      match st_cache s !! a with
      | Some e => (Ok (f (ae_account e)), s)
      | None =>
          match load_account (st_db s) a with
          | Ok o => (Ok (f o), s')
          | Err e => (Err e, s)
          | Panic => (Panic, s)
          end
      end /\
    forall o, st_cache s !! a = None -> load_account (st_db s) a = Ok o ->
      s' = insert_cache_if_fresh_account a o s.
Proof.
  exists (match load_account (st_db s) a with Ok o => insert_cache_if_fresh_account a o s | _ => s end).
  split; [| by intros o _ ->].
  unfold ensure_account_loaded, bind, get. destruct (st_cache s !! a) as [e |] eqn:Hc.
  { by destruct (ae_account e). }
  unfold lift. destruct (load_account (st_db s) a) as [o | |]; [| done..].
  destruct o as [acc |]; cbn [ret modify update_account_cache snd]; unfold update_cached, bind, get, lift, unwrap;
    rewrite insert_fresh_lookup by done; cbn; unfold insert_cache_if_fresh_account; rewrite Hc; cbn.
  - rewrite lookup_insert_eq, insert_insert_eq. done.
  - rewrite lookup_insert_eq. done.
Qed.

Lemma storage_at_sim a k :
  (strict -> is_address a) -> sim refines (state_storage_at a k) (spec_storage_at a k).
Proof.
  intros Hva s w HR. unfold state_storage_at, spec_storage_at, bind, spec_lookup.
  destruct (ensure_none_eq a id s) as (s' & -> & Hs').
  assert (forall s1 e o, refines s1 w -> st_cache s1 !! a = Some e -> acct_of <$> ae_account e ≡ o ->
    outcome refines
      (match ae_account e with
       | Some account => bind (lift (oa_storage_at account (st_db s1) k))
           (fun p => bind (with_account a (fun _ => Ok p.2)) (fun _ => ret p.1))
       | None => ret 0 end s1)
      (match o with Some x => lift (a_storage x k) | None => ret 0 end w)) as Hmain.
  { intros s1 e o HR1 Hc Ho. destruct (ae_account e) as [acc |] eqn:Hacc, o as [x |];
      [| by inversion Ho.. | done]. apply (inj Some) in Ho.
    assert (account_ok a acc) as Hok by by apply (ok_account a e (rf_cache s1 w HR1 a e Hc)).
    unfold bind, lift. rewrite (rf_db s1 w HR1), <- (proj2 Ho k).
    pose proof (storage_spec a acc k Hok) as Hsp.
    destruct (oa_storage_at acc db k) as [[v acc'] | |]; [| by rewrite Hsp..].
    destruct Hsp as (-> & Hok' & Hv). cbn. unfold with_account, bind, get, lift. rewrite Hc. cbn.
    rewrite Hacc. cbn. split; [done |]. apply refines_refresh; [done.. |].
    rewrite Hacc. constructor. by symmetry. }
  destruct (st_cache s !! a) as [e |] eqn:Hc.
  - destruct (lookup_cached s w a e HR Hc) as (o & -> & Ho). apply (Hmain s e o HR Hc Ho).
  - pose proof (lookup_vacant s w a HR Hc) as Hl.
    destruct (load_account (st_db s) a) as [o | |] eqn:Hload; [| by rewrite Hl..].
    destruct Hl as (o' & -> & Ho). specialize (Hs' o eq_refl eq_refl). subst s'.
    rewrite (rf_db s w HR) in Hload.
    refine (Hmain _ (new_clean o) o' _ _ Ho); [| by apply insert_fresh_lookup].
    apply (refines_load s w a o); try done. intros acc ->. by apply (load_ok a (Some acc)).
Qed.

(** *** Changes *)

Definition same_result {A B} (Q : A -> B -> Prop) (r : db_result A) (r' : db_result B) : Prop :=
  match r, r' with
  | Ok a, Ok b => Q a b
  | Err e, Err e' => e = e'
  | Panic, Panic => True
  | _, _ => False
  end.

(** A change of an account succeeds or panics. *)
Definition same_change {A B} (Q : A -> B -> Prop) (r : db_result A) (r' : db_result B) : Prop :=
  match r, r' with
  | Ok a, Ok b => Q a b
  | Panic, Panic => True
  | _, _ => False
  end.

(** An account and what it shows *)
Definition shows (a : Z) (acc : OverlayAccount) (x : Acct) : Prop := account_ok a acc /\ acct_of acc ≡ x.

Lemma dirty_ok a e acc :
  (strict -> is_address a) -> is_dirty e = true -> account_ok a acc ->
  entry_ok a (with_entry_account (Some acc) e).
Proof.
  intros Hva Hd Hok. split; [done | by intros ? [= <-] |]. intros [Hc | [=]].
  unfold is_dirty in *. cbn in Hc. congruence.
Qed.

Lemma with_account_sim s w a e acc x f F :
  (strict -> is_address a) -> refines s w -> journaled a (checkpoints s) -> is_dirty e = true ->
  st_cache s !! a = Some e -> ae_account e = Some acc -> shows a acc x ->
  same_change (shows a) (f acc) (F x) ->
  outcome refines (with_account a f s) (bind (lift (F x)) (fun y => spec_put a y) w).
Proof.
  intros Hva HR Hj Hd Hc Hacc [Hok Hx] Hf. unfold with_account, bind, get, lift. rewrite Hc. cbn. rewrite Hacc. cbn.
  destruct (f acc) as [acc' | |], (F x) as [y | |]; cbn in *; try done. destruct Hf as [Hok' Hy].
  split; [done |]. apply refines_write; [done | done | by apply dirty_ok |]. by constructor.
Qed.

Lemma world_upd_twice a x y w : world_equiv (world_upd a y w) (world_upd a y (world_upd a x w)).
Proof. intros b. unfold world_upd. by destruct (decide (b = a)). Qed.

(** An entry in the cache, recorded and marked dirty. *)
Definition mark (a : Z) (e : AccountEntry) (s : State T) : State T :=
  set_cache (<[a := with_state Dirty e]> (st_cache s))
    (set_checkpoints (save_in_checkpoint a (Some (ae_clone_dirty e)) (checkpoints s)) s).

Lemma clone_dirty_eq e : ae_clone_dirty e = e.
Proof. destruct e as [[[]|] ? ?]; done. Qed.

Lemma refines_mark s w a e : refines s w -> st_cache s !! a = Some e -> refines (mark a e s) w.
Proof.
  intros HR Hc. assert (entry_ok a e) as He by by apply (rf_cache s w HR).
  unfold mark. rewrite clone_dirty_eq.
  refine (refines_touch (set_checkpoints (save_in_checkpoint a (Some e) (checkpoints s)) s) w a _ _ _ _).
  - apply refines_journal; [done | by intros ? [= <-] | rewrite Hc; reflexivity].
  - split; [apply (ok_valid a e He) | apply (ok_account a e He) |].
    intros [[=] | Hn]. apply (ok_clean a e He). by right.
  - change (st_cache (set_checkpoints _ s)) with (st_cache s). rewrite Hc. reflexivity.
Qed.

(** [require_or_set] without code, from an entry in the cache: the mark, then the account. *)
Lemma require_cached_eq a d (s : State T) e :
  st_cache s !! a = Some e ->
  require_or_set a false d s =
    match ae_account e with
    | Some _ => (Ok tt, mark a e s)
    | None =>
        match d a with
        | Ok acc => (Ok tt, set_cache (<[a := with_entry_account (Some acc) (with_state Dirty e)]>
                                        (st_cache (mark a e s))) (mark a e s))
        | Err e' => (Err e', mark a e s)
        | Panic => (Panic, mark a e s)
        end
    end.
Proof.
  intros Hc. unfold require_or_set, bind, get, ret, modify, lift. rewrite Hc. cbn. rewrite Hc. cbn.
  destruct (ae_account e) as [acc |]; [done |]. by destruct (d a).
Qed.

Lemma require_vacant_eq a d (s : State T) :
  st_cache s !! a = None ->
  require_or_set a false d s =
    match load_account (st_db s) a with
    | Ok o => require_or_set a false d (insert_cache_if_fresh_account a o s)
    | Err e => (Err e, s)
    | Panic => (Panic, s)
    end.
Proof.
  intros Hc. unfold require_or_set, bind, get, ret, modify, lift. rewrite Hc.
  destruct (load_account (st_db s) a) as [o | |]; [| done..].
  by rewrite !(insert_fresh_lookup s a o Hc).
Qed.

Lemma change_cached_sim a d D f F s w e o :
  (strict -> is_address a) ->
  same_result (shows a) (d a) D -> (forall acc x, shows a acc x -> same_change (shows a) (f acc) (F x)) ->
  refines s w -> st_cache s !! a = Some e -> acct_of <$> ae_account e ≡ o ->
  outcome refines (bind (require_or_set a false d) (fun _ => with_account a f) s)
    (bind (lift (match o with Some x => Ok x | None => D end))
       (fun x => bind (lift (F x)) (fun y => spec_put a y)) w).
Proof.
  intros Hva Hd Hf HR Hc Ho. unfold bind at 1. rewrite (require_cached_eq a d s e Hc).
  assert (refines (mark a e s) w) as HRm by by apply refines_mark.
  assert (journaled a (checkpoints (mark a e s))) as Hj by apply journaled_save.
  destruct (ae_account e) as [acc |] eqn:Hacc.
  - destruct o as [x |]; [| by inversion Ho]. apply (inj Some) in Ho.
    assert (shows a acc x) as Hsh by (split; [by apply (ok_account a e (rf_cache s w HR a e Hc)) | done]).
    apply (with_account_sim (mark a e s) w a (with_state Dirty e) acc); try done; [| by apply Hf].
    cbn. apply lookup_insert_eq.
  - destruct o as [x |]; [by inversion Ho |]. unfold bind at 1, lift at 1.
    destruct (d a) as [acc | |] eqn:Hda, D as [x | |]; cbn in Hd; try done.
    set (s1 := set_cache _ (mark a e s)).
    assert (refines s1 (set_world (world_upd a x (cur w)) w)) as HR1.
    { apply refines_write; [done | done | by apply dirty_ok, Hd |]. constructor. apply Hd. }
    pose proof (with_account_sim s1 _ a (with_entry_account (Some acc) (with_state Dirty e)) acc x f F Hva HR1)
      as Hsim.
    assert (st_cache s1 !! a = Some (with_entry_account (Some acc) (with_state Dirty e))) as Hc1
      by apply lookup_insert_eq.
    specialize (Hsim Hj eq_refl Hc1 eq_refl Hd (Hf acc x Hd)). revert Hsim.
    pose proof (Hf acc x Hd) as Hfx. destruct (with_account a f s1) as [r s2]. unfold bind, lift.
    destruct (F x) as [y | e' |]; [| by destruct (f acc) | by destruct r].
    destruct r as [u | |]; [| by intros []..]. intros [Hu HR2]. split; [exact Hu |].
    apply (refines_world s2 _ _ HR2); cbn; [| done..]. symmetry. apply world_upd_twice.
Qed.

Lemma change_sim a d D f F :
  (strict -> is_address a) ->
  same_result (shows a) (d a) D -> (forall acc x, shows a acc x -> same_change (shows a) (f acc) (F x)) ->
  sim refines (bind (require_or_set a false d) (fun _ => with_account a f)) (spec_change a D F).
Proof.
  intros Hva Hd Hf s w HR. unfold spec_change. unfold bind at 2, spec_lookup.
  destruct (st_cache s !! a) as [e |] eqn:Hc.
  - destruct (lookup_cached s w a e HR Hc) as (o & -> & Ho). by apply (change_cached_sim a d D f F s w e o).
  - pose proof (lookup_vacant s w a HR Hc) as Hl. unfold bind at 1.
    rewrite (require_vacant_eq a d s Hc).
    destruct (load_account (st_db s) a) as [o | |] eqn:Hload; [| by rewrite Hl..].
    destruct Hl as (o' & -> & Ho). rewrite (rf_db s w HR) in Hload.
    apply (change_cached_sim a d D f F (insert_cache_if_fresh_account a o s) w (new_clean o) o'); try done.
    + apply (refines_load s w a o); try done. intros acc ->. by apply (load_ok a (Some acc)).
    + by apply insert_fresh_lookup.
Qed.

(** Replacing an account. *)
Lemma put_sim a acc x :
  (strict -> is_address a) -> shows a acc x -> sim refines (modify (update_cache a (new_dirty (Some acc)))) (spec_put a x).
Proof.
  intros Hva [Hok Hx] s w HR. split; [done |]. unfold update_cache. cbn.
  change (refines (set_cache (<[a := new_dirty (Some acc)]> (st_cache s))
    (set_checkpoints (save_in_checkpoint a (st_cache s !! a) (checkpoints s)) s))
    (set_world (world_upd a x (cur w)) w)).
  refine (refines_write (set_checkpoints _ s) w a _ x _ _ _ _).
  - apply refines_journal; [done | | reflexivity]. intros e He. by apply (rf_cache s w HR).
  - apply journaled_save.
  - split; [done | by intros ? [= <-] | by intros [|]].
  - by constructor.
Qed.

(** *** Checkpoints *)

Lemma map_fold_lookup {A B} (f : Z -> A -> gmap Z B -> gmap Z B) (h : A -> option B -> option B)
    (c : gmap Z B) (m : gmap Z A) a :
  (forall k v c a, f k v c !! a = if decide (a = k) then h v (c !! a) else c !! a) ->
  map_fold f c m !! a = match m !! a with Some v => h v (c !! a) | None => c !! a end.
Proof.
  intros Hf. revert a.
  apply (map_fold_weak_ind (fun r m => forall a,
    r !! a = match m !! a with Some v => h v (c !! a) | None => c !! a end)); [done |].
  intros k v m' r Hk IH a. rewrite Hf. destruct (decide (a = k)) as [-> | Ha].
  - by rewrite lookup_insert_eq, IH, Hk.
  - rewrite lookup_insert_ne by done. apply IH.
Qed.

Lemma merge_lookup (prev c : Checkpoint) a :
  merge_checkpoint prev c !! a = match prev !! a with Some x => Some x | None => c !! a end.
Proof.
  unfold merge_checkpoint.
  rewrite (map_fold_lookup _ (fun v o => match o with Some x => Some x | None => Some v end)).
  - by destruct (c !! a), (prev !! a).
  - intros k v p b. rewrite insert_if_vacant_lookup. by destruct (p !! b), (decide (b = k)).
Qed.

Definition revert_value (v o : option AccountEntry) : option AccountEntry :=
  match v, o with
  | Some v, Some e => Some (ae_overwrite_with e v)
  | Some v, None => Some v
  | None, Some e => if is_dirty e then None else Some e
  | None, None => None
  end.

Lemma revert_lookup (c : Checkpoint) (cache : Cache) a :
  revert_cache c cache !! a =
    match c !! a with Some v => revert_value v (cache !! a) | None => cache !! a end.
Proof.
  apply map_fold_lookup. intros k v m b. unfold revert_entry, revert_value.
  destruct (decide (b = k)) as [-> | Hb].
  - destruct v as [v |], (m !! k) as [e |] eqn:Hm; rewrite ?lookup_insert_eq; try done.
    destruct (is_dirty e); [by rewrite lookup_delete_eq | done].
  - destruct v as [v |], (m !! k) as [e |]; rewrite ?lookup_insert_ne by done; try done.
    destruct (is_dirty e); [by rewrite lookup_delete_ne | done].
Qed.

(** A reverted entry shows what was recorded, or what the database holds. *)
Lemma revert_value_ok a v o :
  (forall e, v = Some e -> entry_ok a e) -> (forall e, o = Some e -> entry_ok a e) ->
  (forall e, revert_value v o = Some e -> entry_ok a e) /\
  view_equiv (entry_view a (revert_value v o)) (entry_view a v).
Proof.
  intros Hv Ho. destruct v as [v |], o as [e |]; cbn [revert_value].
  - specialize (Hv v eq_refl). specialize (Ho e eq_refl).
    assert (view_equiv (entry_view a (Some (ae_overwrite_with e v))) (entry_view a (Some v))) as Hview.
    { unfold entry_view, ae_overwrite_with. cbn. destruct (ae_account v) as [acc |] eqn:Hacc; [| done].
      destruct (ae_account e) as [acc' |] eqn:Hacc'; [| done]. cbn. constructor.
      pose proof (ok_address a acc' (ok_account a e Ho acc' Hacc')) as E'.
      pose proof (ok_address a acc (ok_account a v Hv acc Hacc)) as E.
      split; [| intros k]; cbn; unfold code_view; cbn; rewrite E, E'; done. }
    split; [| done]. intros ? [= <-]. split; [apply (ok_valid a v Hv) | |].
    2: { intros Hd. rewrite Hview. apply (ok_clean a v Hv). cbn in Hd. destruct Hd as [Hd | Hd]; [by left | right].
         destruct (ae_account v); [| done]. by destruct (ae_account e). }
    cbn. destruct (ae_account v) as [acc |] eqn:Hacc; [| done].
    destruct (ae_account e) as [acc' |] eqn:Hacc'; intros ? [= <-]; [| by apply (ok_account a v Hv)].
    pose proof (ok_address a acc' (ok_account a e Ho acc' Hacc')) as E'.
    destruct (ok_account a v Hv acc Hacc) as [E Hty Hr].
    split; [done | intros Hs; by destruct (Hty Hs) |]. intros k x Hk.
    destruct (Hr k x Hk) as [Hf Hb]. split; [| done]. rewrite <- Hf, !fresh_storage_eq. cbn. by rewrite E, E'.
  - split; [done | reflexivity].
  - destruct (is_dirty e) eqn:Hd; [split; [done | reflexivity] |].
    split; [done |]. apply (ok_clean a e (Ho e eq_refl)). by left.
  - split; [done | reflexivity].
Qed.

Lemma revert_cache_spec c cache :
  cache_ok cache -> checkpoint_ok c ->
  cache_ok (revert_cache c cache) /\ world_equiv (world_of (revert_cache c cache)) (restore c (world_of cache)).
Proof.
  intros Hc Hcp. split.
  - intros a e. rewrite revert_lookup. destruct (c !! a) as [v |] eqn:Hv; [| apply Hc].
    apply (revert_value_ok a v (cache !! a)); [intros e' ->; by apply Hcp | intros e'; apply Hc].
  - intros a. unfold world_of, restore. rewrite revert_lookup.
    destruct (c !! a) as [v |] eqn:Hv; [| reflexivity].
    apply (revert_value_ok a v (cache !! a)); [intros e' ->; by apply Hcp | intros e'; apply Hc].
Qed.

Lemma saved_length s w : refines s w -> len (checkpoints s) = len (saved w).
Proof.
  intros HR. pose proof (Forall2_length (rf_saved s w HR)) as Hl. rewrite length_fmap in Hl.
  unfold len. rewrite <- Hl. f_equal. clear. generalize (world_of (st_cache s)).
  induction (checkpoints s) as [| c cps IH]; intros w0; [done |]. cbn. by rewrite <- IH.
Qed.

Lemma checkpoint_sim :
  sim refines (fun self => let '(i, self) := state_checkpoint self in (Ok i, self))
    (fun s => (Ok (len (saved s)), mkSnapshots (cur s) (tokens s) ((cur s, tokens s) :: saved s))).
Proof.
  intros s w HR. cbn. split; [by apply saved_length |]. destruct HR as [Hdb Hc Hcp Hw Ht Hs Hst Hty].
  assert (world_equiv (restore ∅ (world_of (st_cache s))) (world_of (st_cache s))) as He by done.
  split; cbn; try done; [by constructor | | by rewrite Ht, Hst | intros Hstr; destruct (Hty Hstr); by split; [| constructor]].
  constructor; [by rewrite He | by rewrite He].
Qed.

Lemma discard_sim :
  sim refines (modify discard_checkpoint)
    (modify (fun s => mkSnapshots (cur s) (tokens s) (tail (saved s)))).
Proof.
  apply sim_modify. intros s w [Hdb Hc Hcp Hw Ht Hs Hst Hty]. unfold discard_checkpoint.
  destruct (checkpoints s) as [| c cps] eqn:Hcps; cbn in Hs.
  { apply Forall2_nil_inv_l in Hs. destruct w as [cw tw [| p sw]]; [| done].
    split; cbn in *; try done; by rewrite Hcps. }
  apply list.Forall_cons in Hcp as [Hcp Hcps'].
  destruct w as [cw tw [| [w1 t1] sw]]; cbn in *; [by inversion Hs |].
  apply list.Forall2_cons in Hs as [H1 Hs]. split; cbn; try done; [| | by rewrite Hst |].
  3: { intros Hstr. destruct (Hty Hstr) as [? Hf]. rewrite Hst in *. by apply list.Forall_cons in Hf as [_ Hf]. }
  - destruct cps as [| p cps]; [constructor |]. apply list.Forall_cons in Hcps' as [Hp Hcps'].
    constructor; [| done]. case_bool_decide; [done |].
    intros a e. rewrite merge_lookup. destruct (p !! a) eqn:Hpa; [intros [= ->]; by apply Hp | apply Hcp].
  - destruct cps as [| p cps]; cbn in Hs |- *; [done |]. apply Forall2_cons_inv_l in Hs as (w2 & sw2 & H2 & Hs & ->).
    set (pc := if bool_decide (p = ∅) then c else merge_checkpoint p c).
    assert (world_equiv (restore pc (world_of (st_cache s))) (restore p (restore c (world_of (st_cache s))))) as He.
    { intros a. unfold pc, restore. case_bool_decide as Hp; [by rewrite Hp, lookup_empty |].
      rewrite merge_lookup. by destruct (p !! a). }
    constructor; [by rewrite He | by rewrite He].
Qed.

Lemma revert_sim :
  sim refines revert_to_checkpoint
    (modify (fun s => match saved s with [] => s | (w, t) :: rest => mkSnapshots w t rest end)).
Proof.
  intros s w HR. pose proof (saved_length s w HR) as Hlen.
  destruct HR as [Hdb Hc Hcp Hw Ht Hs Hst Hty]. unfold revert_to_checkpoint, modify.
  destruct (checkpoints s) as [| c cps] eqn:Hcps, w as [cw tw [| [w1 t1] sw]]; cbn in *; try done.
  - split; [done |]. split; cbn; try done; by rewrite Hcps.
  - rewrite Hst. cbn. split; [done |]. apply list.Forall_cons in Hcp as [Hcp Hcps'].
    apply list.Forall2_cons in Hs as [H1 Hs]. destruct (revert_cache_spec c (st_cache s) Hc Hcp) as [Hok He].
    split; cbn; try done; [by rewrite He | by rewrite He |].
    intros Hstr. destruct (Hty Hstr) as [_ Hf]. rewrite Hst in Hf. by apply list.Forall_cons in Hf.
Qed.
End refinement.

(** ** Every command *)

(** The arguments of a command are of their types. *)
Definition typed_cmd (c : Cmd) : Prop :=
  match c with
  | CBalance a | CNonce a | CCodeHash a | CCodeSize a | CCode a | CIsContractWithCode a
  | CExists a | CExistsAndNotNull a | CStorageAt a _ | CRemoveContract a | CCleanAccount a
  | CInitCode a _ => is_address a
  | CNewContract a b n _ => is_address a /\ is_u256 b /\ is_u256 n
  | CIncNonce a n | CSetNonce a n | CSubBalance a n _ => is_address a /\ is_u256 n
  | CAddBalance a b _ n => is_address a /\ is_u256 b /\ is_u256 n
  | CTransferBalance a a' b _ n => is_address a /\ is_address a' /\ is_u256 b /\ is_u256 n
  | CSetStorage a _ v => is_address a /\ is_u256 v
  | CAddTotalIssued v | CSubtractTotalIssued v => is_u256 v
  | CTotalIssuedTokens | CCheckpoint | CDiscardCheckpoint | CRevertToCheckpoint => True
  end.

(** The hash function gives 256 bits, and the hash of the empty string for no other string. *)
Definition typed_keccak (keccak : list byte -> Z) : Prop :=
  forall code, is_u256 (keccak code) /\ (keccak code = KECCAK_EMPTY <-> code = []).

Section commands_refine.
Context (keccak : list byte -> Z) `{Rlp} {T : Type} {ST : StorageTrait OwnedStateKey T} (db : T).
Context (strict : Prop) (Htyped : strict -> typed_db db) (Hkeccak : strict -> typed_keccak keccak).

Abbreviation refines := (refines db strict).
Abbreviation shows := (shows db strict).

Definition refines_touched (p : State T * gset Z) (q : Snapshots * gset Z) : Prop :=
  refines p.1 q.1 /\ p.2 = q.2.

Lemma on_state_sim {A} (m : M DbError (State T) A) m' :
  sim refines m m' -> sim refines_touched (on_state m) (on_world m').
Proof.
  intros Hm [s t] [w t'] [HR Ht]. cbn in *. subst t'. specialize (Hm s w HR). unfold on_state, on_world. cbn.
  destruct (m s) as [[a | e |] s1], (m' w) as [[a' | e' |] w1]; cbn in *; try done;
    by destruct Hm as [-> HR'].
Qed.

Lemma read_cmd_sim {U} a (f : option OverlayAccount -> U) (g : option Acct -> U) (k : U -> Answer) :
  (strict -> is_address a) ->
  f None = g None -> (forall acc x, acct_of db acc ≡ x -> f (Some acc) = g (Some x)) ->
  sim refines_touched (answer k (on_state (ensure_account_loaded a RequireNone f)))
    (on_world (spec_read a (fun o => k (g o)))).
Proof.
  intros Hva Hn Hs [s t] [w t'] HR.
  pose proof (on_state_sim _ _ (read_sim db strict Htyped a f g Hva Hn Hs) (s, t) (w, t') HR) as Ho.
  unfold answer, on_state, on_world, spec_read, bind, ret in *. cbn [fst snd] in *.
  destruct (ensure_account_loaded a RequireNone f s) as [[u | |] s1],
    (spec_lookup a w) as [[o | |] w1]; cbn in *; try done.
  by destruct Ho as [-> HR'].
Qed.

Lemma code_cmd_sim {U} a (f : option CodeInfo -> U) (g : option (list byte) -> U) (k : U -> Answer) :
  (strict -> is_address a) -> (forall o, f o = g (ci_code <$> o)) ->
  sim refines_touched (answer k (on_state (ensure_account_loaded a RequireCode (fun acc => f (acc ≫= oa_code)))))
    (answer (fun o => k (g o)) (on_world (spec_code a))).
Proof.
  intros Hva Hfg [s t] [w t'] [HR Ht]. pose proof (code_sim db strict Htyped a f g Hva Hfg s w HR) as Ho. cbn in Ht. subst t'.
  unfold answer, on_state, on_world, bind, ret in *. cbn [fst snd] in *.
  destruct (ensure_account_loaded a RequireCode _ s) as [[u | |] s1], (spec_code a w) as [[o | |] w1];
    cbn in *; try done; by destruct Ho as [-> HR'].
Qed.

Lemma exists_sim a :
  (strict -> is_address a) ->
  sim refines_touched (on_state (state_exists a))
    (on_world (spec_read a (fun o => bool_decide (is_Some o)))).
Proof.
  intros Hva. apply on_state_sim, read_sim; [done.. |]. intros acc x _. by rewrite !bool_decide_eq_true_2.
Qed.

Lemma track_sim a : sim refines_touched (track a) (spec_track a).
Proof. apply sim_modify. intros [s t] [w t'] [HR Ht]. split; [done |]. cbn in *. by subst. Qed.

Lemma shows_empty a balance nonce layout new invalidated rc :
  (strict -> is_u256 balance /\ is_u256 nonce) ->
  rc = mkOverlayAccount a balance nonce ∅ ∅ layout KECCAK_EMPTY None new invalidated ->
  shows a rc (empty_acct db a balance nonce layout new invalidated).
Proof.
  intros Hty ->. split; [split; [done | | intros k v; cbn; by rewrite lookup_empty] |].
  { intros Hs. destruct (Hty Hs). split; cbn; done. }
  split; [done |]. intros k. cbn. by rewrite lookup_empty.
Qed.

Lemma new_basic_shows a n :
  (strict -> is_u256 n) ->
  same_result (shows a) (Ok (new_basic a 0 n)) (Ok (empty_acct db a 0 n None false false)).
Proof. intros Hn. apply shows_empty; [| done]. intros Hs. split; [done | by apply Hn]. Qed.

(** Changes of the balance or nonce show as such. *)
Lemma set_balance_shows a acc x b :
  (strict -> is_u256 b) -> shows a acc x -> shows a (set_balance_of b acc) (put_balance b x).
Proof.
  intros Hn [[Ha Hty Hr] [Hf Hs]].
  split; [split; [done | intros Hstr; destruct (Hty Hstr); split; cbn; auto | done] |]. split; [| exact Hs].
  injection Hf as E1 E2 E3 E4 E5 E6 E7. cbn. by rewrite <- ?E1, <- ?E2, <- ?E3, <- ?E4, <- E5, <- E6, <- E7.
Qed.

Lemma set_nonce_shows a acc x n :
  (strict -> is_u256 n) -> shows a acc x -> shows a (oa_set_nonce n acc) (put_nonce n x).
Proof.
  intros Hn [[Ha Hty Hr] [Hf Hs]].
  split; [split; [done | intros Hstr; destruct (Hty Hstr); split; cbn; auto | done] |]. split; [| exact Hs].
  injection Hf as E1 E2 E3 E4 E5 E6 E7. cbn. by rewrite <- ?E1, <- ?E2, <- ?E3, <- ?E4, <- E5, <- E6, <- E7.
Qed.

Lemma shows_fields a acc x :
  shows a acc x ->
  oa_balance acc = a_balance x /\ oa_nonce acc = a_nonce x /\ oa_code_hash acc = a_code_hash x.
Proof. intros [_ [Hf _]]. by injection Hf. Qed.

Lemma shows_typed a acc x :
  shows a acc x -> strict -> is_u256 (a_balance x) /\ is_u256 (a_nonce x) /\ is_u256 (a_code_hash x).
Proof.
  intros Hx Hs. destruct (shows_fields a acc x Hx) as (<- & <- & <-).
  destruct Hx as [[_ Hty _] _]. by destruct (Hty Hs).
Qed.

Lemma sub_shows a by_ acc x :
  (strict -> is_u256 by_) ->
  shows a acc x -> same_change (shows a) (oa_sub_balance by_ acc) (spec_sub by_ x).
Proof.
  intros Hby Hx. unfold oa_sub_balance, spec_sub. destruct (shows_fields a acc x Hx) as (-> & _ & _).
  destruct (by_ <=? a_balance x) eqn:Hle; [| done]. b2p. apply set_balance_shows; [| done]. intros Hs.
  destruct (shows_typed a acc x Hx Hs) as ([] & _), (Hby Hs). unfold is_u256, is_word. lia.
Qed.

Lemma add_shows a by_ acc x :
  (strict -> is_u256 by_) ->
  shows a acc x -> same_change (shows a) (oa_add_balance by_ acc) (spec_add by_ x).
Proof.
  intros Hby Hx. unfold oa_add_balance, spec_add. destruct (shows_fields a acc x Hx) as (-> & _ & _).
  unfold checked_add. case_if; [| done]. apply set_balance_shows; [| done]. intros Hs.
  destruct (shows_typed a acc x Hx Hs) as ([] & _), (Hby Hs). unfold is_u256, is_word. lia.
Qed.

Lemma inc_shows a acc x :
  shows a acc x -> same_change (shows a) (oa_inc_nonce acc) (spec_inc x).
Proof.
  intros Hx. unfold oa_inc_nonce, spec_inc. destruct (shows_fields a acc x Hx) as (_ & -> & _).
  unfold checked_add. case_if; [| done]. apply set_nonce_shows; [| done]. intros Hs.
  destruct (shows_typed a acc x Hx Hs) as (_ & [] & _). unfold is_u256, is_word. lia.
Qed.

Lemma init_code_shows a code acc x :
  shows a acc x -> shows a (oa_init_code keccak code acc) (put_code keccak code x).
Proof.
  intros [[Ha Hty Hr] [Hf Hs]].
  split; [split; [done | | done] |].
  { intros Hstr. destruct (Hty Hstr), (Hkeccak Hstr code). split; cbn; try done. by intros ? [= <-]. }
  split; [| exact Hs]. injection Hf as E1 E2 E3 E4 E5 E6 E7. cbn. by rewrite <- E1, <- E2, <- E5, <- E6, <- E7.
Qed.

Lemma set_storage_shows a k v acc x :
  (strict -> is_u256 v) ->
  shows a acc x -> shows a (oa_set_storage k v acc) (put_storage k v x).
Proof.
  intros Hv [[Ha Hty Hr] [Hf Hs]]. split; [split; [done | | done] |].
  { intros Hstr. destruct (Hty Hstr) as [? ? ? Hst ?]. split; cbn; try done.
    intros k' v' [[<- <-] | [_ Hk]]%lookup_insert_Some; [by apply Hv | by apply (Hst k')]. }
  split; [exact Hf |]. intros k'. cbn.
  destruct (decide (k' = k)) as [-> | Hk]; [by rewrite lookup_insert_eq |].
  rewrite lookup_insert_ne by done. apply Hs.
Qed.

(** Picks out of what typing gives the part the goal needs. *)
Ltac by_typing :=
  let Hs := fresh in
  intros Hs; repeat match goal with H : ?P -> _, H' : ?P |- _ => specialize (H H') end; tauto.

Lemma sub_balance_sim a by_ m :
  (strict -> is_address a /\ is_u256 by_) ->
  sim refines_touched (state_sub_balance a by_ m) (spec_sub_balance a by_ m).
Proof.
  intros Hc. assert (strict -> is_address a) as Hva by by_typing. apply sim_bind.
  - destruct (negb (by_ =? 0)); [| apply sim_ret]. apply on_state_sim, change_sim; [done.. |].
    intros acc x. apply sub_shows. by_typing.
  - intros _. destruct m; try apply sim_ret. apply sim_bind; [by apply exists_sim |].
    intros []; [apply track_sim | apply sim_ret].
Qed.

Lemma add_balance_sim a by_ m n :
  (strict -> is_address a /\ is_u256 by_ /\ is_u256 n) ->
  sim refines_touched (state_add_balance a by_ m n) (spec_add_balance db a by_ m n).
Proof.
  intros Hc. assert (strict -> is_address a) as Hva by by_typing.
  apply sim_bind; [by apply exists_sim |]. intros b. apply sim_bind.
  - destruct (_ || _); [| apply sim_ret].
    apply on_state_sim, change_sim; [done.. | apply new_basic_shows; by_typing |].
    intros acc x. apply add_shows. by_typing.
  - intros _. destruct m; try apply sim_ret. destruct b; [apply track_sim | apply sim_ret].
Qed.

Lemma new_contract_sim a b n l :
  (strict -> is_address a /\ is_u256 b /\ is_u256 n) ->
  sim refines (new_contract a b n l)
    (inv <~ spec_read a (fun o => match o with Some x => a_invalidated x | None => false end) ;;
     spec_put a (empty_acct db a b n l true inv)).
Proof.
  intros Hc. assert (strict -> is_address a) as Hva by by_typing.
  apply sim_bind; [apply read_sim; [done.. |]; intros acc x [Hf _]; by injection Hf |].
  intros inv. apply put_sim; [done |]. apply shows_empty; [by_typing | done].
Qed.

Lemma set_storage_sim a k v :
  (strict -> is_address a /\ is_u256 v) ->
  sim refines (state_set_storage a k v)
    (old <~ spec_storage_at a k ;;
     if negb (old =? v) then spec_change a (Err (IncompleteDatabase a)) (fun x => Ok (put_storage k v x))
     else ret tt).
Proof.
  intros Hc. assert (strict -> is_address a) as Hva by by_typing.
  apply sim_bind; [by apply storage_at_sim |]. intros old. destruct (negb (old =? v)); [| apply sim_ret].
  apply change_sim; [done.. |]. intros acc x. apply set_storage_shows. by_typing.
Qed.

Lemma add_total_issued_sim v :
  (strict -> is_u256 v) ->
  sim refines (add_total_issued v)
    (s <~ get ;;
     if bool_decide ((saved s).*2 = []) then
       n <~ lift (checked_add 256 (tokens s) v) ;;
       modify (fun s => mkSnapshots (cur s) n (saved s))
     else panic).
Proof.
  intros Hv s w HR. unfold add_total_issued, bind, get.
  rewrite (rf_saved_tokens _ _ s w HR), (rf_tokens _ _ s w HR).
  case_bool_decide; [| done]. unfold lift, checked_add. case_if; [| done]. split; [done |].
  destruct HR as [? ? ? ? Ht ? ? Hty]. split; cbn; try done. intros Hs.
  destruct (Hty Hs) as [[] ?], (Hv Hs). rewrite Ht in *. split; [unfold is_u256, is_word; lia | done].
Qed.

Lemma subtract_total_issued_sim v :
  (strict -> is_u256 v) ->
  sim refines (modify (subtract_total_issued v))
    (modify (fun s => mkSnapshots (cur s) (Z.max 0 (tokens s - v)) (saved s))).
Proof.
  intros Hv. apply sim_modify. intros s w [? ? ? ? Ht ? ? Hty].
  split; cbn; try done; [by rewrite Ht |]. intros Hs.
  destruct (Hty Hs) as [[] ?], (Hv Hs). split; [unfold is_u256, is_word; lia | done].
Qed.

Lemma cmd_sim c :
  (strict -> typed_cmd c) -> sim refines_touched (exec_cmd keccak c) (spec_cmd keccak db c).
Proof.
  assert (forall acc x, acct_of db acc ≡ x ->
    oa_balance acc = a_balance x /\ oa_nonce acc = a_nonce x /\ oa_code_hash acc = a_code_hash x) as Hx.
  { intros acc x [Hf _]. by injection Hf. }
  destruct c; cbn [exec_cmd spec_cmd typed_cmd]; intros Hc.
  - refine (read_cmd_sim _ _ _ ANum Hc _ _); [done |]. intros acc x Hax. by apply Hx.
  - refine (read_cmd_sim _ _ _ ANum Hc _ _); [done |]. intros acc x Hax. by apply Hx.
  - refine (read_cmd_sim _ _ _ AOptNum Hc _ _); [done |]. intros acc x Hax. cbn. f_equal. by apply Hx.
  - refine (code_cmd_sim _ (fun o => code_size <$> o) (fun o => len <$> o) AOptNum Hc _). by intros [].
  - by refine (code_cmd_sim _ (fun o => ci_code <$> o) id ABytes Hc _).
  - refine (read_cmd_sim _ _ (fun o => match o with Some x => negb (a_code_hash x =? KECCAK_EMPTY) | None => false end) ABool Hc _ _);
      [done |]. intros acc x Hax. by destruct (Hx acc x Hax) as (_ & _ & ->).
  - refine (read_cmd_sim _ _ (fun o => bool_decide (is_Some o)) ABool Hc _ _); [done |].
    intros acc x _. by rewrite !bool_decide_eq_true_2.
  - refine (read_cmd_sim _ _ (fun o => match o with Some x => negb (is_null_acct x) | None => false end) ABool Hc _ _);
      [done |]. intros acc x Hax. unfold is_null, is_null_acct. by destruct (Hx acc x Hax) as (-> & -> & ->).
  - by apply sim_answer, on_state_sim, storage_at_sim.
  - intros [s t] [w t'] HR. split; [| done]. f_equal. apply HR.
  - by apply sim_answer, on_state_sim, new_contract_sim.
  - apply sim_answer, on_state_sim, put_sim; [done |]. by apply shows_empty.
  - apply sim_answer, on_state_sim, change_sim; [done.. | by apply new_basic_shows |].
    intros acc x _. by apply shows_empty.
  - apply sim_answer, on_state_sim, change_sim; [done.. |]. intros acc x. apply init_code_shows.
  - apply sim_answer, on_state_sim, change_sim; [done | by_typing | apply new_basic_shows; by_typing |].
    intros acc x. apply inc_shows.
  - apply sim_answer, on_state_sim, change_sim; [done | by_typing | apply new_basic_shows; by_typing |].
    intros acc x. apply set_nonce_shows. by_typing.
  - by apply sim_answer, sub_balance_sim.
  - by apply sim_answer, add_balance_sim.
  - apply sim_answer, sim_bind; [apply sub_balance_sim | intros _; apply add_balance_sim]; by_typing.
  - by apply sim_answer, on_state_sim, set_storage_sim.
  - by apply sim_answer, on_state_sim, add_total_issued_sim.
  - by apply sim_answer, on_state_sim, subtract_total_issued_sim.
  - apply sim_answer, on_state_sim, checkpoint_sim.
  - apply sim_answer, on_state_sim, discard_sim.
  - apply sim_answer, on_state_sim, revert_sim.
Qed.
End commands_refine.

(** The state after the commands, if none panics *)
Fixpoint run_state {S} (exec : Cmd -> M DbError S Answer) (cmds : list Cmd) (s : S) : option S :=
  match cmds with
  | [] => Some s
  | c :: cmds =>
      let '(r, s) := exec c s in
      match r with Panic => None | _ => run_state exec cmds s end
  end.

Lemma run_cmds_sim {S S'} (R : S -> S' -> Prop) exec exec' cmds s s' :
  Forall (fun c => sim R (exec c) (exec' c)) cmds -> R s s' ->
  run_cmds exec cmds s = run_cmds exec' cmds s' /\
  option_Forall2 R (run_state exec cmds s) (run_state exec' cmds s').
Proof.
  intros Hsim. revert s s'. induction Hsim as [| c cmds Hc _ IH]; intros s s' HR.
  { split; [done | by constructor]. }
  cbn. specialize (Hc s s' HR). unfold outcome in Hc.
  destruct (exec c s) as [[a | e |] s1], (exec' c s') as [[a' | e' |] s1']; try done.
  - destruct Hc as [-> HR1], (IH _ _ HR1) as [-> Hst]. by split.
  - destruct Hc as [-> HR1], (IH _ _ HR1) as [-> Hst]. by split.
  - split; [done | constructor].
Qed.

Lemma refines_new `{Rlp} {T} {ST : StorageTrait OwnedStateKey T} (db : T) (strict : Prop) s :
  State_new db = Ok s -> (strict -> is_u256 (world_statistics s)) ->
  refines db strict s (snapshots_new db (world_statistics s)).
Proof.
  unfold State_new. destruct (get_total_issued_tokens db) as [n | |]; cbn; [| done..]. intros [= <-] Hn.
  split; try done; intros Hs; split; [by apply Hn | done].
Qed.

(** Commands on a fresh state, with the types of the program or without *)
Lemma run_refines (keccak : list byte -> Z) `{Rlp} {T : Type} {ST : StorageTrait OwnedStateKey T}
    (db : T) (strict : Prop) (s : State T) (cmds : list Cmd) :
  (strict -> typed_db db) -> (strict -> typed_keccak keccak) ->
  (strict -> is_u256 (world_statistics s)) -> (strict -> Forall typed_cmd cmds) ->
  State_new db = Ok s ->
  let w := snapshots_new db (world_statistics s) in
  run_cmds (exec_cmd keccak) cmds (s, ∅) = run_cmds (spec_cmd keccak db) cmds (w, ∅) /\
  option_Forall2 (refines_touched db strict)
    (run_state (exec_cmd keccak) cmds (s, ∅)) (run_state (spec_cmd keccak db) cmds (w, ∅)).
Proof.
  intros Hdb Hk Hn Hcmds Hs. apply run_cmds_sim.
  - apply list.Forall_forall. intros c Hc. apply cmd_sim; [done.. |]. intros Hstr.
    specialize (Hcmds Hstr). rewrite list.Forall_forall in Hcmds. by apply Hcmds.
  - split; [by apply refines_new | done].
Qed.

(** C2. The world state refines its specification: starting from a fresh state over any database,
    every sequence of operations, reads and checkpoint operations (checkpoints nested in any way,
    discarded or reverted, also when there is none) gives exactly the answers, errors and panics of
    the machine that keeps a whole copy of the world per checkpoint. The journal of changed
    accounts, the caches, dirty flags, lazily loaded code and copy-on-write storage of the
    implementation are invisible. *)
Theorem state_refines_snapshots (keccak : list byte -> Z) `{Rlp} {T : Type}
    {ST : StorageTrait OwnedStateKey T} (db : T) (s : State T) (cmds : list Cmd) :
  State_new db = Ok s ->
  run_cmds (exec_cmd keccak) cmds (s, ∅) =
    run_cmds (spec_cmd keccak db) cmds (snapshots_new db (world_statistics s), ∅).
Proof.
  intros Hs. by apply (run_refines keccak db False).
Qed.

#[local] Existing Instance sample_rlp.

Lemma new_in_memory : State_new (∅ : InMemoryDb) = Ok (mkState ∅ [] ∅ 0 [] []).
Proof.
  unfold State_new, get_total_issued_tokens, db_get, get_raw.
  cbn [storage_get in_memory_state StorageKeyWrapper in_memory_storage]. by rewrite lookup_empty.
Qed.

Lemma state_refines_snapshots_witness :
  let cmds := [CAddBalance 5 100 NoEmpty 0; CCheckpoint; CSetStorage 5 [x01]%byte 7;
               CTransferBalance 5 6 30 NoEmpty 0; CCheckpoint; CRemoveContract 5; CBalance 5;
               CDiscardCheckpoint; CRevertToCheckpoint; CBalance 5; CStorageAt 5 [x01]%byte] in
  exists s, State_new (∅ : InMemoryDb) = Ok s /\
    run_cmds (exec_cmd (fun _ => 0)) cmds (s, ∅) =
      run_cmds (spec_cmd (fun _ => 0) (∅ : InMemoryDb)) cmds (snapshots_new ∅ (world_statistics s), ∅) /\
    run_cmds (exec_cmd (fun _ => 0)) cmds (s, ∅) !! 9%nat = Some (Ok (ANum 100)).
Proof.
  intros cmds. exists (mkState ∅ [] ∅ 0 [] []). split; [apply new_in_memory |]. split.
  - apply (state_refines_snapshots (fun _ => 0) (∅ : InMemoryDb)), new_in_memory.
  - vm_compute. reflexivity.
Defined.
