(* ===== verification/WorldTypes.v ===== *)
(** * The types of the world state

    The operations of the world state (src/cfx-evm/src/state/mod.rs) on arguments of their types:
    addresses of 20 bytes, amounts, nonces and stored values of 256 bits. Values of these types are
    what the operations return and what the accounts hold, and only the operations that add or
    subtract can panic. The types are checked on the specification (WorldSpec.v); the refinement
    carries them to the implementation. *)

From stdpp Require Import gmap.
From S2P Require Import Prelude Word Arith SharedCache VmTypes FrameContext StateDb WorldState WorldSpec.
Local Open Scope Z_scope.

(** The operations that assert, or add or subtract amounts of the type [U256], which panics on
    overflow *)
Definition may_panic (c : Cmd) : bool :=
  match c with
  | CIncNonce _ _ | CSubBalance _ _ _ | CAddBalance _ _ _ _ | CTransferBalance _ _ _ _ _
  | CAddTotalIssued _ => true
  | _ => false
  end.

Definition typed_answer (c : Cmd) (a : Answer) : Prop :=
  match c, a with
  | (CBalance _ | CNonce _ | CStorageAt _ _ | CTotalIssuedTokens), ANum z => is_u256 z
  | CCheckpoint, ANum z => 0 <= z
  | CCodeHash _, AOptNum o => forall h, o = Some h -> is_u256 h
  | CCodeSize _, AOptNum o => forall n, o = Some n -> 0 <= n
  | CCode _, ABytes _ => True
  | (CIsContractWithCode _ | CExists _ | CExistsAndNotNull _), ABool _ => True
  | (CNewContract _ _ _ _ | CRemoveContract _ | CCleanAccount _ | CInitCode _ _ | CIncNonce _ _
    | CSetNonce _ _ | CSubBalance _ _ _ | CAddBalance _ _ _ _ | CTransferBalance _ _ _ _ _
    | CSetStorage _ _ _ | CAddTotalIssued _ | CSubtractTotalIssued _ | CDiscardCheckpoint
    | CRevertToCheckpoint), AUnit => True
  | _, _ => False
  end.

Definition typed_result (c : Cmd) (r : db_result Answer) : Prop :=
  match r with
  | Ok a => typed_answer c a
  | Err _ => True
  | Panic => may_panic c = true
  end.

(** A database whose reads return, with a value or an error *)
Record calm_db `{Rlp} {T : Type} {ST : StorageTrait OwnedStateKey T} (db : T) : Prop := {
  cd_account : forall a, get_account db a <> Panic;
  cd_code : forall a h, get_code db a h <> Panic;
  cd_storage : forall a k, base_storage db a k <> Panic;
}.

(** ** Typed worlds *)

Definition returns {A} (Q : A -> Prop) (r : db_result A) : Prop := rwp r Q (fun _ => True).

Record typed_acct (x : Acct) : Prop := {
  tx_balance : is_u256 (a_balance x);
  tx_nonce : is_u256 (a_nonce x);
  tx_code_hash : is_u256 (a_code_hash x);
  tx_code : returns (fun _ => True) (a_code x);
  tx_storage : forall k, returns is_u256 (a_storage x k);
}.

Definition typed_world (w : World) : Prop :=
  forall a, returns (fun o => forall x, o = Some x -> typed_acct x) (w a).

Record typed_snapshots (s : Snapshots) : Prop := {
  ts_cur : typed_world (cur s);
  ts_tokens : is_u256 (tokens s);
  ts_saved : Forall (fun p => typed_world p.1 /\ is_u256 p.2) (saved s);
}.

(** ** A typing judgement for computations *)

Section types.
Context {S : Type} (I : S -> Prop).

(** From a state that satisfies [I], [m] ends in one; it returns a value that satisfies [Q] or
    fails, and panics only if [may]. *)
Definition types {A} (m : M DbError S A) (Q : A -> Prop) (may : bool) : Prop :=
  forall s, I s -> match m s with
    | (Ok a, s') => Q a /\ I s'
    | (Err _, s') => I s'
    | (Panic, _) => may = true
    end.

Lemma types_ret {A} (a : A) (Q : A -> Prop) may : Q a -> types (ret a) Q may.
Proof. by intros HQ s. Qed.

Lemma types_bind {A B} (m : M DbError S A) (k : A -> M DbError S B) (Q : A -> Prop) (Q' : B -> Prop) may :
  types m Q may -> (forall a, Q a -> types (k a) Q' may) -> types (bind m k) Q' may.
Proof.
  intros Hm Hk s Hs. specialize (Hm s Hs). unfold bind. destruct (m s) as [[a | e |] s']; [| done..].
  destruct Hm. by apply Hk.
Qed.

Lemma types_lift {A} (r : db_result A) (Q : A -> Prop) may :
  (r = Panic -> may = true) -> (forall a, r = Ok a -> Q a) -> types (lift r) Q may.
Proof. intros HP HQ s Hs. unfold lift. destruct r; [split; [by apply HQ | done] | done | by apply HP]. Qed.

Lemma types_modify (f : S -> S) (Q : unit -> Prop) may :
  (forall s, I s -> I (f s)) -> Q tt -> types (modify f) Q may.
Proof. intros Hf HQ s Hs. split; [done | by apply Hf]. Qed.

Lemma types_mono {A} (m : M DbError S A) (Q Q' : A -> Prop) may :
  types m Q may -> (forall a, Q a -> Q' a) -> types m Q' may.
Proof.
  intros Hm HQ s Hs. specialize (Hm s Hs). destruct (m s) as [[] ?]; [| done..]. destruct Hm. split; auto.
Qed.

Lemma types_answer {A} (f : A -> Answer) (m : M DbError S A) (Q : A -> Prop) (Q' : Answer -> Prop) may :
  types m Q may -> (forall a, Q a -> Q' (f a)) -> types (answer f m) Q' may.
Proof. intros Hm HQ. eapply types_bind; [exact Hm |]. intros a Ha. apply types_ret, HQ, Ha. Qed.
End types.

Lemma types_on_world {A} (m : M DbError Snapshots A) Q may :
  types typed_snapshots m Q may ->
  types (fun p : Snapshots * gset Z => typed_snapshots p.1) (on_world m) Q may.
Proof.
  intros Hm [w t] Hw. specialize (Hm w Hw). unfold on_world. cbn. by destruct (m w) as [[] ?].
Qed.

(** ** The specification is typed *)

Section spec_types.
Context (keccak : list byte -> Z) (Hkeccak : typed_keccak keccak).
Context `{Rlp} {T : Type} {ST : StorageTrait OwnedStateKey T} (db : T).
Context (Hdb : typed_db db) (Hcalm : calm_db db).

Abbreviation typing := (types typed_snapshots).

Lemma base_storage_typed a k : returns is_u256 (base_storage db a k).
Proof.
  unfold returns, rwp. destruct (base_storage db a k) eqn:Hk; [| done |].
  - by apply (td_storage db Hdb a k).
  - by apply (cd_storage db Hcalm a k).
Qed.

Lemma base_world_typed : typed_world (base_world db).
Proof.
  intros a. unfold base_world. destruct (get_account db a) as [[x |] | e |] eqn:Ha; [| done.. |].
  - cbn. intros y [= <-]. destruct (td_account db Hdb a x Ha) as (? & ? & ?).
    split; cbn; [done.. | | intros k; apply base_storage_typed].
    unfold base_code. destruct (_ =? _); [done |].
    destruct (get_code db a (acc_code_hash x)) as [[c |] | |] eqn:Hc; [done.. |].
    by apply (cd_code db Hcalm a (acc_code_hash x)).
  - by apply (cd_account db Hcalm a).
Qed.

Lemma empty_acct_typed a b n l new inv :
  is_u256 b -> is_u256 n -> typed_acct (empty_acct db a b n l new inv).
Proof.
  intros Hb Hn. split; cbn; try done. intros k. unfold storage_from.
  destruct (_ || _); [done | apply base_storage_typed].
Qed.

Lemma lookup_typed a may :
  typing (spec_lookup a) (fun o => forall x, o = Some x -> typed_acct x) may.
Proof.
  intros s Hs. unfold spec_lookup. pose proof (ts_cur s Hs a) as Ha. by destruct (cur s a) as [o | |].
Qed.

Lemma read_typed {A} a (f : option Acct -> A) (Q : A -> Prop) :
  (forall o, (forall x, o = Some x -> typed_acct x) -> Q (f o)) -> typing (spec_read a f) Q false.
Proof.
  intros HQ. eapply types_bind; [apply lookup_typed |]. intros o Ho. by apply types_ret, HQ.
Qed.

Lemma put_typed a x may : typed_acct x -> typing (spec_put a x) (fun _ => True) may.
Proof.
  intros Hx. apply types_modify; [| done]. intros s [Hc Ht Hs]. split; cbn; [| done..].
  intros b. unfold world_upd. destruct (decide (b = a)); [by intros y [= <-] | apply Hc].
Qed.

Lemma change_typed a o f may :
  (forall x, o = Ok x -> typed_acct x) -> o <> Panic ->
  (forall x, typed_acct x -> (f x = Panic -> may = true) /\ forall y, f x = Ok y -> typed_acct y) ->
  typing (spec_change a o f) (fun _ => True) may.
Proof.
  intros Ho Hp Hf. eapply types_bind; [apply lookup_typed |]. intros o' Ho'.
  eapply (types_bind _ _ _ typed_acct).
  - apply types_lift; destruct o'; [done.. | |]; [intros x [= <-]; by apply Ho' | apply Ho].
  - intros x Hx. destruct (Hf x Hx) as [HP HQ].
    eapply (types_bind _ _ _ typed_acct); [by apply types_lift |]. intros y Hy. by apply put_typed.
Qed.

Lemma new_acct_typed a n : is_u256 n -> forall x, Ok (empty_acct db a 0 n None false false) = Ok x :> db_result Acct -> typed_acct x.
Proof. intros Hn x [= <-]. by apply empty_acct_typed. Qed.

(** *** The changes of an account *)

Lemma put_balance_typed b x : is_u256 b -> typed_acct x -> typed_acct (put_balance b x).
Proof. intros Hb []. by split. Qed.

Lemma put_nonce_typed n x : is_u256 n -> typed_acct x -> typed_acct (put_nonce n x).
Proof. intros Hn []. by split. Qed.

Lemma put_code_typed c x : typed_acct x -> typed_acct (put_code keccak c x).
Proof. intros []. split; try done. apply (Hkeccak c). Qed.

Lemma put_storage_typed k v x : is_u256 v -> typed_acct x -> typed_acct (put_storage k v x).
Proof. intros Hv []. split; try done. intros k'. cbn. by destruct (decide (k' = k)). Qed.

Lemma checked_add_typed {E} x y z :
  is_u256 x -> is_u256 y -> @checked_add E 256 x y = Ok z -> is_u256 z.
Proof.
  intros [] []. unfold checked_add. case_if; [| done]. intros [= <-]. unfold is_u256, is_word. lia.
Qed.

Lemma sub_balance_typed a by_ m :
  is_u256 by_ -> types (fun p => typed_snapshots p.1) (spec_sub_balance a by_ m) (fun _ => True) true.
Proof.
  intros Hb. eapply (types_bind _ _ _ (fun _ => True)).
  - destruct (negb (by_ =? 0)); [| by apply types_ret]. apply types_on_world, change_typed; [done.. |].
    intros x Hx. split; [done |]. intros y. unfold spec_sub. destruct (by_ <=? a_balance x) eqn:Hle; [| done].
    intros [= <-]. b2p. apply put_balance_typed; [| done].
    destruct (tx_balance x Hx), Hb. unfold is_u256, is_word. lia.
  - intros _ _. destruct m; try by apply types_ret.
    eapply (types_bind _ _ _ (fun _ => True)).
    + eapply types_on_world, (types_bind _ _ _ (fun _ => True)); [| by intros; apply types_ret].
      eapply types_mono; [apply lookup_typed | done].
    + intros [] _; [by apply types_modify | by apply types_ret].
Qed.

Lemma add_balance_typed a by_ m n :
  is_u256 by_ -> is_u256 n ->
  types (fun p => typed_snapshots p.1) (spec_add_balance db a by_ m n) (fun _ => True) true.
Proof.
  intros Hb Hn. eapply (types_bind _ _ _ (fun _ => True)).
  { eapply types_on_world, (types_bind _ _ _ (fun _ => True)); [| by intros; apply types_ret].
    eapply types_mono; [apply lookup_typed | done]. }
  intros b _. eapply (types_bind _ _ _ (fun _ => True)).
  - destruct (_ || _); [| by apply types_ret].
    apply types_on_world, change_typed; [by apply new_acct_typed | done |].
    intros x Hx. split; [done |]. intros y. unfold spec_add.
    destruct (checked_add 256 (a_balance x) by_) as [z | |] eqn:Hz; cbn; [| done..]. intros [= <-].
    apply put_balance_typed; [| done]. eapply checked_add_typed; [apply Hx | exact Hb | exact Hz].
  - intros _ _. destruct m; try by apply types_ret.
    destruct b; [by apply types_modify | by apply types_ret].
Qed.

Lemma code_typed a may : typing (spec_code a) (fun _ => True) may.
Proof.
  eapply types_bind; [apply lookup_typed |]. intros [x |] Ho; [| by apply types_ret].
  apply types_lift; [| done]. intros Hp. destruct (Ho x eq_refl) as [_ _ _ Hc _]. by rewrite Hp in Hc.
Qed.

Lemma storage_at_typed a k may : typing (spec_storage_at a k) is_u256 may.
Proof.
  eapply types_bind; [apply lookup_typed |]. intros [x |] Ho; [| by apply types_ret].
  pose proof (tx_storage x (Ho x eq_refl) k) as Hk. apply types_lift.
  - intros Hp. by rewrite Hp in Hk.
  - intros v Hv. by rewrite Hv in Hk.
Qed.

Lemma unit_typed (m : M DbError (Snapshots * gset Z) unit) (Q : Answer -> Prop) may :
  Q AUnit -> types (fun p => typed_snapshots p.1) m (fun _ => True) may ->
  types (fun p => typed_snapshots p.1) (done_ m) Q may.
Proof. intros HQ Hm. by eapply types_answer. Qed.

Lemma add_total_issued_typed v :
  is_u256 v ->
  typing (s <~ get ;;
     if bool_decide ((saved s).*2 = []) then
       n <~ lift (checked_add 256 (tokens s) v) ;;
       modify (fun s => mkSnapshots (cur s) n (saved s))
     else panic) (fun _ => True) true.
Proof.
  intros Hv s Hs. unfold bind, get. case_bool_decide; [| done]. unfold lift, panic.
  destruct (checked_add 256 (tokens s) v) as [n | |] eqn:Hn; cbn; [| done..]. split; [done |].
  destruct Hs as [Hc Ht Hs]. split; cbn; [done | | done]. by apply (checked_add_typed (E := DbError) (tokens s) v).
Qed.

Lemma subtract_total_issued_typed v may :
  is_u256 v ->
  typing (modify (fun s => mkSnapshots (cur s) (Z.max 0 (tokens s - v)) (saved s))) (fun _ => True) may.
Proof.
  intros [Hv _]. apply types_modify; [| done]. intros s [Hc [Ht Ht'] Hs]. split; cbn; try done.
  unfold is_u256, is_word. lia.
Qed.

Lemma checkpoints_typed :
  typing (fun s => (Ok (len (saved s)), mkSnapshots (cur s) (tokens s) ((cur s, tokens s) :: saved s)))
    (fun z => 0 <= z) false /\
  typing (modify (fun s => mkSnapshots (cur s) (tokens s) (tail (saved s)))) (fun _ => True) false /\
  typing (modify (fun s => match saved s with [] => s | (w, t) :: rest => mkSnapshots w t rest end))
    (fun _ => True) false.
Proof.
  split; [| split].
  - intros s [Hc Ht Hs]. split; [unfold len; lia |]. split; cbn; try done. by constructor.
  - apply types_modify; [| done]. intros s [Hc Ht Hs]. split; cbn; try done. by destruct Hs.
  - apply types_modify; [| done]. intros s Hs. destruct (saved s) as [| [w t] rest] eqn:E; [done |].
    destruct Hs as [_ _ Hs]. rewrite E in Hs. apply list.Forall_cons in Hs as [[] ?]. by split.
Qed.

Lemma cmd_typed c :
  typed_cmd c ->
  types (fun p => typed_snapshots p.1) (spec_cmd keccak db c) (typed_answer c) (may_panic c).
Proof.
  destruct checkpoints_typed as (Hcp & Hdis & Hrev).
  destruct c; cbn [typed_cmd spec_cmd may_panic]; intros Hc; destruct_and? Hc.
  - apply types_on_world, read_typed. intros [x |] Ho; [by apply Ho | done].
  - apply types_on_world, read_typed. intros [x |] Ho; [by apply Ho | done].
  - apply types_on_world, read_typed. intros [x |] Ho h; [intros [= <-]; by apply Ho | done].
  - eapply types_answer; [apply types_on_world, code_typed |].
    intros [code |] _ n; [intros [= <-]; unfold len; lia | done].
  - eapply types_answer; [apply types_on_world, code_typed | done].
  - apply types_on_world, read_typed. done.
  - apply types_on_world, read_typed. done.
  - apply types_on_world, read_typed. done.
  - by eapply types_answer; [apply types_on_world, storage_at_typed |].
  - intros [s t] Hs. split; [apply Hs | done].
  - apply unit_typed, types_on_world; [done |]. eapply (types_bind _ _ _ (fun _ => True)).
    + by apply read_typed.
    + intros inv _. by apply put_typed, empty_acct_typed.
  - apply unit_typed, types_on_world; [done |]. by apply put_typed, empty_acct_typed.
  - apply unit_typed, types_on_world; [done |]. apply change_typed; [by apply new_acct_typed | done |].
    intros x _. split; [done |]. intros y [= <-]. by apply empty_acct_typed.
  - apply unit_typed, types_on_world; [done |]. apply change_typed; [done.. |].
    intros x Hx. split; [done |]. intros y [= <-]. by apply put_code_typed.
  - apply unit_typed, types_on_world; [done |]. apply change_typed; [by apply new_acct_typed | done |].
    intros x Hx. split; [done |]. intros y. unfold spec_inc.
    destruct (checked_add 256 (a_nonce x) 1) as [n | |] eqn:Hn; cbn; [| done..]. intros [= <-].
    apply put_nonce_typed; [| done]. by apply (checked_add_typed (E := DbError) (a_nonce x) 1); [apply Hx | |].
  - apply unit_typed, types_on_world; [done |]. apply change_typed; [by apply new_acct_typed | done |].
    intros x Hx. split; [done |]. intros y [= <-]. by apply put_nonce_typed.
  - apply unit_typed; [done | by apply sub_balance_typed].
  - apply unit_typed; [done | by apply add_balance_typed].
  - apply unit_typed; [done |]. eapply (types_bind _ _ _ (fun _ => True)); [by apply sub_balance_typed |].
    intros _ _. by apply add_balance_typed.
  - apply unit_typed, types_on_world; [done |]. eapply types_bind; [apply (storage_at_typed _ _ false) |].
    intros old _. destruct (negb _); [| by apply types_ret]. apply change_typed; [done.. |].
    intros x Hx. split; [done |]. intros y [= <-]. by apply put_storage_typed.
  - apply unit_typed; [done | by apply types_on_world, add_total_issued_typed].
  - apply unit_typed; [done | by apply types_on_world, subtract_total_issued_typed].
  - by eapply types_answer; [apply types_on_world, Hcp |].
  - apply unit_typed; [done | by apply types_on_world].
  - apply unit_typed; [done | by apply types_on_world].
Qed.

Lemma run_typed cmds s :
  typed_snapshots s.1 -> Forall typed_cmd cmds ->
  let rs := run_cmds (spec_cmd keccak db) cmds s in
  Forall2 typed_result (take (length rs) cmds) rs.
Proof.
  intros Hs Hcmds. revert s Hs. induction Hcmds as [| c cmds Hc _ IH]; intros s Hs; cbn; [constructor |].
  pose proof (cmd_typed c Hc s Hs) as Hr. destruct (spec_cmd keccak db c s) as [[a | e |] s']; cbn.
  - destruct Hr. constructor; [done | by apply IH].
  - constructor; [done | by apply IH].
  - by repeat constructor.
Qed.
End spec_types.

(** ** The implementation is typed *)

Definition typed_state {T} (s : State T) : Prop :=
  (forall a e acc, st_cache s !! a = Some e -> ae_account e = Some acc ->
     is_address a /\ oa_address acc = a /\ typed_account acc) /\
  is_u256 (world_statistics s) /\ Forall is_u256 (world_statistics_checkpoints s).

Lemma refines_typed `{Rlp} {T} {ST : StorageTrait OwnedStateKey T} (db : T) s w :
  refines db True s w -> typed_state s.
Proof.
  intros [_ Hc _ _ _ _ _ Hty]. split; [| by apply Hty].
  intros a e acc He Hacc. destruct (Hc a e He) as [Hv Hok _]. destruct (Hok acc Hacc). auto.
Qed.

(** C16. Operations on arguments of their types, over a database that holds values of their types,
    give values of their types: amounts, nonces, hashes and stored values of 256 bits. Only the
    operations that add or subtract amounts can panic; all others return a value or the
    database's error. After any sequence of operations the cached accounts hold values of their
    types under their own addresses. *)
Theorem state_commands_typed (keccak : list byte -> Z) `{Rlp} {T : Type}
    {ST : StorageTrait OwnedStateKey T} (db : T) (s : State T) (cmds : list Cmd) :
  typed_keccak keccak -> typed_db db -> calm_db db ->
  State_new db = Ok s -> is_u256 (world_statistics s) -> Forall typed_cmd cmds ->
  let rs := run_cmds (exec_cmd keccak) cmds (s, ∅) in
  Forall2 typed_result (take (length rs) cmds) rs /\
  forall s' touched, run_state (exec_cmd keccak) cmds (s, ∅) = Some (s', touched) -> typed_state s'.
Proof.
  intros Hk Hdb Hcalm Hs Hn Hcmds.
  destruct (run_refines keccak db True s cmds) as [Hrun Hst]; [done.. |]. cbn zeta. split.
  - rewrite Hrun. apply run_typed; [done.. | | done].
    split; [apply base_world_typed | | constructor]; done.
  - intros s' t Hs'. rewrite Hs' in Hst. inversion Hst as [p q [Href _] |]. by eapply refines_typed.
Qed.

#[local] Existing Instance sample_rlp.

Lemma empty_db_reads (key : OwnedStateKey) : storage_get (∅ : InMemoryDb) key = Ok None.
Proof. cbn. by rewrite lookup_empty. Qed.

Lemma empty_db_typed : typed_db (∅ : InMemoryDb) /\ calm_db (∅ : InMemoryDb).
Proof.
  split; split; intros *; unfold base_storage, get_account, get_code, db_get, get_raw;
    rewrite empty_db_reads; try done. by intros [= <-].
Qed.

Definition toy_keccak (code : list byte) : Z := match code with [] => KECCAK_EMPTY | _ => 0 end.

Lemma toy_keccak_typed : typed_keccak toy_keccak.
Proof. intros [| b code]; by split. Qed.

Lemma state_commands_typed_witness :
  let cmds := [CAddBalance 5 100 NoEmpty 0; CBalance 5; CSubBalance 5 101 NoEmpty; CBalance 5] in
  let rs := run_cmds (exec_cmd toy_keccak) cmds (mkState (∅ : InMemoryDb) [] ∅ 0 [] [], ∅) in
  Forall2 typed_result (take (length rs) cmds) rs /\ rs = [Ok AUnit; Ok (ANum 100); Panic].
Proof.
  intros cmds rs. split; [| vm_compute; reflexivity].
  destruct empty_db_typed as [Htyped Hcalm].
  apply (state_commands_typed toy_keccak (∅ : InMemoryDb) (mkState ∅ [] ∅ 0 [] []) cmds);
    [apply toy_keccak_typed | done | done | apply new_in_memory | done |].
  repeat constructor; unfold is_address, is_u256, is_word; simpl; lia.
Defined.
