(* ===== verification/WorldCommit.v ===== *)
(** * Committing the world state

    [State::commit] (src/cfx-evm/src/state/mod.rs) and [OverlayAccount::commit]
    (account_entry.rs), on any store that satisfies [StorageLaws]: which entries of the database a
    commit writes, what a state over the committed database shows, and what it should not show: the
    storage of a removed contract. *)

From stdpp Require Import gmap sorting.
From S2P Require Import Prelude Word Arith SharedCache VmTypes FrameContext StateDb WorldState WorldSpec WorldTypes.
Local Open Scope Z_scope.

(** ** Writes to the database *)

Abbreviation DbWrite := (OwnedStateKey * option (list byte))%type.

Section writes.
Context {T : Type} {ST : StorageTrait OwnedStateKey T}.

Definition write_one (db : T) (w : DbWrite) : T :=
  match w.2 with
  | Some bytes => (storage_set w.1 bytes db).2
  | None => (storage_delete w.1 db).2
  end.

Definition write_all (ws : list DbWrite) (db : T) : T := foldl write_one db ws.

(** The last write to a key *)
Fixpoint final_write (ws : list DbWrite) (key : OwnedStateKey) : option (option (list byte)) :=
  match ws with
  | [] => None
  | w :: ws =>
      match final_write ws key with
      | Some v => Some v
      | None => if decide (w.1 = key) then Some w.2 else None
      end
  end.

Lemma final_write_app l1 l2 key :
  final_write (l1 ++ l2) key =
    match final_write l2 key with Some v => Some v | None => final_write l1 key end.
Proof.
  induction l1 as [| w l1 IH]; cbn; [by destruct (final_write l2 key) |].
  rewrite IH. by destruct (final_write l2 key).
Qed.

Lemma final_write_None ws key : Forall (fun w => w.1 <> key) ws -> final_write ws key = None.
Proof. induction 1 as [| w ws Hw _ IH]; [done |]. cbn. rewrite IH. by rewrite decide_False. Qed.

Context `{!StorageLaws OwnedStateKey T valid_key}.

Lemma get_write_all ws db key :
  Forall (fun w => valid_key w.1) ws -> valid_key key ->
  storage_get (write_all ws db) key =
    match final_write ws key with Some v => Ok v | None => storage_get db key end.
Proof.
  intros Hws Hkey. revert db. induction Hws as [| [k v] ws Hk Hws IH]; intros db; [done |].
  change (write_all ((k, v) :: ws) db) with (write_all ws (write_one db (k, v))).
  rewrite IH. cbn [final_write fst snd]. destruct (final_write ws key) as [x |]; [done |].
  unfold write_one. cbn [fst snd]. destruct v as [bytes |].
  - rewrite storage_get_set by done. by destruct (decide (k = key)).
  - rewrite storage_get_delete by done. by destruct (decide (k = key)).
Qed.
End writes.

(** ** What a commit writes *)

Section commit.
Context `{Rlp} {T : Type} {ST : StorageTrait OwnedStateKey T}.

(** [StateDbExt::set] deletes default values. *)
Definition set_write {A} `{RlpCodec A} `{IsDefault A} (key : OwnedStateKey) (value : A) : DbWrite :=
  (key, if is_default value then None else Some (rlp_encode value)).

Definition storage_write (a : Z) (kv : list byte * Z) : DbWrite :=
  set_write (StorageKey a kv.1) (mkStorageValue kv.2).

Definition account_writes (a : Z) (acc : OverlayAccount) : list DbWrite :=
  (if invalidated_storage acc then [(AccountKey a, None)] else []) ++
  (storage_write a <$> map_to_list (storage_value_write_cache acc)) ++
  match oa_code acc with Some c => [set_write (CodeKey a) c] | None => [] end ++
  [set_write (AccountKey a) (as_account acc)].

Definition entry_writes (e : Z * AccountEntry) : list DbWrite :=
  match ae_account e.2 with
  | None => []
  | Some acc => if removed_without_update acc then [] else account_writes e.1 acc
  end.

Definition killed_entry (e : Z * AccountEntry) : list Z :=
  match ae_account e.2 with
  | None => []
  | Some acc => if removed_without_update acc then [e.1] else []
  end.

Definition killed (entries : list (Z * AccountEntry)) : list Z := entries ≫= killed_entry.

Definition commit_writes (entries : list (Z * AccountEntry)) (total : Z) : list DbWrite :=
  (entries ≫= entry_writes) ++ ((fun a => (AccountKey a, None)) <$> killed entries) ++
  [set_write total_issued_tokens_key total].

Definition sorted_entries (cache : Cache) : list (Z * AccountEntry) :=
  merge_sort by_entry_address (map_to_list cache).

Context `{!StorageLaws OwnedStateKey T valid_key}.

(** A step that performs some writes *)
Definition performs {A} (m : M DbError (State T) A) (a : A) (ws : list DbWrite) : Prop :=
  forall s, exists notify, m s =
    (Ok a, mkState (write_all ws (st_db s)) (accounts_to_notify s ++ notify) (st_cache s)
             (world_statistics s) (world_statistics_checkpoints s) (checkpoints s)).

Lemma performs_ret {A} (a : A) : performs (ret a) a [].
Proof. intros []. exists []. cbn. by rewrite app_nil_r. Qed.

Lemma performs_bind {A B} (m : M DbError (State T) A) (k : A -> M DbError (State T) B) a b ws ws' :
  performs m a ws -> performs (k a) b ws' -> performs (bind m k) b (ws ++ ws').
Proof.
  intros Hm Hk s. destruct (Hm s) as [n Hs]. unfold bind. rewrite Hs.
  destruct (Hk (mkState (write_all ws (st_db s)) (accounts_to_notify s ++ n) (st_cache s)
    (world_statistics s) (world_statistics_checkpoints s) (checkpoints s))) as [n' Hs'].
  exists (n ++ n'). rewrite Hs'. cbn. unfold write_all. by rewrite foldl_app, app_assoc.
Qed.

Lemma performs_delete key : performs (on_db (db_delete key)) tt [(key, None)].
Proof.
  intros s. exists []. unfold on_db, db_delete. pose proof (storage_delete_ok key (st_db s)) as Hok.
  cbn. unfold write_one. cbn. destruct (storage_delete key (st_db s)) as [r db]. cbn in *. subst r.
  unfold set_db. by rewrite app_nil_r.
Qed.

Lemma performs_set {A} `{RlpCodec A} `{IsDefault A} key (value : A) :
  performs (on_db (db_set key value)) tt [set_write key value].
Proof.
  unfold db_set, set_write. destruct (is_default value); [apply performs_delete |].
  intros s. exists []. unfold on_db, set_raw. pose proof (storage_set_ok key (rlp_encode value) (st_db s)) as Hok.
  cbn. unfold write_one. cbn. destruct (storage_set key _ (st_db s)) as [r db]. cbn in *. subst r.
  unfold set_db. by rewrite app_nil_r.
Qed.

Lemma performs_for_each {A} (f : A -> M DbError (State T) unit) (ws : A -> list DbWrite) l :
  (forall a, performs (f a) tt (ws a)) -> performs (for_each f l) tt (l ≫= ws).
Proof.
  intros Hf. induction l as [| a l IH]; cbn; [apply performs_ret |]. by apply (performs_bind _ _ tt).
Qed.

Lemma performs_recycle l :
  performs (recycle_storage l) tt ((fun a => (AccountKey a, None)) <$> l).
Proof.
  replace ((fun a => (AccountKey a, None)) <$> l) with (l ≫= (fun a => [(AccountKey a, None)] : list DbWrite)).
  - apply performs_for_each. intros a. apply performs_delete.
  - induction l as [| a l IH]; [done |]. cbn. by rewrite IH.
Qed.

Lemma performs_storage a kv : performs (commit_storage_value a kv) tt [storage_write a kv].
Proof.
  unfold commit_storage_value, storage_write.
  destruct (kv.2 =? 0) eqn:Hz.
  - replace (set_write (StorageKey a kv.1) (mkStorageValue kv.2)) with (StorageKey a kv.1, None : option (list byte));
      [apply performs_delete |]. unfold set_write, is_default, storage_value_is_default. cbn. by rewrite Hz.
  - apply performs_set.
Qed.

Lemma performs_account acc :
  performs (oa_commit acc (oa_address acc)) tt (account_writes (oa_address acc) acc).
Proof.
  unfold oa_commit, account_writes. apply (performs_bind _ _ tt).
  { destruct (invalidated_storage acc); [apply (performs_recycle [oa_address acc]) | apply performs_ret]. }
  apply (performs_bind _ _ tt).
  { replace (storage_write (oa_address acc) <$> map_to_list (storage_value_write_cache acc)) with
      (map_to_list (storage_value_write_cache acc) ≫= (fun kv => [storage_write (oa_address acc) kv])).
    - apply performs_for_each. intros kv. apply performs_storage.
    - induction (map_to_list _) as [| kv l IH]; [done |]. cbn. by rewrite IH. }
  apply (performs_bind _ _ tt); [| apply performs_set].
  destruct (oa_code acc); [apply performs_set | apply performs_ret].
Qed.

Lemma performs_notify x : performs (notify x) tt [].
Proof. intros s. by exists [x]. Qed.

Lemma performs_entries entries ks :
  (forall a e acc, (a, e) ∈ entries -> ae_account e = Some acc -> oa_address acc = a) ->
  performs (commit_entries entries ks) (ks ++ killed entries) (entries ≫= entry_writes).
Proof.
  revert ks. induction entries as [| [a e] entries IH]; intros ks Ha; cbn [commit_entries].
  { rewrite app_nil_r. apply performs_ret. }
  assert (forall ks, performs (commit_entries entries ks) (ks ++ killed entries) (entries ≫= entry_writes)) as IH'.
  { intros ks'. apply IH. intros a' e' acc' Hin. apply Ha. apply elem_of_cons. by right. }
  assert (oa_address <$> ae_account e = (fun _ => a) <$> ae_account e) as Hea.
  { destruct (ae_account e) as [acc |] eqn:Hacc; [| done]. cbn. f_equal.
    apply (Ha a e acc); [apply elem_of_cons; by left | done]. }
  change (((a, e) :: entries) ≫= entry_writes) with (entry_writes (a, e) ++ (entries ≫= entry_writes)).
  change (killed ((a, e) :: entries)) with (killed_entry (a, e) ++ killed entries).
  unfold entry_writes at 1, killed_entry. cbn [fst snd].
  destruct (ae_account e) as [acc |]; [| apply IH'].
  destruct (removed_without_update acc).
  - rewrite (app_assoc ks). by apply (performs_bind _ _ tt _ []); [apply performs_notify |].
  - cbn in Hea. injection Hea as <-. apply (performs_bind _ _ tt); [apply performs_account |].
    by apply (performs_bind _ _ tt _ []); [apply performs_notify |].
Qed.

(** The commit of a state without checkpoints succeeds, and makes these writes. *)
Lemma commit_eq epoch s :
  (forall a e acc, st_cache s !! a = Some e -> ae_account e = Some acc -> oa_address acc = a) ->
  checkpoints s = [] -> world_statistics_checkpoints s = [] ->
  exists s', state_commit epoch s = (Ok tt, s') /\ st_cache s' = ∅ /\ checkpoints s' = [] /\
    world_statistics_checkpoints s' = [] /\ world_statistics s' = world_statistics s /\
    st_db s' =
      (storage_commit epoch
         (write_all (commit_writes (sorted_entries (st_cache s)) (world_statistics s)) (st_db s))).2.
Proof.
  intros Ha Hcp Hst. unfold state_commit. unfold bind at 1, get. rewrite Hcp, Hst. cbn [bool_decide andb].
  rewrite !bool_decide_eq_true_2 by done. cbn [andb]. fold (sorted_entries (st_cache s)).
  unfold bind at 1, modify. set (s0 := set_cache ∅ s).
  assert (performs (bind (commit_entries (sorted_entries (st_cache s)) []) (fun ks => recycle_storage ks)) tt
    ((sorted_entries (st_cache s) ≫= entry_writes) ++
     ((fun a => (AccountKey a, None)) <$> killed (sorted_entries (st_cache s))))) as Hp.
  { eapply performs_bind; [| apply performs_recycle].
    apply (performs_entries _ []). intros a e acc Hin. apply Ha.
    unfold sorted_entries in Hin. rewrite merge_sort_Permutation in Hin. by apply elem_of_map_to_list in Hin. }
  destruct (Hp s0) as [n Hrun]. set (s1 := mkState _ _ _ _ _ _) in Hrun.
  destruct (performs_set total_issued_tokens_key (world_statistics s) s1) as [n' Hset].
  set (s2 := mkState _ _ _ _ _ _) in Hset.
  exists (set_db (storage_commit (K := OwnedStateKey) epoch (st_db s2)).2 s2). split.
  - transitivity (bind (bind (commit_entries (sorted_entries (st_cache s)) []) (fun ks => recycle_storage ks))
      (fun _ => bind commit_world_statistics (fun _ => on_db (db_commit epoch))) s0).
    { unfold bind. by destruct (commit_entries _ _ s0) as [[] ?]. }
    unfold bind at 1. rewrite Hrun. unfold bind, commit_world_statistics, get.
    unfold bind. change (world_statistics s1) with (world_statistics s).
    unfold set_total_issued_tokens. rewrite Hset. unfold on_db, db_commit.
    pose proof (storage_commit_ok (K := OwnedStateKey) epoch (st_db s2)) as Hok.
    destruct (storage_commit epoch (st_db s2)) as [r db]. cbn in Hok |- *. by subst r.
  - cbn. do 4 (split; [done |]). unfold commit_writes. rewrite app_assoc. unfold write_all. by rewrite !foldl_app.
Qed.
End commit.

(** ** The database after a commit *)

Section after.
Context `{Rlp} {T : Type} {ST : StorageTrait OwnedStateKey T}.

Lemma sorted_entries_spec (cache : Cache) :
  NoDup (sorted_entries cache).*1 /\ forall a e, (a, e) ∈ sorted_entries cache <-> cache !! a = Some e.
Proof.
  assert (sorted_entries cache ≡ₚ map_to_list cache) as Hp by apply merge_sort_Permutation.
  split; [rewrite Hp; apply NoDup_fst_map_to_list |].
  intros a e. rewrite Hp. apply elem_of_map_to_list.
Qed.

Lemma entry_writes_address a e : Forall (fun w => key_address w.1 = a) (entry_writes (a, e)).
Proof.
  unfold entry_writes. cbn. destruct (ae_account e) as [acc |]; [| done].
  destruct (removed_without_update acc); [done |]. unfold account_writes.
  repeat apply Forall_app_2.
  - destruct (invalidated_storage acc); by repeat constructor.
  - apply list.Forall_fmap, list.Forall_forall. intros kv _. reflexivity.
  - destruct (oa_code acc); by repeat constructor.
  - by repeat constructor.
Qed.

(** Only the entry of its address writes a key. *)
Lemma final_entries (entries : list (Z * AccountEntry)) key :
  NoDup entries.*1 ->
  (forall e, (key_address key, e) ∈ entries ->
     final_write (entries ≫= entry_writes) key = final_write (entry_writes (key_address key, e)) key) /\
  (key_address key ∉ entries.*1 -> final_write (entries ≫= entry_writes) key = None).
Proof.
  induction entries as [| [b e] entries IH]; intros Hnd.
  { split; [by intros e ?%elem_of_nil | done]. }
  apply list.NoDup_cons in Hnd as [Hb Hnd]. destruct (IH Hnd) as [IH1 IH2]. cbn [fst fmap list_fmap] in *.
  change (((b, e) :: entries) ≫= entry_writes) with (entry_writes (b, e) ++ (entries ≫= entry_writes)).
  rewrite final_write_app. split.
  - intros e' [[= <- <-] | Hin]%elem_of_cons; [by rewrite IH2 |].
    rewrite (IH1 e' Hin). destruct (final_write (entry_writes (key_address key, e')) key); [done |].
    apply final_write_None. eapply list.Forall_impl; [apply entry_writes_address |].
    cbn. intros w Hw Hk. apply Hb. rewrite <- Hw, Hk.
    by apply (list_elem_of_fmap_2 fst) in Hin.
  - intros [Hne Hin]%not_elem_of_cons. rewrite IH2 by done.
    apply final_write_None. eapply list.Forall_impl; [apply entry_writes_address |]. cbn. congruence.
Qed.

Lemma final_storage a (l : list (list byte * Z)) k :
  NoDup l.*1 ->
  final_write (storage_write a <$> l) (StorageKey a k) =
    match (list_to_map l : gmap (list byte) Z) !! k with
    | Some v => Some (storage_write a (k, v)).2
    | None => None
    end.
Proof.
  induction l as [| [k' v'] l IH]; intros Hnd; [done |]. apply list.NoDup_cons in Hnd as [Hk Hnd].
  cbn [fmap list_fmap final_write]. rewrite (IH Hnd), list_to_map_cons. cbn [fst snd] in *.
  destruct (decide (k' = k)) as [-> | Hne].
  - rewrite lookup_insert_eq, not_elem_of_list_to_map_1 by done. by rewrite decide_True.
  - rewrite lookup_insert_ne by done. destruct (_ !! k); [done |]. rewrite decide_False; [done |].
    cbn. congruence.
Qed.

(** The last write to each key of an account *)
Lemma final_account a acc key :
  key_address key = a ->
  final_write (account_writes a acc) key =
    match key with
    | AccountKey _ => Some (set_write (AccountKey a) (as_account acc)).2
    | StorageKey _ k =>
        (fun v => (storage_write a (k, v)).2) <$> storage_value_write_cache acc !! k
    | CodeKey _ => (fun c => (set_write (CodeKey a) c).2) <$> oa_code acc
    end.
Proof.
  intros Ha. unfold account_writes. rewrite !final_write_app. cbn [final_write set_write fst snd].
  destruct key as [b | b k | b]; cbn [key_address] in Ha; subst b.
  - by rewrite decide_True.
  - rewrite decide_False by done.
    assert (final_write (match oa_code acc with Some c => [set_write (CodeKey a) c] | None => [] end) (StorageKey a k) = None) as ->
      by by destruct (oa_code acc).
    rewrite final_storage by apply NoDup_fst_map_to_list. rewrite list_to_map_to_list.
    destruct (_ !! k); [done |]. by destruct (invalidated_storage acc).
  - rewrite decide_False by done. destruct (oa_code acc) as [c |]; cbn; [by rewrite decide_True |].
    rewrite final_write_None; [by destruct (invalidated_storage acc) |].
    by apply list.Forall_fmap, list.Forall_forall.
Qed.

Lemma final_killed ks key :
  final_write ((fun a => (AccountKey a, None)) <$> ks) key =
    match key with AccountKey a => if decide (a ∈ ks) then Some None else None | _ => None end.
Proof.
  induction ks as [| b ks IH]; cbn; [by destruct key |]. rewrite IH. destruct key as [a | |]; [| done..].
  destruct (decide (a ∈ ks)) as [Hin | Hin].
  - rewrite decide_True; [done |]. apply elem_of_cons. by right.
  - destruct (decide (AccountKey b = AccountKey a)) as [[= ->] | Hne].
    + rewrite decide_True; [done |]. apply elem_of_cons. by left.
    + rewrite decide_False; [done |]. intros [-> |]%elem_of_cons; done.
Qed.

Lemma elem_of_killed (cache : Cache) a :
  a ∈ killed (sorted_entries cache) <->
  exists acc, (cache !! a ≫= ae_account) = Some acc /\ removed_without_update acc = true.
Proof.
  unfold killed. rewrite list_elem_of_bind. split.
  - intros ([b e] & Ha & Hin). apply sorted_entries_spec in Hin. unfold killed_entry in Ha. cbn in Ha.
    destruct (ae_account e) as [acc |] eqn:Hacc; [| by apply elem_of_nil in Ha].
    destruct (removed_without_update acc) eqn:Hr; [| by apply elem_of_nil in Ha].
    apply list_elem_of_singleton in Ha as ->. exists acc. by rewrite Hin.
  - intros (acc & Hacc & Hr). destruct (cache !! a) as [e |] eqn:Hc; [| done]. cbn in Hacc.
    exists (a, e). split; [| by apply sorted_entries_spec].
    unfold killed_entry. cbn. rewrite Hacc, Hr. by apply list_elem_of_singleton.
Qed.

(** What a commit leaves at a key *)
Definition committed (cache : Cache) (key : OwnedStateKey) : option (option (list byte)) :=
  match cache !! key_address key ≫= ae_account with
  | None => None
  | Some acc =>
      match key with
      | AccountKey a => Some (set_write (AccountKey a) (as_account acc)).2
      | StorageKey a k =>
          if removed_without_update acc then None
          else (fun v => (storage_write a (k, v)).2) <$> storage_value_write_cache acc !! k
      | CodeKey a =>
          if removed_without_update acc then None
          else (fun c => (set_write (CodeKey a) c).2) <$> oa_code acc
      end
  end.

Lemma final_commit (cache : Cache) total key :
  key <> total_issued_tokens_key ->
  final_write (commit_writes (sorted_entries cache) total) key = committed cache key.
Proof.
  intros Hk. unfold commit_writes. rewrite !final_write_app. cbn [final_write set_write fst].
  rewrite decide_False by done. rewrite final_killed.
  destruct (sorted_entries_spec cache) as [Hnd Hin]. destruct (final_entries _ key Hnd) as [Hsome Hnone].
  set (a := key_address key) in *. unfold committed. fold a.
  destruct (cache !! a) as [e |] eqn:Hc; cbn.
  - rewrite (Hsome e) by by apply Hin. unfold entry_writes. cbn.
    destruct (ae_account e) as [acc |] eqn:Hacc.
    + pose proof (elem_of_killed cache a) as Hkill. rewrite Hc in Hkill. cbn in Hkill. rewrite Hacc in Hkill.
      destruct (removed_without_update acc) eqn:Hr.
      * destruct key as [b | |]; [| done..]. change b with a. rewrite decide_True by naive_solver.
        unfold removed_without_update in Hr. apply andb_true_iff in Hr as [_ Hd]. cbn. by rewrite Hd.
      * rewrite (final_account a acc key eq_refl).
        destruct key as [b | |]; [| done..]. change b with a. rewrite decide_False; [done |].
        intros (acc' & [= <-] & Hr')%Hkill. congruence.
    + destruct key as [b | |]; [| done..]. change b with a. rewrite decide_False; [done |].
      rewrite elem_of_killed, Hc. cbn. rewrite Hacc. naive_solver.
  - rewrite Hnone.
    + destruct key as [b | |]; [| done..]. change b with a. rewrite decide_False; [done |].
      rewrite elem_of_killed, Hc. naive_solver.
    + intros ([b e] & Hb & Hbe)%list_elem_of_fmap. cbn in Hb. subst b. apply Hin in Hbe. congruence.
Qed.

Context `{!StorageLaws OwnedStateKey T valid_key}.

Lemma commit_writes_valid (cache : Cache) total :
  (forall a e, cache !! a = Some e -> is_address a) ->
  Forall (fun w => valid_key w.1) (commit_writes (sorted_entries cache) total).
Proof.
  intros Hv. destruct (sorted_entries_spec cache) as [_ Hin]. unfold commit_writes.
  repeat apply Forall_app_2.
  - apply list.Forall_forall. intros w ([a e] & Hw & Hae)%list_elem_of_bind. apply Hin in Hae.
    pose proof (entry_writes_address a e) as Ha. rewrite list.Forall_forall in Ha.
    unfold valid_key. rewrite (Ha w Hw). by apply (Hv a e).
  - apply list.Forall_fmap, list.Forall_forall. intros a (acc & Hacc & _)%elem_of_killed.
    destruct (cache !! a) as [e |] eqn:Hc; [| done]. by apply (Hv a e).
  - by repeat constructor.
Qed.

(** A commit, by what it leaves in the database. *)
Lemma commit_spec epoch (s : State T) :
  (forall a e acc, st_cache s !! a = Some e -> ae_account e = Some acc -> oa_address acc = a) ->
  (forall a e, st_cache s !! a = Some e -> is_address a) ->
  checkpoints s = [] -> world_statistics_checkpoints s = [] ->
  exists s', state_commit epoch s = (Ok tt, s') /\ st_cache s' = ∅ /\ checkpoints s' = [] /\
    world_statistics_checkpoints s' = [] /\ world_statistics s' = world_statistics s /\
    storage_get (st_db s') total_issued_tokens_key =
      Ok (set_write total_issued_tokens_key (world_statistics s)).2 /\
    (forall key, valid_key key -> key <> total_issued_tokens_key ->
      storage_get (st_db s') key =
        match committed (st_cache s) key with Some v => Ok v | None => storage_get (st_db s) key end) /\
    exists ws, Forall (fun w => valid_key w.1) ws /\ st_db s' = (storage_commit epoch (write_all ws (st_db s))).2.
Proof.
  intros Ha Hv Hcp Hst. destruct (commit_eq epoch s Ha Hcp Hst) as (s' & Hrun & H1 & H2 & H3 & H4 & Hdb).
  exists s'. do 5 (split; [done |]).
  pose proof (commit_writes_valid (st_cache s) (world_statistics s) Hv) as Hws.
  assert (Hget : forall key, storage_get (st_db s') key = storage_get
    (write_all (commit_writes (sorted_entries (st_cache s)) (world_statistics s)) (st_db s)) key)
    by (intros key; by rewrite Hdb, storage_get_commit).
  split_and!; [| | by eexists].
  - rewrite Hget, get_write_all by done. unfold commit_writes. rewrite !final_write_app.
    cbn [final_write]. by rewrite decide_True.
  - intros key Hk Hne. rewrite Hget, get_write_all by done. by rewrite final_commit.
Qed.
End after.

(** ** Reading a committed state *)

Section committed.
Context `{Rlp, !RlpLaws} {T : Type} {ST : StorageTrait OwnedStateKey T}.
Context `{!StorageLaws OwnedStateKey T valid_key}.

Lemma account_rlp_roundtrip acc :
  typed_account acc -> new_from_rlp (oa_address acc) (rlp_encode (as_account acc)) = Ok (as_account acc).
Proof.
  intros [Hb Hn Hc _ _]. unfold new_from_rlp. cbn [rlp_encode rlp_account].
  rewrite rlp_account_items. cbn. by rewrite rlp_account_roundtrip.
Qed.

(** [db'] is the database after a commit of [cache] over [db]. *)
Definition after_commit (db db' : T) (cache : Cache) : Prop :=
  forall key, valid_key key -> key <> total_issued_tokens_key ->
    storage_get db' key = match committed cache key with Some v => Ok v | None => storage_get db key end.

Context (db db' : T) (cache : Cache) (Hafter : after_commit db db' cache).
Context (Hcache : cache_ok db True cache).

Lemma account_ok_of a acc : cache !! a ≫= ae_account = Some acc -> oa_address acc = a /\ typed_account acc.
Proof.
  destruct (cache !! a) as [e |] eqn:He; [| done]. intros Hacc.
  destruct (ok_account _ _ _ _ (Hcache a e He) acc Hacc). auto.
Qed.

Lemma get_account_after a :
  is_address a ->
  get_account db' a =
    match cache !! a ≫= ae_account with
    | None => get_account db a
    | Some acc => Ok (if is_default (as_account acc) then None else Some (as_account acc))
    end.
Proof.
  intros Ha. unfold get_account at 1, get_raw. rewrite Hafter by done. unfold committed. cbn [key_address].
  destruct (cache !! a ≫= ae_account) as [acc |] eqn:Hacc; [| done].
  destruct (account_ok_of a acc Hacc) as [Hadr Hty]. cbn [set_write snd].
  destruct (is_default (as_account acc)); [done |]. rewrite <- Hadr. by rewrite account_rlp_roundtrip.
Qed.

Lemma get_code_after a h :
  is_address a ->
  get_code db' a h =
    match cache !! a ≫= ae_account with
    | None => get_code db a h
    | Some acc =>
        if removed_without_update acc then get_code db a h
        else match oa_code acc with
             | None => get_code db a h
             | Some c => Ok (if is_default c then None else Some c)
             end
    end.
Proof.
  intros Ha. unfold get_code at 1, db_get, get_raw. rewrite Hafter by done. unfold committed.
  cbn [key_address]. destruct (cache !! a ≫= ae_account) as [acc |]; [| done].
  destruct (removed_without_update acc); [done |]. destruct (oa_code acc) as [c |]; [| done]. cbn.
  destruct (is_default c); [done |]. by rewrite rlp_code_roundtrip.
Qed.

Lemma base_storage_after a k :
  is_address a -> StorageKey a k <> total_issued_tokens_key ->
  base_storage db' a k =
    match cache !! a ≫= ae_account with
    | None => base_storage db a k
    | Some acc =>
        if removed_without_update acc then base_storage db a k
        else match storage_value_write_cache acc !! k with
             | None => base_storage db a k
             | Some v => Ok v
             end
    end.
Proof.
  intros Ha Hk. unfold base_storage at 1, db_get, get_raw. rewrite Hafter by done. unfold committed.
  cbn [key_address]. destruct (cache !! a ≫= ae_account) as [acc |] eqn:Hacc; [| done].
  destruct (removed_without_update acc); [done |].
  destruct (storage_value_write_cache acc !! k) as [v |] eqn:Hv; [| done]. cbn.
  destruct (account_ok_of a acc Hacc) as [_ Hty]. unfold storage_write, set_write. cbn.
  destruct (is_default (mkStorageValue v)) eqn:Hd.
  - unfold is_default, storage_value_is_default in Hd. cbn in *. b2p. by subst v.
  - rewrite rlp_value_roundtrip; [done |]. by apply (ta_storage acc Hty k).
Qed.

(** *** What the worlds before and after show *)

Definition view_read {A} (f : option Acct -> A) (w : World) (a : Z) : db_result A :=
  let? o := w a in Ok (f o).

Definition view_code (w : World) (a : Z) : db_result (list byte) :=
  let? o := w a in
  match o with Some x => let? c := a_code x in Ok (default [] c) | None => Ok [] end.

Definition view_slot (w : World) (a : Z) (k : list byte) : db_result Z :=
  let? o := w a in match o with Some x => a_storage x k | None => Ok 0 end.

(** Balance, nonce and code hash, with those of an empty account if there is none *)
Definition basic (o : option Acct) : Z * Z * Z :=
  match o with
  | Some x => (a_balance x, a_nonce x, a_code_hash x)
  | None => (0, 0, KECCAK_EMPTY)
  end.

(** What the cache holds for an address: nothing, an account that does not exist, an account *)
Lemma cache_cases a :
  (cache !! a ≫= ae_account = None /\ view_equiv (world_of db cache a) (base_world db a)) \/
  exists acc, cache !! a ≫= ae_account = Some acc /\ world_of db cache a = Ok (Some (acct_of db acc)).
Proof.
  unfold world_of. destruct (cache !! a) as [e |] eqn:He; cbn; [| left; by split].
  destruct (ae_account e) as [acc |] eqn:Hacc; [right; by exists acc |]. left. split; [done |].
  pose proof (ok_clean _ _ _ _ (Hcache a e He)) as Hv. cbn in Hv. rewrite Hacc in Hv. apply Hv. by right.
Qed.

Lemma default_account acc :
  is_default (as_account acc) = true ->
  oa_balance acc = 0 /\ oa_nonce acc = 0 /\ oa_code_hash acc = KECCAK_EMPTY.
Proof. unfold is_default, account_is_default. cbn. intros Hd. b2p. auto. Qed.

Lemma view_equiv_reads (w w' : World) a :
  view_equiv (w a) (w' a) ->
  view_read basic w a = view_read basic w' a /\ view_code w a = view_code w' a /\
  forall k, view_slot w a k = view_slot w' a k.
Proof.
  unfold view_read, view_code, view_slot.
  destruct (w a) as [o | |], (w' a) as [o' | |]; try done; cbn; [| by intros ->].
  intros [x y [Hf Hs] |]; [| done]. injection Hf as Eb En Ec Eco _. cbn. rewrite Eb, En, Ec, Eco. auto.
Qed.

Lemma basic_after a :
  is_address a -> view_read basic (base_world db') a = view_read basic (world_of db cache) a.
Proof.
  intros Ha. destruct (cache_cases a) as [[Hc Hv] | (acc & Hc & Hw)].
  - destruct (view_equiv_reads _ _ a Hv) as [-> _].
    unfold view_read, base_world. rewrite get_account_after, Hc by done.
    by destruct (get_account db a) as [[] | |].
  - unfold view_read. rewrite Hw. unfold base_world. rewrite get_account_after, Hc by done.
    destruct (is_default (as_account acc)) eqn:Hd; [| done]. cbn.
    by destruct (default_account acc Hd) as (-> & -> & ->).
Qed.

Lemma code_after a :
  is_address a -> view_code (base_world db') a = view_code (world_of db cache) a.
Proof.
  intros Ha. destruct (cache_cases a) as [[Hc Hv] | (acc & Hc & Hw)].
  - destruct (view_equiv_reads _ _ a Hv) as (_ & -> & _). unfold view_code, base_world.
    rewrite get_account_after, Hc by done. destruct (get_account db a) as [[x |] | |]; [| done..]. cbn.
    unfold base_code. destruct (_ =? _); [done |]. by rewrite get_code_after, Hc.
  - unfold view_code. rewrite Hw. unfold base_world. rewrite get_account_after, Hc by done.
    destruct (account_ok_of a acc Hc) as [Hadr [_ _ _ _ Hcode]]. cbn. unfold code_view. rewrite Hadr.
    destruct (is_default (as_account acc)) eqn:Hd; cbn.
    + destruct (default_account acc Hd) as (_ & _ & Hh). rewrite Hh in *.
      destruct (oa_code acc) as [c |]; [| done]. cbn. f_equal. symmetry. by apply (Hcode c).
    + unfold base_code. rewrite get_code_after, Hc by done. unfold removed_without_update.
      rewrite Hd, andb_false_r. destruct (oa_code acc) as [c |]; [| done].
      destruct (oa_code_hash acc =? KECCAK_EMPTY) eqn:Hh; b2p; cbn.
      * f_equal. symmetry. by apply (Hcode c).
      * destruct (is_default c) eqn:Hdc; [| done]. unfold is_default, code_info_is_default, len in Hdc. b2p.
        destruct Hh. apply (Hcode c); [done |]. destruct (ci_code c); [done | cbn in Hdc; lia].
Qed.

(** The storage that a commit keeps: that of an account that is kept, and whose storage the
    database has nothing left of if it is to be fresh. *)
Definition storage_kept (a : Z) (k : list byte) : Prop :=
  forall acc, cache !! a ≫= ae_account = Some acc ->
    if is_default (as_account acc) then view_slot (world_of db cache) a k = Ok 0
    else fresh_storage acc = true -> storage_value_write_cache acc !! k = None -> base_storage db a k = Ok 0.

Lemma storage_after a k :
  is_address a -> StorageKey a k <> total_issued_tokens_key -> storage_kept a k ->
  view_slot (base_world db') a k = view_slot (world_of db cache) a k.
Proof.
  intros Ha Hk Hkept. destruct (cache_cases a) as [[Hc Hv] | (acc & Hc & Hw)].
  - destruct (view_equiv_reads _ _ a Hv) as (_ & _ & ->). unfold view_slot, base_world.
    rewrite get_account_after, Hc by done. destruct (get_account db a) as [[x |] | |]; [| done..]. cbn.
    by rewrite base_storage_after, Hc.
  - specialize (Hkept acc Hc). unfold view_slot in *. rewrite Hw in *. unfold base_world.
    rewrite get_account_after, Hc by done. destruct (is_default (as_account acc)) eqn:Hd; [by rewrite Hkept |].
    cbn. rewrite base_storage_after, Hc by done. unfold removed_without_update. rewrite Hd, andb_false_r.
    destruct (storage_value_write_cache acc !! k) eqn:Ek; [done |].
    destruct (account_ok_of a acc Hc) as [Hadr _]. unfold storage_from, fresh_storage in *. rewrite Hadr in *.
    destruct (_ || _); [by apply Hkept | done].
Qed.
End committed.

(** *** Reads through the operations *)

Section reads.
Context (keccak : list byte -> Z) (Hkeccak : typed_keccak keccak).
Context `{Rlp, !RlpLaws} {T : Type} {ST : StorageTrait OwnedStateKey T}.

Definition answer_of (c : Cmd) (s : State T) : db_result Answer := (exec_cmd keccak c (s, ∅)).1.

(** The code, empty if there is none *)
Definition code_of (a : Z) (s : State T) : db_result (list byte) :=
  let? o := (state_code a s).1 in Ok (default [] o).

(** The state shows a world, with the types of the program or without. *)
Definition state_shows (strict : Prop) (db : T) (s : State T) (w : World) : Prop :=
  (strict -> typed_db db) /\ exists total old, refines db strict s (mkSnapshots w total old).

Lemma shows_refines (strict : Prop) db s w :
  (strict -> typed_db db) -> refines db strict s w -> state_shows strict db s (world_of db (st_cache s)).
Proof.
  intros Hdb Hs. split; [done |]. exists (tokens w), (saved w).
  apply (refines_world db strict s w); [done | cbn | done | done]. symmetry. apply (rf_world _ _ _ _ Hs).
Qed.

Lemma answer_shows strict db s w c :
  state_shows strict db s w -> (strict -> typed_cmd c) ->
  exists total old, answer_of c s = (spec_cmd keccak db c (mkSnapshots w total old, ∅)).1.
Proof.
  intros [Hdb (total & old & Hs)] Hc. exists total, old.
  assert (refines_touched db strict (s, ∅) (mkSnapshots w total old, ∅)) as HR by done.
  pose proof (cmd_sim keccak db strict Hdb (fun _ => Hkeccak) c Hc _ _ HR) as Hsim. unfold answer_of.
  destruct (exec_cmd keccak c (s, ∅)) as [[] ?], (spec_cmd keccak db c _) as [[] ?]; try done;
    by destruct Hsim as [-> _].
Qed.

Lemma read_shows strict db s w a :
  state_shows strict db s w -> (strict -> is_address a) ->
  answer_of (CBalance a) s = view_read (fun o => ANum (basic o).1.1) w a /\
  answer_of (CNonce a) s = view_read (fun o => ANum (basic o).1.2) w a /\
  answer_of (CIsContractWithCode a) s =
    view_read (fun o => ABool (negb ((basic o).2 =? KECCAK_EMPTY))) w a /\
  answer_of (CExistsAndNotNull a) s =
    view_read (fun o => ABool (negb (((basic o).1.1 =? 0) && ((basic o).1.2 =? 0)
      && ((basic o).2 =? KECCAK_EMPTY)))) w a.
Proof.
  intros Hs Ha. repeat split;
    match goal with |- answer_of ?c s = _ => destruct (answer_shows strict db s w c Hs Ha) as (? & ? & ->) end;
    unfold view_read; cbn; unfold on_world, spec_read, bind, spec_lookup; cbn;
    by destruct (w a) as [[] | |].
Qed.

Lemma code_shows strict db s w a :
  state_shows strict db s w -> (strict -> is_address a) -> code_of a s = view_code w a.
Proof.
  intros Hs Ha. destruct (answer_shows strict db s w (CCode a) Hs Ha) as (total & old & Hc).
  assert (answer_of (CCode a) s = (let? o := (state_code a s).1 in Ok (ABytes o))) as E.
  { unfold answer_of, exec_cmd, answer, bind, on_state. cbn [fst]. by destruct (state_code a s) as [[] ?]. }
  rewrite E in Hc. unfold code_of, view_code. clear E. revert Hc. generalize (state_code a s).1. intros r Hc.
  unfold spec_cmd, answer, bind, on_world, spec_code, bind, spec_lookup, lift in Hc. cbn in Hc.
  destruct (w a) as [[x |] | |]; cbn in *; [destruct (a_code x); cbn in * | ..];
    destruct r; cbn in *; by simplify_eq.
Qed.

Lemma storage_shows strict db s w a k :
  state_shows strict db s w -> (strict -> is_address a) ->
  answer_of (CStorageAt a k) s = (let? v := view_slot w a k in Ok (ANum v)).
Proof.
  intros Hs Ha. destruct (answer_shows strict db s w (CStorageAt a k) Hs Ha) as (total & old & ->).
  cbn. unfold answer, bind, on_world, spec_storage_at, bind, spec_lookup, view_slot. cbn.
  destruct (w a) as [[x |] | |]; cbn; [by destruct (a_storage x k) | done..].
Qed.
End reads.

Lemma view_read_basic {A} (g : Z * Z * Z -> A) w w' a :
  view_read basic w a = view_read basic w' a ->
  view_read (fun o => g (basic o)) w a = view_read (fun o => g (basic o)) w' a.
Proof.
  unfold view_read. destruct (w a) as [o | |], (w' a) as [o' | |]; cbn; intros E; simplify_eq; try done.
  by rewrite E.
Qed.

Lemma total_after `{Rlp, !RlpLaws} {T} {ST : StorageTrait OwnedStateKey T} (db : T) total :
  is_u256 total ->
  storage_get db total_issued_tokens_key = Ok (set_write total_issued_tokens_key total).2 ->
  get_total_issued_tokens db = Ok total.
Proof.
  intros Ht Hget. unfold get_total_issued_tokens, db_get, get_raw. rewrite Hget. unfold set_write. cbn [snd].
  destruct (is_default total) eqn:Hd.
  - unfold is_default, u256_is_default in Hd. b2p. by subst total.
  - cbn. by rewrite rlp_u256_roundtrip.
Qed.

Lemma no_checkpoints `{Rlp} {T} {ST : StorageTrait OwnedStateKey T} (db : T) strict s w :
  refines db strict s w -> checkpoints s = [] -> world_statistics_checkpoints s = [].
Proof.
  intros [_ _ _ _ _ Hs Hst _] Hcp. rewrite Hcp in Hs. cbn in Hs. inversion Hs as [E |]. rewrite Hst.
  by destruct (saved w).
Qed.

(** Committing a state that refines its specification *)
Lemma commit_refines (keccak : list byte -> Z) `{Rlp, !RlpLaws} {T : Type}
    {ST : StorageTrait OwnedStateKey T} `{!StorageLaws OwnedStateKey T valid_key}
    (db : T) (s : State T) w epoch :
  typed_keccak keccak -> typed_db db -> refines db True s w -> checkpoints s = [] ->
  exists s', state_commit epoch s = (Ok tt, s') /\
    get_total_issued_tokens (st_db s') = Ok (world_statistics s) /\
    st_cache s' = ∅ /\ checkpoints s' = [] /\ world_statistics s' = world_statistics s /\
    after_commit db (st_db s') (st_cache s) /\ state_shows False (st_db s') s' (base_world (st_db s')) /\
    exists ws, Forall (fun w => valid_key w.1) ws /\ st_db s' = (storage_commit epoch (write_all ws db)).2.
Proof.
  intros Hk Hdb Hs Hcp. pose proof Hs as [Hsdb Hc _ _ _ _ _ Hty].
  destruct (commit_spec epoch s) as (s' & Hrun & Hc' & Hcp' & Hst' & Htot & Hget & Hafter & Hws).
  - intros a e acc He Hacc. by destruct (ok_account _ _ _ _ (Hc a e He) acc Hacc).
  - intros a e He. by apply (ok_valid _ _ _ _ (Hc a e He)).
  - done.
  - by apply (no_checkpoints db True s w).
  - exists s'. split; [done |]. split; [apply total_after; [by apply Hty | done] |]. do 3 (split; [done |]).
    split; [by rewrite <- Hsdb |]. split; [| by rewrite <- Hsdb]. split; [done |]. exists (world_statistics s'), [].
    split; rewrite ?Hc', ?Hcp', ?Hst'; cbn; done.
Qed.

(** C15. A commit persists the state: after any sequence of operations that leaves no checkpoint,
    [commit] succeeds, and the state over the committed database reads the same balances, nonces,
    code and storage, and the same number of issued tokens, as the state before. Storage is the
    exception in two cases, which [storage_kept] excludes: an empty account is not kept, and the
    storage of a fresh contract is only what it wrote if the database holds nothing at its
    address. *)
Theorem commit_persists (keccak : list byte -> Z) `{Rlp, !RlpLaws} {T : Type}
    {ST : StorageTrait OwnedStateKey T} `{!StorageLaws OwnedStateKey T valid_key}
    (db : T) (s s1 : State T) (cmds : list Cmd) touched epoch :
  typed_keccak keccak -> typed_db db -> State_new db = Ok s -> is_u256 (world_statistics s) ->
  Forall typed_cmd cmds ->
  run_state (exec_cmd keccak) cmds (s, ∅) = Some (s1, touched) -> checkpoints s1 = [] ->
  exists s2, state_commit epoch s1 = (Ok tt, s2) /\
    get_total_issued_tokens (st_db s2) = Ok (world_statistics s1) /\
    forall a, is_address a ->
      Forall (fun c => answer_of keccak c s2 = answer_of keccak c s1)
        [CBalance a; CNonce a; CIsContractWithCode a; CExistsAndNotNull a] /\
      code_of a s2 = code_of a s1 /\
      forall k, StorageKey a k <> total_issued_tokens_key -> storage_kept db (st_cache s1) a k ->
        answer_of keccak (CStorageAt a k) s2 = answer_of keccak (CStorageAt a k) s1.
Proof.
  intros Hk Hdb Hs Hn Hcmds Hrun Hcp.
  destruct (run_refines keccak db True s cmds) as [_ Hst]; [done.. |].
  rewrite Hrun in Hst. inversion Hst as [p [w t] [Href _] |]. subst p. cbn in Href.
  destruct (commit_refines keccak db s1 w epoch Hk Hdb Href Hcp) as (s2 & Hcom & Htot & _ & _ & _ & Hafter & Hs2 & _).
  exists s2. split; [done |]. split; [done |]. intros a Ha.
  pose proof (shows_refines True db s1 w (fun _ => Hdb) Href) as Hs1.
  pose proof (rf_cache _ _ _ _ Href) as Hcache.
  destruct (read_shows keccak Hk True db s1 _ a Hs1 (fun _ => Ha)) as (Eb & En & Ec & Ex).
  destruct (read_shows keccak Hk False _ s2 _ a Hs2 (fun _ => Ha)) as (Eb' & En' & Ec' & Ex').
  pose proof (basic_after db (st_db s2) (st_cache s1) Hafter Hcache a Ha) as Hbasic.
  split; [| split].
  - rewrite !list.Forall_cons, Eb, En, Ec, Ex, Eb', En', Ec', Ex'.
    repeat split.
    + apply (view_read_basic (fun b => ANum b.1.1) _ _ a Hbasic).
    + apply (view_read_basic (fun b => ANum b.1.2) _ _ a Hbasic).
    + apply (view_read_basic (fun b => ABool (negb (b.2 =? KECCAK_EMPTY))) _ _ a Hbasic).
    + apply (view_read_basic (fun b => ABool (negb ((b.1.1 =? 0) && (b.1.2 =? 0) && (b.2 =? KECCAK_EMPTY)))) _ _ a Hbasic).
    + constructor.
  - rewrite (code_shows keccak Hk True db s1 _ a Hs1 (fun _ => Ha)).
    rewrite (code_shows keccak Hk False _ s2 _ a Hs2 (fun _ => Ha)). by apply (code_after db (st_db s2) (st_cache s1)).
  - intros k Hkey Hkept. rewrite (storage_shows keccak Hk True db s1 _ a k Hs1 (fun _ => Ha)).
    rewrite (storage_shows keccak Hk False _ s2 _ a k Hs2 (fun _ => Ha)). by rewrite (storage_after db (st_db s2) (st_cache s1)).
Qed.

(** *** A removed contract's storage *)

Lemma fresh_state_shows `{Rlp} {T} {ST : StorageTrait OwnedStateKey T} (s : State T) :
  st_cache s = ∅ -> checkpoints s = [] -> world_statistics_checkpoints s = [] ->
  state_shows False (st_db s) s (base_world (st_db s)).
Proof.
  intros Hc Hcp Hst. split; [done |]. exists (world_statistics s), [].
  split; rewrite ?Hc, ?Hcp, ?Hst; done.
Qed.

(** A state without checkpoints that has cached one changed account *)
Record one_change {T} (s : State T) (a : Z) (acc : OverlayAccount) : Prop := {
  oc_cache : st_cache s = {[a := new_dirty (Some acc)]};
  oc_checkpoints : checkpoints s = [] /\ world_statistics_checkpoints s = [];
}.

Section survival.
Context `{Rlp, !RlpLaws} {T : Type} {ST : StorageTrait OwnedStateKey T}.
Context `{!StorageLaws OwnedStateKey T valid_key}.

Lemma commit_one epoch (s : State T) a acc :
  one_change s a acc -> is_address a -> oa_address acc = a ->
  exists s', state_commit epoch s = (Ok tt, s') /\ st_cache s' = ∅ /\ checkpoints s' = [] /\
    world_statistics_checkpoints s' = [] /\
    after_commit (st_db s) (st_db s') {[a := new_dirty (Some acc)]}.
Proof.
  intros [Hc [Hcp Hst]] Ha Hacc. destruct (commit_spec epoch s) as (s' & ? & ? & ? & ? & _ & _ & Hafter & _).
  - rewrite Hc. intros b e acc' [<- <-]%lookup_singleton_Some. by intros [= <-].
  - rewrite Hc. by intros b e [<- <-]%lookup_singleton_Some.
  - done.
  - done.
  - exists s'. rewrite Hc in Hafter. by repeat split.
Qed.

Lemma one_change_put (s : State T) a acc :
  st_cache s ⊆ {[a := new_clean None]} -> checkpoints s = [] -> world_statistics_checkpoints s = [] ->
  one_change (update_cache a (new_dirty (Some acc)) s) a acc.
Proof.
  intros Hc Hcp Hst. unfold update_cache.
  change (is_dirty (new_dirty (Some acc))) with true. split; cbn; [| by rewrite Hcp]. apply map_eq. intros b. destruct (decide (a = b)) as [-> | Hb].
  - by rewrite lookup_insert_eq, lookup_singleton_eq.
  - rewrite lookup_insert_ne, lookup_singleton_ne by done. destruct (st_cache s !! b) as [e |] eqn:He; [| done].
    eapply lookup_weaken in He; [| exact Hc]. apply lookup_singleton_Some in He. naive_solver.
Qed.

Lemma new_contract_absent (s : State T) a b n l :
  st_cache s = ∅ -> get_account (st_db s) a = Ok None ->
  new_contract a b n l s =
    (Ok tt, update_cache a (new_dirty (Some (oa_new_contract a b n false l)))
              (set_cache {[a := new_clean None]} s)).
Proof.
  intros Hc Hget. unfold new_contract, ensure_account_loaded, bind, get. rewrite Hc, lookup_empty.
  unfold lift, load_account. rewrite Hget. cbn. unfold insert_cache_if_fresh_account.
  rewrite Hc, lookup_empty. unfold update_cached, bind, get. cbn.
  rewrite lookup_insert_eq. cbn. by rewrite lookup_insert_eq.
Qed.

Lemma base_storage_ext (db db' : T) a k :
  storage_get db (StorageKey a k) = storage_get db' (StorageKey a k) -> base_storage db a k = base_storage db' a k.
Proof. unfold base_storage, db_get, get_raw. by intros ->. Qed.

Lemma storage_at_fresh (s : State T) a acc k :
  one_change s a acc -> cached_storage_at acc k = None -> fresh_storage acc = true ->
  (state_storage_at a k s).1 = Ok 0.
Proof.
  intros [Hc _] Hk Hf. unfold state_storage_at, ensure_account_loaded, bind, get.
  rewrite Hc, lookup_singleton_eq. cbn. unfold oa_storage_at. rewrite Hk, Hf. cbn.
  unfold with_account, bind, get, lift. rewrite Hc, lookup_singleton_eq. done.
Qed.

(** C25. The storage of a removed contract survives its removal. The contract is removed and the
    state committed; then a contract is created at the same address, which reads zero at every
    key. Once that is committed it reads the value the removed contract had stored. The code that
    deletes a removed account's storage is commented out in [recycle_storage]. *)
Theorem storage_survives_removal (keccak : list byte -> Z) (db : T) (s : State T) a k v epoch :
  typed_keccak keccak -> State_new db = Ok s -> is_address a -> is_builtin_address a = false ->
  StorageKey a k <> total_issued_tokens_key -> base_storage db a k = Ok v ->
  exists s1 s2 s3 s4,
    remove_contract a s = (Ok tt, s1) /\ state_commit epoch s1 = (Ok tt, s2) /\
    new_contract a 0 1 None s2 = (Ok tt, s3) /\ (state_storage_at a k s3).1 = Ok 0 /\
    state_commit epoch s3 = (Ok tt, s4) /\ answer_of keccak (CStorageAt a k) s4 = Ok (ANum v).
Proof.
  intros Hkec Hs Ha Hb Hkey Hv. unfold State_new in Hs.
  destruct (get_total_issued_tokens db) as [n | |]; [injection Hs as <- | done..].
  set (s := mkState _ _ _ _ _ _).
  assert (one_change (update_cache a (new_dirty (Some (new_removed a))) s) a (new_removed a)) as H1.
  { apply one_change_put; [apply map_empty_subseteq | done..]. }
  destruct (commit_one epoch _ a _ H1 Ha eq_refl) as (s2 & Hcom & Hc2 & Hcp2 & Hst2 & Haf2).
  assert (get_account (st_db s2) a = Ok None) as Hget2.
  { unfold get_account, get_raw. rewrite Haf2 by done. unfold committed. cbn [key_address].
    by rewrite lookup_singleton_eq. }
  pose proof (new_contract_absent s2 a 0 1 None Hc2 Hget2) as Hnew. set (s3 := update_cache _ _ _) in Hnew.
  assert (one_change s3 a (oa_new_contract a 0 1 false None)) as H3.
  { by apply one_change_put. }
  destruct (commit_one epoch _ a _ H3 Ha eq_refl) as (s4 & Hcom4 & Hc4 & Hcp4 & Hst4 & Haf4).
  exists (update_cache a (new_dirty (Some (new_removed a))) s), s2, s3, s4. do 3 (split; [done |]). split.
  { apply (storage_at_fresh s3 a _ k H3); [done |]. unfold fresh_storage. cbn. by rewrite Hb. }
  split; [done |].
  rewrite (storage_shows keccak Hkec False (st_db s4) s4 (base_world (st_db s4)) a k);
    [| by apply fresh_state_shows | done].
  unfold view_slot, base_world.
  assert (get_account (st_db s4) a = Ok (Some (mkAccount a 0 1 KECCAK_EMPTY))) as ->.
  { unfold get_account, get_raw. rewrite Haf4 by done. unfold committed. cbn [key_address].
    rewrite lookup_singleton_eq. cbn [mbind option_bind ae_account new_dirty set_write snd].
    change (is_default (as_account (oa_new_contract a 0 1 false None))) with false. cbn iota.
    by rewrite (account_rlp_roundtrip (oa_new_contract a 0 1 false None)). }
  cbn. rewrite (base_storage_ext _ db a k); [by rewrite Hv |].
  rewrite Haf4 by done. unfold committed. cbn [key_address]. rewrite lookup_singleton_eq.
  cbn. rewrite lookup_empty. cbn. rewrite Haf2 by done. unfold committed. cbn [key_address].
  by rewrite lookup_singleton_eq.
Qed.
End survival.

#[local] Existing Instance sample_rlp.
#[local] Existing Instance sample_rlp_laws.

Definition sample_cmds : list Cmd :=
  [CAddBalance 5 100 NoEmpty 0; CCheckpoint; CIncNonce 5 0; CSetStorage 5 [x01]%byte 7; CDiscardCheckpoint].

Definition sample_state : State InMemoryDb :=
  let s := mkState ∅ [] ∅ 0 [] [] in
  match run_state (exec_cmd toy_keccak) sample_cmds (s, ∅) with Some p => p.1 | None => s end.

Lemma sample_run :
  exists touched, run_state (exec_cmd toy_keccak) sample_cmds (mkState (∅ : InMemoryDb) [] ∅ 0 [] [], ∅) =
    Some (sample_state, touched).
Proof.
  assert (bool_decide (is_Some (run_state (exec_cmd toy_keccak) sample_cmds
    (mkState (∅ : InMemoryDb) [] ∅ 0 [] [], ∅))) = true) as Hrun by (vm_compute; reflexivity).
  apply bool_decide_eq_true_1 in Hrun as [[s t] Hs]. exists t. unfold sample_state. by rewrite Hs.
Qed.

Lemma sample_kept : storage_kept ∅ (st_cache sample_state) 5 [x01]%byte.
Proof.
  assert (match st_cache sample_state !! 5 ≫= ae_account with
    | Some acc => is_default (as_account acc) || fresh_storage acc
    | None => false
    end = false) as Hs by (vm_compute; reflexivity).
  intros acc Hacc. rewrite Hacc in Hs. apply orb_false_iff in Hs as [-> ->]. intros E. discriminate E.
Qed.

(** The committed state reads the balance and the storage written before. *)
Lemma commit_persists_witness :
  exists s2, state_commit 1 sample_state = (Ok tt, s2) /\
    answer_of toy_keccak (CBalance 5) s2 = Ok (ANum 100) /\
    answer_of toy_keccak (CStorageAt 5 [x01]%byte) s2 = Ok (ANum 7).
Proof.
  destruct empty_db_typed as [Htyped _], sample_run as [t Hrun].
  destruct (commit_persists toy_keccak (∅ : InMemoryDb) (mkState ∅ [] ∅ 0 [] []) sample_state sample_cmds t 1)
    as (s2 & Hcom & _ & Hreads);
    [apply toy_keccak_typed | done | apply new_in_memory | done | | exact Hrun | by vm_compute |].
  { repeat constructor; unfold is_address, is_u256, is_word; simpl; lia. }
  destruct (Hreads 5) as (Hbasic & _ & Hst); [unfold is_address, is_word; simpl; lia |].
  exists s2. split; [exact Hcom |]. split.
  - apply list.Forall_cons in Hbasic as [-> _]. vm_compute. reflexivity.
  - rewrite (Hst [x01]%byte); [vm_compute; reflexivity | done | apply sample_kept].
Defined.

Definition stored_db : InMemoryDb :=
  (storage_set (StorageKey (2 ^ 159) [x01]%byte) (rlp_encode (mkStorageValue 7)) (∅ : InMemoryDb)).2.

Lemma stored_db_get key :
  valid_key key ->
  storage_get stored_db key =
    if decide (StorageKey (2 ^ 159) [x01]%byte = key) then Ok (Some (rlp_encode (mkStorageValue 7))) else Ok None.
Proof.
  intros Hk. unfold stored_db. rewrite storage_get_set; [| unfold valid_key, is_address, is_word; simpl; lia | done].
  by rewrite empty_db_reads.
Qed.

Lemma storage_survives_removal_witness :
  let a := 2 ^ 159 in
  let k := [x01]%byte in
  exists s s1 s2 s3 s4,
    State_new stored_db = Ok s /\
    remove_contract a s = (Ok tt, s1) /\ state_commit 1 s1 = (Ok tt, s2) /\
    new_contract a 0 1 None s2 = (Ok tt, s3) /\ (state_storage_at a k s3).1 = Ok 0 /\
    state_commit 1 s3 = (Ok tt, s4) /\ answer_of toy_keccak (CStorageAt a k) s4 = Ok (ANum 7).
Proof.
  intros a k.
  assert (State_new stored_db = Ok (mkState stored_db [] ∅ 0 [] [])) as Hs.
  { unfold State_new, get_total_issued_tokens, db_get, get_raw.
    rewrite stored_db_get; [| by vm_compute].
    by rewrite decide_False. }
  assert (is_address a) as Ha by (unfold is_address, is_word, a; simpl; lia).
  destruct (storage_survives_removal toy_keccak stored_db _ a k 7 1 toy_keccak_typed Hs Ha)
    as (s1 & s2 & s3 & s4 & Hall); [vm_compute; reflexivity | done | |].
  - unfold base_storage, db_get, get_raw. rewrite stored_db_get by done. rewrite decide_True by done.
    rewrite rlp_value_roundtrip; [done |]. unfold is_u256, is_word. simpl. lia.
  - exists (mkState stored_db [] ∅ 0 [] []), s1, s2, s3, s4. split; [exact Hs | exact Hall].
Defined.
