(* ===== verification/Frames.v ===== *)
(** * The stack of frames

    src/cfx-evm/src/call_create_frame: [CallCreateFrame] (frame.rs), the executives a frame runs
    (executive.rs), the results it returns (result.rs) and the loop over the stack of suspended
    frames (stack.rs); [Factory::create] of evm/factory.rs, [Machine::builtin] of machine.rs and
    [separate_out_db_error] of vm/error.rs.

    A method that mutates the state and the call stack is a computation over [Shared]: the
    state, the call stack and the jump destination cache of the factory. A [DbResult] is the
    result of the computation, a [vm::Result] a value of type [_ + Error]; the error of a
    [DbResult] is kept as the [StateDbError] it was separated from. Builtins run third-party
    cryptography and internal contracts are trait objects: both are given by what they compute.
    No internal contract of the repository asks for a sub-call. The interpreter loop and the loop
    over the stack take fuel and give [None] without. Observers only observe. *)

From stdpp Require Import gmap strings.
From S2P Require Import Prelude Word StateDb Arith VmTypes FrameContext Gasometer SharedCache Interpreter.
Local Open Scope Z_scope.

(** ** The state behind a frame *)

Definition STORAGE_LAYOUT_REGULAR_V0 : StorageLayout := Regular 0.

(** What frames and transactions use of [StateTrait] beyond [StateOps]. *)
Class FrameState (St : Type) : Type := {
  st_checkpoint : St -> St;
  st_discard_checkpoint : St -> St;
  st_revert_to_checkpoint : M Error St unit;
  st_new_contract : Z -> Z -> Z -> option StorageLayout -> M Error St unit;
  st_add_balance : Z -> Z -> CleanupMode -> Z -> M Error (St * gset Z) unit;
  st_remove_contract : Z -> M Error St unit;
}.

(** ** Builtins and the machine *)

Record Builtin : Type := mkBuiltin {
  b_cost : list byte -> vm_result Z;
  b_execute : list byte -> result string (list byte);
  b_activate_at : Z;
}.

Definition b_is_active (self : Builtin) (at_ : Z) : bool := b_activate_at self <=? at_.

(** An internal contract active under a specification, and its [execute]. *)
Record InternalExec (St : Type) : Type := mkInternalExec {
  ie_contract : InternalContract;
  ie_execute : ActionParams -> M Error (FrameContext St) GasLeft;
}.
Arguments mkInternalExec {St}.
Arguments ie_contract {St}.
Arguments ie_execute {St}.

Record ChainMachine (St : Type) : Type := mkChainMachine {
  cm_builtins : gmap Z Builtin;
  cm_internal_contracts : Z -> Spec -> option (InternalExec St);
  cm_chain_id : Z -> Z;
}.
Arguments mkChainMachine {St}.
Arguments cm_builtins {St}.
Arguments cm_internal_contracts {St}.
Arguments cm_chain_id {St}.

Definition machine_builtin {St} (self : ChainMachine St) (address block_number : Z) : option Builtin :=
  b ← cm_builtins self !! address; if b_is_active b block_number then Some b else None.

(** ** Results *)

Record FrameReturn : Type := mkFrameReturn {
  fr_space : Space;
  fr_gas_left : Z;
  fr_apply_state : bool;
  fr_return_data : ReturnData;
  fr_create_address : option Z;
  fr_substate : option Substate;
}.

Definition FrameReturn_into (self : FrameReturn) : FinalizationResult :=
  mkFinalizationResult (fr_space self) (fr_gas_left self) (fr_apply_state self) (fr_return_data self).

Definition FrameReturn_new (result : FinalizationResult) (create_address : option Z)
    (substate : option Substate) : FrameReturn :=
  mkFrameReturn (f_space result) (f_gas_left result) (f_apply_state result) (f_return_data result)
    create_address substate.

(** The substate of the parent and the result without its own. *)
Definition accrue_substate (parent_substate : Substate) (result : FrameReturn + Error) :
    Substate * (FrameReturn + Error) :=
  match result with
  | inl r =>
      match fr_substate r with
      | Some substate =>
          (accrue parent_substate substate,
           inl (mkFrameReturn (fr_space r) (fr_gas_left r) (fr_apply_state r) (fr_return_data r)
                  (fr_create_address r) None))
      | None => (parent_substate, result)
      end
  | inr _ => (parent_substate, result)
  end.

Definition into_message_call_result (result : FrameReturn + Error) : MessageCallResult :=
  match result with
  | inl r =>
      if fr_apply_state r then CallSuccess (fr_gas_left r) (fr_return_data r)
      else CallReverted (fr_gas_left r) (fr_return_data r)
  | inr err => CallFailed err
  end.

Definition into_contract_create_result (result : FrameReturn + Error) : vm_result ContractCreateResult :=
  match result with
  | inl r =>
      if fr_apply_state r then
        let? address := unwrap (fr_create_address r) in
        Ok (Created address (fr_space r) (fr_gas_left r))
      else Ok (CreateReverted (fr_gas_left r) (fr_return_data r))
  | inr err => Ok (CreateFailed err)
  end.

Definition separate_out_db_error {E A} (result : A + Error) : M Error E (A + Error) :=
  match result with
  | inr (StateDbError err) => throw (StateDbError err)
  | x => ret x
  end.

(** The result of a computation as a value. *)
Definition attempt {St A} (m : M Error St A) : M Error St (A + Error) := fun s =>
  match m s with
  | (Ok a, s') => (Ok (inl a), s')
  | (Err e, s') => (Ok (inr e), s')
  | (Panic, s') => (Panic, s')
  end.

(** ** Frames *)

Inductive FrameKind (St : Type) : Type :=
| FTransfer
| CallBuiltin (builtin : Builtin)
| CallInternalContract (internal : InternalExec St)
| ExecCall
| ExecCreate.
Arguments FTransfer {St}.
Arguments CallBuiltin {St}.
Arguments CallInternalContract {St}.
Arguments ExecCall {St}.
Arguments ExecCreate {St}.

(** An [Interpreter<Cost>] behind a [dyn] reference: which cost type it has. *)
Inductive CostKind : Set := CostUsize | CostU256.

Definition cost_of (k : CostKind) : CostType :=
  match k with CostUsize => usize_cost | CostU256 => u256_cost end.

Inductive FrameStatus : Type :=
| Input (params : ActionParams)
| Running
| ResumeCall (kind : CostKind) (resume : Interpreter)
| ResumeCreate (kind : CostKind) (resume : Interpreter)
| FrameDone.

(** The context of a frame that is not active holds no state: [FrameContext] of context.rs,
    whose [activate] adds it. *)
Record CallCreateFrame (St : Type) : Type := mkFrame {
  cf_context : FrameContext unit;
  cf_machine : ChainMachine St;
  cf_status : FrameStatus;
  cf_create_address : option Z;
  cf_kind : FrameKind St;
}.
Arguments mkFrame {St}.
Arguments cf_context {St}.
Arguments cf_machine {St}.
Arguments cf_status {St}.
Arguments cf_create_address {St}.
Arguments cf_kind {St}.

Definition put_state {A B} (s : B) (c : FrameContext A) : FrameContext B :=
  mkFrameContext s (fc_space c) (fc_env c) (fc_depth c) (fc_is_create c) (fc_origin c)
    (fc_substate c) (fc_internal_contracts c) (fc_chain_id c) (fc_spec c) (fc_static_flag c).

Definition activate {St} (self : FrameContext unit) (s : St) : FrameContext St := put_state s self.

(** The context as it is left when it is no longer active. *)
Definition deactivate {St} (c : FrameContext St) : FrameContext unit := put_state tt c.

Definition with_substate {A} (s : Substate) (c : FrameContext A) : FrameContext A :=
  mkFrameContext (fc_state c) (fc_space c) (fc_env c) (fc_depth c) (fc_is_create c) (fc_origin c)
    s (fc_internal_contracts c) (fc_chain_id c) (fc_spec c) (fc_static_flag c).

Inductive ExecOutput : Type :=
| OutputReturn (result : GasLeft + Error)
| OutputTrap (trap : TrapKind) (kind : CostKind) (resume : Interpreter).

(** [FrameTrapResult]; a trap carries the parameters of the sub-call and the frame that waits. *)
Inductive FrameTrapResult (St : Type) : Type :=
| FrameReturned (result : FrameReturn + Error)
| FrameTrapped (trap : TrapKind) (parent : CallCreateFrame St).
Arguments FrameReturned {St}.
Arguments FrameTrapped {St}.

(** What a frame runs: [Box<dyn Exec>]. *)
Inductive Exec (St : Type) : Type :=
| NoopExec (gas : Z)
| BuiltinExec (builtin : Builtin) (params : ActionParams)
| InternalContractExec (internal : InternalExec St) (params : ActionParams)
| EvmExec (kind : CostKind) (vm : Interpreter).
Arguments NoopExec {St}.
Arguments BuiltinExec {St}.
Arguments InternalContractExec {St}.
Arguments EvmExec {St}.

(** What the frames of a stack share. *)
Record Shared (St L : Type) : Type := mkShared {
  sh_state : St;
  sh_callstack : FrameStackInfo;
  sh_cache : L;
}.
Arguments mkShared {St L}.
Arguments sh_state {St L}.
Arguments sh_callstack {St L}.
Arguments sh_cache {St L}.

Section frames.
Context {St : Type} {SS : StateOps St} {FS : FrameState St} {L : Type} {LL : Lru L}.
Context (keccak : list byte -> Z) (rlp_sender_nonce : Z -> Z -> list byte).

Abbreviation Frame := (CallCreateFrame St).
Local Instance frames_context : Context (FrameContext St) := frame_context keccak rlp_sender_nonce.

Abbreviation FM := (M Error (Shared St L)).

Definition on_shared {A} (m : M Error St A) : FM A := fun w =>
  let '(r, s) := m (sh_state w) in (r, mkShared s (sh_callstack w) (sh_cache w)).

Definition set_status (status : FrameStatus) (f : Frame) : Frame :=
  mkFrame (cf_context f) (cf_machine f) status (cf_create_address f) (cf_kind f).

Definition set_context (c : FrameContext unit) (f : Frame) : Frame :=
  mkFrame c (cf_machine f) (cf_status f) (cf_create_address f) (cf_kind f).

(** Runs with the context of a frame active; the frame keeps what changed of its context. *)
Definition in_context {A} (self : Frame) (m : M Error (FrameContext St) A) : FM (A * Frame) :=
  fun w =>
    let '(r, c) := m (activate (cf_context self) (sh_state w)) in
    (let? a := r in Ok (a, set_context (deactivate c) self),
     mkShared (fc_state c) (sh_callstack w) (sh_cache w)).

(** ** Creation of a frame *)

(** [FrameContext::new] *)
Definition FrameContext_new (space : Space) (env : Env) (machine : ChainMachine St) (spec : Spec)
    (depth : Z) (origin : OriginInfo) (substate : Substate) (is_create static_flag : bool) :
    FrameContext unit := {|
  fc_state := tt;
  fc_space := space;
  fc_env := env;
  fc_depth := depth;
  fc_is_create := is_create;
  fc_origin := origin;
  fc_substate := substate;
  fc_internal_contracts a := ie_contract <$> cm_internal_contracts machine a spec;
  fc_chain_id := cm_chain_id machine (env_epoch_height env);
  fc_spec := spec;
  fc_static_flag := static_flag;
|}.

Definition new_call_raw (params : ActionParams) (env : Env) (machine : ChainMachine St) (spec : Spec)
    (depth : Z) (parent_static_flag : bool) : Frame :=
  let static_flag := parent_static_flag || bool_decide (ap_call_type params = StaticCall) in
  let kind :=
    match machine_builtin machine (ap_code_address params) (env_number env) with
    | Some builtin => CallBuiltin builtin
    | None =>
        match cm_internal_contracts machine (ap_code_address params) spec with
        | Some internal => CallInternalContract internal
        | None => if ap_code params then ExecCall else FTransfer
        end
    end in
  mkFrame (FrameContext_new (ap_space params) env machine spec depth (OriginInfo_from params)
             Substate_new false static_flag)
    machine (Input params) None kind.

Definition new_create_raw (params : ActionParams) (env : Env) (machine : ChainMachine St) (spec : Spec)
    (depth : Z) (static_flag : bool) : Frame :=
  mkFrame (FrameContext_new (ap_space params) env machine spec depth (OriginInfo_from params)
             Substate_new true static_flag)
    machine (Input params) (Some (ap_code_address params)) ExecCreate.

(** The callee and the caller. *)
Definition from_trap_error (trap : TrapKind) (parent : Frame) : vm_result (Frame * Frame) :=
  let c := cf_context parent in
  let? depth := checked_add 64 (fc_depth c) 1 in
  let callee :=
    match trap with
    | TrapCall params =>
        new_call_raw params (fc_env c) (cf_machine parent) (fc_spec c) depth (fc_static_flag c)
    | TrapCreate params =>
        new_create_raw params (fc_env c) (cf_machine parent) (fc_spec c) depth (fc_static_flag c)
    end in
  Ok (callee, parent).

(** ** Before the execution *)

Definition check_static_flag (params : ActionParams) (static_flag is_create : bool) : vm_result unit :=
  if is_create then if static_flag then Err MutableCallInStaticContext else Ok tt
  else
    if static_flag
       && (bool_decide (ap_call_type params = StaticCall) || bool_decide (ap_call_type params = Call))
       && (0 <? action_value (ap_value params))
    then Err MutableCallInStaticContext else Ok tt.

Definition transfer_exec_balance (params : ActionParams) (spec : Spec) (account_start_nonce : Z) :
    M Error (FrameContext St) unit :=
  match ap_value params with
  | Transfer val =>
      touch_do (st_transfer_balance (ap_sender params) (ap_address params) val (cleanup_mode spec)
                  account_start_nonce)
  | Apparent _ => ret tt
  end.

Definition transfer_exec_balance_and_init_contract (params : ActionParams) (spec : Spec)
    (storage_layout : option StorageLayout) : M Error (FrameContext St) unit :=
  match ap_value params with
  | Transfer val =>
      c <~ get ;;
      prev_balance <~ lift (st_balance (fc_state c) (ap_address params)) ;;
      touch_do (st_sub_balance (ap_sender params) val (cleanup_mode spec)) ;;;
      state_do (st_new_contract (ap_address params) (Z.min (val + prev_balance) (2 ^ 256 - 1)) 1 storage_layout)
  | Apparent _ => panic
  end.

(** [VmFactory::create] *)
Definition can_fit_in_usize (gas : Z) : bool := gas =? low_u64 gas.

Definition factory_create (params : ActionParams) : vm_result (Exec St) :=
  let kind := if can_fit_in_usize (ap_gas params) then CostUsize else CostU256 in
  let? vm := Interpreter_new (cost := cost_of kind) params in
  Ok (EvmExec kind vm).

Definition kind_exec (kind : FrameKind St) (params : ActionParams) : vm_result (Exec St) :=
  match kind with
  | FTransfer => Ok (NoopExec (ap_gas params))
  | CallBuiltin builtin => Ok (BuiltinExec builtin params)
  | CallInternalContract internal => Ok (InternalContractExec internal params)
  | ExecCall | ExecCreate => factory_create params
  end.

(** The part of [exec] up to the call of [Exec::exec]. *)
Definition frame_enter (self : Frame) : FM (Exec St * Frame) :=
  match cf_status self with
  | Input params =>
      let self := set_status Running self in
      let c := cf_context self in
      let spec := fc_spec c in
      let is_create := bool_decide (is_Some (cf_create_address self)) in
      if negb (Bool.eqb is_create (fc_is_create c)) then panic
      else
        match check_static_flag params (fc_static_flag c) is_create with
        | Ok _ =>
            modify (fun w => mkShared (st_checkpoint (sh_state w)) (sh_callstack w) (sh_cache w)) ;;;
            w <~ get ;;
            callstack <~ lift (stack_push (sh_callstack w) (oi_address (fc_origin c)) is_create) ;;
            modify (fun w => mkShared (sh_state w) callstack (sh_cache w)) ;;;
            r <~ in_context self
                   (if is_create
                    then transfer_exec_balance_and_init_contract params spec (Some STORAGE_LAYOUT_REGULAR_V0)
                    else transfer_exec_balance params spec (account_start_nonce spec)) ;;
            let '(_, self) := r in
            exec <~ lift (kind_exec (cf_kind self) params) ;;
            ret (exec, self)
        | _ => panic
        end
  | _ => panic
  end.

(** ** The execution *)

Definition builtin_exec (builtin : Builtin) (params : ActionParams) : vm_result (GasLeft + Error) :=
  let data := default [] (ap_data params) in
  let? cost := b_cost builtin data in
  if cost <=? ap_gas params then
    match b_execute builtin data with
    | Ok out =>
        let? gas_left := checked_sub (ap_gas params) cost in
        Ok (inl (NeedsReturn gas_left (mkReturnData out 0 (len out)) true))
    | Err e => Ok (inr (BuiltIn e))
    | Panic => Panic
    end
  else Ok (inr OutOfGas).

Definition internal_contract_exec (internal : InternalExec St) (params : ActionParams) :
    M Error (FrameContext St) (GasLeft + Error) :=
  if bool_decide (ap_call_type params = Call) || bool_decide (ap_call_type params = StaticCall)
  then attempt (ie_execute internal params)
  else ret (inr (VmTypes.InternalContract "Incorrect call type."%string)).

(** [Exec::exec] of the interpreter, in the context of the frame. *)
Definition evm_exec (fuel : nat) (kind : CostKind) (vm : Interpreter) (self : Frame) :
    FM (option ExecOutput * Frame) := fun w =>
  let '(r, m) :=
    exec (cost := cost_of kind) keccak fuel
      (mkMachine vm (activate (cf_context self) (sh_state w)) (sh_cache w)) in
  (match r with
   | Ok r =>
       Ok (match r with
           | Some (Return value) => Some (OutputReturn value)
           | Some (SubCallCreate trap) => Some (OutputTrap trap kind (m_vm m))
           | None => None
           end, set_context (deactivate (m_ctx m)) self)
   | Err e => match e with end
   | Panic => Panic
   end,
   mkShared (fc_state (m_ctx m)) (sh_callstack w) (m_cache m)).

Definition exec_output (fuel : nat) (exec : Exec St) (self : Frame) :
    FM (option ExecOutput * Frame) :=
  match exec with
  | NoopExec gas => ret (Some (OutputReturn (inl (Known gas))), self)
  | BuiltinExec builtin params =>
      v <~ lift (builtin_exec builtin params) ;;
      ret (Some (OutputReturn v), self)
  | InternalContractExec internal params =>
      r <~ in_context self (internal_contract_exec internal params) ;;
      ret (Some (OutputReturn (fst r)), snd r)
  | EvmExec kind vm => evm_exec fuel kind vm self
  end.

(** ** After the execution *)

Definition frame_process_return (self : Frame) (result : GasLeft + Error) :
    FM (FrameReturn + Error) :=
  r <~ in_context self (attempt (finalize result)) ;;
  let '(finalized_result, self) := r in
  finalized_result <~ separate_out_db_error finalized_result ;;
  let self := set_status FrameDone self in
  let apply_state :=
    match finalized_result with inl r => f_apply_state r | inr _ => false end in
  maybe_substate <~
    (if apply_state then
       let sub := fc_substate (cf_context self) in
       let sub :=
         match cf_create_address self with
         | Some create_address =>
             mkSubstate (suicides sub) (touched sub) (logs sub) (contracts_created sub ++ [create_address])
         | None => sub
         end in
       modify (fun w => mkShared (st_discard_checkpoint (sh_state w)) (sh_callstack w) (sh_cache w)) ;;;
       ret (Some sub)
     else on_shared st_revert_to_checkpoint ;;; ret None) ;;
  w <~ get ;;
  popped <~ lift (stack_pop (sh_callstack w)) ;;
  modify (fun w => mkShared (sh_state w) (snd popped) (sh_cache w)) ;;;
  ret (match finalized_result with
       | inl result => inl (FrameReturn_new result (cf_create_address self) maybe_substate)
       | inr e => inr e
       end).

Definition process_trap (self : Frame) (trap : TrapKind) (kind : CostKind) (resume : Interpreter) :
    FrameTrapResult St :=
  match trap with
  | TrapCall _ => FrameTrapped trap (set_status (ResumeCall kind resume) self)
  | TrapCreate _ => FrameTrapped trap (set_status (ResumeCreate kind resume) self)
  end.

Definition process_output (self : Frame) (output : ExecOutput) : FM (FrameTrapResult St) :=
  match output with
  | OutputReturn result =>
      r <~ frame_process_return self result ;;
      ret (FrameReturned r)
  | OutputTrap trap kind resume => ret (process_trap self trap kind resume)
  end.

(** [Exec::exec] and the post-execution. *)
Definition frame_run (fuel : nat) (exec : Exec St) (self : Frame) :
    FM (option (FrameTrapResult St)) :=
  r <~ exec_output fuel exec self ;;
  match r with
  | (Some output, self) => t <~ process_output self output ;; ret (Some t)
  | (None, _) => ret None
  end.

Definition frame_exec (fuel : nat) (self : Frame) : FM (option (FrameTrapResult St)) :=
  r <~ frame_enter self ;;
  frame_run fuel (fst r) (snd r).

(** The part of [resume] up to the call of [Exec::exec]. *)
Definition frame_reenter (self : Frame) (result : FrameReturn + Error) : vm_result (Exec St * Frame) :=
  let status := cf_status self in
  let '(substate, result) := accrue_substate (fc_substate (cf_context self)) result in
  let self := set_status Running (set_context (with_substate substate (cf_context self)) self) in
  match status with
  | ResumeCreate kind resume =>
      let? result := into_contract_create_result result in
      let? vm := resume_create (cost := cost_of kind) resume result in
      Ok (EvmExec kind vm, self)
  | ResumeCall kind resume =>
      let? vm := resume_call (cost := cost_of kind) resume (into_message_call_result result) in
      Ok (EvmExec kind vm, self)
  | Input _ | FrameDone | Running => Panic
  end.

Definition frame_resume (fuel : nat) (self : Frame) (result : FrameReturn + Error) :
    FM (option (FrameTrapResult St)) :=
  r <~ lift (frame_reenter self result) ;;
  frame_run fuel (fst r) (snd r).

(** ** The stack *)

(** One iteration of the loop of [exec_stack]: the stack, innermost frame first, and the last
    result become the next ones, or the result of the whole stack. *)
Definition stack_turn (fuel : nat) (frame_stack : list Frame) (last_res : FrameTrapResult St) :
    FM (option (list Frame * FrameTrapResult St) + (FrameReturn + Error)) :=
  match last_res with
  | FrameReturned result =>
      match frame_stack with
      | [] => ret (inr result)
      | parent :: rest =>
          r <~ frame_resume fuel parent result ;;
          ret (inl ((fun t => (rest, t)) <$> r))
      end
  | FrameTrapped trap parent =>
      callee_caller <~ lift (from_trap_error trap parent) ;;
      let '(callee, caller) := callee_caller in
      r <~ frame_exec fuel callee ;;
      ret (inl ((fun t => (caller :: frame_stack, t)) <$> r))
  end.

Fixpoint exec_frames (turns fuel : nat) (frame_stack : list Frame) (last_res : FrameTrapResult St) :
    FM (option (FrameReturn + Error)) :=
  match turns with
  | O => ret None
  | Datatypes.S turns =>
      r <~ stack_turn fuel frame_stack last_res ;;
      match r with
      | inr result => ret (Some result)
      | inl (Some (frame_stack, last_res)) => exec_frames turns fuel frame_stack last_res
      | inl None => ret None
      end
  end.

Record FrameStackOutput : Type := mkFrameStackOutput {
  fo_result : FinalizationResult + Error;
  fo_substate : Substate;
  fo_base_gas_required : Z;
}.

Definition stack_process_return (tx_substate : Substate) (base_gas_required : Z)
    (result : FrameReturn + Error) : FrameStackOutput :=
  let '(tx_substate, result) := accrue_substate tx_substate result in
  mkFrameStackOutput (match result with inl r => inl (FrameReturn_into r) | inr e => inr e end)
    tx_substate base_gas_required.

(** [FrameStack::new] and [FrameStack::exec]. *)
Definition frame_stack_exec (turns fuel : nat) (top_substate : Substate) (base_gas_required : Z)
    (top_frame : Frame) : M Error (St * L) (option FrameStackOutput) := fun p =>
  let '(r, w) :=
    (last_res <~ frame_exec fuel top_frame ;;
     match last_res with
     | Some last_res => exec_frames turns fuel [] last_res
     | None => ret None
     end) (mkShared (fst p) FrameStackInfo_new (snd p)) in
  (let? o := r in Ok (stack_process_return top_substate base_gas_required <$> o), (sh_state w, sh_cache w)).
End frames.
