(* ===== verification/FrameStack.v ===== *)
(** * Running a stack of frames

    The loop of src/cfx-evm/src/call_create_frame/stack.rs over the frames of [Frames], for any
    state that satisfies [FrameStateLaws]: frames enter, trap, are resumed and return without a
    panic, each within the gas it was given; the checkpoints of the state and the call stack are
    opened and closed in step; a frame that fails or reverts leaves the state as it found it; and
    the number of turns is bounded by the gas.

    Three accidents are left out, and named where they happen: a [BLOCKHASH] of the largest word,
    a frame whose code is not the one its code hash stands for (the jump destination cache is
    keyed by hash), and a contract created at the address of its creator. *)

From stdpp Require Import gmap strings.
From S2P Require Import Prelude Word StateDb Arith VmTypes FrameContext Instructions EvmStack Memory Gasometer SharedCache.
From S2P Require Import Interpreter CopyData MachineRules StepSafety Frame Frames.
Local Open Scope Z_scope.

(** ** What frames rely on *)

(** An error of the database, which ends the whole transaction. *)
Definition db_error (e : Error) : Prop := exists m, e = StateDbError m.

(** Every error of a computation is one of the database. *)
Definition only_db_errors {S A} (m : M Error S A) : Prop := forall s e s', m s = (Err e, s') -> db_error e.

(** [st_at n v sv s]: the state [s] shows [v], has saved the views [sv] at its open checkpoints,
    the last one first, and leaves room for [n] more increments of a nonce in all of them. *)
Class FrameStateLaws (St V : Type) {SS : StateOps St} {FS : FrameState St}
    (st_at : nat -> V -> list V -> St -> Prop) : Prop := {
  xl_state sv : StateLaws St (fun n s => exists v, st_at n v sv s);
  xl_mono n m v sv s : st_at n v sv s -> (m <= n)%nat -> st_at m v sv s;
  xl_checkpoint n v sv s : st_at n v sv s -> st_at n v (v :: sv) (st_checkpoint s);
  xl_checkpoint_balance n v sv s a : st_at n v sv s -> st_balance (st_checkpoint s) a = st_balance s a;
  xl_discard n v w sv s : st_at n v (w :: sv) s -> st_at n v sv (st_discard_checkpoint s);
  xl_revert n v w sv s :
    st_at n v (w :: sv) s -> wp st_revert_to_checkpoint s (fun _ => st_at n w sv) (fun _ _ => False);
  (* the value of a contract is taken from its creator and added to what its address held *)
  xl_new_contract n sv s t a a' v prev m layout :
    (exists x, st_at n x sv s) -> is_word 160 a -> is_word 160 a' -> a <> a' -> affordable s a v ->
    st_balance s a' = Ok prev ->
    wp (st_sub_balance a v m) (s, t)
      (fun _ p => wp (st_new_contract a' (Z.min (v + prev) (2 ^ 256 - 1)) 1 layout) p.1
         (fun _ s' => exists x, st_at n x sv s') (fun _ s' => exists x, st_at n x sv s'))
      (fun _ p => exists x, st_at n x sv p.1);
  xl_balance_errors s a e : st_balance s a = Err e -> db_error e;
  xl_sub_balance_errors a v m : only_db_errors (st_sub_balance a v m);
  xl_transfer_balance_errors a a' v m start : only_db_errors (st_transfer_balance a a' v m start);
  xl_new_contract_errors a v n layout : only_db_errors (st_new_contract a v n layout);
}.

(** ** The call stack *)

Fixpoint counter_of (l : list (Z * bool)) : gmap Z Z :=
  match l with
  | [] => ∅
  | (a, _) :: l => <[a := default 0 (counter_of l !! a) + 1]> (counter_of l)
  end.

(** The call stack that holds the recipients [l], the last one first. *)
Definition callstack_of (l : list (Z * bool)) : FrameStackInfo := mkFrameStackInfo l (counter_of l).

Lemma counter_of_bounds l a n : counter_of l !! a = Some n -> 1 <= n <= len l.
Proof.
  revert n. induction l as [| [b c] l IH]; intros n; cbn; [by rewrite lookup_empty |].
  rewrite len_cons, lookup_insert_Some. pose proof (len_nonneg l).
  intros [[-> <-] | [_ H']]; [| specialize (IH _ H'); lia].
  destruct (counter_of l !! a) as [m |]; cbn; [specialize (IH m eq_refl) |]; lia.
Qed.

Lemma push_callstack l a b :
  len l < 2 ^ 31 -> stack_push (callstack_of l) a b = Ok (callstack_of ((a, b) :: l)).
Proof.
  intros Hl. unfold stack_push, checked_add. cbn [address_counter callstack_of].
  assert (default 0 (counter_of l !! a) <= len l).
  { pose proof (len_nonneg l). destruct (counter_of l !! a) eqn:E; cbn; [| done].
    apply counter_of_bounds in E. lia. }
  by rewrite (proj2 (Z.ltb_lt _ (2 ^ 32))) by lia.
Qed.

Lemma pop_callstack l a b :
  stack_pop (callstack_of ((a, b) :: l)) = Ok (Some (a, b), callstack_of l).
Proof.
  unfold stack_pop. cbn [call_stack_recipient_addresses callstack_of address_counter counter_of].
  rewrite lookup_insert_eq. cbn [unwrap result_bind].
  set (c := default 0 (counter_of l !! a)). assert (Hc : 0 <= c).
  { unfold c. destruct (counter_of l !! a) eqn:E; cbn; [| done]. apply counter_of_bounds in E. lia. }
  unfold checked_sub. rewrite (proj2 (Z.leb_le 1 _)) by lia. cbn [result_bind].
  replace (c + 1 - 1) with c by lia. unfold callstack_of. do 3 f_equal.
  destruct (counter_of l !! a) as [n |] eqn:E; subst c; cbn [default from_option id].
  - apply counter_of_bounds in E as Hn. rewrite (proj2 (Z.eqb_neq n 0)) by lia.
    rewrite insert_insert_eq. by apply insert_id.
  - by apply delete_insert_id.
Qed.

(** ** The machine *)

(** Builtins price every input, and return on the inputs that can be paid for; internal contracts
    keep within the gas they are given and keep the invariant of the frame they run in. *)
Definition wf_builtin (b : Builtin) : Prop :=
  forall data, wf_bytes data ->
    exists cost, b_cost b data = Ok cost /\ 0 <= cost /\
      (cost < 2 ^ 64 -> rwp (b_execute b data) wf_bytes (fun _ => True)).

Definition credited {St} {SS : StateOps St} (s : St) (p : ActionParams) : Prop :=
  ap_call_type p = Call -> ap_address p = ap_code_address p /\ affordable s (ap_address p) (action_value (ap_value p)).

(** An internal contract is told at which address it is called. A plain call has given this account
    the value of the call, which the contract can take away. *)
Definition wf_internal {St V} {SS : StateOps St} (st_at : nat -> V -> list V -> St -> Prop) (spec : Spec)
    (a : Z) (ie : InternalExec St) : Prop :=
  forall sv k n c p,
    frame_context_inv (st_inv := fun n s => exists v, st_at n v sv s) spec k n c ->
    wf_constants spec k -> oi_address (k_origin k) = ap_address p -> callee_ok p -> is_usize (ap_gas p) ->
    ap_code_address p = a -> ap_call_type p = Call \/ ap_call_type p = StaticCall -> credited (fc_state c) p ->
    wp (ie_execute ie p) c
      (fun v c' => gas_left_ok (ap_gas p) v /\
         frame_context_inv (st_inv := fun n s => exists v, st_at n v sv s) spec k n c')
      (fun _ => frame_context_inv (st_inv := fun n s => exists v, st_at n v sv s) spec k n).

Record wf_machine {St V} {SS : StateOps St} (st_at : nat -> V -> list V -> St -> Prop) (spec : Spec)
    (mc : ChainMachine St) : Prop := {
  wm_chain_id : forall h, is_u256 (cm_chain_id mc h);
  wm_builtins : forall a b, cm_builtins mc !! a = Some b -> wf_builtin b;
  wm_code : forall a ie, cm_internal_contracts mc a spec = Some ie ->
    wf_bytes (ic_code (ie_contract ie)) /\ is_u256 (ic_code_hash (ie_contract ie));
  wm_internal : forall a ie, cm_internal_contracts mc a spec = Some ie -> wf_internal st_at spec a ie;
}.

Section stack.
Local Existing Instance usize_cost.
Context {St : Type} {SS : StateOps St} {FS : FrameState St} {L : Type} {LL : Lru L}.
Context {V : Type} {st_at : nat -> V -> list V -> St -> Prop} {XL : FrameStateLaws St V st_at}.
Context (keccak : list byte -> Z) (Hkeccak : forall l, is_u256 (keccak l)).
Context (rlp_sender_nonce : Z -> Z -> list byte).
Context (spec : Spec) (W : wf_spec spec) (mc : ChainMachine St) (WM : wf_machine st_at spec mc).
(** The code a code hash stands for. *)
Context (code_of : Z -> option (list byte)).

Abbreviation Frame := (CallCreateFrame St).
Abbreviation SM := (M Error (Shared St L)).
Abbreviation st_inv sv := (fun (n : nat) (s : St) => exists v, st_at n v sv s).
Abbreviation context_inv sv := (frame_context_inv (st_inv := st_inv sv) spec).
Local Instance stack_context : Context (FrameContext St) := frame_context keccak rlp_sender_nonce.

(** ** Frames *)

Record frame_ok (f : Frame) : Prop := {
  fo_spec : fc_spec (cf_context f) = spec;
  fo_constants : wf_constants spec (constants_of (cf_context f));
  fo_machine : cf_machine f = mc;
  fo_create : fc_is_create (cf_context f) = bool_decide (is_Some (cf_create_address f));
  fo_address : forall a, cf_create_address f = Some a -> is_word 160 a;
}.

Abbreviation owner_of f := (oi_address (fc_origin (cf_context f))).

(** The parts of a frame that do not change while it lives. *)
Definition same_frame (f f' : Frame) : Prop :=
  fc_spec (cf_context f') = fc_spec (cf_context f) /\
  constants_of (cf_context f') = constants_of (cf_context f) /\
  cf_machine f' = cf_machine f /\ cf_create_address f' = cf_create_address f /\ cf_kind f' = cf_kind f.

(** A frame that waits for the frame it asked for with the trap [t]. *)
Record waiting (f : Frame) (t : TrapKind) : Prop := {
  wa_frame : frame_ok f;
  wa_resume : exists i,
    cf_status f = match t with
                  | TrapCall _ => ResumeCall CostUsize i
                  | TrapCreate _ => ResumeCreate CostUsize i
                  end /\
    suspended (spec := spec) (owner := owner_of f) code_of i t;
}.

(** A frame that has not started. *)
Record fresh (f : Frame) (p : ActionParams) (s : St) : Prop := {
  fe_frame : frame_ok f;
  fe_status : cf_status f = Input p;
  fe_origin : fc_origin (cf_context f) = OriginInfo_from p;
  fe_params : callee_ok p;
  fe_gas : is_usize (ap_gas p);
  fe_payable : payable s p;
  fe_static : check_static_flag p (fc_static_flag (cf_context f)) (fc_is_create (cf_context f)) = Ok tt;
  fe_kind :
    match cf_kind f with
    | FTransfer => True
    | CallBuiltin b => wf_builtin b
    | CallInternalContract ie => wf_internal st_at spec (ap_code_address p) ie /\ plain_call p /\ fc_is_create (cf_context f) = false
    | ExecCall | ExecCreate => is_Some (ap_code p)
    end;
  fe_create : fc_is_create (cf_context f) = true -> exists v, ap_value p = Transfer v;
}.

(** A frame can start unless its code is not the one its hash stands for, or it creates a
    contract at the address of its creator. *)
Definition regular (f : Frame) (p : ActionParams) : Prop :=
  (forall code h, ap_code p = Some code -> ap_code_hash p = Some h -> code_of h = Some code) /\
  (fc_is_create (cf_context f) = true -> ap_sender p <> ap_address p).

Lemma same_frame_ok f f' : same_frame f f' -> frame_ok f -> frame_ok f'.
Proof.
  intros (E1 & E2 & E3 & E4 & _) []. constructor; rewrite ?E1, ?E2, ?E3, ?E4; try done.
  by rewrite <- fo_create0; apply (f_equal k_is_create) in E2.
Qed.

Lemma same_frame_owner f f' : same_frame f f' -> owner_of f' = owner_of f.
Proof. intros (_ & E & _). apply (f_equal k_origin) in E. cbn in E. by rewrite E. Qed.

Lemma same_frame_create f f' : same_frame f f' -> fc_is_create (cf_context f') = fc_is_create (cf_context f).
Proof. intros (_ & E & _). by apply (f_equal k_is_create) in E. Qed.

Lemma same_frame_depth f f' : same_frame f f' -> fc_depth (cf_context f') = fc_depth (cf_context f).
Proof. intros (_ & E & _). by apply (f_equal k_depth) in E. Qed.

Lemma same_frame_trans f f' f'' : same_frame f f' -> same_frame f' f'' -> same_frame f f''.
Proof. unfold same_frame. intuition congruence. Qed.

(** ** Activation *)

Lemma activate_inv f sv n s :
  frame_ok f -> st_inv sv n s -> context_inv sv (constants_of (cf_context f)) n (activate (cf_context f) s).
Proof. intros [] Hs. by constructor. Qed.

Lemma deactivate_same f sv n c :
  frame_ok f -> context_inv sv (constants_of (cf_context f)) n c ->
  same_frame f (set_context (deactivate c) f).
Proof. intros [] []. unfold same_frame. cbn. split_and!; [congruence | done | done | done | done]. Qed.

Lemma wp_in_context {A} (f : Frame) (m : M Error (FrameContext St) A) w
    (Q : A * Frame -> Shared St L -> Prop) (R : Error -> Shared St L -> Prop) :
  wp m (activate (cf_context f) (sh_state w))
    (fun a c => Q (a, set_context (deactivate c) f) (mkShared (fc_state c) (sh_callstack w) (sh_cache w)))
    (fun e c => R e (mkShared (fc_state c) (sh_callstack w) (sh_cache w))) ->
  wp (in_context f m) w Q R.
Proof. unfold wp, in_context. by destruct (m _) as [[] c]. Qed.

Lemma wp_attempt {S A} (m : M Error S A) s (Q : A + Error -> S -> Prop) R :
  wp m s (fun a => Q (inl a)) (fun e => Q (inr e)) -> wp (attempt m) s Q R.
Proof. unfold wp, attempt. by destruct (m s) as [[] ?]. Qed.

(** ** Entering a frame *)

Definition on_stack (f : Frame) : Z * bool := (owner_of f, fc_is_create (cf_context f)).

(** What a frame is about to run in the state [s], within the gas [G]. *)
Definition runnable (f : Frame) (G : Z) (s : St) (e : Exec St) : Prop :=
  match e with
  | NoopExec gas => 0 <= gas <= G
  | BuiltinExec b p => wf_builtin b /\ callee_ok p /\ is_usize (ap_gas p) /\ ap_gas p <= G
  | InternalContractExec ie p =>
      wf_internal st_at spec (ap_code_address p) ie /\ ap_address p = owner_of f /\ callee_ok p /\
      is_usize (ap_gas p) /\ ap_gas p <= G /\ credited s p
  | EvmExec CostUsize i => ready (spec := spec) (owner := owner_of f) code_of i /\ total_gas i <= G
  | EvmExec CostU256 _ => False
  end.

Record running (n : nat) (f : Frame) (l : list (Z * bool)) (sv : list V) (w : Shared St L) : Prop := {
  ru_frame : frame_ok f;
  ru_state : st_inv sv n (sh_state w);
  ru_callstack : sh_callstack w = callstack_of (on_stack f :: l);
  ru_cache : cache_inv code_of (sh_cache w);
}.

Lemma transfer_ok (p : ActionParams) sv k n c :
  context_inv sv k n c -> payable (fc_state c) p ->
  wp (transfer_exec_balance p spec (account_start_nonce spec)) c
    (fun _ c' => context_inv sv k n c' /\ forall v, ap_value p = Transfer v -> affordable (fc_state c') (ap_address p) v)
    (fun e _ => db_error e).
Proof.
  intros Hc Hp. unfold transfer_exec_balance. destruct (ap_value p) as [v | v] eqn:E; [| by apply wp_ret; split].
  pose proof (sl_transfer_balance (StateLaws := xl_state sv) n (fc_state c) (touched (fc_substate c)) (ap_sender p)
    (ap_address p) v (cleanup_mode spec) (account_start_nonce spec) (fi_state _ _ _ _ Hc) (Hp _ E)
    (wf_account_start_nonce _ W)) as Hwp.
  unfold wp, touch_do in *. destruct (st_transfer_balance _ _ _ _ _ _) as [[[] | e |] [s t]] eqn:Et; cbn in *; [| | done].
  - destruct Hwp, Hc. split; [by constructor |]. by intros v' [= <-].
  - by eapply xl_transfer_balance_errors.
Qed.

Lemma init_contract_ok (p : ActionParams) sv k n c layout v :
  context_inv sv k n c -> callee_ok p -> payable (fc_state c) p -> ap_value p = Transfer v ->
  ap_sender p <> ap_address p ->
  wp (transfer_exec_balance_and_init_contract p spec layout) c (fun _ => context_inv sv k n)
    (fun e _ => db_error e).
Proof.
  intros Hc Hcallee Hp Ev Hne. unfold transfer_exec_balance_and_init_contract. rewrite Ev.
  apply wp_bind, wp_get, wp_bind, wp_lift.
  destruct (st_balance (fc_state c) (ap_address p)) as [prev | |] eqn:Eb; cbn [rwp];
    [| by eapply xl_balance_errors |].
  2: { pose proof (sl_balance (StateLaws := xl_state sv) n _ (ap_address p) (fi_state _ _ _ _ Hc)) as H. by rewrite Eb in H. }
  pose proof (xl_new_contract n sv (fc_state c) (touched (fc_substate c)) (ap_sender p) (ap_address p) v prev
    (cleanup_mode spec) layout (fi_state _ _ _ _ Hc) (ce_sender _ Hcallee) (ce_address _ Hcallee) Hne (Hp _ Ev) Eb) as Hwp.
  apply wp_bind. unfold wp, touch_do, state_do in *.
  destruct (st_sub_balance _ _ _ _) as [[[] | e |] [s t]] eqn:Es; cbn in *;
    [| by eapply xl_sub_balance_errors | done].
  destruct (st_new_contract _ _ _ _ s) as [[[] | e |] s'] eqn:En; cbn in *;
    [| by eapply xl_new_contract_errors | done].
  destruct Hc. by constructor.
Qed.

Lemma factory_create_ok (f : Frame) p :
  fc_origin (cf_context f) = OriginInfo_from p -> callee_ok p -> is_usize (ap_gas p) -> is_Some (ap_code p) ->
  (forall code h, ap_code p = Some code -> ap_code_hash p = Some h -> code_of h = Some code) ->
  exists e, factory_create p = Ok e /\ forall s, runnable f (ap_gas p) s e.
Proof.
  intros Ho Hp Hg [code Ec] Hh. destruct Hp. rewrite Ec in *. cbn in ce_code.
  assert (HA : action_ok (owner := owner_of f) code_of p).
  { constructor; [by constructor | | done | by rewrite Ho]. exists code. split_and!; [done | done |].
    intros h Eh. by apply Hh. }
  destruct (Interpreter_new_ok W code_of p HA) as (i & Ei & Hr & Et).
  exists (EvmExec CostUsize i). unfold factory_create, can_fit_in_usize.
  rewrite low_u64_small, Z.eqb_refl by done. cbn [cost_of]. rewrite Ei. split; [done |]. cbn. split; [done | lia].
Qed.

Lemma kind_exec_ok (f : Frame) p s s' :
  fresh f p s -> regular f p ->
  (fc_is_create (cf_context f) = false -> forall v, ap_value p = Transfer v -> affordable s' (ap_address p) v) ->
  exists e, kind_exec (cf_kind f) p = Ok e /\ runnable f (ap_gas p) s' e.
Proof.
  intros [Hf Hst Ho Hp Hg _ _ Hk _] [Hh _] Haff. destruct Hg. unfold kind_exec.
  destruct (cf_kind f) as [| b | ie | |].
  - eexists. split; [done |]. cbn. lia.
  - eexists. split; [done |]. cbn. split_and!; try done; lia.
  - destruct Hk as (Hie & Hplain & Hcall). eexists. split; [done |]. cbn. rewrite Ho. split_and!; try done; try lia.
    intros E. destruct (Hplain E) as [Ea [v Ev]]. split; [done |]. rewrite Ev. by apply Haff.
  - destruct (factory_create_ok f p) as (e & Ee & He); try done. by exists e.
  - destruct (factory_create_ok f p) as (e & Ee & He); try done. by exists e.
Qed.

Lemma runnable_same f f' G s e : same_frame f f' -> runnable f G s e -> runnable f' G s e.
Proof. intros Hs. unfold runnable. by rewrite (same_frame_owner _ _ Hs). Qed.

Lemma on_stack_same f f' : same_frame f f' -> on_stack f' = on_stack f.
Proof.
  intros Hs. unfold on_stack. by rewrite (same_frame_owner _ _ Hs), (same_frame_create _ _ Hs).
Qed.

Lemma enter_ok n f p l v sv w :
  fresh f p (sh_state w) -> regular f p -> st_at n v sv (sh_state w) ->
  sh_callstack w = callstack_of l -> len l < 2 ^ 31 -> cache_inv code_of (sh_cache w) ->
  wp (frame_enter f : SM _) w
    (fun r w' => running n r.2 l (v :: sv) w' /\ runnable r.2 (ap_gas p) (sh_state w') r.1 /\ same_frame f r.2)
    (fun e _ => db_error e).
Proof.
  intros HF HR Hs Hl Hlen Hcache. pose proof HF as [Hf Est Ho Hp Hg Hpay Hstat _ Hcr].
  destruct w as [s cs cache]. cbn in Hs, Hl, Hcache, Hpay. subst cs.
  unfold frame_enter. rewrite Est. cbn [cf_context cf_create_address cf_kind set_status].
  rewrite <- (fo_create _ Hf), Bool.eqb_reflx. cbn [negb]. rewrite Hstat.
  apply wp_bind, wp_modify. cbn [sh_state sh_callstack sh_cache].
  apply wp_bind, wp_get, wp_bind, wp_lift. cbn [sh_callstack]. rewrite (push_callstack _ _ _ Hlen). cbn [rwp].
  apply wp_bind, wp_modify. cbn [sh_state sh_callstack sh_cache].
  set (f0 := set_status Running f). assert (Hf0 : frame_ok f0) by by destruct Hf; constructor.
  pose proof (activate_inv f0 (v :: sv) n (st_checkpoint s) Hf0 (ex_intro _ v (xl_checkpoint _ _ _ _ Hs))) as Hc.
  assert (Hpay' : payable (st_checkpoint s) p).
  { intros x Ex. destruct (Hpay x Ex) as [-> | (b & Eb & Hb)]; [by left | right].
    exists b. by rewrite (xl_checkpoint_balance _ _ _ _ _ Hs). }
  apply wp_bind, wp_in_context. cbn [sh_state sh_callstack sh_cache].
  eapply (wp_mono _ _ (fun _ c' => context_inv (v :: sv) (constants_of (cf_context f0)) n c' /\
    (fc_is_create (cf_context f) = false -> forall v, ap_value p = Transfer v -> affordable (fc_state c') (ap_address p) v))
    _ (fun e _ => db_error e)); [| | done].
  - rewrite (fo_spec _ Hf). destruct (fc_is_create (cf_context f)) eqn:Ec.
    + destruct (Hcr eq_refl) as [x Ex]. destruct HR as [_ Hne]. eapply wp_mono; [by eapply init_contract_ok; [| | | | apply Hne] | by split | done].
    + eapply wp_mono; [by apply transfer_ok | by intros ? ? [] | done].
  - intros [] c [Hc' Haff]. cbv beta. pose proof (deactivate_same f0 (v :: sv) n c Hf0 Hc') as Hsame.
    assert (Hsame' : same_frame f (set_context (deactivate c) f0)) by done.
    destruct (kind_exec_ok _ _ _ (fc_state c) HF HR Haff) as (e & Ee & He).
    apply wp_bind, wp_lift. cbn [cf_kind set_context f0 set_status]. rewrite Ee. cbn [rwp]. apply wp_ret.
    cbn [fst snd]. split_and!; [| by eapply runnable_same | done].
    constructor; cbn [sh_state sh_callstack sh_cache]; [by eapply same_frame_ok | apply Hc' | | done].
    rewrite (on_stack_same _ _ Hsame'). done.
Qed.

(** ** Leaving a frame *)

Lemma fc_ret_ok sv k n c gas G data apply_state :
  context_inv sv k n c -> 0 <= gas <= G -> wf_return_data data ->
  wp (fc_ret gas data apply_state) c (fun g c' => 0 <= g <= G /\ context_inv sv k n c')
    (fun _ => context_inv sv k n).
Proof.
  intros Hc Hg Hd. unfold fc_ret. apply wp_bind, wp_get. rewrite (fi_spec _ _ _ _ Hc).
  destruct (negb (fc_is_create c)); [by apply wp_ret |]. destruct apply_state; [| by apply wp_ret].
  destruct (fc_space c).
  pose proof (wf_create_data_gas _ W) as [? ?]. pose proof (wf_evm_gas_ratio _ W) as [? ?].
  set (cost := create_data_gas spec * evm_gas_ratio spec).
  assert (Hcost : 0 <= cost < 2 ^ 60).
  { unfold cost. change (2 ^ 60) with (0x40000000 * 0x40000000).
    split; [apply Z.mul_nonneg_nonneg; lia | apply Z.mul_lt_mono_nonneg; lia]. }
  apply wp_bind, wp_lift. unfold checked_mul at 1. fold cost. rewrite (proj2 (Z.ltb_lt _ (2 ^ 64))) by lia. cbn [rwp].
  destruct (rd_deref_ok _ Hd) as (bytes & Eb & Hb). apply wp_bind, wp_lift. rewrite Eb. cbn [unwrap rwp].
  destruct Hd as (? & ? & ? & ?). assert (Hlen : 0 <= len bytes < 2 ^ 63) by lia.
  assert (Hprod : 0 <= len bytes * cost < 2 ^ 123).
  { change (2 ^ 123) with (2 ^ 63 * 2 ^ 60).
    split; [apply Z.mul_nonneg_nonneg; lia | apply Z.mul_lt_mono_nonneg; lia]. }
  apply wp_bind, wp_lift. unfold checked_mul. rewrite (proj2 (Z.ltb_lt _ (2 ^ 256))) by lia. cbn [rwp].
  destruct ((gas <? len bytes * cost) || (create_data_limit spec <? len bytes)) eqn:E.
  { destruct (exceptional_failed_code_deposit spec); [by apply wp_throw | by apply wp_ret]. }
  apply orb_false_iff in E as [E _]. b2p. apply wp_bind.
  eapply wp_mono; [apply (wp_state_do (st_inv := st_inv sv) spec k n n _ c (fun _ _ => True) Hc) | | done].
  - eapply wp_mono; [eapply (sl_init_code (StateLaws := xl_state sv)); [apply Hc | apply Hlen] | | done].
    intros [] s Hs. cbv beta. by split.
  - intros [] c' (_ & Hc' & _). apply wp_lift. unfold checked_sub. rewrite (proj2 (Z.leb_le _ gas)) by lia.
    cbn [rwp]. split; [lia | done].
Qed.

Definition value_ok (G : Z) (r : GasLeft + Error) : Prop :=
  match r with inl v => gas_left_ok G v | inr _ => True end.

Lemma finalize_ok sv k n c G result :
  context_inv sv k n c -> value_ok G result ->
  wp (finalize result) c
    (fun r c' => 0 <= f_gas_left r <= G /\ wf_return_data (f_return_data r) /\ context_inv sv k n c')
    (fun _ => context_inv sv k n).
Proof.
  intros Hc Hv. destruct result as [[g | g data a] | e]; cbn in Hv; [done | | done].
  destruct Hv as [Hg Hd]. unfold finalize, wp.
  change (wp (gas_left <~ fc_ret g data a ;; ret (mkFinalizationResult (fc_space c) gas_left a data)) c
    (fun r c' => 0 <= f_gas_left r <= G /\ wf_return_data (f_return_data r) /\ context_inv sv k n c')
    (fun _ => context_inv sv k n)).
  apply wp_bind. eapply wp_mono; [by eapply fc_ret_ok | | done].
  intros g' c' [Hg' Hc']. by apply wp_ret.
Qed.

(** What a frame hands to its parent, which gave it the gas [G]. *)
Definition returned_ok (is_create : bool) (G : Z) (r : FrameReturn + Error) : Prop :=
  match r with
  | inl r => 0 <= fr_gas_left r <= G /\ wf_return_data (fr_return_data r) /\
      (is_create = true -> exists a, fr_create_address r = Some a /\ is_word 160 a) /\
      (fr_apply_state r = bool_decide (is_Some (fr_substate r)))
  | inr _ => True
  end.

Definition applied (r : FrameReturn + Error) : bool :=
  match r with inl r => fr_apply_state r | inr _ => false end.

(** The state after a frame that found it showing [v]. *)
Definition left_state (n : nat) (v : V) (sv : list V) (r : FrameReturn + Error) (s : St) : Prop :=
  if applied r then st_inv sv n s else st_at n v sv s.

Lemma wp_pop_callstack {A} (f : Frame) l s cache (x : A) (Q : A -> Shared St L -> Prop) R :
  Q x (mkShared s (callstack_of l) cache) ->
  wp (w <~ get ;;
      popped <~ lift (stack_pop (sh_callstack w)) ;;
      modify (fun w => mkShared (sh_state w) (snd popped) (sh_cache w)) ;;;
      ret x) (mkShared s (callstack_of (on_stack f :: l)) cache) Q R.
Proof.
  intros HQ. apply wp_bind, wp_get, wp_bind, wp_lift. cbn [sh_callstack]. unfold on_stack.
  rewrite pop_callstack. by apply wp_bind, wp_modify, wp_ret.
Qed.

Lemma wp_on_shared {A} (m : M Error St A) w (Q : A -> Shared St L -> Prop) R :
  wp m (sh_state w) (fun a s => Q a (mkShared s (sh_callstack w) (sh_cache w)))
    (fun e s => R e (mkShared s (sh_callstack w) (sh_cache w))) -> wp (on_shared m) w Q R.
Proof. unfold wp, on_shared. by destruct (m _) as [[] s]. Qed.

Lemma created_address f :
  frame_ok f -> fc_is_create (cf_context f) = true -> exists a, cf_create_address f = Some a /\ is_word 160 a.
Proof.
  intros Hf Hcr. rewrite (fo_create _ Hf), bool_decide_eq_true in Hcr. destruct Hcr as [a Ha].
  exists a. split; [done | by eapply fo_address].
Qed.

Lemma process_return_ok n f l v sv w G result :
  running n f l (v :: sv) w -> value_ok G result ->
  wp (frame_process_return keccak rlp_sender_nonce f result : SM _) w
    (fun r w' => returned_ok (fc_is_create (cf_context f)) G r /\ left_state n v sv r (sh_state w') /\
       sh_callstack w' = callstack_of l /\ cache_inv code_of (sh_cache w'))
    (fun e _ => db_error e).
Proof.
  intros [Hf Hs Hl Hcache] Hv. destruct w as [s cs cache]. cbn in Hs, Hl, Hcache. subst cs.
  unfold frame_process_return. apply wp_bind, wp_in_context, wp_attempt. cbn [sh_state sh_callstack sh_cache].
  pose proof (activate_inv f (v :: sv) n _ Hf Hs) as Hc.
  eapply wp_mono; [eapply (finalize_ok _ _ _ _ G result Hc Hv) | |].
  - intros r c (Hg & Hd & Hc'). destruct (fi_state _ _ _ _ Hc') as [x Hx].
    apply wp_bind, wp_ret. cbn [cf_context cf_create_address set_status set_context].
    apply wp_bind. destruct (f_apply_state r) eqn:Ea.
    + apply wp_bind, wp_modify, wp_ret. apply wp_pop_callstack. cbn [sh_state sh_callstack sh_cache].
      split_and!; [| | done | done].
      * split; [done |]. split; [done |]. split; [| done]. by apply created_address.
      * unfold left_state. cbn. rewrite Ea. exists x. by eapply xl_discard.
    + apply wp_bind, wp_on_shared. cbn [sh_state sh_callstack sh_cache].
      eapply wp_mono; [by eapply xl_revert | | done]. intros [] s' Hs'. apply wp_ret. apply wp_pop_callstack.
      split_and!; [| unfold left_state; cbn; by rewrite Ea | done | done].
      split; [done |]. split; [done |]. split; [| done]. by apply created_address.
  - intros e c Hc'. destruct (fi_state _ _ _ _ Hc') as [x Hx].
    assert (Hfail : wp (maybe_substate <~ (on_shared st_revert_to_checkpoint ;;; ret (None : option Substate)) ;;
        w <~ get ;; popped <~ lift (stack_pop (sh_callstack w)) ;;
        modify (fun w => mkShared (sh_state w) (snd popped) (sh_cache w)) ;;; ret (inr e) : SM (FrameReturn + Error))
      (mkShared (fc_state c) (callstack_of (on_stack f :: l)) cache)
      (fun r w' => returned_ok (fc_is_create (cf_context f)) G r /\ left_state n v sv r (sh_state w') /\
         sh_callstack w' = callstack_of l /\ cache_inv code_of (sh_cache w')) (fun e _ => db_error e)).
    { apply wp_bind, wp_bind, wp_on_shared. cbn [sh_state sh_callstack sh_cache].
      eapply wp_mono; [by eapply xl_revert | | done]. intros [] s' Hs'. apply wp_ret. by apply wp_pop_callstack. }
    destruct e; try (apply wp_bind, wp_throw; by eexists); apply wp_bind, wp_ret; exact Hfail.
Qed.

(** ** Running a frame *)

(** The run of a frame comes to a [BLOCKHASH] of the largest word. *)
Definition unruly (e : Exec St) (f : Frame) (w : Shared St L) : Prop :=
  match e with
  | EvmExec CostUsize i =>
      exists s, rtc (continues keccak) (mkMachine i (activate (cf_context f) (sh_state w)) (sh_cache w)) s /\
        bad_blockhash (m_vm s) = true
  | _ => False
  end.

Definition frame_gas (f : Frame) : Z :=
  match cf_status f with ResumeCall _ i | ResumeCreate _ i => gas_of i | _ => 0 end.

Definition ran (n : nat) (f : Frame) (l : list (Z * bool)) (v : V) (sv : list V) (G : Z)
    (t : FrameTrapResult St) (w : Shared St L) : Prop :=
  match t with
  | FrameReturned r =>
      returned_ok (fc_is_create (cf_context f)) G r /\ left_state n v sv r (sh_state w) /\
      sh_callstack w = callstack_of l /\ cache_inv code_of (sh_cache w)
  | FrameTrapped t f' =>
      waiting f' t /\ frame_gas f' + ap_gas (trap_params t) < G /\ same_frame f f' /\
      running n f' l (v :: sv) w /\ trap_ok spec (activate (cf_context f') (sh_state w)) t
  end.

Lemma running_mono n m f l sv w : running n f l sv w -> (m <= n)%nat -> running m f l sv w.
Proof.
  intros [? [v Hv] ? ?] Hle. constructor; try done. exists v. by eapply xl_mono.
Qed.

Lemma running_same n f f' l sv w : running n f l sv w -> same_frame f f' -> running n f' l sv w.
Proof.
  intros [? ? E ?] Hs. constructor; try done; [by eapply same_frame_ok | by rewrite (on_stack_same _ _ Hs)].
Qed.

Lemma return_ran n fuel f f' l v sv w G x :
  running (fuel + n) f' l (v :: sv) w -> same_frame f f' -> value_ok G x ->
  wp (t <~ process_output keccak rlp_sender_nonce f' (OutputReturn x) ;; ret (Some t) : SM _) w
    (fun o w' => exists t, o = Some t /\ ran n f l v sv G t w') (fun e _ => db_error e).
Proof.
  intros HR Hs Hv. unfold process_output. apply wp_bind, wp_bind.
  eapply wp_mono; [eapply (process_return_ok n); [eapply running_mono; [exact HR | lia] | exact Hv] | | done].
  intros r w' (Hr & Hl & Hcs & Hca). apply wp_ret. apply wp_ret. eexists. split; [done |].
  by rewrite (same_frame_create _ _ Hs) in Hr.
Qed.

Lemma builtin_exec_ok b p G :
  wf_builtin b -> callee_ok p -> is_usize (ap_gas p) -> ap_gas p <= G ->
  rwp (builtin_exec b p) (value_ok G) (fun _ => False).
Proof.
  intros Hb Hp [Hg Hg'] HG. unfold builtin_exec.
  destruct (Hb (default [] (ap_data p)) (ce_data _ Hp)) as (cost & -> & Hc & Hout). cbn [result_bind].
  destruct (cost <=? ap_gas p) eqn:E; [| done]. b2p. specialize (Hout ltac:(lia)).
  destruct (b_execute b (default [] (ap_data p))) as [out | e |]; [| done | done].
  unfold checked_sub. rewrite (proj2 (Z.leb_le _ (ap_gas p))) by lia. cbn.
  cbn in Hout. unfold wf_bytes in Hout. split; [lia |].
  pose proof (len_nonneg out). unfold wf_return_data. cbn. lia.
Qed.

Lemma activate_deactivate (c : FrameContext St) : activate (deactivate c) (fc_state c) = c.
Proof. by destruct c. Qed.

Section evm.
Context (n fuel : nat) (f : Frame) (l : list (Z * bool)) (v : V) (sv : list V) (w : Shared St L).
Context (i : Interpreter) (G : Z).
Context (HR : running (fuel + n) f l (v :: sv) w).
Context (Hi : ready (spec := spec) (owner := owner_of f) code_of i) (Hg : total_gas i <= G).

Let k : FrameConstants := constants_of (cf_context f).
Let m0 : Machine := mkMachine i (activate (cf_context f) (sh_state w)) (sh_cache w).

Lemma evm_machine_inv :
  machine_inv (spec := spec) (owner := owner_of f) (ctx_inv := context_inv (v :: sv) k) code_of (fuel + n) m0.
Proof.
  destruct HR as [Hf Hs _ Hca]. split; [done |]. split; [| done]. by apply activate_inv.
Qed.

Lemma evm_exec_ran r m :
  exec_result_ok (spec := spec) (owner := owner_of f) (ctx_inv := context_inv (v :: sv) k)
    (trap_ok := trap_ok spec) code_of n i r m ->
  exec keccak fuel m0 = (Ok (Some r), m) ->
  wp (frame_run keccak rlp_sender_nonce fuel (EvmExec CostUsize i) f : SM _) w
    (fun o w' => exists t, o = Some t /\ ran n f l v sv G t w') (fun e _ => db_error e).
Proof.
  intros [[Hc Hca] Hr] E. pose proof HR as [Hf _ Hcs _].
  pose proof (deactivate_same f (v :: sv) n (m_ctx m) Hf Hc) as Hsame.
  set (f' := set_context (deactivate (m_ctx m)) f) in *.
  set (w' := mkShared (fc_state (m_ctx m)) (sh_callstack w) (m_cache m)).
  assert (HR' : running n f' l (v :: sv) w').
  { constructor; [by eapply same_frame_ok | apply Hc | | done]. by rewrite (on_stack_same _ _ Hsame). }
  unfold frame_run. apply wp_bind. unfold exec_output, evm_exec, wp. cbn [cost_of].
  change (frames_context keccak rlp_sender_nonce) with stack_context. fold m0. rewrite E. cbn [fst snd rwp]. fold f' w'. destruct r as [x | t].
  - apply (return_ran n 0); [done | done |]. destruct x as [x |]; [| done]. destruct x; cbn in *; lia || (split; [lia | apply Hr]).
  - destruct Hr as (Hsu & _ & Ht & Hlt).
    assert (Hran : forall st, st = match t with
        | TrapCall _ => ResumeCall CostUsize (m_vm m) | TrapCreate _ => ResumeCreate CostUsize (m_vm m) end ->
      ran n f l v sv G (FrameTrapped t (set_status st f')) w').
    { intros st Est. cbn [ran].
      assert (Hs' : same_frame f' (set_status st f')) by by unfold same_frame.
      split_and!; [| | done | by eapply running_same | ].
      - constructor; [by eapply same_frame_ok; [| apply HR'] |]. exists (m_vm m). split; [done |].
        by rewrite (same_frame_owner f).
      - unfold frame_gas. cbn [cf_status set_status]. destruct t; subst st; lia.
      - cbn [cf_context set_status set_context f' sh_state w']. by rewrite activate_deactivate. }
    change (exists t0, Some (process_trap f' t CostUsize (m_vm m)) = Some t0 /\ ran n f l v sv G t0 w').
    eexists. split; [done |]. destruct t; by apply Hran.
Qed.
End evm.

Lemma frame_run_ok n fuel f l v sv w e G :
  running (fuel + n) f l (v :: sv) w -> runnable f G (sh_state w) e -> G + 1 < Z.of_nat fuel ->
  unruly e f w \/
  wp (frame_run keccak rlp_sender_nonce fuel e f : SM _) w
    (fun o w' => exists t, o = Some t /\ ran n f l v sv G t w') (fun e _ => db_error e).
Proof.
  intros HR He Hfuel. destruct e as [gas | b p | ie p | [] i]; cbn in He; [right | right | right | | done].
  - apply wp_bind, wp_ret. by eapply return_ran.
  - destruct He as (Hb & Hp & Hg & HG). apply wp_bind. apply wp_bind, wp_lift.
    eapply rwp_mono; [by eapply builtin_exec_ok | | done]. intros x Hx. apply wp_ret. by eapply return_ran.
  - destruct He as (Hie & Ha & Hp & Hg & Hle & Hcr). pose proof HR as [Hf Hs Hcs Hca].
    assert (Hret : forall x c', context_inv (v :: sv) (constants_of (cf_context f)) (fuel + n) c' -> value_ok G x ->
      wp (t <~ process_output keccak rlp_sender_nonce (set_context (deactivate c') f) (OutputReturn x) ;; ret (Some t) : SM _)
        (mkShared (fc_state c') (sh_callstack w) (sh_cache w))
        (fun o w' => exists t, o = Some t /\ ran n f l v sv G t w') (fun e _ => db_error e)).
    { intros x c' Hc' Hx. pose proof (deactivate_same f (v :: sv) _ c' Hf Hc') as Hsame.
      eapply return_ran; [| done | done]. constructor; [by eapply same_frame_ok | apply Hc' | | done].
      by rewrite (on_stack_same _ _ Hsame). }
    apply wp_bind. cbn [exec_output]. apply wp_bind, wp_in_context. unfold internal_contract_exec.
    pose proof (activate_inv f (v :: sv) _ _ Hf Hs) as Hc. case_match eqn:Ect.
    + apply wp_attempt.
      assert (Ht : ap_call_type p = Call \/ ap_call_type p = StaticCall)
        by (apply orb_true_iff in Ect; by rewrite !bool_decide_eq_true in Ect).
      eapply wp_mono; [by eapply Hie; [| apply Hf | ..] | |].
      * intros x c' [Hx Hc']. apply wp_ret. apply Hret; [done |]. cbn. destruct x; cbn in *; [lia |].
        destruct Hx. split; [lia | done].
      * intros e c' Hc'. apply wp_ret. by apply Hret.
    + apply wp_ret. apply wp_ret. by apply Hret.
  - destruct He as [Hi Hg].
    destruct (exec_ok (LAWS := frame_context_laws (SL := xl_state (v :: sv)) keccak rlp_sender_nonce spec W
      (constants_of (cf_context f)) (fo_constants _ (ru_frame _ _ _ _ _ HR))) W keccak Hkeccak code_of n fuel
      (mkMachine i (activate (cf_context f) (sh_state w)) (sh_cache w))) as [(r & m & E & Hr) | Hbad].
    + by apply (evm_machine_inv n fuel f l v sv w).
    + cbn [m_vm]. unfold budget. destruct (i_resume_result i); lia.
    + right. by eapply evm_exec_ran.
    + by left.
Qed.

(** ** Sub-calls *)

Definition is_create_trap (t : TrapKind) : bool := match t with TrapCall _ => false | TrapCreate _ => true end.

Lemma waiting_gas f t :
  waiting f t -> 0 <= frame_gas f /\ 0 <= ap_gas (trap_params t) /\ frame_gas f + ap_gas (trap_params t) < 2 ^ 64.
Proof.
  intros [_ (i & Es & Hi)]. pose proof (gas_of_nonneg _ _ (su_inv _ _ _ Hi)). destruct (su_gas _ _ _ Hi).
  unfold frame_gas. rewrite Es. destruct t; cbn in *; lia.
Qed.

(** The context of a frame called by [f]. *)
Lemma child_constants (f : Frame) p is_create static :
  frame_ok f -> callee_ok p -> fc_depth (cf_context f) < max_depth spec ->
  wf_constants spec (constants_of (FrameContext_new (ap_space p) (fc_env (cf_context f)) mc spec
    (fc_depth (cf_context f) + 1) (OriginInfo_from p) Substate_new is_create static)).
Proof.
  intros Hf [] Hd. destruct (fo_constants _ Hf). constructor; cbn in *; try done.
  - apply (wm_chain_id _ _ _ WM).
  - intros a ic. rewrite fmap_Some. intros (ie & Eie & ->). by apply (wm_code _ _ _ WM a).
  - lia.
Qed.

Lemma call_fresh f p s :
  waiting f (TrapCall p) -> trap_ok spec (activate (cf_context f) s) (TrapCall p) ->
  fresh (new_call_raw p (fc_env (cf_context f)) mc spec (fc_depth (cf_context f) + 1)
           (fc_static_flag (cf_context f))) p s.
Proof.
  intros Hw [Hd Hp Hpay Hk]. cbn in Hd, Hp, Hpay, Hk. pose proof (waiting_gas _ _ Hw) as (? & ? & ?).
  cbn in *. constructor; cbn; try done.
  - constructor; cbn; try done. by apply child_constants; [apply Hw | |].
  - split; lia.
  - unfold check_static_flag. case_match eqn:E; [| done]. exfalso.
    apply andb_true_iff in E as [[E1 E2]%andb_true_iff E3]. b2p.
    rewrite (proj1 Hk E1) in E3; [lia |]. rewrite orb_true_iff, !bool_decide_eq_true in E2. by destruct E2; [left | right].
  - destruct (machine_builtin mc _ _) as [b |] eqn:Eb.
    + unfold machine_builtin in Eb. apply bind_Some in Eb as (b' & Eb' & E). case_match; [| done]. simplify_eq.
      by apply (wm_builtins _ _ _ WM _ _ Eb').
    + destruct (cm_internal_contracts mc _ _) as [ie |] eqn:Ei; [split; [by apply (wm_internal _ _ _ WM _ _ Ei) | by split; [apply Hk |]] |].
      by destruct (ap_code p).
Qed.

Lemma create_fresh f p s :
  waiting f (TrapCreate p) -> trap_ok spec (activate (cf_context f) s) (TrapCreate p) ->
  fresh (new_create_raw p (fc_env (cf_context f)) mc spec (fc_depth (cf_context f) + 1)
           (fc_static_flag (cf_context f))) p s.
Proof.
  intros Hw [Hd Hp Hpay (Hst & Hcode & Hv & Ha)]. cbn in Hd, Hp, Hpay, Hst, Hcode, Hv, Ha.
  pose proof (waiting_gas _ _ Hw) as (? & ? & ?).
  cbn in *. constructor; cbn; try done.
  - constructor; cbn; try done; [by apply child_constants; [apply Hw | |] |].
    intros a [= <-]. by destruct Hp.
  - split; lia.
  - by rewrite Hst.
Qed.

(** The callee of a trap. *)
Definition callee_of (t : TrapKind) (f : Frame) : Frame :=
  let c := cf_context f in
  match t with
  | TrapCall p => new_call_raw p (fc_env c) mc spec (fc_depth c + 1) (fc_static_flag c)
  | TrapCreate p => new_create_raw p (fc_env c) mc spec (fc_depth c + 1) (fc_static_flag c)
  end.

Lemma callee_ready f t s :
  waiting f t -> trap_ok spec (activate (cf_context f) s) t ->
  from_trap_error t f = Ok (callee_of t f, f) /\ fresh (callee_of t f) (trap_params t) s /\
  fc_is_create (cf_context (callee_of t f)) = is_create_trap t /\
  fc_depth (cf_context (callee_of t f)) = fc_depth (cf_context f) + 1 /\
  0 <= fc_depth (cf_context f) < 0x40000000.
Proof.
  intros Hw Ht. pose proof (wa_frame _ _ Hw) as Hf.
  pose proof (wk_depth _ _ (fo_constants _ Hf)) as [Hd _]. pose proof (wf_max_depth _ W) as [_ Hmax].
  pose proof (tr_depth _ _ _ Ht) as Hlt. cbn in Hd, Hlt.
  unfold from_trap_error, checked_add. rewrite (proj2 (Z.ltb_lt _ (2 ^ 64))) by lia. cbn [result_bind].
  rewrite (fo_machine _ Hf), (fo_spec _ Hf).
  destruct t as [p | p]; (split_and!; [done | | done | done | lia | lia]); [by apply call_fresh | by apply create_fresh].
Qed.

(** ** Resumption *)

Definition with_gas (x : Z) (p : ActionParams) : ActionParams :=
  mkActionParams (ap_space p) (ap_code_address p) (ap_code_hash p) (ap_address p) (ap_sender p)
    (ap_original_sender p) x (ap_gas_price p) (ap_value p) (ap_code p) (ap_data p) (ap_call_type p)
    (ap_create_type p) (ap_params_type p).

Lemma suspended_less (owner : Z) i t x :
  suspended (spec := spec) (owner := owner) code_of i t -> 0 <= x <= ap_gas (trap_params t) ->
  suspended (spec := spec) (owner := owner) code_of i
    (match t with TrapCall p => TrapCall (with_gas x p) | TrapCreate p => TrapCreate (with_gas x p) end).
Proof. intros [] Hx. destruct t; constructor; try done; cbn in *; lia. Qed.

Lemma reenter_ok f t r x :
  waiting f t -> returned_ok (is_create_trap t) x r -> 0 <= x <= ap_gas (trap_params t) ->
  exists e f', frame_reenter f r = Ok (e, f') /\ (forall s, runnable f' (frame_gas f + x) s e) /\ same_frame f f'.
Proof.
  intros [Hf (i & Es & Hi)] Hr Hx. pose proof (suspended_less _ i t x Hi Hx) as Hi'. unfold frame_reenter.
  assert (Hacc : exists sub r', accrue_substate (fc_substate (cf_context f)) r = (sub, r') /\
    match r, r' with
    | inl r, inl r' => fr_gas_left r' = fr_gas_left r /\ fr_apply_state r' = fr_apply_state r /\
        fr_return_data r' = fr_return_data r /\ fr_create_address r' = fr_create_address r
    | inr e, inr e' => e' = e
    | _, _ => False
    end).
  { unfold accrue_substate. destruct r as [r |]; [destruct (fr_substate r) |]; by do 2 eexists. }
  destruct Hacc as (sub & r' & -> & Hr'). rewrite Es.
  set (f' := set_status Running (set_context (with_substate sub (cf_context f)) f)).
  assert (Hsame : same_frame f f') by by unfold same_frame.
  assert (Hg : frame_gas f = gas_of i) by (unfold frame_gas; rewrite Es; by destruct t). rewrite Hg.
  destruct t as [p | p]; cbn [is_create_trap] in Hr.
  - destruct (resume_call_ok code_of i (with_gas x p) (into_message_call_result r') Hi') as (i' & Ei & Hrdy & _ & Htot).
    { unfold into_message_call_result. destruct r as [r | e], r' as [r' | e']; try done.
      destruct Hr' as (E1 & E2 & E3 & _), Hr as (Hgl & Hd & _). case_match; cbn; by rewrite E1, E3. }
    cbn [cost_of]. rewrite Ei. cbn [result_bind]. do 2 eexists. split_and!; [done | | done].
    split; [by rewrite (same_frame_owner f) | done].
  - assert (Hc : exists o, into_contract_create_result r' = Ok o /\ create_outcome_ok x o).
    { unfold into_contract_create_result. destruct r as [r | e], r' as [r' | e']; try done; [| by eexists].
      destruct Hr' as (E1 & E2 & E3 & E4), Hr as (Hgl & Hd & Ha & _). destruct (fr_apply_state r').
      - destruct (Ha eq_refl) as (a & Ea & Hw). rewrite E4, Ea. eexists. split; [done |]. cbn. by rewrite E1.
      - eexists. split; [done |]. cbn. by rewrite E1, E3. }
    destruct Hc as (o & Eo & Ho). rewrite Eo. cbn [result_bind cost_of].
    destruct (resume_create_ok code_of i (with_gas x p) o Hi' Ho) as (i' & Ei & Hrdy & _ & Htot).
    rewrite Ei. cbn [result_bind]. do 2 eexists. split_and!; [done | | done].
    split; [by rewrite (same_frame_owner f) | done].
Qed.

(** ** The stack *)

Definition known_code (p : ActionParams) : bool :=
  match ap_code p, ap_code_hash p with
  | Some code, Some h => bool_decide (code_of h = Some code)
  | _, _ => true
  end.

Lemma regular_dec f p : regular f p \/ ~ regular f p.
Proof.
  unfold regular. destruct (known_code p) eqn:E.
  - destruct (decide (fc_is_create (cf_context f) = true /\ ap_sender p = ap_address p)) as [[? ?] | Hn].
    + right. intros [_ H']. by apply H'.
    + left. split; [| intros H1 H2; by apply Hn]. intros code h Ec Eh. unfold known_code in E.
      rewrite Ec, Eh in E. by apply bool_decide_eq_true in E.
  - right. intros [H' _]. unfold known_code in E. destruct (ap_code p) as [code |] eqn:Ec; [| done].
    destruct (ap_code_hash p) as [h |] eqn:Eh; [| done]. apply bool_decide_eq_false in E. by apply E, H'.
Qed.

(** A frame about to start cannot, or its run comes to grief. *)
Definition mishap_start (f : Frame) (p : ActionParams) (w : Shared St L) : Prop :=
  ~ regular f p \/ exists e f' w', frame_enter f w = (Ok (e, f'), w') /\ unruly e f' w'.

(** The same of the next turn of the loop. *)
Definition mishap (fs : list Frame) (res : FrameTrapResult St) (w : Shared St L) : Prop :=
  match res with
  | FrameReturned r =>
      exists f rest e f', fs = f :: rest /\ frame_reenter f r = Ok (e, f') /\ unruly e f' w
  | FrameTrapped t f =>
      exists callee caller, from_trap_error t f = Ok (callee, caller) /\ mishap_start callee (trap_params t) w
  end.

Lemma frame_exec_ok n fuel f p l v sv w :
  fresh f p (sh_state w) -> st_at (fuel + n) v sv (sh_state w) -> sh_callstack w = callstack_of l ->
  len l < 2 ^ 31 -> cache_inv code_of (sh_cache w) -> ap_gas p + 1 < Z.of_nat fuel ->
  mishap_start f p w \/
  wp (frame_exec keccak rlp_sender_nonce fuel f : SM _) w
    (fun o w' => exists t, o = Some t /\ ran n f l v sv (ap_gas p) t w') (fun e _ => db_error e).
Proof.
  intros HF Hs Hcs Hl Hca Hfuel. destruct (regular_dec f p) as [HR | HR]; [| by left; left].
  pose proof (enter_ok _ f p l v sv w HF HR Hs Hcs Hl Hca) as Hwp. unfold wp in Hwp.
  destruct (frame_enter f w) as [[[e f'] | err |] w'] eqn:E; cbn in Hwp; [| | done].
  - destruct Hwp as (Hrun & He & Hsame). cbn in Hrun, He, Hsame.
    destruct (frame_run_ok n fuel f' l v sv w' e (ap_gas p) Hrun He Hfuel) as [Hun | Hok].
    { left. right. by do 3 eexists. }
    right. eapply wp_bind_eq; [exact E |]. cbn [rwp fst snd].
    eapply wp_mono; [exact Hok | | done]. intros o w'' (t & -> & Ht). exists t. split; [done |].
    destruct t as [r | t f'']; cbn in Ht |- *.
    + destruct Ht as (? & ?). split; [| done]. by rewrite <- (same_frame_create _ _ Hsame).
    + destruct Ht as (? & ? & Hs' & ? & ?). split_and!; try done. by eapply same_frame_trans.
  - right. by eapply wp_bind_eq; [exact E |].
Qed.

Section loop.
(** The outermost frame: the view it found, the gas it was given and whether it creates. *)
Context (v0 : V) (sv0 : list V) (b0 : bool) (g0 : Z) (Hg0 : g0 < 2 ^ 64).

Inductive stack_ok : list Frame -> list (Z * bool) -> list V -> bool -> Z -> Prop :=
| so_top : stack_ok [] [] (v0 :: sv0) b0 g0
| so_frame f t fs l v v' sv G :
    stack_ok fs l (v :: sv) (fc_is_create (cf_context f)) G ->
    waiting f t -> fc_depth (cf_context f) = len l -> frame_gas f + ap_gas (trap_params t) <= G ->
    stack_ok (f :: fs) (on_stack f :: l) (v' :: v :: sv) (is_create_trap t) (ap_gas (trap_params t)).

Fixpoint stack_gas (fs : list Frame) : Z :=
  match fs with [] => 0 | f :: fs => frame_gas f + stack_gas fs end.

(** Between two turns, with room for [n] increments of nonces, and at most [m] turns to go. *)
Definition between (n : nat) (m : Z) (fs : list Frame) (res : FrameTrapResult St) (w : Shared St L) : Prop :=
  match res with
  | FrameReturned r =>
      exists l v sv b G x,
        stack_ok fs l (v :: sv) b G /\ returned_ok b x r /\ 0 <= x <= G /\ left_state n v sv r (sh_state w) /\
        sh_callstack w = callstack_of l /\ cache_inv code_of (sh_cache w) /\
        3 * (stack_gas fs + x) + len fs <= m
  | FrameTrapped t f =>
      exists l v sv G,
        stack_ok fs l (v :: sv) (fc_is_create (cf_context f)) G /\ waiting f t /\
        frame_gas f + ap_gas (trap_params t) <= G /\ fc_depth (cf_context f) = len l /\
        running n f l (v :: sv) w /\ trap_ok spec (activate (cf_context f) (sh_state w)) t /\
        3 * (stack_gas fs + frame_gas f + ap_gas (trap_params t)) + len fs + 2 <= m
  end.

Lemma stack_ok_gas fs l sv b G : stack_ok fs l sv b G -> G <= g0 /\ 0 <= stack_gas fs.
Proof.
  induction 1 as [| f t fs l v v' sv G HS [IH1 IH2] Hw _ Hle]; cbn; [lia |].
  pose proof (waiting_gas _ _ Hw). lia.
Qed.

(** A frame that ran above the stack [fs]. *)
Lemma ran_between n m f l v sv b G G' t w fs :
  ran n f l v sv G t w -> stack_ok fs l (v :: sv) (fc_is_create (cf_context f)) G' -> 0 <= G <= G' ->
  fc_depth (cf_context f) = len l -> b = fc_is_create (cf_context f) ->
  3 * (stack_gas fs + G) + len fs <= m -> between n m fs t w.
Proof.
  intros HR HS HG Hd -> Hm. destruct t as [r | t f']; cbn in HR |- *.
  - destruct HR as (? & ? & ? & ?). by exists l, v, sv, (fc_is_create (cf_context f)), G', G.
  - destruct HR as (Hw & Hlt & Hsame & Hrun & Ht). exists l, v, sv, G'.
    rewrite (same_frame_create _ _ Hsame), (same_frame_depth _ _ Hsame).
    split_and!; try done; lia.
Qed.

Lemma turn_ok n m fuel fs res w :
  between (fuel + n) m fs res w -> g0 + 1 < Z.of_nat fuel ->
  mishap fs res w \/
  wp (stack_turn keccak rlp_sender_nonce fuel fs res : SM _) w
    (fun o w' =>
       match o with
       | inr r => fs = [] /\ res = FrameReturned r /\ w' = w
       | inl (Some (fs', res')) => between n (m - 1) fs' res' w'
       | inl None => False
       end) (fun e _ => db_error e).
Proof.
  intros HB Hfuel. destruct res as [r | t f]; cbn [between] in HB.
  - destruct HB as (l & v & sv & b & G & x & HS & Hr & Hx & Hst & Hcs & Hca & Hm).
    destruct fs as [| f rest]; [by right; apply wp_ret |].
    pose proof (stack_ok_gas _ _ _ _ _ HS) as [HG Hsg].
    inversion HS as [| f' t fs' l' v1 v' sv1 G1 HS' Hw Hd Hle]; subst.
    destruct (reenter_ok f t r x Hw Hr Hx) as (e & f' & E & He & Hsame).
    pose proof (stack_ok_gas _ _ _ _ _ HS') as [HG1 Hsg1]. pose proof (waiting_gas _ _ Hw) as (? & ? & ?).
    assert (Hrun : running (fuel + n) f' l' (v1 :: sv1) w).
    { constructor; [eapply same_frame_ok; [done | apply Hw] | | | done].
      - unfold left_state in Hst. destruct (applied r); [done | by eexists].
      - by rewrite (on_stack_same _ _ Hsame). }
    destruct (frame_run_ok n fuel f' l' v1 sv1 w e _ Hrun (He _) ltac:(lia)) as [Hun | Hok].
    { left. by do 4 eexists. }
    right. unfold stack_turn, frame_resume. apply wp_bind, wp_bind, wp_lift. rewrite E. cbn [rwp fst snd].
    eapply wp_mono; [exact Hok | | done]. intros o w' (t' & -> & Ht'). apply wp_ret. cbn [fmap option_fmap option_map].
    eapply (ran_between n (m - 1) f' l' v1 sv1 _ (frame_gas f + x) G1); [done | | lia | | done |].
    + by rewrite (same_frame_create _ _ Hsame).
    + by rewrite (same_frame_depth _ _ Hsame).
    + cbn [stack_gas] in Hm. rewrite len_cons in Hm. lia.
  - destruct HB as (l & v & sv & G & HS & Hw & Hle & Hd & [Hf [v1 Hv1] Hcs Hca] & Ht & Hm).
    pose proof (stack_ok_gas _ _ _ _ _ HS) as [HG Hsg]. pose proof (waiting_gas _ _ Hw) as (? & ? & ?).
    destruct (callee_ready f t _ Hw Ht) as (E & HF & Hic & Hdep & Hb).
    destruct (frame_exec_ok n fuel (callee_of t f) (trap_params t) (on_stack f :: l) v1 (v :: sv) w HF Hv1 Hcs)
      as [Hmis | Hok]; [rewrite len_cons; lia | done | lia | left; by do 2 eexists |].
    right. unfold stack_turn. apply wp_bind, wp_lift. rewrite E. cbn [rwp]. apply wp_bind.
    eapply wp_mono; [exact Hok | | done]. intros o w' (t' & -> & Ht'). apply wp_ret. cbn [fmap option_fmap option_map].
    eapply (ran_between n (m - 1)); [done | | | | done |].
    + rewrite Hic. by eapply so_frame.
    + lia.
    + rewrite Hdep, len_cons. lia.
    + cbn [stack_gas]. rewrite len_cons. lia.
Qed.

(** The turns of a run. *)
Definition turns_to (fuel : nat) (c c' : list Frame * FrameTrapResult St * Shared St L) : Prop :=
  (stack_turn keccak rlp_sender_nonce fuel c.1.1 c.1.2 : SM _) c.2 = (Ok (inl (Some c'.1)), c'.2).

(** The end of a run. *)
Definition stack_result_ok (n : nat) (r : FrameReturn + Error) (w : Shared St L) : Prop :=
  returned_ok b0 g0 r /\ left_state n v0 sv0 r (sh_state w) /\ sh_callstack w = callstack_of [] /\
  cache_inv code_of (sh_cache w).

Lemma between_nonneg n m fs res w : between n m fs res w -> 0 <= m.
Proof.
  destruct res as [r | t f]; cbn.
  - intros (l & v & sv & b & G & x & HS & _ & Hx & _ & _ & _ & Hm).
    pose proof (stack_ok_gas _ _ _ _ _ HS). pose proof (len_nonneg fs). lia.
  - intros (l & v & sv & G & HS & Hw & _ & _ & _ & _ & Hm).
    pose proof (stack_ok_gas _ _ _ _ _ HS). pose proof (len_nonneg fs). pose proof (waiting_gas _ _ Hw). lia.
Qed.

Lemma returned_mono b x y r : returned_ok b x r -> x <= y -> returned_ok b y r.
Proof. intros Hr Hle. destruct r as [r |]; [| done]. destruct Hr as (? & ?). split; [lia | done]. Qed.

Lemma exec_frames_ok n fuel turns m fs res w :
  between (turns * fuel + n) m fs res w -> m < Z.of_nat turns -> g0 + 1 < Z.of_nat fuel ->
  wp (exec_frames keccak rlp_sender_nonce turns fuel fs res : SM _) w
    (fun o w' => exists r, o = Some r /\ stack_result_ok n r w') (fun e _ => db_error e) \/
  (exists fs' res' w', rtc (turns_to fuel) (fs, res, w) (fs', res', w') /\ mishap fs' res' w').
Proof.
  intros HB Hm Hfuel. revert m fs res w HB Hm. induction turns as [| turns IH]; intros m fs res w HB Hm.
  { pose proof (between_nonneg _ _ _ _ _ HB). lia. }
  replace (Datatypes.S turns * fuel + n)%nat with (fuel + (turns * fuel + n))%nat in HB by lia.
  destruct (turn_ok _ m fuel fs res w HB Hfuel) as [Hmis | Hok]; [right; by do 3 eexists |].
  cbn [exec_frames]. unfold wp in Hok.
  destruct (stack_turn keccak rlp_sender_nonce fuel fs res w) as [[o | e |] w'] eqn:E; cbn [fst snd rwp] in Hok; [| | done].
  2: { left. by eapply wp_bind_eq. }
  destruct o as [[[fs' res'] |] | r]; [| done |].
  - destruct (IH (m - 1) fs' res' w' Hok ltac:(lia)) as [Hwp | (fs'' & res'' & w'' & Hr & Hmis)]; [left; by eapply wp_bind_eq | right].
    do 3 eexists. split; [| done]. eapply rtc_l; [| done]. exact E.
  - left. eapply wp_bind_eq; [exact E |]. destruct Hok as (-> & -> & ->). apply wp_ret. exists r. split; [done |].
    destruct HB as (l & v & sv & b & G & x & HS & Hr & Hx & Hst & Hcs & Hca & _).
    inversion HS; subst. split_and!; try done; [by eapply returned_mono; [| apply Hx] |].
    unfold left_state in *. destruct (applied r); [destruct Hst as [y ?]; exists y |]; (eapply xl_mono; [done | lia]).
Qed.
End loop.


(** ** The outermost frame *)

(** The state is the one found, and nothing was added to the substate [sub], unless the frame
    succeeded. *)
Definition output_ok (n : nat) (v : V) (sv : list V) (G : Z) (sub : Substate) (o : FrameStackOutput) (s : St) :
    Prop :=
  match fo_result o with
  | inl r =>
      0 <= f_gas_left r <= G /\ wf_return_data (f_return_data r) /\
      (if f_apply_state r then st_inv sv n s else st_at n v sv s /\ fo_substate o = sub)
  | inr _ => st_at n v sv s /\ fo_substate o = sub
  end.

(** A run of the stack of frames under [f] comes to grief. *)
Definition mishap_under (fuel : nat) (f : Frame) (p : ActionParams) (w : Shared St L) : Prop :=
  mishap_start f p w \/
  exists t w0 fs res w', (frame_exec keccak rlp_sender_nonce fuel f : SM _) w = (Ok (Some t), w0) /\
    rtc (turns_to fuel) ([], t, w0) (fs, res, w') /\ mishap fs res w'.

Lemma stack_exec_ok n fuel turns f p v sv s cache sub base :
  fresh f p s -> fc_depth (cf_context f) = 0 ->
  st_at (Datatypes.S turns * fuel + n) v sv s -> cache_inv code_of cache ->
  ap_gas p + 1 < Z.of_nat fuel -> 3 * ap_gas p < Z.of_nat turns ->
  wp (frame_stack_exec keccak rlp_sender_nonce turns fuel sub base f) (s, cache)
    (fun o s' => exists out, o = Some out /\ output_ok n v sv (ap_gas p) sub out s'.1 /\ cache_inv code_of s'.2 /\
       fo_base_gas_required out = base) (fun e _ => db_error e) \/
  mishap_under fuel f p (mkShared s FrameStackInfo_new cache).
Proof.
  intros HF Hd Hs Hca Hfuel Hturns. pose proof (fe_gas _ _ _ HF) as [Hg0 Hg].
  set (w := mkShared s FrameStackInfo_new cache).
  replace (Datatypes.S turns * fuel + n)%nat with (fuel + (turns * fuel + n))%nat in Hs by lia.
  destruct (frame_exec_ok _ fuel f p [] v sv w HF Hs eq_refl ltac:(done) Hca Hfuel) as [Hmis | Hok];
    [right; by left |].
  unfold wp in Hok.
  destruct ((frame_exec keccak rlp_sender_nonce fuel f : SM _) w) as [[o | e |] w0] eqn:E; cbn [fst snd rwp] in Hok;
    [| | done].
  2: { left. unfold wp, frame_stack_exec, bind. cbn [fst snd]. fold w. by rewrite E. }
  destruct Hok as (t & -> & Ht).
  assert (HB : between v sv (fc_is_create (cf_context f)) (ap_gas p) (turns * fuel + n) (3 * ap_gas p) [] t w0).
  { eapply ran_between; [exact Ht | constructor | lia | by rewrite Hd | done |].
    unfold len. cbn [stack_gas length]. lia. }
  destruct (exec_frames_ok v sv _ _ n fuel turns _ [] t w0 HB Hturns Hfuel) as [Hwp | (fs & res & w' & Hr & Hmis)];
    [left | right; right; by exists t, w0, fs, res, w'].
  unfold wp, frame_stack_exec, bind. cbn [fst snd]. fold w. rewrite E. unfold wp in Hwp.
  destruct (exec_frames keccak rlp_sender_nonce turns fuel [] t w0) as [[o | e |] w'] eqn:E'; cbn [fst snd rwp] in Hwp;
    [| done | done].
  destruct Hwp as (r & -> & Hr & Hst & _ & Hca'). cbn. eexists. split; [done |].
  unfold stack_process_return, accrue_substate, output_ok, left_state in *.
  destruct r as [r | e]; cbn in Hr, Hst |- *; [| done]. destruct Hr as (? & ? & _ & Ha).
  destruct (fr_substate r); cbn in *; rewrite Ha in *; done.
Qed.

End stack.
