(* ===== verification/Builtins.v ===== *)
(** * Builtin contracts

    src/cfx-evm/src/builtin/mod.rs and blake2f.rs: the prices of the builtin contracts
    ([pricer_cost]), their functions ([impl_execute]), among them modular exponentiation and the
    compression function of BLAKE2b, and the table of builtins that machine.rs makes
    ([new_builtin_map]); the checks of signatures of src/cfx-evm/utils/cfxkey/. Hash functions,
    the curves and recovery of public keys are third-party code: the classes [Digest] and [Bn],
    [BytesRef] and [BigUintBytes] with what is relied on of them.

    Shown: modular exponentiation is that of EIP-198; prices never overflow; every builtin of the
    table is priced on every input and returns on every input that can be paid for with 64 bits of
    gas; the compression function gives the test vectors of EIP-152. *)

From Stdlib Require Import Zpow_facts.
From stdpp Require Import gmap strings.
From S2P Require Import Prelude Word StateDb VmTypes FrameContext Gasometer SharedCache Interpreter Frames FrameStack.
Local Open Scope Z_scope.

(** ** Third-party code *)

(** [BytesRef::write] on a vector that grows. *)
Class BytesRef : Type := br_write : list byte -> Z -> list byte -> list byte.

(** What is written past the end extends the vector, with zeros in between. *)
Class BytesRefLaws `{BytesRef} : Prop :=
  br_write_extends out offset input :
    len out <= offset -> br_write out offset input = out ++ replicate (Z.to_nat (offset - len out)) x00 ++ input.

(** [BigUint::to_bytes_be]: the shortest representation, of at least one byte. *)
Class BigUintBytes : Type := to_bytes_be : Z -> list byte.

Class BigUintLaws `{BigUintBytes} : Prop := {
  bu_value n : 0 <= n -> be_to_Z (to_bytes_be n) = n;
  bu_zero : to_bytes_be 0 = [x00];
  bu_shortest n : 0 < n -> 256 ^ (len (to_bytes_be n) - 1) <= n;
}.

(** Hash functions of parity_crypto and recovery of secp256k1: of the signature and the message,
    the 64 bytes of the public key. *)
Class Digest : Type := {
  sha256 : list byte -> list byte;
  ripemd160 : list byte -> list byte;
  secp_recover : list byte -> list byte -> option (list byte);
}.

Class DigestLaws `{Digest} : Prop := {
  dg_sha256 l : len (sha256 l) = 32;
  dg_ripemd160 l : len (ripemd160 l) = 20;
}.

(** The crate bn: fields, the groups of the curve and the pairing. *)
Class Bn : Type := {
  Fq : Type; Fr : Type; G1 : Type; Fq2 : Type; G2 : Type; Gt : Type;
  Fq_from_slice : list byte -> option Fq;
  Fq_is_zero : Fq -> bool;
  Fq_to_big_endian : Fq -> list byte;
  Fr_from_slice : list byte -> option Fr;
  G1_zero : G1;
  G1_add : G1 -> G1 -> G1;
  G1_mul : G1 -> Fr -> G1;
  AffineG1_new : Fq -> Fq -> option G1;
  AffineG1_from_jacobian : G1 -> option (Fq * Fq);
  Fq2_new : Fq -> Fq -> Fq2;
  Fq2_is_zero : Fq2 -> bool;
  G2_zero : G2;
  AffineG2_new : Fq2 -> Fq2 -> option G2;
  Gt_one : Gt;
  Gt_mul : Gt -> Gt -> Gt;
  Gt_eqb : Gt -> Gt -> bool;
  bn_pairing : G1 -> G2 -> Gt;
}.

(** A field element is written into 32 bytes. *)
Class BnLaws `{Bn} : Prop := bn_to_big_endian x : len (Fq_to_big_endian x) = 32.

(** ** Reading with zeros after the end *)

(** [read_exact] on [input.chain(io::repeat(0))], whose bytes that remain are the list. *)
Definition read_exact (n : Z) (reader : list byte) : list byte * list byte :=
  (take (Z.to_nat n) reader ++ replicate (Z.to_nat n - length reader) x00, drop (Z.to_nat n) reader).

(** [vec![0; n]] panics when the size does not fit in [isize]. *)
Definition vec_zeroed {E} (n : Z) : result E unit := if n <? 2 ^ 63 then Ok tt else Panic.

(** ** Prices *)

Inductive Pricer : Set :=
| Linear (base word : Z)
| ModexpPricer (divisor : Z)
| AltBn128PairingPricer (base pair : Z)
| Blake2FPricer (gas_per_round : Z).

Definition linear_cost (base word : Z) (input : list byte) : vm_result Z :=
  let? n := checked_add 64 (len input) 31 in
  let? words := checked_mul 256 word (n / 32) in
  checked_add 256 base words.

Definition pairing_cost (base pair : Z) (input : list byte) : vm_result Z :=
  let? pairs := checked_mul 256 pair (len input / 192) in
  checked_add 256 base pairs.

Definition adjusted_exp_len (len exp_low : Z) : vm_result Z :=
  let bit_index := if exp_low =? 0 then 0 else Z.log2 exp_low in
  if len <=? 32 then Ok bit_index
  else
    let? rest := checked_sub len 32 in
    let? bits := checked_mul 64 8 rest in
    checked_add 64 bits bit_index.

Definition mult_complexity (x : Z) : vm_result Z :=
  if x <=? 64 then checked_mul 64 x x
  else if x <=? 1024 then
    let? square := checked_mul 64 x x in
    let? linear := checked_mul 64 96 x in
    let? sum := checked_add 64 (square / 4) linear in
    checked_sub sum 3072
  else
    let? square := checked_mul 64 x x in
    let? linear := checked_mul 64 480 x in
    let? sum := checked_add 64 (square / 16) linear in
    checked_sub sum 199680.

(** The first word of the exponent. *)
Definition exp_low_word (base_len exp_len : Z) (input : list byte) : vm_result Z :=
  let? at_ := checked_add 64 base_len 96 in
  if len input <=? at_ then Ok 0
  else
    let? rest := unwrap (slice input at_ (len input)) in
    let n := Z.min exp_len 32 in
    Ok (be_to_Z (replicate (Z.to_nat (32 - n)) x00 ++ (read_exact n rest).1)).

Definition modexp_cost (divisor : Z) (input : list byte) : vm_result Z :=
  let '(buf, reader) := read_exact 32 input in
  let base_len := be_to_Z buf in
  let '(buf, reader) := read_exact 32 reader in
  let exp_len := be_to_Z buf in
  let '(buf, reader) := read_exact 32 reader in
  let mod_len := be_to_Z buf in
  if (mod_len =? 0) && (base_len =? 0) then Ok 0
  else
    let max_len := (2 ^ 32 - 1) / 2 in
    if (max_len <? base_len) || (max_len <? mod_len) || (max_len <? exp_len) then Ok (2 ^ 256 - 1)
    else
      let base_len := low_u64 base_len in
      let exp_len := low_u64 exp_len in
      let mod_len := low_u64 mod_len in
      let m := Z.max mod_len base_len in
      let? exp_low := exp_low_word base_len exp_len input in
      let? adjusted := adjusted_exp_len exp_len exp_low in
      let? complexity := mult_complexity m in
      let '(gas, overflow) := overflowing_mul 64 complexity (Z.max adjusted 1) in
      if overflow then Ok (2 ^ 256 - 1)
      else if divisor =? 0 then Panic else Ok (gas / divisor).

Definition blake2_cost (gas_per_round : Z) (input : list byte) : vm_result Z :=
  if len input <? 4 then Ok 0 else checked_mul 64 gas_per_round (be_to_Z (take 4 input)).

Definition pricer_cost (self : Pricer) (input : list byte) : vm_result Z :=
  match self with
  | Linear base word => linear_cost base word input
  | ModexpPricer divisor => modexp_cost divisor input
  | AltBn128PairingPricer base per_pair => pairing_cost base per_pair input
  | Blake2FPricer gas_per_round => blake2_cost gas_per_round input
  end.

(** ** Modular exponentiation *)

(** The bits of a digit of the exponent, from the bit of the mask down. *)
Fixpoint modexp_bits (n : nat) (base modulus digit mask result : Z) : Z :=
  match n with
  | O => result
  | S n =>
      let result := result * result mod modulus in
      let result := if 0 <? Z.land digit mask then result * base mod modulus else result in
      modexp_bits n base modulus digit (Z.shiftr mask 1) result
  end.

Definition modexp_loop (base modulus : Z) (exp : list byte) (result : Z) : Z :=
  foldl (fun result digit => modexp_bits 8 base modulus (byte_to_Z digit) (Z.shiftl 1 7) result) result exp.

Fixpoint skip_zeros (exp : list byte) : list byte :=
  match exp with
  | x00 :: exp => skip_zeros exp
  | _ => exp
  end.

Definition modexp (base : Z) (exp : list byte) (modulus : Z) : Z :=
  if modulus <=? 1 then 0
  else
    match skip_zeros exp with
    | [] => 1
    | exp =>
        if base =? 0 then 0
        else
          let base := base mod modulus in
          if base =? 0 then 0 else modexp_loop base modulus exp 1
    end.

(** ** BLAKE2b *)

Definition SIGMA : list (list nat) := [
  [0; 1; 2; 3; 4; 5; 6; 7; 8; 9; 10; 11; 12; 13; 14; 15];
  [14; 10; 4; 8; 9; 15; 13; 6; 1; 12; 0; 2; 11; 7; 5; 3];
  [11; 8; 12; 0; 5; 2; 15; 13; 10; 14; 3; 6; 7; 1; 9; 4];
  [7; 9; 3; 1; 13; 12; 11; 14; 2; 6; 5; 10; 4; 0; 15; 8];
  [9; 0; 5; 7; 2; 4; 10; 15; 14; 1; 11; 12; 6; 8; 3; 13];
  [2; 12; 6; 10; 0; 11; 8; 3; 4; 13; 7; 5; 15; 14; 1; 9];
  [12; 5; 1; 15; 14; 13; 4; 10; 0; 7; 6; 3; 9; 2; 8; 11];
  [13; 11; 7; 14; 12; 1; 3; 9; 5; 0; 15; 4; 8; 6; 2; 10];
  [6; 15; 14; 9; 11; 3; 0; 8; 12; 2; 13; 7; 1; 4; 10; 5];
  [10; 2; 8; 4; 7; 6; 1; 5; 15; 11; 9; 14; 3; 12; 13; 0]
]%nat.

Definition IV : list Z := [
  0x6A09E667F3BCC908; 0xBB67AE8584CAA73B; 0x3C6EF372FE94F82B; 0xA54FF53A5F1D36F1;
  0x510E527FADE682D1; 0x9B05688C2B3E6C1F; 0x1F83D9ABFB41BD6B; 0x5BE0CD19137E2179
].

Definition wrapping_add (a b : Z) : Z := (a + b) mod 2 ^ 64.
Definition rotate_right (x n : Z) : Z := Z.lor (Z.shiftr x n) (shl 64 x (64 - n)).

(** The mixing function on four words of the state, an array of 16 words. *)
Definition mix (v : list Z) (a b c d : nat) (x y : Z) : list Z :=
  let v := <[a := wrapping_add (wrapping_add (v !!! a) (v !!! b)) x]> v in
  let v := <[d := rotate_right (Z.lxor (v !!! d) (v !!! a)) 32]> v in
  let v := <[c := wrapping_add (v !!! c) (v !!! d)]> v in
  let v := <[b := rotate_right (Z.lxor (v !!! b) (v !!! c)) 24]> v in
  let v := <[a := wrapping_add (wrapping_add (v !!! a) (v !!! b)) y]> v in
  let v := <[d := rotate_right (Z.lxor (v !!! d) (v !!! a)) 16]> v in
  let v := <[c := wrapping_add (v !!! c) (v !!! d)]> v in
  <[b := rotate_right (Z.lxor (v !!! b) (v !!! c)) 63]> v.

Definition blake2_round (m : list Z) (v : list Z) (i : nat) : list Z :=
  let s := SIGMA !!! (i mod 10)%nat in
  let word k := m !!! (s !!! k) in
  let v := mix v 0 4 8 12 (word 0%nat) (word 1%nat) in
  let v := mix v 1 5 9 13 (word 2%nat) (word 3%nat) in
  let v := mix v 2 6 10 14 (word 4%nat) (word 5%nat) in
  let v := mix v 3 7 11 15 (word 6%nat) (word 7%nat) in
  let v := mix v 0 5 10 15 (word 8%nat) (word 9%nat) in
  let v := mix v 1 6 11 12 (word 10%nat) (word 11%nat) in
  let v := mix v 2 7 8 13 (word 12%nat) (word 13%nat) in
  mix v 3 4 9 14 (word 14%nat) (word 15%nat).

Definition compress (h m t : list Z) (f : bool) (rounds : nat) : list Z :=
  let v := h ++ IV in
  let v := <[12%nat := Z.lxor (v !!! 12%nat) (t !!! 0%nat)]> v in
  let v := <[13%nat := Z.lxor (v !!! 13%nat) (t !!! 1%nat)]> v in
  let v := if f then <[14%nat := bnot 64 (v !!! 14%nat)]> v else v in
  let v := foldl (blake2_round m) v (seq 0 rounds) in
  (fun i => Z.lxor (h !!! i) (Z.lxor (v !!! i) (v !!! (i + 8)%nat))) <$> seq 0 8.

(** The words that a cursor reads, little-endian. *)
Fixpoint read_words (n : nat) (l : list byte) : list Z :=
  match n with
  | O => []
  | S n => be_to_Z (rev (take 8 l)) :: read_words n (drop 8 l)
  end.

(** ** The functions *)

Inductive Impl : Set :=
| Identity | EcRecover | Sha256 | Ripemd160 | ModexpImpl
| Bn128AddImpl | Bn128MulImpl | Bn128PairingImpl | Blake2FImpl.

(** [Signature] of cfxkey, the bytes of r, s and v. *)
Definition from_rsv (r s : list byte) (v : byte) : list byte := r ++ s ++ [v].

Definition secp_order : Z := 0xFFFFFFFFFFFFFFFFFFFFFFFFFFFFFFFEBAAEDCE6AF48A03BBFD25E8CD0364141.

Definition signature_is_valid (self : list byte) : bool :=
  let r := be_to_Z (take 32 self) in
  let s := be_to_Z (take 32 (drop 32 self)) in
  let v := byte_to_Z (default x00 (self !! 64%nat)) in
  (v <=? 1) && (r <? secp_order) && (1 <=? r) && (s <? secp_order) && (1 <=? s).

Section functions.
Context `{BytesRef} `{BigUintBytes} `{Digest} `{Bn} (keccak : list byte -> Z).

(** [public_to_address] *)
Definition public_to_address (public : list byte) : list byte := drop 12 (to_be 32 (keccak public)).

Definition builtin_result : Type := result string (list byte).

Definition ecrecover_execute (i output : list byte) : builtin_result :=
  let? input := unwrap (copy_at (replicate 128 x00) 0 (take 128 i)) in
  let? hash := unwrap (slice input 0 32) in
  let? v := unwrap (slice input 32 64) in
  let? r := unwrap (slice input 64 96) in
  let? s := unwrap (slice input 96 128) in
  let? v31 := unwrap (index v 31) in
  let zeros := bool_decide (take 31 v = replicate 31 x00) in
  let bit :=
    if (byte_to_Z v31 <=? 1) && zeros then Some v31
    else if (27 <=? byte_to_Z v31) && (byte_to_Z v31 <=? 28) && zeros then Some (byte_of_Z (byte_to_Z v31 - 27))
    else None in
  match bit with
  | None => Ok output
  | Some bit =>
      let s := from_rsv r s bit in
      if signature_is_valid s then
        match secp_recover s hash with
        | Some p =>
            let output := br_write output 0 (replicate 12 x00) in
            Ok (br_write output 12 (take 20 (public_to_address p)))
        | None => Ok output
        end
      else Ok output
  end.

Definition modexp_execute (input output : list byte) : builtin_result :=
  let '(buf, reader) := read_exact 32 input in
  let base_len := be_to_Z (drop 24 buf) in
  let '(buf, reader) := read_exact 32 reader in
  let exp_len := be_to_Z (drop 24 buf) in
  let '(buf, reader) := read_exact 32 reader in
  let mod_len := be_to_Z (drop 24 buf) in
  let? r :=
    if (base_len =? 0) && (mod_len =? 0) then Ok 0
    else
      let? _ := vec_zeroed (Z.max mod_len (Z.max base_len exp_len)) in
      let '(buf, reader) := read_exact base_len reader in
      let base := be_to_Z buf in
      let? _ := vec_zeroed exp_len in
      let '(exp_buf, reader) := read_exact exp_len reader in
      let '(buf, reader) := read_exact mod_len reader in
      let modulus := be_to_Z buf in
      Ok (modexp base exp_buf modulus) in
  let bytes := to_bytes_be r in
  if len bytes <=? mod_len then Ok (br_write output (mod_len - len bytes) bytes) else Ok output.

Definition map_err {A} (o : option A) (e : string) : result string A :=
  match o with Some a => Ok a | None => Err e end.

Definition read_fr (reader : list byte) : result string (Fr * list byte) :=
  let '(buf, reader) := read_exact 32 reader in
  let? fr := map_err (Fr_from_slice buf) "Invalid field element" in
  Ok (fr, reader).

Definition read_point (reader : list byte) : result string (G1 * list byte) :=
  let '(buf, reader) := read_exact 32 reader in
  let? px := map_err (Fq_from_slice buf) "Invalid point x coordinate" in
  let '(buf, reader) := read_exact 32 reader in
  let? py := map_err (Fq_from_slice buf) "Invalid point y coordinate" in
  if Fq_is_zero px && Fq_is_zero py then Ok (G1_zero, reader)
  else
    let? p := map_err (AffineG1_new px py) "Invalid curve point" in
    Ok (p, reader).

(** The 64 bytes of a point, zeros for the point at infinity. *)
Definition write_point (p : G1) : list byte :=
  match AffineG1_from_jacobian p with
  | Some (x, y) => Fq_to_big_endian x ++ Fq_to_big_endian y
  | None => replicate 64 x00
  end.

Definition bn128_add_execute (input output : list byte) : builtin_result :=
  let? '(p1, reader) := read_point input in
  let? '(p2, reader) := read_point reader in
  Ok (br_write output 0 (write_point (G1_add p1 p2))).

Definition bn128_mul_execute (input output : list byte) : builtin_result :=
  let? '(p, reader) := read_point input in
  let? '(fr, reader) := read_fr reader in
  Ok (br_write output 0 (write_point (G1_mul p fr))).

Definition pairing_element (input : list byte) (idx : Z) : result string (G1 * G2) :=
  let coordinate k e := let? s := unwrap (slice input (idx * 192 + k) (idx * 192 + k + 32)) in map_err (Fq_from_slice s) e in
  let? a_x := coordinate 0 "Invalid a argument x coordinate" in
  let? a_y := coordinate 32 "Invalid a argument y coordinate" in
  let? b_a_y := coordinate 64 "Invalid b argument imaginary coeff x coordinate" in
  let? b_a_x := coordinate 96 "Invalid b argument imaginary coeff y coordinate" in
  let? b_b_y := coordinate 128 "Invalid b argument real coeff x coordinate" in
  let? b_b_x := coordinate 160 "Invalid b argument real coeff y coordinate" in
  let b_a := Fq2_new b_a_x b_a_y in
  let b_b := Fq2_new b_b_x b_b_y in
  let? b :=
    if Fq2_is_zero b_a && Fq2_is_zero b_b then Ok G2_zero
    else map_err (AffineG2_new b_a b_b) "Invalid b argument - not on curve" in
  let? a :=
    if Fq_is_zero a_x && Fq_is_zero a_y then Ok G1_zero
    else map_err (AffineG1_new a_x a_y) "Invalid a argument - not on curve" in
  Ok (a, b).

Fixpoint pairing_elements (input : list byte) (n : nat) (idx : Z) : result string (list (G1 * G2)) :=
  match n with
  | O => Ok []
  | S n =>
      let? ab := pairing_element input idx in
      let? rest := pairing_elements input n (idx + 1) in
      Ok (ab :: rest)
  end.

Definition pairing_execute (input output : list byte) : builtin_result :=
  if negb (len input mod 192 =? 0) then
    Err "Invalid input length, must be multiple of 192 (3 * (32*2))"
  else
    let? ret_val :=
      if len input =? 0 then Ok 1
      else
        let? vals := pairing_elements input (Z.to_nat (len input / 192)) 0 in
        let mul := foldl (fun s ab => Gt_mul s (bn_pairing ab.1 ab.2)) Gt_one vals in
        Ok (if Gt_eqb mul Gt_one then 1 else 0) in
    Ok (br_write output 0 (to_be 32 ret_val)).

Definition blake2f_execute (input output : list byte) : builtin_result :=
  if negb (len input =? 213) then Err "input length for Blake2 F precompile should be exactly 213 bytes"
  else
    let rounds := be_to_Z (take 4 input) in
    let h := read_words 8 (drop 4 input) in
    let m := read_words 16 (drop 68 input) in
    let t := read_words 2 (drop 196 input) in
    let? f :=
      match list.last input with
      | Some x01 => Ok true
      | Some x00 => Ok false
      | _ => Err "incorrect final block indicator flag"
      end in
    let h := compress h m t f (Z.to_nat rounds) in
    Ok (br_write output 0 (concat ((fun word => rev (to_be 8 word)) <$> h))).

Definition impl_execute (self : Impl) (input : list byte) (output : list byte) : builtin_result :=
  match self with
  | Identity => Ok (br_write output 0 input)
  | EcRecover => ecrecover_execute input output
  | Sha256 => Ok (br_write output 0 (sha256 input))
  | Ripemd160 => Ok (br_write (br_write output 0 (replicate 12 x00)) 12 (ripemd160 input))
  | ModexpImpl => modexp_execute input output
  | Bn128AddImpl => bn128_add_execute input output
  | Bn128MulImpl => bn128_mul_execute input output
  | Bn128PairingImpl => pairing_execute input output
  | Blake2FImpl => blake2f_execute input output
  end.

(** ** The table *)

Definition builtin_factory (name : string) : vm_result Impl :=
  if decide (name = "identity") then Ok Identity
  else if decide (name = "ecrecover") then Ok EcRecover
  else if decide (name = "sha256") then Ok Sha256
  else if decide (name = "ripemd160") then Ok Ripemd160
  else if decide (name = "modexp") then Ok ModexpImpl
  else if decide (name = "alt_bn128_add") then Ok Bn128AddImpl
  else if decide (name = "alt_bn128_mul") then Ok Bn128MulImpl
  else if decide (name = "alt_bn128_pairing") then Ok Bn128PairingImpl
  else if decide (name = "blake2_f") then Ok Blake2FImpl
  else Panic.

(** The output of a builtin starts empty. *)
Definition Builtin_new (pricer : Pricer) (native : Impl) (activate_at : Z) : Builtin :=
  mkBuiltin (pricer_cost pricer) (fun input => impl_execute native input []) activate_at.

(** The addresses, prices, names and activation blocks, in the order of insertion. *)
Definition builtin_specs (cip62 cip92 : Z) : list (Z * Pricer * string * Z) := [
  (1, Linear 3000 0, "ecrecover", 0);
  (2, Linear 60 12, "sha256", 0);
  (3, Linear 600 120, "ripemd160", 0);
  (4, Linear 15 3, "identity", 0);
  (5, ModexpPricer 20, "modexp", cip62);
  (6, Linear 500 0, "alt_bn128_add", cip62);
  (7, Linear 40000 0, "alt_bn128_mul", cip62);
  (8, AltBn128PairingPricer 100000 80000, "alt_bn128_pairing", cip62);
  (9, Blake2FPricer 1, "blake2_f", cip92)
]%string.

Fixpoint insert_builtins (l : list (Z * Pricer * string * Z)) (btree : gmap Z Builtin) : vm_result (gmap Z Builtin) :=
  match l with
  | [] => Ok btree
  | (address, pricer, name, activate_at) :: l =>
      let? native := builtin_factory name in
      insert_builtins l (<[address := Builtin_new pricer native activate_at]> btree)
  end.

Definition new_builtin_map (cip62 cip92 : Z) : vm_result (gmap Z Builtin) :=
  insert_builtins (builtin_specs cip62 cip92) ∅.
End functions.

(** ** Reading *)

(** The [n] bytes at an offset, with zeros after the end of the input. *)
Definition window (input : list byte) (offset n : Z) : list byte :=
  (read_exact n (drop (Z.to_nat offset) input)).1.

Lemma read_exact_window n offset input :
  0 <= n -> 0 <= offset ->
  read_exact n (drop (Z.to_nat offset) input) = (window input offset n, drop (Z.to_nat (offset + n)) input).
Proof.
  intros Hn Ho. unfold window, read_exact. cbn [fst]. f_equal. rewrite drop_drop. f_equal. lia.
Qed.

Lemma read_exact_start n input : 0 <= n -> read_exact n input = (window input 0 n, drop (Z.to_nat (0 + n)) input).
Proof. intros Hn. rewrite <- (read_exact_window n 0 input) by lia. done. Qed.

Lemma length_window input offset n : length (window input offset n) = Z.to_nat n.
Proof. unfold window, read_exact. cbn [fst]. rewrite length_app, length_take, length_replicate. lia. Qed.

Lemma len_window input offset n : 0 <= n -> len (window input offset n) = n.
Proof. intros Hn. unfold len. rewrite length_window. lia. Qed.

Lemma window_bound input offset n : 0 <= n -> 0 <= be_to_Z (window input offset n) < 256 ^ n.
Proof. intros Hn. pose proof (be_to_Z_bound (window input offset n)) as Hb. by rewrite len_window in Hb. Qed.

(** The last bytes of a window are a window. *)
Lemma drop_window input offset k n :
  0 <= offset -> 0 <= k <= n -> drop (Z.to_nat k) (window input offset n) = window input (offset + k) (n - k).
Proof.
  intros Ho Hk. apply list_eq. intros i. destruct (decide (i < Z.to_nat (n - k))%nat) as [Hi | Hi].
  2: { rewrite !lookup_ge_None_2; rewrite ?length_drop, ?length_window; try lia; done. }
  unfold window, read_exact. cbn [fst]. rewrite lookup_drop, !lookup_app, !length_take, !length_drop.
  rewrite !lookup_take_lt, !lookup_drop by lia.
  replace (Z.to_nat offset + (Z.to_nat k + i))%nat with (Z.to_nat (offset + k) + i)%nat by lia.
  destruct (input !! (Z.to_nat (offset + k) + i)%nat) eqn:E; [done |]. apply lookup_ge_None in E.
  rewrite !lookup_replicate_2 by lia. done.
Qed.

(** ** Modular exponentiation *)

Lemma be_to_Z_cons b l : be_to_Z (b :: l) = byte_to_Z b * 256 ^ len l + be_to_Z l.
Proof.
  induction l as [| c l IH] using rev_ind.
  - rewrite len_nil, Z.pow_0_r. unfold be_to_Z. cbn [foldl]. lia.
  - rewrite app_comm_cons, !be_to_Z_snoc, IH, len_app.
    replace (len l + len [c]) with (Z.succ (len l)) by (unfold len; cbn; lia).
    rewrite Z.pow_succ_r by apply len_nonneg. lia.
Qed.

Lemma skip_zeros_value exp : be_to_Z (skip_zeros exp) = be_to_Z exp.
Proof. induction exp as [| b exp IH]; [done |]. destruct b; done. Qed.

Lemma skip_zeros_head exp b l : skip_zeros exp = b :: l -> 0 < byte_to_Z b.
Proof.
  induction exp as [| c exp IH]; [done |]. destruct c; cbn [skip_zeros]; [exact IH | ..]; intros [= <- _]; done.
Qed.

Lemma land_pow2 x n : 0 <= n -> (0 <? Z.land x (2 ^ n)) = Z.testbit x n.
Proof.
  intros Hn. assert (Hl : Z.land x (2 ^ n) = if Z.testbit x n then 2 ^ n else 0).
  { apply Z.bits_inj'. intros i Hi. rewrite Z.land_spec, Z.pow2_bits_eqb by lia.
    destruct (Z.eqb_spec n i) as [<- | Hne].
    - destruct (Z.testbit x n); rewrite ?Z.bits_0, ?Z.pow2_bits_true by lia; done.
    - rewrite andb_false_r. destruct (Z.testbit x n); rewrite ?Z.bits_0, ?Z.pow2_bits_false by lia; done. }
  rewrite Hl. destruct (Z.testbit x n); [apply Z.ltb_lt, Z.pow_pos_nonneg; lia | done].
Qed.

Section modexp.
Context (base modulus : Z) (Hm : 1 < modulus).

Lemma mod_square x y : x mod modulus = y mod modulus -> x * x mod modulus = y * y mod modulus.
Proof. intros E. by rewrite Z.mul_mod, E, <- Z.mul_mod by lia. Qed.

Lemma mod_pow x y n : x mod modulus = y mod modulus -> x ^ n mod modulus = y ^ n mod modulus.
Proof. intros E. rewrite (Zpower_mod x), E, <- Zpower_mod by lia. done. Qed.

(** A digit shifts the exponent and adds its value. *)
Lemma modexp_bits_value n digit result :
  0 <= result < modulus ->
  modexp_bits n base modulus digit (2 ^ Z.of_nat n / 2) result =
    result ^ (2 ^ Z.of_nat n) * base ^ (digit mod 2 ^ Z.of_nat n) mod modulus.
Proof.
  revert result. induction n as [| n IH]; intros result Hr; cbn [modexp_bits].
  { change (2 ^ Z.of_nat 0) with 1. rewrite Z.mod_1_r, Z.pow_0_r, Z.pow_1_r, Z.mul_1_r, Z.mod_small by done. done. }
  rewrite Nat2Z.inj_succ, Z.pow_succ_r by lia. set (p := 2 ^ Z.of_nat n) in *.
  assert (Hp : 0 < p) by (apply Z.pow_pos_nonneg; lia).
  replace (2 * p / 2) with p by (symmetry; rewrite Z.mul_comm; apply Z.div_mul; lia).
  rewrite Z.shiftr_div_pow2, Z.pow_1_r by lia.
  assert (Hbit : digit mod (2 * p) = digit mod p + p * ((digit / p) mod 2)).
  { rewrite (Z.mul_comm 2 p). apply Z.rem_mul_r; lia. }
  assert (Hland : (0 <? Z.land digit p) = Z.odd (digit / p)).
  { unfold p. rewrite land_pow2 by lia. by rewrite <- Z.bit0_odd, Z.div_pow2_bits by lia. }
  rewrite Hland, Hbit, Zmod_odd.
  set (sq := result * result mod modulus).
  assert (Esq : sq ^ p mod modulus = result ^ (2 * p) mod modulus).
  { rewrite Z.pow_mul_r, Z.pow_2_r by lia. apply mod_pow. unfold sq. by rewrite Z.mod_mod by lia. }
  pose proof (Z.mod_pos_bound digit p Hp).
  destruct (Z.odd (digit / p)).
  - rewrite IH by (apply Z.mod_pos_bound; lia). rewrite Z.pow_add_r, Z.mul_1_r by lia.
    rewrite Z.mul_mod by lia. rewrite (mod_pow _ (sq * base)) by (by rewrite Z.mod_mod by lia).
    rewrite <- Z.mul_mod, Z.pow_mul_l by lia.
    replace (sq ^ p * base ^ p * base ^ (digit mod p)) with (sq ^ p * (base ^ (digit mod p) * base ^ p)) by lia.
    rewrite Z.mul_mod, Esq, <- Z.mul_mod by lia. done.
  - rewrite IH by (apply Z.mod_pos_bound; lia). rewrite Z.mul_0_r, Z.add_0_r.
    rewrite Z.mul_mod, Esq, <- Z.mul_mod by lia. done.
Qed.

Lemma modexp_loop_value exp : modexp_loop base modulus exp 1 = base ^ be_to_Z exp mod modulus.
Proof.
  unfold modexp_loop. induction exp as [| b exp IH] using rev_ind.
  { cbn. by rewrite Z.mod_small by lia. }
  rewrite foldl_snoc, IH, be_to_Z_snoc.
  pose proof (byte_to_Z_bound b). pose proof (be_to_Z_bound exp).
  change (Z.shiftl 1 7) with (2 ^ Z.of_nat 8 / 2). rewrite modexp_bits_value by (apply Z.mod_pos_bound; lia).
  change (2 ^ Z.of_nat 8) with 256. rewrite (Z.mod_small (byte_to_Z b)) by lia.
  rewrite Z.pow_add_r, Z.pow_mul_r by lia.
  rewrite Z.mul_mod, (mod_pow _ (base ^ be_to_Z exp)), <- Z.mul_mod by (try lia; by rewrite Z.mod_mod by lia). done.
Qed.
End modexp.

(** The power, or zero for the modulus zero. *)
Definition power_mod (base exponent modulus : Z) : Z :=
  if modulus =? 0 then 0 else base ^ exponent mod modulus.

Lemma modexp_value base exp modulus :
  0 <= base -> 0 <= modulus -> modexp base exp modulus = power_mod base (be_to_Z exp) modulus.
Proof.
  intros Hb Hmod. unfold modexp, power_mod.
  destruct (Z.leb_spec modulus 1).
  { destruct (Z.eqb_spec modulus 0); [done |]. replace modulus with 1 by lia. by rewrite Z.mod_1_r. }
  rewrite (proj2 (Z.eqb_neq modulus 0)) by lia. rewrite <- (skip_zeros_value exp).
  destruct (skip_zeros exp) as [| b l] eqn:E.
  { cbn. by rewrite Z.mod_small by lia. }
  assert (He : 0 < be_to_Z (b :: l)).
  { rewrite be_to_Z_cons. pose proof (skip_zeros_head _ _ _ E). pose proof (be_to_Z_bound l).
    pose proof (Z.pow_pos_nonneg 256 (len l) ltac:(done) (len_nonneg l)).
    pose proof (Z.mul_pos_pos (byte_to_Z b) (256 ^ len l)). lia. }
  destruct (Z.eqb_spec base 0) as [-> | Hb0]; [by rewrite Z.pow_0_l, Z.mod_0_l by lia |].
  assert (Hbase : base ^ be_to_Z (b :: l) mod modulus = (base mod modulus) ^ be_to_Z (b :: l) mod modulus)
    by (apply Zpower_mod; lia).
  destruct (Z.eqb_spec (base mod modulus) 0) as [E0 | _].
  - by rewrite Hbase, E0, Z.pow_0_l, Z.mod_0_l by lia.
  - rewrite Hbase. by apply modexp_loop_value.
Qed.

(** ** The functions return *)

Section returns.
Context `{BytesRefLaws} `{BigUintLaws} `{DigestLaws} `{BnLaws} (keccak : list byte -> Z).

Lemma write_nil offset input :
  0 <= offset -> br_write [] offset input = replicate (Z.to_nat offset) x00 ++ input.
Proof. intros Ho. rewrite br_write_extends by (rewrite len_nil; lia). rewrite len_nil, Z.sub_0_r. done. Qed.

(** The shortest bytes of a number, with zeros before them, are the bytes of the number. *)
Lemma pad_bytes n size :
  0 <= n -> len (to_bytes_be n) <= size ->
  replicate (Z.to_nat (size - len (to_bytes_be n))) x00 ++ to_bytes_be n = to_be (Z.to_nat size) n.
Proof.
  intros Hn Hl. set (l := replicate _ _ ++ _).
  assert (Ev : be_to_Z l = n).
  { unfold l. generalize (Z.to_nat (size - len (to_bytes_be n))). intros k. rewrite <- (bu_value n) at 2 by done.
    induction k as [| k IH]; [done |]. cbn [replicate app]. exact IH. }
  assert (El : length l = Z.to_nat size).
  { unfold l. rewrite length_app, length_replicate. unfold len in *. lia. }
  rewrite <- El, <- Ev. symmetry. apply to_be_to_Z.
Qed.

Lemma short_bytes n size : 0 <= n < 256 ^ size -> 0 < size -> len (to_bytes_be n) <= size.
Proof.
  intros Hn Hs. destruct (decide (n = 0)) as [-> | Hne]; [rewrite bu_zero; unfold len; cbn; lia |].
  pose proof (bu_shortest n ltac:(lia)) as Hl.
  destruct (Z.le_gt_cases (len (to_bytes_be n)) size) as [| Hgt]; [done |]. exfalso.
  pose proof (Z.pow_le_mono_r 256 size (len (to_bytes_be n) - 1)). lia.
Qed.

Lemma power_mod_bound base exponent modulus : 0 <= modulus -> 0 <= power_mod base exponent modulus <= modulus.
Proof.
  intros Hm. unfold power_mod. destruct (Z.eqb_spec modulus 0); [lia |].
  pose proof (Z.mod_pos_bound (base ^ exponent) modulus). lia.
Qed.

(** The lengths in the header of the input, as the function reads them. *)
Definition modexp_len (input : list byte) (k : Z) : Z := be_to_Z (window input (32 * k + 24) 8).

Lemma modexp_len_bound input k : 0 <= modexp_len input k < 2 ^ 64.
Proof. apply (window_bound input _ 8). done. Qed.

Lemma read_len input k :
  0 <= k -> read_exact 32 (drop (Z.to_nat (32 * k)) input) =
    (window input (32 * k) 32, drop (Z.to_nat (32 * (k + 1))) input) /\
  be_to_Z (drop 24 (window input (32 * k) 32)) = modexp_len input k.
Proof.
  intros Hk. split.
  - rewrite read_exact_window by lia. do 3 f_equal. lia.
  - change 24%nat with (Z.to_nat 24). rewrite drop_window by lia. done.
Qed.

(** The result in as many bytes as the modulus has. *)
Lemma modexp_output r mod_len :
  0 <= r -> 0 <= mod_len -> (0 < mod_len -> r < 256 ^ mod_len) ->
  (if len (to_bytes_be r) <=? mod_len then Ok (br_write [] (mod_len - len (to_bytes_be r)) (to_bytes_be r)) else Ok [])
  = (Ok (to_be (Z.to_nat mod_len) r) : builtin_result).
Proof.
  intros Hr Hl Hlt. destruct (decide (mod_len = 0)) as [-> | Hne].
  - assert (0 < len (to_bytes_be r)).
    { pose proof (bu_value r Hr) as Hv. destruct (to_bytes_be r) as [| b l] eqn:E; [| rewrite len_cons; pose proof (len_nonneg l); lia].
      cbn in Hv. subst r. rewrite bu_zero in E. done. }
    rewrite (proj2 (Z.leb_gt _ 0)) by lia. done.
  - pose proof (short_bytes r mod_len ltac:(lia) ltac:(lia)) as Hs.
    rewrite (proj2 (Z.leb_le _ mod_len)) by lia. rewrite write_nil by lia. f_equal. by apply pad_bytes.
Qed.

Lemma modexp_execute_value input :
  let base_len := modexp_len input 0 in
  let exp_len := modexp_len input 1 in
  let mod_len := modexp_len input 2 in
  base_len < 2 ^ 63 -> exp_len < 2 ^ 63 -> mod_len < 2 ^ 63 ->
  modexp_execute input [] =
    Ok (to_be (Z.to_nat mod_len)
          (power_mod (be_to_Z (window input 96 base_len)) (be_to_Z (window input (96 + base_len) exp_len))
             (be_to_Z (window input (96 + base_len + exp_len) mod_len)))).
Proof.
  intros base_len exp_len mod_len Hb He Hm.
  pose proof (modexp_len_bound input 0) as [Hb0 _]. pose proof (modexp_len_bound input 1) as [He0 _].
  pose proof (modexp_len_bound input 2) as [Hm0 _]. fold base_len exp_len mod_len in Hb0, He0, Hm0.
  pose proof (read_len input 0 ltac:(done)) as [R0 L0]. change (drop (Z.to_nat (32 * 0)) input) with input in R0.
  pose proof (read_len input 1 ltac:(done)) as [R1 L1]. pose proof (read_len input 2 ltac:(done)) as [R2 L2].
  unfold modexp_execute. rewrite R0. cbv beta iota zeta. rewrite L0.
  change (0 + 1) with 1. rewrite R1. cbv beta iota. rewrite L1. change (1 + 1) with 2. rewrite R2. cbv beta iota. rewrite L2.
  change (32 * (2 + 1)) with 96. fold base_len exp_len mod_len.
  set (B := be_to_Z (window input 96 base_len)). set (X := be_to_Z (window input (96 + base_len) exp_len)).
  set (N := be_to_Z (window input (96 + base_len + exp_len) mod_len)).
  assert (HN : 0 <= N < 256 ^ mod_len) by (by apply window_bound).
  assert (HB : 0 <= B) by (by apply window_bound).
  pose proof (power_mod_bound B X N ltac:(lia)) as HP.
  assert (Hlt : 0 < mod_len -> power_mod B X N < 256 ^ mod_len) by lia.
  destruct ((base_len =? 0) && (mod_len =? 0)) eqn:Ez.
  - apply andb_true_iff in Ez as [_ Ez]. b2p. cbn [result_bind]. rewrite Ez, modexp_output; [done | done | done | intros; lia].
  - unfold vec_zeroed. rewrite !(proj2 (Z.ltb_lt _ (2 ^ 63))) by lia. cbn [result_bind].
    rewrite !read_exact_window by lia. cbn [result_bind].
    rewrite modexp_value by lia. apply modexp_output; [lia | done | done].
Qed.

(** C18. The builtin for modular exponentiation is that of EIP-198: on an input that starts with
    the lengths of the base, the exponent and the modulus and goes on with the three numbers, in
    big-endian bytes and with zeros after its end, the output is the base to the power of the
    exponent modulo the modulus (zero for the modulus zero) in as many bytes as the modulus has.
    The shortcuts of the code, for a modulus of at most one, the exponent zero and bases that the
    modulus divides, and the loop over the bits of the exponent do not show. *)
Theorem modexp_eip198 input :
  let base_len := modexp_len input 0 in
  let exp_len := modexp_len input 1 in
  let mod_len := modexp_len input 2 in
  base_len < 2 ^ 63 -> exp_len < 2 ^ 63 -> mod_len < 2 ^ 63 ->
  modexp_execute input [] =
    Ok (to_be (Z.to_nat mod_len)
          (power_mod (be_to_Z (window input 96 base_len)) (be_to_Z (window input (96 + base_len) exp_len))
             (be_to_Z (window input (96 + base_len + exp_len) mod_len)))).
Proof. apply modexp_execute_value. Qed.
End returns.

(** ** Prices *)

Lemma linear_cost_ok base word input :
  0 <= base < 2 ^ 32 -> 0 <= word < 2 ^ 32 -> wf_bytes input ->
  linear_cost base word input = Ok (base + word * ((len input + 31) / 32)).
Proof.
  intros Hb Hw Hl. unfold wf_bytes in Hl. pose proof (len_nonneg input).
  assert (Hq : 0 <= (len input + 31) / 32 < 2 ^ 60).
  { split; [apply Z.div_pos; lia | apply Z.div_lt_upper_bound; lia]. }
  assert (Hm : 0 <= word * ((len input + 31) / 32) < 2 ^ 32 * 2 ^ 60).
  { split; [apply Z.mul_nonneg_nonneg; lia | apply Z.mul_lt_mono_nonneg; lia]. }
  unfold linear_cost, checked_add, checked_mul. rewrite (proj2 (Z.ltb_lt _ (2 ^ 64))) by lia. cbn [result_bind].
  rewrite (proj2 (Z.ltb_lt _ (2 ^ 256))) by lia. cbn [result_bind].
  by rewrite (proj2 (Z.ltb_lt _ (2 ^ 256))) by lia.
Qed.

Lemma pairing_cost_ok base per_pair input :
  0 <= base < 2 ^ 32 -> 0 <= per_pair < 2 ^ 32 -> wf_bytes input ->
  pairing_cost base per_pair input = Ok (base + per_pair * (len input / 192)).
Proof.
  intros Hb Hw Hl. unfold wf_bytes in Hl. pose proof (len_nonneg input).
  assert (Hq : 0 <= len input / 192 < 2 ^ 60).
  { split; [apply Z.div_pos; lia | apply Z.div_lt_upper_bound; lia]. }
  assert (Hm : 0 <= per_pair * (len input / 192) < 2 ^ 32 * 2 ^ 60).
  { split; [apply Z.mul_nonneg_nonneg; lia | apply Z.mul_lt_mono_nonneg; lia]. }
  unfold pairing_cost, checked_add, checked_mul. rewrite (proj2 (Z.ltb_lt _ (2 ^ 256))) by lia. cbn [result_bind].
  by rewrite (proj2 (Z.ltb_lt _ (2 ^ 256))) by lia.
Qed.

Lemma take_4_bound (l : list byte) : 0 <= be_to_Z (take 4 l) < 2 ^ 32.
Proof.
  pose proof (be_to_Z_bound (take 4 l)) as Hb. change (2 ^ 32) with (256 ^ 4).
  assert (len (take 4 l) <= 4) by (unfold len; rewrite length_take; lia).
  pose proof (Z.pow_le_mono_r 256 (len (take 4 l)) 4). lia.
Qed.

Lemma blake2_cost_ok input : exists c, blake2_cost 1 input = Ok c /\ 0 <= c < 2 ^ 32.
Proof.
  unfold blake2_cost, checked_mul. destruct (len input <? 4); [by eexists |].
  pose proof (take_4_bound input). rewrite Z.mul_1_l, (proj2 (Z.ltb_lt _ (2 ^ 64))) by lia. by eexists.
Qed.

(** *** The price of modular exponentiation *)

(** The lengths in the header, as the price reads them. *)
Definition modexp_size (input : list byte) (k : Z) : Z := be_to_Z (window input (32 * k) 32).

Lemma be_to_Z_app a b : be_to_Z (a ++ b) = be_to_Z a * 256 ^ len b + be_to_Z b.
Proof.
  induction b as [| x b IH] using rev_ind.
  - rewrite app_nil_r, len_nil, Z.pow_0_r. change (be_to_Z []) with 0. lia.
  - rewrite app_assoc, !be_to_Z_snoc, IH, len_app. replace (len b + len [x]) with (Z.succ (len b)) by (unfold len; cbn; lia).
    rewrite Z.pow_succ_r by apply len_nonneg. lia.
Qed.

(** Lengths that are paid for are the same to both. *)
Lemma modexp_size_small input k : 0 <= k -> modexp_size input k < 2 ^ 64 -> modexp_len input k = modexp_size input k.
Proof.
  intros Hk Hlt. set (w := window input (32 * k) 32).
  assert (E : modexp_size input k = be_to_Z (take 24 w) * 2 ^ 64 + modexp_len input k).
  { unfold modexp_size. fold w. rewrite <- (take_drop 24 w) at 1. rewrite be_to_Z_app.
    replace (drop 24 w) with (window input (32 * k + 24) 8) by (symmetry; apply (drop_window input (32 * k) 24 32); lia).
    by rewrite len_window. }
  pose proof (be_to_Z_bound (take 24 w)). pose proof (modexp_len_bound input k). nia.
Qed.

Lemma adjusted_exp_len_ok n exp_low :
  0 <= n < 2 ^ 31 -> is_u256 exp_low -> exists a, adjusted_exp_len n exp_low = Ok a /\ 0 <= a < 2 ^ 35.
Proof.
  intros Hn [He He']. unfold adjusted_exp_len. set (bit_index := if exp_low =? 0 then 0 else Z.log2 exp_low).
  assert (Hbit : 0 <= bit_index < 256).
  { unfold bit_index. destruct (Z.eqb_spec exp_low 0); [lia |]. split; [apply Z.log2_nonneg | apply Z.log2_lt_pow2; lia]. }
  destruct (Z.leb_spec n 32); [eexists; split; [done | lia] |].
  unfold checked_sub, checked_mul, checked_add. rewrite (proj2 (Z.leb_le 32 n)) by lia. cbn [result_bind].
  rewrite (proj2 (Z.ltb_lt _ (2 ^ 64))) by lia. cbn [result_bind].
  rewrite (proj2 (Z.ltb_lt _ (2 ^ 64))) by lia. eexists. split; [done | lia].
Qed.

Lemma mult_complexity_ok x : 0 <= x < 2 ^ 31 -> exists c, mult_complexity x = Ok c /\ 0 <= c < 2 ^ 63.
Proof.
  intros Hx. unfold mult_complexity, checked_mul, checked_add, checked_sub.
  assert (Hsq : 0 <= x * x < 2 ^ 62) by nia.
  pose proof (Z.div_pos (x * x) 4 ltac:(lia) ltac:(done)). pose proof (Z.div_pos (x * x) 16 ltac:(lia) ltac:(done)).
  pose proof (Z.div_le_upper_bound (x * x) 4 (2 ^ 62) ltac:(done) ltac:(lia)).
  pose proof (Z.div_le_upper_bound (x * x) 16 (2 ^ 62) ltac:(done) ltac:(lia)).
  rewrite !(proj2 (Z.ltb_lt (x * x) (2 ^ 64))) by lia. cbn [result_bind].
  destruct (Z.leb_spec x 64); [eexists; split; [done | lia] |].
  destruct (Z.leb_spec x 1024).
  - rewrite (proj2 (Z.ltb_lt (96 * x) (2 ^ 64))) by lia. cbn [result_bind].
    rewrite (proj2 (Z.ltb_lt _ (2 ^ 64))) by lia. cbn [result_bind]. rewrite (proj2 (Z.leb_le 3072 _)) by lia.
    eexists. split; [done | lia].
  - rewrite (proj2 (Z.ltb_lt (480 * x) (2 ^ 64))) by lia. cbn [result_bind].
    rewrite (proj2 (Z.ltb_lt _ (2 ^ 64))) by lia. cbn [result_bind]. rewrite (proj2 (Z.leb_le 199680 _)) by lia.
    eexists. split; [done | lia].
Qed.

Lemma exp_low_word_ok base_len exp_len input :
  0 <= base_len < 2 ^ 31 -> 0 <= exp_len -> exists w, exp_low_word base_len exp_len input = Ok w /\ is_u256 w.
Proof.
  intros Hb He. unfold exp_low_word, checked_add. rewrite (proj2 (Z.ltb_lt _ (2 ^ 64))) by lia. cbn [result_bind].
  destruct (Z.leb_spec (len input) (base_len + 96)); [eexists; by split |].
  rewrite slice_Some by lia. cbn [unwrap result_bind]. eexists. split; [done |]. apply be_to_Z_u256.
  set (n := Z.min exp_len 32). unfold read_exact. cbn [fst].
  rewrite !len_app, !len_replicate. unfold len. rewrite length_take. lia.
Qed.

Lemma modexp_cost_ok divisor input :
  0 < divisor ->
  exists c, modexp_cost divisor input = Ok c /\ 0 <= c /\
    (c < 2 ^ 64 ->
     (modexp_size input 0 = 0 /\ modexp_size input 2 = 0) \/
     (modexp_size input 0 < 2 ^ 31 /\ modexp_size input 1 < 2 ^ 31 /\ modexp_size input 2 < 2 ^ 31)).
Proof.
  intros Hd. unfold modexp_cost.
  pose proof (read_len input 0 ltac:(done)) as [R0 _]. change (drop (Z.to_nat (32 * 0)) input) with input in R0.
  pose proof (read_len input 1 ltac:(done)) as [R1 _]. pose proof (read_len input 2 ltac:(done)) as [R2 _].
  rewrite R0. cbv beta iota zeta. change (0 + 1) with 1. rewrite R1. cbv beta iota. change (1 + 1) with 2. rewrite R2.
  cbv beta iota. fold (modexp_size input 0) (modexp_size input 1) (modexp_size input 2).
  assert (Hnn : forall k, 0 <= modexp_size input k) by (intros; by apply window_bound).
  pose proof (Hnn 0) as H0. pose proof (Hnn 1) as H1. pose proof (Hnn 2) as H2. clear Hnn.
  set (bl := modexp_size input 0) in *. set (el := modexp_size input 1) in *. set (ml := modexp_size input 2) in *.
  destruct ((ml =? 0) && (bl =? 0)) eqn:Ez.
  { apply andb_true_iff in Ez as [? ?]. b2p. eexists. split_and!; [done | done |]. intros _. by left. }
  change ((2 ^ 32 - 1) / 2) with (2 ^ 31 - 1).
  destruct ((2 ^ 31 - 1 <? bl) || (2 ^ 31 - 1 <? ml) || (2 ^ 31 - 1 <? el)) eqn:El.
  { eexists. split_and!; [done | done | done]. }
  apply orb_false_iff in El as [[Eb Em]%orb_false_iff Ee]. b2p.
  rewrite !low_u64_small by (split; lia).
  destruct (exp_low_word_ok bl el input ltac:(lia) ltac:(lia)) as (w & -> & Hw). cbn [result_bind].
  destruct (adjusted_exp_len_ok el w ltac:(lia) Hw) as (a & -> & Ha). cbn [result_bind].
  destruct (mult_complexity_ok (Z.max ml bl) ltac:(lia)) as (c & -> & Hc). cbn [result_bind].
  unfold overflowing_mul. destruct (2 ^ 64 <=? c * Z.max a 1); [eexists; by split_and! |].
  rewrite (proj2 (Z.eqb_neq divisor 0)) by lia. eexists. split; [done |]. split; [| right; lia].
  apply Z.div_pos; [| done]. by apply Z.mod_pos_bound.
Qed.

(** ** Builtins that can be paid for return *)

Section table.
Context `{BytesRefLaws} `{BigUintLaws} `{DigestLaws} `{BnLaws} (keccak : list byte -> Z).

Abbreviation returns_bytes r := (rwp r wf_bytes (fun _ => True)).

Lemma short_wf (l : list byte) : len l <= 128 -> wf_bytes l.
Proof. unfold wf_bytes. lia. Qed.

Lemma len_write_point p : len (write_point p) = 64.
Proof.
  unfold write_point. destruct (AffineG1_from_jacobian p) as [[x y] |]; [| by rewrite len_replicate].
  by rewrite len_app, !bn_to_big_endian.
Qed.

Lemma write_start input : br_write [] 0 input = input.
Proof. by rewrite write_nil by done. Qed.

Lemma write_after_zeros input : br_write (br_write [] 0 (replicate 12 x00)) 12 input = replicate 12 x00 ++ input.
Proof. rewrite write_start, br_write_extends by done. done. Qed.

Lemma map_err_returns {A} (o : option A) e (Q : A -> Prop) : (forall a, Q a) -> rwp (map_err o e) Q (fun _ => True).
Proof. intros HQ. destruct o; [apply HQ | done]. Qed.

Lemma or_map_err_returns {A} (b : bool) a (o : option A) e :
  rwp (if b then Ok a else map_err o e) (fun _ => True) (fun _ => True).
Proof. destruct b; [done | by apply map_err_returns]. Qed.

Lemma read_point_returns reader : rwp (read_point reader) (fun _ => True) (fun _ => True).
Proof.
  unfold read_point. destruct (read_exact 32 reader) as [b1 r1]. apply rwp_bind, map_err_returns. intros px.
  destruct (read_exact 32 r1) as [b2 r2]. apply rwp_bind, map_err_returns. intros py.
  destruct (_ && _); [done |]. by apply rwp_bind, map_err_returns.
Qed.

Lemma read_fr_returns reader : rwp (read_fr reader) (fun _ => True) (fun _ => True).
Proof. unfold read_fr. destruct (read_exact 32 reader) as [b r]. by apply rwp_bind, map_err_returns. Qed.

Lemma bn128_add_returns input : returns_bytes (bn128_add_execute input []).
Proof.
  apply rwp_bind. eapply rwp_mono; [apply read_point_returns | | done]. intros [p1 r1] _.
  apply rwp_bind. eapply rwp_mono; [apply read_point_returns | | done]. intros [p2 r2] _.
  cbn [rwp]. rewrite write_start. apply short_wf. by rewrite len_write_point.
Qed.

Lemma bn128_mul_returns input : returns_bytes (bn128_mul_execute input []).
Proof.
  apply rwp_bind. eapply rwp_mono; [apply read_point_returns | | done]. intros [p1 r1] _.
  apply rwp_bind. eapply rwp_mono; [apply read_fr_returns | | done]. intros [fr r2] _.
  cbn [rwp]. rewrite write_start. apply short_wf. by rewrite len_write_point.
Qed.

Lemma pairing_element_returns input idx :
  0 <= idx -> idx * 192 + 192 <= len input -> rwp (pairing_element input idx) (fun _ => True) (fun _ => True).
Proof.
  intros Hi Hl. unfold pairing_element.
  assert (Hc : forall k e, 0 <= k <= 160 -> rwp (let? s := unwrap (slice input (idx * 192 + k) (idx * 192 + k + 32)) in
    map_err (Fq_from_slice s) e) (fun _ => True) (fun _ => True)).
  { intros k e Hk. rewrite slice_Some by lia. cbn [unwrap result_bind]. by apply map_err_returns. }
  do 6 (apply rwp_bind; eapply rwp_mono; [apply Hc; lia | intros ? _ | done]).
  do 2 (apply rwp_bind; eapply rwp_mono; [apply or_map_err_returns | intros ? _ | done]). done.
Qed.

Lemma pairing_elements_returns input n idx :
  0 <= idx -> (idx + Z.of_nat n) * 192 <= len input ->
  rwp (pairing_elements input n idx) (fun _ => True) (fun _ => True).
Proof.
  revert idx. induction n as [| n IH]; intros idx Hi Hl; cbn [pairing_elements]; [done |].
  apply rwp_bind. eapply rwp_mono; [apply pairing_element_returns; lia | intros ? _ | done].
  apply rwp_bind. eapply rwp_mono; [apply IH; lia | done | done].
Qed.

Lemma pairing_returns input : returns_bytes (pairing_execute input []).
Proof.
  unfold pairing_execute. destruct (negb _); [done |]. apply rwp_bind.
  assert (Hend : forall r, returns_bytes (Ok (br_write [] 0 (to_be 32 r)) : builtin_result)).
  { intros r. cbn [rwp]. rewrite write_start. apply short_wf. by rewrite len_to_be. }
  destruct (len input =? 0); [apply Hend |]. pose proof (len_nonneg input).
  apply rwp_bind. eapply rwp_mono; [apply pairing_elements_returns; [done |] | | done].
  - rewrite Z.add_0_l, Z2Nat.id by (by apply Z.div_pos). pose proof (Z.mul_div_le (len input) 192). lia.
  - intros vals _. apply Hend.
Qed.

Lemma ecrecover_returns input : returns_bytes (ecrecover_execute keccak input []).
Proof.
  unfold ecrecover_execute.
  rewrite copy_at_Some by (rewrite ?len_replicate; unfold len; rewrite ?length_take; lia). cbn [unwrap result_bind].
  match goal with |- context[slice ?l 0 32] => set (buf := l) end.
  assert (El : len buf = 128).
  { rewrite (len_copy_at (replicate 128 x00) (take 128 input) buf 0); [by rewrite len_replicate |].
    by rewrite copy_at_Some by (rewrite ?len_replicate; unfold len; rewrite ?length_take; lia). }
  rewrite !slice_Some by lia. cbn [unwrap result_bind]. set (v := take (Z.to_nat (64 - 32)) _).
  destruct (index v 31) as [v31 |] eqn:E31; cbn [unwrap result_bind]; cycle 1.
  { exfalso. unfold index in E31. apply lookup_ge_None in E31. unfold v in E31. rewrite length_take, length_drop in E31.
    unfold len in El. lia. }
  destruct (if _ : bool then _ else _) as [bit |]; [| by apply short_wf].
  destruct (signature_is_valid _); [| by apply short_wf]. destruct (secp_recover _ _) as [p |]; [| by apply short_wf].
  cbn [rwp]. rewrite write_after_zeros. apply short_wf. rewrite len_app, len_replicate. unfold len. rewrite length_take. lia.
Qed.

Lemma length_compress h m t f rounds : length (compress h m t f rounds) = 8%nat.
Proof. unfold compress. by rewrite length_fmap, length_seq. Qed.

Lemma blake2f_returns input : returns_bytes (blake2f_execute input []).
Proof.
  unfold blake2f_execute. destruct (negb _); [done |]. apply rwp_bind.
  assert (Hend : forall h, length h = 8%nat ->
    returns_bytes (Ok (br_write [] 0 (concat ((fun word => rev (to_be 8 word)) <$> h))) : builtin_result)).
  { intros h Hh. cbn [rwp]. rewrite write_start. apply short_wf.
    do 9 (destruct h as [| ? h]; try done). }
  destruct (list.last input) as [[] |]; try done; apply Hend, length_compress.
Qed.

(** Lengths that can be paid for can be read. *)
Lemma modexp_returns input :
  (modexp_size input 0 = 0 /\ modexp_size input 2 = 0) \/
  (modexp_size input 0 < 2 ^ 31 /\ modexp_size input 1 < 2 ^ 31 /\ modexp_size input 2 < 2 ^ 31) ->
  returns_bytes (modexp_execute input []).
Proof.
  intros [[E0 E2] | (H0' & H1' & H2')].
  - pose proof (modexp_size_small input 0 ltac:(done) ltac:(by rewrite E0)) as L0. rewrite E0 in L0.
    pose proof (modexp_size_small input 2 ltac:(done) ltac:(by rewrite E2)) as L2. rewrite E2 in L2.
    pose proof (read_len input 0 ltac:(done)) as [R0 M0]. change (drop (Z.to_nat (32 * 0)) input) with input in R0.
    pose proof (read_len input 1 ltac:(done)) as [R1 _]. pose proof (read_len input 2 ltac:(done)) as [R2 M2].
    unfold modexp_execute. rewrite R0. cbv beta iota zeta. rewrite M0, L0. change (0 + 1) with 1. rewrite R1.
    cbv beta iota. change (1 + 1) with 2. rewrite R2. cbv beta iota. rewrite M2, L2. cbn [Z.eqb andb result_bind].
    rewrite bu_zero. by apply short_wf.
  - rewrite modexp_execute_value by (rewrite modexp_size_small by lia; lia). cbn [rwp]. unfold wf_bytes. rewrite len_to_be.
    rewrite modexp_size_small by lia. lia.
Qed.

Lemma wf_modexp at_ : wf_builtin (Builtin_new keccak (ModexpPricer 20) ModexpImpl at_).
Proof.
  intros data Hd. destruct (modexp_cost_ok 20 data ltac:(done)) as (c & Ec & Hc & Hp).
  exists c. split_and!; [done | done |]. intros Hlt. apply modexp_returns, Hp, Hlt.
Qed.

Lemma wf_blake2 at_ : wf_builtin (Builtin_new keccak (Blake2FPricer 1) Blake2FImpl at_).
Proof.
  intros data Hd. destruct (blake2_cost_ok data) as (c & Ec & Hc). exists c. split_and!; [done | lia |].
  intros _. apply blake2f_returns.
Qed.

Lemma wf_pairing at_ : wf_builtin (Builtin_new keccak (AltBn128PairingPricer 100000 80000) Bn128PairingImpl at_).
Proof.
  intros data Hd. eexists. split; [by apply pairing_cost_ok |]. pose proof (len_nonneg data).
  pose proof (Z.div_pos (len data) 192). split; [lia |]. intros _. apply pairing_returns.
Qed.

Lemma wf_linear base word native at_ :
  0 <= base < 2 ^ 32 -> 0 <= word < 2 ^ 32 ->
  (forall data, wf_bytes data -> returns_bytes (impl_execute keccak native data [])) ->
  wf_builtin (Builtin_new keccak (Linear base word) native at_).
Proof.
  intros Hb Hw Hr data Hd. eexists. split; [by apply linear_cost_ok |]. pose proof (len_nonneg data).
  pose proof (Z.div_pos (len data + 31) 32). split; [| intros _; by apply Hr].
  apply Z.add_nonneg_nonneg; [lia |]. apply Z.mul_nonneg_nonneg; lia.
Qed.

Lemma insert_builtins_ok l btree :
  (forall a b, btree !! a = Some b -> wf_builtin b) ->
  (forall a pricer name at_, (a, pricer, name, at_) ∈ l ->
     exists native, builtin_factory name = Ok native /\ wf_builtin (Builtin_new keccak pricer native at_)) ->
  exists m, insert_builtins keccak l btree = Ok m /\ forall a b, m !! a = Some b -> wf_builtin b.
Proof.
  revert btree. induction l as [| [[[a pricer] name] at_] l IH]; intros btree Hm Hl; cbn [insert_builtins].
  { by exists btree. }
  destruct (Hl a pricer name at_ ltac:(by left)) as (native & -> & Hn). cbn [result_bind].
  apply IH; [| intros; apply (Hl a0); by right].
  intros a' b [[_ <-] | [_ ?]]%lookup_insert_Some; [done | by eapply Hm].
Qed.

Lemma insert_builtins_dom l btree m :
  insert_builtins keccak l btree = Ok m -> dom m = list_to_set (l.*1.*1.*1) ∪ dom btree.
Proof.
  revert btree m. induction l as [| [[[a pricer] name] at_] l IH]; intros btree m; cbn [insert_builtins].
  - intros [= <-]. cbn [fmap list_fmap list_to_set]. by rewrite union_empty_l_L.
  - destruct (builtin_factory name) as [native | |]; cbn [result_bind]; try done. intros Hm%IH.
    rewrite Hm, dom_insert_L. cbn [fmap list_fmap fst list_to_set]. set_solver.
Qed.

Lemma builtin_map_ok cip62 cip92 :
  exists m, new_builtin_map keccak cip62 cip92 = Ok m /\ dom m = list_to_set [1; 2; 3; 4; 5; 6; 7; 8; 9] /\
    forall a b, m !! a = Some b -> wf_builtin b.
Proof.
  destruct (insert_builtins_ok (builtin_specs cip62 cip92) ∅) as (m & Em & Hm).
  - intros a b. by rewrite lookup_empty.
  - intros a pricer name at_ Hin. unfold builtin_specs in Hin.
    repeat (apply elem_of_cons in Hin as [[= -> -> -> ->] | Hin]; [eexists; split; [by vm_compute |] |]);
      [.. | by apply not_elem_of_nil in Hin];
      first [apply wf_modexp | apply wf_blake2 | apply wf_pairing | apply wf_linear; [done | done |]].
    + intros data _. apply ecrecover_returns.
    + intros data _. cbn. rewrite write_start. apply short_wf. by rewrite dg_sha256.
    + intros data _. cbn. rewrite write_after_zeros. apply short_wf. by rewrite len_app, len_replicate, dg_ripemd160.
    + intros data Hd. cbn. by rewrite write_start.
    + intros data _. apply bn128_add_returns.
    + intros data _. apply bn128_mul_returns.
  - exists m. split_and!; [done | | done].
    by rewrite (insert_builtins_dom _ _ _ Em), dom_empty_L, union_empty_r_L.
Qed.
(** C17. Making the table of builtin contracts does not panic, and every builtin in it has a price
    on every input, computed without overflow, and on every input whose price fits in 64 bits it
    returns, with an output or an error: reading past the end of the input, the lengths in the
    header of a modular exponentiation, the points of a pairing and the parameters of the
    compression function of BLAKE2b lead to no panic. *)
Theorem builtins_return cip62 cip92 :
  exists m, new_builtin_map keccak cip62 cip92 = Ok m /\ dom m = list_to_set [1; 2; 3; 4; 5; 6; 7; 8; 9] /\
    forall a b, m !! a = Some b -> wf_builtin b.
Proof. apply builtin_map_ok. Qed.
End table.

(** ** Instances *)

#[local] Instance growing_bytes : BytesRef := fun out offset input =>
  take (Z.to_nat offset) (out ++ replicate (Z.to_nat (offset - len out)) x00) ++ input ++
  drop (Z.to_nat (offset + len input)) out.

#[local] Instance growing_bytes_laws : BytesRefLaws.
Proof.
  intros out offset input Hl. unfold br_write, growing_bytes. unfold len in *.
  rewrite take_ge by (rewrite length_app, length_replicate; lia).
  rewrite (drop_ge out) by lia. by rewrite app_nil_r, <- app_assoc.
Qed.

#[local] Instance shortest_bytes : BigUintBytes := fun n => to_be (Z.to_nat (Z.log2 n / 8 + 1)) n.

#[local] Instance shortest_bytes_laws : BigUintLaws.
Proof.
  assert (Hlog : forall n, 0 <= Z.log2 n / 8) by (intros; apply Z.div_pos; [apply Z.log2_nonneg | done]).
  split.
  - intros n Hn. unfold to_bytes_be, shortest_bytes. rewrite be_to_Z_to_be. specialize (Hlog n).
    rewrite Z2Nat.id by lia. apply Z.mod_small. split; [done |].
    destruct (decide (n = 0)) as [-> |]; [done |]. change 256 with (2 ^ 8). rewrite <- Z.pow_mul_r by lia.
    apply Z.log2_lt_pow2; [lia |]. pose proof (Z.mul_succ_div_gt (Z.log2 n) 8). lia.
  - done.
  - intros n Hn. unfold to_bytes_be, shortest_bytes. specialize (Hlog n). rewrite len_to_be, Z2Nat.id by lia.
    replace (Z.log2 n / 8 + 1 - 1) with (Z.log2 n / 8) by lia. change 256 with (2 ^ 8). rewrite <- Z.pow_mul_r by lia.
    transitivity (2 ^ Z.log2 n); [| by apply Z.log2_spec].
    apply Z.pow_le_mono_r; [lia |]. pose proof (Z.mul_div_le (Z.log2 n) 8). lia.
Qed.

(** 3 to the power of 5 modulo 100, in numbers of 1, 1 and 2 bytes. *)
Definition modexp_input : list byte :=
  to_be 32 1 ++ to_be 32 1 ++ to_be 32 2 ++ [x03] ++ [x05] ++ to_be 2 100.

Lemma modexp_eip198_witness : modexp_execute modexp_input [] = Ok (to_be 2 43) /\ power_mod 3 5 100 = 43.
Proof.
  split; [| done].
  apply (modexp_eip198 modexp_input); vm_compute; reflexivity.
Defined.

(** The test vector of EIP-152 in blake2f.rs: the hash of the bytes abc. *)
Definition blake2_state : list Z := [
  0x6A09E667F2BDC948; 0xBB67AE8584CAA73B; 0x3C6EF372FE94F82B; 0xA54FF53A5F1D36F1;
  0x510E527FADE682D1; 0x9B05688C2B3E6C1F; 0x1F83D9ABFB41BD6B; 0x5BE0CD19137E2179
].

Lemma blake2_test_vector :
  compress blake2_state (0x636261 :: replicate 15 0) [3; 0] true 12 = [
    0x0D4D1C983FA580BA; 0xE9F6129FB697276A; 0xB7C45A68142F214C; 0xD1A2FFDB6FBB124B;
    0x2D79AB2A39C5877D; 0x95CC3345DED552C2; 0x5A92F1DBA88AD318; 0x239900D4ED8623B9
  ].
Proof. vm_compute. reflexivity. Qed.

(** Functions of the right sizes, for the table. *)
#[local] Instance sized_digest : Digest := {|
  sha256 := fun _ => replicate 32 x00;
  ripemd160 := fun _ => replicate 20 x00;
  secp_recover := fun _ _ => None;
|}.

#[local] Instance sized_digest_laws : DigestLaws.
Proof. by split. Qed.

#[local] Instance trivial_bn : Bn := {|
  Fq := unit; Fr := unit; G1 := unit; Fq2 := unit; G2 := unit; Gt := unit;
  Fq_from_slice := fun _ => Some tt;
  Fq_is_zero := fun _ => true;
  Fq_to_big_endian := fun _ => replicate 32 x00;
  Fr_from_slice := fun _ => Some tt;
  G1_zero := tt;
  G1_add := fun _ _ => tt;
  G1_mul := fun _ _ => tt;
  AffineG1_new := fun _ _ => None;
  AffineG1_from_jacobian := fun _ => Some (tt, tt);
  Fq2_new := fun _ _ => tt;
  Fq2_is_zero := fun _ => true;
  G2_zero := tt;
  AffineG2_new := fun _ _ => None;
  Gt_one := tt;
  Gt_mul := fun _ _ => tt;
  Gt_eqb := fun _ _ => true;
  bn_pairing := fun _ _ => tt;
|}.

#[local] Instance trivial_bn_laws : BnLaws.
Proof. by intros []. Qed.

Lemma builtins_return_witness :
  exists m, new_builtin_map (fun _ => 0) 0 0 = Ok m /\ dom m = list_to_set [1; 2; 3; 4; 5; 6; 7; 8; 9] /\
    forall a b, m !! a = Some b -> wf_builtin b.
Proof. apply (builtins_return (fun _ => 0) 0 0). Defined.
