(* ===== verification/WorldLaws.v ===== *)
(** * The world state under the frames

    The world state of [WorldState] and its specification [WorldSpec] as the state frames run
    over: both satisfy [FrameStateLaws], with whole copies of the world as views. Nonces and
    balances do not wrap, because a nonce moves by one at a time and because the balances of all
    accounts together stay below a bound: what an operation adds to an account was taken from
    another one.

    The laws are shown of the specification, and carried over to the implementation by the
    simulation of [WorldSpec]. *)

From stdpp Require Import gmap strings.
From S2P Require Import Prelude Word Arith SharedCache VmTypes FrameContext StateDb WorldState WorldSpec WorldTypes.
From S2P Require Import Gasometer Interpreter Frames FrameStack.
Local Open Scope Z_scope.

(** ** A state that runs commands *)

Definition db_message (e : DbError) : string :=
  match e with
  | DbAccount => "account"
  | DbStorage => "storage"
  | DbDecoder => "decoder"
  | IncompleteDatabase _ => "incomplete database"
  end.

(** [From<DbError> for vm::Error] *)
Definition vm_of {A} (r : db_result A) : vm_result A :=
  match r with
  | Ok a => Ok a
  | Err e => Err (StateDbError (db_message e))
  | Panic => Panic
  end.

Section executor.
Context {S : Type} (exec : Cmd -> M DbError (S * gset Z) Answer).

(** The answer to a read. What a read leaves in the cache cannot be observed. *)
Definition ask (c : Cmd) (s : S) : vm_result Answer := vm_of (exec c (s, ∅)).1.

Definition perform (c : Cmd) : M Error S unit := fun s =>
  let '(r, p) := exec c (s, ∅) in (let? _ := vm_of r in Ok tt, p.1).

Definition perform_touching (c : Cmd) : M Error (S * gset Z) unit := fun p =>
  let '(r, p) := exec c p in (let? _ := vm_of r in Ok tt, p).

Definition to_num (a : Answer) : vm_result Z := match a with ANum z => Ok z | _ => Panic end.
Definition to_bool (a : Answer) : vm_result bool := match a with ABool b => Ok b | _ => Panic end.
Definition to_opt (a : Answer) : vm_result (option Z) := match a with AOptNum o => Ok o | _ => Panic end.
Definition to_bytes (a : Answer) : vm_result (option (list byte)) := match a with ABytes o => Ok o | _ => Panic end.

Definition cmd_state : StateOps S := {|
  st_balance s a := result_bind (ask (CBalance a) s) to_num;
  st_nonce s a := result_bind (ask (CNonce a) s) to_num;
  st_code_hash s a := result_bind (ask (CCodeHash a) s) to_opt;
  st_code_size s a := result_bind (ask (CCodeSize a) s) to_opt;
  st_code s a := result_bind (ask (CCode a) s) to_bytes;
  st_exists s a := result_bind (ask (CExists a) s) to_bool;
  st_exists_and_not_null s a := result_bind (ask (CExistsAndNotNull a) s) to_bool;
  st_storage_at s a k := result_bind (ask (CStorageAt a k) s) to_num;
  st_set_storage a k v := perform (CSetStorage a k v);
  st_init_code a code := perform (CInitCode a code);
  st_inc_nonce a start := perform (CIncNonce a start);
  st_sub_balance a v m := perform_touching (CSubBalance a v m);
  st_transfer_balance a a' v m start := perform_touching (CTransferBalance a a' v m start);
  st_subtract_total_issued v s := (perform (CSubtractTotalIssued v) s).2;
|}.

Definition cmd_frame_state : FrameState S := {|
  st_checkpoint s := (perform CCheckpoint s).2;
  st_discard_checkpoint s := (perform CDiscardCheckpoint s).2;
  st_revert_to_checkpoint := perform CRevertToCheckpoint;
  st_new_contract a v n layout := perform (CNewContract a v n layout);
  st_add_balance a v m start := perform_touching (CAddBalance a v m start);
  st_remove_contract a := perform (CRemoveContract a);
|}.

(** *** From the database's results to the virtual machine's *)

Lemma perform_wp c s (Q : S -> Prop) (R : S -> Prop) :
  wp (exec c) (s, ∅) (fun _ p => Q p.1) (fun _ p => R p.1) -> wp (perform c) s (fun _ => Q) (fun _ => R).
Proof. unfold wp, perform. by destruct (exec c (s, ∅)) as [[] p]. Qed.

Lemma touching_wp c p (Q : S -> Prop) (R : S -> Prop) :
  wp (exec c) p (fun _ p => Q p.1) (fun _ p => R p.1) ->
  wp (perform_touching c) p (fun _ p => Q p.1) (fun _ p => R p.1).
Proof. unfold wp, perform_touching. by destruct (exec c p) as [[] q]. Qed.

Lemma vm_of_error {A} (r : db_result A) e : vm_of r = Err e -> db_error e.
Proof. destruct r; cbn; try done. intros [= <-]. by eexists. Qed.

Lemma perform_errors c : only_db_errors (perform c).
Proof.
  intros s e s'. unfold perform. destruct (exec c (s, ∅)) as [[] p]; cbn; try done. intros [= <- _]. by eexists.
Qed.

Lemma touching_errors c : only_db_errors (perform_touching c).
Proof.
  intros s e s'. unfold perform_touching. destruct (exec c s) as [[] p]; cbn; try done.
  intros [= <- _]. by eexists.
Qed.
End executor.

(** ** The simulation carries the laws over *)

Section carry.
Context {S S' : Type} (exec : Cmd -> M DbError (S * gset Z) Answer).
Context (exec' : Cmd -> M DbError (S' * gset Z) Answer) (R : S -> S' -> Prop).
Context (Hsim : forall c, sim (fun p q => R p.1 q.1 /\ p.2 = q.2) (exec c) (exec' c)).

Lemma ask_sim c s s' : R s s' -> ask exec c s = ask exec' c s'.
Proof.
  intros HR. unfold ask. pose proof (Hsim c (s, ∅) (s', ∅) (conj HR eq_refl)) as Ho. unfold outcome in Ho.
  destruct (exec c (s, ∅)) as [[] ?], (exec' c (s', ∅)) as [[] ?]; try done; by destruct Ho as [-> _].
Qed.

Lemma perform_sim c s s' (Q E : S' -> Prop) :
  R s s' -> wp (perform exec' c) s' (fun _ => Q) (fun _ => E) ->
  wp (perform exec c) s (fun _ t => exists t', R t t' /\ Q t') (fun _ t => exists t', R t t' /\ E t').
Proof.
  intros HR. unfold wp, perform. pose proof (Hsim c (s, ∅) (s', ∅) (conj HR eq_refl)) as Ho. unfold outcome in Ho.
  destruct (exec c (s, ∅)) as [[] p], (exec' c (s', ∅)) as [[] p']; try done; destruct Ho as (-> & Ho & _); cbn; by eexists.
Qed.

Lemma touching_sim c s s' t (Q E : S' -> Prop) :
  R s s' -> wp (perform_touching exec' c) (s', t) (fun _ p => Q p.1) (fun _ p => E p.1) ->
  wp (perform_touching exec c) (s, t) (fun _ p => exists t', R p.1 t' /\ Q t') (fun _ p => exists t', R p.1 t' /\ E t').
Proof.
  intros HR. unfold wp, perform_touching. pose proof (Hsim c (s, t) (s', t) (conj HR eq_refl)) as Ho. unfold outcome in Ho.
  destruct (exec c (s, t)) as [[] p], (exec' c (s', t)) as [[] p']; try done; destruct Ho as (-> & Ho & _); cbn; by eexists.
Qed.

(** The result of a command that cannot fail. *)
Lemma perform_state_sim c s s' :
  R s s' -> (perform exec' c s').1 = Ok tt -> R (perform exec c s).2 (perform exec' c s').2.
Proof.
  intros HR. unfold perform. pose proof (Hsim c (s, ∅) (s', ∅) (conj HR eq_refl)) as Ho. unfold outcome in Ho.
  destruct (exec c (s, ∅)) as [[] p], (exec' c (s', ∅)) as [[] p']; try done; by destruct Ho as (-> & Ho & _).
Qed.
End carry.

(** ** Widths *)

(** An address is an [H160] and a value a [U256] of the source: a command takes them at their
    width. *)
Definition h160 (a : Z) : Z := a mod 2 ^ 160.
Definition u256 (v : Z) : Z := v mod 2 ^ 256.

Definition at_width (c : Cmd) : Cmd :=
  match c with
  | CBalance a => CBalance (h160 a)
  | CNonce a => CNonce (h160 a)
  | CCodeHash a => CCodeHash (h160 a)
  | CCodeSize a => CCodeSize (h160 a)
  | CCode a => CCode (h160 a)
  | CIsContractWithCode a => CIsContractWithCode (h160 a)
  | CExists a => CExists (h160 a)
  | CExistsAndNotNull a => CExistsAndNotNull (h160 a)
  | CStorageAt a k => CStorageAt (h160 a) k
  | CNewContract a b n layout => CNewContract (h160 a) (u256 b) (u256 n) layout
  | CRemoveContract a => CRemoveContract (h160 a)
  | CCleanAccount a => CCleanAccount (h160 a)
  | CInitCode a code => CInitCode (h160 a) code
  | CIncNonce a n => CIncNonce (h160 a) (u256 n)
  | CSetNonce a n => CSetNonce (h160 a) (u256 n)
  | CSubBalance a v m => CSubBalance (h160 a) (u256 v) m
  | CAddBalance a v m n => CAddBalance (h160 a) (u256 v) m (u256 n)
  | CTransferBalance a a' v m n => CTransferBalance (h160 a) (h160 a') (u256 v) m (u256 n)
  | CSetStorage a k v => CSetStorage (h160 a) k (u256 v)
  | CAddTotalIssued v => CAddTotalIssued (u256 v)
  | CSubtractTotalIssued v => CSubtractTotalIssued (u256 v)
  | CTotalIssuedTokens | CCheckpoint | CDiscardCheckpoint | CRevertToCheckpoint => c
  end.

Lemma h160_word a : is_word 160 (h160 a).
Proof. apply Z.mod_pos_bound. lia. Qed.

Lemma u256_word v : is_u256 (u256 v).
Proof. apply Z.mod_pos_bound. lia. Qed.

Lemma h160_id a : is_word 160 a -> h160 a = a.
Proof. apply Z.mod_small. Qed.

Lemma u256_id v : 0 <= v < 2 ^ 256 -> u256 v = v.
Proof. apply Z.mod_small. Qed.

Lemma small_word v : small v -> 0 <= v < 2 ^ 256.
Proof. unfold small. lia. Qed.

Lemma at_width_typed c : typed_cmd (at_width c).
Proof. destruct c; cbn; split_and?; try done; first [apply h160_word | apply u256_word]. Qed.

(** Commands run at their width. *)
Definition exec_width {S} (exec : Cmd -> M DbError (S * gset Z) Answer) (c : Cmd) : M DbError (S * gset Z) Answer :=
  exec (at_width c).

(** ** Supply *)

Definition bal (w : World) (a : Z) : Z := match w a with Ok (Some x) => a_balance x | _ => 0 end.

Fixpoint total (w : World) (l : list Z) : Z :=
  match l with [] => 0 | a :: l => bal w a + total w l end.

(** The accounts hold at most [B] between them. *)
Definition supply_below (B : Z) (w : World) : Prop :=
  forall l, base.NoDup l -> Forall is_address l -> total w l <= B.

Lemma bal_upd a x w b : bal (world_upd a x w) b = if decide (b = a) then a_balance x else bal w b.
Proof. unfold bal, world_upd. by destruct (decide (b = a)). Qed.

Lemma total_upd_notin a x w l : a ∉ l -> total (world_upd a x w) l = total w l.
Proof.
  induction l as [| b l IH]; cbn; [done |]. rewrite not_elem_of_cons. intros [Hb Hl].
  rewrite bal_upd, decide_False, IH by done. done.
Qed.

Lemma total_upd_in a x w l :
  base.NoDup l -> a ∈ l -> total (world_upd a x w) l = total w l + a_balance x - bal w a.
Proof.
  induction 1 as [| b l Hb Hl IH]; [by intros ?%not_elem_of_nil |]. cbn. rewrite elem_of_cons, bal_upd.
  destruct (decide (b = a)) as [-> |]; intros Ha.
  - rewrite total_upd_notin by done. lia.
  - destruct Ha as [-> | Ha]; [done |]. rewrite IH by done. lia.
Qed.

Lemma supply_upd B a x w :
  supply_below B w -> is_address a -> 0 <= a_balance x -> supply_below (B + a_balance x - bal w a) (world_upd a x w).
Proof.
  intros HB Haddr Hx l Hl Hal. destruct (decide (a ∈ l)) as [Ha | Ha].
  - rewrite total_upd_in by done. specialize (HB l Hl Hal). lia.
  - rewrite total_upd_notin by done. assert (Hl' : base.NoDup (a :: l)) by by apply list.NoDup_cons.
    assert (Hal' : Forall is_address (a :: l)) by by apply list.Forall_cons.
    specialize (HB (a :: l) Hl' Hal'). cbn in HB. lia.
Qed.

Lemma supply_mono B B' w : supply_below B w -> B <= B' -> supply_below B' w.
Proof. intros HB Hle l Hl Hal. specialize (HB l Hl Hal). lia. Qed.

Lemma supply_bal B w a : supply_below B w -> is_address a -> bal w a <= B.
Proof.
  intros HB Ha. assert (Hl : base.NoDup [a]) by (apply list.NoDup_singleton).
  assert (Hal : Forall is_address [a]) by (by apply list.Forall_singleton).
  specialize (HB [a] Hl Hal). cbn in HB. lia.
Qed.

(** ** Worlds with room *)

(** An account whose nonce can be incremented [n] more times. *)
Record sound (n : nat) (x : Acct) : Prop := {
  so_typed : typed_acct x;
  so_nonce : a_nonce x + Z.of_nat n < 2 ^ 256;
  so_code : returns (fun o => wf_bytes (default [] o)) (a_code x);
}.

Record funded (B : Z) (n : nat) (w : World) : Prop := {
  fu_sound : forall a, returns (fun o => forall x, o = Some x -> sound n x) (w a);
  fu_supply : supply_below B w;
}.

(** The current world, below [C], and the saved ones, below [B]. *)
Record worthy (B C : Z) (n : nat) (s : Snapshots) : Prop := {
  wo_bound : C <= B < 2 ^ 256;
  wo_level : Z.of_nat n + 0x40000000 < 2 ^ 256;
  wo_cur : funded C n (cur s);
  wo_saved : Forall (fun p => funded B n p.1) (saved s);
}.

(** The state shows the world and the tokens issued, and has saved others. *)
Definition world_at (B : Z) (n : nat) (v : World * Z) (sv : list (World * Z)) (s : Snapshots) : Prop :=
  (cur s, tokens s) = v /\ saved s = sv /\ worthy B B n s.

Abbreviation world_inv B sv n := (fun s : Snapshots => exists v, world_at B n v sv s).

Lemma world_inv_iff B sv n s : world_inv B sv n s <-> saved s = sv /\ worthy B B n s.
Proof. split; [by intros (v & _ & H) | intros H; by exists (cur s, tokens s)]. Qed.

Lemma sound_mono n m x : sound n x -> (m <= n)%nat -> sound m x.
Proof. intros [] Hle. split; [done | lia | done]. Qed.

Lemma funded_mono B n m w : funded B n w -> (m <= n)%nat -> funded B m w.
Proof.
  intros [Hs Hb] Hle. split; [| done]. intros a. unfold returns. eapply rwp_mono; [apply Hs | | done].
  intros o Ho x Hx. eapply sound_mono; [by apply Ho | done].
Qed.

Lemma worthy_mono B C n m s : worthy B C n s -> (m <= n)%nat -> worthy B C m s.
Proof.
  intros [] Hle. split; [done | lia | by eapply funded_mono |].
  eapply list.Forall_impl; [exact wo_saved0 |]. intros p Hp. eapply funded_mono; [exact Hp | exact Hle].
Qed.

Lemma put_worthy B C C' n s a x :
  worthy B C n s -> is_address a -> sound n x -> C + a_balance x - bal (cur s) a <= C' <= B ->
  worthy B C' n (set_world (world_upd a x (cur s)) s).
Proof.
  intros [Hb Hl [Hs Hsup] Hsv] Ha Hx Hle. split; cbn; try done; [lia |]. split.
  - intros b. unfold world_upd. destruct (decide (b = a)); [by intros y [= <-] | apply Hs].
  - eapply supply_mono; [apply supply_upd; [done | done |] | apply Hle]. apply (tx_balance _ (so_typed _ _ Hx)).
Qed.

Lemma lookup_sound B C n s a :
  worthy B C n s -> match cur s a with
                  | Ok (Some x) => sound n x /\ bal (cur s) a = a_balance x /\ is_u256 (a_balance x)
                  | Ok None => bal (cur s) a = 0
                  | Err _ => True
                  | Panic => False
                  end.
Proof.
  intros [_ _ [Hs _] _]. specialize (Hs a). unfold returns, bal in *.
  destruct (cur s a) as [[x |] | e |]; cbn in Hs; try done.
  pose proof (Hs x eq_refl) as Hx. split_and!; [done | done |]. apply (tx_balance _ (so_typed _ _ Hx)).
Qed.

(** ** The laws of the specification *)

Section spec_laws.
Context (keccak : list byte -> Z) (Hkeccak : typed_keccak keccak).
Context `{Rlp} {T : Type} {ST : StorageTrait OwnedStateKey T} (db : T).
Context (Hdb : typed_db db) (Hcalm : calm_db db).

Abbreviation exec := (exec_width (spec_cmd keccak db)).
Local Instance spec_state : StateOps Snapshots := cmd_state exec.
Local Instance spec_frame_state : FrameState Snapshots := cmd_frame_state exec.

Lemma empty_sound n a b k l new inv :
  is_u256 b -> 0 <= k -> k + Z.of_nat n < 2 ^ 256 -> sound n (empty_acct db a b k l new inv).
Proof.
  intros Hb Hk Hn. split; [| done |].
  - apply empty_acct_typed; [done | done | done | split; lia].
  - cbn. unfold wf_bytes. by rewrite len_nil.
Qed.

(** *** Reads *)

Lemma spec_balance s a :
  st_balance s a = vm_of (let? o := cur s (h160 a) in Ok (match o with Some x => a_balance x | None => 0 end)).
Proof.
  cbn. unfold ask, exec_width. cbn. unfold on_world, spec_read, bind, spec_lookup. cbn. by destruct (cur s (h160 a)).
Qed.

Lemma balance_affordable B C n s a v :
  worthy B C n s -> affordable s a v ->
  v = 0 \/ exists x, cur s (h160 a) = Ok (Some x) /\ 0 <= v <= a_balance x.
Proof.
  intros Hw [-> | (b & Eb & Hv)]; [by left |]. rewrite spec_balance in Eb.
  destruct (cur s (h160 a)) as [[x |] | |]; cbn in Eb; simplify_eq; [right; by exists x | left; lia].
Qed.

(** What can be paid is a word. *)
Lemma affordable_word B C n s a v : worthy B C n s -> affordable s a v -> 0 <= v < 2 ^ 256.
Proof.
  intros Hw Ha. destruct (balance_affordable _ _ _ _ _ _ Hw Ha) as [-> | (x & Ex & Hv)]; [lia |].
  pose proof (lookup_sound _ _ _ _ (h160 a) Hw) as Hl. rewrite Ex in Hl. destruct Hl as (_ & _ & [? ?]). lia.
Qed.

(** *** Changes *)

Abbreviation after sv B C n := (fun (_ : unit) (p : Snapshots * gset Z) => saved p.1 = sv /\ worthy B C n p.1).
Abbreviation failed sv B C n := (fun (_ : DbError) (p : Snapshots * gset Z) => saved p.1 = sv /\ worthy B C n p.1).

Lemma change_wp B C C' n a d f s t :
  worthy B C n s -> is_address a -> d <> Panic ->
  (forall x, (sound n x /\ a_balance x = bal (cur s) a) \/ (d = Ok x /\ bal (cur s) a = 0) ->
     rwp (f x) (fun y => sound n y /\ C + a_balance y - bal (cur s) a <= C' <= B) (fun _ => True)) ->
  wp (on_world (spec_change a d f)) (s, t) (after (saved s) B C' n) (failed (saved s) B C n).
Proof.
  intros Hw Ha Hd Hf. unfold wp, on_world, spec_change, bind, spec_lookup, lift. cbn [fst snd].
  pose proof (lookup_sound _ _ _ _ a Hw) as Hl. destruct (cur s a) as [[x |] | e |] eqn:E; cbn; try done.
  - destruct Hl as (Hx & Hb & _). specialize (Hf x (or_introl (conj Hx (eq_sym Hb)))).
    destruct (f x) as [y | |]; cbn in *; [| done | done]. destruct Hf. split; [done | by eapply put_worthy].
  - destruct d as [x | |]; cbn; [| done | done]. specialize (Hf x (or_intror (conj eq_refl Hl))).
    destruct (f x) as [y | |]; cbn in *; [| done | done]. destruct Hf. split; [done | by eapply put_worthy].
Qed.

Lemma done_wp {S} (m : M DbError S unit) p (Q R : S -> Prop) :
  wp m p (fun _ => Q) (fun _ => R) -> wp (done_ m) p (fun _ => Q) (fun _ => R).
Proof. intros Hm. unfold done_, answer. apply wp_bind. eapply wp_mono; [exact Hm | | done]. intros [] q Hq. by apply wp_ret. Qed.

Lemma sound_balance n b x : sound n x -> is_u256 b -> sound n (put_balance b x).
Proof. intros [Ht Hn Hc] Hb. split; [by apply put_balance_typed | done | done]. Qed.

Lemma worthy_bound B C C' n s : worthy B C n s -> C <= C' <= B -> worthy B C' n s.
Proof. intros [? ? [? ?] ?] Hle. split; [lia | done | | done]. split; [done |]. by eapply supply_mono; [| apply Hle]. Qed.

(** The account of an address, read before it is tracked. *)
Lemma read_wp {A} a (f : option Acct -> A) B C n s t (Q : A -> Snapshots * gset Z -> Prop) (R : DbError -> Snapshots * gset Z -> Prop) :
  worthy B C n s -> (forall e, R e (s, t)) -> (forall o, Q (f o) (s, t)) ->
  wp (on_world (spec_read a f)) (s, t) Q R.
Proof.
  intros Hw HR HQ. unfold wp, on_world, spec_read, bind, spec_lookup. cbn.
  pose proof (lookup_sound _ _ _ _ a Hw). destruct (cur s a) as [o | |]; [apply HQ | apply HR | done].
Qed.

Lemma sub_wp B C n s t a v m :
  worthy B C n s -> is_address a -> v = 0 \/ (exists x, cur s a = Ok (Some x) /\ 0 <= v <= a_balance x) ->
  let P q := saved q = saved s /\ worthy B (C - v) n q /\ forall b, b <> a -> cur q b = cur s b in
  wp (spec_sub_balance a v m) (s, t) (fun _ p => P p.1) (fun _ p => saved p.1 = saved s /\ worthy B C n p.1).
Proof.
  intros Hw Ha Hv P. assert (0 <= v) by (destruct Hv as [-> | (x & _ & ?)]; lia).
  pose proof (wo_bound _ _ _ _ Hw). unfold spec_sub_balance. apply wp_bind.
  assert (Hrest : forall p, P p.1 ->
    wp (match m with
        | TrackTouched => b <~ on_world (spec_read a (fun o => bool_decide (is_Some o))) ;;
            if (b : bool) then spec_track a else ret tt
        | _ => ret tt
        end) p (fun _ p => P p.1) (fun _ p => saved p.1 = saved s /\ worthy B C n p.1)).
  { intros [s' t'] HP. destruct m; try by apply wp_ret. pose proof HP as (? & Hw' & _). cbn in Hw'.
    apply wp_bind. eapply read_wp; [exact Hw' | |].
    - intros _. split; [done |]. eapply worthy_bound; [done | lia].
    - intros o. by destruct (bool_decide (is_Some o)). }
  destruct (v =? 0) eqn:E; b2p; cbn [negb].
  - subst v. apply wp_ret. apply Hrest. unfold P. cbn. by rewrite Z.sub_0_r.
  - destruct Hv as [-> | (x & Ex & Hx)]; [done |].
    pose proof (lookup_sound _ _ _ _ a Hw) as Hl. rewrite Ex in Hl. destruct Hl as (Hs & Hb & Hu).
    assert (Ech : on_world (spec_change a (Err (IncompleteDatabase a)) (spec_sub v)) (s, t) =
      (Ok tt, (set_world (world_upd a (put_balance (a_balance x - v) x) (cur s)) s, t))).
    { unfold on_world, spec_change, bind, spec_lookup, lift, spec_sub. cbn [fst snd]. rewrite Ex.
      by rewrite (proj2 (Z.leb_le v _)) by lia. }
    unfold wp. rewrite Ech. apply Hrest. cbn [fst]. split; [done |]. split.
    + eapply put_worthy; [done | done | apply sound_balance; [done | destruct Hu; split; lia] | cbn; lia].
    + intros b Hb'. cbn. unfold world_upd. by rewrite decide_False.
Qed.

Lemma add_wp B C n s t a v m start :
  worthy B C n s -> is_address a -> 0 <= v -> C + v <= B -> small start ->
  wp (spec_add_balance db a v m start) (s, t) (after (saved s) B (C + v) n) (failed (saved s) B (C + v) n).
Proof.
  intros Hw Ha Hv HC [Hst Hst']. unfold spec_add_balance. apply wp_bind.
  assert (Hw' : worthy B (C + v) n s) by (eapply worthy_bound; [done | lia]).
  eapply read_wp; [exact Hw | done |]. intros o. apply wp_bind.
  eapply (wp_mono _ _ (after (saved s) B (C + v) n) _ (failed (saved s) B (C + v) n)); [| | done].
  - case_match; [| by apply wp_ret]. eapply wp_mono; [eapply (change_wp B C (C + v)); [done | done | done |] | done |].
    + intros x Hx. assert (Hxs : sound n x /\ a_balance x = bal (cur s) a).
      { destruct Hx as [? | [[= <-] ->]]; [done |]. split; [| done]. apply empty_sound; [done | lia |].
        pose proof (wo_level _ _ _ _ Hw). lia. }
      destruct Hxs as [Hxs Eb]. pose proof (supply_bal _ _ a (fu_supply _ _ _ (wo_cur _ _ _ _ Hw)) Ha) as Hle.
      pose proof (tx_balance _ (so_typed _ _ Hxs)) as [? ?]. pose proof (wo_bound _ _ _ _ Hw).
      unfold spec_add, checked_add. rewrite (proj2 (Z.ltb_lt _ (2 ^ 256))) by lia. cbn [result_bind rwp].
      split; [apply sound_balance; [done | split; lia] | cbn; lia].
    + intros e p [? ?]. split; [done |]. eapply worthy_bound; [done | lia].
  - intros [] [s' t'] Hp. destruct m; try by apply wp_ret. by destruct (bool_decide (is_Some o)).
Qed.

(** An address counts at its width. *)
Lemma affordable_h160 s a v : affordable s (h160 a) v -> affordable s a v.
Proof. unfold affordable. rewrite !spec_balance. by rewrite (h160_id (h160 a) (h160_word a)). Qed.

(** The account credited can pay what it has been given. *)
Lemma add_credits B C n s t a v m start p :
  worthy B C n s -> 0 <= v -> spec_add_balance db a v m start (s, t) = (Ok tt, p) -> is_address a ->
  affordable p.1 a v.
Proof.
  intros Hw Hv E Haddr. destruct (decide (v = 0)) as [-> | Hne]; [by left | right].
  pose proof (lookup_sound _ _ _ _ a Hw) as Hl.
  unfold spec_add_balance, bind, on_world, spec_read, spec_change, bind, spec_lookup, lift in E. cbn [fst snd] in E.
  rewrite (proj2 (Z.eqb_neq v 0)) in E by done. cbn [negb orb] in E.
  assert (Hadd : forall x, 0 <= a_balance x -> forall y, spec_add v x = Ok y -> 0 <= v <= a_balance y).
  { intros x Hx y. unfold spec_add, checked_add. destruct (_ <? _); cbn; [| done]. intros [= <-]. cbn. lia. }
  assert (Hp : exists y, cur p.1 a = Ok (Some y) /\ 0 <= v <= a_balance y).
  { destruct (cur s a) as [[x |] | |] eqn:Ea; cbn in E; try done; rewrite Ea in E; cbn in E.
    - destruct Hl as (_ & _ & [? _]). destruct (spec_add v x) as [y | |] eqn:Ey; cbn in E; try done.
      exists y. split; [| by eapply Hadd]. destruct m; injection E as <-; cbn; unfold world_upd; by rewrite decide_True.
    - destruct (spec_add v _) as [y | |] eqn:Ey; cbn in E; try done.
      exists y. split; [| by eapply Hadd; [| exact Ey]]. destruct m; injection E as <-; cbn; unfold world_upd; by rewrite decide_True. }
  destruct Hp as (y & Ey & Hy). exists (a_balance y). split; [| done]. rewrite spec_balance, (h160_id a Haddr). by rewrite Ey.
Qed.

Lemma perform_inv B sv n c s :
  wp (exec c) (s, ∅) (fun _ p => saved p.1 = sv /\ worthy B B n p.1) (fun _ p => saved p.1 = sv /\ worthy B B n p.1) ->
  wp (perform exec c) s (fun _ => world_inv B sv n) (fun _ => world_inv B sv n).
Proof.
  intros Hwp. apply (perform_wp exec c s (world_inv B sv n) (world_inv B sv n)).
  eapply wp_mono; [exact Hwp | |]; intros; by apply world_inv_iff.
Qed.

Lemma touching_inv B sv n c p :
  wp (exec c) p (fun _ p => saved p.1 = sv /\ worthy B B n p.1) (fun _ p => saved p.1 = sv /\ worthy B B n p.1) ->
  wp (perform_touching exec c) p (fun _ p => world_inv B sv n p.1) (fun _ p => world_inv B sv n p.1).
Proof.
  intros Hwp. apply (touching_wp exec c p (world_inv B sv n) (world_inv B sv n)).
  eapply wp_mono; [exact Hwp | |]; intros; by apply world_inv_iff.
Qed.

(** A read that depends on one account. *)
Lemma ask_account {A} B C n s a c (f : Answer -> vm_result A) (r : option Acct -> db_result Answer) (Q : A -> Prop) :
  worthy B C n s ->
  (forall t, (exec c (s, t)).1 = let? o := cur s a in r o) ->
  (forall o, (forall x, o = Some x -> sound n x) -> rwp (result_bind (vm_of (r o)) f) Q (fun _ => True)) ->
  rwp (result_bind (ask exec c s) f) Q (fun _ => True).
Proof.
  intros Hw Er Hr. unfold ask. rewrite Er. pose proof (lookup_sound _ _ _ _ a Hw) as Hl.
  destruct (cur s a) as [[x |] | e |]; cbn [result_bind]; [| | done | done].
  - apply Hr. intros y [= <-]. apply Hl.
  - by apply Hr.
Qed.

Lemma sound_nonce n k x : sound n x -> 0 <= k -> k + Z.of_nat n < 2 ^ 256 -> sound n (put_nonce k x).
Proof. intros [Ht Hn Hc] Hk Hl. split; [apply put_nonce_typed; [split; lia | done] | done | done]. Qed.

Lemma balance_upd s a o x b :
  cur s a = Ok o -> a_balance x = match o with Some y => a_balance y | None => 0 end ->
  st_balance (set_world (world_upd a x (cur s)) s) b = st_balance s b.
Proof.
  intros Ea Ex. rewrite !spec_balance. cbn [cur set_world]. unfold world_upd.
  destruct (decide (h160 b = a)) as [-> |]; [| done]. rewrite Ea. cbn. by rewrite Ex.
Qed.

(** The nonce of an account, or of a new one, moves by one. *)
Lemma inc_eq s a start x :
  cur s a = Ok (Some x) \/ cur s a = Ok None /\ x = empty_acct db a 0 start None false false ->
  a_nonce x + 1 < 2 ^ 256 ->
  spec_cmd keccak db (CIncNonce a start) (s, ∅) =
    (Ok AUnit, (set_world (world_upd a (put_nonce (a_nonce x + 1) x) (cur s)) s, ∅)).
Proof.
  intros Hx Hn. cbn. unfold done_, answer, on_world, spec_change, bind, spec_lookup, lift, spec_inc, checked_add.
  cbn [fst snd]. destruct Hx as [-> | [-> ->]]; by rewrite (proj2 (Z.ltb_lt _ (2 ^ 256))).
Qed.

Lemma inc_wp B n s a start :
  worthy B B (S n) s -> is_address a -> small start ->
  wp (spec_cmd keccak db (CIncNonce a start)) (s, ∅)
    (fun _ p => saved p.1 = saved s /\ worthy B B n p.1 /\ forall b, st_balance p.1 b = st_balance s b)
    (fun _ p => saved p.1 = saved s /\ worthy B B n p.1).
Proof.
  intros Hw Ha [Hst Hst']. assert (Hw' : worthy B B n s) by (eapply worthy_mono; [done | lia]).
  pose proof (lookup_sound _ _ _ _ a Hw) as Hl. pose proof (wo_level _ _ _ _ Hw). pose proof (wo_bound _ _ _ _ Hw).
  assert (Hput : forall o x, cur s a = Ok o -> sound (S n) x ->
    a_balance x = match o with Some y => a_balance y | None => 0 end -> bal (cur s) a = a_balance x ->
    o = Some x \/ o = None /\ x = empty_acct db a 0 start None false false ->
    wp (spec_cmd keccak db (CIncNonce a start)) (s, ∅)
      (fun _ p => saved p.1 = saved s /\ worthy B B n p.1 /\ forall b, st_balance p.1 b = st_balance s b)
      (fun _ p => saved p.1 = saved s /\ worthy B B n p.1)).
  { intros o x Eo Hx Eb Ebal Ho. pose proof (so_nonce _ _ Hx) as Hn. unfold wp.
    rewrite (inc_eq s a start x); [| by destruct Ho as [-> | [-> ->]]; [left | right] | lia].
    cbn [fst snd rwp]. split; [done |]. split; [| intros b; by eapply balance_upd].
    pose proof (tx_nonce _ (so_typed _ _ Hx)) as [? _].
    eapply put_worthy; [done | done | | cbn; lia]. apply sound_nonce; [eapply sound_mono; [done | lia] | lia | lia]. }
  destruct (cur s a) as [[x |] | e |] eqn:E; [| | | done].
  - destruct Hl as (? & ? & ?). apply (Hput (Some x) x); try done. by left.
  - apply (Hput None (empty_acct db a 0 start None false false)); try done; [| by right].
    apply empty_sound; [done | lia | lia].
  - unfold wp. cbn. unfold done_, answer, on_world, spec_change, bind, spec_lookup. cbn [fst snd]. by rewrite E.
Qed.

Lemma new_contract_wp B C C' n s a v k layout :
  worthy B C n s -> is_address a -> is_u256 v -> 0 <= k -> k + Z.of_nat n < 2 ^ 256 -> C + v - bal (cur s) a <= C' <= B -> C <= C' ->
  wp (spec_cmd keccak db (CNewContract a v k layout)) (s, ∅)
    (fun _ p => saved p.1 = saved s /\ worthy B C' n p.1) (fun _ p => saved p.1 = saved s /\ worthy B C' n p.1).
Proof.
  intros Hw Ha Hv Hk Hk' HC HC'. apply (done_wp _ _ (fun p => saved p.1 = saved s /\ worthy B C' n p.1)
    (fun p => saved p.1 = saved s /\ worthy B C' n p.1)).
  pose proof (lookup_sound _ _ _ _ a Hw) as Hl. unfold wp, on_world, spec_read, bind, spec_lookup, spec_put. cbn [fst snd].
  destruct (cur s a) as [o | |]; cbn; [| | done].
  - split; [done |]. eapply put_worthy; [done | done | by apply empty_sound | cbn; lia].
  - split; [done |]. eapply worthy_bound; [done | lia].
Qed.

Lemma storage_wp B n s a k v :
  worthy B B n s -> is_address a -> is_u256 v ->
  wp (spec_cmd keccak db (CSetStorage a k v)) (s, ∅)
    (fun _ p => saved p.1 = saved s /\ worthy B B n p.1) (fun _ p => saved p.1 = saved s /\ worthy B B n p.1).
Proof.
  intros Hw Ha Hv. apply (done_wp _ _ (fun p => saved p.1 = saved s /\ worthy B B n p.1)
    (fun p => saved p.1 = saved s /\ worthy B B n p.1)).
  pose proof (lookup_sound _ _ _ _ a Hw) as Hl. unfold wp, on_world, spec_storage_at, spec_change, bind, spec_lookup, lift. cbn [fst snd].
  pose proof (wo_bound _ _ _ _ Hw).
  destruct (cur s a) as [[x |] | |] eqn:E; cbn; [| | done | done].
  - destruct Hl as (Hx & Eb & _). pose proof (tx_storage _ (so_typed _ _ Hx) k) as Hk.
    destruct (a_storage x k) as [old | |]; cbn in Hk |- *; [| done | done]. destruct (negb (old =? v)); [| done].
    rewrite E. cbn. split; [done |]. eapply put_worthy; [done | done | | cbn; lia].
    destruct Hx. split; [by apply put_storage_typed | done | done].
  - destruct (negb _); [rewrite E |]; done.
Qed.

Lemma code_wp B n s a code :
  worthy B B n s -> is_address a -> wf_bytes code ->
  wp (spec_cmd keccak db (CInitCode a code)) (s, ∅)
    (fun _ p => saved p.1 = saved s /\ worthy B B n p.1) (fun _ p => saved p.1 = saved s /\ worthy B B n p.1).
Proof.
  intros Hw Ha Hc. apply (done_wp _ _ (fun p => saved p.1 = saved s /\ worthy B B n p.1)
    (fun p => saved p.1 = saved s /\ worthy B B n p.1)).
  eapply (change_wp B B B); [done | done | done |]. intros x [[Hx Eb] | [? ?]]; [| done]. cbn.
  pose proof (wo_bound _ _ _ _ Hw). split; [| lia]. destruct Hx. split; [by apply put_code_typed | done | done].
Qed.

(** *** The laws *)

Ltac read_account Hw a :=
  eapply (ask_account _ _ _ _ a); [exact Hw | intros t; unfold exec_width; cbn; unfold on_world, spec_read, spec_code, spec_storage_at, answer, bind, spec_lookup, ret, lift; cbn |].

Lemma spec_state_laws B sv : StateLaws Snapshots (fun n s => exists v, world_at B n v sv s).
Proof.
  assert (H0 : is_u256 0) by by split.
  constructor.
  - intros n m s (v & Hc & Hs & Hw) Hle. exists v. split_and!; [done | done | by eapply worthy_mono].
  - intros n s a [_ Hw]%world_inv_iff. read_account Hw (h160 a).
    + instantiate (1 := fun o => Ok (ANum (match o with Some x => a_balance x | None => 0 end))). by destruct (cur s (h160 a)).
    + intros [x |] Hx; cbn; [| done]. apply (tx_balance _ (so_typed _ _ (Hx x eq_refl))).
  - intros n s a [_ Hw]%world_inv_iff. read_account Hw (h160 a).
    + instantiate (1 := fun o => Ok (ANum (match o with Some x => a_nonce x | None => 0 end))). by destruct (cur s (h160 a)).
    + intros [x |] Hx; cbn; [| done]. apply (tx_nonce _ (so_typed _ _ (Hx x eq_refl))).
  - intros n s a [_ Hw]%world_inv_iff. read_account Hw (h160 a).
    + instantiate (1 := fun o => Ok (AOptNum (a_code_hash <$> o))). by destruct (cur s (h160 a)).
    + intros [x |] Hx; cbn; [| done]. apply (tx_code_hash _ (so_typed _ _ (Hx x eq_refl))).
  - intros n s a [_ Hw]%world_inv_iff. read_account Hw (h160 a).
    + instantiate (1 := fun o => let? c := match o with Some x => a_code x | None => Ok None end in Ok (AOptNum (len <$> c))).
      destruct (cur s (h160 a)) as [[x |] | |]; cbn; try done. by destruct (a_code x).
    + intros [x |] Hx; cbn; [| done]. pose proof (so_code _ _ (Hx x eq_refl)) as Hc. unfold returns in Hc.
      destruct (a_code x) as [[c |] | |]; cbn in Hc |- *; try done. pose proof (len_nonneg c). unfold wf_bytes in Hc. split; lia.
  - intros n s a [_ Hw]%world_inv_iff. read_account Hw (h160 a).
    + instantiate (1 := fun o => let? c := match o with Some x => a_code x | None => Ok None end in Ok (ABytes c)).
      destruct (cur s (h160 a)) as [[x |] | |]; cbn; try done. by destruct (a_code x).
    + intros [x |] Hx; cbn; [| unfold wf_bytes; by rewrite len_nil]. pose proof (so_code _ _ (Hx x eq_refl)) as Hc. unfold returns in Hc.
      by destruct (a_code x) as [c | |].
  - intros n s a [_ Hw]%world_inv_iff. read_account Hw (h160 a).
    + instantiate (1 := fun o => Ok (ABool (bool_decide (is_Some o)))). by destruct (cur s (h160 a)).
    + done.
  - intros n s a [_ Hw]%world_inv_iff. read_account Hw (h160 a).
    + instantiate (1 := fun o => Ok (ABool (match o with Some x => negb (is_null_acct x) | None => false end))). by destruct (cur s (h160 a)).
    + done.
  - intros n s a k [_ Hw]%world_inv_iff. read_account Hw (h160 a).
    + instantiate (1 := fun o => let? v := match o with Some x => a_storage x k | None => Ok 0 end in Ok (ANum v)).
      destruct (cur s (h160 a)) as [[x |] | |]; cbn; try done. by destruct (a_storage x k).
    + intros [x |] Hx; cbn; [| done]. pose proof (tx_storage _ (so_typed _ _ (Hx x eq_refl)) k) as Hk. unfold returns in Hk.
      by destruct (a_storage x k) as [v | |].
  - intros n s a k v [<- Hw]%world_inv_iff Hv. apply perform_inv, storage_wp; [done | apply h160_word | apply u256_word].
  - intros n s a code [<- Hw]%world_inv_iff Hc. apply perform_inv, code_wp; [done | apply h160_word | done].
  - intros n s a start [<- Hw]%world_inv_iff Hst.
    pose proof (inc_wp B n s (h160 a) start Hw (h160_word a) Hst) as Hwp.
    rewrite <- (u256_id _ (small_word _ Hst)) in Hwp.
    eapply wp_mono; [apply (perform_wp exec _ s (fun s' => (saved s' = saved s /\ worthy B B n s') /\ forall b, st_balance s' b = st_balance s b) (world_inv B (saved s) n)) | |].
    + eapply wp_mono; [exact Hwp | by intros ? p (? & ? & ?) |]. intros e p ?. by apply world_inv_iff.
    + intros [] s' [? ?]. split; [by apply world_inv_iff | done].
    + done.
  - intros n s t a v m [<- Hw]%world_inv_iff Ha. apply touching_inv.
    apply (done_wp _ _ (fun p => saved p.1 = saved s /\ worthy B B n p.1) (fun p => saved p.1 = saved s /\ worthy B B n p.1)).
    pose proof (balance_affordable _ _ _ _ _ _ Hw Ha) as Hv. rewrite (u256_id _ (affordable_word _ _ _ _ _ _ Hw Ha)).
    eapply wp_mono; [by apply (sub_wp B B n s t (h160 a) v m); [| apply h160_word |] | | done]. intros [] p (? & ? & _). split; [done |].
    pose proof (wo_bound _ _ _ _ Hw). assert (0 <= v) by (destruct Hv as [Hv | (? & _ & ?)]; lia).
    eapply worthy_bound; [done | lia].
  - intros n s t a a' v m start [<- Hw]%world_inv_iff Ha Hst.
    apply (touching_wp exec (CTransferBalance a a' v m start) (s, t)
      (fun s' => world_inv B (saved s) n s' /\ affordable s' a' v) (world_inv B (saved s) n)).
    apply (done_wp _ _ (fun p => world_inv B (saved s) n p.1 /\ affordable p.1 a' v) (fun p => world_inv B (saved s) n p.1)).
    pose proof (balance_affordable _ _ _ _ _ _ Hw Ha) as Hv. pose proof (wo_bound _ _ _ _ Hw).
    assert (0 <= v) by (destruct Hv as [Hv | (? & _ & ?)]; lia).
    rewrite (u256_id _ (affordable_word _ _ _ _ _ _ Hw Ha)), (u256_id _ (small_word _ Hst)).
    apply wp_bind. eapply wp_mono; [by apply (sub_wp B B n s t (h160 a) v m); [| apply h160_word |] | |];
      [| by intros ? ? ?; apply world_inv_iff].
    intros [] [s' t'] (Es & Hw' & _). cbn [fst] in Es, Hw'. rewrite <- Es.
    eapply wp_mono; [eapply (wp_also _ _ _ (fun _ p => affordable p.1 a' v)); [apply (add_wp B (B - v) n s' t' (h160 a') v m start); [done | apply h160_word | done | lia | done] |] | |].
    + intros [] p Ep. apply affordable_h160. exact (add_credits _ _ _ _ _ _ _ _ _ _ Hw' ltac:(done) Ep (h160_word _)).
    + intros [] p [Hp ?]. rewrite Z.sub_add in Hp. split; [by apply world_inv_iff | done].
    + intros ? p. rewrite Z.sub_add. by intros; apply world_inv_iff.
  - intros n s v [Hs Hw]%world_inv_iff. apply world_inv_iff. split; [exact Hs |]. by destruct Hw.
Qed.

Lemma spec_frame_laws B : FrameStateLaws Snapshots (World * Z) (world_at B).
Proof.
  constructor.
  - apply spec_state_laws.
  - intros n m v sv s (? & ? & ?) Hle. split_and!; [done | done | by eapply worthy_mono].
  - intros n v sv s (<- & <- & [? ? ? ?]). split_and!; [done | done |]. split; try done. by apply list.Forall_cons.
  - intros n v sv s a _. by rewrite !spec_balance.
  - intros n v w sv s (<- & Hs & [? ? ? Hsv]). rewrite Hs in Hsv.
    apply list.Forall_cons in Hsv as [_ ?]. split_and!; [done | by cbn; rewrite Hs |]. split; try done. by cbn; rewrite Hs.
  - intros n v w sv s (_ & Hs & [? ? ? Hsv]). rewrite Hs in Hsv.
    apply list.Forall_cons in Hsv as [Hw ?]. destruct w as [w t]. cbn. unfold wp, perform. cbn. rewrite Hs. cbn.
    split_and!; [done | done |]. split; try done.
  - intros n sv s t a a' v prev m layout [<- Hw]%world_inv_iff Hwa Hwa' Hne Ha Ep.
    pose proof (balance_affordable _ _ _ _ _ _ Hw Ha) as Hv. pose proof (wo_bound _ _ _ _ Hw).
    pose proof (affordable_word _ _ _ _ _ _ Hw Ha) as Hvw. rewrite (h160_id a Hwa) in Hv.
    assert (Hprev : bal (cur s) a' = prev /\ is_u256 prev).
    { pose proof (lookup_sound _ _ _ _ a' Hw) as Hl. rewrite spec_balance, (h160_id a' Hwa') in Ep. unfold bal in *.
      destruct (cur s a') as [[x |] | |]; cbn in Ep; simplify_eq; [by destruct Hl as (_ & _ & ?) | done]. }
    destruct Hprev as [Hprev [? ?]]. set (b := Z.min (v + prev) (2 ^ 256 - 1)).
    assert (Hb : 0 <= b < 2 ^ 256) by (unfold b; lia).
    assert (Esub : exec (CSubBalance a v m) = spec_cmd keccak db (CSubBalance a v m))
      by (unfold exec_width; cbn [at_width]; by rewrite (h160_id a Hwa), (u256_id v Hvw)).
    assert (Enew : exec (CNewContract a' b 1 layout) = spec_cmd keccak db (CNewContract a' b 1 layout))
      by (unfold exec_width; cbn [at_width]; by rewrite (h160_id a' Hwa'), (u256_id b Hb)).
    assert (Hstep : wp (exec (CSubBalance a v m)) (s, t)
      (fun _ p => wp (perform exec (CNewContract a' b 1 layout)) p.1
         (fun _ => world_inv B (saved s) n) (fun _ => world_inv B (saved s) n)) (fun _ p => world_inv B (saved s) n p.1)).
    { rewrite Esub. apply (done_wp _ _ (fun p => wp (perform exec (CNewContract a' b 1 layout)) p.1
         (fun _ => world_inv B (saved s) n) (fun _ => world_inv B (saved s) n)) (fun p => world_inv B (saved s) n p.1)).
      eapply wp_mono; [by apply (sub_wp B B n s t a v m) | |].
      - intros [] [s' t'] (Es & Hw' & Hcur). cbn [fst] in *. rewrite <- Es. apply perform_inv. rewrite Enew.
        pose proof (wo_level _ _ _ _ Hw').
        apply (new_contract_wp B (B - v)); [done | done | done | lia | lia | | lia].
        unfold bal in *. rewrite Hcur by done. lia.
      - intros e p ?. by apply world_inv_iff. }
    unfold wp in *. cbn. unfold perform_touching. by destruct (exec (CSubBalance a v m) (s, t)) as [[] p].
  - intros s a e. cbn. unfold ask. destruct (exec (CBalance a) (s, ∅)) as [[x | |] p]; cbn; try done.
    + by destruct x.
    + intros [= <-]. by eexists.
  - intros a v m. apply touching_errors.
  - intros a a' v m start. apply touching_errors.
  - intros a v n layout. apply perform_errors.
Qed.
End spec_laws.

(** ** The laws of the implementation *)

Section carry_laws.
Context {S S' V : Type} (exec : Cmd -> M DbError (S * gset Z) Answer).
Context (exec' : Cmd -> M DbError (S' * gset Z) Answer) (R : S -> S' -> Prop).
Context (Hsim : forall c, sim (fun p q => R p.1 q.1 /\ p.2 = q.2) (exec c) (exec' c)).
Context (at' : nat -> V -> list V -> S' -> Prop).
Context (XL : FrameStateLaws S' V (SS := cmd_state exec') (FS := cmd_frame_state exec') at').
Context (Hsure : forall c s, c = CCheckpoint \/ c = CDiscardCheckpoint \/ (exists v, c = CSubtractTotalIssued v) ->
  (perform exec' c s).1 = Ok tt).

Definition carried (n : nat) (v : V) (sv : list V) (s : S) : Prop := exists s', R s s' /\ at' n v sv s'.

Lemma carry_perform {c s s'} {Q E : S' -> Prop} {sv n} :
  R s s' -> wp (perform exec' c) s' (fun _ => Q) (fun _ => E) ->
  (forall t, Q t -> exists v, at' n v sv t) -> (forall t, E t -> exists v, at' n v sv t) ->
  wp (perform exec c) s (fun _ t => exists v, carried n v sv t) (fun _ t => exists v, carried n v sv t).
Proof.
  intros HR Hwp HQ HE. eapply wp_mono; [by eapply perform_sim | |].
  - intros [] t (t' & Ht & [v Hv]%HQ). by exists v, t'.
  - intros e t (t' & Ht & [v Hv]%HE). by exists v, t'.
Qed.

Lemma carry_touching c s s' t sv n :
  R s s' -> wp (perform_touching exec' c) (s', t) (fun _ p => exists v, at' n v sv p.1) (fun _ p => exists v, at' n v sv p.1) ->
  wp (perform_touching exec c) (s, t) (fun _ p => exists v, carried n v sv p.1) (fun _ p => exists v, carried n v sv p.1).
Proof.
  intros HR Hwp.
  eapply wp_mono; [eapply (touching_sim exec exec' R Hsim c s s' t (fun q => exists v, at' n v sv q) (fun q => exists v, at' n v sv q) HR Hwp) | |].
  - intros [] p (t' & Ht & v & Hv). by exists v, t'.
  - intros e p (t' & Ht & v & Hv). by exists v, t'.
Qed.

Local Instance impl_state : StateOps S := cmd_state exec.
Local Instance impl_frame_state : FrameState S := cmd_frame_state exec.

Lemma balance_sim s s' a : R s s' -> st_balance s a = st_balance (StateOps := cmd_state exec') s' a.
Proof. intros HR. cbn. by rewrite (ask_sim exec exec' R Hsim _ _ _ HR). Qed.

Lemma affordable_sim s s' a v : R s s' -> affordable s a v -> affordable (SS := cmd_state exec') s' a v.
Proof. unfold affordable. intros HR. by rewrite (balance_sim _ _ a HR). Qed.

(** A read answers what it answers in the related state. *)
Ltac carry_read SL :=
  intros n s a; intros;
  match goal with
  | Hs : exists v, carried _ v _ _ |- _ =>
      let v := fresh "v" in let s' := fresh "s'" in let HR := fresh "HR" in
      destruct Hs as (v & s' & HR & Hs); cbn; rewrite (ask_sim exec exec' R Hsim _ _ _ HR);
      destruct SL; match goal with law : _ |- _ => solve [eapply law; exists v; exact Hs] end
  end.

Lemma carry_state_laws sv : StateLaws S (fun n s => exists v, carried n v sv s).
Proof.
  pose proof (xl_state (FrameStateLaws := XL) sv) as SL.
  constructor.
  - intros n m s (v & s' & HR & Hs) Hle. exists v, s'. split; [done |]. by eapply (xl_mono (FrameStateLaws := XL)).
  - carry_read SL.
  - carry_read SL.
  - carry_read SL.
  - carry_read SL.
  - carry_read SL.
  - carry_read SL.
  - carry_read SL.
  - carry_read SL.
  - intros n s a k x (v & s' & HR & Hs) Hx.
    apply (carry_perform HR (sl_set_storage (StateLaws := SL) n s' a k x (ex_intro _ v Hs) Hx)); done.
  - intros n s a code (v & s' & HR & Hs) Hx.
    apply (carry_perform HR (sl_init_code (StateLaws := SL) n s' a code (ex_intro _ v Hs) Hx)); done.
  - intros n s a start (v & s' & HR & Hs) Hx.
    pose proof (sl_inc_nonce (StateLaws := SL) n s' a start (ex_intro _ v Hs) Hx) as Hwp.
    eapply wp_mono; [eapply (perform_sim exec exec' R Hsim _ _ _ (fun t => (exists v, at' n v sv t) /\ forall b, _) (fun t => exists v, at' n v sv t) HR Hwp) | |].
    + intros [] t (t' & Ht & [y Hy] & Hb). split; [by exists y, t' |]. intros b.
      by rewrite (balance_sim _ _ b Ht), (balance_sim _ _ b HR).
    + intros e t (t' & Ht & y & Hy). by exists y, t'.
  - intros n s t a x m (v & s' & HR & Hs) Ha. eapply carry_touching; [done |].
    apply (sl_sub_balance (StateLaws := SL)); [by exists v | by eapply affordable_sim].
  - intros n s t a a' x m start (v & s' & HR & Hs) Ha Hx.
    pose proof (sl_transfer_balance (StateLaws := SL) n s' t a a' x m start (ex_intro _ v Hs)
      (affordable_sim _ _ _ _ HR Ha) Hx) as Hwp.
    eapply wp_mono; [eapply (touching_sim exec exec' R Hsim _ _ _ _ (fun q => (exists v, at' n v sv q) /\
      affordable (SS := cmd_state exec') q a' x) (fun q => exists v, at' n v sv q) HR Hwp) | |].
    + intros [] p (t' & Ht & [y Hy] & Hb). split; [by exists y, t' |]. unfold affordable. by rewrite (balance_sim _ _ a' Ht).
    + intros e p (t' & Ht & y & Hy). by exists y, t'.
  - intros n s x (v & s' & HR & Hs).
    destruct (sl_subtract_total_issued (StateLaws := SL) n s' x (ex_intro _ v Hs)) as [y Hy].
    exists y, (perform exec' (CSubtractTotalIssued x) s').2. split; [| done].
    refine (perform_state_sim exec exec' R Hsim _ _ _ HR _). apply Hsure. right. right. by eexists.
Qed.

Lemma carry_frame_laws : FrameStateLaws S V carried.
Proof.
  constructor.
  - apply carry_state_laws.
  - intros n m v sv s (s' & HR & Hs) Hle. exists s'. split; [done |]. by eapply (xl_mono (FrameStateLaws := XL)).
  - intros n v sv s (s' & HR & Hs). exists (perform exec' CCheckpoint s').2.
    split; [refine (perform_state_sim exec exec' R Hsim _ _ _ HR _); apply Hsure; by left | by apply (xl_checkpoint (FrameStateLaws := XL))].
  - intros n v sv s a (s' & HR & Hs).
    assert (HR' : R (st_checkpoint s) (st_checkpoint (FrameState := cmd_frame_state exec') s')).
    { refine (perform_state_sim exec exec' R Hsim _ _ _ HR _). apply Hsure. by left. }
    rewrite (balance_sim _ _ a HR'), (balance_sim _ _ a HR). by apply (xl_checkpoint_balance (FrameStateLaws := XL) n v sv).
  - intros n v w sv s (s' & HR & Hs). exists (perform exec' CDiscardCheckpoint s').2.
    split; [refine (perform_state_sim exec exec' R Hsim _ _ _ HR _); apply Hsure; right; by left | by eapply (xl_discard (FrameStateLaws := XL))].
  - intros n v w sv s (s' & HR & Hs).
    pose proof (xl_revert (FrameStateLaws := XL) _ _ _ _ _ Hs) as Hwp.
    eapply wp_mono; [eapply (perform_sim exec exec' R Hsim _ _ _ (at' n w sv) (fun _ => False) HR Hwp) | |].
    + intros [] t (t' & Ht & Hv). by exists t'.
    + by intros e t (t' & _ & ?).
  - intros n sv s t a a' x prev m layout (v & s' & HR & Hs) Hwa Hwa' Hne Ha Ep.
    rewrite (balance_sim _ _ a' HR) in Ep.
    pose proof (xl_new_contract (FrameStateLaws := XL) n sv s' t a a' x prev m layout (ex_intro _ v Hs) Hwa Hwa' Hne
      (affordable_sim _ _ _ _ HR Ha) Ep) as Hwp.
    eapply wp_mono; [eapply (touching_sim exec exec' R Hsim _ _ _ _ (fun q => wp _ q _ _) (fun q => exists v, at' n v sv q) HR Hwp) | |].
    + intros [] p (t' & Ht & Hw). eapply (carry_perform Ht Hw); done.
    + intros e p (t' & Ht & y & Hy). by exists y, t'.
  - intros s a e. cbn. unfold ask. destruct (exec (CBalance a) (s, ∅)) as [[x | |] p]; cbn; try done.
    + by destruct x.
    + intros [= <-]. by eexists.
  - intros a v m. apply touching_errors.
  - intros a a' v m start. apply touching_errors.
  - intros a v n layout. apply perform_errors.
Qed.
End carry_laws.

Section state_laws.
Context (keccak : list byte -> Z) (Hkeccak : typed_keccak keccak).
Context `{Rlp} {T : Type} {ST : StorageTrait OwnedStateKey T} (db : T).
Context (Hdb : typed_db db) (Hcalm : calm_db db).

Definition state_ops : StateOps (State T) := cmd_state (exec_width (exec_cmd keccak)).
Definition state_frame_ops : FrameState (State T) := cmd_frame_state (exec_width (exec_cmd keccak)).

(** The state shows a world and has saved others, all below the bound. *)
Definition state_at (B : Z) : nat -> World * Z -> list (World * Z) -> State T -> Prop :=
  carried (refines db True) (world_at B).

Lemma state_frame_laws B :
  FrameStateLaws (State T) (World * Z) (SS := state_ops) (FS := state_frame_ops) (state_at B).
Proof.
  apply (carry_frame_laws (exec_width (exec_cmd keccak)) (exec_width (spec_cmd keccak db)) (refines db True)).
  - intros c. apply (cmd_sim keccak db True); [done | done |]. intros _. apply at_width_typed.
  - by apply spec_frame_laws.
  - intros c s [-> | [-> | [v ->]]]; reflexivity.
Qed.
End state_laws.
