(* ===== verification/Transact.v ===== *)
(** * Transactions

    src/cfx-evm/src/execution/executor.rs: [TXExecutor], which checks a transaction against the
    state, charges its gas, runs its outermost frame on the stack of [Frames], refunds what is
    left and removes the contracts that destroyed themselves; [Executed] and [ExecutionOutcome]
    of executed.rs, [TransactCheckSettings] of options.rs and [TransactionInfo] of
    transaction_info.rs; [cross_vm_call], which runs a frame on behalf of the other virtual
    machine.

    The fields of an outcome that come from observers (the trace, the estimated gas limit) are
    left out. A hash set is iterated in an order that is not specified: [iter] gives it. The
    computations run over the state and the jump destination cache. *)

From stdpp Require Import gmap strings.
From S2P Require Import Prelude Word SolidityAbi StateDb Arith VmTypes FrameContext Gasometer SharedCache Interpreter.
From S2P Require Import Frames.
Local Open Scope Z_scope.

(** ** Transactions and outcomes *)

Inductive Action : Set := ActionCreate | ActionCall (address : Z).

Record Transaction : Set := mkTransaction {
  tx_sender : Z;
  tx_nonce : Z;
  tx_gas : Z;
  tx_gas_price : Z;
  tx_data : list byte;
  tx_action : Action;
  tx_value : Z;
}.

Record TransactCheckSettings : Set := mkSettings { charge_gas : bool; real_execution : bool }.

Definition all_checks : TransactCheckSettings := mkSettings true true.

Record Executed : Set := mkExecuted {
  ex_gas_used : Z;
  ex_fee : Z;
  ex_gas_charged : Z;
  ex_logs : list LogEntry;
  ex_contracts_created : list Z;
  ex_output : list byte;
}.

Inductive ToRepackError : Set :=
| InvalidNonce (expected got : Z)
| SenderDoesNotExist.

Inductive TxDropError : Set :=
| OldNonce (expected got : Z)
| NotEnoughBaseGas (expected actual : Z).

Inductive ExecutionError : Set :=
| NotEnoughCash (required got actual_gas_cost : Z)
| VmError (e : Error).

Inductive ExecutionOutcome : Set :=
| NotExecutedDrop (e : TxDropError)
| NotExecutedToReconsiderPacking (e : ToRepackError)
| ExecutionErrorBumpNonce (e : ExecutionError) (executed : Executed)
| Finished (executed : Executed).

Definition saturating_mul (a b : Z) : Z := Z.min (a * b) (2 ^ 256 - 1).

Definition not_enough_balance_fee_charged (tx : Transaction) (fee : Z) : Executed := {|
  ex_gas_used := tx_gas tx;
  ex_fee := fee;
  ex_gas_charged := if tx_gas_price tx =? 0 then 0 else fee / tx_gas_price tx;
  ex_logs := [];
  ex_contracts_created := [];
  ex_output := [];
|}.

Definition execution_error_fully_charged (tx : Transaction) : Executed := {|
  ex_gas_used := tx_gas tx;
  ex_fee := saturating_mul (tx_gas tx) (tx_gas_price tx);
  ex_gas_charged := tx_gas tx;
  ex_logs := [];
  ex_contracts_created := [];
  ex_output := [];
|}.

(** ** Gas *)

Fixpoint add_data_gas (g : Z) (data : list byte) (spec : Spec) : vm_result Z :=
  match data with
  | [] => Ok g
  | b :: data =>
      let? g := checked_add 64 g (if decide (b = x00) then tx_data_zero_gas spec
                                  else tx_data_non_zero_gas spec) in
      add_data_gas g data spec
  end.

Definition gas_required_for (is_create : bool) (data : list byte) (spec : Spec) : vm_result Z :=
  add_data_gas (if is_create then tx_create_gas spec else VmTypes.tx_gas spec) data spec.

(** The gas used and charged, and the fee and the refund, of a transaction with gas left. *)
Definition settle_gas (tx : Transaction) (gas_left : Z) : vm_result (Z * Z * Z * Z) :=
  let? gas_used := checked_sub (tx_gas tx) gas_left in
  let? twice := checked_add 256 gas_left gas_left in
  let? thrice := checked_add 256 twice gas_left in
  let charge_all := gas_used <=? thrice in
  if charge_all then
    let gas_refunded := Z.shiftr (tx_gas tx) 2 in
    let? gas_charged := checked_sub (tx_gas tx) gas_refunded in
    Ok (gas_used, gas_charged, saturating_mul gas_charged (tx_gas_price tx),
        saturating_mul gas_refunded (tx_gas_price tx))
  else
    Ok (gas_used, gas_used, saturating_mul gas_used (tx_gas_price tx),
        saturating_mul gas_left (tx_gas_price tx)).

(** [U256::try_from(u512).unwrap()] *)
Definition u256_from_u512 (x : Z) : vm_result Z := if x <? 2 ^ 256 then Ok x else Panic.

(** [U256::as_u64] *)
Definition as_u64 (x : Z) : vm_result Z := if x <? 2 ^ 64 then Ok x else Panic.

Inductive PreCheckResult (St : Type) : Type :=
| Pass (top_frame : CallCreateFrame St) (tx_substate : Substate) (base_gas_required : Z)
| PreCheckFail (outcome : ExecutionOutcome).
Arguments Pass {St}.
Arguments PreCheckFail {St}.

(** [CrossVMParams]; strings are their bytes. *)
Record CrossVMParams : Set := mkCrossVMParams {
  cv_receiver : Z;
  cv_function_name : list byte;
  cv_gas : Z;
  cv_gas_price : Z;
  cv_value : Z;
  cv_evm_params : list (list byte);
  cv_caller_info : list byte;
}.

Record CrossVMReturn : Type := mkCrossVMReturn {
  cr_substate : Substate;
  cr_result : FinalizationResult + Error;
}.

Definition CROSS_SPACE_CONTRACT_ADDRESS : Z := 0x0888000000000000000000000000000000000006.

(** The bytes of [(string,bytes[])] *)
Definition func_sig_args : list byte :=
  [x28; x73; x74; x72; x69; x6e; x67; x2c; x62; x79; x74; x65; x73; x5b; x5d; x29].

Section transact.
Context {St : Type} {SS : StateOps St} {FS : FrameState St} {L : Type} {LL : Lru L}.
Context (keccak : list byte -> Z) (rlp_sender_nonce : Z -> Z -> list byte).
Context (iter : gset Z -> list Z).
Context (env : Env) (machine : ChainMachine St) (spec : Spec).

Abbreviation TM := (M Error (St * L)).

Definition read_state {A} (f : St -> vm_result A) : TM A := fun p => (f p.1, p).

Definition on_tx_state {A} (m : M Error St A) : TM A := fun p =>
  let '(r, s) := m p.1 in (r, (s, p.2)).

(** An operation that records the accounts it touches in a substate. *)
Definition touching {A} (sub : Substate) (m : M Error (St * gset Z) A) : TM Substate := fun p =>
  let '(r, (s, t)) := m (p.1, touched sub) in
  (let? _ := r in Ok (mkSubstate (suicides sub) t (logs sub) (contracts_created sub)), (s, p.2)).

Definition cross_vm_data (self : CrossVMParams) : vm_result (list byte) :=
  match cv_function_name self with
  | [] => Ok []
  | _ =>
      let func_sig := cv_function_name self ++ func_sig_args in
      let func_bytes := to_be 32 (keccak func_sig) in
      match abi_encode_tuple (field abi_bytes (field (abi_vec abi_bytes) no_fields))
              (cv_caller_info self, (cv_evm_params self, tt)) with
      | Ok encoded => Ok (take 4 func_bytes ++ encoded)
      | _ => Panic
      end
  end.

(** ** Before the execution *)

Definition tx_is_create (tx : Transaction) : bool :=
  match tx_action tx with ActionCreate => true | ActionCall _ => false end.

Definition tx_top_frame (tx : Transaction) (nonce init_gas : Z) : TM (CallCreateFrame St) :=
  let sender := tx_sender tx in
  match tx_action tx with
  | ActionCreate =>
      let '(new_address, _) :=
        contract_address keccak rlp_sender_nonce FromSenderNonce sender nonce (tx_data tx) in
      ret (new_create_raw {|
        ap_space := Ethereum;
        ap_code_address := new_address;
        ap_code_hash := None;
        ap_address := new_address;
        ap_sender := sender;
        ap_original_sender := sender;
        ap_gas := init_gas;
        ap_gas_price := tx_gas_price tx;
        ap_value := Transfer (tx_value tx);
        ap_code := Some (tx_data tx);
        ap_data := None;
        ap_call_type := CallNone;
        ap_create_type := CreateCREATE;
        ap_params_type := Embedded
      |} env machine spec 0 false)
  | ActionCall address =>
      code <~ read_state (fun s => st_code s address) ;;
      code_hash <~ read_state (fun s => st_code_hash s address) ;;
      ret (new_call_raw {|
        ap_space := Ethereum;
        ap_code_address := address;
        ap_code_hash := code_hash;
        ap_address := address;
        ap_sender := sender;
        ap_original_sender := sender;
        ap_gas := init_gas;
        ap_gas_price := tx_gas_price tx;
        ap_value := Transfer (tx_value tx);
        ap_code := code;
        ap_data := Some (tx_data tx);
        ap_call_type := Call;
        ap_create_type := CreateNone;
        ap_params_type := Separate
      |} env machine spec 0 false)
  end.

(** The sender cannot pay: it pays what it has, up to the gas. *)
Definition charge_shortfall (tx : Transaction) (settings : TransactCheckSettings)
    (gas_cost total_cost sender_balance : Z) : TM (PreCheckResult St) :=
  let sender := tx_sender tx in
  actual_gas_cost <~ lift (u256_from_u512 (Z.min gas_cost sender_balance)) ;;
  exists_ <~ read_state (fun s => st_exists s sender) ;;
  if negb exists_ && real_execution settings then
    ret (PreCheckFail (NotExecutedToReconsiderPacking SenderDoesNotExist))
  else
    on_tx_state (st_inc_nonce sender (account_start_nonce spec)) ;;;
    touching Substate_new (st_sub_balance sender actual_gas_cost (cleanup_mode spec)) ;;;
    ret (PreCheckFail (ExecutionErrorBumpNonce
           (NotEnoughCash total_cost sender_balance actual_gas_cost)
           (not_enough_balance_fee_charged tx actual_gas_cost))).

Definition transact_preprocessing (tx : Transaction) (settings : TransactCheckSettings) :
    TM (PreCheckResult St) :=
  let sender := tx_sender tx in
  nonce <~ read_state (fun s => st_nonce s sender) ;;
  if tx_nonce tx <? nonce then
    ret (PreCheckFail (NotExecutedDrop (OldNonce nonce (tx_nonce tx))))
  else if nonce <? tx_nonce tx then
    ret (PreCheckFail (NotExecutedToReconsiderPacking (InvalidNonce nonce (tx_nonce tx))))
  else
    base_gas_required <~ lift (gas_required_for (tx_is_create tx) (tx_data tx) spec) ;;
    if tx_gas tx <? base_gas_required then
      actual <~ lift (as_u64 (tx_gas tx)) ;;
      ret (PreCheckFail (NotExecutedDrop (NotEnoughBaseGas base_gas_required actual)))
    else
      sender_balance <~ read_state (fun s => st_balance s sender) ;;
      let gas_cost := if charge_gas settings then tx_gas tx * tx_gas_price tx else 0 in
      total_cost <~ lift (checked_add 512 (tx_value tx) gas_cost) ;;
      if sender_balance <? total_cost then
        charge_shortfall tx settings gas_cost total_cost sender_balance
      else
        on_tx_state (st_inc_nonce sender (account_start_nonce spec)) ;;;
        gas_cost <~ lift (u256_from_u512 gas_cost) ;;
        tx_substate <~ touching Substate_new (st_sub_balance sender gas_cost (cleanup_mode spec)) ;;
        init_gas <~ lift (checked_sub (tx_gas tx) base_gas_required) ;;
        top_frame <~ tx_top_frame tx nonce init_gas ;;
        ret (Pass top_frame tx_substate base_gas_required).

(** ** After the execution *)

Fixpoint kill_contracts (suicides : list Z) : TM unit :=
  match suicides with
  | [] => ret tt
  | contract_address :: suicides =>
      contract_balance <~ read_state (fun s => st_balance s contract_address) ;;
      on_tx_state (st_remove_contract contract_address) ;;;
      modify (fun p => (st_subtract_total_issued contract_balance p.1, p.2)) ;;;
      kill_contracts suicides
  end.

Definition kill_process (suicides : gset Z) : TM Substate :=
  kill_contracts (iter suicides) ;;; ret Substate_new.

Definition transact_postprocessing (tx : Transaction) (frame_stack_output : FrameStackOutput) :
    TM ExecutionOutcome :=
  let result := fo_result frame_stack_output in
  let substate := fo_substate frame_stack_output in
  output <~ lift (match result with inl res => unwrap (rd_deref (f_return_data res)) | inr _ => Ok [] end) ;;
  let gas_left := match result with inl r => f_gas_left r | inr _ => 0 end in
  settled <~ lift (settle_gas tx gas_left) ;;
  let '(gas_used, gas_charged, fees_value, refund_value) := settled in
  substate <~ touching substate (st_add_balance (tx_sender tx) refund_value (cleanup_mode spec)
                                   (account_start_nonce spec)) ;;
  subsubstate <~ kill_process (suicides substate) ;;
  let substate := accrue substate subsubstate in
  match result with
  | inr (StateDbError e) => throw (StateDbError e)
  | inr exception => ret (ExecutionErrorBumpNonce (VmError exception) (execution_error_fully_charged tx))
  | inl r =>
      let executed := {|
        ex_gas_used := gas_used;
        ex_fee := fees_value;
        ex_gas_charged := gas_charged;
        ex_logs := logs substate;
        ex_contracts_created := contracts_created substate;
        ex_output := output
      |} in
      if f_apply_state r then ret (Finished executed)
      else ret (ExecutionErrorBumpNonce (VmError Reverted) executed)
  end.

(** [None] when the fuel of the interpreter or of the stack of frames runs out. *)
Definition transact (turns fuel : nat) (tx : Transaction) (settings : TransactCheckSettings) :
    TM (option ExecutionOutcome) :=
  pre_check_result <~ transact_preprocessing tx settings ;;
  match pre_check_result with
  | PreCheckFail outcome => ret (Some outcome)
  | Pass top_frame tx_substate base_gas_required =>
      o <~ frame_stack_exec keccak rlp_sender_nonce turns fuel tx_substate base_gas_required top_frame ;;
      match o with
      | Some frame_stack_output =>
          outcome <~ transact_postprocessing tx frame_stack_output ;;
          ret (Some outcome)
      | None => ret None
      end
  end.

(** ** Calls from the other virtual machine *)

Definition cross_vm_call_preprocessing (cross_vm_params : CrossVMParams) : TM (CallCreateFrame St) :=
  data <~ lift (cross_vm_data cross_vm_params) ;;
  let address := cv_receiver cross_vm_params in
  let value := cv_value cross_vm_params in
  code <~ read_state (fun s => st_code s address) ;;
  code_hash <~ read_state (fun s => st_code_hash s address) ;;
  let params := {|
    ap_space := Ethereum;
    ap_code_address := address;
    ap_code_hash := code_hash;
    ap_address := address;
    ap_sender := CROSS_SPACE_CONTRACT_ADDRESS;
    ap_original_sender := 0;
    ap_gas := cv_gas cross_vm_params;
    ap_gas_price := cv_gas_price cross_vm_params;
    ap_value := Transfer value;
    ap_code := code;
    ap_data := Some data;
    ap_call_type := Call;
    ap_create_type := CreateNone;
    ap_params_type := Separate
  |} in
  let top_frame := new_call_raw params env machine spec 0 false in
  touching Substate_new (st_add_balance CROSS_SPACE_CONTRACT_ADDRESS value (cleanup_mode spec)
                           (account_start_nonce spec)) ;;;
  ret top_frame.

Definition cross_vm_call (turns fuel : nat) (params : CrossVMParams) : TM (option CrossVMReturn) :=
  top_frame <~ cross_vm_call_preprocessing params ;;
  o <~ frame_stack_exec keccak rlp_sender_nonce turns fuel Substate_new 0 top_frame ;;
  ret ((fun out => mkCrossVMReturn (fo_substate out) (fo_result out)) <$> o).
End transact.
