(* ===== verification/TransactLaws.v ===== *)
(** * What the operations of a transaction do to the world

    The operations that [Transact] uses of the state, and what each does to the world the state
    shows: the class [TxStateLaws], shown of the specification [WorldSpec] and carried over to the
    world state [WorldState] by the simulation between them. *)

From stdpp Require Import gmap strings.
From S2P Require Import Prelude Word SolidityAbi StateDb Arith VmTypes FrameContext Gasometer SharedCache Interpreter.
From S2P Require Import WorldState WorldSpec WorldTypes Frame Frames FrameStack WorldLaws Transact.
Local Open Scope Z_scope.

(** ** Views *)

Abbreviation View := (World * Z)%type.

Section views.
Context `{Rlp} {T : Type} {ST : StorageTrait OwnedStateKey T} (db : T).

Definition view_upd (a : Z) (x : Acct) (v : View) : View := (world_upd a x v.1, v.2).

(** The account at an address, or the one that is created there. *)
Definition acct_or_new (v : View) (a start : Z) : option Acct :=
  match v.1 a with
  | Ok (Some x) => Some x
  | Ok None => Some (empty_acct db a 0 start None false false)
  | _ => None
  end.

Definition view_inc (a start : Z) (v : View) : View :=
  match acct_or_new v a start with
  | Some x => view_upd a (put_nonce (a_nonce x + 1) x) v
  | None => v
  end.

Definition view_debit (a by_ : Z) (v : View) : View :=
  match v.1 a with
  | Ok (Some x) => if by_ =? 0 then v else view_upd a (put_balance (a_balance x - by_) x) v
  | _ => v
  end.

Definition view_credit (a by_ : Z) (mode : CleanupMode) (start : Z) (v : View) : View :=
  match acct_or_new v a start with
  | Some x =>
      if negb (by_ =? 0) || (is_force_create mode && match v.1 a with Ok None => true | _ => false end)
      then view_upd a (put_balance (a_balance x + by_) x) v else v
  | None => v
  end.
End views.

Definition read_view {A} (v : View) (a : Z) (f : option Acct -> A) : vm_result A :=
  vm_of (let? o := v.1 a in Ok (f o)).

Definition nonce_in (v : View) (a : Z) : vm_result Z :=
  read_view v a (fun o => match o with Some x => a_nonce x | None => 0 end).
Definition balance_in (v : View) (a : Z) : vm_result Z :=
  read_view v a (fun o => match o with Some x => a_balance x | None => 0 end).
Definition exists_in (v : View) (a : Z) : vm_result bool := read_view v a (fun o => bool_decide (is_Some o)).

(** ** What a transaction relies on *)

(** [at_ B n v sv s]: [s] shows [v], has saved [sv], and leaves room for [n] increments of nonces;
    the accounts hold at most [B] in all. *)
Class TxStateLaws (St : Type) {SS : StateOps St} {FS : FrameState St} `{Rlp} {T : Type}
    {ST : StorageTrait OwnedStateKey T} (db : T)
    (at_ : Z -> nat -> View -> list View -> St -> Prop) : Prop := {
  tl_frame B : FrameStateLaws St View (at_ B);
  tl_bound B n v sv s : at_ B n v sv s -> 0 <= B < 2 ^ 256;
  tl_nonce B n v sv s a : at_ B n v sv s -> is_word 160 a -> st_nonce s a = nonce_in v a;
  tl_balance B n v sv s a : at_ B n v sv s -> is_word 160 a -> st_balance s a = balance_in v a;
  tl_exists B n v sv s a : at_ B n v sv s -> is_word 160 a -> st_exists s a = exists_in v a;
  tl_inc_nonce B n v sv s a start :
    at_ B (S n) v sv s -> is_word 160 a -> small start ->
    wp (st_inc_nonce a start) s (fun _ => at_ B n (view_inc db a start v) sv) (fun e _ => db_error e);
  tl_sub_balance B n v s t a x m :
    at_ B n v [] s -> is_word 160 a -> affordable s a x ->
    wp (st_sub_balance a x m) (s, t)
      (fun _ p => at_ (B - x) n (view_debit a x v) [] p.1) (fun e _ => db_error e);
  tl_add_balance B n v s t a x m start :
    at_ B n v [] s -> is_word 160 a -> 0 <= x -> B + x < 2 ^ 256 -> small start ->
    wp (st_add_balance a x m start) (s, t)
      (fun _ p => at_ (B + x) n (view_credit db a x m start v) [] p.1 /\ exists b, balance_in v a = Ok b)
      (fun e _ => db_error e);
  tl_remove_contract B n v s a :
    at_ B n v [] s ->
    wp (st_remove_contract a) s (fun _ s' => exists v', at_ B n v' [] s') (fun e _ => db_error e);
  tl_subtract B n v s x :
    at_ B n v [] s -> exists v', at_ B n v' [] (st_subtract_total_issued x s);
  tl_code_errors s a e : st_code s a = Err e -> db_error e;
  tl_code_hash_errors s a e : st_code_hash s a = Err e -> db_error e;
}.

(** ** The specification *)

Section spec_tx.
Context (keccak : list byte -> Z) (Hkeccak : typed_keccak keccak).
Context `{Rlp} {T : Type} {ST : StorageTrait OwnedStateKey T} (db : T).
Context (Hdb : typed_db db) (Hcalm : calm_db db).

Abbreviation exec := (exec_width (spec_cmd keccak db)).
Local Instance tx_spec_state : StateOps Snapshots := cmd_state exec.
Local Instance tx_spec_frame_state : FrameState Snapshots := cmd_frame_state exec.

Lemma ask_read c a s {A} (f : option Acct -> A) (g : Answer -> vm_result A) (k : A -> Answer) :
  (forall t, exec c (s, t) = on_world (spec_read a (fun o => k (f o))) (s, t)) ->
  (forall x, g (k x) = Ok x) ->
  result_bind (ask exec c s) g = read_view (cur s, tokens s) a f.
Proof.
  intros Ec Eg. unfold ask, read_view. rewrite Ec. unfold on_world, spec_read, bind, spec_lookup, ret. cbn.
  destruct (cur s a); cbn; [apply Eg | done | done].
Qed.

Lemma supply_nonneg B w : supply_below B w -> 0 <= B.
Proof. intros HB. apply (HB []); [apply base.NoDup_nil_2 | done]. Qed.

Lemma worthy_inv B sv n v s : world_at B n v sv s -> v = (cur s, tokens s) /\ saved s = sv /\ worthy B B n s.
Proof. by intros (<- & ? & ?). Qed.

(** A state that has saved nothing is bounded by what it holds. *)
Lemma worthy_unsaved B C n s : worthy B C n s -> saved s = [] -> worthy C C n s.
Proof. intros [[? ?] ? ? ?] E. split; [lia | done | done |]. by rewrite E. Qed.

Lemma spec_inc_at B n v sv s a start :
  world_at B (S n) v sv s -> is_address a -> small start ->
  wp (perform exec (CIncNonce a start)) s (fun _ => world_at B n (view_inc db a start v) sv) (fun e _ => db_error e).
Proof.
  intros (-> & Hs & Hw)%worthy_inv Ha Hst.
  assert (Einc : exec (CIncNonce a start) = spec_cmd keccak db (CIncNonce a start))
    by (unfold exec_width; cbn [at_width]; by rewrite (h160_id a Ha), (u256_id _ (small_word _ Hst))).
  pose proof (inc_wp keccak db Hdb Hcalm B n s a start Hw Ha Hst) as Hwp. destruct Hst as [? ?].
  pose proof (lookup_sound _ _ _ _ a Hw) as Hl. pose proof (wo_level _ _ _ _ Hw).
  assert (Hok : forall x, cur s a = Ok (Some x) \/ cur s a = Ok None /\ x = empty_acct db a 0 start None false false ->
    a_nonce x + 1 < 2 ^ 256 ->
    wp (perform exec (CIncNonce a start)) s (fun _ => world_at B n (view_inc db a start (cur s, tokens s)) sv)
      (fun e _ => db_error e)).
  { intros x Hx Hn. pose proof (inc_eq keccak db s a start x Hx Hn) as E. unfold wp in *. unfold perform. rewrite Einc, E in *.
    cbn [fst snd rwp vm_of result_bind] in *. destruct Hwp as (Hs' & Hw' & _).
    split_and!; [| by rewrite <- Hs | done]. unfold view_inc, acct_or_new. cbn [fst snd].
    by destruct Hx as [-> | [-> ->]]. }
  destruct (cur s a) as [[x |] | e |] eqn:E; [| | | done].
  - destruct Hl as ([_ Hn _] & _). apply (Hok x); [by left | lia].
  - apply (Hok (empty_acct db a 0 start None false false)); [by right | cbn; lia].
  - unfold wp, perform. rewrite Einc. cbn. unfold done_, answer, on_world, spec_change, bind, spec_lookup. cbn [fst snd]. rewrite E.
    cbn. by eexists.
Qed.

(** *** The exact effect of the operations *)

Abbreviation shown s := (cur s, tokens s).

Lemma exact_track (b : bool) a s t (P : Snapshots -> Prop) (R : DbError -> Snapshots * gset Z -> Prop) :
  P s -> wp (if b then spec_track a else ret tt) (s, t) (fun _ p => P p.1) R.
Proof. intros HP. by destruct b. Qed.

Lemma sub_exact B n s t a x m :
  worthy B B n s -> is_address a -> x = 0 \/ (exists y, cur s a = Ok (Some y) /\ 0 <= x <= a_balance y) ->
  wp (spec_sub_balance a x m) (s, t) (fun _ p => shown p.1 = view_debit a x (shown s)) (fun _ _ => True).
Proof.
  intros Hw Ha Hx. unfold spec_sub_balance. apply wp_bind.
  assert (Hrest : forall s' t', shown s' = view_debit a x (shown s) -> worthy B B n s' ->
    wp (match m with
        | TrackTouched => b <~ on_world (spec_read a (fun o => bool_decide (is_Some o))) ;;
            if (b : bool) then spec_track a else ret tt
        | _ => ret tt
        end) (s', t') (fun _ p => shown p.1 = view_debit a x (shown s)) (fun _ _ => True)).
  { intros s' t' Hs' Hw'. destruct m; try by apply wp_ret.
    apply wp_bind. eapply read_wp; [exact Hw' | done |]. intros o.
    by apply (exact_track _ _ _ _ (fun q => shown q = view_debit a x (shown s))). }
  unfold view_debit in *. cbn [fst snd] in *. destruct (x =? 0) eqn:E; b2p; cbn [negb].
  - apply wp_ret. apply Hrest; [| done]. by destruct (cur s a) as [[] | |].
  - destruct Hx as [-> | (y & Ey & Hx)]; [done |]. rewrite Ey in *.
    pose proof (lookup_sound _ _ _ _ a Hw) as Hl. rewrite Ey in Hl. destruct Hl as (Hs & Hb & Hu).
    assert (Ech : on_world (spec_change a (Err (IncompleteDatabase a)) (spec_sub x)) (s, t) =
      (Ok tt, (set_world (world_upd a (put_balance (a_balance y - x) y) (cur s)) s, t))).
    { unfold on_world, spec_change, bind, spec_lookup, lift, spec_sub. cbn [fst snd]. rewrite Ey.
      by rewrite (proj2 (Z.leb_le x _)) by lia. }
    unfold wp. rewrite Ech. apply Hrest; [done |]. cbn [fst]. pose proof (wo_bound _ _ _ _ Hw).
    eapply put_worthy; [done | done | apply sound_balance; [done | destruct Hu; split; lia] | cbn; lia].
Qed.

Lemma add_exact B n s t a x m start :
  worthy B B n s -> is_address a -> 0 <= x -> B + x < 2 ^ 256 ->
  wp (spec_add_balance db a x m start) (s, t)
    (fun _ p => shown p.1 = view_credit db a x m start (shown s) /\ exists b, balance_in (shown s) a = Ok b)
    (fun _ _ => True).
Proof.
  intros Hw Ha Hx HB. unfold spec_add_balance. apply wp_bind.
  pose proof (lookup_sound _ _ _ _ a Hw) as Hl.
  pose proof (supply_bal _ _ a (fu_supply _ _ _ (wo_cur _ _ _ _ Hw)) Ha) as Hle.
  unfold wp, on_world, spec_read, spec_change, bind, spec_lookup, lift. cbn [fst snd].
  unfold view_credit, acct_or_new, balance_in, read_view. cbn [fst snd].
  assert (Hadd : forall y, a_balance y = bal (cur s) a -> spec_add x y = Ok (put_balance (a_balance y + x) y)).
  { intros y Ey. unfold spec_add, checked_add. by rewrite (proj2 (Z.ltb_lt _ (2 ^ 256))) by lia. }
  destruct (cur s a) as [[y |] | e |] eqn:E; cbn [ret fst snd rwp]; [| | done | done].
  - rewrite bool_decide_eq_true_2 by done. cbn [negb andb]. rewrite andb_false_r, orb_false_r.
    destruct Hl as (_ & Hb & _).
    destruct (negb (x =? 0)).
    + cbn [fst snd]. rewrite E, (Hadd y) by done. cbn. destruct m; cbn; eauto.
    + cbn. destruct m; cbn; eauto.
  - rewrite bool_decide_eq_false_2 by (intros [? ?]; done). cbn [negb andb]. rewrite !andb_true_r.
    destruct (negb (x =? 0) || is_force_create m).
    + cbn [fst snd]. rewrite E, Hadd by (by cbn). cbn. destruct m; cbn; eauto.
    + cbn. destruct m; cbn; eauto.
Qed.

Lemma touching_exact c p (Q : Snapshots -> Prop) :
  wp (exec c) p (fun _ p => Q p.1) (fun _ _ => True) ->
  wp (perform_touching exec c) p (fun _ p => Q p.1) (fun e _ => db_error e).
Proof. unfold wp, perform_touching. destruct (exec c p) as [[] q]; cbn; try done. by eexists. Qed.

Lemma done_exact {S} (m : M DbError S unit) p (Q : S -> Prop) :
  wp m p (fun _ => Q) (fun _ _ => True) -> wp (done_ m) p (fun _ => Q) (fun _ _ => True).
Proof. apply done_wp. Qed.

Lemma spec_sub_at B n v s t a x m :
  world_at B n v [] s -> is_address a -> affordable s a x ->
  wp (perform_touching exec (CSubBalance a x m)) (s, t)
    (fun _ p => world_at (B - x) n (view_debit a x v) [] p.1) (fun e _ => db_error e).
Proof.
  intros (-> & Hs & Hw)%worthy_inv Hwa Ha. pose proof (balance_affordable _ _ _ _ _ _ _ _ Hw Ha) as Hx.
  rewrite (h160_id a Hwa) in Hx.
  apply (touching_exact _ _ (world_at (B - x) n (view_debit a x (shown s)) [])).
  unfold exec_width. cbn [at_width]. rewrite (h160_id a Hwa), (u256_id _ (affordable_word _ _ _ _ _ _ _ _ Hw Ha)).
  apply (done_exact _ _ (fun p => world_at (B - x) n (view_debit a x (shown s)) [] p.1)).
  eapply wp_mono; [apply wp_conj; [apply (sub_wp B B n s t a x m Hw Hwa Hx) | apply (sub_exact B n s t a x m Hw Hwa Hx)] | | done].
  intros [] p [(Hs' & Hw' & _) Hv]. split_and!; [done | by rewrite Hs' |].
  eapply worthy_unsaved; [done | by rewrite Hs'].
Qed.

Lemma worthy_more B B' n s : worthy B B n s -> B <= B' < 2 ^ 256 -> saved s = [] -> worthy B' B n s.
Proof. intros [? ? ? ?] HB E. split; [lia | done | done |]. by rewrite E. Qed.

Lemma spec_add_at B n v s t a x m start :
  world_at B n v [] s -> is_address a -> 0 <= x -> B + x < 2 ^ 256 -> small start ->
  wp (perform_touching exec (CAddBalance a x m start)) (s, t)
    (fun _ p => world_at (B + x) n (view_credit db a x m start v) [] p.1 /\ exists b, balance_in v a = Ok b)
    (fun e _ => db_error e).
Proof.
  intros (-> & Hs & Hw)%worthy_inv Ha Hx HB Hst.
  pose proof (supply_nonneg _ _ (fu_supply _ _ _ (wo_cur _ _ _ _ Hw))).
  apply (touching_exact _ _ (fun s' => world_at (B + x) n (view_credit db a x m start (shown s)) [] s' /\
    exists b, balance_in (shown s) a = Ok b)).
  unfold exec_width. cbn [at_width]. rewrite (h160_id a Ha), (u256_id x), (u256_id _ (small_word _ Hst)) by lia.
  apply (done_exact _ _ (fun p => world_at (B + x) n (view_credit db a x m start (shown s)) [] p.1 /\
    exists b, balance_in (shown s) a = Ok b)).
  eapply wp_mono; [apply wp_conj; [| apply (add_exact B n s t a x m start Hw Ha Hx HB)] | | done].
  - apply (add_wp db Hdb Hcalm (B + x) B n s t a x m start); [| done | done | lia | done].
    apply worthy_more; [done | lia | done].
  - intros [] p [[Hs' Hw'] [Hv Hb]]. split; [| done]. split_and!; [done | by rewrite Hs' | done].
Qed.

Lemma spec_remove_at B n v s a :
  world_at B n v [] s ->
  wp (perform exec (CRemoveContract a)) s (fun _ s' => exists v', world_at B n v' [] s') (fun e _ => db_error e).
Proof.
  intros (-> & Hs & Hw)%worthy_inv. unfold wp, perform. cbn. pose proof (wo_level _ _ _ _ Hw).
  eexists. split_and!; [done | done |]. pose proof (wo_bound _ _ _ _ Hw).
  eapply put_worthy; [done | apply h160_word | apply empty_sound; [done | done | done | lia | lia] |]. cbn.
  pose proof (lookup_sound _ _ _ _ (h160 a) Hw) as Hl. unfold bal in *.
  destruct (cur s (h160 a)) as [[y |] | |]; [destruct Hl as (_ & _ & ? & _) | | |]; lia.
Qed.

Lemma spec_tx_laws : TxStateLaws Snapshots db world_at.
Proof.
  constructor.
  - intros B. by apply spec_frame_laws.
  - intros B n v sv s (_ & _ & Hw). pose proof (wo_bound _ _ _ _ Hw).
    pose proof (supply_nonneg _ _ (fu_supply _ _ _ (wo_cur _ _ _ _ Hw))). lia.
  - intros B n v sv s a (-> & _ & _)%worthy_inv Ha. apply (ask_read _ a s _ to_num ANum); [| done].
    intros t. unfold exec_width. cbn [at_width]. by rewrite (h160_id a Ha).
  - intros B n v sv s a (-> & _ & _)%worthy_inv Ha. apply (ask_read _ a s _ to_num ANum); [| done].
    intros t. unfold exec_width. cbn [at_width]. by rewrite (h160_id a Ha).
  - intros B n v sv s a (-> & _ & _)%worthy_inv Ha. apply (ask_read _ a s _ to_bool ABool); [| done].
    intros t. unfold exec_width. cbn [at_width]. by rewrite (h160_id a Ha).
  - intros. by apply spec_inc_at.
  - intros. by apply spec_sub_at.
  - intros. by apply spec_add_at.
  - intros. by eapply spec_remove_at.
  - intros B n v s x (-> & Hs & [? ? ? ?])%worthy_inv. eexists. split_and!; [done | done |]. by split.
  - intros s a e. cbn. unfold ask. destruct (exec (CCode a) (s, ∅)) as [[x | |] p]; cbn; try done.
    + by destruct x.
    + intros [= <-]. by eexists.
  - intros s a e. cbn. unfold ask. destruct (exec (CCodeHash a) (s, ∅)) as [[x | |] p]; cbn; try done.
    + by destruct x.
    + intros [= <-]. by eexists.
Qed.
End spec_tx.

(** ** The implementation *)

Section state_tx.
Context (keccak : list byte -> Z) (Hkeccak : typed_keccak keccak).
Context `{Rlp} {T : Type} {ST : StorageTrait OwnedStateKey T} (db : T).
Context (Hdb : typed_db db) (Hcalm : calm_db db).

Let R : State T -> Snapshots -> Prop := refines db True.

Abbreviation exec := (exec_width (exec_cmd keccak)).
Abbreviation exec' := (exec_width (spec_cmd keccak db)).

Lemma state_sim c : sim (fun p q => R p.1 q.1 /\ p.2 = q.2) (exec c) (exec' c).
Proof. apply (cmd_sim keccak db True); [done | done |]. intros _. apply at_width_typed. Qed.

Lemma state_perform c s w (Q : Snapshots -> Prop) :
  R s w -> wp (perform exec' c) w (fun _ => Q) (fun e _ => db_error e) ->
  wp (perform exec c) s (fun _ s' => exists w', R s' w' /\ Q w') (fun e _ => db_error e).
Proof.
  intros HR Hwp. pose proof (perform_sim _ _ R state_sim c s w Q (fun _ => True) HR) as Hs.
  eapply wp_mono; [apply wp_conj; [apply Hs |] | by intros [] s' [? _] |].
  - eapply wp_mono; [exact Hwp | done | done].
  - instantiate (1 := fun e _ => db_error e). instantiate (1 := fun _ _ => True).
    pose proof (perform_errors exec c s) as He. unfold wp. specialize (Hs ltac:(eapply wp_mono; [exact Hwp | done | done])).
    unfold wp in Hs. destruct (perform exec c s) as [[] s']; cbn in *; try done. by eapply He.
  - by intros e s' [_ ?].
Qed.

Lemma state_touching c s t w (Q : Snapshots -> Prop) :
  R s w -> wp (perform_touching exec' c) (w, t) (fun _ p => Q p.1) (fun e _ => db_error e) ->
  wp (perform_touching exec c) (s, t) (fun _ p => exists w', R p.1 w' /\ Q w') (fun e _ => db_error e).
Proof.
  intros HR Hwp.
  assert (Hs : wp (perform_touching exec c) (s, t) (fun _ p => exists w', R p.1 w' /\ Q w') (fun _ p => exists w', R p.1 w' /\ True)).
  { apply (touching_sim _ _ R state_sim c s w t Q (fun _ => True) HR). eapply wp_mono; [exact Hwp | done | done]. }
  pose proof (touching_errors exec c (s, t)) as He. unfold wp in *.
  destruct (perform_touching exec c (s, t)) as [[] p]; cbn in *; try done. by eapply He.
Qed.

Lemma state_tx_laws :
  TxStateLaws (State T) (SS := state_ops keccak) (FS := state_frame_ops keccak) db (state_at db).
Proof.
  pose proof (spec_tx_laws keccak Hkeccak db Hdb Hcalm) as SL.
  constructor.
  - intros B. by apply state_frame_laws.
  - intros B n v sv s (w & _ & Hw). by eapply (tl_bound (TxStateLaws := SL)).
  - intros B n v sv s a (w & HR & Hw) Ha. rewrite <- (tl_nonce (TxStateLaws := SL) B n v sv w a Hw Ha).
    cbn. by rewrite (ask_sim _ _ R state_sim _ _ _ HR).
  - intros B n v sv s a (w & HR & Hw) Ha. rewrite <- (tl_balance (TxStateLaws := SL) B n v sv w a Hw Ha).
    cbn. by rewrite (ask_sim _ _ R state_sim _ _ _ HR).
  - intros B n v sv s a (w & HR & Hw) Ha. rewrite <- (tl_exists (TxStateLaws := SL) B n v sv w a Hw Ha).
    cbn. by rewrite (ask_sim _ _ R state_sim _ _ _ HR).
  - intros B n v sv s a start (w & HR & Hw) Ha Hst.
    apply (state_perform _ s w _ HR). by apply (tl_inc_nonce (TxStateLaws := SL)).
  - intros B n v s t a x m (w & HR & Hw) Hwa Ha.
    apply (state_touching _ s t w _ HR). apply (tl_sub_balance (TxStateLaws := SL)); [done | done |].
    unfold affordable in *. cbn in Ha |- *. by rewrite (ask_sim _ _ R state_sim _ _ _ HR) in Ha.
  - intros B n v s t a x m start (w & HR & Hw) Ha Hx HB Hst.
    eapply wp_mono; [apply (state_touching _ s t w
      (fun w' => world_at (B + x) n (view_credit db a x m start v) [] w' /\ exists b, balance_in v a = Ok b) HR);
      by apply (tl_add_balance (TxStateLaws := SL)) | | done].
    intros [] p (w' & HR' & Hw' & Hb). split; [by exists w' | done].
  - intros B n v s a (w & HR & Hw).
    eapply wp_mono; [apply (state_perform _ s w (fun w' => exists v', world_at B n v' [] w') HR);
      by eapply (tl_remove_contract (TxStateLaws := SL)) | | done].
    intros [] s' (w' & HR' & v' & Hv'). by exists v', w'.
  - intros B n v s x (w & HR & Hw).
    destruct (tl_subtract (TxStateLaws := SL) B n v w x Hw) as [v' Hv'].
    exists v', (perform exec' (CSubtractTotalIssued x) w).2. split; [| done].
    by refine (perform_state_sim _ _ R state_sim _ _ _ HR _).
  - intros s a e. cbn. unfold ask. destruct (exec (CCode a) (s, ∅)) as [[x | |] p]; cbn; try done.
    + by destruct x.
    + intros [= <-]. by eexists.
  - intros s a e. cbn. unfold ask. destruct (exec (CCodeHash a) (s, ∅)) as [[x | |] p]; cbn; try done.
    + by destruct x.
    + intros [= <-]. by eexists.
Qed.
End state_tx.
