(* ===== verification/TransactSafety.v ===== *)
(** * Transactions, from the first check to the refund

    Transactions ([Transact]) over a state that shows worlds ([TransactLaws]). A transaction runs
    to an outcome without a panic, within turns and fuel bounded by its gas; one that is not
    executed changes nothing; one that fails pays its fee, moves its sender's nonce and changes
    nothing else; and no transaction creates money: the accounts hold in all at most what they
    held before, less the fee. *)

From stdpp Require Import gmap strings.
From S2P Require Import Prelude Word SolidityAbi StateDb Arith VmTypes FrameContext Gasometer SharedCache Interpreter.
From S2P Require Import WorldState WorldSpec WorldTypes StepSafety Frame Frames FrameStack WorldLaws Transact TransactLaws.
Local Open Scope Z_scope.

(** ** Gas *)

Lemma add_data_gas_ok spec data g :
  wf_spec spec -> 0 <= g -> g + len data * 0x40000000 < 2 ^ 64 ->
  exists g', add_data_gas g data spec = Ok g' /\ g <= g' < 2 ^ 64.
Proof.
  intros W. revert g. induction data as [| b data IH]; intros g Hg Hlt.
  { exists g. split; [done |]. unfold len in Hlt. cbn in Hlt. lia. }
  rewrite len_cons in Hlt. pose proof (len_nonneg data). cbn [add_data_gas].
  set (c := if decide (b = x00) then _ else _).
  assert (Hc : small c).
  { unfold c. case_decide; [apply (wf_tx_data_zero_gas _ W) | apply (wf_tx_data_non_zero_gas _ W)]. }
  destruct Hc as [? ?]. unfold checked_add. rewrite (proj2 (Z.ltb_lt _ (2 ^ 64))) by lia. cbn [result_bind].
  destruct (IH (g + c)) as (g' & E & ?); [lia | lia |]. exists g'. split; [done | lia].
Qed.

Lemma gas_required_ok spec b data :
  wf_spec spec -> len data < 2 ^ 32 -> exists g, gas_required_for b data spec = Ok g /\ 0 <= g < 2 ^ 64.
Proof.
  intros W Hl. unfold gas_required_for. set (g := if b then _ else _).
  assert (Hg : small g) by (unfold g; destruct b; [apply (wf_tx_create_gas _ W) | apply (wf_tx_gas _ W)]).
  destruct Hg. destruct (add_data_gas_ok spec data g W) as (g' & E & ?); [lia | lia |].
  exists g'. split; [done | lia].
Qed.

Lemma saturating_mul_eq a b : a * b < 2 ^ 256 -> saturating_mul a b = a * b.
Proof. unfold saturating_mul. lia. Qed.

(** What is charged: the gas used, and at least three quarters of the gas. *)
Definition charged_gas (gas gas_left : Z) : Z := Z.max (gas - gas_left) (gas - gas / 4).

Lemma charged_gas_bounds gas gas_left : 0 <= gas_left <= gas -> 0 <= charged_gas gas gas_left <= gas.
Proof. unfold charged_gas. intros. pose proof (Z.div_pos gas 4). lia. Qed.

Lemma settle_gas_ok tx gas_left :
  is_usize (tx_gas tx) -> 0 <= tx_gas_price tx -> tx_gas tx * tx_gas_price tx < 2 ^ 256 ->
  0 <= gas_left <= tx_gas tx ->
  settle_gas tx gas_left =
    let charged := charged_gas (tx_gas tx) gas_left in
    Ok (tx_gas tx - gas_left, charged, charged * tx_gas_price tx, (tx_gas tx - charged) * tx_gas_price tx).
Proof.
  intros [Hg Hg'] Hp Hprod Hl. pose proof (charged_gas_bounds _ _ Hl) as Hc. cbn zeta.
  assert (Hfee : forall x, 0 <= x <= tx_gas tx -> saturating_mul x (tx_gas_price tx) = x * tx_gas_price tx).
  { intros x Hx. apply saturating_mul_eq. pose proof (Z.mul_le_mono_nonneg_r x (tx_gas tx) (tx_gas_price tx)). lia. }
  unfold settle_gas, checked_sub, checked_add.
  rewrite (proj2 (Z.leb_le gas_left _)) by lia. cbn [result_bind].
  rewrite (proj2 (Z.ltb_lt (gas_left + gas_left) (2 ^ 256))) by lia. cbn [result_bind].
  rewrite (proj2 (Z.ltb_lt (gas_left + gas_left + gas_left) (2 ^ 256))) by lia. cbn [result_bind].
  rewrite Z.shiftr_div_pow2 by lia. change (2 ^ 2) with 4.
  pose proof (Z.div_pos (tx_gas tx) 4). pose proof (Z.div_mod (tx_gas tx) 4). pose proof (Z.mod_pos_bound (tx_gas tx) 4).
  unfold charged_gas in *. destruct (Z.leb_spec (tx_gas tx - gas_left) (gas_left + gas_left + gas_left)).
  - rewrite (proj2 (Z.leb_le (tx_gas tx / 4) _)) by lia. cbn [result_bind].
    rewrite Z.max_r by lia. rewrite !Hfee by lia. repeat f_equal. lia.
  - rewrite Z.max_l by lia. rewrite !Hfee by lia. repeat f_equal. lia.
Qed.

(** ** Views *)

Definition same_view (v v' : View) : Prop := (forall a, v.1 a = v'.1 a) /\ v.2 = v'.2.

Section paid.
Context `{Rlp} {T : Type} {ST : StorageTrait OwnedStateKey T} (db : T).

(** The account that sends a transaction pays the fee and moves its nonce. *)
Definition view_paid (a start fee : Z) (v : View) : View :=
  match acct_or_new db v a start with
  | Some x => view_upd a (put_balance (a_balance x - fee) (put_nonce (a_nonce x + 1) x)) v
  | None => v
  end.

Lemma view_upd_lookup a x v : (view_upd a x v).1 a = Ok (Some x).
Proof. unfold view_upd, world_upd. cbn. by rewrite decide_True. Qed.

Lemma put_balance_id x : put_balance (a_balance x) x = x.
Proof. by destruct x. Qed.

(** After the increment of the nonce the account is there. *)
Lemma view_inc_lookup a start v x :
  acct_or_new db v a start = Some x ->
  (view_inc db a start v).1 a = Ok (Some (put_nonce (a_nonce x + 1) x)).
Proof. intros E. unfold view_inc. rewrite E. apply view_upd_lookup. Qed.

Lemma balance_in_new v a start b :
  balance_in v a = Ok b -> exists x, acct_or_new db v a start = Some x /\ a_balance x = b.
Proof.
  unfold balance_in, read_view, acct_or_new. destruct (v.1 a) as [[x |] | |]; cbn; intros E; simplify_eq; by eexists.
Qed.

Lemma balance_in_inc v a start b : balance_in v a = Ok b -> balance_in (view_inc db a start v) a = Ok b.
Proof.
  intros Hb. destruct (balance_in_new v a start b Hb) as (x & E & <-).
  unfold balance_in, read_view. by rewrite (view_inc_lookup _ _ _ _ E).
Qed.

Lemma balance_in_debit v a b x : balance_in v a = Ok b -> 0 <= x <= b -> balance_in (view_debit a x v) a = Ok (b - x).
Proof.
  intros Hb Hx. unfold view_debit. destruct (v.1 a) as [[y |] | e |] eqn:E;
    unfold balance_in, read_view in *; rewrite E in Hb; cbn in Hb; simplify_eq.
  - destruct (x =? 0) eqn:E0; b2p; [rewrite E; cbn; f_equal; lia |]. by rewrite view_upd_lookup.
  - rewrite E. cbn. f_equal. lia.
Qed.

(** Charging the cost of the gas and refunding a part of it comes to paying the difference. *)
Lemma paid_view a start cost refund mode v b :
  balance_in v a = Ok b ->
  same_view (view_credit db a refund mode start (view_debit a cost (view_inc db a start v)))
    (view_paid a start (cost - refund) v).
Proof.
  intros Hb. destruct (balance_in_new v a start b Hb) as (x & E & _).
  pose proof (view_inc_lookup a start v x E) as Hinc. unfold view_paid. rewrite E.
  set (v1 := view_inc db a start v) in *.
  assert (Hv1 : same_view v1 (view_upd a (put_nonce (a_nonce x + 1) x) v)).
  { unfold v1, view_inc. by rewrite E. }
  destruct Hv1 as [Hw Ht]. unfold view_debit. rewrite Hinc.
  set (v2 := if cost =? 0 then v1 else view_upd a (put_balance (a_balance (put_nonce (a_nonce x + 1) x) - cost) (put_nonce (a_nonce x + 1) x)) v1).
  assert (Hv2 : v2.1 a = Ok (Some (put_balance (a_balance x - cost) (put_nonce (a_nonce x + 1) x))) /\
    (forall c, c <> a -> v2.1 c = v.1 c) /\ v2.2 = v.2).
  { unfold v2. destruct (cost =? 0) eqn:E0; b2p.
    - rewrite Hinc, E0, Z.sub_0_r. split_and!; [| | done].
      + by destruct x.
      + intros c Hc. rewrite Hw. cbn. unfold world_upd. by rewrite decide_False.
    - rewrite view_upd_lookup. split_and!; [done | | done].
      intros c Hc. cbn. unfold world_upd at 1. rewrite decide_False by done. rewrite Hw. cbn. unfold world_upd. by rewrite decide_False. }
  destruct Hv2 as (H2 & H2' & H2t). unfold view_credit, acct_or_new. rewrite H2, andb_false_r, orb_false_r.
  destruct (refund =? 0) eqn:E0; b2p; cbn [negb].
  - subst refund. rewrite Z.sub_0_r. split; [| done]. intros c. cbn. unfold world_upd. case_decide; [by subst | by apply H2'].
  - split; [| done]. intros c. cbn. unfold world_upd. case_decide; [| by apply H2'].
    subst c. unfold put_balance. cbn. repeat f_equal. lia.
Qed.
End paid.

(** ** Transactions *)

Record tx_ok (tx : Transaction) : Prop := {
  tk_sender : is_word 160 (tx_sender tx);
  tk_gas : is_usize (tx_gas tx);
  tk_gas_price : is_u256 (tx_gas_price tx);
  tk_value : is_u256 (tx_value tx);
  tk_data : len (tx_data tx) < 2 ^ 32;
  tk_action : forall a, tx_action tx = ActionCall a -> is_word 160 a;
}.

Section transactions.
Context {St : Type} {SS : StateOps St} {FS : FrameState St} {L : Type} {LL : Lru L}.
Context `{Rlp} {T : Type} {ST : StorageTrait OwnedStateKey T} (db : T).
Context {at_ : Z -> nat -> View -> list View -> St -> Prop} {TL : TxStateLaws St db at_}.
Context (keccak : list byte -> Z) (Hkeccak : forall l, is_u256 (keccak l)).
Context (rlp_sender_nonce : Z -> Z -> list byte).
Context (iter : gset Z -> list Z) (Hiter : forall s, iter s ≡ₚ elements s).
Context (env : Env) (Henv : wf_env env) (Hlast : is_u256 (env_last_hash env)).
Context (spec : Spec) (W : wf_spec spec) (mc : ChainMachine St) (WM : forall B, wf_machine (at_ B) spec mc).
Context (code_of : Z -> option (list byte)).
Context (tx : Transaction) (TX : tx_ok tx).
Context (settings : TransactCheckSettings) (Hcharge : charge_gas settings = true).

Abbreviation TM := (M Error (St * L)).
Abbreviation sender := (tx_sender tx).
Abbreviation start := (account_start_nonce spec).
Abbreviation cost := (tx_gas tx * tx_gas_price tx).

Lemma wp_read_state {A} (f : St -> vm_result A) (p : St * L) (Q : A -> St * L -> Prop) R :
  rwp (f p.1) (fun a => Q a p) (fun e => R e p) -> wp (read_state f) p Q R.
Proof. unfold wp, read_state. by destruct (f p.1). Qed.

Lemma wp_on_tx_state {A} (m : M Error St A) (p : St * L) (Q : A -> St * L -> Prop) R :
  wp m p.1 (fun a s => Q a (s, p.2)) (fun e s => R e (s, p.2)) -> wp (on_tx_state m) p Q R.
Proof. unfold wp, on_tx_state. by destruct (m p.1) as [[] s]. Qed.

Lemma wp_touching {A} sub (m : M Error (St * gset Z) A) (p : St * L) (Q : Substate -> St * L -> Prop) R :
  wp m (p.1, touched sub)
    (fun _ q => Q (mkSubstate (suicides sub) q.2 (logs sub) (contracts_created sub)) (q.1, p.2))
    (fun e q => R e (q.1, p.2)) -> wp (touching sub m) p Q R.
Proof. unfold wp, touching. by destruct (m _) as [[] [s t]]. Qed.

Lemma vm_of_rwp {A} (r : db_result A) (Q : A -> Prop) :
  rwp (vm_of r) (fun _ => True) (fun _ => True) -> (forall a, vm_of r = Ok a -> Q a) -> rwp (vm_of r) Q db_error.
Proof. destruct r; cbn; intros Hr HQ; [by apply HQ | by eexists | done]. Qed.

Section state.
Context (B : Z) (v : View).

Abbreviation inv n s := (at_ B n v [] s).
Abbreviation laws := (xl_state (FrameStateLaws := tl_frame B) []).

(** Reads of the sender's account, by the view. *)
Lemma read_nonce n s (Q : Z -> Prop) :
  inv n s -> (forall k, nonce_in v sender = Ok k -> is_u256 k -> Q k) -> rwp (st_nonce s sender) Q db_error.
Proof.
  intros Hs HQ. pose proof (sl_nonce (StateLaws := laws) n s sender (ex_intro _ v Hs)) as Hn.
  rewrite (tl_nonce _ _ _ _ _ _ Hs (tk_sender _ TX)) in *. unfold nonce_in, read_view in *.
  destruct (vm_of _) as [k | e |] eqn:E; cbn in *; [by apply HQ | by eapply vm_of_error | done].
Qed.

Lemma read_balance n s (Q : Z -> Prop) :
  inv n s -> (forall b, balance_in v sender = Ok b -> is_u256 b -> Q b) -> rwp (st_balance s sender) Q db_error.
Proof.
  intros Hs HQ. pose proof (sl_balance (StateLaws := laws) n s sender (ex_intro _ v Hs)) as Hn.
  rewrite (tl_balance _ _ _ _ _ _ Hs (tk_sender _ TX)) in *. unfold balance_in, read_view in *.
  destruct (vm_of _) as [k | e |] eqn:E; cbn in *; [by apply HQ | by eapply vm_of_error | done].
Qed.

Lemma read_exists n s (Q : bool -> Prop) :
  inv n s -> (forall b, exists_in v sender = Ok b -> Q b) -> rwp (st_exists s sender) Q db_error.
Proof.
  intros Hs HQ. pose proof (sl_exists (StateLaws := laws) n s sender (ex_intro _ v Hs)) as Hn.
  rewrite (tl_exists _ _ _ _ _ _ Hs (tk_sender _ TX)) in *. unfold exists_in, read_view in *.
  destruct (vm_of _) as [k | e |] eqn:E; cbn in *; [by apply HQ | by eapply vm_of_error | done].
Qed.

(** The nonce moves and an amount is taken, as both branches of the check do. *)
Lemma bump_and_charge n s (cache : L) sub x b (k : Substate -> TM (PreCheckResult St)) Q :
  inv (S n) s -> balance_in v sender = Ok b -> 0 <= x <= b ->
  (forall s' t, at_ (B - x) n (view_debit sender x (view_inc db sender start v)) [] s' ->
     wp (k (mkSubstate (suicides sub) t (logs sub) (contracts_created sub))) (s', cache) Q (fun e _ => db_error e)) ->
  wp (on_tx_state (st_inc_nonce sender start) ;;;
      sub' <~ touching sub (st_sub_balance sender x (cleanup_mode spec)) ;; k sub') (s, cache) Q (fun e _ => db_error e).
Proof.
  intros Hs Hb Hx Hk. apply wp_bind, wp_on_tx_state.
  eapply wp_mono; [eapply tl_inc_nonce; [exact Hs | apply (tk_sender _ TX) | apply (wf_account_start_nonce _ W)] | | done].
  intros [] s1 Hs1. cbn [fst snd]. apply wp_bind, wp_touching. cbn [fst snd].
  eapply wp_mono; [eapply tl_sub_balance; [exact Hs1 | apply (tk_sender _ TX) |] | | done].
  - right. exists b. rewrite (tl_balance _ _ _ _ _ _ Hs1 (tk_sender _ TX)), (balance_in_inc db _ _ _ _ Hb). done.
  - intros [] [s2 t] Hs2. by apply Hk.
Qed.

(** ** What is decided before the execution *)

Definition refused (n : nat) (o : ExecutionOutcome) (s : St) : Prop :=
  match o with
  | NotExecutedDrop (OldNonce expected got) =>
      nonce_in v sender = Ok expected /\ got = tx_nonce tx /\ got < expected /\ inv (S n) s
  | NotExecutedDrop (NotEnoughBaseGas expected actual) =>
      gas_required_for (tx_is_create tx) (tx_data tx) spec = Ok expected /\ actual = tx_gas tx /\
      actual < expected /\ inv (S n) s
  | NotExecutedToReconsiderPacking (InvalidNonce expected got) =>
      nonce_in v sender = Ok expected /\ got = tx_nonce tx /\ expected < got /\ inv (S n) s
  | NotExecutedToReconsiderPacking SenderDoesNotExist =>
      exists_in v sender = Ok false /\ inv (S n) s
  | ExecutionErrorBumpNonce (NotEnoughCash required got actual) executed =>
      balance_in v sender = Ok got /\ required = tx_value tx + cost /\ 0 <= got < required /\
      actual = Z.min cost got /\ executed = not_enough_balance_fee_charged tx actual /\
      at_ (B - actual) n (view_debit sender actual (view_inc db sender start v)) [] s
  | _ => False
  end.

(** The outermost frame is ready to start and its gas is paid for. *)
Record accepted (n : nat) (f : CallCreateFrame St) (p : ActionParams) (sub : Substate) (base : Z) (s : St) : Prop := {
  ac_nonce : nonce_in v sender = Ok (tx_nonce tx);
  ac_balance : exists b, balance_in v sender = Ok b /\ tx_value tx + cost <= b < 2 ^ 256;
  ac_base : gas_required_for (tx_is_create tx) (tx_data tx) spec = Ok base /\ 0 <= base <= tx_gas tx;
  ac_state : at_ (B - cost) n (view_debit sender cost (view_inc db sender start v)) [] s;
  ac_fresh : fresh (st_at := at_ (B - cost)) spec mc f p s;
  ac_depth : fc_depth (cf_context f) = 0;
  ac_gas : ap_gas p = tx_gas tx - base;
  ac_sub : suicides sub = ∅ /\ logs sub = [] /\ contracts_created sub = [];
}.

Lemma cost_nonneg : 0 <= cost.
Proof. destruct TX as [_ [? _] [? _] _ _ _]. apply Z.mul_nonneg_nonneg; lia. Qed.

Lemma charge_shortfall_ok n s cache got :
  inv (S n) s -> balance_in v sender = Ok got -> is_u256 got -> got < tx_value tx + cost ->
  wp (charge_shortfall spec tx settings cost (tx_value tx + cost) got : TM _) (s, cache)
    (fun r p => p.2 = cache /\ exists o, r = PreCheckFail o /\ refused n o p.1) (fun e _ => db_error e).
Proof.
  intros Hs Hb [Hg Hg'] Hlt. pose proof cost_nonneg. unfold charge_shortfall. apply wp_bind, wp_lift.
  unfold u256_from_u512. rewrite (proj2 (Z.ltb_lt _ (2 ^ 256))) by lia. cbn [rwp].
  apply wp_bind, wp_read_state. cbn [fst]. eapply read_exists; [exact Hs |]. intros b Eb.
  destruct b; cbn [negb andb]; [| destruct (real_execution settings)].
  2: { apply wp_ret. split; [done |]. by eexists. }
  all: eapply (bump_and_charge n s cache Substate_new (Z.min cost got) got); [done | done | lia |].
  all: intros s' t Hs'; apply wp_ret; (split; [done |]); eexists; (split; [done |]); by split_and!.
Qed.

Lemma top_constants p is_create :
  callee_ok p ->
  wf_constants spec (constants_of (FrameContext_new (ap_space p) env mc spec 0 (OriginInfo_from p)
    Substate_new is_create false)).
Proof.
  intros []. destruct (WM B). pose proof (wf_max_depth _ W) as [? _]. constructor; cbn; try done.
  intros a ic. rewrite fmap_Some. intros (ie & Eie & ->). by apply (wm_code a).
Qed.

Lemma top_call_fresh p s :
  callee_ok p -> is_usize (ap_gas p) -> payable s p -> ap_call_type p = Call -> plain_call p ->
  fresh (st_at := at_ B) spec mc (new_call_raw p env mc spec 0 false) p s.
Proof.
  intros Hp Hg Hpay Hk Hplain. constructor; cbn; try done.
  - constructor; cbn; try done. rewrite Hk. by apply top_constants.
  - unfold check_static_flag. by rewrite Hk.
  - destruct (machine_builtin mc _ _) as [b |] eqn:Eb.
    + unfold machine_builtin in Eb. apply bind_Some in Eb as (b' & Eb' & E). case_match; [| done]. simplify_eq.
      by apply (wm_builtins _ _ _ (WM B) _ _ Eb').
    + destruct (cm_internal_contracts mc _ _) as [ie |] eqn:Ei; [split; [by apply (wm_internal _ _ _ (WM B) _ _ Ei) | done] |].
      by destruct (ap_code p).
Qed.

Lemma top_create_fresh p s x :
  callee_ok p -> is_usize (ap_gas p) -> payable s p -> is_Some (ap_code p) -> ap_value p = Transfer x ->
  fresh (st_at := at_ B) spec mc (new_create_raw p env mc spec 0 false) p s.
Proof.
  intros Hp Hg Hpay Hc Hv. constructor; cbn; try done; [| by eexists].
  constructor; cbn; try done; [by apply top_constants |]. intros a [= <-]. by destruct Hp.
Qed.

(** The outermost frame of a transaction whose gas has been paid. *)
Lemma top_frame_ok n s cache nonce gas :
  inv n s -> is_usize gas -> affordable s sender (tx_value tx) ->
  wp (tx_top_frame keccak rlp_sender_nonce env mc spec tx nonce gas : TM _) (s, cache)
    (fun f q => q = (s, cache) /\ fc_depth (cf_context f) = 0 /\ exists p, ap_gas p = gas /\
       fresh (st_at := at_ B) spec mc f p s) (fun e _ => db_error e).
Proof.
  intros Hs Hg Ha. destruct TX as [Hsend _ Hprice Hval Hdata Hact]. unfold tx_top_frame.
  assert (Hbytes : wf_bytes (tx_data tx)) by (unfold wf_bytes; lia).
  destruct (tx_action tx) as [| a] eqn:Eact.
  - cbn [contract_address]. apply wp_ret. split_and!; [done | done |]. eexists. split; [| eapply top_create_fresh]; try done.
    + constructor; cbn; try done; apply is_word_u256_to_address.
    + by intros x [= <-].
  - apply wp_bind, wp_read_state. cbn [fst].
    pose proof (sl_code (StateLaws := laws) n s a (ex_intro _ v Hs)) as Hcode.
    pose proof (sl_code_hash (StateLaws := laws) n s a (ex_intro _ v Hs)) as Hhash.
    pose proof (tl_code_errors s a) as He. pose proof (tl_code_hash_errors s a) as He'.
    destruct (st_code s a) as [code | e |]; cbn [rwp] in *; [| by apply He | done].
    apply wp_bind, wp_read_state. cbn [fst].
    destruct (st_code_hash s a) as [hash | e |]; cbn [rwp] in *; [| by apply He' | done].
    apply wp_ret. split_and!; [done | done |]. eexists. split; [| eapply top_call_fresh]; try done.
    + constructor; cbn; try done; by apply Hact.
    + by intros x [= <-].
    + by split; [| eexists].
Qed.
End state.

Lemma preprocessing_ok B v n s cache :
  at_ B (S n) v [] s ->
  wp (transact_preprocessing keccak rlp_sender_nonce env mc spec tx settings : TM _) (s, cache)
    (fun r q => q.2 = cache /\
       match r with
       | PreCheckFail o => refused B v n o q.1
       | Pass f sub base => exists p, accepted B v n f p sub base q.1
       end) (fun e _ => db_error e).
Proof.
  intros Hs. destruct TX as [Hsend Hgas Hprice Hval Hdata Hact]. pose proof cost_nonneg as Hcost.
  unfold transact_preprocessing. apply wp_bind, wp_read_state. cbn [fst].
  eapply read_nonce; [exact Hs |]. intros nonce En Hn.
  destruct (Z.ltb_spec (tx_nonce tx) nonce); [by apply wp_ret |].
  destruct (Z.ltb_spec nonce (tx_nonce tx)); [by apply wp_ret |].
  assert (nonce = tx_nonce tx) by lia. subst nonce. apply wp_bind, wp_lift.
  destruct (gas_required_ok spec (tx_is_create tx) (tx_data tx) W Hdata) as (base & Eb & Hb). rewrite Eb. cbn [rwp].
  destruct (Z.ltb_spec (tx_gas tx) base).
  { apply wp_bind, wp_lift. unfold as_u64. destruct Hgas. rewrite (proj2 (Z.ltb_lt _ (2 ^ 64))) by lia.
    cbn [rwp]. by apply wp_ret. }
  apply wp_bind, wp_read_state. cbn [fst]. eapply read_balance; [exact Hs |]. intros bal Ebal Hbal.
  rewrite Hcharge. apply wp_bind, wp_lift. unfold checked_add.
  assert (cost <= 2 ^ 64 * 2 ^ 256) by (destruct Hgas, Hprice; apply Z.mul_le_mono_nonneg; lia).
  destruct Hval. rewrite (proj2 (Z.ltb_lt _ (2 ^ 512))) by lia. cbn [rwp].
  destruct (Z.ltb_spec bal (tx_value tx + cost)).
  { eapply wp_mono; [by apply charge_shortfall_ok | | done]. intros r q (Hq & o & -> & Ho). by split. }
  destruct Hbal. apply wp_bind, wp_on_tx_state. cbn [fst snd].
  eapply wp_mono; [eapply tl_inc_nonce; [exact Hs | apply (tk_sender _ TX) | apply (wf_account_start_nonce _ W)] | | done].
  intros [] s1 Hs1. apply wp_bind, wp_lift. unfold u256_from_u512. rewrite (proj2 (Z.ltb_lt cost (2 ^ 256))) by lia.
  cbn [rwp]. apply wp_bind, wp_touching. cbn [fst snd].
  pose proof (balance_in_inc db v sender start bal Ebal) as Eb1.
  eapply wp_mono; [eapply tl_sub_balance; [exact Hs1 | apply (tk_sender _ TX) |] | | done].
  { right. exists bal. rewrite (tl_balance _ _ _ _ _ _ Hs1 (tk_sender _ TX)), Eb1. split; [done | lia]. }
  intros [] [s2 t] Hs2. cbn [fst snd] in *. apply wp_bind, wp_lift. unfold checked_sub.
  rewrite (proj2 (Z.leb_le base _)) by lia. cbn [rwp]. apply wp_bind.
  eapply wp_mono; [eapply (top_frame_ok _ _ n s2 cache); [exact Hs2 | destruct Hgas; split; lia |] | | done].
  { right. exists (bal - cost). rewrite (tl_balance _ _ _ _ _ _ Hs2 (tk_sender _ TX)), (balance_in_debit _ _ _ _ Eb1) by lia.
    split; [done | lia]. }
  intros f q (-> & Hd & p & Hp & Hf). apply wp_ret. split; [done |]. exists p.
  constructor; try done; [exists bal | ]; split; try done; lia.
Qed.

(** ** What is done after the execution *)

Lemma kill_contracts_ok B n l s (cache : L) v :
  at_ B n v [] s ->
  wp (kill_contracts l : TM unit) (s, cache) (fun _ q => q.2 = cache /\ exists v', at_ B n v' [] q.1) (fun e _ => db_error e).
Proof.
  revert s v. induction l as [| a l IH]; intros s v Hs; cbn [kill_contracts].
  { apply wp_ret. split; [done |]. by exists v. }
  apply wp_bind, wp_read_state. cbn [fst].
  pose proof (sl_balance (StateLaws := xl_state (FrameStateLaws := tl_frame B) []) n s a (ex_intro _ v Hs)) as Hb.
  pose proof (xl_balance_errors (FrameStateLaws := tl_frame B) s a) as He.
  destruct (st_balance s a) as [b | e |]; cbn [rwp] in *; [| by apply He | done].
  apply wp_bind, wp_on_tx_state. cbn [fst snd].
  eapply wp_mono; [by eapply tl_remove_contract | | done]. intros [] s1 [v1 Hs1].
  apply wp_bind, wp_modify. cbn [fst snd]. destruct (tl_subtract B n v1 s1 b Hs1) as [v2 Hs2]. by eapply IH.
Qed.

(** The gas used, what is charged for it and the fee. *)
Definition gas_settled (gas_left : Z) (executed : Executed) : Prop :=
  ex_gas_used executed = tx_gas tx - gas_left /\
  ex_gas_charged executed = charged_gas (tx_gas tx) gas_left /\
  ex_fee executed = ex_gas_charged executed * tx_gas_price tx.

(** An executed transaction: [base] is the gas it takes before its first instruction. *)
Definition executed_ok (B : Z) (v : View) (n : nat) (base : Z) (o : ExecutionOutcome) (s : St) : Prop :=
  match o with
  | Finished executed =>
      exists v', at_ (B - ex_fee executed) n v' [] s /\
        exists gas_left, 0 <= gas_left <= tx_gas tx - base /\ gas_settled gas_left executed
  | ExecutionErrorBumpNonce (VmError e) executed =>
      exists v', at_ (B - ex_fee executed) n v' [] s /\
        same_view v' (view_paid db sender start (ex_fee executed) v) /\
        ex_logs executed = [] /\ ex_contracts_created executed = [] /\
        exists gas_left, 0 <= gas_left <= tx_gas tx - base /\ gas_settled gas_left executed /\
          (e <> Reverted -> gas_left = 0)
  | _ => False
  end.

Lemma refund_bounds gas_left :
  0 <= gas_left <= tx_gas tx ->
  0 <= (tx_gas tx - charged_gas (tx_gas tx) gas_left) * tx_gas_price tx <= cost.
Proof.
  intros Hl. pose proof (charged_gas_bounds _ _ Hl). destruct TX as [_ [? _] [? _] _ _ _].
  split; [apply Z.mul_nonneg_nonneg; lia | apply Z.mul_le_mono_nonneg_r; lia].
Qed.

Section post.
Context (B : Z) (v : View) (n : nat) (base : Z) (sub : Substate) (b : Z).
Context (Hbase : 0 <= base <= tx_gas tx) (Hb : balance_in v sender = Ok b) (Hcost : cost < 2 ^ 256).
Context (Hsub : suicides sub = ∅ /\ logs sub = [] /\ contracts_created sub = []).

Abbreviation charged_view := (view_debit sender cost (view_inc db sender start v)).

(** The refund and the removal of the contracts that destroyed themselves. *)
Lemma refund_and_kill x v1 sub' s cache (k : Substate -> Substate -> TM ExecutionOutcome) Q :
  0 <= x <= cost -> at_ (B - cost) n v1 [] s -> 0 <= B < 2 ^ 256 ->
  (forall s' t v', at_ (B - cost + x) n v' [] s' ->
     (suicides sub' = ∅ -> v' = view_credit db sender x (cleanup_mode spec) start v1) ->
     wp (k (mkSubstate (suicides sub') t (logs sub') (contracts_created sub')) Substate_new) (s', cache)
       Q (fun e _ => db_error e)) ->
  wp (substate <~ touching sub' (st_add_balance sender x (cleanup_mode spec) start) ;;
      subsubstate <~ kill_process iter (suicides substate) ;;
      k substate subsubstate) (s, cache) Q (fun e _ => db_error e).
Proof.
  intros Hx Hs HB Hk. apply wp_bind, wp_touching. cbn [fst snd].
  eapply wp_mono; [eapply tl_add_balance; [exact Hs | apply (tk_sender _ TX) | lia | lia | apply (wf_account_start_nonce _ W)] | | done].
  intros [] [s1 t] [Hs1 _]. cbn [fst snd suicides] in *. apply wp_bind. unfold kill_process. apply wp_bind.
  destruct (decide (suicides sub' = ∅)) as [E | E].
  - rewrite E. pose proof (Hiter ∅) as Hp. rewrite elements_empty in Hp. apply Permutation_nil_r in Hp. rewrite Hp.
    cbn [kill_contracts]. apply wp_ret, wp_ret. rewrite <- E. by eapply Hk.
  - eapply wp_mono; [by eapply kill_contracts_ok | | done]. intros [] [s2 c2] [Hc [v2 Hs2]]. cbn [fst snd] in *. subst c2.
    apply wp_ret. by eapply Hk.
Qed.

Abbreviation gas_left_of out := (match fo_result out with inl r => f_gas_left r | inr _ => 0 end).

(** The state in which the stack of frames leaves the transaction. *)
Lemma output_view out s :
  output_ok (st_at := at_ (B - cost)) n charged_view [] (tx_gas tx - base) sub out s ->
  exists v1, at_ (B - cost) n v1 [] s /\
    match fo_result out with
    | inl r => if f_apply_state r then True else v1 = charged_view /\ fo_substate out = sub
    | inr _ => v1 = charged_view /\ fo_substate out = sub
    end.
Proof.
  unfold output_ok. destruct (fo_result out) as [r |].
  - intros (_ & _ & Hs). destruct (f_apply_state r); [destruct Hs as [v1 Hs]; by exists v1 |].
    destruct Hs. by eexists.
  - intros []. by eexists.
Qed.

Lemma output_gas out s :
  output_ok (st_at := at_ (B - cost)) n charged_view [] (tx_gas tx - base) sub out s ->
  0 <= gas_left_of out <= tx_gas tx - base /\
  exists bytes, match fo_result out with
    | inl res => unwrap (rd_deref (f_return_data res)) | inr _ => Ok [] end = (Ok bytes : vm_result _).
Proof.
  unfold output_ok. destruct (fo_result out) as [r |]; [| intros _; split; [lia | by eexists]].
  intros (Hg & Hd & _). split; [done |]. destruct (rd_deref_ok _ Hd) as (bytes & Eb & _). rewrite Eb. by eexists.
Qed.

(** An error other than a revert takes all of the gas. *)
Lemma fully_charged_ok e v' s :
  at_ (B - cost) n v' [] s -> same_view v' (view_paid db sender start cost v) ->
  executed_ok B v n base (ExecutionErrorBumpNonce (VmError e) (execution_error_fully_charged tx)) s.
Proof.
  intros Hs Hv. unfold executed_ok, gas_settled. cbn. rewrite saturating_mul_eq by done. exists v'.
  split_and!; try done. exists 0. unfold charged_gas. destruct TX as [_ [? _] _ _ _ _].
  pose proof (Z.div_pos (tx_gas tx) 4). split_and!; try done; lia.
Qed.

Lemma postprocessing_ok out s cache :
  0 <= B < 2 ^ 256 ->
  output_ok (st_at := at_ (B - cost)) n charged_view [] (tx_gas tx - base) sub out s ->
  wp (transact_postprocessing iter spec tx out : TM _) (s, cache)
    (fun o q => q.2 = cache /\ executed_ok B v n base o q.1) (fun e _ => db_error e).
Proof.
  intros HB Hout. destruct TX as [_ Hgas [Hprice _] _ _ _].
  destruct (output_gas _ _ Hout) as (Hleft & bytes & Eb). destruct (output_view _ _ Hout) as (v1 & Hs & Hv1).
  unfold transact_postprocessing. apply wp_bind, wp_lift. rewrite Eb. cbn [rwp]. apply wp_bind, wp_lift.
  rewrite settle_gas_ok by (try done; lia). cbn [rwp]. cbn zeta. set (gas_left := gas_left_of out) in *.
  pose proof (refund_bounds gas_left ltac:(lia)) as Hr.
  set (charged := charged_gas (tx_gas tx) gas_left) in *. set (refund := (tx_gas tx - charged) * tx_gas_price tx) in *.
  assert (Efee : cost - refund = charged * tx_gas_price tx) by (unfold refund; lia).
  apply (refund_and_kill refund v1); [done | done | done |]. intros s' t v' Hs' Hv'.
  replace (B - cost + refund) with (B - charged * tx_gas_price tx) in Hs' by lia.
  assert (Hfail : v1 = charged_view /\ fo_substate out = sub ->
    same_view v' (view_paid db sender start (charged * tx_gas_price tx) v)).
  { intros [-> Esub]. rewrite Esub in Hv'. rewrite (Hv' (proj1 Hsub)), <- Efee. by eapply paid_view. }
  destruct (fo_result out) as [r | e] eqn:Er; cbv beta.
  - destruct (f_apply_state r).
    + apply wp_ret. split; [done |]. exists v'. split; [done |]. by exists gas_left.
    + specialize (Hfail Hv1). destruct Hv1 as [_ Esub]. apply wp_ret. split; [done |]. exists v'. rewrite Esub. cbn.
      destruct Hsub as (_ & -> & ->). split_and!; try done. exists gas_left. split; [done | split; [done | by intros []]].
  - assert (Hall : charged = tx_gas tx).
    { unfold charged, charged_gas, gas_left. destruct Hgas. pose proof (Z.div_pos (tx_gas tx) 4). lia. }
    rewrite Hall in *. pose proof (fully_charged_ok e v' s' Hs' (Hfail Hv1)).
    destruct e; try (apply wp_ret; by split). by eexists.
Qed.
End post.

(** ** The whole of a transaction *)

Definition outcome_ok (B : Z) (v : View) (n : nat) (o : ExecutionOutcome) (s : St) : Prop :=
  refused B v n o s \/
  exists base, gas_required_for (tx_is_create tx) (tx_data tx) spec = Ok base /\ 0 <= base <= tx_gas tx /\
    nonce_in v sender = Ok (tx_nonce tx) /\ executed_ok B v n base o s.

Lemma refused_mono B v n m o s : refused B v n o s -> (m <= n)%nat -> refused B v m o s.
Proof.
  intros Ho Hm.
  assert (Hat : forall B v k k', at_ B k v [] s -> (k' <= k)%nat -> at_ B k' v [] s)
    by (intros; by eapply (xl_mono (FrameStateLaws := tl_frame _))).
  destruct o as [[] | [] | [] | ]; cbn in *; try done; destruct_and!; split_and!; try done; eapply Hat; try done; lia.
Qed.

(** The stack of frames of the transaction starts a frame that is not regular, or comes to a
    [BLOCKHASH] of the largest word. *)
Definition mishap_of (fuel : nat) (s : St) (cache : L) : Prop :=
  exists f sub base s' p,
    (transact_preprocessing keccak rlp_sender_nonce env mc spec tx settings : TM _) (s, cache) =
      (Ok (Pass f sub base), (s', cache)) /\
    mishap_under keccak rlp_sender_nonce code_of fuel f p (mkShared s' FrameStackInfo_new cache).

Lemma transact_ok B v n turns fuel s cache :
  at_ B (S (S turns * fuel + n)) v [] s -> cache_inv code_of cache ->
  tx_gas tx + 1 < Z.of_nat fuel -> 3 * tx_gas tx < Z.of_nat turns ->
  wp (transact keccak rlp_sender_nonce iter env mc spec turns fuel tx settings : TM _) (s, cache)
    (fun r q => exists o, r = Some o /\ outcome_ok B v n o q.1 /\ cache_inv code_of q.2) (fun e _ => db_error e) \/
  mishap_of fuel s cache.
Proof.
  intros Hs Hc Hfuel Hturns. pose proof (tl_bound _ _ _ _ _ Hs) as HB.
  pose proof (preprocessing_ok B v _ s cache Hs) as Hpre.
  unfold wp in Hpre.
  destruct ((transact_preprocessing keccak rlp_sender_nonce env mc spec tx settings : TM _) (s, cache))
    as [[r | e |] [s1 c1]] eqn:Epre; cbn [fst snd rwp] in Hpre; [| left | done].
  2: { unfold transact. eapply wp_bind_eq; [exact Epre |]. done. }
  destruct Hpre as [-> Hr]. destruct r as [f sub base | o].
  2: { left. unfold transact. eapply wp_bind_eq; [exact Epre |]. cbn [rwp]. apply wp_ret. exists o.
    split_and!; [done | left; eapply refused_mono; [exact Hr | lia] | done]. }
  destruct Hr as [p [En (b & Eb & Hb) [Ebase Hbase] Hat Hf Hd Hgas Hsub]].
  assert (Hval := TX). destruct Hval as [_ _ _ [Hval _] _ _].
  destruct (stack_exec_ok (XL := tl_frame (B - cost)) keccak Hkeccak rlp_sender_nonce spec W mc (WM (B - cost)) code_of
    n fuel turns f p _ _ s1 cache sub base Hf Hd Hat Hc ltac:(lia) ltac:(lia)) as [Hrun | Hmis].
  2: { right. exists f, sub, base, s1, p. by split. }
  left. unfold transact. eapply wp_bind_eq; [exact Epre |]. cbn [rwp]. apply wp_bind.
  eapply wp_mono; [exact Hrun | | done]. intros r [s2 c2] (out & -> & Hout & Hc2 & _). cbn [fst snd] in *.
  rewrite Hgas in Hout. apply wp_bind.
  eapply wp_mono; [eapply (postprocessing_ok B v n base sub b); try done; lia | | done].
  intros o [s3 c3] [Ec Ho]. cbn [fst snd] in *. subst c3. apply wp_ret. exists o. split_and!; [done | | done].
  right. by exists base.
Qed.

Lemma transact_cases B v n turns fuel s cache :
  at_ B (S (S turns * fuel + n)) v [] s -> cache_inv code_of cache ->
  tx_gas tx + 1 < Z.of_nat fuel -> 3 * tx_gas tx < Z.of_nat turns ->
  let run := transact keccak rlp_sender_nonce iter env mc spec turns fuel tx settings (s, cache) in
  (exists o s' cache', run = (Ok (Some o), (s', cache')) /\ outcome_ok B v n o s' /\ cache_inv code_of cache') \/
  (exists m q, run = (Err (StateDbError m), q)) \/ mishap_of fuel s cache.
Proof.
  intros Hs Hcache Hfuel Hturns. cbn zeta.
  destruct (transact_ok B v n turns fuel s cache Hs Hcache Hfuel Hturns) as [Hwp | ?]; [| auto].
  unfold wp in Hwp. destruct (transact _ _ _ _ _ _ _ _ _ _ _) as [[r | e |] [s' cache']]; cbn in Hwp; [| | done].
  - left. destruct Hwp as (o & -> & ? & ?). by exists o, s', cache'.
  - right. left. destruct Hwp as [m ->]. eauto.
Qed.

(** ** What a transaction leaves behind *)

(** What a transaction with this outcome pays. *)
Definition fee_of (o : ExecutionOutcome) : Z :=
  match o with
  | ExecutionErrorBumpNonce _ executed | Finished executed => ex_fee executed
  | _ => 0
  end.

Section left_behind.
Context (B : Z) (v : View) (n : nat).

Lemma fee_bounds gas_left executed :
  0 <= gas_left <= tx_gas tx -> gas_settled gas_left executed -> 0 <= ex_fee executed <= tx_gas tx * tx_gas_price tx.
Proof.
  intros Hl (_ & Hc & ->). pose proof (charged_gas_bounds _ _ Hl). rewrite Hc. destruct TX as [_ _ [? _] _ _ _].
  split; [apply Z.mul_nonneg_nonneg; lia | apply Z.mul_le_mono_nonneg_r; lia].
Qed.

(** What a transaction that is not executed, or fails, leaves behind. *)
Definition only_charged (o : ExecutionOutcome) (s' : St) : Prop :=
  match o with
  | NotExecutedDrop _ | NotExecutedToReconsiderPacking _ => at_ B n v [] s'
  | ExecutionErrorBumpNonce _ executed =>
      (exists v', at_ (B - ex_fee executed) n v' [] s' /\
         same_view v' (view_paid db (tx_sender tx) (account_start_nonce spec) (ex_fee executed) v)) /\
      0 <= ex_fee executed <= tx_gas tx * tx_gas_price tx /\
      ex_logs executed = [] /\ ex_contracts_created executed = []
  | Finished _ => True
  end.

Lemma at_mono B' v' k k' s' : at_ B' k v' [] s' -> (k' <= k)%nat -> at_ B' k' v' [] s'.
Proof. intros Hs' Hk. by eapply (xl_mono (FrameStateLaws := tl_frame _)). Qed.

Lemma outcome_only_charged o s' : outcome_ok B v n o s' -> only_charged o s'.
Proof.
  assert (Hl : forall k, at_ B (S k) v [] s' -> at_ B k v [] s') by (intros; eapply at_mono; [done | lia]).
  intros [Ho | (base & _ & Hb & _ & Ho)]; destruct o as [[] | [] | [required got actual | e] executed | executed];
    cbn in *; try done; destruct_and?; auto.
  - subst. cbn. split_and!; [| | | done | done].
    + eexists. split; [done |].
      pose proof (paid_view db (tx_sender tx) (account_start_nonce spec) (Z.min (tx_gas tx * tx_gas_price tx) got) 0
        NoEmpty v got ltac:(done)) as Hp.
      rewrite Z.sub_0_r in Hp. unfold view_credit in Hp. cbn [Z.eqb negb orb andb is_force_create] in Hp.
      by destruct (acct_or_new _ _ _ _) in Hp.
    + pose proof cost_nonneg. lia.
    + pose proof cost_nonneg. lia.
  - destruct Ho as (v' & ? & ? & ? & ? & gas_left & ? & ? & _).
    pose proof (fee_bounds gas_left executed ltac:(lia) ltac:(done)). split; [by exists v' | done].
Qed.

Lemma outcome_supply o s' :
  outcome_ok B v n o s' ->
  0 <= fee_of o <= tx_gas tx * tx_gas_price tx /\ exists v', at_ (B - fee_of o) n v' [] s'.
Proof.
  intros Ho. pose proof (outcome_only_charged o s' Ho) as Hc. pose proof cost_nonneg.
  destruct o as [e | e | e executed | executed]; cbn in *.
  - rewrite Z.sub_0_r. split; [lia | by exists v].
  - rewrite Z.sub_0_r. split; [lia | by exists v].
  - destruct Hc as ((v' & ? & _) & ? & _). split; [done | by exists v'].
  - destruct Ho as [Ho | (base & _ & ? & _ & v' & ? & gas_left & ? & ?)]; [done |].
    split; [by apply (fee_bounds gas_left); [lia |] | by exists v'].
Qed.


(** The world that an outcome leaves. *)
Definition world_left (o : ExecutionOutcome) (v' : View) : Prop :=
  match o with
  | NotExecutedDrop _ | NotExecutedToReconsiderPacking _ => v' = v
  | ExecutionErrorBumpNonce _ executed =>
      same_view v' (view_paid db (tx_sender tx) (account_start_nonce spec) (ex_fee executed) v)
  | Finished _ => True
  end.

Lemma outcome_world o s' :
  outcome_ok B v n o s' -> exists v', at_ (B - fee_of o) n v' [] s' /\ world_left o v'.
Proof.
  intros Ho. pose proof (outcome_only_charged o s' Ho) as Hc. destruct (outcome_supply o s' Ho) as [_ [v1 Hv1]].
  destruct o as [e | e | e executed | executed]; cbn in *.
  - rewrite Z.sub_0_r. by exists v.
  - rewrite Z.sub_0_r. by exists v.
  - destruct Hc as ((v' & ? & ?) & _). by exists v'.
  - by exists v1.
Qed.

Lemma outcome_charged o s' executed :
  outcome_ok B v n o s' -> (exists e, o = ExecutionErrorBumpNonce e executed) \/ o = Finished executed ->
  0 <= ex_gas_charged executed <= tx_gas tx.
Proof.
  intros Ho Eo. destruct TX as [_ [? ?] [? _] _ _ _].
  destruct Ho as [Ho | (base & _ & Hb & _ & Ho)]; destruct Eo as [[e ->] | ->]; cbn in Ho; try done.
  - destruct e as [required got actual |]; [| done]. destruct Ho as (_ & _ & Hgot & -> & -> & _). cbn.
    destruct (Z.eqb_spec (tx_gas_price tx) 0); [lia |]. pose proof cost_nonneg. split.
    + apply Z.div_pos; lia.
    + apply Z.div_le_upper_bound; lia.
  - destruct e as [| e]; [done |]. destruct Ho as (v' & _ & _ & _ & _ & gas_left & ? & (_ & -> & _) & _).
    apply charged_gas_bounds. lia.
  - destruct Ho as (v' & _ & gas_left & ? & _ & -> & _). apply charged_gas_bounds. lia.
Qed.

(** The fee and the gas that is charged. *)
Lemma outcome_fee o s' :
  outcome_ok B v n o s' ->
  match o with
  | ExecutionErrorBumpNonce _ executed => ex_gas_charged executed * tx_gas_price tx <= ex_fee executed
  | Finished executed => ex_fee executed = ex_gas_charged executed * tx_gas_price tx
  | _ => True
  end.
Proof.
  destruct TX as [_ [? ?] [? _] _ _ _].
  intros [Ho | (base & _ & _ & _ & Ho)]; destruct o as [| | [required got actual | e] executed | executed]; try done; cbn in Ho.
  - destruct Ho as (_ & _ & ? & -> & -> & _). cbn. destruct (Z.eqb_spec (tx_gas_price tx) 0) as [| Hp].
    + pose proof cost_nonneg. lia.
    + rewrite Z.mul_comm. apply Z.mul_div_le. lia.
  - destruct Ho as (v' & _ & _ & _ & _ & gas_left & _ & (_ & _ & ->) & _). lia.
  - by destruct Ho as (v' & _ & gas_left & _ & _ & _ & ->).
Qed.
End left_behind.
End transactions.

(** ** Calls from the other virtual machine *)

(** The parameters of a call from the other machine: its data can be encoded. *)
Record cross_ok (keccak : list byte -> Z) (cv : CrossVMParams) : Prop := {
  ck_receiver : is_word 160 (cv_receiver cv);
  ck_gas : is_usize (cv_gas cv);
  ck_gas_price : is_u256 (cv_gas_price cv);
  ck_value : is_u256 (cv_value cv);
  ck_data : exists data, cross_vm_data keccak cv = Ok data /\ wf_bytes data;
}.

Lemma balance_in_credit `{Rlp} {T} {ST : StorageTrait OwnedStateKey T} (db : T) v a x mode start b :
  balance_in v a = Ok b -> balance_in (view_credit db a x mode start v) a = Ok (b + x).
Proof.
  intros Hb. destruct (balance_in_new db v a start b Hb) as (y & E & <-). unfold view_credit. rewrite E.
  destruct (_ || _) eqn:Ex; [unfold balance_in, read_view; by rewrite view_upd_lookup |].
  apply orb_false_iff in Ex as [Ex _]. apply negb_false_iff in Ex. b2p. subst x. by rewrite Z.add_0_r.
Qed.

Section cross.
Context {St : Type} {SS : StateOps St} {FS : FrameState St} {L : Type} {LL : Lru L}.
Context `{Rlp} {T : Type} {ST : StorageTrait OwnedStateKey T} (db : T).
Context {at_ : Z -> nat -> View -> list View -> St -> Prop} {TL : TxStateLaws St db at_}.
Context (keccak : list byte -> Z) (Hkeccak : forall l, is_u256 (keccak l)).
Context (rlp_sender_nonce : Z -> Z -> list byte).
Context (env : Env) (Henv : wf_env env) (Hlast : is_u256 (env_last_hash env)).
Context (spec : Spec) (W : wf_spec spec) (mc : ChainMachine St) (WM : forall B, wf_machine (at_ B) spec mc).
Context (code_of : Z -> option (list byte)).
Context (cv : CrossVMParams) (CV : cross_ok keccak cv).

Abbreviation TM := (M Error (St * L)).
Abbreviation minted v :=
  (view_credit db CROSS_SPACE_CONTRACT_ADDRESS (cv_value cv) (cleanup_mode spec) (account_start_nonce spec) v).

Lemma cross_space_word : is_word 160 CROSS_SPACE_CONTRACT_ADDRESS.
Proof. done. Qed.

(** The value is created at the contract that stands for the other machine, which then calls. *)
Lemma cross_preprocessing_ok B v n s cache :
  at_ B n v [] s -> B + cv_value cv < 2 ^ 256 ->
  wp (cross_vm_call_preprocessing keccak env mc spec cv : TM _) (s, cache)
    (fun f q => q.2 = cache /\ at_ (B + cv_value cv) n (minted v) [] q.1 /\ fc_depth (cf_context f) = 0 /\
       exists p, ap_gas p = cv_gas cv /\ fresh (st_at := at_ (B + cv_value cv)) spec mc f p q.1)
    (fun e _ => db_error e).
Proof.
  intros Hs HB. destruct CV as [Hrec Hgas Hprice Hval (data & Edata & Hdata)].
  unfold cross_vm_call_preprocessing. apply wp_bind, wp_lift. rewrite Edata. cbn [rwp].
  apply wp_bind, wp_read_state. cbn [fst]. set (a := cv_receiver cv).
  assert (LS := xl_state (FrameStateLaws := tl_frame B) []).
  pose proof (sl_code (StateLaws := LS) n s a (ex_intro _ v Hs)) as Hcode.
  pose proof (sl_code_hash (StateLaws := LS) n s a (ex_intro _ v Hs)) as Hhash.
  pose proof (tl_code_errors s a) as He. pose proof (tl_code_hash_errors s a) as He'.
  destruct (st_code s a) as [code | e |]; cbn [rwp] in *; [| by apply He | done].
  apply wp_bind, wp_read_state. cbn [fst].
  destruct (st_code_hash s a) as [hash | e |]; cbn [rwp] in *; [| by apply He' | done].
  apply wp_bind, wp_touching. cbn [fst snd]. destruct Hval.
  eapply wp_mono; [eapply tl_add_balance; [exact Hs | apply cross_space_word | lia | lia | apply (wf_account_start_nonce _ W)] | | done].
  intros [] [s1 t] [Hs1 [b Hb]]. cbn [fst snd] in *. apply wp_ret. split_and!; [done | done | done |].
  eexists. split; [| eapply top_call_fresh]; try done; [| by split; [| eexists]].
  intros x [= <-]. cbn. right. exists (b + cv_value cv).
  rewrite (tl_balance _ _ _ _ _ _ Hs1 cross_space_word), (balance_in_credit _ _ _ _ _ _ _ Hb). split; [done |].
  pose proof (sl_balance (StateLaws := LS) n s CROSS_SPACE_CONTRACT_ADDRESS (ex_intro _ v Hs)) as Hb'.
  rewrite (tl_balance _ _ _ _ _ _ Hs cross_space_word), Hb in Hb'. destruct Hb'. lia.
Qed.

(** What a call from the other machine leaves: a call that fails leaves the value where it was
    created and changes nothing else. *)
Definition cross_returned (B : Z) (v : View) (n : nat) (r : CrossVMReturn) (s : St) : Prop :=
  match cr_result r with
  | inl res =>
      0 <= f_gas_left res <= cv_gas cv /\ wf_return_data (f_return_data res) /\
      if f_apply_state res then exists v', at_ (B + cv_value cv) n v' [] s
      else at_ (B + cv_value cv) n (minted v) [] s /\ cr_substate r = Substate_new
  | inr _ => at_ (B + cv_value cv) n (minted v) [] s /\ cr_substate r = Substate_new
  end.

Definition cross_mishap (fuel : nat) (s : St) (cache : L) : Prop :=
  exists f s' p,
    (cross_vm_call_preprocessing keccak env mc spec cv : TM _) (s, cache) = (Ok f, (s', cache)) /\
    mishap_under keccak rlp_sender_nonce code_of fuel f p (mkShared s' FrameStackInfo_new cache).

Lemma cross_vm_call_ok B v n turns fuel s cache :
  at_ B (S turns * fuel + n) v [] s -> cache_inv code_of cache -> B + cv_value cv < 2 ^ 256 ->
  cv_gas cv + 1 < Z.of_nat fuel -> 3 * cv_gas cv < Z.of_nat turns ->
  wp (cross_vm_call keccak rlp_sender_nonce env mc spec turns fuel cv : TM _) (s, cache)
    (fun r q => exists o, r = Some o /\ cross_returned B v n o q.1 /\ cache_inv code_of q.2) (fun e _ => db_error e) \/
  cross_mishap fuel s cache.
Proof.
  intros Hs Hc HB Hfuel Hturns. pose proof (cross_preprocessing_ok B v _ s cache Hs HB) as Hpre.
  unfold wp in Hpre.
  destruct ((cross_vm_call_preprocessing keccak env mc spec cv : TM _) (s, cache))
    as [[f | e |] [s1 c1]] eqn:Epre; cbn [fst snd rwp] in Hpre; [| left | done].
  2: { unfold cross_vm_call. eapply wp_bind_eq; [exact Epre |]. done. }
  destruct Hpre as (-> & Hat & Hd & p & Hgas & Hf).
  destruct (stack_exec_ok (XL := tl_frame (B + cv_value cv)) keccak Hkeccak rlp_sender_nonce spec W mc
    (WM (B + cv_value cv)) code_of n fuel turns f p _ _ s1 cache Substate_new 0 Hf Hd Hat Hc ltac:(lia) ltac:(lia))
    as [Hrun | Hmis].
  2: { right. exists f, s1, p. by split. }
  left. unfold cross_vm_call. eapply wp_bind_eq; [exact Epre |]. cbn [rwp]. apply wp_bind.
  eapply wp_mono; [exact Hrun | | done]. intros r [s2 c2] (out & -> & Hout & Hc2 & _). cbn [fst snd fmap option_fmap option_map] in *.
  apply wp_ret. eexists. split_and!; [done | | done]. rewrite Hgas in Hout. exact Hout.
Qed.
End cross.
