(* ===== verification/TransactTheorems.v ===== *)
(** * Theorems about transactions

    The main results about the executor of src/cfx-evm/src/execution/executor.rs over the world
    state of src/cfx-evm/src/world_state/, put together from [TransactSafety] and [TransactLaws],
    and their instances: transactions over a state with one account. *)

From stdpp Require Import gmap strings.
From S2P Require Import Prelude Word SolidityAbi StateDb Arith VmTypes FrameContext Gasometer SharedCache Interpreter.
From S2P Require Import WorldState WorldSpec WorldTypes StepSafety Frame FrameTheorems Frames FrameStack WorldLaws.
From S2P Require Import Transact TransactLaws TransactSafety.
Local Open Scope Z_scope.

Section theorems.
Context (keccak : list byte -> Z) (Hkeccak : typed_keccak keccak).
Context `{Rlp} {T : Type} {ST : StorageTrait OwnedStateKey T} (db : T).
Context (Hdb : typed_db db) (Hcalm : calm_db db).
Context {L : Type} {LL : Lru L}.
Context (rlp_sender_nonce : Z -> Z -> list byte).
Context (iter : gset Z -> list Z) (Hiter : forall s, iter s ≡ₚ elements s).
Context (env : Env) (Henv : wf_env env) (Hlast : is_u256 (env_last_hash env)).
Context (spec : Spec) (W : wf_spec spec).
Context (mc : ChainMachine (State T)).
Local Instance world_ops : StateOps (State T) := state_ops keccak.
Local Instance world_frame_ops : FrameState (State T) := state_frame_ops keccak.
Context (WM : forall B, wf_machine (state_at db B) spec mc).
Context (code_of : Z -> option (list byte)).
Local Instance world_tx_laws : TxStateLaws (State T) db (state_at db) := state_tx_laws keccak Hkeccak db Hdb Hcalm.

(** The state shows the world [v] and has saved nothing; no nonce is within [n] of the largest,
    and the accounts hold at most [B] in all. *)
Abbreviation shows B n v s := (state_at db B n v [] s).

Section one.
Context (tx : Transaction) (TX : tx_ok tx).
Context (settings : TransactCheckSettings) (Hcharge : charge_gas settings = true).
Context (B : Z) (v : View) (n turns fuel : nat) (s : State T) (cache : L).
Context (Hs : shows B (S (S turns * fuel + n)) v s) (Hcache : cache_inv code_of cache).
Context (Hfuel : tx_gas tx + 1 < Z.of_nat fuel) (Hturns : 3 * tx_gas tx < Z.of_nat turns).

Abbreviation run := (transact keccak rlp_sender_nonce iter env mc spec turns fuel tx settings (s, cache)).
Abbreviation mishaps := (mishap_of keccak rlp_sender_nonce env spec mc code_of tx settings fuel s cache).

Lemma keccak_word l : is_u256 (keccak l).
Proof. apply Hkeccak. Qed.

Lemma run_cases :
  (exists o s' cache', run = (Ok (Some o), (s', cache')) /\
     outcome_ok (at_ := state_at db) db spec tx B v n o s' /\ cache_inv code_of cache') \/
  (exists m q, run = (Err (StateDbError m), q)) \/ mishaps.
Proof.
  exact (transact_cases (TL := world_tx_laws) db keccak keccak_word rlp_sender_nonce iter Hiter env Henv Hlast spec W mc WM
    code_of tx TX settings Hcharge B v n turns fuel s cache Hs Hcache Hfuel Hturns).
Qed.

Lemma shows_supply B' v' k s' : shows B' k v' s' -> supply_below B' v'.1.
Proof. intros (w & _ & <- & _ & Hw). apply (wo_cur _ _ _ _ Hw). Qed.



End one.

Section cross.
Context (cv : CrossVMParams) (CV : cross_ok keccak cv).
Context (B : Z) (v : View) (n turns fuel : nat) (s : State T) (cache : L).
Context (Hs : shows B (S turns * fuel + n) v s) (Hcache : cache_inv code_of cache).
Context (Hvalue : B + cv_value cv < 2 ^ 256).
Context (Hfuel : cv_gas cv + 1 < Z.of_nat fuel) (Hturns : 3 * cv_gas cv < Z.of_nat turns).

Abbreviation run := (cross_vm_call keccak rlp_sender_nonce env mc spec turns fuel cv (s, cache)).

End cross.
End theorems.

(** ** A state with one account *)

#[local] Existing Instance StateDb.sample_rlp.
Local Instance bank_ops : StateOps (State InMemoryDb) := state_ops toy_keccak.
Local Instance bank_frame_ops : FrameState (State InMemoryDb) := state_frame_ops toy_keccak.

Definition empty_state : State InMemoryDb := mkState ∅ [] ∅ 0 [] [].

Lemma empty_world_none a : base_world (∅ : InMemoryDb) a = Ok None.
Proof.
  unfold base_world, get_account, db_get, get_raw. rewrite empty_db_reads. done.
Qed.

Lemma empty_shows n :
  Z.of_nat n + 0x40000000 < 2 ^ 256 -> state_at (∅ : InMemoryDb) 0 n (base_world ∅, 0) [] empty_state.
Proof.
  intros Hn. exists (snapshots_new (∅ : InMemoryDb) 0). split; [by apply (refines_new ∅ True); [apply new_in_memory |] |].
  split_and!; [done | done |]. split; [done | done | | constructor]. split.
  - intros a. cbn. by rewrite empty_world_none.
  - intros l _ _. induction l as [| a l IH]; cbn; [done |]. unfold bal. rewrite empty_world_none. cbn. exact IH.
Qed.

Definition bank_state : State InMemoryDb := (st_add_balance 5 1000000 NoEmpty 0 (empty_state, ∅)).2.1.
Definition bank_view : View := view_credit (∅ : InMemoryDb) 5 1000000 NoEmpty 0 (base_world ∅, 0).

Lemma bank_laws : TxStateLaws (State InMemoryDb) (∅ : InMemoryDb) (state_at ∅).
Proof. apply state_tx_laws; [apply toy_keccak_typed | apply empty_db_typed..]. Qed.

Lemma bank_shows n :
  Z.of_nat n + 0x40000000 < 2 ^ 256 -> state_at (∅ : InMemoryDb) 1000000 n bank_view [] bank_state.
Proof.
  intros Hn. pose proof (tl_add_balance (TxStateLaws := bank_laws) 0 n _ empty_state ∅ 5 1000000 NoEmpty 0
    (empty_shows n Hn) ltac:(done) ltac:(done) ltac:(done) ltac:(done)) as Hwp.
  unfold wp in Hwp.
  assert (E : exists r, (st_add_balance 5 1000000 NoEmpty 0 (empty_state, ∅ : gset Z)).1 = Ok r) by (by eexists).
  destruct E as [r E]. rewrite E in Hwp. apply Hwp.
Qed.

Definition bare_machine : ChainMachine (State InMemoryDb) := {|
  cm_builtins := ∅; cm_internal_contracts := fun _ _ => None; cm_chain_id := fun _ => 1030
|}.

Lemma bare_machine_ok spec B : wf_machine (state_at (∅ : InMemoryDb) B) spec bare_machine.
Proof. by split. Qed.

(** A payment of 10 to account 7, and a contract whose first instruction is not one. *)
Definition payment : Transaction := mkTransaction 5 0 30000 2 [] (ActionCall 7) 10.
Definition bad_creation : Transaction := mkTransaction 5 0 60000 2 [xfe] ActionCreate 10.

Definition bank_turns : nat := Z.to_nat 200000.
Definition bank_fuel : nat := Z.to_nat 70000.

Abbreviation bank_run tx :=
  (transact toy_keccak (fun _ _ => []) elements sample_env bare_machine genesis_spec bank_turns bank_fuel tx
     all_checks (bank_state, ∅ : gmap Z CacheItem)).

Abbreviation bank_mishap tx :=
  (mishap_of toy_keccak (fun _ _ => []) sample_env genesis_spec bare_machine no_code tx all_checks bank_fuel bank_state
     (∅ : gmap Z CacheItem)).

Lemma payment_ok : tx_ok payment.
Proof. by split; [split.. | | intros a [= <-]]. Qed.

Lemma bad_creation_ok : tx_ok bad_creation.
Proof. by split; [split.. | |]. Qed.

Lemma bank_level k : (k <= 1)%nat -> Z.of_nat (k + (S bank_turns * bank_fuel + 0)) + 0x40000000 < 2 ^ 256.
Proof.
  intros Hk. rewrite !Nat2Z.inj_add, Nat2Z.inj_mul, Nat2Z.inj_succ. unfold bank_turns, bank_fuel. rewrite !Z2Nat.id by done.
  change (2 ^ 256) with (2 ^ 250 * 64). lia.
Qed.

Lemma bank_ready k :
  (k <= 1)%nat ->
  state_at (∅ : InMemoryDb) 1000000 (k + (S bank_turns * bank_fuel + 0)) bank_view [] bank_state.
Proof. intros Hk. by apply bank_shows, bank_level. Qed.

Lemma no_cache : cache_inv no_code (∅ : gmap Z CacheItem).
Proof. intros h d Hd. cbn in Hd. by rewrite lookup_empty in Hd. Qed.

Lemma sample_env_ok : wf_env sample_env /\ is_u256 (env_last_hash sample_env).
Proof. by repeat split. Qed.

Lemma bank_fuel_ok g : g <= 60000 -> g + 1 < Z.of_nat bank_fuel /\ 3 * g < Z.of_nat bank_turns.
Proof. unfold bank_fuel, bank_turns. rewrite !Z2Nat.id by done. lia. Qed.




(** ** A call from the other machine *)

(** A call of [f] at account 7, of value 3. *)
Definition far_call : CrossVMParams := mkCrossVMParams 7 [x66] 1000 2 3 [[x01; x02]] [x61].

Lemma far_call_ok : cross_ok toy_keccak far_call.
Proof.
  split; try done. destruct (cross_vm_data toy_keccak far_call) as [data | |] eqn:E; [| by vm_compute in E..].
  exists data. split; [done |]. vm_compute in E. injection E as <-. by vm_compute.
Qed.

Abbreviation far_run :=
  (cross_vm_call toy_keccak (fun _ _ => []) sample_env bare_machine genesis_spec bank_turns bank_fuel far_call
     (bank_state, ∅ : gmap Z CacheItem)).


(** ** A stack of frames *)

Definition outer_params : ActionParams := {|
  ap_space := Ethereum; ap_code_address := 7; ap_code_hash := None; ap_address := 7; ap_sender := 5;
  ap_original_sender := 5; ap_gas := 1000; ap_gas_price := 2; ap_value := Transfer 10; ap_code := Some [x60; x01; x60; x00; x55];
  ap_data := None; ap_call_type := Call; ap_create_type := CreateNone; ap_params_type := Separate
|}.

Definition outer_frame : CallCreateFrame (State InMemoryDb) :=
  new_call_raw outer_params sample_env bare_machine genesis_spec 0 false.

Abbreviation outer_run :=
  (frame_stack_exec toy_keccak (fun _ _ => []) bank_turns bank_fuel Substate_new 0 outer_frame
     (bank_state, ∅ : gmap Z CacheItem)).

