(* ===== verification/Outcome.v ===== *)
(** * Outcomes of Ethereum transactions

    src/aptos-move/ethereum-vm/src/outcome.rs: the status that the chain records for the outcome of
    a transaction ([convert_execution_outcome]); [revert_reason_decode] of
    src/cfx-evm/src/execution/executed.rs, which reads the reason a contract gives for reverting;
    strings of the Solidity ABI (src/cfx-evm/utils/solidity-abi/src/string.rs) with the check of
    UTF-8 and the slicing of strings of the standard library. Strings are their bytes.

    Shown: the reason is read without a panic unless its 50th byte lies within a character, and
    then it panics: a transaction makes the node panic. *)

From stdpp Require Import gmap strings.
From S2P Require Import Prelude Word SolidityAbi AbiDecode StateDb VmTypes FrameContext Gasometer SharedCache Interpreter.
From S2P Require Import WorldState WorldSpec WorldTypes FrameTheorems Frames FrameStack WorldLaws.
From S2P Require Import Transact TransactLaws TransactSafety TransactTheorems.
Local Open Scope Z_scope.

(** ** UTF-8 *)

Definition byte_between (lo hi : Z) (b : byte) : bool := (lo <=? byte_to_Z b) && (byte_to_Z b <=? hi).

Definition continuation (b : byte) : bool := byte_between 0x80 0xBF b.

(** The second byte of a character of three bytes that starts with [a], and of four bytes. *)
Definition second_of_three (a b : byte) : bool :=
  (byte_between 0xE0 0xE0 a && byte_between 0xA0 0xBF b) || (byte_between 0xE1 0xEC a && continuation b) ||
  (byte_between 0xED 0xED a && byte_between 0x80 0x9F b) || (byte_between 0xEE 0xEF a && continuation b).

Definition second_of_four (a b : byte) : bool :=
  (byte_between 0xF0 0xF0 a && byte_between 0x90 0xBF b) || (byte_between 0xF1 0xF3 a && continuation b) ||
  (byte_between 0xF4 0xF4 a && byte_between 0x80 0x8F b).

(** [std::str::from_utf8] accepts the bytes. *)
Fixpoint from_utf8 (l : list byte) : bool :=
  match l with
  | [] => true
  | a :: l1 =>
      if byte_between 0 0x7F a then from_utf8 l1
      else
        match l1 with
        | [] => false
        | b :: l2 =>
            if byte_between 0xC2 0xDF a && continuation b then from_utf8 l2
            else
              match l2 with
              | [] => false
              | c :: l3 =>
                  if second_of_three a b && continuation c then from_utf8 l3
                  else
                    match l3 with
                    | [] => false
                    | d :: l4 => second_of_four a b && continuation c && continuation d && from_utf8 l4
                    end
              end
        end
  end.

Definition is_char_boundary (self : list byte) (index : Z) : bool :=
  if index =? 0 then true
  else
    match self !! Z.to_nat index with
    | Some b => negb (continuation b)
    | None => index =? len self
    end.

(** [str[..n]] *)
Definition str_prefix {E} (self : list byte) (n : Z) : result E (list byte) :=
  if is_char_boundary self n then Ok (take (Z.to_nat n) self) else Panic.

(** ** Strings of the Solidity ABI *)

Definition abi_string : ABIVariable (list byte) := {|
  BASIC_TYPE := false;
  STATIC_LENGTH := None;
  from_abi data :=
    let? byte_array := from_abi abi_bytes data in
    if from_utf8 byte_array then Ok byte_array else Err (mkABIDecodeError "Utf8 decoding error");
  to_abi self := to_abi abi_bytes self;
  to_packed_abi self := to_packed_abi abi_bytes self;
|}.

(** ** The reason of a revert *)

Definition hex_digit (n : Z) : byte := byte_of_Z (if n <? 10 then 48 + n else 87 + n).

(** [hex::encode] *)
Definition hex_encode (bytes : list byte) : list byte :=
  concat ((fun b => [hex_digit (byte_to_Z b / 16); hex_digit (byte_to_Z b mod 16)]) <$> bytes).

Definition MAX_LENGTH : Z := 50.

Definition revert_reason_decode {E} (output : list byte) : result E (list byte) :=
  let decode_result :=
    if len output <? 4 then Err (mkABIDecodeError "Uncompleted Signature")
    else if bool_decide (take 4 output = [x08; xc3; x79; xa0]) then abi_decode abi_string (drop 4 output)
    else Err (mkABIDecodeError "Unrecognized Signature") in
  match decode_result with
  | Ok str =>
      if len str <? MAX_LENGTH then Ok str
      else
        let? prefix := str_prefix str MAX_LENGTH in
        Ok (prefix ++ [x2e; x2e; x2e])
  | Err _ => Ok ([x30; x78] ++ hex_encode output)
  | Panic => Panic
  end.

(** ** Statuses *)

Inductive StatusCode : Set :=
| SEQUENCE_NUMBER_TOO_OLD
| SEQUENCE_NUMBER_TOO_NEW
| MAX_GAS_UNITS_BELOW_MIN_TRANSACTION_GAS_UNITS
| SENDING_ACCOUNT_DOES_NOT_EXIST
| ARITHMETIC_ERROR
| OUT_OF_GAS
| FUNCTION_RESOLUTION_FAILURE
| UNKNOWN_OPCODE
| EXECUTION_STACK_OVERFLOW
| UNKNOWN_RUNTIME_STATUS
| VECTOR_OPERATION_ERROR
| UNEXPECTED_ERROR_FROM_KNOWN_MOVE_FUNCTION.

(** Where the Move VM aborts: in a module of an address, or in a script. *)
Inductive AbortLocation : Set :=
| AbortModule (address : Z) (name : string)
| AbortScript.

Inductive VMStatus : Set :=
| StatusExecuted
| StatusError (code : StatusCode)
| StatusMoveAbort (location : AbortLocation) (code : Z)
| StatusVMExecutionFailure (code : StatusCode) (location : AbortLocation) (function code_offset : Z).

Record AbortInfo : Set := mkAbortInfo { reason_name : string; description : list byte }.

Inductive ExecutionStatus : Set :=
| StatusSuccess
| StatusOutOfGas
| StatusAbort (location : AbortLocation) (code : Z) (info : option AbortInfo)
| StatusExecutionFailure (location : AbortLocation) (function code_offset : Z)
| StatusMiscellaneousError (code : option StatusCode).

Inductive TransactionStatus : Set :=
| StatusDiscard (code : StatusCode)
| StatusKeep (status : ExecutionStatus)
| StatusRetry.

Definition BUILTIN_CODE : Z := 1029.
Definition INTERNAL_CONTRACT_CODE : Z := 1030.
Definition REVERT_CODE : Z := 1031.
Definition BUILTIN_DESC : string := "Built-in function fail".
Definition INTERNAL_CONTRACT_DESC : string := "Internal contract fail".
Definition REVERT_DESC : string := "EVM reverted".

Record ConvertedOutcome : Set := mkConvertedOutcome { co_status : VMStatus; co_reason : option AbortInfo }.

Definition of_code (code : StatusCode) : ConvertedOutcome := mkConvertedOutcome (StatusError code) None.

Definition of_vm_error {E} (err : Error) : result E ConvertedOutcome :=
  match err with
  | OutOfGas => Ok (of_code OUT_OF_GAS)
  | BadJumpDestination _ => Ok (of_code FUNCTION_RESOLUTION_FAILURE)
  | BadInstruction _ | InvalidSubEntry => Ok (of_code UNKNOWN_OPCODE)
  | StackUnderflow _ _ _ | OutOfStack _ _ _ | SubStackUnderflow _ _ | OutOfSubStack _ _ =>
      Ok (of_code EXECUTION_STACK_OVERFLOW)
  | NotEnoughBalanceForStorage _ _ | ExceedStorageLimit | Wasm _ | InvalidAddress _ | ConflictAddress _ => Panic
  | BuiltIn msg =>
      Ok (mkConvertedOutcome (StatusMoveAbort AbortScript BUILTIN_CODE)
            (Some (mkAbortInfo BUILTIN_DESC (String.list_byte_of_string msg))))
  | VmTypes.InternalContract msg =>
      Ok (mkConvertedOutcome (StatusMoveAbort AbortScript INTERNAL_CONTRACT_CODE)
            (Some (mkAbortInfo INTERNAL_CONTRACT_DESC (String.list_byte_of_string msg))))
  | Reverted => Ok (mkConvertedOutcome (StatusMoveAbort AbortScript REVERT_CODE) (Some (mkAbortInfo REVERT_DESC [])))
  | MutableCallInStaticContext => Ok (of_code UNKNOWN_RUNTIME_STATUS)
  | StateDbError _ => Ok (of_code UNKNOWN_RUNTIME_STATUS)
  | OutOfBounds => Ok (of_code VECTOR_OPERATION_ERROR)
  end.

Definition of_outcome {E} (outcome : ExecutionOutcome) : result E ConvertedOutcome :=
  match outcome with
  | NotExecutedDrop (OldNonce _ _) => Ok (of_code SEQUENCE_NUMBER_TOO_OLD)
  | NotExecutedDrop (NotEnoughBaseGas _ _) => Ok (of_code MAX_GAS_UNITS_BELOW_MIN_TRANSACTION_GAS_UNITS)
  | NotExecutedToReconsiderPacking (InvalidNonce _ _) => Ok (of_code SEQUENCE_NUMBER_TOO_NEW)
  | NotExecutedToReconsiderPacking SenderDoesNotExist => Ok (of_code SENDING_ACCOUNT_DOES_NOT_EXIST)
  | ExecutionErrorBumpNonce (NotEnoughCash _ _ _) _ => Ok (of_code ARITHMETIC_ERROR)
  | ExecutionErrorBumpNonce (VmError err) _ => of_vm_error err
  | Finished _ => Ok (mkConvertedOutcome StatusExecuted None)
  end.

(** [VMStatus::keep_or_discard] of the Move VM. *)
Inductive KeptVMStatus : Set :=
| KeptExecuted
| KeptOutOfGas
| KeptMoveAbort (location : AbortLocation) (code : Z)
| KeptExecutionFailure (location : AbortLocation) (function code_offset : Z)
| KeptMiscellaneousError.

Definition of_kept (kept_status : KeptVMStatus) : ExecutionStatus :=
  match kept_status with
  | KeptExecuted => StatusSuccess
  | KeptOutOfGas => StatusOutOfGas
  | KeptMoveAbort location code => StatusAbort location code None
  | KeptExecutionFailure location function code_offset => StatusExecutionFailure location function code_offset
  | KeptMiscellaneousError => StatusMiscellaneousError None
  end.

Section convert.
Context (status_code : VMStatus -> StatusCode) (keep_or_discard : VMStatus -> KeptVMStatus + StatusCode).

Definition of_vm_status (vm_status : VMStatus) : TransactionStatus :=
  match keep_or_discard vm_status with
  | inl KeptMiscellaneousError => StatusKeep (StatusMiscellaneousError (Some (status_code vm_status)))
  | inl recorded => StatusKeep (of_kept recorded)
  | inr code => StatusDiscard code
  end.

Definition extract_error_reason {E} (outcome : ExecutionOutcome) : result E (option (list byte)) :=
  match outcome with
  | ExecutionErrorBumpNonce (VmError Reverted) executed =>
      let? reason := revert_reason_decode (ex_output executed) in
      Ok (Some reason)
  | _ => Ok None
  end.

Definition convert_execution_outcome {E} (outcome : ExecutionOutcome) :
    result E (VMStatus * TransactionStatus) :=
  let? vm_status := of_outcome outcome in
  let tx_output := of_vm_status (co_status vm_status) in
  let? tx_output :=
    match tx_output with
    | StatusKeep (StatusAbort location code _) =>
        match co_reason vm_status with
        | Some info =>
            if decide (reason_name info = REVERT_DESC) then
              let? reason := extract_error_reason outcome in
              let? reason := unwrap reason in
              Ok (StatusKeep (StatusAbort location code (Some (mkAbortInfo (reason_name info) reason))))
            else Ok (StatusKeep (StatusAbort location code (Some info)))
        | None => Ok (StatusKeep (StatusAbort location code None))
        end
    | _ => Ok tx_output
    end in
  Ok (co_status vm_status, tx_output).
End convert.

Definition extract_evm_executed (outcome : ExecutionOutcome) : option Executed :=
  match outcome with
  | NotExecutedDrop _ | NotExecutedToReconsiderPacking _ => None
  | ExecutionErrorBumpNonce _ executed | Finished executed => Some executed
  end.

Definition successfully_executed (self : ExecutionOutcome) : option Executed :=
  match self with Finished executed => Some executed | _ => None end.

(** ** Reading a reason *)

#[export] Instance abi_string_decodes : ABIDecodes abi_string (fun l => len l < 2 ^ 64 /\ from_utf8 l = true).
Proof.
  split; [done |]. intros data Hd _. cbn [from_abi abi_string]. apply rwp_bind.
  eapply rwp_mono; [by apply (ad_from (T := abi_bytes)) | | done]. intros l Hl. by destruct (from_utf8 l) eqn:E.
Qed.

Lemma abi_string_returns data : wf_bytes data -> rwp (abi_decode abi_string data) (fun _ => True) (fun _ => True).
Proof.
  unfold wf_bytes. intros Hd. eapply rwp_mono; [apply (abi_decode_returns abi_string _); lia | done | done].
Qed.

(** The reason, if the output has one. *)
Definition reason_of (output : list byte) : option (list byte) :=
  if (4 <=? len output) && bool_decide (take 4 output = [x08; xc3; x79; xa0]) then
    match abi_decode abi_string (drop 4 output) with Ok str => Some str | _ => None end
  else None.

(** When reading the reason that a contract gives for reverting panics: exactly when the
    output is a reason in UTF-8 of more than 50 bytes whose 50th byte lies within a character. A
    shorter reason is returned as it is, a longer one cut after 50 bytes, and any other output in
    hexadecimal digits. *)
Theorem revert_reason_exact {X} output :
  wf_bytes output ->
  (revert_reason_decode output : result X (list byte)) =
    match reason_of output with
    | Some str =>
        if len str <? 50 then Ok str
        else
          match str !! 50%nat with
          | Some b => if continuation b then Panic else Ok (take 50 str ++ [x2e; x2e; x2e])
          | None => Ok (take 50 str ++ [x2e; x2e; x2e])
          end
    | None => Ok ([x30; x78] ++ hex_encode output)
    end.
Proof.
  intros Ho. unfold revert_reason_decode, reason_of. rewrite Z.leb_antisym.
  destruct (len output <? 4) eqn:El; cbn [negb andb]; [done |].
  destruct (bool_decide _); [| done].
  assert (Hd : wf_bytes (drop 4 output)) by (unfold wf_bytes, len in *; rewrite length_drop; lia).
  pose proof (abi_string_returns _ Hd) as Hr. destruct (abi_decode abi_string (drop 4 output)) as [str | |]; [| done | done].
  unfold MAX_LENGTH. destruct (Z.ltb_spec (len str) 50) as [| Hlen]; [done |].
  unfold str_prefix, is_char_boundary. change (Z.to_nat 50) with 50%nat. cbn [Z.eqb].
  destruct (str !! 50%nat) as [b |] eqn:E; [by destruct (continuation b) |].
  apply lookup_ge_None in E. assert (Hl : len str = 50) by (unfold len in *; lia). by rewrite Hl.
Qed.

(** ** A transaction that makes the conversion panic *)

#[local] Existing Instance bank_ops.
#[local] Existing Instance bank_frame_ops.

(** A reason of 17 characters of three bytes each. *)
Definition long_reason : list byte := concat (replicate 17 [xe6; x99; xba]).

Definition revert_payload : list byte :=
  [x08; xc3; x79; xa0] ++ to_be 32 32 ++ to_be 32 51 ++ long_reason ++ replicate 13 x00.

(** Code that copies the payload after it to memory and reverts with it. *)
Definition reverting_code : list byte :=
  [x60; x84; x60; x0c; x60; x00; x39; x60; x84; x60; x00; xfd] ++ revert_payload.

Definition reverting_creation : Transaction := mkTransaction 5 0 100000 2 reverting_code ActionCreate 0.

Lemma revert_reason_exact_witness :
  (revert_reason_decode revert_payload : vm_result (list byte)) = Panic /\ reason_of revert_payload = Some long_reason.
Proof.
  split; [| vm_compute; reflexivity].
  rewrite (revert_reason_exact revert_payload) by (vm_compute; reflexivity). vm_compute. reflexivity.
Defined.

(** C32. A transaction makes the node panic: the contract creation [reverting_creation], which any
    account can send, runs without a panic to the outcome that the contract reverted, and turning
    this outcome into the status that the chain records panics, because the reason that the
    contract gives is cut within a character. *)
Theorem reverting_transaction_panics status_code keep_or_discard :
  (forall location code,
     keep_or_discard (StatusMoveAbort location code) = inl (KeptMoveAbort location code)) ->
  exists executed s' cache',
    bank_run reverting_creation = (Ok (Some (ExecutionErrorBumpNonce (VmError Reverted) executed)), (s', cache')) /\
    (convert_execution_outcome status_code keep_or_discard
       (ExecutionErrorBumpNonce (VmError Reverted) executed) : vm_result _) = Panic.
Proof.
  intros Hkeep. destruct (bank_run reverting_creation) as [r [s' cache']] eqn:E.
  assert (Er : r = (bank_run reverting_creation).1) by (by rewrite E). vm_compute in Er. subst r.
  eexists _, s', cache'. split; [reflexivity |].
  unfold convert_execution_outcome. cbn [of_outcome of_vm_error result_bind co_status co_reason]. unfold of_vm_status.
  rewrite Hkeep. cbn [of_kept reason_name]. rewrite decide_True by done. vm_compute. reflexivity.
Qed.

(** Statuses of executions are kept and errors discarded. *)
Definition keep_aborts (s : VMStatus) : KeptVMStatus + StatusCode :=
  match s with
  | StatusExecuted => inl KeptExecuted
  | StatusMoveAbort location code => inl (KeptMoveAbort location code)
  | StatusVMExecutionFailure _ location function code_offset => inl (KeptExecutionFailure location function code_offset)
  | StatusError code => inr code
  end.

Lemma reverting_transaction_panics_witness :
  exists executed s' cache',
    bank_run reverting_creation = (Ok (Some (ExecutionErrorBumpNonce (VmError Reverted) executed)), (s', cache')) /\
    (convert_execution_outcome (fun _ => OUT_OF_GAS) keep_aborts
       (ExecutionErrorBumpNonce (VmError Reverted) executed) : vm_result _) = Panic.
Proof. apply (reverting_transaction_panics (fun _ => OUT_OF_GAS) keep_aborts). reflexivity. Defined.
