(* ===== verification/InternalContracts.v ===== *)
(** * Internal contracts

    src/cfx-evm/src/internal_contract: how a function with a Solidity interface is executed
    (components/function.rs), how a contract finds the function of a call (components/contract.rs),
    the map of the contracts (components/contract_map.rs), the contracts themselves
    (contracts/cross_space.rs, context.rs, system_storage.rs, future.rs, mod.rs); the machine that
    holds them ([new_machine_with_builtin] of machine.rs), the parameters of the chain
    (spec/spec.rs) and the schedule they give ([new_spec_from_common_params] of vm/spec.rs); the
    state with a Move VM behind it ([State::new_with_move_vm] and [as_move_vm] of state/mod.rs).

    A contract runs in the context of its frame. The Move VM is the class [CallMoveVM], the trait
    of the source, and the serialization of its values, a third-party crate, the class [Bcs]. *)

From stdpp Require Import gmap strings.
From S2P Require Import Prelude Word SolidityAbi StateDb Arith Instructions VmTypes FrameContext Gasometer.
From S2P Require Import SharedCache Interpreter Frames Builtins Transact Outcome.
Local Open Scope Z_scope.

(** ** Parameters of the chain *)

Record TransitionsBlockNumber : Set := mkTransitionsBlockNumber {
  tn_cip43a : Z; tn_cip43b : Z; tn_cip62 : Z; tn_cip64 : Z; tn_cip71 : Z; tn_cip78a : Z; tn_cip78b : Z;
  tn_cip90b : Z; tn_cip92 : Z; tn_cip94 : Z; tn_cip97 : Z; tn_cip98 : Z; tn_cip105 : Z; tn_cip_sigma_fix : Z;
}.

Definition TransitionsBlockNumber_default : TransitionsBlockNumber :=
  mkTransitionsBlockNumber 0 0 0 0 0 0 0 0 0 0 0 0 0 0.

(** What the machine reads of [CommonParams]. The chain id is one for all heights, as
    [ChainIdParamsInner::new_simple] makes it. *)
Record CommonParams : Set := mkCommonParams {
  cp_chain_id : Z;
  cp_early_set_internal_contracts_states : bool;
  cp_transition_numbers : TransitionsBlockNumber;
}.

Definition EVM_CHAINID : Z := 129.

Definition CommonParams_default : CommonParams :=
  mkCommonParams EVM_CHAINID false TransitionsBlockNumber_default.

Definition new_spec_from_common_params (params : CommonParams) (number : Z) : Spec :=
  let t := cp_transition_numbers params in
  let spec := genesis_spec in {|
  exceptional_failed_code_deposit := exceptional_failed_code_deposit spec;
  stack_limit := stack_limit spec;
  max_depth := max_depth spec;
  tier_step_gas := tier_step_gas spec;
  exp_gas := exp_gas spec;
  exp_byte_gas := exp_byte_gas spec;
  sha3_gas := sha3_gas spec;
  sha3_word_gas := sha3_word_gas spec;
  sload_gas := sload_gas spec;
  sstore_set_gas := sstore_set_gas spec;
  sstore_reset_gas := sstore_reset_gas spec;
  sstore_refund_gas := sstore_refund_gas spec;
  jumpdest_gas := jumpdest_gas spec;
  log_gas := log_gas spec;
  log_data_gas := log_data_gas spec;
  log_topic_gas := log_topic_gas spec;
  create_gas := create_gas spec;
  call_gas := call_gas spec;
  call_stipend := call_stipend spec;
  call_value_transfer_gas := call_value_transfer_gas spec;
  call_new_account_gas := call_new_account_gas spec;
  suicide_refund_gas := suicide_refund_gas spec;
  memory_gas := memory_gas spec;
  quad_coeff_div := quad_coeff_div spec;
  create_data_gas := create_data_gas spec;
  create_data_limit := create_data_limit spec;
  VmTypes.tx_gas := VmTypes.tx_gas spec;
  tx_create_gas := tx_create_gas spec;
  tx_data_zero_gas := tx_data_zero_gas spec;
  tx_data_non_zero_gas := tx_data_non_zero_gas spec;
  copy_gas := copy_gas spec;
  extcodesize_gas := extcodesize_gas spec;
  extcodecopy_base_gas := extcodecopy_base_gas spec;
  balance_gas := balance_gas spec;
  extcodehash_gas := extcodehash_gas spec;
  suicide_gas := suicide_gas spec;
  retire_gas := retire_gas spec;
  eip1820_gas := eip1820_gas spec;
  suicide_to_new_account_cost := suicide_to_new_account_cost spec;
  sub_gas_cap_divisor := sub_gas_cap_divisor spec;
  no_empty := no_empty spec;
  kill_empty := kill_empty spec;
  blockhash_gas := blockhash_gas spec;
  kill_dust := kill_dust spec;
  keep_unsigned_nonce := keep_unsigned_nonce spec;
  wasm := wasm spec;
  contract_start_nonce := contract_start_nonce spec;
  account_start_nonce := account_start_nonce spec;
  evm_gas_ratio := evm_gas_ratio spec;
  cip43_contract := tn_cip43a t <=? number;
  cip43_init := (tn_cip43a t <=? number) && (number <? tn_cip43b t);
  cip62 := tn_cip62 t <=? number;
  cip64 := tn_cip64 t <=? number;
  cip71 := tn_cip71 t <=? number;
  cip90 := tn_cip90b t <=? number;
  cip78a := tn_cip78a t <=? number;
  cip78b := tn_cip78b t <=? number;
  cip94 := tn_cip94 t <=? number;
  cip94_activation_block_number := tn_cip94 t;
  cip97 := tn_cip97 t <=? number;
  cip98 := tn_cip98 t <=? number;
  cip105 := tn_cip105 t <=? number;
  cip_sigma_fix := tn_cip_sigma_fix t <=? number
|}.

(** ** The Move VM behind the state *)

Class Bcs : Type := {
  TypeTag : Type;
  bcs_type_tag : list byte -> option TypeTag;
  bcs_decode_u64 : list byte -> result string Z;
  bcs_decode_bytes32 : list byte -> result string (list byte);
  bcs_encode_u64 : Z -> result string (list byte);
  bcs_encode_bytes32 : list byte -> result string (list byte);
}.

(** [CallMoveVMTrait], of a handler of type [H] *)
Class CallMoveVM `{Bcs} (H : Type) : Type :=
  call_move_vm : forall (caller : Z) (address module function : list byte) (data : list (list byte))
    (types : list TypeTag) (value gas : Z), M string H (list byte).

(** A state and the Move VM it can call. *)
Record EvmState (St H : Type) : Type := mkEvmState { es_state : St; es_move_vm : option H }.
Arguments mkEvmState {St H}.
Arguments es_state {St H}.
Arguments es_move_vm {St H}.

Section evm_state.
Context {St H : Type} {SS : StateOps St} {FS : FrameState St}.

(** An operation of the state leaves the Move VM alone; so does going back to a checkpoint. *)
Definition on_es {A} (m : M Error St A) : M Error (EvmState St H) A := fun s =>
  let '(r, t) := m (es_state s) in (r, mkEvmState t (es_move_vm s)).

Definition on_es_touching {A} (m : M Error (St * gset Z) A) : M Error (EvmState St H * gset Z) A := fun p =>
  let '(r, (t, touched)) := m (es_state p.1, p.2) in (r, (mkEvmState t (es_move_vm p.1), touched)).

Definition map_es (f : St -> St) (s : EvmState St H) : EvmState St H := mkEvmState (f (es_state s)) (es_move_vm s).

#[export] Instance evm_state_ops : StateOps (EvmState St H) := {|
  st_balance s := st_balance (es_state s);
  st_nonce s := st_nonce (es_state s);
  st_code_hash s := st_code_hash (es_state s);
  st_code_size s := st_code_size (es_state s);
  st_code s := st_code (es_state s);
  st_exists s := st_exists (es_state s);
  st_exists_and_not_null s := st_exists_and_not_null (es_state s);
  st_storage_at s := st_storage_at (es_state s);
  st_set_storage a k v := on_es (st_set_storage a k v);
  st_init_code a code := on_es (st_init_code a code);
  st_inc_nonce a start := on_es (st_inc_nonce a start);
  st_sub_balance a v m := on_es_touching (st_sub_balance a v m);
  st_transfer_balance a a' v m start := on_es_touching (st_transfer_balance a a' v m start);
  st_subtract_total_issued v := map_es (st_subtract_total_issued v);
|}.

#[export] Instance evm_frame_state : FrameState (EvmState St H) := {|
  st_checkpoint := map_es st_checkpoint;
  st_discard_checkpoint := map_es st_discard_checkpoint;
  st_revert_to_checkpoint := on_es st_revert_to_checkpoint;
  st_new_contract a v n layout := on_es (st_new_contract a v n layout);
  st_add_balance a v m start := on_es_touching (st_add_balance a v m start);
  st_remove_contract a := on_es (st_remove_contract a);
|}.
End evm_state.

(** ** Functions with a Solidity interface *)

Definition bytes_of (s : string) : list byte := String.list_byte_of_string s.

(** [From<ABIDecodeError> for vm::Error] *)
Definition of_abi_error (err : ABIDecodeError) : Error :=
  let 'mkABIDecodeError desc := err in VmTypes.InternalContract ("ABI decode error: " ++ desc).

Definition abi_to_vm {A} (r : abi_result A) : vm_result A :=
  match r with Ok a => Ok a | Err e => Err (of_abi_error e) | Panic => Panic end.

(** [ABIDecodable] and [ABIEncodable] *)
Record ABISerde (A : Type) : Type := mkABISerde {
  sd_decode : list byte -> abi_result A;
  sd_encode : A -> abi_result (list byte);
}.
Arguments mkABISerde {A}.
Arguments sd_decode {A}.
Arguments sd_encode {A}.

Definition serde_unit : ABISerde unit := mkABISerde (fun _ => Ok tt) (fun _ => Ok []).
Definition serde_of {A} (T : ABIVariable A) : ABISerde A := mkABISerde (abi_decode T) (abi_encode T).
Definition serde_tuple {A} (F : ABIFields A) : ABISerde A := mkABISerde (abi_decode_tuple F) (abi_encode_tuple F).

(** [SolidityFunctionTrait]: the interface and the execution of a function. *)
Record SolidityFunction (St : Type) : Type := mkSolidityFunction {
  sf_name_and_params : list byte;
  sf_is_active : Spec -> bool;
  sf_execute : list byte -> ActionParams -> M Error (FrameContext St) GasLeft;
}.
Arguments mkSolidityFunction {St}.
Arguments sf_name_and_params {St}.
Arguments sf_is_active {St}.
Arguments sf_execute {St}.

(** [PreExecCheckTrait::pre_execution_check] *)
Definition pre_execution_check (payable has_write_op : bool) (params : ActionParams) : vm_result unit :=
  if negb payable && negb (action_value (ap_value params) =? 0)
  then Err (VmTypes.InternalContract "should not transfer balance to Staking contract")
  else if has_write_op && bool_decide (ap_call_type params = StaticCall) then Err MutableCallInStaticContext
  else Ok tt.

Section functions.
Context {St I O : Type}.

Definition preprocessing (input_type : ABISerde I) (payable has_write_op : bool) (gas : Spec -> vm_result Z)
    (input : list byte) (params : ActionParams) : M Error (FrameContext St) (I * Z) :=
  lift (pre_execution_check payable has_write_op params) ;;;
  solidity_params <~ lift (abi_to_vm (sd_decode input_type input)) ;;
  c <~ get ;;
  cost <~ lift (gas (fc_spec c)) ;;
  if ap_gas params <? cost then throw OutOfGas else ret (solidity_params, cost).

(** [SolidityFunctionTrait::execute] of a function whose execution asks for no sub-call *)
Definition function_execute (input_type : ABISerde I) (output_type : ABISerde O) (payable has_write_op : bool)
    (gas : Spec -> vm_result Z) (execute_inner : I -> ActionParams -> M Error (FrameContext St) O)
    (input : list byte) (params : ActionParams) : M Error (FrameContext St) GasLeft :=
  p <~ preprocessing input_type payable has_write_op gas input params ;;
  let '(solidity_params, cost) := p in
  gas_left <~ lift (checked_sub (ap_gas params) cost) ;;
  output <~ execute_inner solidity_params params ;;
  output <~ lift (match sd_encode output_type output with Ok l => Ok l | _ => Panic end) ;;
  let length := len output in
  c <~ get ;;
  rounded <~ lift (checked_add 64 length 31) ;;
  return_cost <~ lift (checked_mul 64 (rounded / 32) (memory_gas (fc_spec c))) ;;
  if gas_left <? return_cost then throw OutOfGas
  else
    left <~ lift (checked_sub gas_left return_cost) ;;
    ret (NeedsReturn left (mkReturnData output 0 length) true).

(** [make_solidity_function] with [impl_function_type] and [group_impl_is_active] *)
Definition make_function (name : string) (input_type : ABISerde I) (output_type : ABISerde O)
    (payable has_write_op : bool) (gas : Spec -> vm_result Z) (is_active : Spec -> bool)
    (execute_inner : I -> ActionParams -> M Error (FrameContext St) O) : SolidityFunction St :=
  mkSolidityFunction (bytes_of name) is_active
    (function_execute input_type output_type payable has_write_op gas execute_inner).
End functions.

(** ** Contracts *)

Record InternalContractTrait (St : Type) : Type := mkInternalContractTrait {
  it_address : Z;
  it_initialize_block : CommonParams -> Z;
  it_is_active : Spec -> bool;
  it_func_table : gmap (list byte) (SolidityFunction St);
}.
Arguments mkInternalContractTrait {St}.
Arguments it_address {St}.
Arguments it_initialize_block {St}.
Arguments it_is_active {St}.
Arguments it_func_table {St}.

Definition load_solidity_fn {St} (data : option (list byte)) (func_table : gmap (list byte) (SolidityFunction St))
    (spec : Spec) : vm_result (SolidityFunction St * list byte) :=
  match data with
  | None => Err (of_abi_error (mkABIDecodeError "None call data"))
  | Some call_data =>
      if len call_data <? 4 then Err (of_abi_error (mkABIDecodeError "Incomplete function signature"))
      else
        match func_table !! take 4 call_data with
        | Some f =>
            if sf_is_active f spec then Ok (f, drop 4 call_data)
            else Err (VmTypes.InternalContract "unsupported function")
        | None => Err (VmTypes.InternalContract "unsupported function")
        end
  end.

Definition contract_execute {St} (self : InternalContractTrait St) (params : ActionParams) :
    M Error (FrameContext St) GasLeft :=
  c <~ get ;;
  loaded <~ lift (load_solidity_fn (ap_data params) (it_func_table self) (fc_spec c)) ;;
  let '(solidity_fn, call_params) := loaded in
  sf_execute solidity_fn call_params params.

Section contracts.
Context (keccak : list byte -> Z) {St H : Type} {SS : StateOps St} `{BcsI : Bcs} {MV : CallMoveVM H}.

Abbreviation S_ := (EvmState St H).
Abbreviation Function_ := (SolidityFunction S_).
Abbreviation Contract_ := (InternalContractTrait S_).

Definition INTERNAL_CONTRACT_BYTES : list byte := [x00; x00; x00; x00].

(** [FUNC_SIG] *)
Definition function_sig (f : Function_) : list byte := take 4 (to_be 32 (keccak (sf_name_and_params f))).

Definition make_function_table (l : list Function_) : gmap (list byte) Function_ :=
  foldl (fun table f => <[function_sig f := f]> table) ∅ l.

(** *** cross_space.rs *)

(** A call of the Move VM behind the state, [None] where there is none. *)
Definition with_move_vm {A} (m : M string H A) : M Error (FrameContext S_) (option (A + string)) := fun c =>
  match es_move_vm (fc_state c) with
  | None => (Ok None, c)
  | Some h =>
      let '(r, h) := m h in
      let c := set_state (mkEvmState (es_state (fc_state c)) (Some h)) c in
      match r with
      | Ok a => (Ok (Some (inl a)), c)
      | Err e => (Ok (Some (inr e)), c)
      | Panic => (Panic, c)
      end
  end.

Definition as_move_vm : M Error (FrameContext S_) (option H) := c <~ get ;; ret (es_move_vm (fc_state c)).

Definition CallToMove_inner
    (input : list byte * (list byte * (list byte * (list (list byte) * (list (list byte) * unit)))))
    (params : ActionParams) : M Error (FrameContext S_) (list byte) :=
  let '(address, (module, (function, (data, (encoded_types, _))))) := input in
  let value := action_value (ap_value params) in
  let caller := ap_sender params in
  let function := bytes_of "ihe_" ++ function in
  c <~ get ;;
  touch_do (st_sub_balance CROSS_SPACE_CONTRACT_ADDRESS value (cleanup_mode (fc_spec c))) ;;;
  vm <~ as_move_vm ;;
  match vm with
  | None => throw (VmTypes.InternalContract "Cannot call move vm")
  | Some _ =>
      match mapM bcs_type_tag encoded_types with
      | None => throw (VmTypes.InternalContract "Cannot decode type tag")
      | Some types =>
          r <~ with_move_vm (call_move_vm caller address module function data types value (ap_gas params)) ;;
          match r with
          | Some (inl bytes) => ret bytes
          | Some (inr err) => throw (VmTypes.InternalContract ("Fail to call move vm: " ++ err))
          | None => throw (VmTypes.InternalContract "Cannot call move vm")
          end
      end
  end.

Definition genesis_active : Spec -> bool := fun _ => true.
Definition no_gas : Spec -> vm_result Z := fun _ => Ok 0.

Definition bcs_result {A} (prefix : string) (r : result string A) : M Error (FrameContext S_) A :=
  match r with
  | Ok a => ret a
  | Err e => throw (VmTypes.InternalContract (prefix ++ e))
  | Panic => panic
  end.

Definition CallToMove : Function_ :=
  make_function "callMove(bytes32,string,string,bytes[],bytes[])"
    (serde_tuple (field (abi_byte_array 32) (field abi_string (field abi_string
       (field (abi_vec abi_bytes) (field (abi_vec abi_bytes) no_fields))))))
    (serde_of abi_bytes) true true no_gas genesis_active CallToMove_inner.

Definition Log : Function_ :=
  make_function "log(bytes)" (serde_of abi_bytes) serde_unit false true no_gas genesis_active
    (fun _ _ => ret tt).

Definition DecodeU64 : Function_ :=
  make_function "decodeU64(bytes)" (serde_of abi_bytes) (serde_of (abi_primitive 8)) false false no_gas
    genesis_active (fun bytes _ => bcs_result "u64 Deserialize fail: " (bcs_decode_u64 bytes)).

Definition DecodeBytes32 : Function_ :=
  make_function "decodeBytes32(bytes)" (serde_of abi_bytes) (serde_of (abi_byte_array 32)) false false no_gas
    genesis_active (fun bytes _ => bcs_result "bytes32 deserialize fail: " (bcs_decode_bytes32 bytes)).

Definition EncodeU64 : Function_ :=
  make_function "encodeU64(uint64)" (serde_of (abi_primitive 8)) (serde_of abi_bytes) false false no_gas
    genesis_active (fun data _ => bcs_result "BCS serialize fail: " (bcs_encode_u64 data)).

Definition EncodeBytes32 : Function_ :=
  make_function "encodeBytes32(bytes32)" (serde_of (abi_byte_array 32)) (serde_of abi_bytes) false false no_gas
    genesis_active (fun data _ => bcs_result "BCS serialize fail: " (bcs_encode_bytes32 data)).

Definition CrossSpaceCall : Contract_ :=
  mkInternalContractTrait CROSS_SPACE_CONTRACT_ADDRESS (fun _ => 0) (fun _ => true)
    (make_function_table [CallToMove; Log; EncodeU64; EncodeBytes32; DecodeU64; DecodeBytes32]).

(** *** context.rs *)

Definition CONTEXT_CONTRACT_ADDRESS : Z := 0x0888000000000000000000000000000000000004.

Definition base_tier_gas : Spec -> vm_result Z := fun spec => unwrap (index (tier_step_gas spec) (tier_idx Base)).

Definition EpochNumber : Function_ :=
  make_function "epochNumber()" serde_unit (serde_of abi_u256) false false base_tier_gas cip64
    (fun _ _ => c <~ get ;; ret (env_epoch_height (fc_env c))).

Definition PoSHeight : Function_ :=
  make_function "posHeight()" serde_unit (serde_of abi_u256) false false base_tier_gas cip64 (fun _ _ => ret 0).

Definition FinalizedEpoch : Function_ :=
  make_function "finalizedEpochNumber()" serde_unit (serde_of abi_u256) false false base_tier_gas cip64
    (fun _ _ => ret 0).

Definition ContextContract : Contract_ :=
  mkInternalContractTrait CONTEXT_CONTRACT_ADDRESS (fun params => tn_cip64 (cp_transition_numbers params)) cip64
    (make_function_table [EpochNumber; PoSHeight; FinalizedEpoch]).

(** *** system_storage.rs and future.rs *)

Definition SYSTEM_STORAGE_ADDRESS : Z := 0x088800000000000000000000000000000000000a.
Definition RESERVED3 : Z := 0x0888000000000000000000000000000000000003.
Definition RESERVED8 : Z := 0x0888000000000000000000000000000000000008.
Definition RESERVED9 : Z := 0x0888000000000000000000000000000000000009.
Definition RESERVED11 : Z := 0x088800000000000000000000000000000000000b.

Definition SystemStorage : Contract_ :=
  mkInternalContractTrait SYSTEM_STORAGE_ADDRESS (fun params => tn_cip94 (cp_transition_numbers params)) cip94 ∅.

Definition placeholder (address : Z) : Contract_ :=
  mkInternalContractTrait address (fun _ => 2 ^ 64 - 1) (fun _ => false) ∅.

Definition all_internal_contracts : list Contract_ :=
  [ContextContract; CrossSpaceCall; SystemStorage; placeholder RESERVED3; placeholder RESERVED8;
   placeholder RESERVED9; placeholder RESERVED11].

(** ** The map of the contracts *)

Record InternalContractMap : Type := mkInternalContractMap {
  im_builtin : gmap Z Contract_;
  im_activation_info : gmap Z (list Z);
}.

(** The loop takes the contracts from the end of the list. *)
Fixpoint add_contracts (params : CommonParams) (internal_contracts : list Contract_) (m : InternalContractMap) :
    InternalContractMap :=
  match internal_contracts with
  | [] => m
  | contract :: rest =>
      let address := it_address contract in
      let transition_block :=
        if cp_early_set_internal_contracts_states params then 0 else it_initialize_block contract params in
      add_contracts params rest
        (mkInternalContractMap (<[address := contract]> (im_builtin m))
           (<[transition_block := default [] (im_activation_info m !! transition_block) ++ [address]]>
              (im_activation_info m)))
  end.

Definition InternalContractMap_new (params : CommonParams) : InternalContractMap :=
  add_contracts params (reverse all_internal_contracts) (mkInternalContractMap ∅ ∅).

Definition initialized_at (self : InternalContractMap) (number : Z) : list Z :=
  default [] (im_activation_info self !! number).

Definition map_contract (self : InternalContractMap) (address : Z) (spec : Spec) : option Contract_ :=
  contract ← im_builtin self !! address; if it_is_active contract spec then Some contract else None.

(** ** The machine *)

Definition to_exec (contract : Contract_) : InternalExec S_ :=
  mkInternalExec (mkInternalContract INTERNAL_CONTRACT_BYTES (keccak INTERNAL_CONTRACT_BYTES))
    (contract_execute contract).
End contracts.

Section machine.
Context (keccak : list byte -> Z) {St H : Type} {SS : StateOps St} `{BcsI : Bcs} {MV : CallMoveVM H}.
Context `{BytesRef, BigUintBytes, Digest, Bn}.

Definition new_machine_with_builtin (params : CommonParams) : vm_result (ChainMachine (EvmState St H)) :=
  let t := cp_transition_numbers params in
  let? builtins := new_builtin_map keccak (tn_cip62 t) (tn_cip92 t) in
  let internal_contracts := InternalContractMap_new keccak params in
  Ok (mkChainMachine builtins
        (fun a spec => to_exec keccak <$> map_contract internal_contracts a spec)
        (fun _ => cp_chain_id params)).

(** [EvmMachine::new] *)
Definition EvmMachine_new : vm_result (ChainMachine (EvmState St H)) := new_machine_with_builtin CommonParams_default.
End machine.
