(* ===== verification/InternalLaws.v ===== *)
(** * The machine runs

    The machine of [InternalContracts], with its builtins and internal contracts, is one that
    frames and transactions can rely on ([wf_machine]): the laws of the state carry over to a state
    with a Move VM behind it; a function with a Solidity interface decodes any input, stays within
    its gas and does not panic; and so the contracts. Assumed are a Move VM that returns, and keeps
    an invariant of its own, and a serialization of its values that does not panic. *)

From stdpp Require Import gmap strings.
From S2P Require Import Prelude Word SolidityAbi AbiDecode StateDb Arith Instructions VmTypes FrameContext Gasometer.
From S2P Require Import SharedCache Interpreter WorldState WorldSpec WorldTypes Frame Frames FrameStack Builtins WorldLaws.
From S2P Require Import Transact TransactLaws Outcome InternalContracts.
Local Open Scope Z_scope.

(** ** The schedule *)

Lemma wf_new_spec params number : wf_spec (new_spec_from_common_params params number).
Proof. destruct wf_genesis_spec. by constructor. Qed.

(** ** Laws of the state with a Move VM *)

Section lift.
Context {St H : Type} {SS : StateOps St} {FS : FrameState St} (h_inv : H -> Prop) (has_vm : Prop).

(** The Move VM keeps its invariant, and is there if there is to be one. *)
Definition handler_ok (s : EvmState St H) : Prop :=
  match es_move_vm s with Some h => h_inv h | None => ~ has_vm end.

Lemma wp_on_es {A} (m : M Error St A) (s : EvmState St H) (Q : A -> St -> Prop) (R : Error -> St -> Prop) :
  wp m (es_state s) Q R ->
  wp (on_es m) s (fun a s' => Q a (es_state s') /\ es_move_vm s' = es_move_vm s)
    (fun e s' => R e (es_state s') /\ es_move_vm s' = es_move_vm s).
Proof. unfold wp, on_es. by destruct (m (es_state s)) as [[] t]. Qed.

Lemma wp_on_es_touching {A} (m : M Error (St * gset Z) A) (s : EvmState St H) t (Q : A -> St -> Prop) (R : Error -> St -> Prop) :
  wp m (es_state s, t) (fun a p => Q a p.1) (fun e p => R e p.1) ->
  wp (on_es_touching m) (s, t) (fun a p => Q a (es_state p.1) /\ es_move_vm p.1 = es_move_vm s)
    (fun e p => R e (es_state p.1) /\ es_move_vm p.1 = es_move_vm s).
Proof. unfold wp, on_es_touching. cbn. by destruct (m (es_state s, t)) as [[] [t' touched]]. Qed.

Lemma handler_same s s' : es_move_vm s' = es_move_vm s -> handler_ok s -> handler_ok s'.
Proof. unfold handler_ok. by intros ->. Qed.

Section frame_laws.
Context {V : Type} {st_at : nat -> V -> list V -> St -> Prop} (XL : FrameStateLaws St V st_at).

Definition es_at (n : nat) (v : V) (sv : list V) (s : EvmState St H) : Prop := st_at n v sv (es_state s) /\ handler_ok s.

Abbreviation inv sv := (fun (n : nat) (s : St) => exists v, st_at n v sv s).
Abbreviation es_inv sv := (fun (n : nat) (s : EvmState St H) => exists v, es_at n v sv s).

Lemma es_inv_of n sv s s' : inv sv n (es_state s') -> es_move_vm s' = es_move_vm s -> handler_ok s -> es_inv sv n s'.
Proof. intros [v Hv] E Hh. exists v. split; [done | by eapply handler_same]. Qed.

Lemma wp_on_es_inv {A} (m : M Error St A) (s : EvmState St H) sv n :
  handler_ok s -> wp m (es_state s) (fun _ => inv sv n) (fun _ => inv sv n) ->
  wp (on_es m) s (fun _ => es_inv sv n) (fun _ => es_inv sv n).
Proof. intros Hh Hm. eapply wp_mono; [by apply wp_on_es | |]; intros ? ? [? ?]; by eapply es_inv_of. Qed.

Lemma es_state_laws sv : StateLaws (EvmState St H) (es_inv sv).
Proof.
  pose proof (xl_state (FrameStateLaws := XL) sv) as SL.
  constructor; cbn.
  - intros n m s (v & ? & ?) Hle. exists v. split; [by eapply xl_mono | done].
  - intros n s a (v & Hs & _). eapply (sl_balance (StateLaws := SL)). by exists v.
  - intros n s a (v & Hs & _). eapply (sl_nonce (StateLaws := SL)). by exists v.
  - intros n s a (v & Hs & _). eapply (sl_code_hash (StateLaws := SL)). by exists v.
  - intros n s a (v & Hs & _). eapply (sl_code_size (StateLaws := SL)). by exists v.
  - intros n s a (v & Hs & _). eapply (sl_code (StateLaws := SL)). by exists v.
  - intros n s a (v & Hs & _). eapply (sl_exists (StateLaws := SL)). by exists v.
  - intros n s a (v & Hs & _). eapply (sl_exists_and_not_null (StateLaws := SL)). by exists v.
  - intros n s a k (v & Hs & _). eapply (sl_storage_at (StateLaws := SL)). by exists v.
  - intros n s a k x (v & Hs & Hh) Hx. apply wp_on_es_inv; [done |]. apply (sl_set_storage (StateLaws := SL)); [by exists v | done].
  - intros n s a code (v & Hs & Hh) Hx. apply wp_on_es_inv; [done |]. apply (sl_init_code (StateLaws := SL)); [by exists v | done].
  - intros n s a start (v & Hs & Hh) Hx. eapply wp_mono; [apply wp_on_es, (sl_inc_nonce (StateLaws := SL)); [by exists v | done] | |].
    + intros ? ? [[? ?] ?]. split; [by eapply es_inv_of | done].
    + intros ? ? [? ?]. by eapply es_inv_of.
  - intros n s t a x m (v & Hs & Hh) Hx. eapply wp_mono;
      [apply (wp_on_es_touching _ s t (fun _ => inv sv n) (fun _ => inv sv n)); apply (sl_sub_balance (StateLaws := SL)); [by exists v | done] | |];
      intros ? ? [? ?]; by eapply es_inv_of.
  - intros n s t a a' x m start (v & Hs & Hh) Hx Hst. eapply wp_mono;
      [apply (wp_on_es_touching _ s t (fun _ s' => inv sv n s' /\ affordable s' a' x) (fun _ => inv sv n));
       apply (sl_transfer_balance (StateLaws := SL)); [by exists v | done | done] | |].
    + intros ? ? [[? ?] ?]. split; [by eapply es_inv_of | done].
    + intros ? ? [? ?]. by eapply es_inv_of.
  - intros n s x (v & Hs & Hh).
    destruct (sl_subtract_total_issued (StateLaws := SL) n (es_state s) x (ex_intro _ v Hs)) as [v' Hv']. by exists v'.
Qed.

Lemma es_errors {A} (m : M Error St A) : only_db_errors m -> only_db_errors (on_es m : M Error (EvmState St H) A).
Proof.
  intros Hm s e s'. unfold on_es. destruct (m (es_state s)) as [r t] eqn:E. intros [= -> _]. by eapply Hm.
Qed.

Lemma es_touching_errors {A} (m : M Error (St * gset Z) A) :
  only_db_errors m -> only_db_errors (on_es_touching m : M Error (EvmState St H * gset Z) A).
Proof.
  intros Hm s e s'. unfold on_es_touching. destruct (m (es_state s.1, s.2)) as [r [t touched]] eqn:E.
  intros [= -> _]. by eapply Hm.
Qed.

#[export] Instance es_frame_laws : FrameStateLaws (EvmState St H) V es_at.
Proof.
  constructor; cbn.
  - apply es_state_laws.
  - intros n m v sv s [? ?] Hle. split; [by eapply xl_mono | done].
  - intros n v sv s [? ?]. split; [by apply xl_checkpoint | done].
  - intros n v sv s a [? _]. by eapply xl_checkpoint_balance.
  - intros n v w sv s [? ?]. split; [by eapply xl_discard | done].
  - intros n v w sv s [? ?]. eapply wp_mono; [by eapply wp_on_es, xl_revert | |].
    + intros ? ? [? ?]. split; [done | by eapply handler_same].
    + by intros ? ? [? _].
  - intros n sv s t a a' v prev m layout (x & Hx & Hh) Hw Hw' Hne Ha Ep. eapply wp_mono;
      [apply (wp_on_es_touching _ s t (fun _ s' => wp (st_new_contract a' (Z.min (v + prev) (2 ^ 256 - 1)) 1 layout) s'
         (fun _ => inv sv n) (fun _ => inv sv n)) (fun _ => inv sv n)); eapply xl_new_contract; try done; by exists x | |].
    + intros ? p [Hp E]. apply wp_on_es_inv; [by eapply handler_same | done].
    + intros ? p [Hp E]. by eapply es_inv_of.
  - intros s a e. apply xl_balance_errors.
  - intros a v m. apply es_touching_errors, xl_sub_balance_errors.
  - intros a a' v m start. apply es_touching_errors, xl_transfer_balance_errors.
  - intros a v n layout. apply es_errors, xl_new_contract_errors.
Qed.
End frame_laws.
End lift.

(** The laws of transactions carry over as well. *)
Section tx_laws.
Context {St H : Type} {SS : StateOps St} {FS : FrameState St} (h_inv : H -> Prop) (has_vm : Prop).
Context `{Rlp} {T : Type} {ST : StorageTrait OwnedStateKey T} {db : T}.
Context {at_ : Z -> nat -> View -> list View -> St -> Prop} (TL : TxStateLaws St db at_).

Definition es_at_ (B : Z) : nat -> View -> list View -> EvmState St H -> Prop := es_at h_inv has_vm (st_at := at_ B).

#[export] Instance es_tx_laws : TxStateLaws (EvmState St H) db es_at_.
Proof.
  constructor; cbn.
  - intros B. apply (es_frame_laws h_inv has_vm (tl_frame B)).
  - intros B n v sv s [? _]. by eapply tl_bound.
  - intros B n v sv s a [? _]. by eapply tl_nonce.
  - intros B n v sv s a [? _]. by eapply tl_balance.
  - intros B n v sv s a [? _]. by eapply tl_exists.
  - intros B n v sv s a start [? Hh] Ha Hst. eapply wp_mono; [by apply wp_on_es, tl_inc_nonce | |].
    + intros ? ? [? ?]. split; [done | by eapply handler_same].
    + by intros ? ? [? _].
  - intros B n v s t a x m [? Hh] Hwa Ha. eapply wp_mono;
      [apply (wp_on_es_touching _ s t (fun _ => at_ (B - x) n (view_debit a x v) []) (fun e _ => db_error e));
       by apply tl_sub_balance | |].
    + intros ? ? [? ?]. split; [done | by eapply handler_same].
    + by intros ? ? [? _].
  - intros B n v s t a x m start [? Hh] Hwa Hx HB Hst. eapply wp_mono;
      [apply (wp_on_es_touching _ s t (fun _ s' => at_ (B + x) n (view_credit db a x m start v) [] s' /\
         exists b, balance_in v a = Ok b) (fun e _ => db_error e)); by apply tl_add_balance | |].
    + intros ? ? [[? ?] ?]. split; [split; [done | by eapply handler_same] | done].
    + by intros ? ? [? _].
  - intros B n v s a [? Hh]. eapply wp_mono; [by eapply wp_on_es, tl_remove_contract | |].
    + intros ? ? [[v' ?] ?]. exists v'. split; [done | by eapply handler_same].
    + by intros ? ? [? _].
  - intros B n v s x [Hs Hh]. destruct (tl_subtract B n v (es_state s) x Hs) as [v' Hv']. by exists v'.
  - intros s a e. apply tl_code_errors.
  - intros s a e. apply tl_code_hash_errors.
Qed.
End tx_laws.

(** ** What is assumed of the Move VM and of its serialization *)

Class BcsLaws `{Bcs} : Prop := {
  bl_decode_u64 l : len l < 2 ^ 64 -> rwp (bcs_decode_u64 l) (is_word 64) (fun _ => True);
  bl_decode_bytes32 l : len l < 2 ^ 64 -> rwp (bcs_decode_bytes32 l) (fun r => len r = 32) (fun _ => True);
  bl_encode_u64 x : is_word 64 x -> rwp (bcs_encode_u64 x) (fun l => len l < 2 ^ 37) (fun _ => True);
  bl_encode_bytes32 l : len l = 32 -> rwp (bcs_encode_bytes32 l) (fun r => len r < 2 ^ 37) (fun _ => True);
}.

(** The handler keeps an invariant, whether a call succeeds or fails. *)
Class CallMoveVMLaws `{Bcs} {H : Type} {MV : CallMoveVM H} (h_inv : H -> Prop) : Prop :=
  move_vm_returns h caller address module function data types value gas :
    h_inv h -> is_word 160 caller -> len address = 32 -> from_utf8 module = true ->
    is_u256 value -> is_usize gas ->
    wp (call_move_vm caller address module function data types value gas) h
      (fun out h' => len out < 2 ^ 37 /\ h_inv h') (fun _ => h_inv).

(** ** Encodings of results *)

Definition encodes {A} (D : ABISerde A) (ok : A -> Prop) : Prop :=
  forall x, ok x -> exists l, sd_encode D x = Ok l /\ len l < 2 ^ 38.

Definition decodes {A} (D : ABISerde A) (ok : A -> Prop) : Prop :=
  forall input, len input < 2 ^ 64 -> rwp (sd_decode D input) ok (fun _ => True).

Lemma decodes_var {A} (T : ABIVariable A) ok `{!ABIDecodes T ok} : decodes (serde_of T) ok.
Proof. intros input. apply (abi_decode_returns T ok). Qed.

Lemma decodes_unit : decodes serde_unit (fun _ => True).
Proof. by intros ? ?. Qed.

Lemma encodes_unit : encodes serde_unit (fun _ => True).
Proof. intros [] _. by exists []. Qed.

(** A static value is encoded as it is. *)
Lemma abi_encode_static {A} (T : ABIVariable A) e n x :
  STATIC_LENGTH T = Some n -> to_abi T x = Ok e -> lb_length e = n ->
  abi_encode T x = Ok (to_vec e).
Proof.
  intros Hn He <-. unfold abi_encode, write_down, into_linked_bytes. rewrite Hn, He. cbn.
  rewrite Z.eqb_refl. cbn. rewrite Z.add_0_l, Z.eqb_refl. cbn. unfold to_vec. cbn. by rewrite app_nil_r.
Qed.

Lemma encodes_static {A} (T : ABIVariable A) ok n :
  ABILaws T ok -> STATIC_LENGTH T = Some n -> n < 2 ^ 38 -> encodes (serde_of T) ok.
Proof.
  intros HT Hn Hlt x Hx. destruct (abi_to x Hx) as (e & He & Hw & Hm). rewrite Hn in Hm. destruct Hm as [Hl _].
  exists (to_vec e). split; [by eapply abi_encode_static |]. rewrite <- Hw. lia.
Qed.

Lemma encodes_bytes : encodes (serde_of abi_bytes) (fun l => len l < 2 ^ 37).
Proof.
  intros l Hl. cbn [sd_encode serde_of]. unfold abi_encode, write_down, into_linked_bytes. cbn -[to_be replicate Z.mul Z.eqb Z.sub].
  unfold padded_big_endian. rewrite len_to_be. cbn -[to_be replicate Z.mul Z.sub].
  eexists. split; [reflexivity |]. unfold to_vec. cbn -[to_be replicate Z.mul Z.sub].
  rewrite !app_nil_r, !len_app, len_replicate, !len_to_be.
  pose proof (Z.mod_pos_bound (len l + 31) 32). lia.
Qed.

(** ** Functions *)

Section functions_ok.
Context (keccak : list byte -> Z) (Hkeccak : forall l, is_u256 (keccak l)).
Context {St H : Type} {SS : StateOps St} {FS : FrameState St} {h_inv : H -> Prop} {has_vm : Prop}.
Context {V : Type} {st_at : nat -> V -> list V -> St -> Prop} (XL : FrameStateLaws St V st_at).
Context `{BcsI : Bcs} {BL : BcsLaws} {MV : CallMoveVM H} {ML : CallMoveVMLaws h_inv}.
Context (spec : Spec) (W : wf_spec spec).

Abbreviation S_ := (EvmState St H).
Abbreviation Ctx := (FrameContext S_).
Abbreviation es := (es_at h_inv has_vm (st_at := st_at)).
Abbreviation inv sv k n := (frame_context_inv (st_inv := fun n s => exists v, es n v sv s) spec k n).

(** What holds when an internal contract at [a] is executed. *)
Record called (a : Z) (k : FrameConstants) (c : Ctx) (p : ActionParams) : Prop := {
  cl_constants : wf_constants spec k;
  cl_callee : callee_ok p;
  cl_gas : is_usize (ap_gas p);
  cl_code_address : ap_code_address p = a;
  cl_type : ap_call_type p = Call \/ ap_call_type p = StaticCall;
  cl_credited : credited (fc_state c) p;
}.

Definition runs_within (sv : list V) (k : FrameConstants) (n : nat) (c : Ctx) (G : Z) (m : M Error Ctx GasLeft) : Prop :=
  wp m c (fun v c' => gas_left_ok G v /\ inv sv k n c') (fun _ => inv sv k n).

Definition function_ok (a : Z) (f : SolidityFunction S_) : Prop :=
  forall sv k n c p input, inv sv k n c -> called a k c p -> len input < 2 ^ 64 ->
    runs_within sv k n c (ap_gas p) (sf_execute f input p).

Section execute.
Context {I O : Type} (input_type : ABISerde I) (output_type : ABISerde O) (okI : I -> Prop) (okO : O -> Prop).
Context (payable has_write_op : bool) (gas : Spec -> vm_result Z) (is_active : Spec -> bool) (a : Z) (name : string).
Context (execute_inner : I -> ActionParams -> M Error Ctx O).
Context (HI : decodes input_type okI) (HO : encodes output_type okO).
Context (Hgas : exists g, gas spec = Ok g /\ 0 <= g).
Context (Hinner : forall sv k n c p i, inv sv k n c -> called a k c p -> okI i ->
  (payable = false -> action_value (ap_value p) = 0) -> (has_write_op = true -> ap_call_type p = Call) ->
  wp (execute_inner i p) c (fun o c' => okO o /\ inv sv k n c') (fun _ => inv sv k n)).

Lemma pre_execution_check_ok p :
  rwp (pre_execution_check payable has_write_op p)
    (fun _ => (payable = false -> action_value (ap_value p) = 0) /\ (has_write_op = true -> ap_call_type p <> StaticCall))
    (fun _ => True).
Proof.
  unfold pre_execution_check. destruct payable, (Z.eqb_spec (action_value (ap_value p)) 0); cbn [negb andb]; try done;
    destruct has_write_op; cbn [andb]; try case_bool_decide; done.
Qed.

Lemma make_function_ok :
  function_ok a (make_function name input_type output_type payable has_write_op gas is_active execute_inner).
Proof.
  intros sv k n c p input Hc Hcl Hin. unfold runs_within. cbn [sf_execute make_function].
  unfold function_execute, preprocessing. destruct (cl_gas _ _ _ _ Hcl) as [Hg0 Hg1].
  apply wp_bind, wp_bind, wp_lift. eapply rwp_mono; [apply pre_execution_check_ok | | by intros; cbn]. intros [] [Hpay Hwr].
  apply wp_bind, wp_lift. specialize (HI input Hin).
  destruct (sd_decode input_type input) as [i | e |]; cbn [abi_to_vm rwp] in *; [| done | done].
  apply wp_bind, wp_get, wp_bind, wp_lift. destruct Hgas as (g & Eg & Hg). rewrite (fi_spec _ _ _ _ Hc), Eg. cbn [rwp].
  destruct (Z.ltb_spec (ap_gas p) g); [by apply wp_throw |]. apply wp_ret. cbn beta iota.
  apply wp_bind, wp_lift. unfold checked_sub at 1. rewrite (proj2 (Z.leb_le g _)) by lia. cbn [rwp].
  apply wp_bind. eapply wp_mono; [eapply Hinner; try done | | done].
  { intros E. destruct (cl_type _ _ _ _ Hcl); [done |]. by destruct (Hwr E). }
  intros o c' [Ho Hc']. destruct (HO o Ho) as (l & El & Hl). apply wp_bind, wp_lift. rewrite El. cbn [rwp].
  pose proof (len_nonneg l). pose proof (wf_memory_gas _ W) as [Hm0 Hm1].
  apply wp_bind, wp_get, wp_bind, wp_lift. unfold checked_add. rewrite (proj2 (Z.ltb_lt _ (2 ^ 64))) by lia. cbn [rwp].
  apply wp_bind, wp_lift. rewrite (fi_spec _ _ _ _ Hc').
  pose proof (Z.div_pos (len l + 31) 32 ltac:(lia) ltac:(lia)) as Hq0.
  pose proof (Z.div_lt_upper_bound (len l + 31) 32 (2 ^ 34) ltac:(lia) ltac:(lia)) as Hq1.
  set (q := (len l + 31) / 32) in *.
  assert (Hcost : 0 <= q * memory_gas spec < 2 ^ 64).
  { change (2 ^ 64) with (2 ^ 34 * 0x40000000). split; [apply Z.mul_nonneg_nonneg; lia | apply Z.mul_lt_mono_nonneg; lia]. }
  unfold checked_mul. rewrite (proj2 (Z.ltb_lt _ (2 ^ 64))) by lia. cbn [rwp].
  destruct (Z.ltb_spec (ap_gas p - g) (q * memory_gas spec)); [by apply wp_throw |].
  apply wp_bind, wp_lift. unfold checked_sub. rewrite (proj2 (Z.leb_le _ (ap_gas p - g))) by lia. cbn [rwp]. apply wp_ret.
  split; [| done]. cbn. split; [lia |]. unfold wf_return_data. cbn. lia.
Qed.
End execute.
(** ** The functions of the contracts *)

Lemma no_gas_ok : exists g, no_gas spec = Ok g /\ 0 <= g.
Proof. by exists 0. Qed.

Lemma base_tier_gas_ok : exists g, base_tier_gas spec = Ok g /\ 0 <= g.
Proof.
  destruct (wf_tiers _ W) as (t0 & t1 & t2 & t3 & t4 & t5 & t6 & t7 & E & Ht). unfold base_tier_gas. rewrite E.
  exists t1. split; [done |]. unfold small, small_pos in *. lia.
Qed.

Lemma bcs_result_ok {A} prefix (r : result string A) (ok : A -> Prop) sv k n c :
  inv sv k n c -> rwp r ok (fun _ => True) ->
  wp (bcs_result prefix r : M Error Ctx A) c (fun a c' => ok a /\ inv sv k n c') (fun _ => inv sv k n).
Proof. intros Hc Hr. destruct r; [by apply wp_ret | by apply wp_throw | done]. Qed.

Lemma word_64 x : is_word (8 * 8) x <-> is_word 64 x.
Proof. done. Qed.

Lemma with_move_vm_ok {A} (m : M string H A) sv k n c (ok : A -> Prop) :
  inv sv k n c -> (forall h, h_inv h -> wp m h (fun a h' => ok a /\ h_inv h') (fun _ => h_inv)) ->
  wp (with_move_vm m : M Error Ctx _) c
    (fun r c' => inv sv k n c' /\ match r with Some (inl a) => ok a | _ => True end) (fun _ _ => False).
Proof.
  intros Hc Hm. unfold wp, with_move_vm. destruct (fi_state _ _ _ _ Hc) as (v & Hs & Hh).
  unfold handler_ok in Hh. destruct (es_move_vm (fc_state c)) as [h |] eqn:E; [| done]. specialize (Hm h Hh). unfold wp in Hm.
  destruct (m h) as [[a | e |] h']; cbn in *; [| | done].
  - destruct Hm as [Ha Hh']. split; [| done]. destruct Hc. constructor; try done. by exists v.
  - split; [| done]. destruct Hc. constructor; try done. by exists v.
Qed.

Lemma CallToMove_ok : function_ok CROSS_SPACE_CONTRACT_ADDRESS CallToMove.
Proof.
  eapply (make_function_ok _ _ _ (fun l => len l < 2 ^ 37) true true no_gas);
    [intros input; eapply (abi_decode_tuple_returns _ _) | apply encodes_bytes | apply no_gas_ok |].
  intros sv k n c p (address & module & function & data & encoded_types & []) Hc Hcl
    (Ha & Hmod & _ & _ & _ & _) _ Hcall. cbn [fst snd] in *. specialize (Hcall eq_refl).
  destruct (cl_credited _ _ _ _ Hcl Hcall) as [Eaddr Haff]. rewrite Eaddr, (cl_code_address _ _ _ _ Hcl) in Haff.
  unfold CallToMove_inner. apply wp_bind, wp_get, wp_bind.
  pose proof (es_state_laws h_inv has_vm XL sv) as SL.
  eapply wp_mono; [eapply (wp_touch_do (st_inv := fun n s => exists v, es n v sv s) spec k n _ c Hc) | | done].
  { apply (sl_sub_balance (StateLaws := SL)); [apply Hc | done]. }
  intros [] c1 Hc1. apply wp_bind. unfold as_move_vm. apply wp_bind, wp_get, wp_ret.
  destruct (es_move_vm (fc_state c1)); [| by apply wp_throw].
  destruct (mapM bcs_type_tag encoded_types) as [types |]; [| by apply wp_throw]. apply wp_bind.
  destruct (cl_callee _ _ _ _ Hcl).
  eapply wp_mono; [apply (with_move_vm_ok _ sv k n c1 (fun out => len out < 2 ^ 37) Hc1) | |].
  - intros h' Hh. apply move_vm_returns; try done; [by destruct Hmod | apply Hcl].
  - intros [[out | err] |] c2 [Hc2 Hout]; [by apply wp_ret | by apply wp_throw | by apply wp_throw].
  - done.
Qed.

Lemma Log_ok a : function_ok a Log.
Proof.
  eapply (make_function_ok _ _ _ (fun _ => True) false true no_gas);
    [by apply (decodes_var abi_bytes _) | apply encodes_unit | apply no_gas_ok |].
  intros. by apply wp_ret.
Qed.

Lemma DecodeU64_ok a : function_ok a DecodeU64.
Proof.
  eapply (make_function_ok _ _ _ _ false false no_gas);
    [by apply (decodes_var abi_bytes _) | by eapply (encodes_static (abi_primitive 8) _ 32 _) | apply no_gas_ok |].
  intros sv k n c p l Hc _ Hl _ _. apply bcs_result_ok; [done |]. by apply bl_decode_u64.
Qed.

Lemma DecodeBytes32_ok a : function_ok a DecodeBytes32.
Proof.
  eapply (make_function_ok _ _ _ _ false false no_gas);
    [by apply (decodes_var abi_bytes _) | by eapply (encodes_static (abi_byte_array 32) _ 32 _) | apply no_gas_ok |].
  intros sv k n c p l Hc _ Hl _ _. apply bcs_result_ok; [done |]. by apply bl_decode_bytes32.
Qed.

Lemma EncodeU64_ok a : function_ok a EncodeU64.
Proof.
  eapply (make_function_ok _ _ _ _ false false no_gas);
    [by apply (decodes_var (abi_primitive 8) _) | apply encodes_bytes | apply no_gas_ok |].
  intros sv k n c p l Hc _ Hl _ _. apply bcs_result_ok; [done |]. by apply bl_encode_u64.
Qed.

Lemma EncodeBytes32_ok a : function_ok a EncodeBytes32.
Proof.
  eapply (make_function_ok _ _ _ _ false false no_gas);
    [by apply (decodes_var (abi_byte_array 32) _) | apply encodes_bytes | apply no_gas_ok |].
  intros sv k n c p l Hc _ Hl _ _. apply bcs_result_ok; [done |]. by apply bl_encode_bytes32.
Qed.

Lemma EpochNumber_ok a : function_ok a EpochNumber.
Proof.
  eapply (make_function_ok _ _ _ _ false false base_tier_gas);
    [apply decodes_unit | by eapply (encodes_static abi_u256 _ 32 _) | apply base_tier_gas_ok |].
  intros sv k n c p l Hc Hcl _ _ _. apply wp_bind, wp_get, wp_ret. split; [| done].
  pose proof (wf_epoch_height _ (wk_env _ _ (cl_constants _ _ _ _ Hcl))) as He.
  pose proof (f_equal k_env (fi_constants _ _ _ _ Hc)) as Ek. cbn in Ek. rewrite Ek.
  unfold is_u256, is_word in *. lia.
Qed.

Lemma zero_query_ok a name (f : unit -> ActionParams -> M Error Ctx Z) :
  (forall i p, f i p = ret 0) ->
  function_ok a (make_function name serde_unit (serde_of abi_u256) false false base_tier_gas cip64 f).
Proof.
  intros Hf. eapply (make_function_ok _ _ _ _ false false base_tier_gas);
    [apply decodes_unit | by eapply (encodes_static abi_u256 _ 32 _) | apply base_tier_gas_ok |].
  intros. rewrite Hf. by apply wp_ret.
Qed.

(** ** Contracts *)

Definition contract_ok (t : InternalContractTrait S_) : Prop :=
  forall sig f, it_func_table t !! sig = Some f -> function_ok (it_address t) f.

Lemma function_table_in l sig (f : SolidityFunction S_) : make_function_table keccak l !! sig = Some f -> In f l.
Proof.
  unfold make_function_table.
  assert (Hacc : forall table : gmap (list byte) (SolidityFunction S_), (foldl (fun table f => <[function_sig keccak f := f]> table) table l) !! sig = Some f ->
    In f l \/ table !! sig = Some f).
  { induction l as [| g l IH]; intros table; cbn; [by right |]. intros [Hin | Hl]%IH; [left; by right |].
    apply lookup_insert_Some in Hl as [[_ ->] | [_ ?]]; [left; by left | by right]. }
  intros [? | E]%Hacc; [done |]. by rewrite lookup_empty in E.
Qed.

Lemma contract_execute_ok t : contract_ok t -> wf_internal es spec (it_address t) (to_exec keccak t).
Proof.
  intros Ht sv k n c p Hc Hk Ho Hp Hg Ha Htype Hcr. cbn [ie_execute to_exec]. unfold contract_execute.
  apply wp_bind, wp_get, wp_bind, wp_lift. unfold load_solidity_fn.
  destruct (ap_data p) as [call_data |] eqn:Ed; [| done]. case_if; [done |].
  destruct (it_func_table t !! take 4 call_data) as [f |] eqn:Ef; [| done]. destruct (sf_is_active f _); [| done].
  cbn [rwp]. apply (Ht _ _ Ef); [done | by constructor |].
  pose proof (ce_data _ Hp) as Hd. rewrite Ed in Hd. cbn in Hd. unfold wf_bytes, len in *. rewrite length_drop. lia.
Qed.

Lemma all_contracts_ok t : In t (all_internal_contracts keccak) -> contract_ok t.
Proof.
  assert (Hno : forall sig (f : SolidityFunction S_), (∅ : gmap (list byte) (SolidityFunction S_)) !! sig <> Some f)
    by (intros sig f; by rewrite lookup_empty).
  intros [<- | [<- | [<- | [<- | [<- | [<- | [<- | []]]]]]]] sig f Hf; try by destruct (Hno sig f).
  - apply function_table_in in Hf as [<- | [<- | [<- | []]]]; [apply EpochNumber_ok | by apply zero_query_ok ..].
  - apply function_table_in in Hf as [<- | [<- | [<- | [<- | [<- | [<- | []]]]]]];
      [apply CallToMove_ok | apply Log_ok | apply EncodeU64_ok | apply EncodeBytes32_ok | apply DecodeU64_ok
      | apply DecodeBytes32_ok].
Qed.

Lemma add_contracts_in params l m a (t : InternalContractTrait S_) :
  im_builtin (add_contracts params l m) !! a = Some t ->
  (In t l /\ it_address t = a) \/ im_builtin m !! a = Some t.
Proof.
  revert m. induction l as [| g l IH]; intros m; cbn; [by right |].
  intros [[Hin Ha] | Hl]%IH; [left; split; [by right | done] |]. cbn in Hl.
  apply lookup_insert_Some in Hl as [[<- ->] | [_ ?]]; [left; by split; [left |] | by right].
Qed.

Lemma map_contract_in params a sp (t : InternalContractTrait S_) :
  map_contract (InternalContractMap_new keccak params) a sp = Some t ->
  In t (all_internal_contracts keccak) /\ it_address t = a.
Proof.
  unfold map_contract, InternalContractMap_new. intros (t' & Et & E)%bind_Some. case_match; [| done]. simplify_eq.
  apply add_contracts_in in Et as [[Hin Ha] | Hl]; [| cbn in Hl; by rewrite lookup_empty in Hl].
  split; [| done]. apply list_elem_of_In, elem_of_reverse, list_elem_of_In in Hin. done.
Qed.
End functions_ok.

(** ** The machine *)

Section machine_ok.
Context (keccak : list byte -> Z) (Hkeccak : forall l, is_u256 (keccak l)).
Context {St H : Type} {SS : StateOps St} {FS : FrameState St} {h_inv : H -> Prop} {has_vm : Prop}.
Context `{BcsI : Bcs} {BL : BcsLaws} {MV : CallMoveVM H} {ML : CallMoveVMLaws h_inv}.
Context `{BytesRefLaws} `{BigUintLaws} `{DigestLaws} `{BnLaws}.

(** The machine can be made, and frames can rely on it whatever laws the state behind it has. *)
Lemma machine_ok params :
  is_u256 (cp_chain_id params) ->
  exists mc, new_machine_with_builtin keccak params = Ok mc /\
    forall {V} (st_at : nat -> V -> list V -> St -> Prop) (XL : FrameStateLaws St V st_at) spec,
      wf_spec spec -> wf_machine (es_at h_inv has_vm (st_at := st_at)) spec mc.
Proof.
  intros Hid. unfold new_machine_with_builtin.
  destruct (builtin_map_ok keccak (tn_cip62 (cp_transition_numbers params)) (tn_cip92 (cp_transition_numbers params)))
    as (m & -> & _ & Hm). cbn [result_bind].
  eexists. split; [reflexivity |]. intros V st_at XL spec W. constructor; cbn.
  - done.
  - done.
  - intros a ie. rewrite fmap_Some. intros (t & _ & ->). split; [by vm_compute | apply Hkeccak].
  - intros a ie. rewrite fmap_Some. intros (t & [Hin <-]%map_contract_in & ->).
    apply (contract_execute_ok keccak spec). by eapply (all_contracts_ok keccak XL spec W).
Qed.
End machine_ok.
