(* ===== verification/MoveHandler.v ===== *)
(** * The Move VM behind an Ethereum transaction

    [CrossSpaceHandler] of src/aptos-move/block-executor/src/aptos_vm.rs: what a call from a
    contract into the Move VM does in the Move session that runs beside the Ethereum transaction.
    The session and its gas meter belong to the Move VM, a third-party crate, and are behind the
    class [MoveVm], the serialization of arguments behind [BcsArgs]. The session has no
    checkpoints: what a call has done in it stays, whether the call or the contract fails.

    Shown here: the handler is one that the machine can rely on ([CallMoveVMLaws]); and a call whose
    value is converted and whose function fails has put the coins into the session. *)

From stdpp Require Import strings.
From S2P Require Import Prelude Word Arith WriteSets StateDb VmTypes Frames Outcome InternalContracts InternalLaws.
Local Open Scope Z_scope.

(** ** The Move VM *)

(** Values of the Move VM: numbers, vectors, and the rest, that is booleans, addresses, structs and
    signers. *)
Inductive MoveValue : Set :=
| MoveU8 (b : byte)
| MoveU16 (x : Z)
| MoveU32 (x : Z)
| MoveU64 (x : Z)
| MoveU128 (x : Z)
| MoveU256 (x : Z)
| MoveVector (l : list MoveValue)
| MoveOther.

Record ModuleId : Set := mkModuleId { mi_address : list byte; mi_name : list byte }.

Class BcsArgs : Type := {
  bcs_address : list byte -> result string (list byte);
  bcs_u64 : Z -> result string (list byte);
  bcs_bytes : list byte -> result string (list byte);
  bcs_byte_vectors : list (list byte) -> result string (list byte);
}.

Class MoveVm `{Bcs} (Session GasMeter : Type) : Type := {
  TypeLayout : Type;
  identifier_new : list byte -> result string (list byte);
  execute_function_bypass_visibility : ModuleId -> list byte -> list TypeTag -> list (list byte) ->
    M string (Session * GasMeter) (list (list byte * TypeLayout));
  simple_deserialize : list byte -> TypeLayout -> result string MoveValue;
  extract_publish_request : Session -> bool;
  (* [finish], [into_change_set] and the write set of the change set *)
  finish_session : Session -> GasMeter -> result string (list (AccessPath * WriteOp));
  cross_space_topup : Z -> GasMeter -> GasMeter;
  charge_write_set_gas : list (AccessPath * WriteOp) -> GasMeter -> result string GasMeter;
}.

Definition CORE_CODE_ADDRESS : list byte := replicate 31 x00 ++ [x01].

(** [Result::unwrap] *)
Definition unwrap_result {E A} (r : result E A) : result E A :=
  match r with Ok a => Ok a | _ => Panic end.

Definition err_prefix {S A} (prefix : string) (m : M string S A) : M string S A := fun s =>
  let '(r, s) := m s in
  (match r with Err e => Err (prefix ++ e)%string | r => r end, s).

Section handler.
Context `{BcsI : Bcs} `{BcsArgs} {Session GasMeter : Type} {MVI : MoveVm Session GasMeter}.

Definition CrossSpaceHandler : Type := Session * GasMeter.
Abbreviation HM := (M string CrossSpaceHandler).

Definition cross_space_transfer (address : list byte) (value : Z) : HM unit :=
  (from <~ lift (unwrap_result (bcs_address CORE_CODE_ADDRESS)) ;;
   to <~ lift (unwrap_result (bcs_address CORE_CODE_ADDRESS)) ;;
   amount <~ lift (unwrap_result (bcs_u64 value)) ;;
   err_prefix "Cannot mint: "
     (execute_function_bypass_visibility (mkModuleId CORE_CODE_ADDRESS (bytes_of "aptos_coin")) (bytes_of "mint")
        [] [from; to; amount])) ;;;
  (from <~ lift (unwrap_result (bcs_address CORE_CODE_ADDRESS)) ;;
   to <~ lift (unwrap_result (bcs_address address)) ;;
   amount <~ lift (unwrap_result (bcs_u64 value)) ;;
   err_prefix "Cannot transfer: "
     (execute_function_bypass_visibility (mkModuleId CORE_CODE_ADDRESS (bytes_of "aptos_account"))
        (bytes_of "transfer") [] [from; to; amount])) ;;;
  ret tt.

Definition extract_byte (x : MoveValue) : option byte := match x with MoveU8 b => Some b | _ => None end.

Definition cross_space_call (address module_name func_name : list byte) (caller : Z) (data : list (list byte))
    (ty_args : list TypeTag) : HM (list byte) :=
  module_name <~ lift (identifier_new module_name) ;;
  let module := mkModuleId address module_name in
  function <~ lift (identifier_new func_name) ;;
  caller_arg <~ lift (unwrap_result (bcs_bytes (to_be 20 caller))) ;;
  data_arg <~ lift (unwrap_result (bcs_byte_vectors data)) ;;
  return_values <~ execute_function_bypass_visibility module function ty_args [caller_arg; data_arg] ;;
  match return_values with
  | [] => throw "Incorrect numbers of return value"%string
  | (raw, ty) :: _ =>
      return_value <~ lift (simple_deserialize raw ty) ;;
      match return_value with
      | MoveVector maybe_bytes =>
          match mapM extract_byte maybe_bytes with
          | Some bytes => ret bytes
          | None => throw "Incorrect return type"%string
          end
      | _ => throw "Incorrect return type"%string
      end
  end.

Definition finalize_handler (self : CrossSpaceHandler) : result string (list (AccessPath * WriteOp)) :=
  if extract_publish_request self.1 then Err "Can not init module in cross-space call"%string
  else
    let? write_set := finish_session self.1 self.2 in
    let? _ := charge_write_set_gas write_set self.2 in
    Ok write_set.

(** Amounts of the EVM have ten more decimal places than those of Move, and do not fit. *)
Definition move_gas (gas : Z) : Z := if 2 ^ 64 - 1 <=? gas then 2 ^ 64 - 1 else gas.

Definition move_value (value : Z) : Z :=
  if (2 ^ 64 - 1) * 10000000000 <=? value then 2 ^ 64 - 1 else value / 10000000000.

#[export] Instance handler_call_move_vm : CallMoveVM CrossSpaceHandler :=
  fun caller address module_name func_name data types value gas =>
    let gas := move_gas gas in
    let value := move_value value in
    if negb (len address =? 32) then panic
    else
      modify (fun self : CrossSpaceHandler => (self.1, cross_space_topup gas self.2)) ;;;
      (if 0 <? value then cross_space_transfer address value else ret tt) ;;;
      if negb (bool_decide (module_name = []))
      then cross_space_call address module_name func_name caller data types
      else ret [].
End handler.

(** ** What is assumed of the Move VM *)

Class BcsArgsLaws `{BcsArgs} : Prop := {
  ba_address a : len a = 32 -> exists l, bcs_address a = Ok l;
  ba_u64 x : is_word 64 x -> exists l, bcs_u64 x = Ok l;
  ba_bytes l : exists r, bcs_bytes l = Ok r;
  ba_byte_vectors l : exists r, bcs_byte_vectors l = Ok r;
}.

(** A function runs to an end, and keeps an invariant of the session, whether it fails or not. A
    vector that is returned fits in memory. *)
Class MoveVmLaws `{Bcs} {Session GasMeter : Type} {MVI : MoveVm Session GasMeter}
    (inv : Session * GasMeter -> Prop) : Prop := {
  mv_identifier l : identifier_new l <> Panic;
  mv_execute h m f ty args :
    inv h -> wp (execute_function_bypass_visibility m f ty args) h (fun _ => inv) (fun _ => inv);
  mv_deserialize raw ty :
    rwp (simple_deserialize raw ty) (fun v => forall l, v = MoveVector l -> len l < 2 ^ 37) (fun _ => True);
  mv_topup s g x : inv (s, g) -> inv (s, cross_space_topup x g);
}.

Section laws.
Context `{BcsI : Bcs} `{BcsArgsLaws} {Session GasMeter : Type} {MVI : MoveVm Session GasMeter}.
Context {inv : Session * GasMeter -> Prop} {ML : MoveVmLaws inv}.

Lemma wp_unwrap_result {A B} (r : result string A) a (k : A -> M string (Session * GasMeter) B) h Q R :
  r = Ok a -> wp (k a) h Q R -> wp (a <~ lift (unwrap_result r) ;; k a) h Q R.
Proof. intros -> Hk. by apply wp_bind, wp_lift. Qed.

Lemma wp_err_prefix {A} prefix (m : M string (Session * GasMeter) A) h Q (R : Session * GasMeter -> Prop) :
  wp m h Q (fun _ => R) -> wp (err_prefix prefix m) h Q (fun _ => R).
Proof. unfold wp, err_prefix. by destruct (m h) as [[] h']. Qed.

Lemma move_value_word value : is_u256 value -> is_word 64 (move_value value).
Proof.
  intros [? _]. unfold move_value, is_word. destruct (Z.leb_spec ((2 ^ 64 - 1) * 10000000000) value); [lia |].
  pose proof (Z.div_pos value 10000000000). pose proof (Z.div_lt_upper_bound value 10000000000 (2 ^ 64 - 1)). lia.
Qed.

Lemma len_core : len CORE_CODE_ADDRESS = 32.
Proof. done. Qed.

Lemma cross_space_transfer_ok address value h :
  inv h -> len address = 32 -> is_word 64 value ->
  wp (cross_space_transfer address value) h (fun _ => inv) (fun _ => inv).
Proof.
  intros Hh Ha Hv. destruct (ba_address _ len_core) as [core Ec], (ba_address _ Ha) as [to Et], (ba_u64 _ Hv) as [am Ea].
  unfold cross_space_transfer. apply wp_bind.
  do 3 (eapply wp_unwrap_result; [eassumption |]). apply wp_err_prefix.
  eapply wp_mono; [by apply mv_execute | | done]. intros ? h1 Hh1. apply wp_bind.
  do 3 (eapply wp_unwrap_result; [eassumption |]). apply wp_err_prefix.
  eapply wp_mono; [by apply mv_execute | | done]. intros ? h2 Hh2. by apply wp_ret.
Qed.

Lemma mapM_length {A B} (f : A -> option B) l r : mapM f l = Some r -> length r = length l.
Proof.
  revert r. induction l as [| x l IH]; intros r; cbn; [by intros [= <-] |].
  intros (y & _ & E)%bind_Some. apply bind_Some in E as (r' & E & [= <-]). cbn. by rewrite (IH r').
Qed.

Lemma cross_space_call_ok address module_name func_name caller data ty_args h :
  inv h ->
  wp (cross_space_call address module_name func_name caller data ty_args) h
    (fun out h' => len out < 2 ^ 37 /\ inv h') (fun _ => inv).
Proof.
  intros Hh. unfold cross_space_call.
  pose proof (mv_identifier module_name). pose proof (mv_identifier func_name).
  destruct (ba_bytes (to_be 20 caller)) as [c Ec], (ba_byte_vectors data) as [d Ed].
  apply wp_bind, wp_lift. destruct (identifier_new module_name) as [m | |]; [| done | done]. cbn [rwp].
  apply wp_bind, wp_lift. destruct (identifier_new func_name) as [f | |]; [| done | done]. cbn [rwp].
  do 2 (eapply wp_unwrap_result; [eassumption |]). apply wp_bind.
  eapply wp_mono; [by apply mv_execute | | done]. intros values h1 Hh1.
  destruct values as [| [raw ty] values]; [by apply wp_throw |]. apply wp_bind, wp_lift.
  eapply rwp_mono; [apply mv_deserialize | | done]. intros v Hv.
  destruct v as [| | | | | | l |]; try by apply wp_throw. specialize (Hv l eq_refl).
  destruct (mapM extract_byte l) as [bytes |] eqn:E; [| by apply wp_throw]. apply wp_ret. split; [| done].
  unfold len in *. by rewrite (mapM_length _ _ _ E).
Qed.

(** The handler is one that the machine can rely on. *)
#[export] Instance handler_laws : CallMoveVMLaws (MV := handler_call_move_vm) inv.
Proof.
  intros [s g] caller address module function data types value gas Hh Hc Ha _ Hv Hg.
  unfold call_move_vm, handler_call_move_vm. rewrite Ha. cbn [Z.eqb Pos.eqb negb].
  apply wp_bind, wp_modify. cbn [fst snd].
  pose proof (mv_topup s g (move_gas gas) Hh) as Hh1. apply wp_bind.
  eapply (wp_mono _ _ (fun _ => inv) _ (fun _ => inv)); [| | done].
  - case_if; [apply cross_space_transfer_ok; [done | done | by apply move_value_word] | by apply wp_ret].
  - intros ? h2 Hh2. case_bool_decide; cbn [negb]; [by apply wp_ret; split | by apply cross_space_call_ok].
Qed.
End laws.
