(* ===== verification/EthTransaction.v ===== *)
(** * Ethereum transactions in a block

    [AptosEVM::execute_eth_transaction] of src/aptos-move/block-executor/src/aptos_vm.rs, with what
    it is made of: the Ethereum transaction in a signed transaction of the chain
    (src/aptos-move/ethereum-vm/src/transaction.rs), the context read from the chain
    (ethereum-vm/src/context.rs and block-executor/src/evm_context_loader.rs), the state over the
    view of the chain and the Move VM beside it ([EvmState::new_with_move_vm] of
    ethereum-vm/src/state.rs), the execution ([Transact]), the status ([Outcome]), the commit
    ([WorldState]), the events ([Events]), what the calls into the Move VM changed ([MoveHandler])
    and the write set put together from both. A call of [unwrap] or [expect] on an error is a
    panic. *)

From stdpp Require Import gmap strings.
From S2P Require Import Prelude Word SolidityAbi StateDb Arith VmTypes WriteSets FrameContext Gasometer SharedCache.
From S2P Require Import Interpreter Events WorldState Frames Builtins WorldLaws Transact Outcome InternalContracts MoveHandler.
Local Open Scope Z_scope.

(** ** Transactions of the chain *)

Record EthTransactionPayload : Set := mkEthTransactionPayload {
  eth_value : Z;
  eth_action : Action;
  eth_data : list byte;
}.

Inductive TransactionPayload : Set :=
| EthPayload (payload : EthTransactionPayload)
| OtherPayload.

(** What the execution reads of a [SignedTransaction]. *)
Record SignedTransaction : Set := mkSignedTransaction {
  sx_sender : list byte;
  sx_sequence_number : Z;
  sx_max_gas_amount : Z;
  sx_gas_unit_price : Z;
  sx_payload : TransactionPayload;
}.

Record EvmTransaction : Set := mkEvmTransaction {
  et_transaction : SignedTransaction;
  et_payload : EthTransactionPayload;
}.

Definition EvmTransaction_try_from (transaction : SignedTransaction) : option EvmTransaction :=
  match sx_payload transaction with
  | EthPayload payload => Some (mkEvmTransaction transaction payload)
  | OtherPayload => None
  end.

(** [impl TransactionInfo for EvmTransaction] *)
Definition transaction_info {E} (self : EvmTransaction) : result E Transaction :=
  let? sender := aptos_address_to_eth_address (sx_sender (et_transaction self)) in
  Ok {|
    tx_sender := sender;
    tx_nonce := sx_sequence_number (et_transaction self);
    tx_gas := sx_max_gas_amount (et_transaction self);
    tx_gas_price := sx_gas_unit_price (et_transaction self);
    tx_data := eth_data (et_payload self);
    tx_action := eth_action (et_payload self);
    tx_value := eth_value (et_payload self)
  |}.

(** ** The context *)

(** [ContextReader]: a read can panic. *)
Record ContextReader : Type := mkContextReader {
  get_timestamp : vm_result Z;
  get_block_height : vm_result Z;
}.

(** [EvmContext::make_for_new_block] *)
Definition make_for_new_block (reader : ContextReader) (params : CommonParams) : vm_result (Env * Spec) :=
  let? block_height := get_block_height reader in
  let? timestamp := get_timestamp reader in
  let env := {|
    env_number := block_height;
    env_author := 0;
    env_timestamp := timestamp;
    env_difficulty := 0;
    env_gas_limit := 0;
    env_last_hash := 0;
    env_accumulated_gas_used := 0;
    env_epoch_height := block_height
  |} in
  Ok (env, new_spec_from_common_params params block_height).

(** [expect] and [unwrap] of a result *)
Definition expect {E E' A} (r : result E A) : result E' A :=
  match r with Ok a => Ok a | _ => Panic end.

(** [convert_to_u64]: [as u64] keeps the low bits; [unchecked_as_u64] is the Move VM's. *)
Definition convert_to_u64 {E} (unchecked_as_u64 : Z -> Z) (move_value : MoveValue) : result E Z :=
  match move_value with
  | MoveU8 x => Ok (byte_to_Z x)
  | MoveU16 x | MoveU32 x | MoveU64 x | MoveU128 x => Ok (x mod 2 ^ 64)
  | MoveU256 x => Ok (unchecked_as_u64 x)
  | MoveVector _ | MoveOther => Panic
  end.

Section context_view.
Context `{BcsI : Bcs} {Session GasMeter : Type} {MVI : MoveVm Session GasMeter}.
Context (unchecked_as_u64 : Z -> Z).
(* a new session of the Move VM and a function without arguments run in it, unmetered *)
Context (execute_view : ModuleId -> list byte -> result VMStatus (list (list byte * TypeLayout))).

(** [view_framework] of [ContextView]: the error of the function is an error, but what it returned
    is asserted to be one value that can be deserialized. *)
Definition view_framework (module : ModuleId) (function : list byte) : result VMStatus MoveValue :=
  let? return_values :=
    match execute_view module function with
    | Ok return_vals => Ok return_vals
    | Err StatusExecuted => Err StatusExecuted
    | Err _ => Err (StatusError UNEXPECTED_ERROR_FROM_KNOWN_MOVE_FUNCTION)
    | Panic => Panic
    end in
  match return_values with
  | [(raw, ty)] => expect (simple_deserialize raw ty)
  | _ => Panic
  end.

Definition TIMESTAMP_MODULE : ModuleId := mkModuleId CORE_CODE_ADDRESS (bytes_of "timestamp").
Definition BLOCK_MODULE : ModuleId := mkModuleId CORE_CODE_ADDRESS (bytes_of "block").

(** [impl EvmContextReader for ContextView] *)
Definition ContextView : ContextReader := {|
  get_timestamp :=
    let? v := expect (view_framework TIMESTAMP_MODULE (bytes_of "now_seconds")) in convert_to_u64 unchecked_as_u64 v;
  get_block_height :=
    let? v := expect (view_framework BLOCK_MODULE (bytes_of "get_current_block_height")) in convert_to_u64 unchecked_as_u64 v
|}.
End context_view.

(** ** The output of a transaction *)

(** [WriteSetMut]: of two operations on a path the later one counts. *)
Abbreviation WriteSet := (gmap AccessPath WriteOp).

Definition WriteSetMut_insert (self : WriteSet) (item : AccessPath * WriteOp) : WriteSet := <[item.1 := item.2]> self.

Definition WriteSetMut_new (write_ops : list (AccessPath * WriteOp)) : WriteSet :=
  foldl WriteSetMut_insert ∅ write_ops.

(** [TransactionOutputExt], whose [DeltaChangeSet] is empty *)
Record TransactionOutput : Type := mkTransactionOutput {
  to_write_set : WriteSet;
  to_events : list ContractEvent;
  to_gas_used : Z;
  to_status : TransactionStatus;
}.

Section execute.
Context (keccak : list byte -> Z) (rlp_sender_nonce : Z -> Z -> list byte) (iter : gset Z -> list Z).
Context `{RlpI : Rlp} `{PathI : BcsPath} {E : Type} {L : Type} {LL : Lru L}.
Context `{BcsI : Bcs} `{ArgsI : BcsArgs} {Session GasMeter : Type} {MVI : MoveVm Session GasMeter}.
Context `{BytesRef, BigUintBytes, Digest, Bn}.
Context (status_code : VMStatus -> StatusCode) (keep_or_discard : VMStatus -> KeptVMStatus + StatusCode).

Abbreviation Handler := (CrossSpaceHandler (Session := Session) (GasMeter := GasMeter)).
Abbreviation View_ := (ViewWrapper E).

Local Instance view_state_ops : StateOps (State View_) := state_ops keccak.
Local Instance view_frame_ops : FrameState (State View_) := state_frame_ops keccak.

(** [AptosEVM]: the machine, and the cache of jump destinations of its interpreters. *)
Record AptosEVM : Type := mkAptosEVM {
  evm_machine : ChainMachine (EvmState (State View_) Handler);
  evm_cache : L;
}.

Definition AptosEVM_new (cache : L) : vm_result AptosEVM :=
  let? machine := EvmMachine_new keccak in
  Ok (mkAptosEVM machine cache).

(** [EvmState::new_with_move_vm] *)
Definition new_with_move_vm (view_wrapper : View_) (call_move_handler : Handler) :
    vm_result (EvmState (State View_) Handler) :=
  let? state := expect (State_new view_wrapper) in
  Ok (mkEvmState state (Some call_move_handler)).

Definition output_bytes (output : ExecutionOutcome) : option (list byte) :=
  match output with Finished executed => Some (ex_output executed) | _ => None end.

(** What [execute_eth_transaction] does with the outcome: the status, the commit, the events and the
    write set. *)
Definition finish_eth_transaction (state : EvmState (State View_) Handler) (output : ExecutionOutcome) :
    vm_result (VMStatus * TransactionOutput * option (list byte)) :=
  let? '(vm_status, txn_status) := convert_execution_outcome status_code keep_or_discard output in
  let? gas_used :=
    match extract_evm_executed output with Some x => as_u64 (ex_gas_charged x) | None => Ok 0 end in
  let '(r, committed) := state_commit 0 (es_state state) in
  let? _ := expect r in
  let view_wrapper := st_db committed in
  let? '(events, view_wrapper) :=
    match successfully_executed output with
    | Some executed =>
        let '(r, view_wrapper) := evm_events_to_aptos_events (ex_logs executed) view_wrapper in
        let? events := expect r in
        Ok (events, view_wrapper)
    | None => Ok ([], view_wrapper)
    end in
  let? call_move_handler := unwrap (es_move_vm state) in
  let? move_change_set := expect (finalize_handler call_move_handler) in
  let write_set := foldl WriteSetMut_insert (WriteSetMut_new (drain view_wrapper)) move_change_set in
  Ok (vm_status, mkTransactionOutput write_set events gas_used txn_status, output_bytes output).

(** [None] when the fuel of the execution runs out. *)
Definition execute_eth_transaction (turns fuel : nat) (self : AptosEVM) (context_reader : ContextReader)
    (storage : AccessPath -> result E (option (list byte))) (call_move_handler : Handler) (txn : EvmTransaction) :
    vm_result (option (VMStatus * TransactionOutput * option (list byte)) * AptosEVM) :=
  let? '(env, spec) := make_for_new_block context_reader CommonParams_default in
  let? state := new_with_move_vm (mkViewWrapper storage ∅) call_move_handler in
  let? tx := transaction_info txn in
  let '(r, (state, cache)) :=
    transact keccak rlp_sender_nonce iter env (evm_machine self) spec turns fuel tx all_checks (state, evm_cache self) in
  let self := mkAptosEVM (evm_machine self) cache in
  let? o := expect r in
  match o with
  | None => Ok (None, self)
  | Some output =>
      let? result := finish_eth_transaction state output in
      Ok (Some result, self)
  end.
End execute.
