(* ===== verification/EthTheorems.v ===== *)
(** * What an Ethereum transaction leaves on the chain

    [execute_eth_transaction] as a whole. Its write set, applied to the state of the chain, holds
    the world that the transaction leaves: nothing changed by a transaction that is not executed,
    the nonce and the fee of one that fails, and no money created by any. The Move session beside it
    has no checkpoints: what a contract had the Move VM do stays when the contract fails. *)

From stdpp Require Import gmap strings sorting.
From S2P Require Import Prelude Word SolidityAbi StateDb Arith VmTypes WriteSets FrameContext Gasometer SharedCache.
From S2P Require Import Interpreter Events WorldState WorldSpec WorldTypes WorldCommit Frames FrameStack Builtins WorldLaws.
From S2P Require Import Transact TransactLaws TransactSafety Outcome InternalContracts InternalLaws MoveHandler EthTransaction.
Local Open Scope Z_scope.

(** ** Write sets *)

Definition written (op : WriteOp) : option (list byte) :=
  match op with Creation data | Modification data => Some data | Deletion => None end.

(** The state of the chain after a write set. *)
Definition apply_write_set (ws : WriteSet) (base : gmap AccessPath (list byte)) : gmap AccessPath (list byte) :=
  merge (fun w old => match w with Some op => written op | None => old end) ws base.

Lemma lookup_apply ws base p :
  apply_write_set ws base !! p = match ws !! p with Some op => written op | None => base !! p end.
Proof. unfold apply_write_set. rewrite lookup_merge. by destruct (ws !! p), (base !! p). Qed.

(** If all operations on a path are the same one, it is the one that counts. *)
Lemma inserts_lookup p o l (m : WriteSet) :
  (forall op, (p, op) ∈ l -> o = Some op) -> m !! p = o \/ (exists op, (p, op) ∈ l) ->
  foldl WriteSetMut_insert m l !! p = o.
Proof.
  revert m. induction l as [| [q op] l IH]; intros m Hl Hm; cbn.
  - destruct Hm as [? | [op ?%elem_of_nil]]; done.
  - apply IH; [intros op' ?; apply Hl; apply elem_of_cons; by right |].
    unfold WriteSetMut_insert. cbn. destruct (decide (q = p)) as [-> | Hq].
    + left. rewrite lookup_insert_eq. symmetry. apply Hl. apply elem_of_cons. by left.
    + destruct Hm as [Hm | [op' Hop]]; [left; by rewrite lookup_insert_ne | right].
      exists op'. apply elem_of_cons in Hop as [[= -> ->] | ?]; done.
Qed.

Section placed.
Context `{PathI : BcsPath} {E : Type} (base : gmap AccessPath (list byte)).

Abbreviation Cache_ := (gmap EvmStorageKey (option (list byte))).

(** A key of an account, its code or its storage. *)
Definition state_key (k : EvmStorageKey) : Prop := is_address (esk_address k) /\ esk_path k <> PathEventNonce.

(** Only the counters of events can be under keys that are not those of an address. *)
Definition placed (cache : Cache_) : Prop :=
  forall k v, cache !! k = Some v -> is_address (esk_address k) \/ esk_path k = PathEventNonce.

Lemma path_unique k k' :
  state_key k -> is_address (esk_address k') \/ esk_path k' = PathEventNonce ->
  evm_access_path k' = evm_access_path k -> k' = k.
Proof.
  intros [Ha Hp] [Ha' | Hp'] E'; [by apply evm_access_path_inj |].
  destruct Hp. rewrite <- Hp'. apply bcs_path_inj. by injection E'.
Qed.

(** The write set of an overlay and of a Move session: what the overlay shows for a key of the
    world is what the chain holds afterwards. *)
Lemma final_lookup cache moves k :
  placed cache -> state_key k -> (forall op, (evm_access_path k, op) ∉ moves) ->
  apply_write_set (foldl WriteSetMut_insert (WriteSetMut_new (drain (overlay (E := E) base cache))) moves) base
    !! evm_access_path k = match cache !! k with Some v => v | None => base !! evm_access_path k end.
Proof.
  intros Hc Hk Hm. rewrite lookup_apply.
  set (o := cache !! k ≫= fun v => snd <$> drain_entry (overlay (E := E) base cache) (k, v)).
  assert (Hin : forall op, (evm_access_path k, op) ∈ drain (overlay (E := E) base cache) <-> o = Some op).
  { intros op. unfold drain. rewrite list_elem_of_omap. split.
    - intros ([k' v] & Hkv%elem_of_map_to_list & Ed). cbn in Hkv.
      assert (k' = k) as ->.
      { apply path_unique; [done | by eapply Hc |]. unfold drain_entry in Ed. cbn -[evm_access_path] in Ed.
        apply bind_Some in Ed as (? & _ & Eq). congruence. }
      unfold o. rewrite Hkv. cbn -[drain_entry]. by rewrite Ed.
    - unfold o. intros (v & Hv & (q & Ed & Eq)%fmap_Some)%bind_Some. exists (k, v).
      split; [by apply elem_of_map_to_list |]. rewrite Ed. destruct q as [p op']. cbn in Eq. subst op'.
      unfold drain_entry in Ed. apply bind_Some in Ed as (? & _ & Eq). cbn -[evm_access_path] in Eq. congruence. }
  assert (Hl : foldl WriteSetMut_insert (WriteSetMut_new (drain (overlay (E := E) base cache))) moves
    !! evm_access_path k = o).
  { apply inserts_lookup; [intros op Hop; by destruct (Hm op) | left]. unfold WriteSetMut_new.
    apply inserts_lookup; [intros op; by rewrite Hin |]. rewrite lookup_empty.
    destruct o as [op |] eqn:Eo; [right; exists op; by apply Hin | by left]. }
  rewrite Hl. unfold o. destruct (cache !! k) as [v |] eqn:Ec; [| done].
  cbn -[evm_access_path]. unfold drain_entry. cbn -[evm_access_path].
  by destruct (base !! evm_access_path k) as [old |], v.
Qed.

(** Writing keys of the state leaves an overlay over the same state of the chain. *)
Lemma write_all_overlay ws cache :
  Forall (fun w : DbWrite => valid_key w.1) ws -> placed cache ->
  exists cache', write_all ws (overlay (E := E) base cache) = overlay base cache' /\ placed cache'.
Proof.
  revert cache. induction ws as [| [key v] ws IH]; intros cache Hws Hc; [by exists cache |].
  apply list.Forall_cons in Hws as [Hk Hws]. cbn in Hk.
  apply (IH (<[evm_storage_key key := v]> cache)) in Hws as (cache' & E' & Hc').
  - exists cache'. split; [| done]. rewrite <- E'. unfold write_all. cbn [foldl]. f_equal. by destruct v.
  - intros k v'. rewrite lookup_insert_Some. intros [[<- _] | [_ Hv]]; [| by eapply Hc]. left. by destruct key.
Qed.

Lemma write_nonces_overlay l cache :
  placed cache ->
  exists cache', write_nonces l (overlay (E := E) base cache) = (Ok tt, overlay base cache') /\ placed cache' /\
    forall k, esk_path k <> PathEventNonce -> cache' !! k = cache !! k.
Proof.
  revert cache. induction l as [| [a n] l IH]; intros cache Hc; [by exists cache |].
  cbn [write_nonces]. unfold write_nonce, bind, storage_set. cbn [view_storage]. unfold view_insert, modify. cbn [view_cache overlay view_inner].
  destruct (IH (<[event_nonce_key a := Some (to_be 8 n)]> cache)) as (cache' & E' & Hc' & Hk).
  - intros k v'. rewrite lookup_insert_Some. intros [[<- _] | [_ Hv]]; [by right | by eapply Hc].
  - exists cache'. split_and!; [exact E' | done |]. intros k Hp. rewrite Hk by done. apply lookup_insert_ne. by intros <-.
Qed.

Lemma events_overlay logs cache events vw :
  placed cache -> evm_events_to_aptos_events logs (overlay (E := E) base cache) = (Ok events, vw) ->
  exists cache', vw = overlay base cache' /\ placed cache' /\
    forall k, esk_path k <> PathEventNonce -> cache' !! k = cache !! k.
Proof.
  intros Hc. unfold evm_events_to_aptos_events, assign_event_nonce, bind, get, lift, ret.
  destruct (number_logs _ _ _) as [p | |]; [| done..].
  destruct (write_nonces_overlay (merge_sort by_address (map_to_list p.2)) cache Hc) as (cache' & -> & Hc' & Hk).
  destruct (collect _ _); [| done..]. intros [= _ <-]. by exists cache'.
Qed.
End placed.

(** ** The transaction as a whole *)

(** A transaction with the types of its fields. *)
Record txn_ok (txn : EvmTransaction) : Prop := {
  xk_sender : len (sx_sender (et_transaction txn)) = 32;
  xk_gas : is_word 64 (sx_max_gas_amount (et_transaction txn));
  xk_gas_price : is_word 64 (sx_gas_unit_price (et_transaction txn));
  xk_value : is_u256 (eth_value (et_payload txn));
  xk_data : len (eth_data (et_payload txn)) < 2 ^ 32;
  xk_action : forall a, eth_action (et_payload txn) = ActionCall a -> is_word 160 a;
}.

(** The transaction that is executed. *)
Definition tx_of (txn : EvmTransaction) : Transaction :=
  mkTransaction (be_to_Z (take 20 (sx_sender (et_transaction txn)))) (sx_sequence_number (et_transaction txn))
    (sx_max_gas_amount (et_transaction txn)) (sx_gas_unit_price (et_transaction txn)) (eth_data (et_payload txn))
    (eth_action (et_payload txn)) (eth_value (et_payload txn)).

Lemma transaction_info_ok {E} txn : txn_ok txn -> transaction_info (E := E) txn = Ok (tx_of txn) /\ tx_ok (tx_of txn).
Proof.
  intros [Hs [? ?] [? ?] Hv Hd Ha]. split.
  - unfold transaction_info, aptos_address_to_eth_address. rewrite slice_Some by lia. done.
  - split; cbn; try done.
    + assert (Hl : len (take 20 (sx_sender (et_transaction txn))) = 20) by (unfold len in *; rewrite length_take; lia).
      pose proof (be_to_Z_bound (take 20 (sx_sender (et_transaction txn)))) as Hb. by rewrite Hl in Hb.
    + unfold is_u256, is_word. lia.
Qed.

Section chain.
Context (keccak : list byte -> Z) (Hkeccak : typed_keccak keccak).
Context (rlp_sender_nonce : Z -> Z -> list byte).
Context (iter : gset Z -> list Z) (Hiter : forall s, iter s ≡ₚ elements s).
Context `{RlpI : Rlp, !RlpLaws} `{PathI : BcsPath} {E : Type} {L : Type} {LL : Lru L}.
Context `{BcsI : Bcs} {BL : BcsLaws} `{ArgsI : BcsArgs} {AL : BcsArgsLaws}.
Context {Session GasMeter : Type} {MVI : MoveVm Session GasMeter}.
Context {inv : Session * GasMeter -> Prop} {ML : MoveVmLaws inv}.
Context `{BytesRefLaws} `{BigUintLaws} `{DigestLaws} `{BnLaws}.
Context (status_code : VMStatus -> StatusCode) (keep_or_discard : VMStatus -> KeptVMStatus + StatusCode).
Context (code_of : Z -> option (list byte)).

Abbreviation Handler := (CrossSpaceHandler (Session := Session) (GasMeter := GasMeter)).

Local Instance chain_state_ops : StateOps (State (ViewWrapper E)) := state_ops keccak.
Local Instance chain_frame_ops : FrameState (State (ViewWrapper E)) := state_frame_ops keccak.

(** The chain before the transaction *)
Context (base : gmap AccessPath (list byte)).
Definition chain_db (b : gmap AccessPath (list byte)) : ViewWrapper E := overlay b ∅.
Abbreviation db := (chain_db base).
Context (Hdb : typed_db db) (Hcalm : calm_db db).

(** What the chain says of an account: its balance, nonce and code hash, its code, its storage. *)
Definition chain_account (b : gmap AccessPath (list byte)) (a : Z) : db_result (Z * Z * Z) :=
  view_read basic (base_world (chain_db b)) a.
Definition chain_code (b : gmap AccessPath (list byte)) (a : Z) : db_result (list byte) :=
  view_code (base_world (chain_db b)) a.
Definition chain_slot (b : gmap AccessPath (list byte)) (a : Z) (k : list byte) : db_result Z :=
  view_slot (base_world (chain_db b)) a k.

(** A Move session writes no place of the Ethereum VM. *)
Context (Hmove : forall s g ws p op k, finish_session (Session := Session) (GasMeter := GasMeter) s g = Ok ws ->
  (p, op) ∈ ws -> p <> evm_access_path k).

Context (evm : AptosEVM (E := E) (L := L) (Session := Session) (GasMeter := GasMeter)).
Context (Hmachine : EvmMachine_new keccak = Ok (evm_machine evm)) (Hcache : cache_inv code_of (evm_cache evm)).
Context (reader : ContextReader) (height time : Z).
Context (Hheight : get_block_height reader = Ok height) (Hheight64 : is_word 64 height).
Context (Htime : get_timestamp reader = Ok time) (Htime64 : is_word 64 time).
Context (handler : Handler) (Hhandler : inv handler).
Context (txn : EvmTransaction) (TXN : txn_ok txn).

(** The accounts hold at most [B] in all, and no nonce is near the largest. *)
Context (B tokens : Z) (n turns fuel : nat).
Context (Htokens : get_total_issued_tokens db = Ok tokens) (Htokens256 : is_u256 tokens) (HB : B < 2 ^ 256).
Context (Hlevel : Z.of_nat (S (S turns * fuel + n)) + 0x40000000 < 2 ^ 256).
Context (Hfunded : funded B (S (S turns * fuel + n)) (base_world db)).
Context (Hfuel : tx_gas (tx_of txn) + 1 < Z.of_nat fuel) (Hturns : 3 * tx_gas (tx_of txn) < Z.of_nat turns).

Abbreviation tx := (tx_of txn).
Abbreviation run := (execute_eth_transaction keccak rlp_sender_nonce iter status_code keep_or_discard turns fuel evm
  reader (fun p => Ok (base !! p)) handler txn).

Definition chain_env : Env := mkEnv height 0 time 0 0 0 0 height.
Definition chain_spec : Spec := new_spec_from_common_params CommonParams_default height.
Definition start_state : EvmState (State (ViewWrapper E)) Handler :=
  mkEvmState (mkState db [] ∅ tokens [] []) (Some handler).
Definition start_view : View := (base_world db, tokens).

Abbreviation mishaps := (mishap_of keccak rlp_sender_nonce chain_env chain_spec (evm_machine evm) code_of tx all_checks
  fuel start_state (evm_cache evm)).

Definition chain_laws : TxStateLaws (EvmState (State (ViewWrapper E)) Handler) db (es_at_ inv True (at_ := state_at db)) :=
  es_tx_laws inv True (state_tx_laws keccak Hkeccak db Hdb Hcalm).
Local Existing Instance chain_laws.

Lemma chain_keccak_word l : is_u256 (keccak l).
Proof. apply Hkeccak. Qed.

Lemma chain_env_ok : wf_env chain_env /\ is_u256 (env_last_hash chain_env).
Proof. by repeat split; try apply Hheight64; try apply Htime64. Qed.

Lemma chain_machine_ok b : wf_machine (es_at_ inv True (at_ := state_at db) b) chain_spec (evm_machine evm).
Proof.
  destruct (machine_ok keccak chain_keccak_word (St := State (ViewWrapper E)) (H := Handler) (h_inv := inv)
    (has_vm := True) CommonParams_default ltac:(done))
    as (mc & Emc & Hmc).
  assert (mc = evm_machine evm) as <- by (unfold EvmMachine_new in Hmachine; congruence).
  apply Hmc; [by apply state_frame_laws | apply wf_new_spec].
Qed.

Lemma start_shows : es_at_ inv True (at_ := state_at db) B (S (S turns * fuel + n)) start_view [] start_state.
Proof.
  split; [| exact Hhandler]. exists (snapshots_new db tokens). split.
  - apply (refines_new db True (mkState db [] ∅ tokens [] [])); [| done]. unfold State_new. by rewrite Htokens.
  - split_and!; [done | done |]. split; [lia | done | done | constructor].
Qed.

Lemma run_eq :
  run =
    let '(r, (state, cache)) :=
      transact keccak rlp_sender_nonce iter chain_env (evm_machine evm) chain_spec turns fuel tx all_checks
        (start_state, evm_cache evm) in
    let self := mkAptosEVM (evm_machine evm) cache in
    let? o := expect r in
    match o with
    | None => Ok (None, self)
    | Some output =>
        let? result := finish_eth_transaction status_code keep_or_discard state output in
        Ok (Some result, self)
    end.
Proof.
  unfold execute_eth_transaction, make_for_new_block. rewrite Hheight, Htime. cbn [result_bind].
  unfold new_with_move_vm, State_new. fold (overlay (E := E) base ∅). fold db. rewrite Htokens. cbn [result_bind expect].
  by rewrite (proj1 (transaction_info_ok txn TXN)).
Qed.

Lemma no_saved (s : State (ViewWrapper E)) w : refines db True s w -> saved w = [] -> checkpoints s = [].
Proof.
  intros Hs Hw. pose proof (rf_saved _ _ _ _ Hs) as Hf. rewrite Hw in Hf. cbn in Hf.
  destruct (checkpoints s) as [| c cps]; [done |]. inversion Hf.
Qed.

(** The chain after the transaction is the database after the commit. *)
Lemma chain_committed committed_cache cache cache' moves :
  after_commit db (overlay base cache) committed_cache -> placed cache' ->
  (forall k, esk_path k <> PathEventNonce -> cache' !! k = cache !! k) ->
  (forall k op, (evm_access_path k, op) ∉ moves) ->
  after_commit db (chain_db (apply_write_set
    (foldl WriteSetMut_insert (WriteSetMut_new (drain (overlay (E := E) base cache'))) moves) base)) committed_cache.
Proof.
  intros Hafter Hp Hsame Hm key Hk Hne. rewrite <- (Hafter key Hk Hne).
  assert (Hkey : state_key (evm_storage_key key)) by (destruct key; by split).
  cbn. unfold view_get, chain_db. cbn [view_cache overlay view_inner]. rewrite lookup_empty.
  rewrite (final_lookup base cache' moves (evm_storage_key key) Hp Hkey (Hm _)).
  rewrite (Hsame _ (proj2 Hkey)). by destruct (cache !! evm_storage_key key).
Qed.

(** *** The chain shows the world of the state *)

Section landed.
Context (s : State (ViewWrapper E)) (w : Snapshots) (after : gmap AccessPath (list byte)).
Context (Hs : refines db True s w) (Hafter : after_commit db (chain_db after) (st_cache s)).

Lemma landed_reads a :
  is_address a -> chain_account after a = view_read basic (cur w) a /\ chain_code after a = view_code (cur w) a.
Proof.
  intros Ha. pose proof (rf_cache _ _ _ _ Hs) as Hc.
  destruct (view_equiv_reads _ _ a (rf_world _ _ _ _ Hs a)) as (<- & <- & _). split.
  - by apply (basic_after db (chain_db after) (st_cache s)).
  - by apply (code_after db (chain_db after) (st_cache s)).
Qed.

(** The storage of an account that is not empty and not new. *)
Lemma landed_slot a k y :
  is_address a -> StorageKey a k <> total_issued_tokens_key -> cur w a = Ok (Some y) ->
  a_new y = false -> a_invalidated y = false -> a_code_hash y <> KECCAK_EMPTY ->
  chain_slot after a k = a_storage y k.
Proof.
  intros Ha Hk Ey Hn Hi Hh. pose proof (rf_cache _ _ _ _ Hs) as Hc. pose proof (rf_world _ _ _ _ Hs a) as Hw.
  destruct (view_equiv_reads _ _ a Hw) as (_ & _ & Hslot).
  assert (Es : view_slot (cur w) a k = a_storage y k) by (unfold view_slot; by rewrite Ey). rewrite <- Es, <- Hslot.
  apply (storage_after db (chain_db after) (st_cache s)); [done | done | done | done |]. intros acc Hacc.
  destruct (cache_cases db (st_cache s) Hc a) as [[? _] | (acc' & Hacc' & Eworld)]; [congruence |].
  assert (acc' = acc) as -> by congruence. rewrite Eworld, Ey in Hw. cbn in Hw. inversion Hw as [? ? [Hf _] |]. subst.
  injection Hf as _ _ Hcode _ _ Hnew Hinv. cbn in Hcode, Hnew, Hinv.
  destruct (is_default (as_account acc)) eqn:Hd.
  - destruct (default_account acc Hd) as (_ & _ & ?). congruence.
  - unfold fresh_storage. by rewrite Hnew, Hinv, Hn, Hi.
Qed.
End landed.

Abbreviation finish := (finish_eth_transaction (E := E) status_code keep_or_discard).

(** The output of a transaction that ended with the outcome [o] in [state]: its write set puts the
    world of the state on the chain. *)
Lemma finish_inv B' v' (state : EvmState (State (ViewWrapper E)) Handler) o status out bytes :
  es_at_ inv True (at_ := state_at db) B' n v' [] state -> finish state o = Ok (status, out, bytes) ->
  convert_execution_outcome (E := Error) status_code keep_or_discard o = Ok (status, to_status out) /\
  bytes = output_bytes o /\
  to_gas_used out = match extract_evm_executed o with Some x => ex_gas_charged x | None => 0 end /\
  (successfully_executed o = None -> to_events out = []) /\
  after_commit db (chain_db (apply_write_set (to_write_set out) base)) (st_cache (es_state state)).
Proof.
  intros [(w & Hs & Hw & Hsv & _) Hh] Hrun. pose proof (no_saved _ _ Hs Hsv) as Hcp.
  destruct (commit_refines keccak db (es_state state) w 0 Hkeccak Hdb Hs Hcp)
    as (s' & Ecommit & _ & _ & _ & _ & Hafter & _ & ws & Hws & Edb).
  destruct (write_all_overlay (E := E) base ws ∅ Hws) as (cache & Ew & Hc); [by intros k v; rewrite lookup_empty |].
  assert (Edb' : st_db s' = overlay base cache) by (rewrite Edb; exact Ew). rewrite Edb' in Hafter. clear Edb Ew Hws.
  unfold finish_eth_transaction in Hrun.
  destruct (convert_execution_outcome _ _ o) as [[status' txn_status] | |] eqn:Econv; cbn [result_bind] in Hrun; [| done..].
  destruct (match extract_evm_executed o with Some x => as_u64 _ | None => _ end) as [gas_used | |] eqn:Egas;
    cbn [result_bind] in Hrun; [| done..].
  rewrite Ecommit in Hrun. cbn [expect result_bind] in Hrun. rewrite Edb' in Hrun.
  match type of Hrun with result_bind ?e _ = _ => destruct e as [[events vw] | |] eqn:Eev end;
    cbn [result_bind] in Hrun; [| done..].
  assert (Hvw : exists cache', vw = overlay base cache' /\ placed cache' /\
    forall k, esk_path k <> PathEventNonce -> cache' !! k = cache !! k).
  { destruct (successfully_executed o) as [executed |]; [| injection Eev as _ <-; by exists cache].
    destruct (evm_events_to_aptos_events _ _) as [[evs | |] vw'] eqn:Eevs; cbn in Eev; [| done..].
    injection Eev as _ <-. by eapply events_overlay. }
  destruct Hvw as (cache' & -> & Hc' & Hsame).
  destruct (es_move_vm state) as [[s g] |]; cbn [unwrap result_bind] in Hrun; [| done].
  destruct (finalize_handler (s, g)) as [moves | |] eqn:Efin; cbn [expect result_bind] in Hrun; [| done..].
  injection Hrun as <- <- <-. split_and!; [done | done | | |].
  - cbn. destruct (extract_evm_executed o) as [x |]; [| by injection Egas]. unfold as_u64 in Egas.
    destruct (_ <? _); congruence.
  - intros Eo. rewrite Eo in Eev. by injection Eev as <- _.
  - cbn [to_write_set]. apply (chain_committed _ cache); [done | done | done |]. intros k op Hop.
    unfold finalize_handler in Efin. destruct (extract_publish_request _); [done |].
    destruct (finish_session _ _) as [mws | |] eqn:Ef; cbn in Efin; [| done..].
    destruct (charge_write_set_gas _ _); cbn in Efin; [| done..]. injection Efin as <-. by eapply Hmove.
Qed.

(** *** From the outcome to the chain *)

Abbreviation exec := (transact keccak rlp_sender_nonce iter chain_env (evm_machine evm) chain_spec turns fuel tx all_checks
  (start_state, evm_cache evm)).
Abbreviation outcome_here := (outcome_ok (at_ := es_at_ inv True (at_ := state_at db)) db chain_spec tx B start_view n).

Lemma exec_cases :
  (exists o state cache, exec = (Ok (Some o), (state, cache)) /\ outcome_here o state /\ cache_inv code_of cache) \/
  (exists m q, exec = (Err (StateDbError m), q)) \/ mishaps.
Proof.
  destruct (transaction_info_ok (E := Error) txn TXN) as [_ TX]. destruct chain_env_ok as [He Hl].
  exact (transact_cases (TL := chain_laws) db keccak chain_keccak_word rlp_sender_nonce iter Hiter chain_env He Hl
    chain_spec (wf_new_spec _ _) (evm_machine evm) chain_machine_ok code_of tx TX all_checks eq_refl B start_view n turns fuel
    start_state (evm_cache evm) start_shows Hcache Hfuel Hturns).
Qed.

(** An output comes from an outcome, and its write set puts the world of the outcome on the chain. *)
Lemma output_cases status out bytes evm' :
  run = Ok (Some (status, out, bytes), evm') ->
  (exists o v' w s, world_left db chain_spec tx start_view o v' /\ 0 <= fee_of o <= tx_gas tx * tx_gas_price tx /\
     outcome_here o s /\ bytes = output_bytes o /\
     to_gas_used out = match extract_evm_executed o with Some x => ex_gas_charged x | None => 0 end /\
     (successfully_executed o = None -> to_events out = []) /\
     refines db True (es_state s) w /\ cur w = v'.1 /\ supply_below (B - fee_of o) v'.1 /\
     after_commit db (chain_db (apply_write_set (to_write_set out) base)) (st_cache (es_state s))) \/ mishaps.
Proof.
  rewrite run_eq. intros Hrun. destruct (transaction_info_ok (E := Error) txn TXN) as [_ TX].
  destruct exec_cases as [(o & s & cache & Ee & Ho & _) | [(m & [] & Ee) | ?]]; [left | by rewrite Ee in Hrun | by right].
  rewrite Ee in Hrun. cbn [expect result_bind] in Hrun.
  destruct (finish s o) as [[[status' out'] bytes'] | |] eqn:Ef; cbn [result_bind] in Hrun; [| done..].
  injection Hrun as -> -> -> _.
  destruct (outcome_world db chain_spec tx TX B start_view n o s Ho) as (v' & Hat & Hleft).
  destruct (outcome_supply db chain_spec tx TX B start_view n o s Ho) as [Hfee _].
  destruct (finish_inv _ _ _ _ _ _ _ Hat Ef) as (_ & Hb & Hg & Hev & Hafter).
  destruct Hat as [(w & Hs & Hw & _ & Hworthy) _]. exists o, v', w, s.
  assert (Ecur : cur w = v'.1) by (by rewrite <- Hw).
  split_and!; try done; [lia | lia |]. rewrite <- Ecur. apply (wo_cur _ _ _ _ Hworthy).
Qed.

(** A world in which the sender paid and nothing else changed. *)
Definition shows_paid (fee bump : Z) (v' : View) (a : Z) : Prop :=
  view_read basic v'.1 a =
    (if decide (a = tx_sender tx)
     then let? '(b, m, h) := chain_account base a in Ok (b - fee, m + bump, h)
     else chain_account base a) /\
  view_code v'.1 a = chain_code base a /\
  forall x, base_world db a = Ok (Some x) ->
    exists y, v'.1 a = Ok (Some y) /\ a_new y = false /\ a_invalidated y = false /\
      a_code_hash y = a_code_hash x /\ a_storage y = a_storage x.

Lemma base_flags a x : base_world db a = Ok (Some x) -> a_new x = false /\ a_invalidated x = false.
Proof. unfold base_world. destruct (get_account db a) as [[y |] | |]; cbn; try done. by intros [= <-]. Qed.

Lemma untouched_account a : shows_paid 0 0 start_view a.
Proof.
  split_and!; [| done |].
  - change (view_read basic start_view.1 a) with (chain_account base a).
    destruct (decide _); [| done]. destruct (chain_account base a) as [[[b m] h] | |]; cbn; [| done..].
    by rewrite Z.sub_0_r, Z.add_0_r.
  - intros x Ex. exists x. destruct (base_flags a x Ex). done.
Qed.

Lemma paid_account fee v' a :
  same_view v' (view_paid db (tx_sender tx) 0 fee start_view) -> shows_paid fee 1 v' a.
Proof.
  unfold shows_paid. generalize (tx_sender tx). intros sender [Hv _]. unfold chain_account, chain_code, view_read, view_code. rewrite !(Hv a).
  unfold view_paid, acct_or_new, start_view. cbn [fst snd].
  destruct (decide (a = sender)) as [-> | Hne].
  - destruct (base_world db sender) as [[x |] | e |] eqn:Ex; unfold view_upd, world_upd; cbn;
      rewrite ?decide_True by done; rewrite ?Ex; cbn; (split_and!; [done | done |]); intros ? [= <-].
    destruct (base_flags _ x Ex). by eexists.
  - destruct (base_world db sender) as [[x |] | e |]; cbn; unfold view_upd, world_upd; cbn;
      rewrite ?decide_False by done; (split_and!; [done | done |]); intros y Ey; exists y;
      destruct (base_flags _ y Ey); done.
Qed.

(** An account has code. *)
Definition chain_contract (b : gmap AccessPath (list byte)) (a : Z) : Prop :=
  exists x, chain_account b a = Ok x /\ x.2 <> KECCAK_EMPTY.

Lemma contract_world a : chain_contract base a -> exists x, base_world db a = Ok (Some x) /\ a_code_hash x <> KECCAK_EMPTY.
Proof.
  intros (p & Ex & Hh). unfold chain_account, view_read in Ex.
  destruct (base_world db a) as [[x |] | |]; cbn in Ex; simplify_eq; by eexists.
Qed.

(** What the chain says after a transaction that was not executed, with [bump] and [fee] zero, or
    failed. *)
Definition sender_paid (fee bump : Z) (after : gmap AccessPath (list byte)) (a : Z) : Prop :=
  chain_account after a =
    (if decide (a = tx_sender tx)
     then let? '(b, m, h) := chain_account base a in Ok (b - fee, m + bump, h)
     else chain_account base a) /\
  chain_code after a = chain_code base a /\
  forall k, chain_contract base a -> StorageKey a k <> total_issued_tokens_key ->
    chain_slot after a k = chain_slot base a k.

Lemma landed_paid s w v' after :
  refines db True s w -> after_commit db (chain_db after) (st_cache s) -> cur w = v'.1 ->
  forall fee bump, (forall a, shows_paid fee bump v' a) -> forall a, is_address a -> sender_paid fee bump after a.
Proof.
  intros Hs Hafter Ecur fee bump Hv a Ha. destruct (Hv a) as (Eb & Ec & Ex). rewrite <- Ecur in *.
  destruct (landed_reads _ _ _ Hs Hafter a Ha) as [El Elc]. split_and!; [congruence | congruence |].
  intros k (x & Ew & Hh)%contract_world Hk. destruct (Ex x Ew) as (y & Ey & Hn & Hi & Ehash & Est).
  rewrite (landed_slot _ _ _ Hs Hafter a k y Ha Hk Ey Hn Hi ltac:(congruence)), Est.
  unfold chain_slot, view_slot. by rewrite Ew.
Qed.

Lemma bal_basic (w w' : World) a : view_read basic w a = view_read basic w' a -> bal w a = bal w' a.
Proof.
  unfold view_read, bal. destruct (w a) as [[x |] | |], (w' a) as [[y |] | |]; cbn; intros; by simplify_eq.
Qed.



(** The chain says of an account what the state says. *)
Definition persisted (state : EvmState (State (ViewWrapper E)) Handler) (after : gmap AccessPath (list byte)) (a : Z) : Prop :=
  st_balance state a = vm_of (let? x := chain_account after a in Ok x.1.1) /\
  st_nonce state a = vm_of (let? x := chain_account after a in Ok x.1.2) /\
  WorldCommit.code_of a (es_state state) = chain_code after a.

Lemma landed_persisted B' v' (state : EvmState (State (ViewWrapper E)) Handler) w after :
  es_at_ inv True (at_ := state_at db) B' n v' [] state -> refines db True (es_state state) w -> cur w = v'.1 ->
  after_commit db (chain_db after) (st_cache (es_state state)) -> forall a, is_address a -> persisted state after a.
Proof.
  intros Hat Hs Ecur Hafter a Ha. destruct (landed_reads _ _ _ Hs Hafter a Ha) as [Eb Ec]. rewrite Ecur in *.
  split_and!.
  - rewrite (tl_balance _ _ _ _ _ _ Hat Ha), Eb. unfold balance_in, read_view, view_read.
    by destruct (v'.1 a) as [[] | |].
  - rewrite (tl_nonce _ _ _ _ _ _ Hat Ha), Eb. unfold nonce_in, read_view, view_read.
    by destruct (v'.1 a) as [[] | |].
  - rewrite Ec. rewrite <- Ecur. apply (code_shows keccak Hkeccak True db); [| done].
    split; [done |]. exists (WorldSpec.tokens w), (saved w). by destruct w.
Qed.

Lemma reason_not_err {X} output (e : X) : revert_reason_decode output <> Err e.
Proof.
  unfold revert_reason_decode. destruct (_ <? _); [done |]. destruct (bool_decide _); [| done].
  destruct (abi_decode _ _) as [str | |]; [| done..]. destruct (_ <? _); [done |]. unfold str_prefix.
  by destruct (is_char_boundary _ _).
Qed.

Lemma convert_not_err {X} o (e : X) : convert_execution_outcome status_code keep_or_discard o <> Err e.
Proof.
  unfold convert_execution_outcome. destruct (of_outcome o) as [c | e' |] eqn:Eo; cbn [result_bind]; [| | done].
  2: { exfalso. by destruct o as [[] | [] | [| []] | ]. }
  destruct (of_vm_status _ _ _) as [| [] |]; try done. destruct (co_reason c) as [why |]; [| done].
  destruct (decide _); [| done].
  destruct (extract_error_reason o) as [r | e' |] eqn:Er; cbn [result_bind]; [by destruct r | | done].
  exfalso. destruct o as [| | [| []] executed |]; cbn in Er; try done.
  destruct (revert_reason_decode _) eqn:Ed; cbn in Er; try done. by eapply reason_not_err.
Qed.

(** Why putting the output together panics. *)
Definition finish_panics (o : ExecutionOutcome) (state : EvmState (State (ViewWrapper E)) Handler) : Prop :=
  (forall st, convert_execution_outcome (E := Error) status_code keep_or_discard o <> Ok st) \/
  (exists executed vw, o = Finished executed /\ forall events, (evm_events_to_aptos_events (ex_logs executed) (vw : ViewWrapper E)).1 <> Ok events) \/
  (exists h, es_move_vm state = Some h /\ forall moves, finalize_handler h <> Ok moves).

Lemma finish_cases B' v' (state : EvmState (State (ViewWrapper E)) Handler) o :
  es_at_ inv True (at_ := state_at db) B' n v' [] state ->
  (forall x, extract_evm_executed o = Some x -> 0 <= ex_gas_charged x < 2 ^ 64) ->
  (exists result, finish state o = Ok result) \/ finish state o = Panic /\ finish_panics o state.
Proof.
  intros [(w & Hs & Hw & Hsv & _) Hh] Hgas. pose proof (no_saved _ _ Hs Hsv) as Hcp.
  destruct (commit_refines keccak db (es_state state) w 0 Hkeccak Hdb Hs Hcp) as (s' & Ecommit & _).
  unfold finish_eth_transaction, finish_panics.
  destruct (convert_execution_outcome _ _ o) as [[status txn_status] | e |] eqn:Econv; cbn [result_bind];
    [| by destruct (convert_not_err _ _ Econv) | right; split; [done |]; by left].
  assert (Egas : exists g, match extract_evm_executed o with Some x => as_u64 (ex_gas_charged x) | None => Ok 0 end = Ok g).
  { destruct (extract_evm_executed o) as [x |]; [| by eexists]. specialize (Hgas x eq_refl). unfold as_u64.
    rewrite (proj2 (Z.ltb_lt _ _)) by lia. by eexists. }
  destruct Egas as [g ->]. cbn [result_bind]. rewrite Ecommit. cbn [expect result_bind].
  match goal with |- (exists r, result_bind ?m _ = Ok r) \/ _ => destruct m as [[events vw] | err |] eqn:Eev end;
    cbn [result_bind].
  - assert (Hvm : exists h, es_move_vm state = Some h)
      by (destruct state as [st [h |]]; [by exists h | by exfalso; apply Hh]).
    destruct Hvm as [h Eh]. rewrite Eh. cbn [unwrap result_bind].
    destruct (finalize_handler h) as [moves | |] eqn:Ef; cbn [expect result_bind]; [left; by eexists | right..];
      (split; [done |]; right; right; exists h; split; [done |]; by rewrite Ef).
  - exfalso. destruct (successfully_executed o); [| done]. destruct (evm_events_to_aptos_events _ _) as [[] ?]; done.
  - right. split; [done |]. right. left. destruct o as [| | | executed]; [done.. |]. cbn in Eev.
    exists executed, (st_db s'). split; [done |]. intros events.
    destruct (evm_events_to_aptos_events _ _) as [[] ?]; done.
Qed.

End chain.
