(* ===== verification/EthSample.v ===== *)
(** * Ethereum transactions on a small chain

    A chain with one account, a Move VM that knows coins and a counter, and transactions executed
    on it: the instances of the theorems of [EthTheorems], and two transactions that show what the
    Move session beside the Ethereum transaction is not protected from. *)

From stdpp Require Import gmap strings.
From S2P Require Import Prelude Word SolidityAbi StateDb Arith VmTypes WriteSets FrameContext Gasometer SharedCache.
From S2P Require Import Interpreter FrameTheorems Events WorldState WorldSpec WorldTypes WorldCommit Frames FrameStack Builtins.
From S2P Require Import WorldLaws Transact TransactLaws TransactSafety Outcome InternalContracts InternalLaws MoveHandler.
From S2P Require Import EthTransaction EthTheorems.
Local Open Scope Z_scope.

#[local] Existing Instance sample_bcs_path.
#[local] Existing Instance StateDb.sample_rlp.
#[local] Existing Instance StateDb.sample_rlp_laws.
#[local] Existing Instance growing_bytes.
#[local] Existing Instance growing_bytes_laws.
#[local] Existing Instance shortest_bytes.
#[local] Existing Instance shortest_bytes_laws.
#[local] Existing Instance sized_digest.
#[local] Existing Instance sized_digest_laws.
#[local] Existing Instance trivial_bn.
#[local] Existing Instance trivial_bn_laws.

(** ** A Move VM *)

#[local] Instance plain_bcs : Bcs := {|
  TypeTag := unit;
  bcs_type_tag _ := Some tt;
  bcs_decode_u64 l := Ok (be_to_Z l mod 2 ^ 64);
  bcs_decode_bytes32 l := Ok (take 32 (l ++ replicate 32 x00));
  bcs_encode_u64 x := Ok (to_be 8 x);
  bcs_encode_bytes32 l := Ok l;
|}.

#[local] Instance plain_bcs_laws : BcsLaws.
Proof.
  split; cbn [bcs_decode_u64 bcs_decode_bytes32 bcs_encode_u64 bcs_encode_bytes32 plain_bcs rwp].
  - intros l _. apply Z.mod_pos_bound. lia.
  - intros l _. unfold len. rewrite length_take, length_app, length_replicate. lia.
  - intros x _. by rewrite len_to_be.
  - intros l ->. done.
Qed.

#[local] Instance plain_args : BcsArgs := {|
  bcs_address a := Ok a;
  bcs_u64 x := Ok (to_be 8 x);
  bcs_bytes l := Ok l;
  bcs_byte_vectors l := Ok (mjoin l);
|}.

#[local] Instance plain_args_laws : BcsArgsLaws.
Proof. split; by eexists. Qed.

(** A session holds the coins of the accounts; a gas meter, the gas. *)
Abbreviation Coins := (gmap (list byte) Z).

Definition coins_of (s : Coins) (a : list byte) : Z := default 0 (s !! a).

Definition coins_add (a : list byte) (x : Z) (s : Coins) : Coins := <[a := coins_of s a + x]> s.

(** The functions of the Move VM: coins are made and moved, and the function [ihe_touch] of any
    module counts its calls at the address of the module; there are no others. *)
Definition coins_execute (m : ModuleId) (f : list byte) (ty : list unit) (args : list (list byte)) :
    M string (Coins * Z) (list (list byte * unit)) := fun h =>
  match args with
  | [from; to; amount] =>
      let x := be_to_Z amount in
      if bool_decide (f = bytes_of "mint") then (Ok [], (coins_add to x h.1, h.2))
      else (Ok [], (coins_add to x (coins_add from (- x) h.1), h.2))
  | _ =>
      if bool_decide (f = bytes_of "ihe_touch") then (Ok [([], tt)], (coins_add (mi_address m) 1 h.1, h.2))
      else (Err "no such function"%string, h)
  end.

(** Where the coins of an account are on the chain. *)
Definition coins_path (a : list byte) : AccessPath := mkAccessPath a (bytes_of "coins").

#[local] Instance coins_vm : MoveVm Coins Z := {|
  TypeLayout := unit;
  identifier_new l := Ok l;
  execute_function_bypass_visibility := coins_execute;
  simple_deserialize raw _ := Ok (MoveVector (MoveU8 <$> take 32 raw));
  extract_publish_request _ := false;
  finish_session s _ := Ok ((fun p : list byte * Z => (coins_path p.1, Creation (to_be 8 p.2))) <$> map_to_list s);
  cross_space_topup x g := g + x;
  charge_write_set_gas _ g := Ok g;
|}.

Definition any_session (h : Coins * Z) : Prop := True.

#[local] Instance coins_laws : MoveVmLaws any_session.
Proof.
  split; cbn [identifier_new execute_function_bypass_visibility simple_deserialize cross_space_topup coins_vm].
  - done.
  - intros h m f ty args _. unfold wp, coins_execute.
    destruct args as [| a [| b [| c [|]]]]; repeat case_bool_decide; done.
  - intros raw []. cbn [rwp]. intros l [= <-]. unfold len. rewrite length_fmap, length_take. lia.
  - done.
Qed.

(** ** A chain *)

(** The first 32 bytes, with the top bit cleared. *)
Definition prefix_hash (l : list byte) : Z :=
  match l with [] => KECCAK_EMPTY | _ => be_to_Z (take 32 (l ++ replicate 32 x00)) mod 2 ^ 255 end.

Lemma prefix_hash_typed : typed_keccak prefix_hash.
Proof.
  intros [| b l]; [by split |]. unfold prefix_hash.
  pose proof (Z.mod_pos_bound (be_to_Z (take 32 ((b :: l) ++ replicate 32 x00))) (2 ^ 255) ltac:(lia)).
  split; [unfold is_u256, is_word; lia |]. split; [| done]. unfold KECCAK_EMPTY. lia.
Qed.

(** The address 5 in the account that the chain knows it by. *)
Definition sender_bytes : list byte := eth_address_to_aptos_address 5.

Definition account_entry (a balance nonce hash : Z) : AccessPath * list byte :=
  (evm_access_path (mkEvmStorageKey a PathAccount), rlp_encode (mkEthereumAccount balance nonce hash)).

Definition code_entry (a : Z) (code : list byte) : AccessPath * list byte :=
  (evm_access_path (mkEvmStorageKey a PathCode), rlp_encode (mkCodeInfo code)).

(** One account, with a balance of 10^18. *)
Definition small_chain : gmap AccessPath (list byte) :=
  {[(account_entry 5 (10 ^ 18) 0 KECCAK_EMPTY).1 := (account_entry 5 (10 ^ 18) 0 KECCAK_EMPTY).2]}.

Definition now_reader : ContextReader := mkContextReader (Ok 1700000000) (Ok 7).

Definition chain_evm : AptosEVM (E := unit) (L := gmap Z CacheItem) (Session := Coins) (GasMeter := Z) :=
  match AptosEVM_new prefix_hash ∅ with
  | Ok e => e
  | _ => mkAptosEVM (mkChainMachine ∅ (fun _ _ => None) (fun _ => 0)) ∅
  end.

Definition chain_turns : nat := Z.to_nat 620000.
Definition chain_fuel : nat := Z.to_nat 210000.

Abbreviation chain_run base txn :=
  (execute_eth_transaction prefix_hash (fun _ _ => []) elements (fun _ => UNKNOWN_RUNTIME_STATUS) keep_aborts chain_turns
     chain_fuel chain_evm now_reader (fun p => Ok (base !! p)) (∅ : Coins, 0) txn).

(** What a run gives. *)
Definition outcome_shape {A} (r : vm_result (option (VMStatus * TransactionOutput * option (list byte)) * A)) :
    option (VMStatus * option (list byte)) :=
  match r with Ok (Some (st, _, bytes), _) => Some (st, bytes) | _ => None end.

Definition write_set_of {A} (r : vm_result (option (VMStatus * TransactionOutput * option (list byte)) * A)) : WriteSet :=
  match r with Ok (Some (_, out, _), _) => to_write_set out | _ => ∅ end.

Lemma run_shape {A} (r : vm_result (option (VMStatus * TransactionOutput * option (list byte)) * A)) st bytes :
  outcome_shape r = Some (st, bytes) ->
  exists out a, r = Ok (Some (st, out, bytes), a) /\ write_set_of r = to_write_set out.
Proof.
  destruct r as [[[[[st' out] bytes'] |] a] | |]; cbn; try done. intros [= -> ->]. by exists out, a.
Qed.

Definition eth_txn (gas value : Z) (to : Z) (data : list byte) : EvmTransaction :=
  mkEvmTransaction (mkSignedTransaction sender_bytes 0 gas 2 (EthPayload (mkEthTransactionPayload value (ActionCall to) data)))
    (mkEthTransactionPayload value (ActionCall to) data).

(** A payment of 10 to account 0x77. *)
Definition chain_payment : EvmTransaction := eth_txn 30000 10 0x77 [].

(** A call of the function [function] of the module [coin] at an address of the Move VM. *)
Definition move_address : list byte := replicate 31 x00 ++ [x42].

Definition call_move_data (function : string) : list byte :=
  match abi_encode_tuple (field (abi_byte_array 32) (field abi_string (field abi_string
       (field (abi_vec abi_bytes) (field (abi_vec abi_bytes) no_fields)))))
       (move_address, (bytes_of "coin", (bytes_of function, ([], ([], tt))))) with
  | Ok l => bytes_of "call" ++ l
  | _ => []
  end.

(** ** The chain is one that transactions can be executed on *)

Abbreviation small_db := (chain_db (E := unit) small_chain).

Lemma small_get key :
  storage_get small_db key = Ok (small_chain !! evm_access_path (evm_storage_key key)).
Proof. cbn. unfold view_get. cbn [chain_db overlay view_cache view_inner]. by rewrite lookup_empty. Qed.

Lemma small_none key : (forall a, key <> AccountKey a) -> storage_get small_db key = Ok None.
Proof.
  intros Hk. rewrite small_get. f_equal. apply lookup_singleton_ne. intros Ep.
  apply (f_equal ap_path) in Ep. cbn -[address_bytes] in Ep. by destruct key; [destruct (Hk address) | ..].
Qed.

Lemma small_account a :
  get_account small_db a = Ok None \/
  get_account small_db a = Ok (Some (mkAccount a (10 ^ 18) 0 KECCAK_EMPTY)) /\ (is_address a -> a = 5).
Proof.
  unfold get_account, get_raw. rewrite small_get. unfold small_chain.
  destruct (decide (evm_access_path (mkEvmStorageKey a PathAccount) = (account_entry 5 (10 ^ 18) 0 KECCAK_EMPTY).1)) as [Ep | Ep].
  - right. cbn [evm_storage_key]. rewrite Ep, lookup_singleton_eq. split; [vm_compute; reflexivity |].
    intros Ha. apply evm_access_path_inj in Ep; [congruence | done | by split].
  - left. cbn [evm_storage_key]. rewrite lookup_singleton_ne by (intros E; by rewrite E in Ep). done.
Qed.

Lemma small_storage a k : base_storage small_db a k = Ok 0.
Proof. unfold base_storage, db_get, get_raw. by rewrite small_none. Qed.

Lemma small_code a h : get_code small_db a h = Ok None.
Proof. unfold get_code, db_get, get_raw. by rewrite small_none. Qed.

Lemma small_typed : typed_db small_db /\ calm_db small_db.
Proof.
  split; split.
  - intros a x. destruct (small_account a) as [-> | [-> _]]; intros [= <-]. by repeat split.
  - intros a h c. by rewrite small_code.
  - intros a k v. rewrite small_storage. by intros [= <-].
  - intros a. by destruct (small_account a) as [-> | [-> _]].
  - intros a h. by rewrite small_code.
  - intros a k. by rewrite small_storage.
Qed.

Lemma small_world a :
  base_world small_db a = Ok None \/
  (exists x, base_world small_db a = Ok (Some x) /\ a_balance x = 10 ^ 18 /\ a_nonce x = 0 /\
     a_code_hash x = KECCAK_EMPTY /\ a_code x = Ok None /\ forall k, a_storage x k = Ok 0) /\ (is_address a -> a = 5).
Proof.
  unfold base_world. destruct (small_account a) as [-> | [-> ?]]; [by left |]. right. split; [| done].
  eexists. split_and!; [reflexivity | done | done | done | done |]. intros k. apply small_storage.
Qed.

Lemma small_bal a : is_address a -> bal (base_world small_db) a = if decide (a = 5) then bal (base_world small_db) 5 else 0.
Proof.
  intros Ha. unfold bal. destruct (decide (a = 5)) as [-> |]; [done |].
  destruct (small_world a) as [-> | [_ H5]]; [done |]. by destruct (H5 Ha).
Qed.

Lemma small_funded n : Z.of_nat n < 2 ^ 256 -> funded (10 ^ 18) n (base_world small_db).
Proof.
  intros Hn. split.
  - intros a. destruct (small_world a) as [-> | [(x & -> & Eb & En & Eh & Ec & Es) _]]; cbn; [done |].
    intros y [= <-]. split; [split | |].
    + by rewrite Eb.
    + by rewrite En.
    + by rewrite Eh.
    + by rewrite Ec.
    + intros k. by rewrite Es.
    + rewrite En. lia.
    + rewrite Ec. done.
  - intros l Hl Hal.
    assert (Ht : total (base_world small_db) l <= if bool_decide (5 ∈ l) then 10 ^ 18 else 0); [| case_bool_decide; lia].
    induction Hl as [| a l Ha Hl IH]; [done |]. apply list.Forall_cons in Hal as [Haddr Hal]. cbn [total].
    rewrite small_bal by done. specialize (IH Hal).
    assert (Hb : bal (base_world small_db) 5 = 10 ^ 18) by (vm_compute; reflexivity).
    destruct (decide (a = 5)) as [-> | Hne].
    + rewrite bool_decide_eq_false_2 in IH by done. rewrite bool_decide_eq_true_2 by (apply elem_of_cons; by left). lia.
    + destruct (bool_decide (5 ∈ l)) eqn:E5; cbv iota in IH.
      * apply bool_decide_eq_true_1 in E5. rewrite bool_decide_eq_true_2 by (apply elem_of_cons; by right). lia.
      * destruct (bool_decide (5 ∈ a :: l)); lia.
Qed.

(** ** The Move session and a failing transaction *)

(** A transaction that converts five coins and calls a function of the Move VM that there is not. *)
Definition failing_call : EvmTransaction :=
  eth_txn 200000 (5 * 10 ^ 10) CROSS_SPACE_CONTRACT_ADDRESS (call_move_data "missing").


(** ** The Move session and a static call *)

(** Code that passes its input on in a call, without a value, to the contract that stands for the
    Move VM. *)
Definition caller_code : list byte :=
  [x36; x60; x00; x60; x00; x37; x60; x00; x60; x00; x36; x60; x00; x60; x00; x73] ++
  address_bytes CROSS_SPACE_CONTRACT_ADDRESS ++ [x5a; xf1; x00].

(** Code that passes its input on in a static call to the contract at 0x2000. *)
Definition reader_code : list byte :=
  [x36; x60; x00; x60; x00; x37; x60; x00; x60; x00; x36; x60; x00; x61; x20; x00; x5a; xfa; x00].

Definition contracts_chain : gmap AccessPath (list byte) :=
  list_to_map [account_entry 5 (10 ^ 18) 0 KECCAK_EMPTY;
    account_entry 0x1000 0 1 (prefix_hash reader_code); code_entry 0x1000 reader_code;
    account_entry 0x2000 0 1 (prefix_hash caller_code); code_entry 0x2000 caller_code].

Definition reading_call : EvmTransaction := eth_txn 200000 0 0x1000 (call_move_data "touch").


(** ** Instances of the theorems *)

#[local] Instance small_state_ops : StateOps (State (ViewWrapper unit)) := state_ops prefix_hash.
#[local] Instance small_frame_ops : FrameState (State (ViewWrapper unit)) := state_frame_ops prefix_hash.

Abbreviation coins_machine := (EvmMachine_new (St := State (ViewWrapper unit))
  (H := CrossSpaceHandler (Session := Coins) (GasMeter := Z)) (SS := view_state_ops prefix_hash) prefix_hash).

Lemma chain_evm_machine : coins_machine = Ok (evm_machine chain_evm).
Proof.
  assert (Hmc : exists mc, coins_machine = Ok mc).
  { destruct (machine_ok prefix_hash (fun l => proj1 (prefix_hash_typed l)) (St := State (ViewWrapper unit))
      (SS := view_state_ops prefix_hash) (H := Coins * Z) (h_inv := any_session)
      (MV := handler_call_move_vm) (has_vm := True) CommonParams_default ltac:(done)) as (mc & Emc & _).
    by exists mc. }
  destruct Hmc as [mc Emc]. unfold chain_evm, AptosEVM_new. by rewrite Emc.
Qed.

Lemma coins_paths (s : Coins) (g : Z) ws p op k :
  finish_session (MoveVm := coins_vm) s g = Ok ws -> (p, op) ∈ ws -> p <> evm_access_path k.
Proof.
  cbn. intros [= <-] Hin Ep. apply list_elem_of_fmap in Hin as ([a x] & Eq & _). injection Eq as Eq _.
  rewrite Eq in Ep. apply (f_equal ap_path) in Ep. cbn in Ep. by destruct (esk_path k).
Qed.

Lemma chain_level : Z.of_nat (S (S chain_turns * chain_fuel + 0)) + 0x40000000 < 2 ^ 256.
Proof.
  rewrite Nat2Z.inj_succ, Nat2Z.inj_add, Nat2Z.inj_mul, Nat2Z.inj_succ. unfold chain_turns, chain_fuel.
  rewrite !Z2Nat.id by done. change (2 ^ 256) with (2 ^ 250 * 64). lia.
Qed.

Lemma chain_fuel_ok g : g <= 200000 -> g + 1 < Z.of_nat chain_fuel /\ 3 * g < Z.of_nat chain_turns.
Proof. unfold chain_fuel, chain_turns. rewrite !Z2Nat.id by done. lia. Qed.

Lemma eth_txn_ok gas value to data :
  is_word 64 gas -> is_u256 value -> is_word 160 to -> len data < 2 ^ 32 -> txn_ok (eth_txn gas value to data).
Proof. intros. split; cbn; try done. by intros a [= <-]. Qed.

Lemma small_reader : get_block_height now_reader = Ok 7 /\ get_timestamp now_reader = Ok 1700000000.
Proof. done. Qed.

Lemma small_words : is_word 64 7 /\ is_word 64 1700000000 /\ is_u256 0.
Proof. by repeat split. Qed.

Lemma small_tokens : get_total_issued_tokens small_db = Ok 0.
Proof. vm_compute. reflexivity. Qed.

Lemma small_level_funded : funded (10 ^ 18) (S (S chain_turns * chain_fuel + 0)) (base_world small_db).
Proof. apply small_funded. pose proof chain_level. lia. Qed.

Lemma empty_evm_cache : cache_inv no_code (evm_cache chain_evm).
Proof.
  assert (evm_cache chain_evm = ∅) as -> by (vm_compute; reflexivity). intros h d Hd. cbn in Hd.
  by rewrite lookup_empty in Hd.
Qed.

Lemma chain_payment_ok : txn_ok chain_payment.
Proof. by apply eth_txn_ok. Qed.

Lemma failing_call_ok : txn_ok failing_call.
Proof. apply eth_txn_ok; vm_compute; done. Qed.

Abbreviation small_mishap txn :=
  (mishap_of prefix_hash (fun _ _ => []) (chain_env 7 1700000000) (chain_spec 7) (evm_machine chain_evm) no_code
     (tx_of txn) all_checks chain_fuel (start_state small_chain (∅ : Coins, 0) 0) (evm_cache chain_evm)).



