(* ===== verification/Position.v ===== *)
(** * Positions of nodes in a binary tree

    [Position] of src/types/src/proof/position/mod.rs: a node of the Merkle accumulator by its
    in-order index, navigated with bit operations on 64-bit words, with the iterators over
    ancestors and over the roots of full subtrees, and the numbering in post-order that the
    storage uses.

    Shown here: the bit operations are the arithmetic of levels and of positions within a level
    ([node]), and the post-order numbering is a bijection in which children come before their
    parent. *)

From Stdlib Require Import String.
From S2P Require Import Prelude Word Arith.
Local Open Scope Z_scope.

(** Errors of [anyhow], by their message without its arguments *)
Abbreviation anyhow A := (result string A).

Definition ensure (b : bool) (message : string) : anyhow unit := if b then Ok tt else Err message.
Definition rust_assert {E} (b : bool) : result E unit := if b then Ok tt else Panic.

(** [u64::trailing_zeros] and [u64::count_ones] *)
Definition trailing_zeros64 (x : Z) : Z := if x =? 0 then 64 else Z.log2 (Z.land x (- x)).

Fixpoint pos_count_ones (p : positive) : Z :=
  match p with
  | xH => 1
  | xO p => pos_count_ones p
  | xI p => 1 + pos_count_ones p
  end.

Definition count_ones (x : Z) : Z := match x with Zpos p => pos_count_ones p | _ => 0 end.

Definition MAX_ACCUMULATOR_PROOF_DEPTH : Z := 63.
Definition MAX_ACCUMULATOR_LEAVES : Z := 2 ^ 63.

Definition U64_MAX : Z := 2 ^ 64 - 1.

(** ** Bit manipulation *)

Definition smear_ones_for_u64 (v : Z) : Z :=
  let n := Z.lor v (shr v 1) in
  let n := Z.lor n (shr n 2) in
  let n := Z.lor n (shr n 4) in
  let n := Z.lor n (shr n 8) in
  let n := Z.lor n (shr n 16) in
  Z.lor n (shr n 32).

(** Shifts by the width or more panic. *)
Definition checked_shl {E} (x n : Z) : result E Z := if n <? 64 then Ok (shl 64 x n) else Panic.
Definition checked_shr {E} (x n : Z) : result E Z := if n <? 64 then Ok (shr x n) else Panic.

Definition turn_off_right_most_n_bits {E} (v n : Z) : result E Z :=
  let? high := checked_shr v n in checked_shl high n.

Definition isolate_rightmost_zero_bit (v : Z) : Z :=
  Z.land (bnot 64 v) (overflowing_add 64 v 1).1.

(** ** [Position] *)

Inductive NodeDirection : Set := Left | Right.

Definition level (self : Z) : Z := trailing_zeros64 (bnot 64 self).

Definition is_leaf (self : Z) : bool := Z.land self 1 =? 0.

Section positions.
Context {E : Type}.

Definition from_level_and_pos (level pos : Z) : result E Z :=
  let? _ := rust_assert (level <? 64) in
  let? _ := rust_assert (0 <? shl 64 1 level) in
  let? level_one_bits := checked_sub (shl 64 1 level) 1 in
  let shifted_pos := if level =? 63 then 0 else shl 64 pos (level + 1) in
  Ok (Z.lor shifted_pos level_one_bits).

(** The invariant that the navigation functions assert *)
Definition in_tree (self : Z) : bool := self <? U64_MAX - 1.

Definition parent (self : Z) : result E Z :=
  let? _ := rust_assert (in_tree self) in
  Ok (Z.land (Z.lor self (isolate_rightmost_zero_bit self))
        (bnot 64 (shl 64 (isolate_rightmost_zero_bit self) 1))).

Definition child (self : Z) (dir : NodeDirection) : result E Z :=
  let? _ := rust_assert (negb (is_leaf self)) in
  let? _ := rust_assert (in_tree self) in
  let direction_bit :=
    match dir with Left => 0 | Right => isolate_rightmost_zero_bit self end in
  Ok (Z.land (Z.lor self direction_bit) (bnot 64 (shr (isolate_rightmost_zero_bit self) 1))).

Definition left_child (self : Z) : result E Z :=
  let? _ := rust_assert (negb (is_leaf self)) in child self Left.

Definition right_child (self : Z) : result E Z :=
  let? _ := rust_assert (negb (is_leaf self)) in child self Right.

Definition is_left_child (self : Z) : result E bool :=
  let? _ := rust_assert (in_tree self) in
  Ok (Z.land self (shl 64 (isolate_rightmost_zero_bit self) 1) =? 0).

Definition is_right_child (self : Z) : result E bool :=
  let? b := is_left_child self in Ok (negb b).

Definition from_leaf_index (leaf_index : Z) : result E Z := from_level_and_pos 0 leaf_index.

Definition sibling (self : Z) : result E Z :=
  let? _ := rust_assert (in_tree self) in
  Ok (Z.lxor self (shl 64 (isolate_rightmost_zero_bit self) 1)).

Definition root_from_leaf_index (leaf_index : Z) : result E Z :=
  let? leaf := from_leaf_index leaf_index in Ok (shr (smear_ones_for_u64 leaf) 1).

Definition root_from_leaf_count (leaf_count : Z) : result E Z :=
  let? _ := rust_assert (0 <? leaf_count) in root_from_leaf_index (leaf_count - 1).

Definition root_level_from_leaf_count (leaf_count : Z) : result E Z :=
  let? _ := rust_assert (0 <? leaf_count) in
  let index := leaf_count - 1 in
  Ok (MAX_ACCUMULATOR_PROOF_DEPTH + 1 - leading_zeros64 index).

Definition right_most_child (self : Z) : result E Z :=
  let? width := checked_shl 1 (level self) in
  let? sum := checked_add 64 self width in
  checked_sub sum 1.

Definition left_most_child (self : Z) : result E Z := turn_off_right_most_n_bits self (level self).

(** [is_freezable] and [is_placeholder]: of the node, in a tree whose last leaf is [leaf_index] *)
Definition is_freezable (self leaf_index : Z) : result E bool :=
  let? leaf := from_leaf_index leaf_index in
  let? right_most_child := right_most_child self in
  Ok (right_most_child <=? leaf).

Definition is_placeholder (self leaf_index : Z) : result E bool :=
  let? leaf := from_leaf_index leaf_index in
  if self <=? leaf then Ok false
  else
    let? left_most_child := left_most_child self in
    Ok (negb (left_most_child <=? leaf)).

(** ** Iterators *)

(** The first [n] items of [iter_ancestor_sibling] *)
Fixpoint ancestor_siblings (n : nat) (position : Z) : result E (list Z) :=
  match n with
  | O => Ok []
  | S n =>
      let? current_sibling_position := sibling position in
      let? position := parent position in
      let? rest := ancestor_siblings n position in
      Ok (current_sibling_position :: rest)
  end.

(** The first [n] items of [iter_ancestor] *)
Fixpoint ancestors (n : nat) (position : Z) : result E (list Z) :=
  match n with
  | O => Ok []
  | S n =>
      let? next := parent position in
      let? rest := ancestors n next in
      Ok (position :: rest)
  end.

(** [FrozenSubTreeIterator::next], on [bitmap] and [seen_leaves] *)
Definition frozen_subtree_next (bitmap seen_leaves : Z) : result E (option Z * (Z * Z)) :=
  let? _ := rust_assert (seen_leaves <? U64_MAX - bitmap) in
  if bitmap =? 0 then Ok (None, (bitmap, seen_leaves))
  else
    let root_offset := shr (smear_ones_for_u64 bitmap) 1 in
    let? _ := rust_assert (root_offset <? bitmap) in
    let num_leaves := root_offset + 1 in
    let? leftmost_leaf := from_leaf_index seen_leaves in
    let? root := checked_add 64 leftmost_leaf root_offset in
    let? seen_leaves := checked_add 64 seen_leaves num_leaves in
    Ok (Some root, (Z.land bitmap (bnot 64 num_leaves), seen_leaves)).

(** All its items; it takes one bit of [bitmap] per item. *)
Fixpoint frozen_subtrees_loop (fuel : nat) (bitmap seen_leaves : Z) : result E (list Z) :=
  match fuel with
  | O => Ok []
  | S fuel =>
      let? '(o, (bitmap, seen_leaves)) := frozen_subtree_next bitmap seen_leaves in
      match o with
      | None => Ok []
      | Some root => let? rest := frozen_subtrees_loop fuel bitmap seen_leaves in Ok (root :: rest)
      end
  end.

Definition frozen_subtrees (num_leaves : Z) : result E (list Z) := frozen_subtrees_loop 65 num_leaves 0.

Definition next_new_leaf_batch (remaining_new_leaves : Z) : result E Z :=
  let? shift := checked_sub MAX_ACCUMULATOR_PROOF_DEPTH (leading_zeros64 remaining_new_leaves) in
  checked_shl 1 shift.

(** [FrozenSubtreeSiblingIterator::next] *)
Definition frozen_sibling_next (current_num_leaves remaining_new_leaves : Z) :
    result E (option Z * (Z * Z)) :=
  if remaining_new_leaves =? 0 then Ok (None, (current_num_leaves, remaining_new_leaves))
  else
    let? next_subtree_leaves :=
      if 0 <? current_num_leaves then
        let? rightmost_frozen_subtree_leaves := checked_shl 1 (trailing_zeros64 current_num_leaves) in
        if rightmost_frozen_subtree_leaves <=? remaining_new_leaves
        then Ok rightmost_frozen_subtree_leaves
        else next_new_leaf_batch remaining_new_leaves
      else next_new_leaf_batch remaining_new_leaves in
    let first_leaf_index := current_num_leaves in
    let? sum := checked_add 64 first_leaf_index next_subtree_leaves in
    let? last_leaf_index := checked_sub sum 1 in
    let? current_num_leaves := checked_add 64 current_num_leaves next_subtree_leaves in
    let? remaining_new_leaves := checked_sub remaining_new_leaves next_subtree_leaves in
    let? position := checked_add 64 first_leaf_index last_leaf_index in
    Ok (Some position, (current_num_leaves, remaining_new_leaves)).

Fixpoint frozen_siblings_loop (fuel : nat) (current_num_leaves remaining_new_leaves : Z) :
    result E (list Z) :=
  match fuel with
  | O => Ok []
  | S fuel =>
      let? '(o, (current, remaining)) := frozen_sibling_next current_num_leaves remaining_new_leaves in
      match o with
      | None => Ok []
      | Some p => let? rest := frozen_siblings_loop fuel current remaining in Ok (p :: rest)
      end
  end.

(** [FrozenSubtreeSiblingIterator::new] and all its items: at most one subtree for each size on
    the way up and one on the way down *)
Definition frozen_siblings (current_num_leaves new_num_leaves : Z) : result E (list Z) :=
  let? _ := rust_assert (new_num_leaves <=? MAX_ACCUMULATOR_LEAVES) in
  let? _ := rust_assert (current_num_leaves <=? new_num_leaves) in
  frozen_siblings_loop 129 current_num_leaves (new_num_leaves - current_num_leaves).

(** ** Post-order *)

Definition children_of_node (node : Z) : result E Z :=
  checked_sub (shl 64 (isolate_rightmost_zero_bit node) 1) 2.

Definition nodes_to_left_of (node : Z) : result E Z :=
  let? ones_up_to_level := checked_sub (isolate_rightmost_zero_bit node) 1 in
  let unset_level_zeros := Z.lxor node ones_up_to_level in
  checked_sub unset_level_zeros (count_ones unset_level_zeros).

Definition inorder_to_postorder (node : Z) : result E Z :=
  let? children := children_of_node node in
  let? left_nodes := nodes_to_left_of node in
  checked_add 64 children left_nodes.

(** The loop over [i] in [(0..n).rev()], on [node], [full_binary_size] and [bitmap] *)
Fixpoint postorder_loop (n : nat) (node full_binary_size bitmap : Z) : Z * Z :=
  match n with
  | O => (node, bitmap)
  | S i =>
      let '(node, bitmap) :=
        if full_binary_size <=? node
        then (node - full_binary_size, Z.lor bitmap (shl 64 1 (Z.of_nat i)))
        else (node, bitmap) in
      postorder_loop i node (shr full_binary_size 1) bitmap
  end.

Definition postorder_to_inorder (node : Z) : result E Z :=
  let '(node, bitmap) := postorder_loop 64 node U64_MAX 0 in
  let level := node mod 2 ^ 32 in
  let? pos := checked_shr bitmap level in
  from_level_and_pos level pos.

Definition to_postorder_index (self : Z) : result E Z := inorder_to_postorder self.
End positions.

Definition from_postorder_index (index : Z) : anyhow Z :=
  let? _ := ensure (index <? bnot 64 0) "node index is invalid (equal to 2^64 - 1)" in
  postorder_to_inorder index.

(** ** Levels *)

(** The node at a level, counted from the left *)
Definition node (l q : Z) : Z := q * 2 ^ (l + 1) + (2 ^ l - 1).

(** The nodes that the navigation functions accept, other than the one at level 63 *)
Definition wf_node (l q : Z) : Prop := 0 <= l /\ 0 <= q /\ node l q < 2 ^ 64 - 2.

Lemma pow2_succ l : 0 <= l -> 2 ^ (l + 1) = 2 * 2 ^ l.
Proof. intros Hl. rewrite Z.pow_add_r by lia. lia. Qed.

Lemma pow2_pos l : 0 <= l -> 0 < 2 ^ l.
Proof. intros. by apply Z.pow_pos_nonneg. Qed.

Lemma node_nonneg l q : 0 <= l -> 0 <= q -> 0 <= node l q.
Proof. intros Hl Hq. unfold node. pose proof (pow2_pos l Hl). pose proof (pow2_pos (l + 1)). nia. Qed.

Lemma node_testbit l q i :
  0 <= l -> 0 <= i ->
  Z.testbit (node l q) i = if i <? l then true else if i =? l then false else Z.testbit q (i - l - 1).
Proof.
  intros Hl Hi. unfold node. pose proof (pow2_pos l Hl) as Hp. pose proof (pow2_succ l Hl) as Hs.
  destruct (Z.ltb_spec i (l + 1)) as [Hlt | Hge].
  - rewrite <- (Z.mod_pow2_bits_low _ (l + 1)) by lia. rewrite Z.add_comm, Z.mod_add, Z.mod_small by lia.
    replace (2 ^ l - 1) with (Z.ones l) by (rewrite Z.ones_equiv; lia).
    destruct (Z.ltb_spec i l); [by rewrite Z.ones_spec_low by lia |].
    rewrite Z.ones_spec_high by lia. by destruct (Z.eqb_spec i l); [| lia].
  - replace i with (i - (l + 1) + (l + 1)) at 1 by lia. rewrite <- Z.div_pow2_bits by lia.
    rewrite Z.div_add_l, (Z.div_small (2 ^ l - 1)), Z.add_0_r by lia.
    destruct (Z.ltb_spec i l); [lia |]. destruct (Z.eqb_spec i l); [lia |]. f_equal. lia.
Qed.

(** Every index but the last is a node. *)
Lemma node_exists p : 0 <= p -> exists l q, 0 <= l /\ 0 <= q /\ p = node l q.
Proof.
  intros Hp. pattern p. apply (Zlt_0_ind (fun p => exists l q, 0 <= l /\ 0 <= q /\ p = node l q)); [| done].
  clear p Hp. intros p IH Hp. destruct (Z.even p) eqn:He.
  - apply Z.even_spec in He as [q ->]. exists 0, q. unfold node. simpl. lia.
  - rewrite <- Z.negb_odd in He. apply negb_false_iff in He. apply Z.odd_spec in He as [m ->].
    destruct (IH m) as (l & q & Hl & Hq & ->); [lia |]. exists (l + 1), q. split; [lia |]. split; [done |].
    unfold node. rewrite (pow2_succ (l + 1)), (pow2_succ l) by lia. lia.
Qed.

Lemma pow2_testbit l i : 0 <= l -> Z.testbit (2 ^ l) i = (i =? l).
Proof. intros Hl. rewrite Z.pow2_bits_eqb by done. by rewrite Z.eqb_sym. Qed.

Lemma testbit_odd_pred q j : 0 < j -> Z.testbit (2 * q + 1) j = Z.testbit q (j - 1).
Proof. intros Hj. rewrite <- (Z.testbit_odd_succ q (j - 1)) by lia. f_equal. lia. Qed.

Lemma node_level_bound l q : 0 <= l -> 0 <= q -> node l q < 2 ^ 64 - 1 -> l < 64.
Proof.
  intros Hl Hq Hn. unfold node in Hn. pose proof (pow2_pos (l + 1)).
  destruct (Z.ltb_spec l 64); [done |]. pose proof (Z.pow_le_mono_r 2 64 l). lia.
Qed.

Lemma isolate_node l q :
  0 <= l -> 0 <= q -> node l q < 2 ^ 64 - 1 -> isolate_rightmost_zero_bit (node l q) = 2 ^ l.
Proof.
  intros Hl Hq Hn. pose proof (node_level_bound l q Hl Hq Hn) as Hl64. pose proof (node_nonneg l q Hl Hq).
  unfold isolate_rightmost_zero_bit, overflowing_add. cbn [fst].
  rewrite Z.mod_small by lia.
  apply Z.bits_inj'. intros i Hi. rewrite Z.land_spec, pow2_testbit by done.
  assert (node l q + 1 = 2 ^ l * (2 * q + 1)) as ->
    by (unfold node; rewrite pow2_succ by lia; lia).
  destruct (Z.ltb_spec i 64) as [Hi64 | Hi64].
  - rewrite bnot_testbit by (try split; lia). rewrite node_testbit by done.
    rewrite Z.mul_comm, <- Z.shiftl_mul_pow2 by done. rewrite Z.shiftl_spec by done.
    destruct (Z.ltb_spec i l); [by destruct (Z.eqb_spec i l); [lia |] |].
    destruct (Z.eqb_spec i l) as [-> |]; [by rewrite Z.sub_diag, Z.testbit_odd_0 |].
    rewrite testbit_odd_pred by lia. by destruct (Z.testbit q (i - l - 1)).
  - destruct (Z.eqb_spec i l); [lia |]. apply andb_false_intro1.
    apply (proj2 (proj1 (is_word_testbit 64 (bnot 64 (node l q)) ltac:(lia)) ltac:(unfold is_word, bnot; lia))). lia.
Qed.

Lemma land_pow2_neg l q : 0 <= l -> Z.land (2 ^ l * (2 * q + 1)) (- (2 ^ l * (2 * q + 1))) = 2 ^ l.
Proof.
  intros Hl. apply Z.bits_inj'. intros i Hi. rewrite Z.land_spec, pow2_testbit by done.
  rewrite <- Z.mul_opp_r. rewrite !(Z.mul_comm (2 ^ l)), <- !Z.shiftl_mul_pow2 by done.
  rewrite !Z.shiftl_spec by done.
  destruct (Z.ltb_spec i l).
  { rewrite !(Z.testbit_neg_r _ (i - l)) by lia. by destruct (Z.eqb_spec i l); [lia |]. }
  replace (- (2 * q + 1)) with (2 * (- q - 1) + 1) by lia.
  destruct (Z.eqb_spec i l) as [-> |]; [by rewrite Z.sub_diag, !Z.testbit_odd_0 |].
  rewrite !testbit_odd_pred by lia.
  replace (- q - 1) with (Z.lnot q) by (unfold Z.lnot; lia). rewrite Z.lnot_spec by lia.
  by destruct (Z.testbit q (i - l - 1)).
Qed.

Lemma trailing_zeros_odd l q : 0 <= l -> trailing_zeros64 (2 ^ l * (2 * q + 1)) = l.
Proof.
  intros Hl. pose proof (pow2_pos l Hl). unfold trailing_zeros64.
  destruct (Z.eqb_spec (2 ^ l * (2 * q + 1)) 0) as [E |]; [apply Z.eq_mul_0 in E; lia |]. rewrite land_pow2_neg by done. by apply Z.log2_pow2.
Qed.

Lemma level_node l q : 0 <= l -> 0 <= q -> node l q < 2 ^ 64 - 1 -> level (node l q) = l.
Proof.
  intros Hl Hq Hn. pose proof (node_level_bound l q Hl Hq Hn). unfold level, bnot.
  replace (2 ^ 64 - 1 - node l q) with (2 ^ l * (2 * (2 ^ (63 - l) - q - 1) + 1)); [by apply trailing_zeros_odd |].
  assert (2 ^ 64 = 2 ^ l * (2 * 2 ^ (63 - l))) as ->.
  { rewrite <- pow2_succ, <- Z.pow_add_r by lia. f_equal. lia. }
  unfold node. rewrite pow2_succ by lia. lia.
Qed.

(** ** Navigation *)

Lemma shl_pow2 l n : 0 <= l -> 0 <= n -> l + n < 64 -> shl 64 (2 ^ l) n = 2 ^ (l + n).
Proof.
  intros Hl Hn Hln. unfold shl. rewrite Z.shiftl_mul_pow2, <- Z.pow_add_r by done.
  apply Z.mod_small. split; [apply Z.lt_le_incl, pow2_pos; lia | apply Z.pow_lt_mono_r; lia].
Qed.

Lemma in_tree_spec p : in_tree p = true <-> p < 2 ^ 64 - 2.
Proof. unfold in_tree, U64_MAX. rewrite Z.ltb_lt. lia. Qed.

Lemma node_word l q : wf_node l q -> is_word 64 (node l q) /\ l < 64.
Proof.
  intros (Hl & Hq & Hn). split; [split; [by apply node_nonneg | lia] |].
  apply (node_level_bound l q); [done.. | lia].
Qed.

Lemma node_high_bits l q i : wf_node l q -> 64 <= i -> Z.testbit q (i - l - 1) = false.
Proof.
  intros Hwf Hi. destruct (node_word l q Hwf) as [Hw Hl64]. destruct Hwf as (Hl & Hq & Hn).
  pose proof (proj2 (proj1 (is_word_testbit 64 (node l q) ltac:(lia)) Hw) i Hi) as Hb.
  rewrite node_testbit in Hb by lia. destruct (Z.ltb_spec i l); [lia |]. by destruct (Z.eqb_spec i l); [lia |].
Qed.

(** Comparing two words bit by bit, the low 64 and the others *)
Lemma bits_split_64 x y :
  (forall i, 0 <= i < 64 -> Z.testbit x i = Z.testbit y i) ->
  (forall i, 64 <= i -> Z.testbit x i = Z.testbit y i) -> x = y.
Proof. intros Hlow Hhigh. apply Z.bits_inj'. intros i Hi. destruct (Z.ltb_spec i 64); auto. Qed.

Lemma bnot_pow2_bits n i : 0 <= n -> 0 <= i < 64 -> Z.testbit (bnot 64 (2 ^ n mod 2 ^ 64)) i = negb (i =? n).
Proof.
  intros Hn Hi. rewrite bnot_testbit by (try apply Z.mod_pos_bound; lia).
  by rewrite Z.mod_pow2_bits_low, pow2_testbit by lia.
Qed.

Lemma bnot_high_bits x i : is_word 64 x -> 64 <= i -> Z.testbit (bnot 64 x) i = false.
Proof.
  intros Hx Hi. refine (proj2 (proj1 (is_word_testbit 64 (bnot 64 x) ltac:(lia)) _) i Hi).
  unfold is_word, bnot in *. lia.
Qed.

Lemma mod_word x : is_word 64 (x mod 2 ^ 64).
Proof. apply Z.mod_pos_bound. lia. Qed.

Lemma shl_isolate l q : wf_node l q -> shl 64 (isolate_rightmost_zero_bit (node l q)) 1 = 2 ^ (l + 1) mod 2 ^ 64.
Proof.
  intros (Hl & Hq & Hn). rewrite isolate_node by lia. unfold shl. by rewrite Z.shiftl_mul_pow2, <- Z.pow_add_r by lia.
Qed.

Ltac cmp_bits :=
  repeat match goal with
  | |- context [?a <? ?b] => destruct (Z.ltb_spec a b); try lia
  | |- context [?a =? ?b] => destruct (Z.eqb_spec a b); try lia
  end.

Lemma half_testbit q i : 0 <= i -> Z.testbit (q / 2) i = Z.testbit q (i + 1).
Proof. intros. rewrite <- Z.div2_div, Z.div2_spec, Z.shiftr_spec by done. done. Qed.

Lemma double_testbit q b i : 0 <= i -> Z.testbit (2 * q + Z.b2z b) i = if i =? 0 then b else Z.testbit q (i - 1).
Proof.
  intros. destruct (Z.eqb_spec i 0) as [-> |].
  - rewrite Z.add_comm. by rewrite Z.add_b2z_double_bit0.
  - replace i with (Z.succ (i - 1)) at 1 by lia. by rewrite Z.testbit_succ_r by lia.
Qed.

Lemma parent_node {E} l q : wf_node l q -> @parent E (node l q) = Ok (node (l + 1) (q / 2)).
Proof.
  intros Hwf. pose proof (node_word l q Hwf) as [Hw Hl64]. unfold parent.
  rewrite (proj2 (in_tree_spec _)) by apply Hwf. cbn. f_equal. rewrite shl_isolate by done.
  pose proof Hwf as (Hl & Hq & Hn). rewrite isolate_node by lia. apply bits_split_64; intros i Hi.
  - rewrite Z.land_spec, Z.lor_spec, bnot_pow2_bits, pow2_testbit, !node_testbit by lia.
    cmp_bits; cbn; try done.
    rewrite half_testbit, orb_false_r, andb_true_r by lia. f_equal. lia.
  - rewrite Z.land_spec, bnot_high_bits, andb_false_r, node_testbit by (try apply mod_word; lia).
    cmp_bits; try done. rewrite half_testbit by lia.
    rewrite <- (node_high_bits l q i) by done. f_equal. lia.
Qed.

Lemma is_leaf_node l q : 0 <= l -> is_leaf (node l q) = (l =? 0).
Proof.
  intros Hl. unfold is_leaf. assert (Z.land (node l q) 1 = Z.b2z (Z.testbit (node l q) 0)) as ->.
  { change 1 with (Z.ones 1). rewrite Z.land_ones, Z.bit0_mod by lia. done. }
  rewrite node_testbit by lia. destruct (Z.eqb_spec l 0) as [-> |]; [done |]. destruct (Z.ltb_spec 0 l); [done | lia].
Qed.

Definition dir_bit (d : NodeDirection) : bool := match d with Left => false | Right => true end.

(** The children of an inner node *)
Lemma child_node {E} l q d :
  wf_node l q -> 0 < l -> @child E (node l q) d = Ok (node (l - 1) (2 * q + Z.b2z (dir_bit d))).
Proof.
  intros Hwf Hl0. pose proof (node_word l q Hwf) as [Hw Hl64]. pose proof Hwf as (Hl & Hq & Hn). unfold child.
  rewrite is_leaf_node, (proj2 (Z.eqb_neq l 0)), (proj2 (in_tree_spec _)) by lia. cbn [negb rust_assert result_bind].
  f_equal. rewrite isolate_node by lia. unfold shr. rewrite Z.shiftr_div_pow2 by lia.
  replace (2 ^ l / 2 ^ 1) with (2 ^ (l - 1) mod 2 ^ 64).
  2:{ rewrite Z.mod_small by (split; [apply Z.lt_le_incl, pow2_pos | apply Z.pow_lt_mono_r]; lia).
      rewrite <- Z.pow_sub_r by lia. done. }
  apply bits_split_64; intros i Hi.
  - rewrite Z.land_spec, Z.lor_spec, bnot_pow2_bits, !node_testbit by lia.
    assert (Z.testbit match d with Left => 0 | Right => 2 ^ l end i = dir_bit d && (i =? l)) as ->.
    { destruct d; cbn; [apply Z.testbit_0_l | by apply pow2_testbit]. }
    cmp_bits; cbn; rewrite ?andb_true_r, ?andb_false_r, ?orb_false_r; try done; rewrite double_testbit by lia; cmp_bits.
    + done.
    + f_equal. lia.
  - rewrite Z.land_spec, bnot_high_bits, andb_false_r, node_testbit by (try apply mod_word; lia).
    cmp_bits. rewrite double_testbit by lia. cmp_bits.
    rewrite <- (node_high_bits l q i) by done. f_equal. lia.
Qed.

Lemma left_right_child_node {E} l q :
  wf_node l q -> 0 < l ->
  @left_child E (node l q) = Ok (node (l - 1) (2 * q)) /\ @right_child E (node l q) = Ok (node (l - 1) (2 * q + 1)).
Proof.
  intros Hwf Hl. unfold left_child, right_child. rewrite is_leaf_node, (proj2 (Z.eqb_neq l 0)) by lia.
  cbn [negb rust_assert result_bind]. rewrite !child_node by done. cbn. by rewrite Z.add_0_r.
Qed.

Lemma land_pow2_eqb x n : 0 <= n -> (Z.land x (2 ^ n) =? 0) = negb (Z.testbit x n).
Proof.
  intros Hn. destruct (Z.testbit x n) eqn:Hb; cbn.
  - apply Z.eqb_neq. intros H. apply (f_equal (fun y => Z.testbit y n)) in H.
    rewrite Z.land_spec, Hb, pow2_testbit, Z.eqb_refl, Z.testbit_0_l in H by done. done.
  - apply Z.eqb_eq. apply Z.bits_inj'. intros i Hi. rewrite Z.land_spec, pow2_testbit, Z.testbit_0_l by done.
    destruct (Z.eqb_spec i n) as [-> |]; [by rewrite Hb | apply andb_false_r].
Qed.

Lemma top_level_zero q : wf_node 63 q -> q = 0.
Proof. intros (Hl & Hq & Hn). unfold node in Hn. simpl in Hn. lia. Qed.

Lemma is_left_child_node {E} l q : wf_node l q -> @is_left_child E (node l q) = Ok (Z.even q).
Proof.
  intros Hwf. pose proof (node_word l q Hwf) as [Hw Hl64]. unfold is_left_child.
  rewrite (proj2 (in_tree_spec _)) by apply Hwf. cbn [rust_assert result_bind]. f_equal. rewrite shl_isolate by done.
  destruct (Z.eqb_spec l 63) as [-> | Hne].
  - by rewrite (top_level_zero q Hwf).
  - pose proof Hwf as (Hl & Hq & Hn).
    rewrite Z.mod_small by (split; [apply Z.lt_le_incl, pow2_pos | apply Z.pow_lt_mono_r]; lia).
    rewrite land_pow2_eqb, node_testbit by lia. cmp_bits.
    replace (l + 1 - l - 1) with 0 by lia. by rewrite Z.bit0_odd, Z.negb_odd.
Qed.

Lemma lxor_1_testbit q i : 0 <= i -> Z.testbit (Z.lxor q 1) i = if i =? 0 then negb (Z.testbit q i) else Z.testbit q i.
Proof.
  intros Hi. rewrite Z.lxor_spec. change 1 with (2 ^ 0). rewrite pow2_testbit by lia.
  destruct (Z.eqb_spec i 0), (Z.testbit q i); done.
Qed.

Lemma sibling_node {E} l q : wf_node l q -> l < 63 -> @sibling E (node l q) = Ok (node l (Z.lxor q 1)).
Proof.
  intros Hwf Hl63. pose proof Hwf as (Hl & Hq & Hn). unfold sibling.
  rewrite (proj2 (in_tree_spec _)) by done. cbn [rust_assert result_bind]. f_equal. rewrite shl_isolate by done.
  rewrite Z.mod_small by (split; [apply Z.lt_le_incl, pow2_pos | apply Z.pow_lt_mono_r]; lia).
  apply Z.bits_inj'. intros i Hi. rewrite Z.lxor_spec, pow2_testbit, !node_testbit by lia.
  cmp_bits; rewrite ?xorb_false_r; try done; rewrite lxor_1_testbit by lia; cmp_bits; [| done].
  by rewrite xorb_true_r.
Qed.

Lemma from_level_and_pos_node {E} l q :
  0 <= l -> 0 <= q -> node l q < 2 ^ 64 - 1 -> @from_level_and_pos E l q = Ok (node l q).
Proof.
  intros Hl Hq Hn. pose proof (node_level_bound l q Hl Hq Hn) as Hl64. unfold from_level_and_pos.
  pose proof (pow2_pos l Hl). pose proof (pow2_pos (l + 1) ltac:(lia)).
  rewrite (proj2 (Z.ltb_lt l 64)) by lia. cbn [rust_assert result_bind].
  replace (shl 64 1 l) with (2 ^ l) by (change 1 with (2 ^ 0); rewrite shl_pow2 by lia; f_equal; lia).
  rewrite (proj2 (Z.ltb_lt 0 (2 ^ l))) by lia. cbn [rust_assert result_bind]. unfold checked_sub.
  rewrite (proj2 (Z.leb_le 1 (2 ^ l))) by lia. cbn [result_bind]. f_equal.
  replace (if l =? 63 then 0 else shl 64 q (l + 1)) with (Z.shiftl q (l + 1)).
  - rewrite Z.sub_1_r, <- Z.ones_equiv. apply Z.bits_inj'. intros i Hi.
    rewrite Z.lor_spec, Z.shiftl_spec, Z.testbit_ones_nonneg, node_testbit by lia.
    cmp_bits; rewrite ?orb_true_r, ?orb_false_r; try done.
    + rewrite Z.testbit_neg_r by lia. done.
    + f_equal. lia.
  - destruct (Z.eqb_spec l 63) as [-> |]; rewrite Z.shiftl_mul_pow2 by lia.
    + unfold node in Hn. simpl in Hn. replace q with 0 by lia. done.
    + unfold shl. rewrite Z.shiftl_mul_pow2 by lia. symmetry. apply Z.mod_small. unfold node in Hn. nia.
Qed.

(** ** Roots *)

(** [w] has bit [i] when [v] has one of the [n] bits from [i] up. *)
Definition smeared (n v w : Z) : Prop :=
  forall i, 0 <= i -> Z.testbit w i = true <-> exists j, 0 <= j < n /\ Z.testbit v (i + j) = true.

Lemma smeared_step n v w : 0 < n -> smeared n v w -> smeared (2 * n) v (Z.lor w (shr w n)).
Proof.
  intros Hn Hw i Hi. unfold shr. rewrite Z.lor_spec, Z.shiftr_spec, orb_true_iff, (Hw i Hi), (Hw (i + n) ltac:(lia)) by lia. split.
  - intros [(j & Hj & Hb) | (j & Hj & Hb)]; [exists j | exists (n + j)]; (split; [lia |]);
      rewrite <- ?Z.add_assoc in Hb; done.
  - intros (j & Hj & Hb). destruct (Z.ltb_spec j n); [left; exists j; by split; [lia |] | right].
    exists (j - n). split; [lia |]. rewrite <- Hb. f_equal. lia.
Qed.

Lemma smear_smeared v : smeared 64 v (smear_ones_for_u64 v).
Proof.
  unfold smear_ones_for_u64.
  do 6 (apply (smeared_step 32) || apply (smeared_step 16) || apply (smeared_step 8) ||
        apply (smeared_step 4) || apply (smeared_step 2) || apply (smeared_step 1); [lia |]).
  intros i Hi. split; [intros; exists 0; rewrite Z.add_0_r; split; [lia | done] |].
  intros (j & Hj & Hb). replace j with 0 in Hb by lia. by rewrite Z.add_0_r in Hb.
Qed.

Lemma smear_ones_spec v : 0 < v < 2 ^ 64 -> smear_ones_for_u64 v = Z.ones (Z.log2 v + 1).
Proof.
  intros Hv. pose proof (Z.log2_nonneg v). assert (Z.log2 v < 64) by (apply Z.log2_lt_pow2; lia).
  apply Z.bits_inj'. intros i Hi. rewrite Z.testbit_ones_nonneg by lia. apply eq_true_iff_eq.
  rewrite (smear_smeared v i Hi), Z.ltb_lt. split.
  - intros (j & Hj & Hb). destruct (Z.ltb_spec i (Z.log2 v + 1)); [done |].
    rewrite Z.bits_above_log2 in Hb by lia. done.
  - intros Hlt. exists (Z.log2 v - i). split; [lia |]. replace (i + (Z.log2 v - i)) with (Z.log2 v) by lia.
    apply Z.bit_log2. lia.
Qed.

Lemma node_0 l : node l 0 = Z.ones l.
Proof. unfold node. rewrite Z.ones_equiv. lia. Qed.

Lemma node_leaf q : node 0 q = 2 * q.
Proof. unfold node. simpl. lia. Qed.

Lemma shr_ones n : 0 < n -> shr (Z.ones n) 1 = Z.ones (n - 1).
Proof.
  intros Hn. apply Z.bits_inj'. intros i Hi. unfold shr.
  rewrite Z.shiftr_spec, !Z.testbit_ones_nonneg by lia. cmp_bits; done.
Qed.

(** [root_from_leaf_count]: the root of the smallest tree with room for the leaves *)
Lemma root_from_leaf_count_node {E} n :
  0 < n <= 2 ^ 63 -> @root_from_leaf_count E n = Ok (node (Z.log2_up n) 0).
Proof.
  intros Hn. unfold root_from_leaf_count, root_from_leaf_index, from_leaf_index.
  rewrite (proj2 (Z.ltb_lt 0 n)) by lia. cbn [rust_assert result_bind].
  rewrite from_level_and_pos_node by (rewrite ?node_leaf; lia). cbn [result_bind]. f_equal.
  rewrite node_leaf, node_0. destruct (Z.eqb_spec n 1) as [-> |]; [done |].
  rewrite smear_ones_spec, shr_ones by (pose proof (Z.log2_nonneg (2 * (n - 1))); lia).
  rewrite Z.log2_double, Z.log2_up_eqn by lia. f_equal. rewrite <- Z.sub_1_r. lia.
Qed.

Lemma root_level_from_leaf_count_spec {E} n :
  0 < n <= 2 ^ 63 -> @root_level_from_leaf_count E n = Ok (Z.log2_up n).
Proof.
  intros Hn. unfold root_level_from_leaf_count, MAX_ACCUMULATOR_PROOF_DEPTH.
  rewrite (proj2 (Z.ltb_lt 0 n)) by lia. cbn [rust_assert result_bind]. f_equal. unfold leading_zeros64.
  destruct (Z.eqb_spec n 1) as [-> |]; [done |]. destruct (Z.eqb_spec (n - 1) 0); [lia |].
  rewrite Z.log2_up_eqn, <- Z.sub_1_r by lia. lia.
Qed.

(** ** The leaves under a node *)

Lemma checked_shl_1 {E} l : 0 <= l < 64 -> @checked_shl E 1 l = Ok (2 ^ l).
Proof.
  intros Hl. unfold checked_shl. rewrite (proj2 (Z.ltb_lt l 64)) by lia. f_equal.
  change 1 with (2 ^ 0). by rewrite shl_pow2 by lia.
Qed.

Lemma right_most_child_node {E} l q :
  wf_node l q -> l < 63 -> (q + 1) * 2 ^ l <= 2 ^ 63 -> @right_most_child E (node l q) = Ok (node 0 ((q + 1) * 2 ^ l - 1)).
Proof.
  intros (Hl & Hq & Hn) Hl63 Hr. unfold right_most_child. rewrite level_node, checked_shl_1 by lia. cbn [result_bind].
  unfold checked_add, checked_sub. rewrite node_leaf. pose proof (pow2_pos l Hl) as Hp. pose proof (pow2_succ l Hl) as Hs.
  assert (node l q + 2 ^ l = 2 * ((q + 1) * 2 ^ l) - 1) as -> by (unfold node; rewrite Hs; lia).
  rewrite (proj2 (Z.ltb_lt _ _)) by lia. cbn [result_bind]. assert (1 <= (q + 1) * 2 ^ l) by nia.
  rewrite (proj2 (Z.leb_le _ _)) by lia. f_equal. lia.
Qed.

Lemma left_most_child_node {E} l q : wf_node l q -> @left_most_child E (node l q) = Ok (node 0 (q * 2 ^ l)).
Proof.
  intros Hwf. destruct (node_word l q Hwf) as [Hw Hl64]. destruct Hwf as (Hl & Hq & Hn).
  unfold left_most_child, turn_off_right_most_n_bits, checked_shr, checked_shl. rewrite level_node by lia.
  rewrite (proj2 (Z.ltb_lt l 64)) by lia. cbn [result_bind]. f_equal.
  pose proof (pow2_pos l Hl) as Hp. pose proof (pow2_succ l Hl) as Hs.
  unfold shl, shr. rewrite Z.shiftr_div_pow2, Z.shiftl_mul_pow2 by done.
  assert (node l q / 2 ^ l = 2 * q) as ->.
  { symmetry. apply Z.div_unique_pos with (2 ^ l - 1); [lia |]. unfold node. rewrite Hs. lia. }
  rewrite node_leaf, Z.mod_small; [lia |]. unfold node in Hn. rewrite Hs in Hn. nia.
Qed.

(** A node is freezable once its last leaf is there, a placeholder while its first one is not. *)
Lemma is_freezable_node {E} l q i :
  wf_node l q -> l < 63 -> (q + 1) * 2 ^ l <= 2 ^ 63 -> 0 <= i < 2 ^ 63 -> 
  @is_freezable E (node l q) i = Ok ((q + 1) * 2 ^ l <=? i + 1).
Proof.
  intros Hwf Hl63 Hr Hi. unfold is_freezable, from_leaf_index. 
  rewrite from_level_and_pos_node by (rewrite ?node_leaf; lia). rewrite right_most_child_node by done. cbn [result_bind].
  f_equal. rewrite !node_leaf. destruct (Z.leb_spec ((q + 1) * 2 ^ l) (i + 1)).
  - apply Z.leb_le. lia.
  - apply Z.leb_gt. lia.
Qed.

Lemma is_placeholder_node {E} l q i :
  wf_node l q -> 0 <= i < 2 ^ 63 -> @is_placeholder E (node l q) i = Ok (i <? q * 2 ^ l).
Proof.
  intros Hwf Hi. unfold is_placeholder, from_leaf_index.
  rewrite from_level_and_pos_node by (rewrite ?node_leaf; lia). cbn [result_bind].
  rewrite left_most_child_node by done. cbn [result_bind]. rewrite !node_leaf.
  assert (2 * (q * 2 ^ l) <= node l q).
  { destruct Hwf as (Hl & Hq & Hn). pose proof (pow2_pos l Hl). unfold node. rewrite pow2_succ by done. lia. }
  destruct (Z.leb_spec (node l q) (2 * i)), (Z.ltb_spec i (q * 2 ^ l)); try lia; try done;
    destruct (Z.leb_spec (2 * (q * 2 ^ l)) (2 * i)); try lia; done.
Qed.

(** ** Post-order *)

Lemma count_ones_double q b : 0 <= q -> count_ones (2 * q + Z.b2z b) = Z.b2z b + count_ones q.
Proof. intros Hq. destruct q as [| q | q]; [by destruct b | by destruct b | lia]. Qed.

Lemma halve q : 0 <= q -> exists r b, q = 2 * r + Z.b2z b /\ 0 <= r.
Proof.
  intros Hq. exists (Z.div2 q), (Z.odd q). split; [apply Z.div2_odd |]. rewrite Z.div2_div. apply Z.div_pos; lia.
Qed.

Lemma count_ones_bounds q : 0 <= q -> 0 <= count_ones q <= q.
Proof.
  intros Hq. destruct q as [| p | p]; [done | | lia]. induction p as [p IH | p IH |]; cbn in *; lia.
Qed.

Lemma count_ones_shift q l : 0 <= q -> 0 <= l -> count_ones (q * 2 ^ l) = count_ones q.
Proof.
  intros Hq Hl. revert l Hl. apply natlike_ind; [f_equal; lia |]. intros l Hl IH.
  rewrite Z.pow_succ_r by done. replace (q * (2 * 2 ^ l)) with (2 * (q * 2 ^ l) + Z.b2z false) by (cbn; lia).
  rewrite count_ones_double by (pose proof (pow2_pos l Hl); nia). done.
Qed.

Lemma count_ones_top q k : 0 <= k -> 0 <= q < 2 ^ k -> count_ones (q + 2 ^ k) = count_ones q + 1.
Proof.
  intros Hk. revert q. pattern k. revert k Hk. apply natlike_ind.
  - intros q Hq. replace q with 0 by (simpl in Hq; lia). done.
  - intros k Hk IH q Hq. rewrite Z.pow_succ_r in * by done. destruct (halve q) as (r & b & -> & Hr); [lia |].
    replace (2 * r + Z.b2z b + 2 * 2 ^ k) with (2 * (r + 2 ^ k) + Z.b2z b) by lia.
    rewrite !count_ones_double, IH by (destruct b; cbn in *; lia). lia.
Qed.

(** The number of nodes that a post-order traversal visits before the node *)
Definition postorder (l q : Z) : Z := q * 2 ^ (l + 1) - count_ones q + (2 ^ (l + 1) - 2).

Lemma to_postorder_index_node {E} l q :
  wf_node l q -> l < 63 -> (q + 1) * 2 ^ (l + 1) <= 2 ^ 64 -> @to_postorder_index E (node l q) = Ok (postorder l q).
Proof.
  intros (Hl & Hq & Hn) Hl63 Hr. pose proof (pow2_pos l Hl) as Hp. pose proof (pow2_succ l Hl) as Hs.
  pose proof (count_ones_bounds q Hq) as Hc.
  unfold to_postorder_index, inorder_to_postorder, children_of_node, nodes_to_left_of.
  rewrite isolate_node, shl_pow2 by lia. unfold checked_sub, checked_add.
  rewrite (proj2 (Z.leb_le 2 (2 ^ (l + 1)))), (proj2 (Z.leb_le 1 (2 ^ l))) by lia. cbn [result_bind].
  assert (Z.lxor (node l q) (2 ^ l - 1) = q * 2 ^ (l + 1)) as ->.
  { rewrite Z.sub_1_r, <- Z.ones_equiv, <- Z.shiftl_mul_pow2 by lia. apply Z.bits_inj'. intros i Hi.
    rewrite Z.lxor_spec, Z.testbit_ones_nonneg, Z.shiftl_spec, node_testbit by lia.
    cmp_bits; rewrite ?xorb_false_r; try by rewrite Z.testbit_neg_r by lia. f_equal. lia. }
  rewrite count_ones_shift by lia. rewrite (proj2 (Z.leb_le _ _)) by nia. cbn [result_bind].
  unfold postorder. rewrite (proj2 (Z.ltb_lt _ _)) by lia. f_equal. lia.
Qed.

(** A node comes right after its right child. *)
Lemma postorder_parent l q : 0 <= l -> 0 <= q -> postorder (l + 1) q = postorder l (2 * q + 1) + 1.
Proof.
  intros Hl Hq. unfold postorder. change (2 * q + 1) with (2 * q + Z.b2z true).
  rewrite count_ones_double, (pow2_succ (l + 1)) by lia. cbn [Z.b2z]. lia.
Qed.

Lemma ones_lor_top b n : 0 <= n -> Z.lor (b * 2 ^ (n + 1)) (2 ^ n) = (2 * b + 1) * 2 ^ n.
Proof.
  intros Hn. rewrite <- !Z.shiftl_mul_pow2 by lia. apply Z.bits_inj'. intros i Hi.
  rewrite Z.lor_spec, pow2_testbit, !Z.shiftl_spec by lia. cmp_bits.
  - subst. by rewrite Z.sub_diag, Z.testbit_odd_0, orb_true_r by lia.
  - rewrite orb_false_r. destruct (Z.ltb_spec i n).
    + by rewrite !Z.testbit_neg_r by lia.
    + rewrite (testbit_odd_pred b (i - n)) by lia. f_equal. lia.
Qed.

(** The loop of [postorder_to_inorder] below the level: it takes every subtree size. *)
Lemma postorder_loop_tail (n : nat) l b :
  Z.of_nat n <= l -> (n <= 64)%nat ->
  postorder_loop n (l + 2 ^ (Z.of_nat n + 1) - 2 - Z.of_nat n) (2 ^ Z.of_nat n - 1) (b * 2 ^ Z.of_nat n)
  = (l, b * 2 ^ Z.of_nat n + (2 ^ Z.of_nat n - 1)).
Proof.
  revert b. induction n as [| n IH]; intros b Hl Hn.
  - cbn. f_equal; lia.
  - cbn [postorder_loop]. rewrite Nat2Z.inj_succ in *. unfold Z.succ in *. set (m := Z.of_nat n) in *.
    pose proof (pow2_pos m ltac:(lia)) as Hp. pose proof (pow2_succ m ltac:(lia)) as Hs.
    rewrite (pow2_succ (m + 1)) by lia. rewrite (proj2 (Z.leb_le _ _)) by lia.
    replace (shl 64 1 m) with (2 ^ m) by (change 1 with (2 ^ 0); by rewrite shl_pow2 by lia).
    rewrite ones_lor_top by lia.
    replace (shr (2 ^ (m + 1) - 1) 1) with (2 ^ m - 1).
    2:{ rewrite !Z.sub_1_r, <- !Z.ones_equiv, shr_ones by lia. f_equal. lia. }
    specialize (IH (2 * b + 1) ltac:(lia) ltac:(lia)).
    replace (l + 2 * 2 ^ (m + 1) - 2 - (m + 1) - (2 ^ (m + 1) - 1)) with (l + 2 ^ (m + 1) - 2 - m) by lia.
    rewrite IH. f_equal. lia.
Qed.

(** Above it, the loop reads the bits of the index from the top. *)
Lemma postorder_loop_spec (n : nat) l q b :
  (n <= 64)%nat -> 0 <= l <= Z.of_nat n -> 0 <= q < 2 ^ (Z.of_nat n - l) ->
  postorder_loop n (postorder l q) (2 ^ Z.of_nat n - 1) (b * 2 ^ Z.of_nat n)
  = (l, b * 2 ^ Z.of_nat n + (q * 2 ^ l + (2 ^ l - 1))).
Proof.
  revert q b. induction n as [| n IH]; intros q b Hn Hl Hq.
  - replace l with 0 in * by lia. replace q with 0 by (simpl in Hq; lia). cbn. f_equal; lia.
  - destruct (Z.eqb_spec l (Z.of_nat (S n))) as [-> | Hne].
    { rewrite Z.sub_diag in Hq. replace q with 0 by (simpl in Hq; lia).
      rewrite <- postorder_loop_tail by lia. f_equal. unfold postorder. cbn [count_ones]. lia. }
    cbn [postorder_loop]. rewrite Nat2Z.inj_succ in *. unfold Z.succ in *. set (m := Z.of_nat n) in *.
    replace (shr (2 ^ (m + 1) - 1) 1) with (2 ^ m - 1).
    2:{ rewrite !Z.sub_1_r, <- !Z.ones_equiv, shr_ones by lia. f_equal. lia. }
    replace (shl 64 1 m) with (2 ^ m) by (change 1 with (2 ^ 0); by rewrite shl_pow2 by lia).
    rewrite ones_lor_top by lia. pose proof (count_ones_bounds q ltac:(lia)).
    replace (m + 1 - l) with (m - l + 1) in Hq by lia. rewrite pow2_succ in Hq by lia.
    assert (Hm : 2 ^ (m + 1) = 2 ^ (m - l) * 2 ^ (l + 1)) by (rewrite <- Z.pow_add_r by lia; f_equal; lia).
    pose proof (pow2_pos (l + 1) ltac:(lia)). pose proof (pow2_pos l ltac:(lia)). pose proof (pow2_succ l ltac:(lia)).
    pose proof (pow2_succ m ltac:(lia)).
    destruct (Z.ltb_spec q (2 ^ (m - l))) as [Hlt | Hge].
    + rewrite (proj2 (Z.leb_gt _ _)) by (unfold postorder; nia).
      replace (b * 2 ^ (m + 1)) with (2 * b * 2 ^ m) by lia. rewrite IH by lia. done.
    + pose proof (count_ones_top (q - 2 ^ (m - l)) (m - l) ltac:(lia) ltac:(lia)) as Htop.
      rewrite Z.sub_add in Htop. pose proof (count_ones_bounds (q - 2 ^ (m - l)) ltac:(lia)).
      rewrite (proj2 (Z.leb_le _ _)) by (unfold postorder; nia).
      replace (postorder l q - (2 ^ (m + 1) - 1)) with (postorder l (q - 2 ^ (m - l))) by (unfold postorder; nia).
      rewrite IH by lia. f_equal. nia.
Qed.

Lemma postorder_to_inorder_node {E} l q :
  0 <= l < 64 -> 0 <= q -> (q + 1) * 2 ^ (l + 1) <= 2 ^ 64 ->
  @postorder_to_inorder E (postorder l q) = Ok (node l q).
Proof.
  intros Hl Hq Hr. unfold postorder_to_inorder. 
  pose proof (pow2_pos l ltac:(lia)) as Hp. pose proof (pow2_succ l ltac:(lia)) as Hs.
  assert (Hm : 2 ^ 64 = 2 ^ (64 - l) * 2 ^ l) by (rewrite <- Z.pow_add_r by lia; f_equal; lia).
  pose proof (postorder_loop_spec 64 l q 0 ltac:(lia) ltac:(lia)) as Hloop. change (Z.of_nat 64) with 64 in Hloop.
  rewrite Z.mul_0_l in Hloop. unfold U64_MAX. rewrite Hloop by nia. rewrite Z.mod_small by lia.
  unfold checked_shr. rewrite (proj2 (Z.ltb_lt l 64)) by lia. cbn [result_bind].
  assert (shr (0 + (q * 2 ^ l + (2 ^ l - 1))) l = q) as ->.
  { unfold shr. rewrite Z.shiftr_div_pow2 by lia. symmetry. apply Z.div_unique_pos with (2 ^ l - 1); lia. }
  apply from_level_and_pos_node; [lia.. |]. unfold node. rewrite Hs in *. lia.
Qed.

(** ** The frozen subtrees *)

(** The roots of the full subtrees of [n] leaves, the largest first: one for each bit of [n] *)
Fixpoint peaks (k : nat) (n : Z) : list Z :=
  match k with
  | O => []
  | S k =>
      if Z.testbit n (Z.of_nat k)
      then node (Z.of_nat k) (2 * (n / 2 ^ (Z.of_nat k + 1))) :: peaks k n
      else peaks k n
  end.

Lemma mod_pow2_succ n k :
  0 <= k -> n mod 2 ^ (k + 1) = (if Z.testbit n k then 2 ^ k else 0) + n mod 2 ^ k.
Proof.
  intros Hk. pose proof (pow2_pos k Hk) as Hp. rewrite pow2_succ by done.
  rewrite (Z.mul_comm 2), Z.rem_mul_r by lia. rewrite <- Z.testbit_spec' by done.
  destruct (Z.testbit n k); cbn [Z.b2z]; lia.
Qed.

Lemma land_clear_top x k : 0 <= k < 64 -> 0 <= x < 2 ^ k -> Z.land (2 ^ k + x) (bnot 64 (2 ^ k)) = x.
Proof.
  intros Hk Hx. assert (Hb : 2 ^ k + x = Z.lor (2 ^ k) x).
  { apply Z.add_nocarry_lor. rewrite Z.land_comm. apply Z.eqb_eq. rewrite land_pow2_eqb by lia.
    by rewrite (proj2 (proj1 (is_word_testbit k x ltac:(lia)) Hx)) by lia. }
  rewrite Hb. apply bits_split_64; intros i Hi.
  - replace (2 ^ k) with (2 ^ k mod 2 ^ 64) at 2.
    2:{ apply Z.mod_small. split; [apply Z.lt_le_incl, pow2_pos | apply Z.pow_lt_mono_r]; lia. }
    rewrite Z.land_spec, Z.lor_spec, bnot_pow2_bits, pow2_testbit by lia.
    cmp_bits; cbn; rewrite ?andb_false_r, ?andb_true_r; [| done].
    rewrite (proj2 (proj1 (is_word_testbit k x ltac:(lia)) Hx)) by lia. done.
  - rewrite Z.land_spec, bnot_high_bits, andb_false_r by
      (try (split; [apply Z.lt_le_incl, pow2_pos | apply Z.pow_lt_mono_r]); lia).
    rewrite (proj2 (proj1 (is_word_testbit k x ltac:(lia)) Hx)) by lia. done.
Qed.

Lemma frozen_subtree_next_top {E} x s k :
  0 <= k < 63 -> 0 <= x < 2 ^ k -> 0 <= s -> s + 2 ^ k + x < 2 ^ 63 ->
  @frozen_subtree_next E (2 ^ k + x) s = Ok (Some (2 * s + (2 ^ k - 1)), (x, s + 2 ^ k)).
Proof.
  intros Hk Hx Hs Hsum. pose proof (pow2_pos k ltac:(lia)) as Hp. unfold frozen_subtree_next, U64_MAX.
  rewrite (proj2 (Z.ltb_lt _ _)) by lia. cbn [rust_assert result_bind]. rewrite (proj2 (Z.eqb_neq _ _)) by lia.
  assert (Z.log2 (2 ^ k + x) = k) as Hlog by (apply Z.log2_unique; rewrite <- ?Z.add_1_r, ?pow2_succ; lia).
  rewrite smear_ones_spec, Hlog, shr_ones by lia. replace (k + 1 - 1) with k by lia.
  rewrite Z.ones_equiv, <- Z.sub_1_r. rewrite (proj2 (Z.ltb_lt _ _)) by lia. cbn [rust_assert result_bind].
  unfold from_leaf_index. rewrite from_level_and_pos_node by (rewrite ?node_leaf; lia). cbn [result_bind].
  unfold checked_add. rewrite node_leaf, (proj2 (Z.ltb_lt _ _)) by lia. cbn [result_bind].
  replace (2 ^ k - 1 + 1) with (2 ^ k) by lia. rewrite (proj2 (Z.ltb_lt _ _)) by lia. cbn [result_bind].
  by rewrite land_clear_top by lia.
Qed.

Lemma frozen_subtrees_loop_spec {E} (k fuel : nat) n :
  (k <= 63)%nat -> (k < fuel)%nat -> 0 <= n < 2 ^ 63 ->
  @frozen_subtrees_loop E fuel (n mod 2 ^ Z.of_nat k) (n - n mod 2 ^ Z.of_nat k) = Ok (peaks k n).
Proof.
  intros Hk Hfuel Hn. revert fuel Hfuel. induction k as [| k IH]; intros fuel Hfuel.
  - destruct fuel as [| fuel]; [lia |]. cbn [frozen_subtrees_loop]. change (2 ^ Z.of_nat 0) with 1.
    rewrite Z.mod_1_r. unfold frozen_subtree_next, U64_MAX. rewrite (proj2 (Z.ltb_lt _ _)) by lia. done.
  - rewrite Nat2Z.inj_succ, <- Z.add_1_r, mod_pow2_succ by lia. cbn [peaks]. set (m := Z.of_nat k) in *.
    pose proof (pow2_pos m ltac:(lia)) as Hp. pose proof (Z.mod_pos_bound n (2 ^ m) ltac:(lia)) as Hb.
    pose proof (mod_pow2_succ n m ltac:(lia)) as Hmod.
    pose proof (Z.div_mod n (2 ^ (m + 1)) (Z.pow_nonzero 2 (m + 1) ltac:(lia) ltac:(lia))) as Hdiv. rewrite Hmod in Hdiv.
    assert (0 <= n / 2 ^ (m + 1)) by (apply Z.div_pos; [lia | apply pow2_pos; lia]).
    destruct (Z.testbit n m).
    + destruct fuel as [| fuel]; [lia |]. cbn [frozen_subtrees_loop].
      rewrite frozen_subtree_next_top by nia. cbn [result_bind].
      replace (n - (2 ^ m + n mod 2 ^ m) + 2 ^ m) with (n - n mod 2 ^ m) by lia.
      rewrite IH by lia. cbn [result_bind]. f_equal. f_equal. unfold node. lia.
    + rewrite Z.add_0_l. apply IH; lia.
Qed.

Lemma frozen_subtrees_spec {E} n : 0 <= n < 2 ^ 63 -> @frozen_subtrees E n = Ok (peaks 63 n).
Proof.
  intros Hn. unfold frozen_subtrees. rewrite <- (frozen_subtrees_loop_spec 63 65 n) by lia.
  change (Z.of_nat 63) with 63. rewrite Z.mod_small by lia. f_equal. lia.
Qed.

(** ** The subtrees between two leaf counts *)

(** The positions are roots of full subtrees whose leaves follow each other, from leaf [a] up to leaf [b]. *)
Inductive tiles : Z -> Z -> list Z -> Prop :=
  | tiles_nil a : tiles a a []
  | tiles_cons l q b ps :
      0 <= l -> 0 <= q -> tiles ((q + 1) * 2 ^ l) b ps -> tiles (q * 2 ^ l) b (node l q :: ps).

Lemma tiles_eq a b a' b' ps : a = a' -> b = b' -> tiles a b ps -> tiles a' b' ps.
Proof. by intros -> ->. Qed.

Lemma next_new_leaf_batch_spec {E} r :
  0 < r < 2 ^ 64 -> @next_new_leaf_batch E r = Ok (2 ^ Z.log2 r).
Proof.
  intros Hr. unfold next_new_leaf_batch, checked_sub, leading_zeros64, MAX_ACCUMULATOR_PROOF_DEPTH.
  pose proof (Z.log2_nonneg r). assert (Z.log2 r < 64) by (apply Z.log2_lt_pow2; lia).
  rewrite (proj2 (Z.eqb_neq r 0)), (proj2 (Z.leb_le _ _)) by lia. cbn [result_bind].
  rewrite checked_shl_1 by lia. f_equal. f_equal. lia.
Qed.

(** One item: a subtree of [2 ^ l] leaves from leaf [q * 2 ^ l] *)
Lemma frozen_sibling_step {E} l q r :
  0 <= l -> 0 <= q -> 2 ^ l <= r -> q * 2 ^ l + r <= 2 ^ 63 ->
  (let? sum := checked_add 64 (q * 2 ^ l) (2 ^ l) in
   let? last_leaf_index := checked_sub sum 1 in
   let? current_num_leaves := checked_add 64 (q * 2 ^ l) (2 ^ l) in
   let? remaining_new_leaves := checked_sub r (2 ^ l) in
   let? position := checked_add 64 (q * 2 ^ l) last_leaf_index in
   Ok (Some position, (current_num_leaves, remaining_new_leaves)) : result E _)
  = Ok (Some (node l q), ((q + 1) * 2 ^ l, r - 2 ^ l)).
Proof.
  intros Hl Hq Hr Hsum. pose proof (pow2_pos l Hl). unfold checked_add, checked_sub.
  assert (0 <= q * 2 ^ l) by nia.
  rewrite (proj2 (Z.ltb_lt (q * 2 ^ l + 2 ^ l) _)) by lia. cbn [result_bind].
  rewrite (proj2 (Z.leb_le 1 _)), (proj2 (Z.leb_le (2 ^ l) r)) by lia. cbn [result_bind].
  rewrite (proj2 (Z.ltb_lt _ _)) by lia. unfold node. rewrite pow2_succ by done.
  assert (q * 2 ^ l + (q * 2 ^ l + 2 ^ l - 1) = q * (2 * 2 ^ l) + (2 ^ l - 1)) as -> by lia.
  by replace (q * 2 ^ l + 2 ^ l) with ((q + 1) * 2 ^ l) by lia.
Qed.

Lemma odd_part n : 0 < n -> exists t q, 0 <= t /\ 0 <= q /\ n = (2 * q + 1) * 2 ^ t.
Proof.
  intros Hn. destruct (node_exists (n - 1) ltac:(lia)) as (t & q & Ht & Hq & Heq). exists t, q.
  unfold node in Heq. rewrite pow2_succ in Heq by done. repeat split; lia.
Qed.

Lemma frozen_sibling_next_up {E} t q r :
  0 <= t < 64 -> 0 <= q -> 0 < 2 ^ t <= r -> (2 * q + 1) * 2 ^ t + r <= 2 ^ 63 ->
  @frozen_sibling_next E ((2 * q + 1) * 2 ^ t) r = Ok (Some (node t (2 * q + 1)), ((2 * q + 2) * 2 ^ t, r - 2 ^ t)).
Proof.
  intros Ht Hq Hr Hsum. unfold frozen_sibling_next. rewrite (proj2 (Z.eqb_neq r 0)), (proj2 (Z.ltb_lt 0 _)) by nia.
  rewrite (Z.mul_comm _ (2 ^ t)), trailing_zeros_odd, (Z.mul_comm (2 ^ t)), checked_shl_1 by lia. cbn [result_bind].
  rewrite (proj2 (Z.leb_le _ _)) by lia. cbn [result_bind].
  rewrite frozen_sibling_step by lia. do 4 f_equal. lia.
Qed.

Lemma frozen_sibling_next_down {E} t q r b :
  0 <= t < 64 -> 0 <= q -> 0 < r < 2 ^ t -> (2 * q + 1) * 2 ^ t + r <= 2 ^ 63 -> b = Z.log2 r ->
  @frozen_sibling_next E ((2 * q + 1) * 2 ^ t) r
  = Ok (Some (node b ((2 * q + 1) * 2 ^ (t - b))), ((2 * ((2 * q + 1) * 2 ^ (t - b - 1)) + 1) * 2 ^ b, r - 2 ^ b)).
Proof.
  intros Ht Hq Hr Hsum ->. unfold frozen_sibling_next. rewrite (proj2 (Z.eqb_neq r 0)), (proj2 (Z.ltb_lt 0 _)) by nia.
  assert (Z.log2 r < t) by (apply Z.log2_lt_pow2; lia). pose proof (Z.log2_nonneg r). pose proof (Z.log2_spec r ltac:(lia)).
  rewrite (Z.mul_comm _ (2 ^ t)), trailing_zeros_odd, (Z.mul_comm (2 ^ t)), checked_shl_1 by lia. cbn [result_bind].
  rewrite (proj2 (Z.leb_gt _ _)), next_new_leaf_batch_spec by lia. cbn [result_bind].
  assert ((2 * q + 1) * 2 ^ t = (2 * q + 1) * 2 ^ (t - Z.log2 r) * 2 ^ Z.log2 r) as Heq.
  { rewrite <- Z.mul_assoc, <- Z.pow_add_r by lia. do 2 f_equal. lia. }
  rewrite Heq in *. rewrite frozen_sibling_step by (pose proof (pow2_pos (t - Z.log2 r)); nia).
  assert (2 ^ (t - Z.log2 r) = 2 * 2 ^ (t - Z.log2 r - 1)) as -> by (rewrite <- pow2_succ by lia; f_equal; lia).
  do 4 f_equal. lia.
Qed.

Lemma frozen_siblings_down {E} (fuel : nat) t q r :
  0 <= t < 64 -> 0 <= q -> 0 <= r < 2 ^ t -> (2 * q + 1) * 2 ^ t + r <= 2 ^ 63 -> t < Z.of_nat fuel ->
  exists ps, @frozen_siblings_loop E fuel ((2 * q + 1) * 2 ^ t) r = Ok ps /\
    tiles ((2 * q + 1) * 2 ^ t) ((2 * q + 1) * 2 ^ t + r) ps.
Proof.
  revert t q r. induction fuel as [| fuel IH]; intros t q r Ht Hq Hr Hsum Hfuel; [lia |]. cbn [frozen_siblings_loop].
  destruct (Z.eqb_spec r 0) as [-> | Hr0].
  { exists []. split; [done |]. rewrite Z.add_0_r. constructor. }
  set (b := Z.log2 r). rewrite (frozen_sibling_next_down t q r b) by (done || lia). cbn [result_bind].
  assert (b < t) by (apply Z.log2_lt_pow2; lia). pose proof (Z.log2_nonneg r : 0 <= b).
  pose proof (Z.log2_spec r ltac:(lia)) as Hlog. fold b in Hlog. rewrite Z.pow_succ_r in Hlog by done.
  assert ((2 * q + 1) * 2 ^ t = (2 * q + 1) * 2 ^ (t - b) * 2 ^ b) as Heq.
  { rewrite <- Z.mul_assoc, <- Z.pow_add_r by lia. do 2 f_equal. lia. }
  assert (2 ^ (t - b) = 2 * 2 ^ (t - b - 1)) as Hpow by (rewrite <- pow2_succ by lia; f_equal; lia).
  pose proof (pow2_pos (t - b - 1) ltac:(lia)).
  destruct (IH b ((2 * q + 1) * 2 ^ (t - b - 1)) (r - 2 ^ b)) as (ps & -> & Htiles);
    [lia | nia | lia | rewrite Heq, Hpow in Hsum; lia | lia |].
  eexists. split; [reflexivity |]. rewrite Heq. constructor; [done | rewrite Hpow; nia |].
  rewrite Hpow. refine (tiles_eq _ _ _ _ _ _ _ Htiles); lia.
Qed.

Lemma frozen_siblings_up {E} (fuel : nat) t q r :
  0 <= t -> 0 <= q -> 0 <= r -> (2 * q + 1) * 2 ^ t + r <= 2 ^ 63 -> 129 - t <= Z.of_nat fuel ->
  exists ps, @frozen_siblings_loop E fuel ((2 * q + 1) * 2 ^ t) r = Ok ps /\
    tiles ((2 * q + 1) * 2 ^ t) ((2 * q + 1) * 2 ^ t + r) ps.
Proof.
  revert t q r. induction fuel as [| fuel IH]; intros t q r Ht Hq Hr Hsum Hfuel; pose proof (pow2_pos t Ht) as Hp;
    (assert (t <= 63) as Ht63 by (apply (Z.pow_le_mono_r_iff 2); [lia.. | nia])); [lia |].
  destruct (Z.ltb_spec r (2 ^ t)) as [Hdown | Hup]; [apply frozen_siblings_down; lia |].
  cbn [frozen_siblings_loop]. rewrite frozen_sibling_next_up by lia. cbn [result_bind].
  destruct (odd_part (q + 1) ltac:(lia)) as (j & q' & Hj & Hq' & Heq).
  assert (Hnext : (2 * q + 2) * 2 ^ t = (2 * q' + 1) * 2 ^ (t + 1 + j)).
  { rewrite !Z.pow_add_r by lia. replace (2 * q + 2) with (2 * (q + 1)) by lia. rewrite Heq. lia. }
  destruct (IH (t + 1 + j) q' (r - 2 ^ t)) as (ps & Hps & Htiles); [lia.. | |].
  { destruct (Z.eqb_spec t 63); [subst; simpl in Hsum; lia | lia]. }
  rewrite Hnext, Hps. eexists. split; [reflexivity |]. constructor; [lia.. |].
  refine (tiles_eq _ _ _ _ _ _ _ Htiles); lia.
Qed.

(** [FrozenSubtreeSiblingIterator]: the subtrees that the new leaves freeze, in order *)
Lemma frozen_siblings_tiles {E} a b :
  0 <= a <= b -> b <= 2 ^ 63 -> exists ps, @frozen_siblings E a b = Ok ps /\ tiles a b ps.
Proof.
  intros Hab Hb. unfold frozen_siblings, MAX_ACCUMULATOR_LEAVES.
  rewrite !(proj2 (Z.leb_le _ _)) by lia. cbn [rust_assert result_bind].
  destruct (Z.eqb_spec a 0) as [-> | Ha].
  - change 129%nat with (S 128). remember 128%nat as fuel eqn:Hfuel. cbn [frozen_siblings_loop]. rewrite Z.sub_0_r. unfold frozen_sibling_next at 1.
    destruct (Z.eqb_spec b 0) as [-> | Hb0]; [exists []; split; [done | constructor] |].
    rewrite Z.ltb_irrefl, next_new_leaf_batch_spec by lia. cbn [result_bind].
    pose proof (Z.log2_spec b ltac:(lia)) as Hlog. pose proof (Z.log2_nonneg b) as Hl. rewrite Z.pow_succ_r in Hlog by done.
    pose proof (frozen_sibling_step (E := E) (Z.log2 b) 0 b Hl ltac:(lia) ltac:(lia) ltac:(lia)) as Hstep.
    rewrite Z.mul_0_l in Hstep. rewrite Hstep. cbn [result_bind].
    destruct (frozen_siblings_down (E := E) fuel (Z.log2 b) 0 (b - 2 ^ Z.log2 b)) as (ps & Hps & Htiles);
      [| lia.. | |]; try (assert (Z.log2 b < 64) by (apply Z.log2_lt_pow2; lia); lia).
    replace ((0 + 1) * 2 ^ Z.log2 b) with ((2 * 0 + 1) * 2 ^ Z.log2 b) by lia. rewrite Hps. eexists. split; [reflexivity |].
    refine (tiles_eq (0 * 2 ^ Z.log2 b) b 0 b _ ltac:(lia) ltac:(lia) _). constructor; [done.. |].
    refine (tiles_eq _ _ _ _ _ _ _ Htiles); lia.
  - destruct (odd_part a ltac:(lia)) as (t & q & Ht & Hq & ->).
    destruct (frozen_siblings_up (E := E) 129 t q (b - (2 * q + 1) * 2 ^ t)) as (ps & Hps & Htiles); [lia.. |].
    exists ps. split; [exact Hps |]. refine (tiles_eq _ _ _ _ _ _ _ Htiles); lia.
Qed.

(** The position arithmetic of the transaction accumulator is that of an in-order numbered
    binary tree. For the node at level [l] and index [q] of the level: its parent, its children,
    its sibling and the leaves below it are those of the tree, the parent's post-order number
    follows the right child's, and post-order numbers convert back to the position they came
    from. *)
Theorem position_navigation (l q : Z) (Hl : 0 <= l < 63) (Hq : 0 <= q) (Hr : (q + 1) * 2 ^ (l + 1) < 2 ^ 64) :
  level (node l q) = l /\
  @from_level_and_pos string l q = Ok (node l q) /\
  @parent string (node l q) = Ok (node (l + 1) (q / 2)) /\
  @sibling string (node l q) = Ok (node l (Z.lxor q 1)) /\
  @is_left_child string (node l q) = Ok (Z.even q) /\
  (0 < l -> @left_child string (node l q) = Ok (node (l - 1) (2 * q)) /\
            @right_child string (node l q) = Ok (node (l - 1) (2 * q + 1)) /\
            exists n, @to_postorder_index string (node (l - 1) (2 * q + 1)) = Ok n /\
                      @to_postorder_index string (node l q) = Ok (n + 1)) /\
  @left_most_child string (node l q) = Ok (node 0 (q * 2 ^ l)) /\
  @right_most_child string (node l q) = Ok (node 0 ((q + 1) * 2 ^ l - 1)) /\
  (let? n := to_postorder_index (node l q) in from_postorder_index n) = Ok (node l q).
Proof.
  pose proof (pow2_succ l ltac:(lia)) as Hs. pose proof (pow2_pos l ltac:(lia)) as Hp.
  assert (Hwf : wf_node l q) by (repeat split; [lia.. | unfold node; nia]).
  assert (Hwf' : wf_node l q) by done. destruct Hwf' as (_ & _ & Hn).
  split_and!.
  - by apply level_node; lia.
  - by apply from_level_and_pos_node; lia.
  - by apply parent_node.
  - by apply sibling_node; [| lia].
  - by apply is_left_child_node.
  - intros Hl0. destruct (left_right_child_node (E := string) l q Hwf Hl0) as [-> ->]. split_and!; [done.. |].
    exists (postorder (l - 1) (2 * q + 1)).
    rewrite (to_postorder_index_node l q) by (done || lia). rewrite to_postorder_index_node.
    + split; [done |]. rewrite <- postorder_parent by lia. by replace (l - 1 + 1) with l by lia.
    + repeat split; [lia.. |]. unfold node. replace (l - 1 + 1) with l by lia.
      pose proof (pow2_pos (l - 1) ltac:(lia)). pose proof (pow2_succ (l - 1) ltac:(lia)) as Hs'.
      replace (l - 1 + 1) with l in Hs' by lia. nia.
    + lia.
    + replace (l - 1 + 1) with l by lia. nia.
  - by apply left_most_child_node.
  - apply right_most_child_node; [done | lia | nia].
  - rewrite to_postorder_index_node by (done || lia). cbn [result_bind]. unfold from_postorder_index, ensure.
    pose proof (count_ones_bounds q Hq). rewrite (proj2 (Z.ltb_lt _ _)) by (unfold postorder, bnot; nia).
    cbn [result_bind]. by rewrite postorder_to_inorder_node by lia.
Qed.

Lemma position_navigation_witness :
  @parent string (node 2 1) = Ok (node 3 0) /\ @right_most_child string (node 2 1) = Ok (node 0 7) /\
  (let? n := to_postorder_index (node 2 1) in from_postorder_index n) = Ok (node 2 1).
Proof.
  pose proof (position_navigation 2 1 ltac:(lia) ltac:(lia) ltac:(vm_compute; done))
    as (_ & _ & Hparent & _ & _ & _ & _ & Hright & Hpost).
  split; [exact Hparent |]. split; [exact Hright | exact Hpost].
Defined.
