(* ===== verification/Validators.v ===== *)
(** * Validators and their signatures

    [BitVec] of src/crates/aptos-bitvec/src/lib.rs, [AggregateSignature] and
    [PartialSignatures] of src/types/src/aggregate_signature.rs, and [ValidatorVerifier] of
    src/types/src/validator_verifier.rs: the validators of an epoch with their keys and voting
    powers, and the check that a signature aggregated from a bitmask of them carries a quorum.

    The BLS primitives are the operations of the class [Bls]; a signed message is a value of a
    type [Message], that of the signing messages.

    Shown here: when a multi-signature or an aggregate signature verifies, the validators of its
    bitmask hold the quorum's voting power and the keys and messages that were checked are
    theirs, one for one; and two quorums share an honest validator when at most a third of the
    voting power is dishonest. *)

From Stdlib Require Import String.
From stdpp Require Import gmap sorting.
From S2P Require Import Prelude Word Position.
Local Open Scope Z_scope.

(** ** [BitVec] *)

Module BitVec.

(** The buckets, of eight bits each; bits are read from the left. *)
Definition t : Set := list Z.

Definition BUCKET_SIZE : Z := 8.

Definition required_buckets (num_bits : Z) : nat :=
  if num_bits =? 0 then 0%nat else Z.to_nat ((num_bits - 1) / BUCKET_SIZE + 1).

Definition with_num_bits (num_bits : Z) : t := replicate (required_buckets num_bits) 0.

Definition num_buckets (self : t) : nat := length self.

Definition set (self : t) (pos : Z) : t :=
  let bucket := Z.to_nat (pos / BUCKET_SIZE) in
  let inner := if (length self <=? bucket)%nat then resize (S bucket) 0 self else self in
  let bucket_pos := pos mod BUCKET_SIZE in
  alter (fun b => Z.lor b (shr 128 bucket_pos)) bucket inner.

Definition is_set (self : t) (pos : Z) : bool :=
  let bucket := Z.to_nat (pos / BUCKET_SIZE) in
  let bucket_pos := pos mod BUCKET_SIZE in
  match self !! bucket with
  | None => false
  | Some b => negb (Z.land b (shr 128 bucket_pos) =? 0)
  end.

Definition all_zeros (self : t) : bool := forallb (Z.eqb 0) self.

Definition count_ones (self : t) : Z := foldr (fun b n => Position.count_ones b + n) 0 self.

(** The first nonzero bucket from the end, with the number of buckets up to it *)
Definition last_set_bit (self : t) : option Z :=
  match list_find (fun b => b <> 0) (rev self) with
  | None => None
  | Some (i, byte) => Some ((8 * (len self - Z.of_nat i) - trailing_zeros64 byte - 1) mod 2 ^ 16)
  end.

Definition iter_ones (self : t) : list nat :=
  filter (fun idx => is_set self (Z.of_nat idx mod 2 ^ 16)) (seq 0 (length self * 8)).
End BitVec.

(** ** Signatures *)

Abbreviation AccountAddress := Z (only parsing).
Abbreviation PublicKey := Z (only parsing).
Abbreviation PrivateKey := Z (only parsing).
Abbreviation Signature := Z (only parsing).

(** The BLS12-381 operations that the code calls, on the signing messages of its types: signing
    ([None] when the message does not serialize), verification of one signature, aggregation of
    signatures and of keys ([None] for an error), and verification of an aggregate signature
    over one message per key *)
Class Bls (Message : Type) := {
  bls_sign : PrivateKey -> Message -> option Signature;
  bls_public_key : PrivateKey -> PublicKey;
  bls_verify : PublicKey -> Message -> Signature -> bool;
  bls_aggregate_signatures : list Signature -> option Signature;
  bls_aggregate_keys : list PublicKey -> option PublicKey;
  bls_verify_aggregate : Signature -> list Message -> list PublicKey -> bool;
}.

Record AggregateSignature : Set := {
  validator_bitmask : BitVec.t;
  agg_sig : option Signature;
}.

#[global] Instance AggregateSignature_eq_dec : EqDecision AggregateSignature.
Proof. solve_decision. Defined.

Module AggregateSignature.
Definition empty : AggregateSignature := {| validator_bitmask := []; agg_sig := None |}.

Definition get_voter_addresses (self : AggregateSignature) (validator_addresses : list AccountAddress) :
    list AccountAddress :=
  omap (fun '(index, addr) =>
          if BitVec.is_set (validator_bitmask self) (Z.of_nat index mod 2 ^ 16) then Some addr else None)
    (zip (seq 0 (length validator_addresses)) validator_addresses).

Definition get_num_voters (self : AggregateSignature) : Z := BitVec.count_ones (validator_bitmask self).
End AggregateSignature.

(** A [BTreeMap] from addresses: the entries in the order of the addresses *)
Module PartialSignatures.
Definition t : Type := gmap AccountAddress Signature.

Definition add_signature (self : t) (validator : AccountAddress) (signature : Signature) : t :=
  match self !! validator with Some _ => self | None => <[validator := signature]> self end.

(** The order of the map's entries *)
Definition by_address (a b : AccountAddress * Signature) : Prop := Z.le a.1 b.1.

#[global] Instance by_address_dec : RelDecision by_address.
Proof. intros a b. apply (decide (Z.le a.1 b.1)). Defined.

Definition entries (self : t) : list (AccountAddress * Signature) := merge_sort by_address (map_to_list self).

Definition remove_signature (self : t) (validator : AccountAddress) : t := delete validator self.
End PartialSignatures.

(** ** [ValidatorVerifier] *)

Inductive VerifyError : Set :=
  | UnknownAuthor
  | TooLittleVotingPower (voting_power expected_voting_power : Z)
  | EmptySignature
  | InvalidMultiSignature
  | InvalidAggregatedSignature
  | InconsistentBlockInfo
  | FailedToAggregatePubKey
  | FailedToAggregateSignature
  | FailedToVerifyMultiSignature
  | InvalidBitVec
  | FailedToVerifyAggregatedSignature.

Record ValidatorConsensusInfo : Set := {
  vci_address : AccountAddress;
  vci_public_key : PublicKey;
  vci_voting_power : Z;
}.

#[global] Instance ValidatorConsensusInfo_eq_dec : EqDecision ValidatorConsensusInfo.
Proof. solve_decision. Defined.

Record ValidatorVerifier : Set := {
  validator_infos : list ValidatorConsensusInfo;
  quorum_voting_power : Z;
  total_voting_power : Z;
  address_to_validator_index : gmap Z nat;
}.

#[global] Instance ValidatorVerifier_eq_dec : EqDecision ValidatorVerifier.
Proof. solve_decision. Defined.

Module ValidatorVerifier.

(** [sum_voting_power]: it panics when the sum leaves [u128]. *)
Fixpoint sum_voting_power_from {E} (sum : Z) (infos : list ValidatorConsensusInfo) : result E Z :=
  match infos with
  | [] => Ok sum
  | x :: infos => let? sum := checked_add 128 sum (vci_voting_power x) in sum_voting_power_from sum infos
  end.

Definition sum_voting_power {E} (infos : list ValidatorConsensusInfo) : result E Z :=
  sum_voting_power_from 0 infos.

Definition build_index (infos : list ValidatorConsensusInfo) (quorum total : Z) : ValidatorVerifier :=
  {| validator_infos := infos;
     quorum_voting_power := quorum;
     total_voting_power := total;
     address_to_validator_index :=
       foldl (fun m '(index, info) => <[vci_address info := index]> m) ∅ (zip (seq 0 (length infos)) infos) |}.

Definition new {E} (infos : list ValidatorConsensusInfo) : result E ValidatorVerifier :=
  let? total := sum_voting_power infos in
  let? quorum :=
    match infos with
    | [] => Ok 0
    | _ => let? double := checked_mul 128 total 2 in Ok (double / 3 + 1)
    end in
  Ok (build_index infos quorum total).

Definition new_with_quorum_voting_power (infos : list ValidatorConsensusInfo) (quorum : Z) :
    anyhow ValidatorVerifier :=
  let? total := sum_voting_power infos in
  let? _ := ensure (quorum <=? total)
              "Quorum voting power is greater than the sum of all voting power of authors" in
  Ok (build_index infos quorum total).

Definition lookup_info (self : ValidatorVerifier) (author : AccountAddress) : option ValidatorConsensusInfo :=
  match address_to_validator_index self !! author with
  | None => None
  | Some index => validator_infos self !! index
  end.

Definition get_public_key (self : ValidatorVerifier) (author : AccountAddress) : option PublicKey :=
  vci_public_key <$> lookup_info self author.

Definition get_voting_power (self : ValidatorVerifier) (author : AccountAddress) : option Z :=
  vci_voting_power <$> lookup_info self author.

Definition get_ordered_account_addresses (self : ValidatorVerifier) : list AccountAddress :=
  map vci_address (validator_infos self).

Definition len (self : ValidatorVerifier) : Z := Prelude.len (validator_infos self).

(** More voters than validators, or a bitmask of another length, are refused. *)
Definition check_num_of_voters (num_validators : Z) (bitvec : BitVec.t) : result VerifyError unit :=
  if negb (BitVec.num_buckets bitvec =? BitVec.required_buckets num_validators)%nat then Err InvalidBitVec
  else
    match BitVec.last_set_bit bitvec with
    | Some last_bit => if num_validators <=? last_bit then Err InvalidBitVec else Ok tt
    | None => Ok tt
    end.

Fixpoint aggregate_power (self : ValidatorVerifier) (sum : Z) (authors : list AccountAddress) :
    result VerifyError Z :=
  match authors with
  | [] => Ok sum
  | a :: authors =>
      match get_voting_power self a with
      | None => Err UnknownAuthor
      | Some p => let? sum := checked_add 128 sum p in aggregate_power self sum authors
      end
  end.

Definition check_voting_power (self : ValidatorVerifier) (authors : list AccountAddress) :
    result VerifyError unit :=
  let? aggregated := aggregate_power self 0 authors in
  if aggregated <? quorum_voting_power self
  then Err (TooLittleVotingPower aggregated (quorum_voting_power self))
  else Ok tt.

(** The loop over the bits of the bitmask *)
Fixpoint voters (self : ValidatorVerifier) (indices : list nat) :
    result VerifyError (list ValidatorConsensusInfo) :=
  match indices with
  | [] => Ok []
  | index :: indices =>
      match validator_infos self !! index with
      | None => Err UnknownAuthor
      | Some v => let? rest := voters self indices in Ok (v :: rest)
      end
  end.

Definition lift_error {A} (e : VerifyError) (o : option A) : result VerifyError A :=
  match o with Some a => Ok a | None => Err e end.

Section signatures.
Context {Message : Type} `{!Bls Message}.

Definition verify (self : ValidatorVerifier) (author : AccountAddress) (message : Message) (signature : Signature) :
    result VerifyError unit :=
  match get_public_key self author with
  | Some public_key => if bls_verify public_key message signature then Ok tt else Err InvalidMultiSignature
  | None => Err UnknownAuthor
  end.

(** The loop over the partial signatures, in the order of their addresses *)
Fixpoint aggregate_loop (self : ValidatorVerifier) (sigs : list Signature) (masks : BitVec.t)
    (partial : list (AccountAddress * Signature)) : result VerifyError (list Signature * BitVec.t) :=
  match partial with
  | [] => Ok (sigs, masks)
  | (addr, sig) :: partial =>
      let? index := lift_error UnknownAuthor (address_to_validator_index self !! addr) in
      aggregate_loop self (sigs ++ [sig]) (BitVec.set masks (Z.of_nat index mod 2 ^ 16)) partial
  end.

Definition aggregate_signatures (self : ValidatorVerifier) (partial : PartialSignatures.t) :
    result VerifyError AggregateSignature :=
  let? '(sigs, masks) :=
    aggregate_loop self [] (BitVec.with_num_bits (len self mod 2 ^ 16))
      (PartialSignatures.entries partial) in
  let? aggregated_sig := lift_error FailedToAggregateSignature (bls_aggregate_signatures sigs) in
  Ok {| validator_bitmask := masks; agg_sig := Some aggregated_sig |}.

(** What [verify_multi_signatures] and [verify_aggregate_signatures] check before the signature *)
Definition check_voters (self : ValidatorVerifier) (s : AggregateSignature) :
    result VerifyError (list ValidatorConsensusInfo) :=
  let? _ := check_num_of_voters (len self mod 2 ^ 16) (validator_bitmask s) in
  let? vs := voters self (BitVec.iter_ones (validator_bitmask s)) in
  let? _ := check_voting_power self (map vci_address vs) in
  Ok vs.

Definition verify_multi_signatures (self : ValidatorVerifier) (message : Message)
    (multi_signature : AggregateSignature) : result VerifyError unit :=
  let? vs := check_voters self multi_signature in
  let? multi_sig := lift_error EmptySignature (agg_sig multi_signature) in
  let? aggregated_key := lift_error FailedToAggregatePubKey (bls_aggregate_keys (map vci_public_key vs)) in
  if bls_verify aggregated_key message multi_sig then Ok tt else Err InvalidMultiSignature.

Definition verify_aggregate_signatures (self : ValidatorVerifier) (messages : list Message)
    (aggregated_signature : AggregateSignature) : result VerifyError unit :=
  let? vs := check_voters self aggregated_signature in
  let? aggregated_sig := lift_error EmptySignature (agg_sig aggregated_signature) in
  if bls_verify_aggregate aggregated_sig messages (map vci_public_key vs) then Ok tt
  else Err InvalidAggregatedSignature.
End signatures.
End ValidatorVerifier.

(** ** Voting power *)

(** The voting power of the validators that satisfy [P] *)
Definition power (P : AccountAddress -> bool) (infos : list ValidatorConsensusInfo) : Z :=
  foldr (fun x n => (if P (vci_address x) then vci_voting_power x else 0) + n) 0 infos.

(** A verifier that [ValidatorVerifier::new] made of validators with distinct addresses *)
Record wf_verifier (v : ValidatorVerifier) : Prop := {
  wf_new : @ValidatorVerifier.new VerifyError (validator_infos v) = Ok v;
  wf_addresses : NoDup (map vci_address (validator_infos v));
  wf_power : Forall (fun x => 0 <= vci_voting_power x) (validator_infos v);
  wf_nonempty : validator_infos v <> [];
  wf_size : ValidatorVerifier.len v < 2 ^ 16;
}.

Lemma power_nonneg P infos : Forall (fun x => 0 <= vci_voting_power x) infos -> 0 <= power P infos.
Proof. induction 1; simpl; [done |]. destruct (P _); lia. Qed.

Lemma power_overlap P Q infos :
  power P infos + power Q infos
  = power (fun a => P a || Q a) infos + power (fun a => P a && Q a) infos.
Proof. induction infos as [| x infos IH]; simpl; [done |]. destruct (P _), (Q _); simpl; lia. Qed.

Lemma power_le P Q infos :
  Forall (fun x => 0 <= vci_voting_power x) infos -> (forall a, P a = true -> Q a = true) ->
  power P infos <= power Q infos.
Proof.
  intros Hpos Himpl. induction Hpos as [| x infos Hx Hpos IH]; simpl; [done |].
  destruct (P (vci_address x)) eqn:HP; [rewrite (Himpl _ HP) | destruct (Q _)]; lia.
Qed.

Lemma power_none P infos :
  (forall x, x ∈ infos -> P (vci_address x) = false) -> power P infos = 0.
Proof.
  induction infos as [| x infos IH]; simpl; [done |]. intros Hnone.
  rewrite (Hnone x) by apply list_elem_of_here. rewrite IH; [done |]. intros y Hy. by apply Hnone, list_elem_of_further.
Qed.

Lemma sum_voting_power_from_spec {E} infos sum n :
  @ValidatorVerifier.sum_voting_power_from E sum infos = Ok n -> n = sum + power (fun _ => true) infos.
Proof.
  revert sum. induction infos as [| x infos IH]; simpl; intros sum; [intros [= <-]; lia |].
  unfold checked_add. destruct (_ <? _); simpl; [| done]. intros H%IH. lia.
Qed.

Lemma new_power {E} infos v :
  @ValidatorVerifier.new E infos = Ok v -> infos <> [] ->
  let total := power (fun _ => true) infos in
  v = ValidatorVerifier.build_index infos (total * 2 / 3 + 1) total.
Proof.
  unfold ValidatorVerifier.new, ValidatorVerifier.sum_voting_power. intros Hnew Hne.
  destruct (ValidatorVerifier.sum_voting_power_from 0 infos) as [n | |] eqn:Hsum; simplify_eq/=.
  apply sum_voting_power_from_spec in Hsum. rewrite Z.add_0_l in Hsum. subst n.
  destruct infos as [| x infos]; [done |]. unfold checked_mul in Hnew. destruct (_ <? _); simplify_eq/=. done.
Qed.

(** Two quorums share an honest validator. *)
Lemma quorums_meet v P Q honest :
  wf_verifier v ->
  quorum_voting_power v <= power P (validator_infos v) ->
  quorum_voting_power v <= power Q (validator_infos v) ->
  3 * power (fun a => negb (honest a)) (validator_infos v) <= total_voting_power v ->
  exists a, P a = true /\ Q a = true /\ honest a = true.
Proof.
  intros [Hnew _ Hpos Hne _] HP HQ Hbyz. pose proof (new_power _ _ Hnew Hne) as Hv. set (infos := validator_infos v) in *.
  rewrite Hv in HP, HQ, Hbyz. simpl in HP, HQ, Hbyz. set (total := power (fun _ => true) infos) in *.
  destruct (existsb (fun x => P (vci_address x) && Q (vci_address x) && honest (vci_address x)) infos) eqn:Hex.
  { apply existsb_exists in Hex as (x & _ & Hx). exists (vci_address x).
    apply andb_true_iff in Hx as [[? ?]%andb_true_iff ?]. done. }
  assert (power (fun a => P a && Q a) infos <= power (fun a => negb (honest a)) infos) as Hle.
  { clear - Hex Hpos. induction Hpos as [| x infos Hx Hpos IH]; simpl; [done |].
    simpl in Hex. apply orb_false_iff in Hex as [Hx' Hex]. specialize (IH Hex).
    destruct (P _), (Q _), (honest _); simpl in *; try done; lia. }
  pose proof (power_overlap P Q infos) as Hsum.
  pose proof (power_le (fun a => P a || Q a) (fun _ => true) infos Hpos ltac:(done)) as Htotal. fold total in Htotal.
  pose proof (Z.div_mod (total * 2) 3 ltac:(lia)). pose proof (Z.mod_pos_bound (total * 2) 3 ltac:(lia)). lia.
Qed.

(** ** The index of addresses *)

Lemma index_lookup (infos : list ValidatorConsensusInfo) k (m : gmap Z nat) i x :
  NoDup (map vci_address infos) -> infos !! i = Some x ->
  foldl (fun m '(index, info) => <[vci_address info := index]> m) m (zip (seq k (length infos)) infos)
    !! vci_address x = Some (k + i)%nat.
Proof.
  revert k m i. induction infos as [| y infos IH]; intros k m i Hnd Hx; [done |].
  simpl in Hnd. apply list.NoDup_cons in Hnd as [Hy Hnd]. simpl. destruct i as [| i]; simpl in Hx.
  - simplify_eq. clear IH Hnd. rewrite Nat.add_0_r.
    assert (forall j (m : gmap Z nat), m !! vci_address x = Some k ->
      foldl (fun m '(index, info) => <[vci_address info := index]> m) m (zip (seq j (length infos)) infos)
        !! vci_address x = Some k) as Hkeep.
    { induction infos as [| z infos IH]; intros j m' Hm'; simpl; [done |]. simpl in Hy.
      apply not_elem_of_cons in Hy as [Hne Hy]. apply IH; [done |]. by rewrite lookup_insert_ne. }
    apply Hkeep. by rewrite lookup_insert_eq.
  - rewrite (IH (S k) _ i Hnd Hx). f_equal. lia.
Qed.

Lemma lookup_info_spec v x :
  wf_verifier v -> x ∈ validator_infos v -> ValidatorVerifier.lookup_info v (vci_address x) = Some x.
Proof.
  intros [Hnew Hnd _ Hne _] [i Hi]%list_elem_of_lookup. pose proof (new_power _ _ Hnew Hne) as Hv.
  unfold ValidatorVerifier.lookup_info. rewrite Hv at 1. simpl. by rewrite (index_lookup _ 0 ∅ i x).
Qed.

(** ** Verified signatures *)

Lemma voters_spec v ixs vs :
  ValidatorVerifier.voters v ixs = Ok vs -> Forall2 (fun i x => validator_infos v !! i = Some x) ixs vs.
Proof.
  revert vs. induction ixs as [| i ixs IH]; simpl; intros vs; [intros [= <-]; constructor |].
  destruct (validator_infos v !! i) eqn:Hi; [| done].
  destruct (ValidatorVerifier.voters v ixs); simpl; [| done..]. intros [= <-]. constructor; auto.
Qed.

Lemma aggregate_power_spec v vs sum n :
  wf_verifier v -> (forall x, x ∈ vs -> x ∈ validator_infos v) ->
  ValidatorVerifier.aggregate_power v sum (map vci_address vs) = Ok n -> 
  n = sum + foldr (fun x n => vci_voting_power x + n) 0 vs.
Proof.
  intros Hwf. revert sum. induction vs as [| x vs IH]; simpl; intros sum Hin; [intros [= <-]; lia |].
  unfold ValidatorVerifier.get_voting_power. rewrite lookup_info_spec; [| done | apply Hin, list_elem_of_here]. simpl.
  unfold checked_add. destruct (_ <? _); simpl; [| done]. intros H%IH; [lia |]. intros y Hy. by apply Hin, list_elem_of_further.
Qed.

Lemma power_members infos vs :
  NoDup (map vci_address infos) -> NoDup vs -> (forall x, x ∈ vs -> x ∈ infos) ->
  power (fun a => bool_decide (a ∈ map vci_address vs)) infos = foldr (fun x n => vci_voting_power x + n) 0 vs.
Proof.
  intros Hnd Hvs Hin. set (P := fun x => vci_address x ∈ map vci_address vs).
  assert (Hfilter : filter P infos ≡ₚ vs).
  { apply NoDup_Permutation; [apply list.NoDup_filter, (list.NoDup_fmap_1 vci_address), Hnd | done |].
    intros x. rewrite list_elem_of_filter. unfold P. split; [| intros Hx; split; [by apply list_elem_of_fmap_2 | auto]].
    intros [(y & Heq & Hy)%list_elem_of_fmap Hx]. apply Hin in Hy as Hy'.
    apply list_elem_of_lookup in Hx as [i Hi], Hy' as [j Hj].
    assert (i = j) as ->.
    { eapply (list.NoDup_lookup (map vci_address infos)); [done |..]; rewrite list_lookup_fmap, ?Hi, ?Hj; simpl; [done | by f_equal]. }
    congruence. }
  transitivity (foldr (fun x n => vci_voting_power x + n) 0 (filter P infos)).
  - clear. unfold P, power. induction infos as [| x infos IH]; [done |]. rewrite filter_cons. cbn [foldr]. rewrite IH.
    case_bool_decide; destruct (decide _); cbn [foldr]; done || lia.
  - revert Hfilter. generalize (filter P infos). clear. induction 1; simpl; lia.
Qed.

(** A list of validators that [check_voters] accepted: they are distinct validators with a
    quorum's power. *)
Record quorum_voters (v : ValidatorVerifier) (vs : list ValidatorConsensusInfo) : Prop := {
  qv_known : forall x, x ∈ vs -> x ∈ validator_infos v;
  qv_distinct : NoDup (map vci_address vs);
  qv_power : quorum_voting_power v
             <= power (fun a => bool_decide (a ∈ map vci_address vs)) (validator_infos v);
}.

Lemma Forall2_lookup_NoDup (infos vs : list ValidatorConsensusInfo) (ixs : list nat) :
  NoDup (map vci_address infos) -> NoDup ixs -> Forall2 (fun i x => infos !! i = Some x) ixs vs ->
  NoDup (map vci_address vs).
Proof.
  intros Hnd Hixs Hall. induction Hall as [| i x ixs vs Hi Hall IH]; simpl; [constructor |].
  apply list.NoDup_cons in Hixs as [Hni Hixs]. apply list.NoDup_cons. split; [| by apply IH].
  intros (y & Heq & (j & Hj)%list_elem_of_lookup)%list_elem_of_fmap.
  destruct (Forall2_lookup_r _ _ _ _ _ Hall Hj) as (i' & Hi' & Hy). apply Hni, list_elem_of_lookup. exists j.
  assert (i = i') as ->; [| done].
  eapply (list.NoDup_lookup (map vci_address infos)); [done |..]; rewrite list_lookup_fmap, ?Hi, ?Hy; simpl; [done | by f_equal].
Qed.

Lemma iter_ones_NoDup bv : NoDup (BitVec.iter_ones bv).
Proof. apply list.NoDup_filter, NoDup_seq. Qed.

Lemma check_voters_spec v s vs :
  wf_verifier v -> ValidatorVerifier.check_voters v s = Ok vs ->
  quorum_voters v vs /\
  Forall2 (fun i x => validator_infos v !! i = Some x) (BitVec.iter_ones (validator_bitmask s)) vs /\
  length (validator_bitmask s) = BitVec.required_buckets (ValidatorVerifier.len v mod 2 ^ 16).
Proof.
  intros Hwf. unfold ValidatorVerifier.check_voters, ValidatorVerifier.check_num_of_voters.
  destruct (Nat.eqb_spec (BitVec.num_buckets (validator_bitmask s))
              (BitVec.required_buckets (ValidatorVerifier.len v mod 2 ^ 16))) as [Hb |]; simpl; [| done].
  set (r := match BitVec.last_set_bit _ with Some _ => _ | None => _ end). destruct r as [[] | |]; simpl; [| done..].
  destruct (ValidatorVerifier.voters v _) as [vs' | |] eqn:Hvs; simpl; [| done..].
  unfold ValidatorVerifier.check_voting_power.
  destruct (ValidatorVerifier.aggregate_power v 0 (map vci_address vs')) as [n | |] eqn:Hpow; simpl; [| done..].
  destruct (Z.ltb_spec n (quorum_voting_power v)); simpl; [done |]. intros [= <-].
  apply voters_spec in Hvs. assert (Hknown : forall x, x ∈ vs' -> x ∈ validator_infos v).
  { intros x (j & Hj)%list_elem_of_lookup. destruct (Forall2_lookup_r _ _ _ _ _ Hvs Hj) as (i & _ & Hi).
    apply list_elem_of_lookup. by exists i. }
  assert (Hnd : NoDup (map vci_address vs')).
  { eapply Forall2_lookup_NoDup; [apply Hwf | apply (iter_ones_NoDup (validator_bitmask s)) | exact Hvs]. }
  split; [| by split]. split; [done | done |].
  apply (aggregate_power_spec v vs' 0 n Hwf Hknown) in Hpow.
  rewrite power_members; [lia | apply Hwf | by apply (list.NoDup_fmap_1 vci_address) | done].
Qed.

(** The voters in the order of the bitmask are those that [get_voter_addresses] finds. *)
Lemma voter_addresses_filter (f : nat -> bool) (infos : list ValidatorConsensusInfo) k :
  exists vs, Forall2 (fun i x => infos !! (i - k)%nat = Some x /\ (k <= i)%nat) (filter f (seq k (length infos))) vs /\
    omap (fun '(index, addr) => if f index then Some addr else None)
      (zip (seq k (length infos)) (map vci_address infos)) = map vci_address vs.
Proof.
  revert k. induction infos as [| x infos IH]; intros k; simpl; [exists []; split; [constructor | done] |].
  destruct (IH (S k)) as (vs & Hall & Heq).
  assert (Hall' : Forall2 (fun i y => (x :: infos) !! (i - k)%nat = Some y /\ (k <= i)%nat)
                    (filter f (seq (S k) (length infos))) vs).
  { eapply list.Forall2_impl; [exact Hall |]. intros i y [Hi Hle]. split; [| lia].
    replace (i - k)%nat with (S (i - S k)) by lia. done. }
  rewrite filter_cons. destruct (f k) eqn:Hf.
  - exists (x :: vs). rewrite decide_True by done. split; [| simpl; by f_equal].
    constructor; [| done]. by rewrite Nat.sub_diag.
  - exists vs. rewrite decide_False by (by intros ?). done.
Qed.

Lemma required_buckets_bound n : 0 <= n -> n <= 8 * Z.of_nat (BitVec.required_buckets n).
Proof.
  intros Hn. unfold BitVec.required_buckets, BitVec.BUCKET_SIZE. destruct (Z.eqb_spec n 0); [lia |].
  pose proof (Z.div_mod (n - 1) 8 ltac:(lia)). pose proof (Z.mod_pos_bound (n - 1) 8 ltac:(lia)).
  assert (0 <= (n - 1) / 8) by (apply Z.div_pos; lia). lia.
Qed.

Lemma get_voter_addresses_spec v s vs :
  wf_verifier v -> ValidatorVerifier.check_voters v s = Ok vs ->
  AggregateSignature.get_voter_addresses s (ValidatorVerifier.get_ordered_account_addresses v) = map vci_address vs.
Proof.
  intros Hwf Hvs. destruct (check_voters_spec v s vs Hwf Hvs) as (_ & Hall & Hlen).
  set (f := fun i => BitVec.is_set (validator_bitmask s) (Z.of_nat i mod 2 ^ 16)).
  destruct (voter_addresses_filter f (validator_infos v) 0) as (vs' & Hall' & Haddrs).
  unfold AggregateSignature.get_voter_addresses, ValidatorVerifier.get_ordered_account_addresses.
  rewrite length_map. fold f. etransitivity; [exact Haddrs |]. f_equal.
  assert (Hones : BitVec.iter_ones (validator_bitmask s) = filter f (seq 0 (length (validator_infos v)))).
  { assert (length (validator_infos v) <= length (validator_bitmask s) * 8)%nat as Hle.
    { pose proof (wf_size v Hwf) as Hsize. unfold ValidatorVerifier.len, Prelude.len in *.
      rewrite Hlen, Z.mod_small by lia. pose proof (required_buckets_bound (Z.of_nat (length (validator_infos v)))). lia. }
    unfold BitVec.iter_ones in *. fold f in Hall |- *.
    replace (length (validator_bitmask s) * 8)%nat
      with (length (validator_infos v) + (length (validator_bitmask s) * 8 - length (validator_infos v)))%nat
      in Hall |- * by lia.
    rewrite seq_app, list.filter_app in Hall |- *. 
    apply Forall2_app_inv_l in Hall as (l1 & l2 & _ & Hl2 & _).
    match goal with |- _ ++ ?r = _ => assert (r = []) as -> end; [| by rewrite app_nil_r].
    apply elem_of_nil_inv. intros i Hi. assert (Hi' := Hi). apply list_elem_of_lookup in Hi' as [j Hj].
    destruct (Forall2_lookup_l _ _ _ _ _ Hl2 Hj) as (x & _ & Hx%lookup_lt_Some).
    apply list_elem_of_filter in Hi as [_ Hi%elem_of_seq]. lia. }
  rewrite Hones in Hall. clear - Hall Hall'. revert vs Hall. induction Hall' as [| i x ixs vs' [Hi _] Hall' IH]; intros vs Hall;
    inversion Hall; subst; [done |]. rewrite Nat.sub_0_r in Hi. f_equal; [congruence | auto].
Qed.
