(* ===== verification/LedgerTypes.v ===== *)
(** * Ledger infos and epoch changes

    [EpochState] (src/types/src/epoch_state.rs), [BlockInfo] (block_info.rs), [LedgerInfo] and
    [LedgerInfoWithSignatures] (ledger_info.rs), [Waypoint] (waypoint.rs) and
    [EpochChangeProof] (epoch_change.rs), with the placeholder hash of accumulators.

    Hashes of structures are operations of the class [CryptoHash]; a structure is signed through
    its signing message (class [Signable]). *)

From Stdlib Require Import String Ascii.
From S2P Require Import Prelude Word Position Validators.
Local Open Scope Z_scope.

Abbreviation HashValue := Z (only parsing).

(** [CryptoHash::hash] of a type *)
Class CryptoHash (T : Type) := crypto_hash : T -> HashValue.

(** The signing message of a type: the seed of its hasher, then its serialization *)
Class Signable (T Message : Type) := signing_message : T -> Message.

(** [create_literal_hash]: the bytes of the word, filled up with zeros to 32 bytes *)
Fixpoint literal_bytes (word : string) : list Z :=
  match word with
  | EmptyString => []
  | String c word => Z.of_nat (nat_of_ascii c) :: literal_bytes word
  end.

Definition create_literal_hash (word : string) : HashValue :=
  foldl (fun n b => n * 256 + b) 0 (resize 32 0 (literal_bytes word)).

Definition ACCUMULATOR_PLACEHOLDER_HASH : HashValue := create_literal_hash "ACCUMULATOR_PLACEHOLDER_HASH".

Definition HashValue_zero : HashValue := 0.

(** ** [EpochState] *)

Record EpochState : Set := {
  es_epoch : Z;
  es_verifier : ValidatorVerifier;
}.

#[global] Instance EpochState_eq_dec : EqDecision EpochState.
Proof. solve_decision. Defined.

(** ** [BlockInfo] *)

Record BlockInfo : Set := {
  bi_epoch : Z;
  bi_round : Z;
  bi_id : HashValue;
  bi_executed_state_id : HashValue;
  bi_version : Z;
  bi_timestamp_usecs : Z;
  bi_next_epoch_state : option EpochState;
}.

#[global] Instance BlockInfo_eq_dec : EqDecision BlockInfo.
Proof. solve_decision. Defined.

Module BlockInfo.
Definition empty : BlockInfo :=
  {| bi_epoch := 0; bi_round := 0; bi_id := HashValue_zero; bi_executed_state_id := HashValue_zero;
     bi_version := 0; bi_timestamp_usecs := 0; bi_next_epoch_state := None |}.

Definition has_reconfiguration (self : BlockInfo) : bool := bool_decide (is_Some (bi_next_epoch_state self)).

Definition next_block_epoch (self : BlockInfo) : Z :=
  match bi_next_epoch_state self with Some e => es_epoch e | None => bi_epoch self end.

Definition allow_timestamp_change (self : BlockInfo) (timestamp : Z) : bool :=
  has_reconfiguration self && (timestamp <=? bi_timestamp_usecs self).

Definition change_timestamp {E} (self : BlockInfo) (timestamp : Z) : result E BlockInfo :=
  let? _ := rust_assert (allow_timestamp_change self timestamp) in
  Ok {| bi_epoch := bi_epoch self; bi_round := bi_round self; bi_id := bi_id self;
        bi_executed_state_id := bi_executed_state_id self; bi_version := bi_version self;
        bi_timestamp_usecs := timestamp; bi_next_epoch_state := bi_next_epoch_state self |}.

Definition match_ordered_only (self executed_block_info : BlockInfo) : bool :=
  (bi_epoch self =? bi_epoch executed_block_info)
  && (bi_round self =? bi_round executed_block_info)
  && (bi_id self =? bi_id executed_block_info)
  && ((bi_timestamp_usecs self =? bi_timestamp_usecs executed_block_info)
      || (bi_timestamp_usecs executed_block_info <? bi_timestamp_usecs self)
         && has_reconfiguration executed_block_info).

Definition is_ordered_only (self : BlockInfo) : bool :=
  bool_decide (self <> empty)
  && negb (has_reconfiguration self)
  && (bi_executed_state_id self =? ACCUMULATOR_PLACEHOLDER_HASH)
  && (bi_version self =? 0).
End BlockInfo.

(** ** [LedgerInfo] *)

Record LedgerInfo : Set := {
  li_commit_info : BlockInfo;
  li_consensus_data_hash : HashValue;
}.

#[global] Instance LedgerInfo_eq_dec : EqDecision LedgerInfo.
Proof. solve_decision. Defined.

Module LedgerInfo.
Definition epoch (self : LedgerInfo) : Z := bi_epoch (li_commit_info self).
Definition version (self : LedgerInfo) : Z := bi_version (li_commit_info self).
Definition timestamp_usecs (self : LedgerInfo) : Z := bi_timestamp_usecs (li_commit_info self).
Definition transaction_accumulator_hash (self : LedgerInfo) : HashValue :=
  bi_executed_state_id (li_commit_info self).
Definition next_epoch_state (self : LedgerInfo) : option EpochState := bi_next_epoch_state (li_commit_info self).
Definition ends_epoch (self : LedgerInfo) : bool := bool_decide (is_Some (next_epoch_state self)).
End LedgerInfo.

Record LedgerInfoWithSignatures : Set := {
  liws_ledger_info : LedgerInfo;
  liws_signatures : AggregateSignature;
}.

#[global] Instance LedgerInfoWithSignatures_eq_dec : EqDecision LedgerInfoWithSignatures.
Proof. solve_decision. Defined.

(** The context of an [anyhow] error: the error of the signature check by its name *)
Definition context {A} (message : string) (r : result VerifyError A) : anyhow A :=
  match r with Ok a => Ok a | Err _ => Err message | Panic => Panic end.

Section signed.
Context {Message : Type} `{!Bls Message, !Signable LedgerInfo Message}.

Definition verify_signatures (self : LedgerInfoWithSignatures) (validator : ValidatorVerifier) :
    result VerifyError unit :=
  ValidatorVerifier.verify_multi_signatures validator (signing_message (liws_ledger_info self))
    (liws_signatures self).

(** ** Verifiers of epoch changes *)

Definition EpochState_verify (self : EpochState) (ledger_info : LedgerInfoWithSignatures) : anyhow unit :=
  let? _ := ensure (es_epoch self =? LedgerInfo.epoch (liws_ledger_info ledger_info))
              "LedgerInfo has unexpected epoch" in
  context "Invalid signatures" (verify_signatures ledger_info (es_verifier self)).

Definition EpochState_is_ledger_info_stale (self : EpochState) (ledger_info : LedgerInfo) : bool :=
  LedgerInfo.epoch ledger_info <? es_epoch self.

(** [Ledger2WaypointConverter]: the fields that a waypoint hashes *)
Record Ledger2WaypointConverter : Set := {
  wc_epoch : Z;
  wc_root_hash : HashValue;
  wc_version : Z;
  wc_timestamp_usecs : Z;
  wc_next_epoch_state : option EpochState;
}.

Definition waypoint_fields (ledger_info : LedgerInfo) : Ledger2WaypointConverter :=
  {| wc_epoch := LedgerInfo.epoch ledger_info;
     wc_root_hash := LedgerInfo.transaction_accumulator_hash ledger_info;
     wc_version := LedgerInfo.version ledger_info;
     wc_timestamp_usecs := LedgerInfo.timestamp_usecs ledger_info;
     wc_next_epoch_state := LedgerInfo.next_epoch_state ledger_info |}.

Record Waypoint : Set := {
  wp_version : Z;
  wp_value : HashValue;
}.

Context `{!CryptoHash Ledger2WaypointConverter}.

Definition Waypoint_new_any (ledger_info : LedgerInfo) : Waypoint :=
  {| wp_version := LedgerInfo.version ledger_info; wp_value := crypto_hash (waypoint_fields ledger_info) |}.

Definition Waypoint_new_epoch_boundary (ledger_info : LedgerInfo) : anyhow Waypoint :=
  let? _ := ensure (LedgerInfo.ends_epoch ledger_info) "No validator set" in
  Ok (Waypoint_new_any ledger_info).

Definition Waypoint_verify (self : Waypoint) (ledger_info : LedgerInfo) : anyhow unit :=
  let? _ := ensure (LedgerInfo.version ledger_info =? wp_version self) "Waypoint version mismatch" in
  ensure (crypto_hash (waypoint_fields ledger_info) =? wp_value self) "Waypoint value mismatch".

Definition Waypoint_is_ledger_info_stale (self : Waypoint) (ledger_info : LedgerInfo) : bool :=
  LedgerInfo.version ledger_info <? wp_version self.

(** The trait object [&dyn Verifier]: a waypoint or an epoch state *)
Inductive Verifier : Set :=
  | VWaypoint (w : Waypoint)
  | VEpochState (e : EpochState).

Definition Verifier_verify (self : Verifier) (ledger_info : LedgerInfoWithSignatures) : anyhow unit :=
  match self with
  | VWaypoint w => Waypoint_verify w (liws_ledger_info ledger_info)
  | VEpochState e => EpochState_verify e ledger_info
  end.

Definition Verifier_epoch_change_verification_required (self : Verifier) (epoch : Z) : bool :=
  match self with VWaypoint _ => true | VEpochState e => es_epoch e <? epoch end.

Definition Verifier_is_ledger_info_stale (self : Verifier) (ledger_info : LedgerInfo) : bool :=
  match self with
  | VWaypoint w => Waypoint_is_ledger_info_stale w ledger_info
  | VEpochState e => EpochState_is_ledger_info_stale e ledger_info
  end.

(** ** [EpochChangeProof] *)

Record EpochChangeProof : Set := {
  ledger_info_with_sigs : list LedgerInfoWithSignatures;
  ecp_more : bool;
}.

Fixpoint skip_stale (verifier : Verifier) (lis : list LedgerInfoWithSignatures) : list LedgerInfoWithSignatures :=
  match lis with
  | [] => []
  | li :: rest =>
      if Verifier_is_ledger_info_stale verifier (liws_ledger_info li) then skip_stale verifier rest else lis
  end.

(** The loop of [EpochChangeProof::verify] *)
Fixpoint verify_epoch_changes (verifier_ref : Verifier) (lis : list LedgerInfoWithSignatures) : anyhow unit :=
  match lis with
  | [] => Ok tt
  | li :: rest =>
      let? _ := Verifier_verify verifier_ref li in
      match LedgerInfo.next_epoch_state (liws_ledger_info li) with
      | Some e => verify_epoch_changes (VEpochState e) rest
      | None => Err "LedgerInfo doesn't carry a ValidatorSet"%string
      end
  end.

Definition EpochChangeProof_verify (self : EpochChangeProof) (verifier : Verifier) :
    anyhow LedgerInfoWithSignatures :=
  let? _ := ensure (bool_decide (ledger_info_with_sigs self <> [])) "The EpochChangeProof is empty" in
  let? last_li := unwrap (list_basics.list.last (ledger_info_with_sigs self)) in
  let? _ := ensure (negb (Verifier_is_ledger_info_stale verifier (liws_ledger_info last_li)))
              "The EpochChangeProof is stale as our verifier is already ahead of the entire EpochChangeProof" in
  let? _ := verify_epoch_changes verifier (skip_stale verifier (ledger_info_with_sigs self)) in
  Ok last_li.
End signed.
