(* ===== verification/Accumulator.v ===== *)
(** * Merkle accumulators and their proofs

    [InMemoryAccumulator] of src/types/src/proof/accumulator/mod.rs, the accumulator proofs of
    src/types/src/proof/definition.rs ([AccumulatorProof], [AccumulatorConsistencyProof] with
    [TransactionAccumulatorSummary], [AccumulatorRangeProof], [AccumulatorExtensionProof],
    [TransactionInfoWithProof], [TransactionInfoListWithProof]) and [verify_transaction_info] of
    src/types/src/proof/mod.rs.

    The hash of an inner node is the operation of the class [MerkleHasher].

    Shown here: the accumulator and its operations are the Merkle tree over the leaves, padded
    with placeholders ([accumulator_of]); inclusion proofs are sound and complete for it, under
    the laws of an ideal hash ([MerkleLaws]); range proofs with more siblings than a position has
    ancestors make the verifier panic. *)

From Stdlib Require Import String.
From stdpp Require Import countable.
From S2P Require Import Prelude Word Arith Position Validators LedgerTypes.
Local Open Scope Z_scope.

(** [MerkleTreeInternalNode::<H>::new(left, right).hash()] *)
Class MerkleHasher := internal_hash : HashValue -> HashValue -> HashValue.

Record InMemoryAccumulator : Set := {
  frozen_subtree_roots : list HashValue;
  num_leaves : Z;
  root_hash : HashValue;
}.

#[global] Instance InMemoryAccumulator_eq_dec : EqDecision InMemoryAccumulator.
Proof. solve_decision. Defined.

(** [Vec::pop] *)
Definition vec_pop {A} (l : list A) : option (A * list A) :=
  match rev l with [] => None | x :: r => Some (x, rev r) end.

(** ** [InMemoryAccumulator] *)

Module InMemoryAccumulator.
Section methods.
Context `{!MerkleHasher}.

(** The loop of [compute_root_hash], over the remaining bits of [num_leaves] and the roots from
    the last one; [bitmap] loses a bit in each step. *)
Fixpoint root_loop {E} (fuel : nat) (bitmap : Z) (iter : list HashValue) (current_hash : HashValue) :
    result E HashValue :=
  match fuel with
  | O => Panic
  | S fuel =>
      if 0 <? bitmap then
        if negb (Z.land bitmap 1 =? 0) then
          match iter with
          | [] => Panic
          | root :: iter => root_loop fuel (shr bitmap 1) iter (internal_hash root current_hash)
          end
        else root_loop fuel (shr bitmap 1) iter (internal_hash current_hash ACCUMULATOR_PLACEHOLDER_HASH)
      else Ok current_hash
  end.

Definition compute_root_hash {E} (frozen_subtree_roots : list HashValue) (num_leaves : Z) : result E HashValue :=
  match frozen_subtree_roots with
  | [] => Ok ACCUMULATOR_PLACEHOLDER_HASH
  | [root] => Ok root
  | _ =>
      let? bitmap := checked_shr num_leaves (trailing_zeros64 num_leaves) in
      root_loop 65 bitmap (rev frozen_subtree_roots) ACCUMULATOR_PLACEHOLDER_HASH
  end.

Definition new (frozen_subtree_roots : list HashValue) (num_leaves : Z) : anyhow InMemoryAccumulator :=
  let? _ := ensure (len frozen_subtree_roots =? count_ones num_leaves)
              "The number of frozen subtrees does not match the number of leaves" in
  let? root_hash := compute_root_hash frozen_subtree_roots num_leaves in
  Ok {| frozen_subtree_roots := frozen_subtree_roots; num_leaves := num_leaves; root_hash := root_hash |}.

Definition new_empty : InMemoryAccumulator :=
  {| frozen_subtree_roots := []; num_leaves := 0; root_hash := ACCUMULATOR_PLACEHOLDER_HASH |}.

(** [n] carries *)
Fixpoint merge_last {E} (n : nat) (roots : list HashValue) : result E (list HashValue) :=
  match n with
  | O => Ok roots
  | S n =>
      let? '(right_hash, roots) := unwrap (vec_pop roots) in
      let? '(left_hash, roots) := unwrap (vec_pop roots) in
      merge_last n (roots ++ [internal_hash left_hash right_hash])
  end.

Definition append_one {E} (roots : list HashValue) (num_existing_leaves : Z) (leaf : HashValue) :
    result E (list HashValue) :=
  let num_trailing_ones := trailing_zeros64 (bnot 64 num_existing_leaves) in
  merge_last (Z.to_nat num_trailing_ones) (roots ++ [leaf]).

Fixpoint append_loop {E} (roots : list HashValue) (num_leaves : Z) (leaves : list HashValue) :
    result E (list HashValue * Z) :=
  match leaves with
  | [] => Ok (roots, num_leaves)
  | leaf :: leaves =>
      let? roots := append_one roots num_leaves leaf in
      let? num_leaves := checked_add 64 num_leaves 1 in
      append_loop roots num_leaves leaves
  end.

(** [.expect(..)] of a [Result] *)
Definition expect {E E' A} (r : result E A) : result E' A :=
  match r with Ok a => Ok a | _ => Panic end.

Definition append {E} (self : InMemoryAccumulator) (leaves : list HashValue) : result E InMemoryAccumulator :=
  let? '(roots, n) := append_loop (frozen_subtree_roots self) (num_leaves self) leaves in
  expect (new roots n).

Definition default {E} : result E InMemoryAccumulator := expect (new [] 0).

Definition from_leaves {E} (leaves : list HashValue) : result E InMemoryAccumulator :=
  let? empty := default in append empty leaves.

(** The inner loop of [append_subtrees]: the carry of a new subtree *)
Fixpoint carry_loop {E} (fuel : nat) (current_num_leaves mask : Z) (roots : list HashValue)
    (current_hash : HashValue) : result E (Z * list HashValue * HashValue) :=
  match fuel with
  | O => Panic
  | S fuel =>
      if Z.land current_num_leaves mask =? 0 then Ok (mask, roots, current_hash)
      else
        let? '(left_hash, roots) := unwrap (vec_pop roots) in
        carry_loop fuel current_num_leaves (shl 64 mask 1) roots (internal_hash left_hash current_hash)
  end.

(** The outer loop: subtrees as large as the rightmost frozen one, while there are enough leaves *)
Fixpoint subtrees_loop (fuel : nat) (current_num_leaves remaining_new_leaves size : Z) (roots : list HashValue)
    (subtree_iter : list HashValue) : anyhow (Z * Z * list HashValue * list HashValue) :=
  match fuel with
  | O => Panic
  | S fuel =>
      if size <=? remaining_new_leaves then
        match subtree_iter with
        | [] => Err "Too few subtrees."%string
        | current_hash :: subtree_iter =>
            let? '(mask, roots, current_hash) := carry_loop 65 current_num_leaves size roots current_hash in
            let? current_num_leaves := checked_add 64 current_num_leaves size in
            let? remaining_new_leaves := checked_sub remaining_new_leaves size in
            subtrees_loop fuel current_num_leaves remaining_new_leaves mask (roots ++ [current_hash]) subtree_iter
        end
      else Ok (current_num_leaves, remaining_new_leaves, roots, subtree_iter)
  end.

Definition append_subtrees (self : InMemoryAccumulator) (subtrees : list HashValue) (num_new_leaves : Z) :
    anyhow InMemoryAccumulator :=
  let? room := checked_sub MAX_ACCUMULATOR_LEAVES (num_leaves self) in
  let? _ := ensure (num_new_leaves <=? room) "Too many new leaves" in
  if num_leaves self =? 0 then new subtrees num_new_leaves
  else
    let? size := checked_shl 1 (trailing_zeros64 (num_leaves self)) in
    let? '(current_num_leaves, remaining_new_leaves, roots, subtree_iter) :=
      subtrees_loop 65 (num_leaves self) num_new_leaves size (frozen_subtree_roots self) subtrees in
    let? current_num_leaves := checked_add 64 current_num_leaves remaining_new_leaves in
    new (roots ++ subtree_iter) current_num_leaves.

Definition version (self : InMemoryAccumulator) : Z :=
  if num_leaves self =? 0 then 0 else num_leaves self - 1.

Definition is_empty (self : InMemoryAccumulator) : bool := num_leaves self =? 0.
End methods.
End InMemoryAccumulator.

Section proofs.
Context `{!MerkleHasher}.

(** ** [AccumulatorProof] *)

Record AccumulatorProof : Set := { ap_siblings : list HashValue }.

Definition AccumulatorProof_verify (self : AccumulatorProof) (expected_root_hash element_hash : HashValue)
    (element_index : Z) : anyhow unit :=
  let? _ := ensure (len (ap_siblings self) <=? MAX_ACCUMULATOR_PROOF_DEPTH)
              "Accumulator proof has too many siblings" in
  let actual_root_hash :=
    (foldl (fun '(hash, index) sibling_hash =>
              (if index mod 2 =? 0 then internal_hash hash sibling_hash else internal_hash sibling_hash hash,
               index / 2))
       (element_hash, element_index) (ap_siblings self)).1 in
  ensure (actual_root_hash =? expected_root_hash) "Root hashes do not match".

(** ** [TransactionAccumulatorSummary] and [AccumulatorConsistencyProof] *)

Record AccumulatorConsistencyProof : Set := { acp_subtrees : list HashValue }.

Record TransactionAccumulatorSummary : Set := { tas_accumulator : InMemoryAccumulator }.

Definition TransactionAccumulatorSummary_new (accumulator : InMemoryAccumulator) :
    anyhow TransactionAccumulatorSummary :=
  let? _ := ensure (negb (InMemoryAccumulator.is_empty accumulator))
              "empty accumulator: we can't verify consistency proofs from an empty accumulator" in
  Ok {| tas_accumulator := accumulator |}.

Definition verify_consistency (self : TransactionAccumulatorSummary) (ledger_info : LedgerInfo) : anyhow unit :=
  let? _ := ensure (LedgerInfo.version ledger_info =? InMemoryAccumulator.version (tas_accumulator self))
              "ledger info and accumulator must be at the same version" in
  ensure (LedgerInfo.transaction_accumulator_hash ledger_info =? root_hash (tas_accumulator self))
    "ledger info root hash and accumulator root hash must match".

Definition try_from_genesis_proof (genesis_proof : AccumulatorConsistencyProof) (target_version : Z) :
    anyhow TransactionAccumulatorSummary :=
  let num_txns := Z.min (target_version + 1) U64_MAX in
  let? accumulator := InMemoryAccumulator.new (acp_subtrees genesis_proof) num_txns in
  Ok {| tas_accumulator := accumulator |}.

Definition try_extend_with_proof (self : TransactionAccumulatorSummary)
    (consistency_proof : AccumulatorConsistencyProof) (target_li : LedgerInfo) :
    anyhow TransactionAccumulatorSummary :=
  let? _ := ensure (InMemoryAccumulator.version (tas_accumulator self) <=? LedgerInfo.version target_li)
              "target ledger info version must be newer than our current accumulator summary version" in
  let num_new_txns := LedgerInfo.version target_li - InMemoryAccumulator.version (tas_accumulator self) in
  let? accumulator :=
    InMemoryAccumulator.append_subtrees (tas_accumulator self) (acp_subtrees consistency_proof) num_new_txns in
  let new_accumulator := {| tas_accumulator := accumulator |} in
  let? _ := verify_consistency new_accumulator target_li in
  Ok new_accumulator.

(** ** [AccumulatorRangeProof] *)

Record AccumulatorRangeProof : Set := {
  left_siblings : list HashValue;
  right_siblings : list HashValue;
}.

(** [chunks_exact(2)] and its remainder, combined into parents *)
Fixpoint pair_up (children : list HashValue) : list HashValue * list HashValue :=
  match children with
  | left_hash :: right_hash :: children =>
      let '(parents, remainder) := pair_up children in (internal_hash left_hash right_hash :: parents, remainder)
  | _ => ([], children)
  end.

(** One level: the parents of the current hashes and the siblings left *)
Definition range_level (first_pos : Z) (current_hashes left_iter right_iter : list HashValue) :
    anyhow (list HashValue * list HashValue * list HashValue) :=
  let? is_right := is_right_child first_pos in
  let? '(first_parent, children, left_iter) :=
    if (is_right : bool) then
      match left_iter with
      | [] => Err "First child is a right child, but missing sibling on the left."%string
      | left_hash :: left_iter =>
          match current_hashes with
          | [] => Panic
          | right_hash :: children => Ok ([internal_hash left_hash right_hash], children, left_iter)
          end
      end
    else Ok ([], current_hashes, left_iter) in
  let '(parents, remainder) := pair_up children in
  match remainder with
  | [] => Ok (first_parent ++ parents, left_iter, right_iter)
  | left_hash :: _ =>
      match right_iter with
      | [] => Err "Last child is a left child, but missing sibling on the right."%string
      | right_hash :: right_iter =>
          Ok (first_parent ++ parents ++ [internal_hash left_hash right_hash], left_iter, right_iter)
      end
  end.

(** The loop of [verify], until one hash and no sibling is left; each level takes a sibling or
    shortens the list. *)
Fixpoint range_loop (fuel : nat) (first_pos : Z) (current_hashes left_iter right_iter : list HashValue) :
    anyhow (list HashValue) :=
  match fuel with
  | O => Panic
  | S fuel =>
      if (1 <? len current_hashes) || bool_decide (left_iter <> []) || bool_decide (right_iter <> []) then
        let? '(parents, left_iter, right_iter) := range_level first_pos current_hashes left_iter right_iter in
        let? first_pos := parent first_pos in
        range_loop fuel first_pos parents left_iter right_iter
      else Ok current_hashes
  end.

Definition AccumulatorRangeProof_verify (self : AccumulatorRangeProof) (expected_root_hash : HashValue)
    (first_leaf_index : option Z) (leaf_hashes : list HashValue) : anyhow unit :=
  match first_leaf_index with
  | None =>
      let? _ := ensure (bool_decide (leaf_hashes = []))
                  "first_leaf_index indicated empty list while leaf_hashes is not empty." in
      ensure (bool_decide (left_siblings self = []) && bool_decide (right_siblings self = [])) "No siblings are needed."
  | Some first_leaf_index =>
      let? _ := ensure (len (left_siblings self) <=? MAX_ACCUMULATOR_PROOF_DEPTH) "Proof has too many left siblings" in
      let? _ := ensure (len (right_siblings self) <=? MAX_ACCUMULATOR_PROOF_DEPTH) "Proof has too many right siblings" in
      let? _ := ensure (bool_decide (leaf_hashes <> []))
                  "leaf_hashes is empty while first_leaf_index indicated non-empty list." in
      let? first_pos := from_leaf_index first_leaf_index in
      let fuel := S (length leaf_hashes + length (left_siblings self) + length (right_siblings self)) in
      let? hashes := range_loop fuel first_pos leaf_hashes (left_siblings self) (right_siblings self) in
      match hashes with
      | [] => Panic
      | hash :: _ => ensure (hash =? expected_root_hash) "Root hashes do not match"
      end
  end.

(** ** [AccumulatorExtensionProof] *)

Record AccumulatorExtensionProof : Set := {
  aep_frozen_subtree_roots : list HashValue;
  aep_num_leaves : Z;
  aep_leaves : list HashValue;
}.

Definition AccumulatorExtensionProof_verify (self : AccumulatorExtensionProof) (original_root : HashValue) :
    anyhow InMemoryAccumulator :=
  let? original_tree := InMemoryAccumulator.new (aep_frozen_subtree_roots self) (aep_num_leaves self) in
  let? _ := ensure (root_hash original_tree =? original_root) "Root hashes do not match" in
  InMemoryAccumulator.append original_tree (aep_leaves self).

(** ** Transaction infos *)

Context {TransactionInfo : Type} `{!CryptoHash TransactionInfo}.

Definition verify_transaction_info (ledger_info : LedgerInfo) (transaction_version : Z)
    (transaction_info : TransactionInfo) (proof : AccumulatorProof) : anyhow unit :=
  let? _ := ensure (transaction_version <=? LedgerInfo.version ledger_info)
              "Transaction version is newer than LedgerInfo version" in
  AccumulatorProof_verify proof (LedgerInfo.transaction_accumulator_hash ledger_info)
    (crypto_hash transaction_info) transaction_version.

Record TransactionInfoWithProof : Type := {
  ledger_info_to_transaction_info_proof : AccumulatorProof;
  transaction_info : TransactionInfo;
}.

Definition TransactionInfoWithProof_verify (self : TransactionInfoWithProof) (ledger_info : LedgerInfo)
    (transaction_version : Z) : anyhow unit :=
  verify_transaction_info ledger_info transaction_version (transaction_info self)
    (ledger_info_to_transaction_info_proof self).

Record TransactionInfoListWithProof : Type := {
  ledger_info_to_transaction_infos_proof : AccumulatorRangeProof;
  transaction_infos : list TransactionInfo;
}.

Definition TransactionInfoListWithProof_verify (self : TransactionInfoListWithProof) (ledger_info : LedgerInfo)
    (first_transaction_info_version : option Z) : anyhow unit :=
  AccumulatorRangeProof_verify (ledger_info_to_transaction_infos_proof self)
    (LedgerInfo.transaction_accumulator_hash ledger_info) first_transaction_info_version
    (map crypto_hash (transaction_infos self)).

Definition verify_extends_ledger (self : TransactionInfoListWithProof) (num_txns_in_ledger : Z)
    (root : HashValue) (first_transaction_info_version : option Z) : anyhow Z :=
  match first_transaction_info_version with
  | Some first_version =>
      let? _ := ensure (first_version <=? num_txns_in_ledger) "Transaction list too new" in
      let num_overlap_txns := num_txns_in_ledger - first_version in
      if len (transaction_infos self) <? num_overlap_txns then Ok (len (transaction_infos self))
      else
        let overlap_txn_infos := take (Z.to_nat num_overlap_txns) (transaction_infos self) in
        let frozen_subtree_roots_from_proof := rev (left_siblings (ledger_info_to_transaction_infos_proof self)) in
        let? accu := InMemoryAccumulator.new frozen_subtree_roots_from_proof first_version in
        let? accu_from_proof := InMemoryAccumulator.append accu (map crypto_hash overlap_txn_infos) in
        let? _ := ensure (root_hash accu_from_proof =? root)
                    "Fork happens because the current synced_trees doesn't match the txn list provided." in
        Ok num_overlap_txns
  | None =>
      let? _ := ensure (bool_decide (length (transaction_infos self) = 0%nat)) "transaction_infos is not empty" in
      Ok 0
  end.
End proofs.

(** ** The reference tree *)

(** Leaves under a node of level [k] *)
Definition width (k : nat) : nat := Z.to_nat (2 ^ Z.of_nat k).

Lemma width_Z k : Z.of_nat (width k) = 2 ^ Z.of_nat k.
Proof. unfold width. rewrite Z2Nat.id; [done |]. apply Z.lt_le_incl, pow2_pos. lia. Qed.

Lemma width_S k : width (S k) = (width k + width k)%nat.
Proof. apply Nat2Z.inj. rewrite Nat2Z.inj_add, !width_Z, Nat2Z.inj_succ, Z.pow_succ_r by lia. lia. Qed.

Lemma width_pos k : (0 < width k)%nat.
Proof. pose proof (pow2_pos (Z.of_nat k) ltac:(lia)). pose proof (width_Z k). lia. Qed.

Lemma width_le j k : (j <= k)%nat -> (width j <= width k)%nat.
Proof. intros Hjk. apply Nat2Z.inj_le. rewrite !width_Z. apply Z.pow_le_mono_r; lia. Qed.

Lemma width_mul j k : (j <= k)%nat -> width k = (width (k - j) * width j)%nat.
Proof.
  intros Hjk. apply Nat2Z.inj. rewrite Nat2Z.inj_mul, !width_Z, <- Z.pow_add_r by lia. f_equal. lia.
Qed.

Section reference.
Context `{!MerkleHasher}.

(** The root of the tree of depth [d] over the leaves, with a placeholder for each subtree that
    has none *)
Fixpoint tree_hash (d : nat) (leaves : list HashValue) : HashValue :=
  match leaves with
  | [] => ACCUMULATOR_PLACEHOLDER_HASH
  | leaf :: _ =>
      match d with
      | O => leaf
      | S d => internal_hash (tree_hash d (take (width d) leaves)) (tree_hash d (drop (width d) leaves))
      end
  end.

(** The roots of the full subtrees, the largest first *)
Fixpoint full_subtrees (k : nat) (leaves : list HashValue) : list HashValue :=
  match k with
  | O => []
  | S k =>
      if 2 ^ Z.of_nat k <=? len leaves
      then tree_hash k (take (width k) leaves) :: full_subtrees k (drop (width k) leaves)
      else full_subtrees k leaves
  end.

Definition tree_depth (leaves : list HashValue) : nat := Z.to_nat (Z.log2_up (len leaves)).

(** The accumulator of a list of leaves *)
Definition accumulator_of (leaves : list HashValue) : InMemoryAccumulator :=
  {| frozen_subtree_roots := full_subtrees 64 leaves;
     num_leaves := len leaves;
     root_hash := tree_hash (tree_depth leaves) leaves |}.

Lemma tree_hash_S d leaves :
  leaves <> [] ->
  tree_hash (S d) leaves = internal_hash (tree_hash d (take (width d) leaves)) (tree_hash d (drop (width d) leaves)).
Proof. by destruct leaves. Qed.

Lemma tree_hash_nil d : tree_hash d [] = ACCUMULATOR_PLACEHOLDER_HASH.
Proof. by destruct d. Qed.

Lemma full_subtrees_nil k : full_subtrees k [] = [].
Proof.
  induction k as [| k IH]; simpl; [done |]. pose proof (pow2_pos (Z.of_nat k) ltac:(lia)).
  rewrite (proj2 (Z.leb_gt _ _)); [done | unfold len; simpl; lia].
Qed.

Lemma full_subtrees_ge k leaves :
  (width k <= length leaves)%nat ->
  full_subtrees (S k) leaves = tree_hash k (take (width k) leaves) :: full_subtrees k (drop (width k) leaves).
Proof. intros Hlen. cbn [full_subtrees]. rewrite (proj2 (Z.leb_le _ _)); [done |]. unfold len. rewrite <- width_Z. lia. Qed.

Lemma full_subtrees_lt k leaves :
  (length leaves < width k)%nat -> full_subtrees (S k) leaves = full_subtrees k leaves.
Proof. intros Hlen. cbn [full_subtrees]. rewrite (proj2 (Z.leb_gt _ _)); [done |]. unfold len. rewrite <- width_Z. lia. Qed.

Lemma full_subtrees_more j k leaves :
  (length leaves < width j)%nat -> (j <= k)%nat -> full_subtrees k leaves = full_subtrees j leaves.
Proof.
  intros Hlen Hjk. induction Hjk as [| k Hjk IH]; [done |].
  rewrite full_subtrees_lt; [done |]. pose proof (width_le j k Hjk). lia.
Qed.

Lemma full_subtrees_count k leaves :
  (length leaves < width k)%nat -> len (full_subtrees k leaves) = count_ones (len leaves).
Proof.
  revert leaves. induction k as [| k IH]; intros leaves Hlen.
  - destruct leaves; [done |]. change (width 0) with 1%nat in Hlen. simpl in Hlen. lia.
  - destruct (decide (width k <= length leaves)%nat) as [Hge | Hlt].
    + rewrite full_subtrees_ge by done. rewrite width_S in Hlen. pose proof (width_Z k).
      unfold len at 1. cbn [length]. rewrite Nat2Z.inj_succ. change (Z.of_nat (length ?l)) with (len l).
      rewrite IH by (rewrite length_drop; lia).
      assert (len leaves = len (drop (width k) leaves) + 2 ^ Z.of_nat k) as ->
        by (unfold len; rewrite length_drop; lia).
      rewrite count_ones_top; [lia.. |]. unfold len. rewrite length_drop. lia.
    + rewrite full_subtrees_lt by lia. apply IH. lia.
Qed.

(** ** Carries *)

Lemma vec_pop_snoc {A} (l : list A) x : vec_pop (l ++ [x]) = Some (x, l).
Proof. unfold vec_pop. rewrite rev_app_distr. simpl. by rewrite rev_involutive. Qed.

Lemma merge_last_two {E} n l a b :
  @InMemoryAccumulator.merge_last _ E (S n) (l ++ [a] ++ [b]) = InMemoryAccumulator.merge_last n (l ++ [internal_hash a b]).
Proof. cbn [InMemoryAccumulator.merge_last]. rewrite app_assoc, vec_pop_snoc. cbn. by rewrite vec_pop_snoc. Qed.

Lemma merge_last_add {E} n m l :
  @InMemoryAccumulator.merge_last _ E (n + m) l
  = let? l := InMemoryAccumulator.merge_last n l in InMemoryAccumulator.merge_last m l.
Proof.
  revert l. induction n as [| n IH]; intros l; [done |]. cbn [InMemoryAccumulator.merge_last Nat.add].
  destruct (vec_pop l) as [[a l1] |]; [cbn | done]. destruct (vec_pop l1) as [[b l2] |]; [cbn | done]. apply IH.
Qed.

Lemma cons_middle_app {A} (l : list A) x m n : l ++ (x :: m) ++ n = (l ++ [x]) ++ m ++ n.
Proof. by rewrite <- !app_assoc. Qed.

(** A block of [2 ^ t] leaves that completes the subtree of level [k] *)
Lemma merge_full {E} t k prefix leaves block :
  (t <= k)%nat -> length block = width t -> (length leaves + width t = width k)%nat ->
  @InMemoryAccumulator.merge_last _ E (k - t) (prefix ++ full_subtrees k leaves ++ [tree_hash t block])
  = Ok (prefix ++ [tree_hash k (leaves ++ block)]).
Proof.
  intros Htk Hblock. revert prefix leaves. induction Htk as [| k Htk IH]; intros prefix leaves Hlen.
  - destruct leaves; [| simpl in Hlen; lia]. by rewrite Nat.sub_diag, full_subtrees_nil.
  - pose proof (width_le t k Htk) as Hle. rewrite width_S in Hlen.
    rewrite full_subtrees_ge by lia. replace (S k - t)%nat with (k - t + 1)%nat by lia.
    rewrite merge_last_add, cons_middle_app, IH by (rewrite length_drop; lia).
    cbn [result_bind]. rewrite <- app_assoc, merge_last_two. cbn [InMemoryAccumulator.merge_last]. do 3 f_equal.
    pose proof (width_pos t). rewrite tree_hash_S by (destruct leaves, block; simpl in *; try done; lia).
    rewrite take_app_le, drop_app_le by lia. done.
Qed.

Lemma level_add_pow2 n k : 0 <= k <= 63 -> 0 <= n -> n + 1 < 2 ^ k -> level (n + 2 ^ k) = level n.
Proof.
  intros Hk Hn Hlt. destruct (node_exists n Hn) as (l & q & Hl & Hq & ->).
  assert (2 ^ (k + 1) <= 2 ^ 64) by (apply Z.pow_le_mono_r; lia). rewrite pow2_succ in * by lia.
  assert (l < k) as Hlk.
  { apply (Z.pow_lt_mono_r_iff 2); [lia.. |]. unfold node in Hlt. pose proof (pow2_pos (l + 1)). nia. }
  assert (node l q + 2 ^ k = node l (q + 2 ^ (k - l - 1))) as ->.
  { unfold node. rewrite Z.mul_add_distr_r, <- Z.pow_add_r by lia. replace (k - l - 1 + (l + 1)) with k by lia. lia. }
  pose proof (pow2_pos (k - l - 1) ltac:(lia)).
  rewrite !level_node; [done | lia.. | |]; [lia |]. unfold node in *. rewrite Z.mul_add_distr_r, <- Z.pow_add_r by lia.
  replace (k - l - 1 + (l + 1)) with k by lia. lia.
Qed.

(** A block of [2 ^ t] leaves after a multiple of as many *)
Lemma merge_block {E} t k prefix leaves block m :
  (t <= k)%nat -> (k <= 64)%nat -> length block = width t -> (length leaves = m * width t)%nat ->
  (length leaves + width t < width k)%nat ->
  @InMemoryAccumulator.merge_last _ E (Z.to_nat (level (Z.of_nat m)))
    (prefix ++ full_subtrees k leaves ++ [tree_hash t block])
  = Ok (prefix ++ full_subtrees k (leaves ++ block)).
Proof.
  intros Htk Hk Hblock. revert prefix leaves m.
  induction Htk as [| k Htk IH]; intros prefix leaves m Hm Hlen; [lia |].
  pose proof (width_le t k Htk) as Hle. rewrite width_S in Hlen. pose proof (width_pos t) as Ht.
  pose proof (width_mul t k Htk) as Hw. set (w := width (k - t)) in *. pose proof (width_Z (k - t)) as HwZ. fold w in HwZ.
  destruct (decide (width k <= length leaves)%nat) as [Hge | Hlt].
  - rewrite full_subtrees_ge by done. rewrite cons_middle_app.
    assert (w <= m /\ m - w + 1 < w)%nat as [Hwm Hlt] by nia.
    replace (level (Z.of_nat m)) with (level (Z.of_nat (m - w))).
    2:{ rewrite <- (level_add_pow2 _ (Z.of_nat (k - t))) by (rewrite <- ?HwZ; lia). f_equal. rewrite <- HwZ. lia. }
    rewrite IH; [| lia | rewrite length_drop; nia | rewrite length_drop; lia]. f_equal. rewrite <- app_assoc. f_equal.
    rewrite full_subtrees_ge by (rewrite length_app; lia). by rewrite take_app_le, drop_app_le by lia.
  - rewrite full_subtrees_lt by lia. destruct (decide (length leaves + width t = width k)%nat) as [Heq | Hne].
    + assert (Z.of_nat m = node (Z.of_nat (k - t)) 0) as ->.
      { unfold node. rewrite Z.mul_0_l, <- HwZ. assert (m + 1 = w)%nat by nia. lia. }
      rewrite level_node, Nat2Z.id, merge_full by
        (done || lia || (rewrite node_0, Z.ones_equiv, <- Z.sub_1_r; assert (2 ^ Z.of_nat (k - t) <= 2 ^ 63) by (apply Z.pow_le_mono_r; lia); lia)).
      f_equal. f_equal. rewrite full_subtrees_ge by (rewrite length_app; lia).
      rewrite take_ge, drop_ge, full_subtrees_nil by (rewrite length_app; lia). done.
    + assert (m + 1 <= w)%nat as Hmw by nia. pose proof (Nat.mul_le_mono_r _ _ (width t) Hmw).
      rewrite (full_subtrees_lt k (leaves ++ block)) by (rewrite length_app; lia). apply IH; lia.
Qed.

(** ** The root *)

Lemma root_loop_odd {E} fuel hi root iter cur :
  0 <= hi ->
  @InMemoryAccumulator.root_loop _ E (S fuel) (1 + 2 * hi) (root :: iter) cur
  = InMemoryAccumulator.root_loop fuel hi iter (internal_hash root cur).
Proof.
  intros Hhi. cbn [InMemoryAccumulator.root_loop]. rewrite (proj2 (Z.ltb_lt _ _)) by lia.
  rewrite <- (Z.add_comm (2 * hi)). change 1 with (2 ^ 0) at 2. rewrite land_pow2_eqb, Z.testbit_odd_0 by lia.
  cbn [negb]. unfold shr. rewrite Z.shiftr_div_pow2 by lia. do 2 f_equal.
  symmetry. apply Z.div_unique_pos with 1; lia.
Qed.

Lemma root_loop_even {E} fuel hi iter cur :
  0 < hi ->
  @InMemoryAccumulator.root_loop _ E (S fuel) (2 * hi) iter cur
  = InMemoryAccumulator.root_loop fuel hi iter (internal_hash cur ACCUMULATOR_PLACEHOLDER_HASH).
Proof.
  intros Hhi. cbn [InMemoryAccumulator.root_loop]. rewrite (proj2 (Z.ltb_lt _ _)) by lia.
  change 1 with (2 ^ 0) at 1. rewrite land_pow2_eqb, Z.testbit_even_0 by lia.
  cbn [negb]. unfold shr. rewrite Z.shiftr_div_pow2 by lia. do 2 f_equal.
  symmetry. apply Z.div_unique_pos with 0; lia.
Qed.

(** The loop folds the roots of the leaves below level [k] into the root of their tree. *)
Lemma root_loop_tree {E} k t q hi fuel leaves rest :
  0 <= q -> 0 < hi -> len leaves = (2 * q + 1) * 2 ^ Z.of_nat t -> (length leaves < width k)%nat ->
  @InMemoryAccumulator.root_loop _ E ((k - t) + fuel) ((2 * q + 1) + hi * 2 ^ Z.of_nat (k - t))
    (rev (full_subtrees k leaves) ++ rest) ACCUMULATOR_PLACEHOLDER_HASH
  = InMemoryAccumulator.root_loop fuel hi rest (tree_hash k leaves).
Proof.
  intros Hq Hhi Hlen. pose proof (pow2_pos (Z.of_nat t) ltac:(lia)) as Ht. revert q hi fuel leaves rest Hq Hhi Hlen.
  induction k as [| k IH]; intros q hi fuel leaves rest Hq Hhi Hlen Hk.
  { change (width 0) with 1%nat in Hk. unfold len in Hlen. nia. }
  assert (Htk : (t <= k)%nat).
  { apply Nat2Z.inj_le, Z.lt_succ_r, (Z.pow_lt_mono_r_iff 2); [lia.. |]. rewrite <- Nat2Z.inj_succ, <- (width_Z (S k)).
    unfold len in Hlen. assert (2 ^ Z.of_nat t <= (2 * q + 1) * 2 ^ Z.of_nat t) by nia. lia. }
  pose proof (width_Z k) as Hwk. rewrite width_S in Hk. assert (Hne : leaves <> []) by (intros ->; unfold len in Hlen; simpl in Hlen; nia).
  pose proof (width_mul t k Htk) as Hmul. pose proof (width_Z (k - t)) as Hwkt. pose proof (width_Z t) as Hwt.
  replace (S k - t + fuel)%nat with (k - t + S fuel)%nat by lia.
  assert (2 ^ Z.of_nat (S k - t) = 2 * 2 ^ Z.of_nat (k - t)) as ->
    by (rewrite <- pow2_succ by lia; f_equal; lia).
  destruct (decide (width k <= length leaves)%nat) as [Hge | Hlt].
  - rewrite full_subtrees_ge by done. cbn [rev]. rewrite <- app_assoc. cbn [app].
    rewrite tree_hash_S by done. destruct (decide (k = t)) as [-> | Hkt].
    + assert (drop (width t) leaves = []) as ->.
      { apply drop_ge. unfold len in Hlen. assert (q = 0) by nia. lia. }
      rewrite full_subtrees_nil, tree_hash_nil, Nat.sub_diag. cbn [rev app Nat.add Z.of_nat].
      assert (q = 0) as -> by (unfold len in Hlen; nia).
      replace (2 * 0 + 1 + hi * (2 * 2 ^ Z.of_nat 0)) with (1 + 2 * hi) by (simpl; lia). by apply root_loop_odd; lia.
    + assert (2 ^ Z.of_nat (k - t) = 2 * 2 ^ Z.of_nat (k - t - 1)) as Hpow by (rewrite <- pow2_succ by lia; f_equal; lia).
      pose proof (pow2_pos (Z.of_nat (k - t - 1)) ltac:(lia)) as Hp.
      set (p := 2 ^ Z.of_nat (k - t - 1)) in *.
      assert (Hlen' : len (drop (width k) leaves) = (2 * (q - p) + 1) * 2 ^ Z.of_nat t).
      { unfold len in *. rewrite length_drop, Nat2Z.inj_sub by done. rewrite Hmul, Nat2Z.inj_mul. nia. }
      assert (p <= q) as Hpq.
      { destruct (Z.leb_spec p q); [done |]. exfalso. unfold len in *. nia. }
      replace (2 * q + 1 + hi * (2 * 2 ^ Z.of_nat (k - t))) with (2 * (q - p) + 1 + (1 + 2 * hi) * 2 ^ Z.of_nat (k - t))
        by (rewrite Hpow; lia).
      rewrite (IH (q - p) (1 + 2 * hi)) by (done || lia || (rewrite length_drop; lia)). by apply root_loop_odd; lia.
  - rewrite full_subtrees_lt by lia. 
    replace (2 * q + 1 + hi * (2 * 2 ^ Z.of_nat (k - t))) with (2 * q + 1 + (2 * hi) * 2 ^ Z.of_nat (k - t)) by lia.
    rewrite IH by (done || lia). rewrite root_loop_even by lia.
    rewrite tree_hash_S, take_ge, drop_ge, tree_hash_nil by (done || lia). done.
Qed.

Lemma len_pos {A} (l : list A) : l <> [] -> 0 < len l.
Proof. destruct l; [done |]. unfold len. simpl. lia. Qed.

Lemma tree_depth_pow2 leaves k : length leaves = width k -> tree_depth leaves = k.
Proof. intros Hlen. unfold tree_depth, len. rewrite Hlen, width_Z, Z.log2_up_pow2 by lia. lia. Qed.

Lemma tree_depth_between leaves k :
  (width k < length leaves < width (S k))%nat -> tree_depth leaves = S k.
Proof.
  intros Hlen. unfold tree_depth. rewrite (Z.log2_up_unique (len leaves) (Z.of_nat (S k))); [lia.. |].
  rewrite Nat2Z.inj_succ, Z.pred_succ, <- Nat2Z.inj_succ, <- !width_Z. unfold len. lia.
Qed.

Lemma count_ones_pos n : 0 < n -> 0 < count_ones n.
Proof. destruct n as [| p | p]; [done | intros _ | done]. induction p; simpl in *; lia. Qed.

(** [compute_root_hash] is the root of the tree over the leaves. *)
Lemma compute_root_hash_tree {E} leaves :
  len leaves < 2 ^ 64 ->
  @InMemoryAccumulator.compute_root_hash _ E (full_subtrees 64 leaves) (len leaves)
  = Ok (tree_hash (tree_depth leaves) leaves).
Proof.
  intros Hlen. destruct (decide (leaves = [])) as [-> | Hne]; [by rewrite full_subtrees_nil, tree_hash_nil |].
  pose proof (len_pos leaves Hne) as Hpos. set (k := Z.to_nat (Z.log2 (len leaves))).
  pose proof (Z.log2_nonneg (len leaves)) as Hlog. pose proof (Z.log2_spec (len leaves) Hpos) as [Hlo Hhi].
  assert (Z.log2 (len leaves) < 64) by (apply Z.log2_lt_pow2; lia).
  assert (Hk : Z.of_nat k = Z.log2 (len leaves)) by lia. rewrite <- Hk in Hlo, Hhi.
  rewrite <- Nat2Z.inj_succ, <- !width_Z in Hhi. rewrite <- width_Z in Hlo. unfold len in Hlo, Hhi.
  rewrite (full_subtrees_more (S k) 64) by lia. rewrite full_subtrees_ge by lia.
  destruct (decide (length leaves = width k)) as [Heq | Hneq].
  - rewrite drop_ge, take_ge, full_subtrees_nil by lia. by rewrite (tree_depth_pow2 leaves k).
  - set (R := drop (width k) leaves). assert (HR : R <> []) by (intros HR; apply (f_equal length) in HR; subst R; rewrite length_drop in HR; simpl in HR; lia).
    assert (Hsub : (length R < width k)%nat) by (subst R; rewrite length_drop; rewrite width_S in Hhi; lia).
    destruct (odd_part (len R) (len_pos R HR)) as (t & q & Ht & Hq & Hodd).
    assert (Htk : t < Z.of_nat k).
    { apply (Z.pow_lt_mono_r_iff 2); [lia.. |]. rewrite <- width_Z. pose proof (pow2_pos t Ht). unfold len in Hodd. nia. }
    set (p := 2 ^ (Z.of_nat k - t - 1)). assert (Hp : 2 ^ (Z.of_nat k - t) = 2 * p) by (subst p; rewrite <- pow2_succ by lia; f_equal; lia).
    assert (Hp0 : 0 < p) by (apply pow2_pos; lia).
    assert (Hnum : len leaves = 2 ^ t * (2 * (q + p) + 1)).
    { assert (len leaves = len R + 2 ^ Z.of_nat k) as -> by (unfold len, R; rewrite length_drop, <- width_Z; lia).
      replace (Z.of_nat k) with (Z.of_nat k - t + t) at 1 by lia. rewrite Hodd, Z.pow_add_r, Hp by lia. lia. }
    unfold InMemoryAccumulator.compute_root_hash.
    assert (full_subtrees k R <> []) as Hroots.
    { intros Hnil. pose proof (full_subtrees_count k R Hsub) as Hcount. rewrite Hnil in Hcount.
      pose proof (count_ones_pos (len R) (len_pos R HR)). change (len []) with 0 in Hcount. lia. }
    destruct (full_subtrees k R) as [| x xs] eqn:Hfs; [done |]. rewrite <- Hfs.
    rewrite Hnum, trailing_zeros_odd by done. unfold checked_shr. rewrite (proj2 (Z.ltb_lt t 64)) by lia. cbn [result_bind].
    unfold shr. rewrite Z.shiftr_div_pow2, Z.mul_comm, Z.div_mul by (pose proof (pow2_pos t Ht); lia).
    replace (2 * (q + p) + 1) with (2 * q + 1 + 1 * 2 ^ Z.of_nat (k - Z.to_nat t))
      by (replace (Z.of_nat (k - Z.to_nat t)) with (Z.of_nat k - t) by lia; rewrite Hp; lia).
    cbn [rev]. replace 65%nat with ((k - Z.to_nat t) + S (S (63 - (k - Z.to_nat t))))%nat by lia.
    rewrite root_loop_tree by (done || lia || (rewrite Z2Nat.id by done; lia)).
    change 1 with (1 + 2 * 0). rewrite root_loop_odd by lia. cbn [InMemoryAccumulator.root_loop]. rewrite Z.ltb_irrefl.
    rewrite (tree_depth_between leaves k) by lia. by rewrite tree_hash_S.
Qed.

Lemma new_accumulator leaves :
  len leaves < 2 ^ 64 -> InMemoryAccumulator.new (full_subtrees 64 leaves) (len leaves) = Ok (accumulator_of leaves).
Proof.
  intros Hlen. unfold InMemoryAccumulator.new. rewrite full_subtrees_count.
  2:{ apply Nat2Z.inj_lt. rewrite width_Z. exact Hlen. }
  rewrite Z.eqb_refl. cbn [ensure result_bind]. by rewrite compute_root_hash_tree.
Qed.

Lemma append_one_below {E} k leaves leaf :
  (k <= 64)%nat -> (length leaves + 1 < width k)%nat ->
  @InMemoryAccumulator.append_one _ E (full_subtrees k leaves) (len leaves) leaf = Ok (full_subtrees k (leaves ++ [leaf])).
Proof.
  intros Hk Hlen. unfold InMemoryAccumulator.append_one.
  apply (merge_block (E := E) 0 k [] leaves [leaf] (length leaves)); change (width 0) with 1%nat; [lia.. | done | lia | done].
Qed.

Lemma append_one_spec {E} leaves leaf :
  len leaves + 1 < 2 ^ 64 ->
  @InMemoryAccumulator.append_one _ E (full_subtrees 64 leaves) (len leaves) leaf = Ok (full_subtrees 64 (leaves ++ [leaf])).
Proof.
  intros Hlen. apply append_one_below; [done |].
  apply Nat2Z.inj_lt. rewrite width_Z, Nat2Z.inj_add. exact Hlen.
Qed.

Lemma append_loop_spec {E} xs ys :
  len xs + len ys < 2 ^ 64 ->
  @InMemoryAccumulator.append_loop _ E (full_subtrees 64 xs) (len xs) ys = Ok (full_subtrees 64 (xs ++ ys), len (xs ++ ys)).
Proof.
  revert xs. induction ys as [| y ys IH]; intros xs Hlen; [by rewrite app_nil_r |].
  assert (len (y :: ys) = len ys + 1) as Hcons by (unfold len; simpl length; lia).
  assert (len (xs ++ [y]) = len xs + 1) as Hsnoc by (unfold len; rewrite length_app; simpl; lia).
  assert (0 <= len ys) by (unfold len; lia). cbn [InMemoryAccumulator.append_loop].
  rewrite append_one_spec by lia. cbn [result_bind]. unfold checked_add.
  rewrite (proj2 (Z.ltb_lt _ _)) by lia. cbn [result_bind].
  rewrite <- Hsnoc, IH by lia. by rewrite <- app_assoc.
Qed.

Lemma append_spec {E} xs ys :
  len xs + len ys < 2 ^ 64 ->
  @InMemoryAccumulator.append _ E (accumulator_of xs) ys = Ok (accumulator_of (xs ++ ys)).
Proof.
  intros Hlen. unfold InMemoryAccumulator.append. cbn [frozen_subtree_roots num_leaves accumulator_of].
  rewrite append_loop_spec by done. cbn [result_bind]. rewrite new_accumulator; [done |].
  unfold len in *. rewrite length_app. lia.
Qed.
End reference.

(** ** Inclusion proofs *)

(** What the proofs rely on: inner hashes determine their children, and neither the placeholder
    nor the hashes used as leaves, a [leaf] of another hasher, is one of them. *)
Class MerkleLaws `{!MerkleHasher} (leaf : HashValue -> Prop) := {
  internal_hash_inj : forall a b c d, internal_hash a b = internal_hash c d -> a = c /\ b = d;
  internal_hash_placeholder : forall a b, internal_hash a b <> ACCUMULATOR_PLACEHOLDER_HASH;
  leaf_internal : forall h a b, leaf h -> h <> internal_hash a b;
  leaf_placeholder : forall h, leaf h -> h <> ACCUMULATOR_PLACEHOLDER_HASH;
}.

Section inclusion.
Context `{!MerkleHasher}.

(** The siblings of the path from leaf [i] to the root, from the bottom *)
Fixpoint merkle_path (d : nat) (leaves : list HashValue) (i : Z) : list HashValue :=
  match d with
  | O => []
  | S d =>
      if i <? 2 ^ Z.of_nat d
      then merkle_path d (take (width d) leaves) i ++ [tree_hash d (drop (width d) leaves)]
      else merkle_path d (drop (width d) leaves) (i - 2 ^ Z.of_nat d) ++ [tree_hash d (take (width d) leaves)]
  end.

(** The step of the fold in [AccumulatorProof::verify] *)
Definition climb_step (p : HashValue * Z) (sibling_hash : HashValue) : HashValue * Z :=
  (if p.2 mod 2 =? 0 then internal_hash p.1 sibling_hash else internal_hash sibling_hash p.1, p.2 / 2).

Definition climb (hash : HashValue) (index : Z) (siblings : list HashValue) : HashValue :=
  (foldl climb_step (hash, index) siblings).1.

Lemma AccumulatorProof_verify_Ok proof root hash index :
  AccumulatorProof_verify proof root hash index = Ok tt <->
  len (ap_siblings proof) <= 63 /\ climb hash index (ap_siblings proof) = root.
Proof.
  unfold AccumulatorProof_verify, ensure, MAX_ACCUMULATOR_PROOF_DEPTH.
  assert (forall p, (foldl (fun '(hash, index) sibling_hash =>
     (if index mod 2 =? 0 then internal_hash hash sibling_hash else internal_hash sibling_hash hash, index / 2))
       p (ap_siblings proof)) = foldl climb_step p (ap_siblings proof)) as Heq.
  { induction (ap_siblings proof) as [| x xs IH]; intros [h i]; [done |]. simpl. apply IH. }
  rewrite Heq. fold (climb hash index (ap_siblings proof)).
  destruct (Z.leb_spec (len (ap_siblings proof)) 63); cbn [result_bind]; [| split; [done | lia]].
  destruct (Z.eqb_spec (climb hash index (ap_siblings proof)) root); split; naive_solver.
Qed.

Lemma climb_index hash index siblings :
  (foldl climb_step (hash, index) siblings).2 = index / 2 ^ len siblings.
Proof.
  revert hash index. induction siblings as [| x xs IH]; intros hash index; [by rewrite Z.div_1_r |].
  cbn [foldl]. unfold climb_step at 2. rewrite IH. cbn [fst snd]. unfold len. cbn [length].
  rewrite Nat2Z.inj_succ, Z.pow_succ_r, Z.div_div by (try apply pow2_pos; lia). done.
Qed.

Lemma climb_snoc hash index siblings x :
  0 <= index ->
  climb hash index (siblings ++ [x])
  = if Z.testbit index (len siblings) then internal_hash x (climb hash index siblings)
    else internal_hash (climb hash index siblings) x.
Proof.
  intros Hi. unfold climb. rewrite foldl_snoc. unfold climb_step at 1. cbn [fst]. rewrite climb_index.
  assert (0 <= len siblings) by (unfold len; lia).
  rewrite <- Z.testbit_spec' by done. by destruct (Z.testbit index (len siblings)).
Qed.

Lemma merkle_path_length d leaves i : length (merkle_path d leaves i) = d.
Proof.
  revert leaves i. induction d as [| d IH]; intros leaves i; [done |]. simpl.
  destruct (_ <? _); rewrite length_app, IH; simpl; lia.
Qed.

(** Only the low bits of the index matter. *)
Lemma climb_low hash i j siblings :
  0 <= i -> 0 <= j -> i mod 2 ^ len siblings = j mod 2 ^ len siblings -> climb hash i siblings = climb hash j siblings.
Proof.
  intros Hi Hj. induction siblings as [| x xs IH] using rev_ind; [done |]. intros Heq.
  assert (len (xs ++ [x]) = len xs + 1) as Hl by (unfold len; rewrite length_app; simpl; lia). rewrite Hl in Heq.
  assert (0 <= len xs) by (unfold len; lia).
  assert (Hbit : Z.testbit i (len xs) = Z.testbit j (len xs)).
  { rewrite <- (Z.mod_pow2_bits_low i (len xs + 1)), <- (Z.mod_pow2_bits_low j (len xs + 1)) by lia. by rewrite Heq. }
  rewrite !mod_pow2_succ, Hbit in Heq by lia.
  rewrite !climb_snoc, Hbit, IH by lia. done.
Qed.

Lemma bit_below i d : 0 <= d -> 0 <= i < 2 ^ d -> Z.testbit i d = false.
Proof. intros Hd Hi. exact (proj2 (proj1 (is_word_testbit d i Hd) Hi) d (Z.le_refl d)). Qed.

Lemma bit_above i d : 0 <= d -> 2 ^ d <= i < 2 * 2 ^ d -> Z.testbit i d = true.
Proof.
  intros Hd Hi. apply Z.testbit_true; [done |]. replace (i / 2 ^ d) with 1; [done |].
  apply Z.div_unique_pos with (i - 2 ^ d); lia.
Qed.

(** The path of a leaf leads to the root. *)
Lemma climb_merkle_path d leaves i h :
  0 <= i < 2 ^ Z.of_nat d -> leaves !! Z.to_nat i = Some h -> (length leaves <= width d)%nat ->
  climb h i (merkle_path d leaves i) = tree_hash d leaves.
Proof.
  revert leaves i. induction d as [| d IH]; intros leaves i Hi Hh Hlen.
  - replace i with 0 in Hh by (simpl in Hi; lia). by destruct leaves; simplify_eq/=.
  - rewrite Nat2Z.inj_succ, Z.pow_succ_r in Hi by lia. pose proof (width_Z d) as Hw. rewrite width_S in Hlen.
    rewrite tree_hash_S by (intros ->; done). cbn [merkle_path].
    assert (forall l, len (merkle_path d l i) = Z.of_nat d) as Hpath by (intros l; unfold len; by rewrite merkle_path_length).
    destruct (Z.ltb_spec i (2 ^ Z.of_nat d)).
    + rewrite climb_snoc, Hpath by lia.
      rewrite bit_below by lia. f_equal. apply IH; [lia | | rewrite length_take; lia].
      by rewrite lookup_take_lt by lia.
    + rewrite climb_snoc by lia. unfold len at 1. rewrite merkle_path_length, bit_above by lia. f_equal.
      rewrite (climb_low h i (i - 2 ^ Z.of_nat d)).
      * apply IH; [lia | | rewrite length_drop; lia]. rewrite lookup_drop. rewrite <- Hh. f_equal. lia.
      * lia.
      * lia.
      * unfold len. rewrite merkle_path_length. rewrite <- (Z.mod_add i (-1)) by lia. f_equal; lia.
Qed.

Context (leaf : HashValue -> Prop) `{!MerkleLaws leaf}.

Lemma climb_cases hash index siblings :
  0 <= index -> siblings = [] /\ climb hash index siblings = hash \/ exists a b, climb hash index siblings = internal_hash a b.
Proof.
  intros Hi. induction siblings as [| x xs _] using rev_ind; [by left |]. right. rewrite climb_snoc by done.
  destruct (Z.testbit _ _); eauto.
Qed.

(** Siblings that lead from a leaf's hash to the root prove where the leaf is. *)
Lemma climb_sound d leaves h index siblings :
  0 <= index -> leaf h -> Forall leaf leaves -> (length leaves <= width d)%nat ->
  climb h index siblings = tree_hash d leaves ->
  length siblings = d /\ leaves !! Z.to_nat (index mod 2 ^ Z.of_nat d) = Some h.
Proof.
  intros Hi Hh. revert index siblings leaves Hi. induction d as [| d IH]; intros index siblings leaves Hi Hleaves Hlen Heq.
  - rewrite Z.mod_1_r. destruct leaves as [| x leaves].
    { rewrite tree_hash_nil in Heq. exfalso. destruct (climb_cases h index siblings Hi) as [[_ Hc] | (a & b & Hc)]; rewrite Hc in Heq.
      - by apply (leaf_placeholder h Hh).
      - by apply (internal_hash_placeholder a b). }
    apply list.Forall_cons in Hleaves as [Hx _]. cbn [tree_hash] in Heq.
    destruct (climb_cases h index siblings Hi) as [[-> Hc] | (a & b & Hc)]; rewrite Hc in Heq; [by subst |].
    exfalso. by apply (leaf_internal x a b Hx).
  - destruct (decide (leaves = [])) as [-> | Hne].
    { rewrite tree_hash_nil in Heq. exfalso. destruct (climb_cases h index siblings Hi) as [[_ Hc] | (a & b & Hc)]; rewrite Hc in Heq.
      - by apply (leaf_placeholder h Hh).
      - by apply (internal_hash_placeholder a b). }
    rewrite tree_hash_S in Heq by done. rewrite width_S in Hlen. pose proof (width_Z d) as Hw.
    destruct siblings as [| x xs _] using rev_ind; [by apply (leaf_internal h _ _ Hh) in Heq |].
    rewrite climb_snoc in Heq by done. pose proof (pow2_pos (Z.of_nat d) ltac:(lia)) as Hpos.
    pose proof (Z.mod_pos_bound index (2 ^ Z.of_nat d) Hpos).
    rewrite length_app, Nat2Z.inj_succ, <- Z.add_1_r, mod_pow2_succ by lia.
    destruct (Z.testbit index (len xs)) eqn:Hbit; apply internal_hash_inj in Heq as [Hl Hr].
    + apply IH in Hr as [Hlen' Hlook]; [| done | by apply Forall_drop | rewrite length_drop; lia].
      unfold len in Hbit. rewrite Hlen' in Hbit. rewrite Hbit. split; [simpl; lia |].
      rewrite lookup_drop in Hlook. rewrite <- Hlook. f_equal. lia.
    + apply IH in Hl as [Hlen' Hlook]; [| done | by apply Forall_take | rewrite length_take; lia].
      unfold len in Hbit. rewrite Hlen' in Hbit. rewrite Hbit. split; [simpl; lia |].
      rewrite lookup_take_lt in Hlook by lia. rewrite Z.add_0_l. exact Hlook.
Qed.
End inclusion.

Lemma tree_depth_fits `{!MerkleHasher} leaves :
  len leaves <= 2 ^ 63 -> (length leaves <= width (tree_depth leaves))%nat /\ (tree_depth leaves <= 63)%nat.
Proof.
  intros Hlen. unfold tree_depth. pose proof (Z.log2_up_nonneg (len leaves)).
  assert (Z.log2_up (len leaves) <= 63) as Hle by (rewrite <- (Z.log2_up_pow2 63) by lia; by apply Z.log2_up_le_mono).
  split; [| lia]. apply Nat2Z.inj_le. rewrite width_Z, Z2Nat.id by done. fold (len leaves).
  destruct (Z.leb_spec (len leaves) 1) as [Hle1 | Hgt]; [rewrite Z.log2_up_eqn0 by lia; exact Hle1 |].
  apply Z.log2_up_spec. exact Hgt.
Qed.

(** C19. The in-memory accumulator is the Merkle tree over its leaves. The accumulator of a list of
    leaves keeps the roots of their full subtrees and the root of the padded tree; rebuilding it
    from those roots gives it back, and appending leaves, with carries over the trailing ones of
    the leaf count, gives the accumulator of the longer list. Nothing panics below [2 ^ 64]
    leaves. *)
Theorem accumulator_is_merkle_tree `{!MerkleHasher} (xs ys : list HashValue) (Hlen : len xs + len ys < 2 ^ 64) :
  InMemoryAccumulator.new (frozen_subtree_roots (accumulator_of xs)) (num_leaves (accumulator_of xs))
    = Ok (accumulator_of xs) /\
  @InMemoryAccumulator.append _ string (accumulator_of xs) ys = Ok (accumulator_of (xs ++ ys)) /\
  @InMemoryAccumulator.from_leaves _ string ys = Ok (accumulator_of ys).
Proof.
  assert (0 <= len xs /\ 0 <= len ys) as [Hx Hy] by (unfold len; lia). split_and!.
  - apply new_accumulator. lia.
  - by apply append_spec.
  - unfold InMemoryAccumulator.from_leaves, InMemoryAccumulator.default.
    pose proof (new_accumulator [] ltac:(done)) as Hempty. rewrite full_subtrees_nil in Hempty.
    change (len []) with 0 in Hempty. rewrite Hempty. cbn [InMemoryAccumulator.expect result_bind].
    rewrite (append_spec [] ys); [done |]. change (len []) with 0. lia.
Qed.

(** A hasher that satisfies the laws: pairs of hashes as odd numbers, leaves as the small even ones *)
Definition pair_hasher : MerkleHasher := fun a b => 2 * Zpos (encode (a, b)) + 1.

Definition small_leaf (h : HashValue) : Prop := 0 <= h < 2 ^ 32 /\ Z.even h = true.

Lemma pair_hasher_laws : @MerkleLaws pair_hasher small_leaf.
Proof.
  split; unfold internal_hash, pair_hasher.
  - intros a b c d Heq. assert (encode (a, b) = encode (c, d)) as Henc by lia. apply encode_inj in Henc. by simplify_eq.
  - intros a b Heq. apply (f_equal Z.odd) in Heq. rewrite Z.odd_add, Z.odd_mul in Heq.
    assert (Z.odd ACCUMULATOR_PLACEHOLDER_HASH = false) as Hodd by (by vm_compute). rewrite Hodd in Heq. discriminate Heq.
  - intros h a b [_ Heven] ->. rewrite Z.even_add, Z.even_mul in Heven. done.
  - intros h [Hh _] ->. vm_compute in Hh. destruct Hh as [_ Hh]. done.
Qed.

Lemma accumulator_is_merkle_tree_witness :
  @InMemoryAccumulator.append pair_hasher string (@accumulator_of pair_hasher [2; 4; 6]) [8; 10]
    = Ok (@accumulator_of pair_hasher [2; 4; 6; 8; 10]).
Proof. exact (proj1 (proj2 (@accumulator_is_merkle_tree pair_hasher [2; 4; 6] [8; 10] ltac:(by vm_compute)))). Defined.

(** C20. Inclusion proofs are sound and complete. Against a ledger info whose accumulator hash and
    version are those of a list of transaction hashes, some proof of a transaction info verifies
    at a version exactly when that version is not after the ledger info's and the list holds the
    info's hash there. *)
Theorem transaction_proof_sound_complete `{!MerkleHasher} {TransactionInfo : Type}
    `{!CryptoHash TransactionInfo} (leaf : HashValue -> Prop) `{!MerkleLaws leaf}
    (leaves : list HashValue) (li : LedgerInfo) (version : Z) (info : TransactionInfo)
    (Hleaves : Forall leaf leaves) (Hinfo : leaf (crypto_hash info)) (Hversion : 0 <= version)
    (Hsize : 0 < len leaves <= 2 ^ 63)
    (Hroot : LedgerInfo.transaction_accumulator_hash li = root_hash (accumulator_of leaves))
    (Hli : LedgerInfo.version li = InMemoryAccumulator.version (accumulator_of leaves)) :
  (exists proof, verify_transaction_info li version info proof = Ok tt) <->
  version <= LedgerInfo.version li /\ leaves !! Z.to_nat version = Some (crypto_hash info).
Proof.
  destruct (tree_depth_fits leaves ltac:(lia)) as [Hfits Hdepth].
  assert (Hv : LedgerInfo.version li = len leaves - 1).
  { rewrite Hli. unfold InMemoryAccumulator.version. cbn [num_leaves accumulator_of]. by rewrite (proj2 (Z.eqb_neq _ _)) by lia. }
  assert (Hbound : version <= LedgerInfo.version li -> version < 2 ^ Z.of_nat (tree_depth leaves)).
  { intros Hle. rewrite <- width_Z. unfold len in *. lia. }
  unfold verify_transaction_info, ensure. rewrite Hroot. cbn [root_hash accumulator_of].
  destruct (Z.leb_spec version (LedgerInfo.version li)) as [Hle | Hgt]; cbn [result_bind].
  2:{ split; [by intros [? ?] | lia]. }
  split.
  - intros [proof Hok]. split; [done |]. apply AccumulatorProof_verify_Ok in Hok as [_ Hclimb].
    apply (climb_sound leaf) in Hclimb as [_ Hlook]; [| done..]. by rewrite Z.mod_small in Hlook by auto.
  - intros [_ Hlook]. exists {| ap_siblings := merkle_path (tree_depth leaves) leaves version |}.
    apply AccumulatorProof_verify_Ok. cbn [ap_siblings]. unfold len at 1. rewrite merkle_path_length. split; [lia |].
    by apply climb_merkle_path; [auto | |].
Qed.

Definition plain_hash : CryptoHash Z := fun x => x.

Definition sample_ledger_info (root : HashValue) (version : Z) : LedgerInfo :=
  {| li_commit_info := {| bi_epoch := 1; bi_round := 1; bi_id := 7; bi_executed_state_id := root;
                          bi_version := version; bi_timestamp_usecs := 1; bi_next_epoch_state := None |};
     li_consensus_data_hash := 0 |}.

Lemma transaction_proof_sound_complete_witness :
  exists proof,
    @verify_transaction_info pair_hasher Z plain_hash
      (sample_ledger_info (root_hash (@accumulator_of pair_hasher [2; 4; 6])) 2) 1 4 proof = Ok tt.
Proof.
  refine (proj2 (@transaction_proof_sound_complete pair_hasher Z plain_hash small_leaf pair_hasher_laws
            [2; 4; 6] (sample_ledger_info (root_hash (@accumulator_of pair_hasher [2; 4; 6])) 2) 1 4
            _ _ _ _ _ _) _).
  - repeat constructor; vm_compute; done.
  - repeat constructor; vm_compute; done.
  - lia.
  - vm_compute. done.
  - reflexivity.
  - reflexivity.
  - split; [vm_compute; done | reflexivity].
Defined.

