(* ===== verification/ConsensusTypes.v ===== *)
(** * Votes, certificates and blocks

    The data of src/consensus/consensus-types/src that the safety rules check: [VoteData]
    (vote_data.rs), [QuorumCert] (quorum_cert.rs), [TwoChainTimeout] and
    [TwoChainTimeoutCertificate] with their partial signatures (timeout_2chain.rs), [Vote]
    (vote.rs), [BlockData] and [Block] (block_data.rs, block.rs), [VoteProposal]
    (vote_proposal.rs) and [SafetyData] (safety_data.rs).

    Transactions and proofs of store in a payload are identified by numbers. The clock that
    [verify_well_formed] reads is its argument [now], in microseconds. *)

From Stdlib Require Import String.
From stdpp Require Import gmap sorting.
From S2P Require Import Prelude Word Position Validators LedgerTypes Accumulator.
Local Open Scope Z_scope.

Abbreviation Author := Z (only parsing).
Abbreviation Round := Z (only parsing).

(** ** [VoteData] *)

Record VoteData : Set := {
  vd_proposed : BlockInfo;
  vd_parent : BlockInfo;
}.

#[global] Instance VoteData_eq_dec : EqDecision VoteData.
Proof. solve_decision. Defined.

Definition VoteData_verify (self : VoteData) : anyhow unit :=
  let? _ := ensure (bi_epoch (vd_parent self) =? bi_epoch (vd_proposed self)) "Parent and proposed epochs do not match" in
  let? _ := ensure (bi_round (vd_parent self) <? bi_round (vd_proposed self)) "Proposed round is less than parent round" in
  let? _ := ensure (bi_timestamp_usecs (vd_parent self) <=? bi_timestamp_usecs (vd_proposed self))
              "Proposed happened before parent" in
  ensure ((bi_version (vd_proposed self) =? 0) || (bi_version (vd_parent self) <=? bi_version (vd_proposed self)))
    "Proposed version is less than parent version".

Definition VoteData_is_for_nil (self : VoteData) : bool :=
  bi_timestamp_usecs (vd_proposed self) =? bi_timestamp_usecs (vd_parent self).

(** ** [QuorumCert] *)

Record QuorumCert : Set := {
  qc_vote_data : VoteData;
  qc_signed_ledger_info : LedgerInfoWithSignatures;
}.

#[global] Instance QuorumCert_eq_dec : EqDecision QuorumCert.
Proof. solve_decision. Defined.

Module QuorumCert.
Definition certified_block (self : QuorumCert) : BlockInfo := vd_proposed (qc_vote_data self).
Definition parent_block (self : QuorumCert) : BlockInfo := vd_parent (qc_vote_data self).
Definition ledger_info (self : QuorumCert) : LedgerInfo := liws_ledger_info (qc_signed_ledger_info self).
Definition commit_info (self : QuorumCert) : BlockInfo := li_commit_info (ledger_info self).
Definition ends_epoch (self : QuorumCert) : bool := LedgerInfo.ends_epoch (ledger_info self).

Section hashed.
Context `{!CryptoHash VoteData}.

Definition certificate_for_genesis_from_ledger_info {E} (ledger_info : LedgerInfo) (genesis_id : HashValue) :
    result E QuorumCert :=
  let? epoch := checked_add 64 (LedgerInfo.epoch ledger_info) 1 in
  let ancestor :=
    {| bi_epoch := epoch; bi_round := 0; bi_id := genesis_id;
       bi_executed_state_id := LedgerInfo.transaction_accumulator_hash ledger_info;
       bi_version := LedgerInfo.version ledger_info;
       bi_timestamp_usecs := LedgerInfo.timestamp_usecs ledger_info;
       bi_next_epoch_state := None |} in
  let vote_data := {| vd_proposed := ancestor; vd_parent := ancestor |} in
  let li := {| li_commit_info := ancestor; li_consensus_data_hash := crypto_hash vote_data |} in
  let? epoch_state := unwrap (LedgerInfo.next_epoch_state ledger_info) in
  let validator_set_size := ValidatorVerifier.len (es_verifier epoch_state) in
  Ok {| qc_vote_data := vote_data;
        qc_signed_ledger_info :=
          {| liws_ledger_info := li;
             liws_signatures :=
               {| validator_bitmask := BitVec.with_num_bits (validator_set_size mod 2 ^ 16); agg_sig := None |} |} |}.

Context {Message : Type} `{!Bls Message, !Signable LedgerInfo Message}.

Definition verify (self : QuorumCert) (validator : ValidatorVerifier) : anyhow unit :=
  let vote_hash := crypto_hash (qc_vote_data self) in
  let? _ := ensure (li_consensus_data_hash (ledger_info self) =? vote_hash) "Quorum Cert's hash mismatch LedgerInfo" in
  if bi_round (certified_block self) =? 0 then
    let? _ := ensure (bool_decide (parent_block self = certified_block self))
                "Genesis QC has inconsistent parent block with certified block" in
    let? _ := ensure (bool_decide (certified_block self = commit_info self))
                "Genesis QC has inconsistent commit block with certified block" in
    ensure (AggregateSignature.get_num_voters (liws_signatures (qc_signed_ledger_info self)) =? 0)
      "Genesis QC should not carry signatures"
  else
    let? _ := context "Fail to verify QuorumCert" (verify_signatures (qc_signed_ledger_info self) validator) in
    VoteData_verify (qc_vote_data self).
End hashed.

Definition create_merged_with_executed_state (self : QuorumCert) (executed_ledger_info : LedgerInfoWithSignatures) :
    anyhow QuorumCert :=
  let executed_commit_info := li_commit_info (liws_ledger_info executed_ledger_info) in
  let? _ := ensure (BlockInfo.match_ordered_only (commit_info self) executed_commit_info)
              "Block info from QC and executed LI need to match" in
  Ok {| qc_vote_data := qc_vote_data self; qc_signed_ledger_info := executed_ledger_info |}.
End QuorumCert.

(** ** Timeouts *)

Record TwoChainTimeout : Set := {
  tmo_epoch : Z;
  tmo_round : Round;
  tmo_quorum_cert : QuorumCert;
}.

#[global] Instance TwoChainTimeout_eq_dec : EqDecision TwoChainTimeout.
Proof. solve_decision. Defined.

Record TimeoutSigningRepr : Set := {
  tsr_epoch : Z;
  tsr_round : Round;
  tsr_hqc_round : Round;
}.

Record AggregateSignatureWithRounds : Set := {
  aswr_sig : AggregateSignature;
  aswr_rounds : list Round;
}.

#[global] Instance AggregateSignatureWithRounds_eq_dec : EqDecision AggregateSignatureWithRounds.
Proof. solve_decision. Defined.

Record TwoChainTimeoutCertificate : Set := {
  tc_timeout : TwoChainTimeout;
  tc_signatures_with_rounds : AggregateSignatureWithRounds;
}.

#[global] Instance TwoChainTimeoutCertificate_eq_dec : EqDecision TwoChainTimeoutCertificate.
Proof. solve_decision. Defined.

Module TwoChainTimeout.
Definition hqc_round (self : TwoChainTimeout) : Round := bi_round (QuorumCert.certified_block (tmo_quorum_cert self)).

Definition signing_format (self : TwoChainTimeout) : TimeoutSigningRepr :=
  {| tsr_epoch := tmo_epoch self; tsr_round := tmo_round self; tsr_hqc_round := hqc_round self |}.

Section verify.
Context `{!CryptoHash VoteData} {Message : Type} `{!Bls Message, !Signable LedgerInfo Message}.

Definition verify (self : TwoChainTimeout) (validators : ValidatorVerifier) : anyhow unit :=
  let? _ := ensure (hqc_round self <? tmo_round self) "Timeout round should be larger than the QC round" in
  QuorumCert.verify (tmo_quorum_cert self) validators.
End verify.
End TwoChainTimeout.

Definition get_voters_and_rounds (self : AggregateSignatureWithRounds) (ordered_validator_addresses : list Author) :
    list (Author * Round) :=
  zip (AggregateSignature.get_voter_addresses (aswr_sig self) ordered_validator_addresses) (aswr_rounds self).

Module TwoChainTimeoutCertificate.
Definition epoch (self : TwoChainTimeoutCertificate) : Z := tmo_epoch (tc_timeout self).
Definition round (self : TwoChainTimeoutCertificate) : Round := tmo_round (tc_timeout self).
Definition highest_hqc_round (self : TwoChainTimeoutCertificate) : Round := TwoChainTimeout.hqc_round (tc_timeout self).

Definition new (timeout : TwoChainTimeout) : TwoChainTimeoutCertificate :=
  {| tc_timeout := timeout;
     tc_signatures_with_rounds := {| aswr_sig := AggregateSignature.empty; aswr_rounds := [] |} |}.

Section verify.
Context `{!CryptoHash VoteData} {Message : Type}
  `{!Bls Message, !Signable LedgerInfo Message, !Signable TimeoutSigningRepr Message}.

(** The messages that the voters signed, each with the round of its highest certificate *)
Definition timeout_messages (self : TwoChainTimeoutCertificate) (validators : ValidatorVerifier) :
    list TimeoutSigningRepr :=
  map (fun '(_, hqc) => {| tsr_epoch := epoch self; tsr_round := round self; tsr_hqc_round := hqc |})
    (get_voters_and_rounds (tc_signatures_with_rounds self)
       (ValidatorVerifier.get_ordered_account_addresses validators)).

(** [Iterator::max] *)
Definition max_round (rounds : list Round) : option Round :=
  match rounds with [] => None | r :: rs => Some (foldl Z.max r rs) end.

Definition verify (self : TwoChainTimeoutCertificate) (validators : ValidatorVerifier) : anyhow unit :=
  let? _ := TwoChainTimeout.verify (tc_timeout self) validators in
  let hqc_round := TwoChainTimeout.hqc_round (tc_timeout self) in
  let? _ := context "Invalid aggregated signature"
              (ValidatorVerifier.verify_aggregate_signatures validators
                 (map signing_message (timeout_messages self validators))
                 (aswr_sig (tc_signatures_with_rounds self))) in
  let? signed_hqc := unwrap (max_round (aswr_rounds (tc_signatures_with_rounds self))) in
  ensure (hqc_round =? signed_hqc) "Inconsistent hqc round".
End verify.
End TwoChainTimeoutCertificate.

(** ** [Vote] *)

Record Vote : Set := {
  vote_vote_data : VoteData;
  vote_author : Author;
  vote_ledger_info : LedgerInfo;
  vote_signature : Signature;
  vote_two_chain_timeout : option (TwoChainTimeout * Signature);
}.

#[global] Instance Vote_eq_dec : EqDecision Vote.
Proof. solve_decision. Defined.

Module Vote.
Definition new_with_signature (vote_data : VoteData) (author : Author) (ledger_info : LedgerInfo)
    (signature : Signature) : Vote :=
  {| vote_vote_data := vote_data; vote_author := author; vote_ledger_info := ledger_info;
     vote_signature := signature; vote_two_chain_timeout := None |}.

Definition add_2chain_timeout (self : Vote) (timeout : TwoChainTimeout) (signature : Signature) : Vote :=
  {| vote_vote_data := vote_vote_data self; vote_author := vote_author self;
     vote_ledger_info := vote_ledger_info self; vote_signature := vote_signature self;
     vote_two_chain_timeout := Some (timeout, signature) |}.

Definition generate_2chain_timeout (self : Vote) (qc : QuorumCert) : TwoChainTimeout :=
  {| tmo_epoch := bi_epoch (vd_proposed (vote_vote_data self));
     tmo_round := bi_round (vd_proposed (vote_vote_data self));
     tmo_quorum_cert := qc |}.

Definition epoch (self : Vote) : Z := bi_epoch (vd_proposed (vote_vote_data self)).

Section verify.
Context `{!CryptoHash VoteData} {Message : Type}
  `{!Bls Message, !Signable LedgerInfo Message, !Signable TimeoutSigningRepr Message}.

Definition verify (self : Vote) (validator : ValidatorVerifier) : anyhow unit :=
  let? _ := ensure (li_consensus_data_hash (vote_ledger_info self) =? crypto_hash (vote_vote_data self))
              "Vote's hash mismatch with LedgerInfo" in
  let? _ := context "Failed to verify Vote"
              (ValidatorVerifier.verify validator (vote_author self) (signing_message (vote_ledger_info self))
                 (vote_signature self)) in
  let? _ :=
    match vote_two_chain_timeout self with
    | None => Ok tt
    | Some (timeout, signature) =>
        let? _ := ensure ((tmo_epoch timeout =? epoch self)
                          && (tmo_round timeout =? bi_round (vd_proposed (vote_vote_data self))))
                    "2-chain timeout has different (epoch, round) than Vote" in
        let? _ := TwoChainTimeout.verify timeout validator in
        context "Failed to verify 2-chain timeout signature"
          (ValidatorVerifier.verify validator (vote_author self)
             (signing_message (TwoChainTimeout.signing_format timeout)) signature)
    end in
  VoteData_verify (vote_vote_data self).
End verify.
End Vote.

(** ** Timeouts with partial signatures *)

(** The [BTreeMap] of [PartialSignaturesWithRound] *)
Record TwoChainTimeoutWithPartialSignatures : Set := {
  ptc_timeout : TwoChainTimeout;
  ptc_signatures : gmap Z (Round * Signature);
}.

Module TwoChainTimeoutWithPartialSignatures.
Definition new (timeout : TwoChainTimeout) : TwoChainTimeoutWithPartialSignatures :=
  {| ptc_timeout := timeout; ptc_signatures := ∅ |}.

Definition add_signature (signatures : gmap Z (Round * Signature)) (validator : Author) (round : Round)
    (signature : Signature) : gmap Z (Round * Signature) :=
  match signatures !! validator with
  | Some _ => signatures
  | None => <[validator := (round, signature)]> signatures
  end.

(** The assertions on epoch and round are those of debug builds. *)
Definition add {E} (self : TwoChainTimeoutWithPartialSignatures) (author : Author) (timeout : TwoChainTimeout)
    (signature : Signature) : result E TwoChainTimeoutWithPartialSignatures :=
  let? _ := rust_assert (tmo_epoch (ptc_timeout self) =? tmo_epoch timeout) in
  let? _ := rust_assert (tmo_round (ptc_timeout self) =? tmo_round timeout) in
  let hqc_round := TwoChainTimeout.hqc_round timeout in
  let highest := if TwoChainTimeout.hqc_round (ptc_timeout self) <? hqc_round then timeout else ptc_timeout self in
  Ok {| ptc_timeout := highest; ptc_signatures := add_signature (ptc_signatures self) author hqc_round signature |}.

(** The order of a map from indices *)
Definition by_index (a b : nat * Round) : Prop := (a.1 <= b.1)%nat.

#[global] Instance by_index_dec : RelDecision by_index.
Proof. intros a b. apply (decide (a.1 <= b.1)%nat). Defined.

Definition get_partial_sig_with_rounds (signatures : gmap Z (Round * Signature))
    (address_to_validator_index : gmap Z nat) : PartialSignatures.t * list Round :=
  let known := omap (fun '(address, (round, sig)) =>
                       index ← address_to_validator_index !! address; Some (address, index, round, sig))
                 (map_to_list signatures) in
  (foldl (fun partial_sig '(address, _, _, sig) => PartialSignatures.add_signature partial_sig address sig) ∅ known,
   map snd (merge_sort by_index
              (map_to_list (foldl (fun m '(_, index, round, _) => <[index := round]> m) (∅ : gmap nat Round) known)))).

Section aggregate.
Context {Message : Type} `{!Bls Message}.

Definition aggregate_signatures (self : TwoChainTimeoutWithPartialSignatures) (verifier : ValidatorVerifier) :
    result VerifyError TwoChainTimeoutCertificate :=
  let '(partial_sig, ordered_rounds) :=
    get_partial_sig_with_rounds (ptc_signatures self) (address_to_validator_index verifier) in
  let? aggregated_sig := ValidatorVerifier.aggregate_signatures verifier partial_sig in
  let? _ := rust_assert (AggregateSignature.get_num_voters aggregated_sig =? len ordered_rounds) in
  Ok {| tc_timeout := ptc_timeout self;
        tc_signatures_with_rounds := {| aswr_sig := aggregated_sig; aswr_rounds := ordered_rounds |} |}.
End aggregate.
End TwoChainTimeoutWithPartialSignatures.

(** ** Blocks *)

Inductive Payload : Set :=
  | DirectMempool (txns : list Z)
  | InQuorumStore (proofs : list Z).

Definition Payload_is_empty (self : Payload) : bool :=
  match self with
  | DirectMempool txns => bool_decide (txns = [])
  | InQuorumStore proofs => bool_decide (proofs = [])
  end.

Inductive BlockType : Set :=
  | Proposal (payload : Payload) (author : Author) (failed_authors : list (Round * Author))
  | NilBlock (failed_authors : list (Round * Author))
  | Genesis.

Record BlockData : Set := {
  bd_epoch : Z;
  bd_round : Round;
  bd_timestamp_usecs : Z;
  bd_quorum_cert : QuorumCert;
  bd_block_type : BlockType;
}.

Record Block : Set := {
  blk_id : HashValue;
  blk_block_data : BlockData;
  blk_signature : option Signature;
}.

Module BlockData.
Definition author (self : BlockData) : option Author :=
  match bd_block_type self with Proposal _ author _ => Some author | _ => None end.

Definition payload (self : BlockData) : option Payload :=
  match bd_block_type self with Proposal payload _ _ => Some payload | _ => None end.

Definition is_genesis_block (self : BlockData) : bool :=
  match bd_block_type self with Genesis => true | _ => false end.

Definition is_nil_block (self : BlockData) : bool :=
  match bd_block_type self with NilBlock _ => true | _ => false end.

Definition failed_authors (self : BlockData) : option (list (Round * Author)) :=
  match bd_block_type self with
  | Proposal _ _ failed_authors => Some failed_authors
  | NilBlock failed_authors => Some failed_authors
  | Genesis => None
  end.

Definition new_genesis_from_ledger_info {E} (ledger_info : LedgerInfo) : result E BlockData :=
  let? _ := rust_assert (LedgerInfo.ends_epoch ledger_info) in
  let ancestor :=
    {| bi_epoch := LedgerInfo.epoch ledger_info; bi_round := 0; bi_id := HashValue_zero;
       bi_executed_state_id := LedgerInfo.transaction_accumulator_hash ledger_info;
       bi_version := LedgerInfo.version ledger_info;
       bi_timestamp_usecs := LedgerInfo.timestamp_usecs ledger_info;
       bi_next_epoch_state := None |} in
  let genesis_quorum_cert :=
    {| qc_vote_data := {| vd_proposed := ancestor; vd_parent := ancestor |};
       qc_signed_ledger_info :=
         {| liws_ledger_info := {| li_commit_info := ancestor; li_consensus_data_hash := HashValue_zero |};
            liws_signatures := AggregateSignature.empty |} |} in
  let? epoch := checked_add 64 (bi_epoch ancestor) 1 in
  Ok {| bd_epoch := epoch; bd_round := 0; bd_timestamp_usecs := LedgerInfo.timestamp_usecs ledger_info;
        bd_quorum_cert := genesis_quorum_cert; bd_block_type := Genesis |}.

Definition new_nil (round : Round) (quorum_cert : QuorumCert) (failed_authors : list (Round * Author)) : BlockData :=
  {| bd_epoch := bi_epoch (QuorumCert.certified_block quorum_cert); bd_round := round;
     bd_timestamp_usecs := bi_timestamp_usecs (QuorumCert.certified_block quorum_cert);
     bd_quorum_cert := quorum_cert; bd_block_type := NilBlock failed_authors |}.

Definition new_proposal (payload : Payload) (author : Author) (failed_authors : list (Round * Author))
    (round : Round) (timestamp_usecs : Z) (quorum_cert : QuorumCert) : BlockData :=
  {| bd_epoch := bi_epoch (QuorumCert.certified_block quorum_cert); bd_round := round;
     bd_timestamp_usecs := timestamp_usecs; bd_quorum_cert := quorum_cert;
     bd_block_type := Proposal payload author failed_authors |}.

Definition is_reconfiguration_suffix (self : BlockData) : bool :=
  BlockInfo.has_reconfiguration (QuorumCert.certified_block (bd_quorum_cert self)).
End BlockData.

Module Block.
Definition epoch (self : Block) : Z := bd_epoch (blk_block_data self).
Definition round (self : Block) : Round := bd_round (blk_block_data self).
Definition quorum_cert (self : Block) : QuorumCert := bd_quorum_cert (blk_block_data self).
Definition timestamp_usecs (self : Block) : Z := bd_timestamp_usecs (blk_block_data self).
Definition is_nil_block (self : Block) : bool := BlockData.is_nil_block (blk_block_data self).

Definition gen_block_info (self : Block) (executed_state_id : HashValue) (version : Z)
    (next_epoch_state : option EpochState) : BlockInfo :=
  {| bi_epoch := epoch self; bi_round := round self; bi_id := blk_id self;
     bi_executed_state_id := executed_state_id; bi_version := version;
     bi_timestamp_usecs := timestamp_usecs self; bi_next_epoch_state := next_epoch_state |}.

(** The loop over the failed authors: their rounds increase between the parent's and the next *)
Fixpoint failed_authors_ordered (bound succ_round : Round) (failed_authors : list (Round * Author)) : bool :=
  match failed_authors with
  | [] => true
  | (round, _) :: rest => (bound <? round) && (round <? succ_round) && failed_authors_ordered round succ_round rest
  end.

Definition TIMEBOUND : Z := 300000000.

Section checks.
Context `{!CryptoHash VoteData, !CryptoHash BlockData} {Message : Type}
  `{!Bls Message, !Signable LedgerInfo Message, !Signable BlockData Message}.

Definition new_nil (round : Round) (quorum_cert : QuorumCert) (failed_authors : list (Round * Author)) : Block :=
  let block_data := BlockData.new_nil round quorum_cert failed_authors in
  {| blk_id := crypto_hash block_data; blk_block_data := block_data; blk_signature := None |}.

Definition new_proposal_from_block_data_and_signature (block_data : BlockData) (signature : Signature) : Block :=
  {| blk_id := crypto_hash block_data; blk_block_data := block_data; blk_signature := Some signature |}.

Definition make_genesis_block_from_ledger_info {E} (ledger_info : LedgerInfo) : result E Block :=
  let? block_data := BlockData.new_genesis_from_ledger_info ledger_info in
  Ok {| blk_id := crypto_hash block_data; blk_block_data := block_data; blk_signature := None |}.

Definition validate_signature (self : Block) (validator : ValidatorVerifier) : anyhow unit :=
  match bd_block_type (blk_block_data self) with
  | Genesis => Err "We should not accept genesis from others"%string
  | NilBlock _ => QuorumCert.verify (quorum_cert self) validator
  | Proposal _ author _ =>
      match blk_signature self with
      | None => Err "Missing signature in Proposal"%string
      | Some signature =>
          let? _ := context "Invalid signature"
                      (ValidatorVerifier.verify validator author (signing_message (blk_block_data self)) signature) in
          QuorumCert.verify (quorum_cert self) validator
      end
  end.

Definition verify_failed_authors (self : Block) (parent : BlockInfo) : anyhow unit :=
  match BlockData.failed_authors (blk_block_data self) with
  | None => Ok tt
  | Some failed_authors =>
      let? succ_round := checked_add 64 (round self) (Z.b2z (is_nil_block self)) in
      let? next := checked_add 64 (bi_round parent) 1 in
      let? _ := ensure (next <=? succ_round) "Block round is smaller than block's parent round" in
      let skipped_rounds := succ_round - next in
      let? _ := ensure (len failed_authors <=? skipped_rounds) "Block has more failed authors than missed rounds" in
      ensure (failed_authors_ordered (bi_round parent) succ_round failed_authors) "Incorrect round in failed authors"
  end.

Definition verify_well_formed (now : Z) (self : Block) : anyhow unit :=
  let? _ := ensure (negb (BlockData.is_genesis_block (blk_block_data self))) "We must not accept genesis from others" in
  let parent := QuorumCert.certified_block (quorum_cert self) in
  let? _ := ensure (bi_round parent <? round self) "Block must have a greater round than parent's block" in
  let? _ := ensure (bi_epoch parent =? epoch self) "block's parent should be in the same epoch" in
  let? _ :=
    if BlockInfo.has_reconfiguration parent then
      ensure (match BlockData.payload (blk_block_data self) with None => true | Some p => Payload_is_empty p end)
        "Reconfiguration suffix should not carry payload"
    else Ok tt in
  let? _ := verify_failed_authors self parent in
  let? _ :=
    if is_nil_block self || BlockInfo.has_reconfiguration parent then
      ensure (timestamp_usecs self =? bi_timestamp_usecs parent)
        "Nil/reconfig suffix block must have same timestamp as parent"
    else
      let? _ := ensure (bi_timestamp_usecs parent <? timestamp_usecs self)
                  "Blocks must have strictly increasing timestamps" in
      ensure (timestamp_usecs self <=? Z.min (now + TIMEBOUND) U64_MAX) "Blocks must not be too far in the future" in
  let? _ := ensure (negb (QuorumCert.ends_epoch (quorum_cert self)))
              "Block cannot be proposed in an epoch that has ended" in
  rust_assert (blk_id self =? crypto_hash (blk_block_data self)).
End checks.
End Block.

(** ** [VoteProposal] *)

Record VoteProposal : Set := {
  vp_accumulator_extension_proof : AccumulatorExtensionProof;
  vp_block : Block;
  vp_next_epoch_state : option EpochState;
  vp_decoupled_execution : bool;
}.

Module VoteProposal.
Definition vote_data_ordering_only (self : VoteProposal) : VoteData :=
  {| vd_proposed := Block.gen_block_info (vp_block self) ACCUMULATOR_PLACEHOLDER_HASH 0 (vp_next_epoch_state self);
     vd_parent := QuorumCert.certified_block (Block.quorum_cert (vp_block self)) |}.

Definition vote_data_with_extension_proof (self : VoteProposal) (new_tree : InMemoryAccumulator) : VoteData :=
  {| vd_proposed :=
       Block.gen_block_info (vp_block self) (root_hash new_tree) (InMemoryAccumulator.version new_tree)
         (vp_next_epoch_state self);
     vd_parent := QuorumCert.certified_block (Block.quorum_cert (vp_block self)) |}.

Definition gen_vote_data `{!MerkleHasher} (self : VoteProposal) : anyhow VoteData :=
  if vp_decoupled_execution self then Ok (vote_data_ordering_only self)
  else
    let? new_tree :=
      AccumulatorExtensionProof_verify (vp_accumulator_extension_proof self)
        (bi_executed_state_id (QuorumCert.certified_block (Block.quorum_cert (vp_block self)))) in
    Ok (vote_data_with_extension_proof self new_tree).
End VoteProposal.

(** ** [SafetyData] *)

Record SafetyData : Set := {
  sd_epoch : Z;
  sd_last_voted_round : Round;
  sd_preferred_round : Round;
  sd_one_chain_round : Round;
  sd_last_vote : option Vote;
}.
