(* ===== verification/SafetyRules.v ===== *)
(** * Safety rules of consensus

    [PersistentSafetyStorage] (src/consensus/safety-rules/src/persistent_safety_storage.rs) and
    [SafetyRules] (safety_rules.rs, safety_rules_2chain.rs), with the error type of error.rs: the
    part of a validator that holds its key and decides which proposals, timeouts and commits it
    signs.

    The secure storage behind it (src/secure/storage) is the class [SecureStorage]: reads and
    writes of the four keys it uses, each of which can fail. The arguments of log messages are
    not evaluated. *)

From Stdlib Require Import String.
From S2P Require Import Prelude Word Position Validators LedgerTypes Accumulator ConsensusTypes.
Local Open Scope Z_scope.

(** ** Errors *)

Inductive Error : Set :=
  | IncorrectEpoch (provided expected : Z)
  | IncorrectRound (round : Round)
  | IncorrectLastVotedRound (round last_voted_round : Round)
  | IncorrectPreferredRound (round preferred_round : Round)
  | InvalidAccumulatorExtension (e : string)
  | InvalidEpochChangeProof (e : string)
  | InternalError (e : string)
  | InvalidLedgerInfo
  | InvalidProposal (e : string)
  | InvalidQuorumCertificate (e : string)
  | NotInitialized (what : string)
  | SecureStorageMissingDataError
  | SecureStorageUnexpectedError
  | SerializationError
  | ValidatorKeyNotFound
  | ValidatorNotInSet (author : Author)
  | VoteProposalSignatureNotFound
  | NotSafeToVote (round qc_round tc_round hqc_round : Round)
  | NotSafeToTimeout (round qc_round tc_round one_chain_round : Round)
  | InvalidTimeoutCertificate (e : string)
  | InconsistentExecutionResult (ordered executed : BlockInfo)
  | InvalidOrderedLedgerInfo (ledger_info : LedgerInfo)
  | WaypointOutOfDate (previous updated current_epoch provided_epoch : Z)
  | InvalidTimeout (e : string).

(** [map_err] *)
Definition map_err {E E' A} (f : E -> E') (r : result E A) : result E' A :=
  match r with Ok a => Ok a | Err e => Err (f e) | Panic => Panic end.

(** The errors of the secure storage *)
Inductive StorageError : Set :=
  | EntropyError
  | StorageInternalError
  | KeyAlreadyExists
  | KeyNotSet
  | PermissionDenied
  | StorageSerializationError
  | KeyVersionNotFound.

(** [From<aptos_secure_storage::Error>]: a permission error panics. *)
Definition from_storage {A} (r : result StorageError A) : result Error A :=
  match r with
  | Ok a => Ok a
  | Err PermissionDenied => Panic
  | Err KeyVersionNotFound | Err KeyNotSet => Err SecureStorageMissingDataError
  | Err _ => Err SecureStorageUnexpectedError
  | Panic => Panic
  end.

(** ** The secure storage *)

(** Reads of the keys [OWNER_ACCOUNT], [CONSENSUS_KEY], [WAYPOINT] and [SAFETY_DATA], the last
    also as a value of type [Result<SafetyData, Error>], and writes of the last two *)
Class SecureStorage (Store : Type) := {
  get_owner_account : Store -> result StorageError Author;
  get_consensus_key : Store -> result StorageError PrivateKey;
  get_waypoint : Store -> result StorageError Waypoint;
  get_safety_data : Store -> result StorageError SafetyData;
  get_safety_data_result : Store -> result StorageError (result Error SafetyData);
  put_safety_data : Store -> SafetyData -> result StorageError unit * Store;
  put_waypoint : Store -> Waypoint -> result StorageError unit * Store;
}.

Record PersistentSafetyStorage (Store : Type) : Type := {
  enable_cached_safety_data : bool;
  cached_safety_data : option SafetyData;
  internal_store : Store;
}.

Arguments enable_cached_safety_data {Store} _.
Arguments cached_safety_data {Store} _.
Arguments internal_store {Store} _.

Record ValidatorSigner : Set := {
  signer_author : Author;
  signer_private_key : PrivateKey;
}.

Record SafetyRules (Store : Type) : Type := {
  persistent_storage : PersistentSafetyStorage Store;
  validator_signer : option ValidatorSigner;
  epoch_state : option EpochState;
}.

Arguments persistent_storage {Store} _.
Arguments validator_signer {Store} _.
Arguments epoch_state {Store} _.

Section safety_rules.
Context {Store : Type} `{!SecureStorage Store}.

(** Field updates *)
Definition set_cache (c : option SafetyData) (self : SafetyRules Store) : SafetyRules Store :=
  let p := persistent_storage self in
  {| persistent_storage := {| enable_cached_safety_data := enable_cached_safety_data p;
                              cached_safety_data := c; internal_store := internal_store p |};
     validator_signer := validator_signer self; epoch_state := epoch_state self |}.

Definition set_store (s : Store) (self : SafetyRules Store) : SafetyRules Store :=
  let p := persistent_storage self in
  {| persistent_storage := {| enable_cached_safety_data := enable_cached_safety_data p;
                              cached_safety_data := cached_safety_data p; internal_store := s |};
     validator_signer := validator_signer self; epoch_state := epoch_state self |}.

Definition set_signer (v : option ValidatorSigner) (self : SafetyRules Store) : SafetyRules Store :=
  {| persistent_storage := persistent_storage self; validator_signer := v; epoch_state := epoch_state self |}.

Definition set_epoch_state (e : option EpochState) (self : SafetyRules Store) : SafetyRules Store :=
  {| persistent_storage := persistent_storage self; validator_signer := validator_signer self; epoch_state := e |}.

Definition rules_store (self : SafetyRules Store) : Store := internal_store (persistent_storage self).

Local Notation rules A := (M Error (SafetyRules Store) A).

(** ** [PersistentSafetyStorage] *)

Definition PersistentSafetyStorage_new (store : Store) (cached : bool) : PersistentSafetyStorage Store :=
  {| enable_cached_safety_data := cached; cached_safety_data := None; internal_store := store |}.

Definition storage_author : rules Author :=
  self <~ get ;; lift (from_storage (get_owner_account (rules_store self))).

Definition consensus_key_for_version `{!Bls Message} (version : PublicKey) : rules PrivateKey :=
  self <~ get ;;
  key <~ lift (from_storage (get_consensus_key (rules_store self))) ;;
  if bls_public_key key =? version then ret key else throw SecureStorageMissingDataError.

Definition storage_waypoint : rules Waypoint :=
  self <~ get ;; lift (from_storage (get_waypoint (rules_store self))).

Definition set_waypoint (waypoint : Waypoint) : rules unit :=
  self <~ get ;;
  let '(r, store) := put_waypoint (rules_store self) waypoint in
  modify (set_store store) ;;;
  lift (from_storage r).

Definition safety_data : rules SafetyData :=
  self <~ get ;;
  let p := persistent_storage self in
  if negb (enable_cached_safety_data p) then
    r <~ lift (from_storage (get_safety_data_result (internal_store p))) ;;
    lift r
  else
    match cached_safety_data p with
    | Some data => ret data
    | None =>
        data <~ lift (from_storage (get_safety_data (internal_store p))) ;;
        modify (set_cache (Some data)) ;;;
        ret data
    end.

Definition set_safety_data (data : SafetyData) : rules unit :=
  self <~ get ;;
  let '(r, store) := put_safety_data (rules_store self) data in
  modify (set_store store) ;;;
  match r with
  | Ok _ => modify (set_cache (Some data))
  | Err _ => modify (set_cache None) ;;; throw SecureStorageUnexpectedError
  | Panic => panic
  end.

(** ** Checks *)

Definition next_round (round : Round) : result Error Round :=
  if round + 1 <? 2 ^ 64 then Ok (round + 1) else Err (IncorrectRound round).

Definition SafetyRules_new (storage : PersistentSafetyStorage Store) : SafetyRules Store :=
  {| persistent_storage := storage; validator_signer := None; epoch_state := None |}.

Definition signer : rules ValidatorSigner :=
  self <~ get ;;
  match validator_signer self with
  | Some s => ret s
  | None => throw (NotInitialized "validator_signer")
  end.

Definition current_epoch_state : rules EpochState :=
  self <~ get ;;
  match epoch_state self with
  | Some e => ret e
  | None => throw (NotInitialized "epoch_state")
  end.

Definition verify_author (author : option Author) : rules unit :=
  s <~ signer ;;
  match author with
  | None => throw (InvalidProposal "No author found in the proposal")
  | Some a =>
      if signer_author s =? a then ret tt
      else throw (InvalidProposal "Proposal author is not validator signer!")
  end.

Definition verify_epoch (epoch : Z) (data : SafetyData) : result Error unit :=
  if negb (epoch =? sd_epoch data) then Err (IncorrectEpoch epoch (sd_epoch data)) else Ok tt.

(** [observe_qc]: the safety data with the rounds of the certificate and of its parent *)
Definition observe_qc (qc : QuorumCert) (data : SafetyData) : SafetyData :=
  let one_chain := bi_round (QuorumCert.certified_block qc) in
  let two_chain := bi_round (QuorumCert.parent_block qc) in
  {| sd_epoch := sd_epoch data;
     sd_last_voted_round := sd_last_voted_round data;
     sd_preferred_round := if sd_preferred_round data <? two_chain then two_chain else sd_preferred_round data;
     sd_one_chain_round := if sd_one_chain_round data <? one_chain then one_chain else sd_one_chain_round data;
     sd_last_vote := sd_last_vote data |}.

Definition verify_and_update_preferred_round (quorum_cert : QuorumCert) (data : SafetyData) : result Error SafetyData :=
  let one_chain_round := bi_round (QuorumCert.certified_block quorum_cert) in
  if one_chain_round <? sd_preferred_round data
  then Err (IncorrectPreferredRound one_chain_round (sd_preferred_round data))
  else Ok (observe_qc quorum_cert data).

Definition verify_and_update_last_vote_round (round : Round) (data : SafetyData) : result Error SafetyData :=
  if round <=? sd_last_voted_round data then Err (IncorrectLastVotedRound round (sd_last_voted_round data))
  else
    Ok {| sd_epoch := sd_epoch data; sd_last_voted_round := round;
          sd_preferred_round := sd_preferred_round data; sd_one_chain_round := sd_one_chain_round data;
          sd_last_vote := sd_last_vote data |}.

Definition set_last_vote (vote : Vote) (data : SafetyData) : SafetyData :=
  {| sd_epoch := sd_epoch data; sd_last_voted_round := sd_last_voted_round data;
     sd_preferred_round := sd_preferred_round data; sd_one_chain_round := sd_one_chain_round data;
     sd_last_vote := Some vote |}.

Definition safe_to_timeout (timeout : TwoChainTimeout) (maybe_tc : option TwoChainTimeoutCertificate)
    (data : SafetyData) : result Error unit :=
  let round := tmo_round timeout in
  let qc_round := TwoChainTimeout.hqc_round timeout in
  let tc_round := match maybe_tc with None => 0 | Some tc => TwoChainTimeoutCertificate.round tc end in
  let? next_qc := next_round qc_round in
  let? follows :=
    if round =? next_qc then Ok true else let? next_tc := next_round tc_round in Ok (round =? next_tc) in
  if (follows : bool) && (sd_one_chain_round data <=? qc_round) then Ok tt
  else Err (NotSafeToTimeout round qc_round tc_round (sd_one_chain_round data)).

Definition safe_to_vote (block : Block) (maybe_tc : option TwoChainTimeoutCertificate) : result Error unit :=
  let round := Block.round block in
  let qc_round := bi_round (QuorumCert.certified_block (Block.quorum_cert block)) in
  let tc_round := match maybe_tc with None => 0 | Some tc => TwoChainTimeoutCertificate.round tc end in
  let hqc_round := match maybe_tc with None => 0 | Some tc => TwoChainTimeoutCertificate.highest_hqc_round tc end in
  let? next_qc := next_round qc_round in
  let? safe :=
    if round =? next_qc then Ok true
    else let? next_tc := next_round tc_round in Ok ((round =? next_tc) && (hqc_round <=? qc_round)) in
  if (safe : bool) then Ok tt else Err (NotSafeToVote round qc_round tc_round hqc_round).

Definition construct_ledger_info_2chain (proposed_block : Block) (consensus_data_hash : HashValue) :
    result Error LedgerInfo :=
  let block1 := Block.round proposed_block in
  let block0 := bi_round (QuorumCert.certified_block (Block.quorum_cert proposed_block)) in
  let? next := next_round block0 in
  let commit_info :=
    if next =? block1 then QuorumCert.certified_block (Block.quorum_cert proposed_block) else BlockInfo.empty in
  Ok {| li_commit_info := commit_info; li_consensus_data_hash := consensus_data_hash |}.

Context `{!MerkleHasher, !CryptoHash VoteData, !CryptoHash BlockData, !CryptoHash Ledger2WaypointConverter}
  {Message : Type} `{!Bls Message, !Signable LedgerInfo Message, !Signable TimeoutSigningRepr Message,
                     !Signable BlockData Message}.

Definition sign (message : Message) : rules Signature :=
  s <~ signer ;;
  match bls_sign (signer_private_key s) message with
  | Some signature => ret signature
  | None => throw SerializationError
  end.

Definition verify_qc (qc : QuorumCert) : rules unit :=
  e <~ current_epoch_state ;;
  lift (map_err InvalidQuorumCertificate (QuorumCert.verify qc (es_verifier e))).

Definition verify_tc (tc : TwoChainTimeoutCertificate) : rules unit :=
  e <~ current_epoch_state ;;
  lift (map_err InvalidTimeoutCertificate (TwoChainTimeoutCertificate.verify tc (es_verifier e))).

Definition verify_maybe_tc (tc : option TwoChainTimeoutCertificate) : rules unit :=
  match tc with None => ret tt | Some tc => verify_tc tc end.

Definition verify_proposal (now : Z) (vote_proposal : VoteProposal) : rules VoteData :=
  let proposed_block := vp_block vote_proposal in
  data <~ safety_data ;;
  lift (verify_epoch (Block.epoch proposed_block) data) ;;;
  verify_qc (Block.quorum_cert proposed_block) ;;;
  e <~ current_epoch_state ;;
  lift (map_err InvalidProposal (Block.validate_signature proposed_block (es_verifier e))) ;;;
  lift (map_err InvalidProposal (Block.verify_well_formed now proposed_block)) ;;;
  lift (map_err InvalidAccumulatorExtension (VoteProposal.gen_vote_data vote_proposal)).

(** ** The operations *)

Definition guarded_consensus_state : rules (SafetyData * Waypoint * bool) :=
  storage_waypoint ;;;
  safety_data ;;;
  data <~ safety_data ;;
  waypoint <~ storage_waypoint ;;
  self <~ get ;;
  ret (data, waypoint, bool_decide (is_Some (validator_signer self))).

(** The key of the author for the epoch, or the error that clears the signer *)
Definition reconcile_key (e : EpochState) (author : Author) : rules unit :=
  match ValidatorVerifier.get_public_key (es_verifier e) author with
  | None => throw (ValidatorNotInSet author)
  | Some expected_key =>
      self <~ get ;;
      let current_key := (fun s => bls_public_key (signer_private_key s)) <$> validator_signer self in
      if bool_decide (current_key = Some expected_key) then ret tt
      else
        fun self =>
          match consensus_key_for_version expected_key self with
          | (Ok key, self) => (Ok tt, set_signer (Some {| signer_author := author; signer_private_key := key |}) self)
          | (Err SecureStorageMissingDataError, self) => (Err ValidatorKeyNotFound, self)
          | (Err e, self) => (Err e, self)
          | (Panic, self) => (Panic, self)
          end
  end.

Definition guarded_initialize (proof : EpochChangeProof) : rules unit :=
  waypoint <~ storage_waypoint ;;
  last_li <~ lift (map_err InvalidEpochChangeProof (EpochChangeProof_verify proof (VWaypoint waypoint))) ;;
  let ledger_info := liws_ledger_info last_li in
  e <~ lift (match LedgerInfo.next_epoch_state ledger_info with Some e => Ok e | None => Err InvalidLedgerInfo end) ;;
  new_waypoint <~ lift (map_err InternalError (Waypoint_new_epoch_boundary ledger_info)) ;;
  (if wp_version waypoint <? wp_version new_waypoint then set_waypoint new_waypoint else ret tt) ;;;
  data <~ safety_data ;;
  (match sd_epoch data ?= es_epoch e with
   | Gt => throw (WaypointOutOfDate (wp_version waypoint) (wp_version new_waypoint) (sd_epoch data) (es_epoch e))
   | Lt =>
       set_safety_data {| sd_epoch := es_epoch e; sd_last_voted_round := 0; sd_preferred_round := 0;
                          sd_one_chain_round := 0; sd_last_vote := None |}
   | Eq => ret tt
   end) ;;;
  modify (set_epoch_state (Some e)) ;;;
  author <~ storage_author ;;
  fun self =>
    match reconcile_key e author self with
    | (Err error, self) => (Err error, set_signer None self)
    | r => r
    end.

Definition guarded_sign_proposal (block_data : BlockData) : rules Signature :=
  signer ;;;
  verify_author (BlockData.author block_data) ;;;
  data <~ safety_data ;;
  lift (verify_epoch (bd_epoch block_data) data) ;;;
  (if bd_round block_data <=? sd_last_voted_round data
   then throw (InvalidProposal "Proposed round is not higher than last voted round") else ret tt) ;;;
  verify_qc (bd_quorum_cert block_data) ;;;
  lift (verify_and_update_preferred_round (bd_quorum_cert block_data) data) ;;;
  sign (signing_message block_data).

Definition guarded_sign_timeout_with_qc (timeout : TwoChainTimeout)
    (timeout_cert : option TwoChainTimeoutCertificate) : rules Signature :=
  signer ;;;
  data <~ safety_data ;;
  lift (verify_epoch (tmo_epoch timeout) data) ;;;
  e <~ current_epoch_state ;;
  lift (map_err InvalidTimeout (TwoChainTimeout.verify timeout (es_verifier e))) ;;;
  verify_maybe_tc timeout_cert ;;;
  lift (safe_to_timeout timeout timeout_cert data) ;;;
  (if tmo_round timeout <? sd_last_voted_round data
   then throw (IncorrectLastVotedRound (tmo_round timeout) (sd_last_voted_round data)) else ret tt) ;;;
  (if sd_last_voted_round data <? tmo_round timeout then
     data <~ lift (verify_and_update_last_vote_round (tmo_round timeout) data) ;;
     set_safety_data data
   else ret tt) ;;;
  sign (signing_message (TwoChainTimeout.signing_format timeout)).

(** The rest of the vote, once there is no earlier one of the round to send again *)
Definition construct_vote (proposed_block : Block) (vote_data : VoteData)
    (timeout_cert : option TwoChainTimeoutCertificate) (data : SafetyData) : rules Vote :=
  data <~ lift (verify_and_update_last_vote_round (Block.round proposed_block) data) ;;
  lift (safe_to_vote proposed_block timeout_cert) ;;;
  let data := observe_qc (Block.quorum_cert proposed_block) data in
  s <~ signer ;;
  ledger_info <~ lift (construct_ledger_info_2chain proposed_block (crypto_hash vote_data)) ;;
  signature <~ sign (signing_message ledger_info) ;;
  let vote := Vote.new_with_signature vote_data (signer_author s) ledger_info signature in
  set_safety_data (set_last_vote vote data) ;;;
  ret vote.

Definition guarded_construct_and_sign_vote_two_chain (now : Z) (vote_proposal : VoteProposal)
    (timeout_cert : option TwoChainTimeoutCertificate) : rules Vote :=
  signer ;;;
  vote_data <~ verify_proposal now vote_proposal ;;
  verify_maybe_tc timeout_cert ;;;
  let proposed_block := vp_block vote_proposal in
  data <~ safety_data ;;
  match sd_last_vote data with
  | Some vote =>
      if bi_round (vd_proposed (vote_vote_data vote)) =? Block.round proposed_block then ret vote
      else construct_vote proposed_block vote_data timeout_cert data
  | None => construct_vote proposed_block vote_data timeout_cert data
  end.

Definition guarded_sign_commit_vote (ledger_info : LedgerInfoWithSignatures) (new_ledger_info : LedgerInfo) :
    rules Signature :=
  signer ;;;
  let old_ledger_info := liws_ledger_info ledger_info in
  (if negb (BlockInfo.is_ordered_only (li_commit_info old_ledger_info))
   then throw (InvalidOrderedLedgerInfo old_ledger_info) else ret tt) ;;;
  (if negb (BlockInfo.match_ordered_only (li_commit_info old_ledger_info) (li_commit_info new_ledger_info))
   then throw (InconsistentExecutionResult (li_commit_info old_ledger_info) (li_commit_info new_ledger_info))
   else ret tt) ;;;
  e <~ current_epoch_state ;;
  lift (map_err InvalidQuorumCertificate
          (context "Invalid signatures" (verify_signatures ledger_info (es_verifier e)))) ;;;
  sign (signing_message new_ledger_info).
End safety_rules.
