(* ===== verification/Agreement.v ===== *)
(** * Agreement

    Validators that run the safety rules, in one epoch or over several, and what their
    certificates can commit.

    A world has the state of every honest validator and the log of what it has signed. In a step
    an honest validator runs one operation of [SafetyRules] on arguments that anybody may have
    made up, or restarts from its storage, or its storage becomes available or not. The
    arguments are limited by [admissible]: aggregated signatures that verify carry signatures
    that the honest validators of their bitmask have made, an epoch change leads to the
    validators of the epoch, a timeout certificate is of the epoch of the proposal that it comes
    with, and an executed ledger info is of the epoch and has the consensus data of the ordered
    one.

    Shown here: whatever happens in such steps, blocks committed by certificates of an epoch lie
    on one chain of certified blocks. *)

From Stdlib Require Import String.
From S2P Require Import Prelude Word Position Validators LedgerTypes Accumulator ConsensusTypes SafetyRules.
Local Open Scope Z_scope.

(** ** The storage's laws *)

(** A read that succeeds returns the safety data that is stored; a write that succeeds stores
    its argument and one that fails changes nothing; waypoints are stored apart. *)
Class SecureStorageLaws (Store : Type) `{!SecureStorage Store} := {
  stored : Store -> option SafetyData;
  get_safety_data_stored : forall s d, get_safety_data s = Ok d -> stored s = Some d;
  get_safety_data_result_stored : forall s d, get_safety_data_result s = Ok (Ok d) -> stored s = Some d;
  put_safety_data_stored : forall s d r s',
    put_safety_data s d = (r, s') -> stored s' = match r with Ok _ => Some d | _ => stored s end;
  put_waypoint_stored : forall s w r s', put_waypoint s w = (r, s') -> stored s' = stored s;
}.

(** ** Logs *)

#[global] Instance TimeoutSigningRepr_eq_dec : EqDecision TimeoutSigningRepr.
Proof. solve_decision. Defined.

(** What a validator has signed: a vote, with its ledger info, a timeout, an executed ledger info *)
Inductive event : Set :=
  | Voted (vote_data : VoteData) (ledger_info : LedgerInfo)
  | TimedOut (timeout : TimeoutSigningRepr)
  | CommitVoted (ledger_info : LedgerInfo).

#[global] Instance event_eq_dec : EqDecision event.
Proof. solve_decision. Defined.

Definition event_epoch (ev : event) : Z :=
  match ev with
  | Voted X _ => bi_epoch (vd_proposed X)
  | TimedOut t => tsr_epoch t
  | CommitVoted li => LedgerInfo.epoch li
  end.

(** A vote that is sent again is not logged twice. *)
Definition record (ev : event) (l : list event) : list event := if decide (ev ∈ l) then l else ev :: l.

(** The ledger info has been signed *)
Definition signed (l : list event) (li : LedgerInfo) : Prop :=
  (exists X, Voted X li ∈ l) \/ CommitVoted li ∈ l.

Definition consecutive (X : VoteData) : Prop := bi_round (vd_proposed X) = bi_round (vd_parent X) + 1.

(** Two block infos of the same block *)
Definition same_block (a b : BlockInfo) : Prop :=
  bi_epoch a = bi_epoch b /\ bi_round a = bi_round b /\ bi_id a = bi_id b.

Section agreement.
Context {Store : Type} `{!SecureStorage Store, !SecureStorageLaws Store}
  `{!MerkleHasher, !CryptoHash VoteData, !CryptoHash BlockData, !CryptoHash Ledger2WaypointConverter}
  {Message : Type} `{!Bls Message, !Signable LedgerInfo Message, !Signable TimeoutSigningRepr Message,
                     !Signable BlockData Message}.

(** The validators of each epoch, and which validators are honest *)
Context (validators : Z -> ValidatorVerifier) (honest : Author -> bool).

Record world : Type := {
  nodes : Author -> SafetyRules Store;
  log : Author -> list event;
}.

(** The ledger info that a vote is for *)
Definition ledger_info_of (X : VoteData) : LedgerInfo :=
  {| li_commit_info := if bi_round (vd_parent X) + 1 =? bi_round (vd_proposed X) then vd_parent X else BlockInfo.empty;
     li_consensus_data_hash := crypto_hash X |}.

(** A quorum of the epoch's validators, the honest ones of which have voted for the block *)
Definition certified (w : world) (X : VoteData) : Prop :=
  exists vs, quorum_voters (validators (bi_epoch (vd_proposed X))) vs /\
    forall x, x ∈ vs -> honest (vci_address x) = true -> Voted X (ledger_info_of X) ∈ log w (vci_address x).

(** [b] is [a] or comes after it on a chain of certified blocks. *)
Inductive extends (w : world) (a : BlockInfo) : BlockInfo -> Prop :=
  | extends_refl : extends w a a
  | extends_step X : certified w X -> extends w a (vd_parent X) -> extends w a (vd_proposed X).

(** The block that the vote data commits: its parent, when it is of the round before *)
Definition commits (w : world) (X : VoteData) (c : BlockInfo) : Prop :=
  certified w X /\ consecutive X /\ same_block (vd_parent X) c /\
  bi_epoch (vd_parent X) = bi_epoch (vd_proposed X).

(** ** Unforged certificates *)

Definition unforged_ledger_info (w : world) (li : LedgerInfoWithSignatures) : Prop :=
  forall e vs, verify_signatures li (validators e) = Ok tt ->
    ValidatorVerifier.check_voters (validators e) (liws_signatures li) = Ok vs ->
    forall x, x ∈ vs -> honest (vci_address x) = true -> signed (log w (vci_address x)) (liws_ledger_info li).

Definition unforged_tc (w : world) (tc : TwoChainTimeoutCertificate) : Prop :=
  forall e vs,
    let messages := TwoChainTimeoutCertificate.timeout_messages tc (validators e) in
    let sig := aswr_sig (tc_signatures_with_rounds tc) in
    ValidatorVerifier.verify_aggregate_signatures (validators e) (map signing_message messages) sig = Ok tt ->
    ValidatorVerifier.check_voters (validators e) sig = Ok vs ->
    Forall2 (fun x t => honest (vci_address x) = true -> TimedOut t ∈ log w (vci_address x)) vs messages.

Definition unforged_qc (w : world) (qc : QuorumCert) : Prop := unforged_ledger_info w (qc_signed_ledger_info qc).

(** ** Steps *)

Inductive operation : Type :=
  | OpConsensusState
  | OpInitialize (proof : EpochChangeProof)
  | OpSignProposal (block_data : BlockData)
  | OpSignTimeout (timeout : TwoChainTimeout) (tc : option TwoChainTimeoutCertificate)
  | OpSignVote (now : Z) (vote_proposal : VoteProposal) (tc : option TwoChainTimeoutCertificate)
  | OpSignCommitVote (ledger_info : LedgerInfoWithSignatures) (new_ledger_info : LedgerInfo).

(** The operation, with what it has signed *)
Definition run (op : operation) : M Error (SafetyRules Store) (option event) :=
  match op with
  | OpConsensusState => guarded_consensus_state ;;; ret None
  | OpInitialize proof => guarded_initialize proof ;;; ret None
  | OpSignProposal block_data => guarded_sign_proposal block_data ;;; ret None
  | OpSignTimeout timeout tc =>
      guarded_sign_timeout_with_qc timeout tc ;;; ret (Some (TimedOut (TwoChainTimeout.signing_format timeout)))
  | OpSignVote now vote_proposal tc =>
      vote <~ guarded_construct_and_sign_vote_two_chain now vote_proposal tc ;;
      ret (Some (Voted (vote_vote_data vote) (vote_ledger_info vote)))
  | OpSignCommitVote ledger_info new_ledger_info =>
      guarded_sign_commit_vote ledger_info new_ledger_info ;;; ret (Some (CommitVoted new_ledger_info))
  end.

Definition admissible (w : world) (self : SafetyRules Store) (op : operation) : Prop :=
  match op with
  | OpInitialize proof =>
      forall waypoint li e,
        EpochChangeProof_verify proof (VWaypoint waypoint) = Ok li ->
        LedgerInfo.next_epoch_state (liws_ledger_info li) = Some e ->
        es_verifier e = validators (es_epoch e)
  | OpSignVote _ vote_proposal tc =>
      unforged_qc w (Block.quorum_cert (vp_block vote_proposal)) /\
      match tc with
      | None => True
      | Some tc =>
          unforged_tc w tc /\ TwoChainTimeoutCertificate.epoch tc = Block.epoch (vp_block vote_proposal)
      end
  | OpSignCommitVote ledger_info new_ledger_info =>
      unforged_ledger_info w ledger_info /\
      li_consensus_data_hash new_ledger_info = li_consensus_data_hash (liws_ledger_info ledger_info) /\
      (forall e, epoch_state self = Some e -> LedgerInfo.epoch (liws_ledger_info ledger_info) = es_epoch e)
  | OpConsensusState | OpSignProposal _ | OpSignTimeout _ _ => True
  end.

Definition log_event (ev : option event) (l : list event) : list event :=
  match ev with None => l | Some ev => record ev l end.

Definition update_node (a : Author) (self : SafetyRules Store) (l : list event) (w : world) : world :=
  {| nodes := fun b => if decide (b = a) then self else nodes w b;
     log := fun b => if decide (b = a) then l else log w b |}.

Inductive step (w : world) : world -> Prop :=
  | StepRun a op r self :
      honest a = true -> admissible w (nodes w a) op -> run op (nodes w a) = (r, self) ->
      step w (update_node a self (log_event (match r with Ok ev => ev | _ => None end) (log w a)) w)
  | StepRestart a cached :
      step w (update_node a
                (SafetyRules_new (PersistentSafetyStorage_new (rules_store (nodes w a)) cached)) (log w a) w)
  | StepStorage a store :
      stored store = stored (rules_store (nodes w a)) ->
      step w (update_node a (set_store store (nodes w a)) (log w a) w).

(** Nothing is signed at first, and the validators start from their storage, with no vote in it. *)
Definition initial (w : world) : Prop :=
  forall a, log w a = [] /\
    exists store cached, nodes w a = SafetyRules_new (PersistentSafetyStorage_new store cached) /\
      forall d, stored store = Some d -> sd_last_vote d = None.

Inductive reachable : world -> Prop :=
  | reachable_initial w : initial w -> reachable w
  | reachable_step w w' : reachable w -> step w w' -> reachable w'.
(** ** The invariant of a validator *)

(** The safety data bounds everything signed in its epoch, and nothing is signed in a later one. *)
Definition event_bounded (d : SafetyData) (ev : event) : Prop :=
  match ev with
  | Voted X _ =>
      bi_epoch (vd_proposed X) <= sd_epoch d /\
      (bi_epoch (vd_proposed X) = sd_epoch d ->
       bi_round (vd_proposed X) <= sd_last_voted_round d /\ bi_round (vd_parent X) <= sd_one_chain_round d)
  | TimedOut t => tsr_epoch t <= sd_epoch d /\ (tsr_epoch t = sd_epoch d -> tsr_round t <= sd_last_voted_round d)
  | CommitVoted _ => True
  end.

Definition event_round (ev : event) : option Round :=
  match ev with
  | Voted X _ => Some (bi_round (vd_proposed X))
  | TimedOut t => Some (tsr_round t)
  | CommitVoted _ => None
  end.

Definition data_ok (l : list event) (o : option SafetyData) : Prop :=
  match o with
  | None => Forall (fun ev => event_round ev = None) l
  | Some d =>
      Forall (event_bounded d) l /\
      forall vote, sd_last_vote d = Some vote -> Voted (vote_vote_data vote) (vote_ledger_info vote) ∈ l
  end.

Record node_ok (l : list event) (self : SafetyRules Store) : Prop := {
  node_cache : forall d, cached_safety_data (persistent_storage self) = Some d -> stored (rules_store self) = Some d;
  node_epoch : forall e, epoch_state self = Some e ->
    es_verifier e = validators (es_epoch e) /\
    forall d, stored (rules_store self) = Some d -> sd_epoch d = es_epoch e;
  node_data : data_ok l (stored (rules_store self));
}.

(** An outcome of an operation: [Q] of its value, or [R] after an error or a panic *)
Definition outcome {A} (m : M Error (SafetyRules Store) A) (s : SafetyRules Store)
    (Q : A -> SafetyRules Store -> Prop) (R : SafetyRules Store -> Prop) : Prop :=
  match m s with (Ok a, s') => Q a s' | (_, s') => R s' end.

Lemma outcome_bind {A B} (m : M Error (SafetyRules Store) A) (k : A -> M Error (SafetyRules Store) B) s Q R :
  outcome m s (fun a s' => outcome (k a) s' Q R) R -> outcome (bind m k) s Q R.
Proof. unfold outcome, bind. by destruct (m s) as [[a | e |] s']. Qed.

Lemma outcome_mono {A} (m : M Error (SafetyRules Store) A) s (Q Q' : A -> SafetyRules Store -> Prop) (R R' : _ -> Prop) :
  outcome m s Q R -> (forall a s', Q a s' -> Q' a s') -> (forall s', R s' -> R' s') -> outcome m s Q' R'.
Proof. unfold outcome. destruct (m s) as [[a | e |] s']; eauto. Qed.

Lemma outcome_ret {A} (a : A) s (Q : A -> SafetyRules Store -> Prop) R : Q a s -> outcome (ret a) s Q R.
Proof. done. Qed.

Lemma outcome_throw {A} e s (Q : A -> SafetyRules Store -> Prop) (R : _ -> Prop) : R s -> outcome (throw e) s Q R.
Proof. done. Qed.

Lemma outcome_lift {A} (r : result Error A) s (Q : A -> SafetyRules Store -> Prop) (R : _ -> Prop) :
  R s -> (forall a, r = Ok a -> Q a s) -> outcome (lift r) s Q R.
Proof. unfold outcome, lift. destruct r; eauto. Qed.

Lemma outcome_get s (Q : SafetyRules Store -> SafetyRules Store -> Prop) R : Q s s -> outcome get s Q R.
Proof. done. Qed.

Lemma outcome_modify f s (Q : unit -> SafetyRules Store -> Prop) R : Q tt (f s) -> outcome (modify f) s Q R.
Proof. done. Qed.

Lemma outcome_if {A} (b : bool) (m n : M Error (SafetyRules Store) A) s Q R :
  (b = true -> outcome m s Q R) -> (b = false -> outcome n s Q R) -> outcome (if b then m else n) s Q R.
Proof. destruct b; auto. Qed.

Lemma outcome_signer s (Q : ValidatorSigner -> SafetyRules Store -> Prop) (R : _ -> Prop) :
  R s -> (forall v, Q v s) -> outcome signer s Q R.
Proof. intros HR HQ. unfold outcome, signer, bind, get. destruct (validator_signer s); [apply HQ | apply HR]. Qed.

Lemma outcome_epoch_state s (Q : EpochState -> SafetyRules Store -> Prop) (R : _ -> Prop) :
  R s -> (forall e, epoch_state s = Some e -> Q e s) -> outcome current_epoch_state s Q R.
Proof.
  intros HR HQ. unfold outcome, current_epoch_state, bind, get. destruct (epoch_state s) eqn:He; [by apply HQ | apply HR].
Qed.

Lemma outcome_sign m s (Q : Signature -> SafetyRules Store -> Prop) (R : _ -> Prop) :
  R s -> (forall sig, Q sig s) -> outcome (sign m) s Q R.
Proof.
  intros HR HQ. apply outcome_bind, outcome_signer; [done |]. intros v. unfold outcome.
  destruct (bls_sign _ _); [apply HQ | apply HR].
Qed.

(** [self] has become [self'] without a change of the stored safety data. *)
Record same_data (self self' : SafetyRules Store) : Prop := {
  same_stored : stored (rules_store self') = stored (rules_store self);
  same_epoch_state : epoch_state self' = epoch_state self;
}.

Lemma node_ok_same l self self' :
  node_ok l self -> same_data self self' ->
  (forall d, cached_safety_data (persistent_storage self') = Some d -> stored (rules_store self') = Some d) ->
  node_ok l self'.
Proof.
  intros [Hcache Hepoch Hdata] [Hst He] Hcache'. split; [done | |].
  - rewrite He, Hst. exact Hepoch.
  - by rewrite Hst.
Qed.

(** Reading the safety data *)
Lemma outcome_safety_data l s (Q : SafetyData -> SafetyRules Store -> Prop) :
  node_ok l s ->
  (forall d s', stored (rules_store s) = Some d -> node_ok l s' -> same_data s s' -> Q d s') ->
  outcome safety_data s Q (node_ok l).
Proof.
  intros Hok HQ. unfold safety_data. apply outcome_bind, outcome_get.
  destruct (enable_cached_safety_data (persistent_storage s)) eqn:Hen; cbn [negb].
  - destruct (cached_safety_data (persistent_storage s)) as [d |] eqn:Hc.
    + apply outcome_ret, HQ; [by apply (node_cache l) | done | done].
    + apply outcome_bind, outcome_lift; [done |]. intros d Hd. apply outcome_bind, outcome_modify, outcome_ret.
      assert (stored (rules_store s) = Some d) as Hst.
      { apply get_safety_data_stored. unfold rules_store. destruct (get_safety_data _) as [| [] |]; simplify_eq/=; done. }
      apply HQ; [done | | done]. apply (node_ok_same l s); [done | done |]. intros d' [= <-]. exact Hst.
  - apply outcome_bind, outcome_lift; [done |]. intros r Hr. apply outcome_lift; [done |]. intros d ->.
    apply HQ; [| done | done]. apply get_safety_data_result_stored. unfold rules_store.
    destruct (get_safety_data_result _) as [| [] |]; simplify_eq/=; done.
Qed.

(** Writing it *)
Lemma outcome_set_safety_data l s d (Q : unit -> SafetyRules Store -> Prop) :
  node_ok l s ->
  (forall s', stored (rules_store s') = Some d -> epoch_state s' = epoch_state s ->
     cached_safety_data (persistent_storage s') = Some d -> Q tt s') ->
  outcome (set_safety_data d) s Q (node_ok l).
Proof.
  intros Hok HQ. unfold set_safety_data. apply outcome_bind, outcome_get.
  destruct (put_safety_data (rules_store s) d) as [r store] eqn:Hput. apply put_safety_data_stored in Hput.
  apply outcome_bind, outcome_modify. destruct r as [[] | e |].
  - apply outcome_modify, HQ; [exact Hput | done | done].
  - apply outcome_bind, outcome_modify, outcome_throw. by apply (node_ok_same l s).
  - unfold outcome, panic. apply (node_ok_same l s); [done | done |].
    intros d' Hd'. etransitivity; [exact Hput |]. by apply (node_cache l s).
Qed.

Lemma map_err_Ok {E E' A} (f : E -> E') (r : result E A) a : map_err f r = Ok a -> r = Ok a.
Proof. destruct r; naive_solver. Qed.

Lemma ensure_Ok b m u : ensure b m = Ok u -> b = true.
Proof. unfold ensure. by destruct b. Qed.

Lemma result_bind_Ok {E A B} (r : result E A) (k : A -> result E B) b :
  result_bind r k = Ok b -> exists a, r = Ok a /\ k a = Ok b.
Proof. destruct r; naive_solver. Qed.

Lemma outcome_verify_qc s qc (Q : unit -> SafetyRules Store -> Prop) (R : _ -> Prop) :
  R s -> (forall e, epoch_state s = Some e -> QuorumCert.verify qc (es_verifier e) = Ok tt -> Q tt s) ->
  outcome (verify_qc qc) s Q R.
Proof.
  intros HR HQ. apply outcome_bind, outcome_epoch_state; [done |]. intros e He.
  apply outcome_lift; [done |]. intros [] Hqc%map_err_Ok. eauto.
Qed.

Lemma outcome_verify_maybe_tc s tc (Q : unit -> SafetyRules Store -> Prop) (R : _ -> Prop) :
  R s ->
  ((forall tc', tc = Some tc' -> exists e, epoch_state s = Some e /\
      TwoChainTimeoutCertificate.verify tc' (es_verifier e) = Ok tt) -> Q tt s) ->
  outcome (verify_maybe_tc tc) s Q R.
Proof.
  intros HR HQ. destruct tc as [tc |]; [| by apply HQ].
  apply outcome_bind, outcome_epoch_state; [done |]. intros e He.
  apply outcome_lift; [done |]. intros [] Htc%map_err_Ok. apply HQ. intros ? [= <-]. eauto.
Qed.

Lemma verify_epoch_Ok epoch d u : verify_epoch epoch d = Ok u -> epoch = sd_epoch d.
Proof. unfold verify_epoch. destruct (Z.eqb_spec epoch (sd_epoch d)); naive_solver. Qed.

Lemma update_last_vote_round_Ok round d d' :
  verify_and_update_last_vote_round round d = Ok d' ->
  sd_last_voted_round d < round /\ sd_epoch d' = sd_epoch d /\ sd_last_voted_round d' = round /\
  sd_one_chain_round d' = sd_one_chain_round d /\ sd_last_vote d' = sd_last_vote d.
Proof.
  unfold verify_and_update_last_vote_round. destruct (Z.leb_spec round (sd_last_voted_round d)); [done |].
  intros [= <-]. done.
Qed.

Lemma event_bounded_mono d d' ev :
  sd_epoch d' = sd_epoch d -> sd_last_voted_round d <= sd_last_voted_round d' ->
  sd_one_chain_round d <= sd_one_chain_round d' -> event_bounded d ev -> event_bounded d' ev.
Proof. destruct ev; simpl; lia || done. Qed.

Lemma elem_of_record ev ev' l : ev' ∈ record ev l <-> ev' = ev \/ ev' ∈ l.
Proof. unfold record. case_decide; [| by rewrite elem_of_cons]. naive_solver. Qed.

Lemma Forall_record (P : event -> Prop) ev l : P ev -> Forall P l -> Forall P (record ev l).
Proof. unfold record. case_decide; [done |]. by constructor. Qed.

(** The stored data grows, and the log with it *)
Lemma node_ok_grow l l' s s' d d' :
  stored (rules_store s) = Some d -> node_ok l s ->
  stored (rules_store s') = Some d' -> epoch_state s' = epoch_state s ->
  (forall c, cached_safety_data (persistent_storage s') = Some c -> c = d') ->
  sd_epoch d' = sd_epoch d -> sd_last_voted_round d <= sd_last_voted_round d' ->
  sd_one_chain_round d <= sd_one_chain_round d' ->
  (forall ev, ev ∈ l' -> ev ∈ l \/ event_bounded d' ev) -> (forall ev, ev ∈ l -> ev ∈ l') ->
  (forall vote, sd_last_vote d' = Some vote ->
     sd_last_vote d = Some vote \/ Voted (vote_vote_data vote) (vote_ledger_info vote) ∈ l') ->
  node_ok l' s'.
Proof.
  intros Hd [_ Hepoch Hdata] Hd' He Hcache Heq Hlvr Hone Hev Hsub Hlast. rewrite Hd in *. split.
  - intros c ->%Hcache. done.
  - rewrite He. intros e Hes. destruct (Hepoch e Hes) as [Hv Hepd]. split; [done |].
    rewrite Hd'. intros ? [= <-]. rewrite Heq. by apply Hepd.
  - rewrite Hd'. destruct Hdata as [Hall Hvote]. rewrite list.Forall_forall in Hall. split.
    + apply list.Forall_forall. intros ev [Hin | Hb]%Hev; [| done]. eapply event_bounded_mono; [done.. |]. auto.
    + intros vote Hv. destruct (Hlast vote Hv) as [Hold | Hnew]; auto.
Qed.

(** ** Timeouts *)

(** A timeout comes after votes on blocks whose certificate is not newer than its own. *)
Definition timeout_after (l : list event) (t : TimeoutSigningRepr) : Prop :=
  forall X li, Voted X li ∈ l -> bi_epoch (vd_proposed X) = tsr_epoch t -> bi_round (vd_parent X) <= tsr_hqc_round t.

Lemma sign_timeout_ok l s timeout tc :
  node_ok l s ->
  outcome (guarded_sign_timeout_with_qc timeout tc) s
    (fun _ s' => node_ok (record (TimedOut (TwoChainTimeout.signing_format timeout)) l) s' /\
                 timeout_after l (TwoChainTimeout.signing_format timeout))
    (node_ok l).
Proof.
  intros Hok. apply outcome_bind, outcome_signer; [done | intros _].
  apply outcome_bind, (outcome_safety_data l); [done |]. intros d s1 Hd Hok1 Hsame.
  apply outcome_bind, outcome_lift; [done |]. intros [] He%verify_epoch_Ok.
  apply outcome_bind, outcome_epoch_state; [done |]. intros e Hes.
  apply outcome_bind, outcome_lift; [done |]. intros [] _.
  apply outcome_bind, outcome_verify_maybe_tc; [done |]. intros _.
  apply outcome_bind, outcome_lift; [done |]. intros [] Hsafe.
  apply outcome_bind, outcome_if; [intros _; by apply outcome_throw | intros Hge%Z.ltb_ge]. apply outcome_ret.
  assert (Hd1 : stored (rules_store s1) = Some d) by (by rewrite (same_stored _ _ Hsame)).
  assert (Hhqc : sd_one_chain_round d <= TwoChainTimeout.hqc_round timeout).
  { unfold safe_to_timeout in Hsafe. apply result_bind_Ok in Hsafe as (? & _ & Hsafe).
    apply result_bind_Ok in Hsafe as (follows & _ & Hsafe). destruct follows; [| done]. simpl in Hsafe.
    destruct (Z.leb_spec (sd_one_chain_round d) (TwoChainTimeout.hqc_round timeout)); done. }
  assert (Hafter : timeout_after l (TwoChainTimeout.signing_format timeout)).
  { intros X li HX Hep. pose proof (node_data l s1 Hok1) as Hdata. rewrite Hd1 in Hdata. destruct Hdata as [Hall _].
    pose proof (proj1 (list.Forall_forall _ _) Hall _ HX) as [_ Hb]. simpl in *. destruct Hb; lia. }
  apply outcome_bind, outcome_if.
  - intros Hlt%Z.ltb_lt. apply outcome_bind, outcome_lift; [done |]. intros d' Hup.
    apply update_last_vote_round_Ok in Hup as (Hlvr & He' & Hr' & Hone & Hlast).
    apply (outcome_set_safety_data l); [done |]. intros s2 Hd2 Hes2 Hc2.
    assert (Hgrow : forall l', (forall ev, ev ∈ l' -> ev ∈ l \/ event_bounded d' ev) -> (forall ev, ev ∈ l -> ev ∈ l') ->
              node_ok l' s2).
    { intros l' Hl' Hsub. eapply (node_ok_grow l l' s1 s2 d d'); [done.. | | lia | lia | lia | done | done |].
      - intros c Hc. congruence.
      - intros vote. rewrite Hlast. by left. }
    apply outcome_sign; [apply Hgrow; auto |]. intros _. split; [| done].
    apply Hgrow; intros ev; rewrite elem_of_record; [| by right]. intros [-> | Hin]; [right; simpl; lia | by left].
  - intros Hle%Z.ltb_ge. apply outcome_ret, outcome_sign; [done |]. intros _. split; [| done].
    eapply (node_ok_grow l _ s1 s1 d d); [done.. | | done | lia | lia | | |].
    + intros c Hc. apply (node_cache l) in Hc; [congruence | done].
    + intros ev. rewrite elem_of_record. intros [-> | Hin]; [right; simpl; lia | by left].
    + intros ev. rewrite elem_of_record. by right.
    + by left.
Qed.

(** ** The invariant of the world *)

(** Timeouts of a quorum that let a block of the next round follow an older certificate *)
Definition timeouts_justify (w : world) (X : VoteData) : Prop :=
  exists vs ts, quorum_voters (validators (bi_epoch (vd_proposed X))) vs /\
    Forall2 (fun x t => honest (vci_address x) = true -> TimedOut t ∈ log w (vci_address x)) vs ts /\
    Forall (fun t => tsr_epoch t = bi_epoch (vd_proposed X) /\ tsr_round t + 1 = bi_round (vd_proposed X) /\
                     tsr_hqc_round t <= bi_round (vd_parent X)) ts.

Record vote_justified (w : world) (X : VoteData) (li : LedgerInfo) : Prop := {
  vj_ledger_info : li = ledger_info_of X;
  vj_epoch : bi_epoch (vd_parent X) = bi_epoch (vd_proposed X);
  vj_round : bi_round (vd_parent X) < bi_round (vd_proposed X);
  vj_parent : bi_round (vd_parent X) = 0 \/ exists Y, certified w Y /\ vd_proposed Y = vd_parent X;
  vj_safe : consecutive X \/ timeouts_justify w X;
}.

Definition commit_justified (w : world) (li : LedgerInfo) : Prop :=
  exists X, crypto_hash X = li_consensus_data_hash li /\ commits w X (li_commit_info li).

(** In a log, newest first: a vote is of a later round than what precedes it, and a timeout comes
    after the votes that precede it. *)
Definition vote_after (l : list event) (X : VoteData) : Prop :=
  forall ev r, ev ∈ l -> event_epoch ev = bi_epoch (vd_proposed X) -> event_round ev = Some r ->
    r < bi_round (vd_proposed X).

Definition event_after (l : list event) (ev : event) : Prop :=
  match ev with
  | Voted X _ => vote_after l X
  | TimedOut t => timeout_after l t
  | CommitVoted _ => True
  end.

Fixpoint ordered (l : list event) : Prop :=
  match l with [] => True | ev :: l => event_after l ev /\ ordered l end.

Record world_ok (w : world) : Prop := {
  wo_node : forall a, honest a = true -> node_ok (log w a) (nodes w a);
  wo_vote : forall a X li, honest a = true -> Voted X li ∈ log w a -> vote_justified w X li;
  wo_commit : forall a li, honest a = true -> CommitVoted li ∈ log w a -> commit_justified w li;
  wo_order : forall a, honest a = true -> ordered (log w a);
}.

(** What the proofs assume: distinct vote data have distinct hashes, and at most a third of the
    voting power of an epoch is dishonest. *)
Context (vote_hash_inj : forall X Y : VoteData, crypto_hash X = crypto_hash Y -> X = Y)
  (validators_wf : forall e, wf_verifier (validators e))
  (byzantine_third : forall e,
     3 * power (fun a => negb (honest a)) (validator_infos (validators e)) <= total_voting_power (validators e)).

Lemma quorums_share e vs vs' :
  quorum_voters (validators e) vs -> quorum_voters (validators e) vs' ->
  exists x y, x ∈ vs /\ y ∈ vs' /\ vci_address x = vci_address y /\ honest (vci_address x) = true.
Proof.
  intros [Hk _ Hp] [Hk' _ Hp'].
  destruct (quorums_meet _ _ _ honest (validators_wf e) Hp Hp' (byzantine_third e)) as (a & Ha & Ha' & Hh).
  apply bool_decide_eq_true in Ha, Ha'. apply list_elem_of_fmap in Ha as (x & -> & Hx), Ha' as (y & Hy & Hin). eauto 8.
Qed.

Lemma verify_signatures_voters e s :
  verify_signatures s (validators e) = Ok tt ->
  exists vs, ValidatorVerifier.check_voters (validators e) (liws_signatures s) = Ok vs /\
    quorum_voters (validators e) vs.
Proof.
  unfold verify_signatures, ValidatorVerifier.verify_multi_signatures. intros (vs & Hvs & _)%result_bind_Ok.
  exists vs. split; [done |]. by eapply check_voters_spec.
Qed.

(** A verified ledger info stands for a certified block. *)
Lemma signatures_certify w e s :
  world_ok w -> unforged_ledger_info w s -> verify_signatures s (validators e) = Ok tt ->
  (forall X, liws_ledger_info s = ledger_info_of X -> bi_epoch (vd_parent X) = bi_epoch (vd_proposed X) ->
     bi_epoch (vd_proposed X) = e) ->
  exists X, crypto_hash X = li_consensus_data_hash (liws_ledger_info s) /\ certified w X /\
    bi_epoch (vd_parent X) = bi_epoch (vd_proposed X) /\
    (liws_ledger_info s = ledger_info_of X \/ commits w X (li_commit_info (liws_ledger_info s))).
Proof.
  intros Hw Hunf Hver Hep. destruct (verify_signatures_voters e s Hver) as (vs & Hvs & Hq).
  pose proof (Hunf e vs Hver Hvs) as Hsigned. set (li := liws_ledger_info s) in *.
  destruct (decide (Exists (fun x => honest (vci_address x) = true /\ CommitVoted li ∈ log w (vci_address x)) vs)) as [Hex | Hno].
  - apply list.Exists_exists in Hex as (x & _ & Hh & Hc). destruct (wo_commit w Hw _ _ Hh Hc) as (X & Hhash & Hcommit).
    exists X. pose proof Hcommit as (? & ? & ? & ?). auto.
  - destruct (quorums_share e vs vs Hq Hq) as (x & _ & Hx & _ & _ & Hh).
    assert (Hvoted : forall y, y ∈ vs -> honest (vci_address y) = true -> exists X, Voted X li ∈ log w (vci_address y)).
    { intros y Hy Hhy. destruct (Hsigned y Hy Hhy) as [HX | Hc]; [done |]. destruct Hno. apply list.Exists_exists. eauto. }
    destruct (Hvoted x Hx Hh) as [X HX]. pose proof (wo_vote w Hw _ _ _ Hh HX) as [Hli Heq _ _ _].
    exists X. split; [by rewrite Hli |]. split; [| auto]. exists vs. rewrite (Hep X Hli Heq). split; [done |].
    intros y Hy Hhy. destruct (Hvoted y Hy Hhy) as [Y HY]. pose proof (wo_vote w Hw _ _ _ Hhy HY) as [Hli' _ _ _ _].
    assert (X = Y) as ->; [| by rewrite <- Hli']. apply vote_hash_inj.
    apply (f_equal li_consensus_data_hash) in Hli, Hli'. simpl in *. congruence.
Qed.

Lemma qc_verify_cases qc v :
  QuorumCert.verify qc v = Ok tt ->
  li_consensus_data_hash (QuorumCert.ledger_info qc) = crypto_hash (qc_vote_data qc) /\
  ((bi_round (QuorumCert.certified_block qc) = 0 /\ QuorumCert.certified_block qc = QuorumCert.commit_info qc) \/
   (bi_round (QuorumCert.certified_block qc) <> 0 /\ verify_signatures (qc_signed_ledger_info qc) v = Ok tt)).
Proof.
  unfold QuorumCert.verify. intros (? & Hhash%ensure_Ok%Z.eqb_eq & Hrest)%result_bind_Ok. split; [done |].
  destruct (Z.eqb_spec (bi_round (QuorumCert.certified_block qc)) 0) as [Hr | Hr].
  - left. apply result_bind_Ok in Hrest as (? & _ & Hrest).
    apply result_bind_Ok in Hrest as (? & Hc%ensure_Ok%bool_decide_eq_true & _). done.
  - right. apply result_bind_Ok in Hrest as ([] & Hsig & _). split; [done |].
    unfold context in Hsig. destruct (verify_signatures _ _) as [[] | |]; done.
Qed.

Lemma qc_certifies w e qc :
  world_ok w -> unforged_qc w qc -> QuorumCert.verify qc (validators e) = Ok tt ->
  bi_epoch (QuorumCert.certified_block qc) = e ->
  bi_round (QuorumCert.certified_block qc) = 0 \/ certified w (qc_vote_data qc).
Proof.
  intros Hw Hunf [Hhash [[Hr _] | [Hr Hsig]]]%qc_verify_cases He; [by left | right].
  destruct (signatures_certify w e (qc_signed_ledger_info qc) Hw Hunf Hsig) as (X & HX & Hc & _ & _).
  { intros X Hli _. assert (X = qc_vote_data qc) as ->; [| done]. apply vote_hash_inj. rewrite <- Hhash.
    unfold QuorumCert.ledger_info. by rewrite Hli. }
  assert (X = qc_vote_data qc) as <-; [| done]. apply vote_hash_inj. rewrite HX. exact Hhash.
Qed.

(** ** Votes *)

Lemma foldl_max_ge rs r x : x ∈ r :: rs -> x <= foldl Z.max r rs.
Proof.
  revert r x. induction rs as [| y rs IH]; intros r x Hx; simpl.
  - apply list_elem_of_singleton in Hx. lia.
  - assert (Z.max r y <= foldl Z.max (Z.max r y) rs) by (apply IH, list_elem_of_here).
    apply elem_of_cons in Hx as [-> | [-> | Hx]%elem_of_cons]; [lia.. |]. apply IH. by apply list_elem_of_further.
Qed.

(** A verified timeout certificate *)
Lemma tc_justifies w tc e (X : VoteData) :
  unforged_tc w tc -> TwoChainTimeoutCertificate.verify tc (validators e) = Ok tt ->
  bi_epoch (vd_proposed X) = e -> TwoChainTimeoutCertificate.epoch tc = e ->
  TwoChainTimeoutCertificate.round tc + 1 = bi_round (vd_proposed X) ->
  TwoChainTimeoutCertificate.highest_hqc_round tc <= bi_round (vd_parent X) -> timeouts_justify w X.
Proof.
  intros Hunf Hver He Hte Hround Hhqc. unfold TwoChainTimeoutCertificate.verify in Hver.
  apply result_bind_Ok in Hver as (? & _ & Hver). apply result_bind_Ok in Hver as ([] & Hagg & Hver).
  apply result_bind_Ok in Hver as (top & Htop & Hmax%ensure_Ok%Z.eqb_eq).
  set (sig := aswr_sig (tc_signatures_with_rounds tc)) in *.
  set (ts := TwoChainTimeoutCertificate.timeout_messages tc (validators e)) in *.
  assert (Hverify : ValidatorVerifier.verify_aggregate_signatures (validators e) (map signing_message ts) sig = Ok tt).
  { unfold context in Hagg. destruct (ValidatorVerifier.verify_aggregate_signatures _ _ _) as [[] | |]; done. }
  assert (exists vs, ValidatorVerifier.check_voters (validators e) sig = Ok vs) as [vs Hvs].
  { unfold ValidatorVerifier.verify_aggregate_signatures in Hverify. apply result_bind_Ok in Hverify as (vs & ? & _). eauto. }
  exists vs, ts. rewrite He. split; [by eapply check_voters_spec |]. split; [by apply (Hunf e vs) |].
  apply list.Forall_forall. intros t Ht. unfold ts, TwoChainTimeoutCertificate.timeout_messages in Ht.
  apply list_elem_of_fmap in Ht as ([a h] & -> & Hin). simpl. split; [done |]. split; [lia |].
  apply elem_of_zip_r in Hin. unfold TwoChainTimeoutCertificate.max_round in Htop.
  destruct (aswr_rounds (tc_signatures_with_rounds tc)) as [| r rs]; [done |]. injection Htop as <-.
  apply foldl_max_ge in Hin. unfold TwoChainTimeoutCertificate.highest_hqc_round in Hhqc. lia.
Qed.

Lemma gen_vote_data_Ok vp X :
  VoteProposal.gen_vote_data vp = Ok X ->
  bi_epoch (vd_proposed X) = Block.epoch (vp_block vp) /\ bi_round (vd_proposed X) = Block.round (vp_block vp) /\
  vd_parent X = QuorumCert.certified_block (Block.quorum_cert (vp_block vp)).
Proof.
  unfold VoteProposal.gen_vote_data. destruct (vp_decoupled_execution vp).
  - by intros [= <-].
  - by intros (? & _ & [= <-])%result_bind_Ok.
Qed.

Lemma well_formed_Ok now b :
  Block.verify_well_formed now b = Ok tt ->
  bi_round (QuorumCert.certified_block (Block.quorum_cert b)) < Block.round b /\
  bi_epoch (QuorumCert.certified_block (Block.quorum_cert b)) = Block.epoch b.
Proof.
  unfold Block.verify_well_formed. intros (? & _ & Hwf)%result_bind_Ok.
  apply result_bind_Ok in Hwf as (? & Hr%ensure_Ok%Z.ltb_lt & Hwf).
  by apply result_bind_Ok in Hwf as (? & He%ensure_Ok%Z.eqb_eq & _).
Qed.

Lemma next_round_Ok r n : next_round r = Ok n -> n = r + 1.
Proof. unfold next_round. destruct (_ <? _); naive_solver. Qed.

Lemma safe_to_vote_Ok b tc :
  safe_to_vote b tc = Ok tt ->
  let qc_round := bi_round (QuorumCert.certified_block (Block.quorum_cert b)) in
  Block.round b = qc_round + 1 \/
  match tc with
  | None => Block.round b = 1 /\ 0 <= qc_round
  | Some tc => Block.round b = TwoChainTimeoutCertificate.round tc + 1 /\
               TwoChainTimeoutCertificate.highest_hqc_round tc <= qc_round
  end.
Proof.
  unfold safe_to_vote. intros (n & ->%next_round_Ok & Hs)%result_bind_Ok. simpl.
  apply result_bind_Ok in Hs as (safe & Hsafe & Hs). destruct safe; [| done].
  destruct (Z.eqb_spec (Block.round b) (bi_round (QuorumCert.certified_block (Block.quorum_cert b)) + 1)); [by left | right].
  apply result_bind_Ok in Hsafe as (m & ->%next_round_Ok & [= [?%Z.eqb_eq ?%Z.leb_le]%andb_true_iff]).
  destruct tc; simpl in *; lia.
Qed.

Lemma construct_ledger_info_Ok b X li :
  construct_ledger_info_2chain b (crypto_hash X) = Ok li ->
  bi_round (vd_proposed X) = Block.round b -> vd_parent X = QuorumCert.certified_block (Block.quorum_cert b) ->
  li = ledger_info_of X.
Proof.
  unfold construct_ledger_info_2chain, ledger_info_of. intros (n & ->%next_round_Ok & [= <-])%result_bind_Ok Hr ->.
  by rewrite Hr.
Qed.

(** What has been checked of a proposal when its vote is constructed *)
Lemma proposal_justified w s e vp tc X now li :
  world_ok w -> admissible w s (OpSignVote now vp tc) ->
  Block.epoch (vp_block vp) = e ->
  QuorumCert.verify (Block.quorum_cert (vp_block vp)) (validators e) = Ok tt ->
  Block.verify_well_formed now (vp_block vp) = Ok tt -> VoteProposal.gen_vote_data vp = Ok X ->
  (forall tc', tc = Some tc' -> TwoChainTimeoutCertificate.verify tc' (validators e) = Ok tt) ->
  safe_to_vote (vp_block vp) tc = Ok tt ->
  construct_ledger_info_2chain (vp_block vp) (crypto_hash X) = Ok li -> vote_justified w X li.
Proof.
  intros Hw [Hunf Htc] He Hqc [Hr Hpe]%well_formed_Ok (HXe & HXr & HXp)%gen_vote_data_Ok Hver Hsafe Hli.
  split.
  - by eapply construct_ledger_info_Ok.
  - rewrite HXp, HXe. done.
  - rewrite HXp, HXr. done.
  - rewrite HXp. destruct (qc_certifies w e _ Hw Hunf Hqc) as [? | Hc]; [by rewrite Hpe | by left | right; eauto].
  - unfold consecutive. rewrite HXp, HXr. apply safe_to_vote_Ok in Hsafe as [Hnext | Hsafe]; [by left |].
    destruct tc as [tc |]; [right | left; lia]. destruct Hsafe as [Hnext Hhqc], Htc as [Hunf' Hte].
    apply (tc_justifies w tc e); [done | by apply Hver | by rewrite HXe | by rewrite Hte | lia | by rewrite HXp].
Qed.

(** The outcome of a vote: the validator's state with the vote logged, and the vote logged before
    or justified and later than everything in the log *)
Definition voted (w : world) (l : list event) (vote : Vote) (s' : SafetyRules Store) : Prop :=
  let ev := Voted (vote_vote_data vote) (vote_ledger_info vote) in
  node_ok (record ev l) s' /\
  (ev ∈ l \/ vote_justified w (vote_vote_data vote) (vote_ledger_info vote) /\ vote_after l (vote_vote_data vote)).

Lemma construct_vote_ok w l s d vp tc X :
  node_ok l s -> stored (rules_store s) = Some d -> Block.epoch (vp_block vp) = sd_epoch d ->
  VoteProposal.gen_vote_data vp = Ok X ->
  (forall li, safe_to_vote (vp_block vp) tc = Ok tt ->
     construct_ledger_info_2chain (vp_block vp) (crypto_hash X) = Ok li -> vote_justified w X li) ->
  outcome (construct_vote (vp_block vp) X tc d) s (voted w l) (node_ok l).
Proof.
  intros Hok Hd He (HXe & HXr & HXp)%gen_vote_data_Ok Hjust. unfold construct_vote.
  apply outcome_bind, outcome_lift; [done |]. intros d' Hup.
  apply update_last_vote_round_Ok in Hup as (Hlvr & He' & Hr' & Hone & Hlast).
  apply outcome_bind, outcome_lift; [done |]. intros [] Hsafe.
  apply outcome_bind, outcome_signer; [done |]. intros v.
  apply outcome_bind, outcome_lift; [done |]. intros li Hli.
  apply outcome_bind, outcome_sign; [done |]. intros sig.
  apply outcome_bind, (outcome_set_safety_data l); [done |]. intros s3 Hd3 Hes3 Hc3. apply outcome_ret.
  assert (Hafter : vote_after l X).
  { intros ev r Hev Hep Hr. pose proof (node_data l s Hok) as Hdata. rewrite Hd in Hdata. destruct Hdata as [Hall _].
    pose proof (proj1 (list.Forall_forall _ _) Hall _ Hev) as Hb.
    destruct ev; simplify_eq/=; destruct Hb as [_ Hb]; lia. }
  split; [| right; split; [by apply Hjust | done]].
  eapply (node_ok_grow l _ s s3 d); [done | done | exact Hd3 | done | congruence | simpl; lia | simpl; lia | | | |].
  - simpl. destruct (Z.ltb_spec (sd_one_chain_round d') (bi_round (QuorumCert.certified_block (Block.quorum_cert (vp_block vp))))); lia.
  - intros ev. rewrite elem_of_record. intros [-> | Hin]; [right | by left]. simpl. rewrite HXp, HXr, HXe. split; [lia |].
    intros _. split; [lia |].
    destruct (Z.ltb_spec (sd_one_chain_round d') (bi_round (QuorumCert.certified_block (Block.quorum_cert (vp_block vp))))); lia.
  - intros ev. rewrite elem_of_record. by right.
  - intros vote [= <-]. right. apply elem_of_record. by left.
Qed.

Lemma sign_vote_ok w l s now vp tc :
  world_ok w -> node_ok l s -> admissible w s (OpSignVote now vp tc) ->
  outcome (guarded_construct_and_sign_vote_two_chain now vp tc) s (voted w l) (node_ok l).
Proof.
  intros Hw Hok Hadm. apply outcome_bind, outcome_signer; [done | intros _].
  apply outcome_bind. unfold verify_proposal.
  apply outcome_bind, (outcome_safety_data l); [done |]. intros d s1 Hd Hok1 Hsame.
  apply outcome_bind, outcome_lift; [done |]. intros [] He%verify_epoch_Ok.
  apply outcome_bind, outcome_verify_qc; [done |]. intros e Hes Hqc.
  apply outcome_bind, outcome_epoch_state; [done |]. intros e' Hes'.
  apply outcome_bind, outcome_lift; [done |]. intros [] _.
  apply outcome_bind, outcome_lift; [done |]. intros [] Hwf%map_err_Ok.
  apply outcome_lift; [done |]. intros X HX%map_err_Ok.
  apply outcome_bind, outcome_verify_maybe_tc; [done |]. intros Htc.
  apply outcome_bind, (outcome_safety_data l); [done |]. intros d2 s2 Hd2 Hok2 Hsame2.
  assert (d2 = d) as -> by (rewrite (same_stored _ _ Hsame) in Hd2; congruence).
  destruct (node_epoch l s1 Hok1 e Hes) as [Hver Hepd]. specialize (Hepd d Hd2). rewrite Hver in Hqc.
  assert (Hstored2 : stored (rules_store s2) = Some d) by (by rewrite (same_stored _ _ Hsame2)).
  assert (Hnew : outcome (construct_vote (vp_block vp) X tc d) s2 (voted w l) (node_ok l)).
  { apply construct_vote_ok; [done.. |]. intros li Hsafe Hli.
    eapply (proposal_justified w s (es_epoch e) vp tc X now); try done; [congruence |].
    intros tc' Heq. destruct (Htc tc' Heq) as (e2 & He2 & Htv). rewrite Hes in He2. injection He2 as <-. by rewrite Hver in Htv. }
  pose proof (node_data l s2 Hok2) as Hdata. rewrite Hstored2 in Hdata. destruct Hdata as [_ Hin].
  destruct (sd_last_vote d) as [vote |]; [| done]. apply outcome_if; [intros _ | done]. apply outcome_ret.
  specialize (Hin vote eq_refl). unfold voted, record. rewrite decide_True by done. auto.
Qed.

(** ** Commit votes *)

Lemma match_ordered_only_same a b : BlockInfo.match_ordered_only a b = true -> same_block a b.
Proof.
  unfold BlockInfo.match_ordered_only. rewrite !andb_true_iff, !Z.eqb_eq. intros [[[? ?] ?] _]. done.
Qed.

Lemma ordered_not_empty b : BlockInfo.is_ordered_only b = true -> b <> BlockInfo.empty.
Proof. unfold BlockInfo.is_ordered_only. rewrite !andb_true_iff, bool_decide_eq_true. naive_solver. Qed.

Lemma ledger_info_of_committed X :
  li_commit_info (ledger_info_of X) <> BlockInfo.empty ->
  consecutive X /\ li_commit_info (ledger_info_of X) = vd_parent X.
Proof. unfold ledger_info_of, consecutive. simpl. destruct (Z.eqb_spec (bi_round (vd_parent X) + 1) (bi_round (vd_proposed X))); [lia || auto | done]. Qed.

Lemma same_block_trans a b c : same_block a b -> same_block b c -> same_block a c.
Proof. intros (? & ? & ?) (? & ? & ?). repeat split; congruence. Qed.

Lemma sign_commit_vote_ok w l s li new_li :
  world_ok w -> node_ok l s -> admissible w s (OpSignCommitVote li new_li) ->
  outcome (guarded_sign_commit_vote li new_li) s (fun _ s' => s' = s /\ commit_justified w new_li) (node_ok l).
Proof.
  intros Hw Hok (Hunf & Hhash & Hep). apply outcome_bind, outcome_signer; [done | intros _].
  apply outcome_bind, outcome_if; [intros _; by apply outcome_throw | intros Hord%negb_false_iff]. apply outcome_ret.
  apply outcome_bind, outcome_if; [intros _; by apply outcome_throw | intros Hmatch%negb_false_iff]. apply outcome_ret.
  apply outcome_bind, outcome_epoch_state; [done |]. intros e Hes.
  apply outcome_bind, outcome_lift; [done |]. intros [] Hsig%map_err_Ok.
  apply outcome_sign; [done |]. intros _. split; [done |].
  destruct (node_epoch l s Hok e Hes) as [Hver _]. rewrite Hver in Hsig.
  assert (Hsig' : verify_signatures li (validators (es_epoch e)) = Ok tt).
  { unfold context in Hsig. destruct (verify_signatures _ _) as [[] | |]; done. }
  apply ordered_not_empty in Hord. apply match_ordered_only_same in Hmatch.
  destruct (signatures_certify w (es_epoch e) li Hw Hunf Hsig') as (X & HX & Hc & Heq & Hcommit).
  { intros X HX Heq. rewrite HX in Hord. destruct (ledger_info_of_committed X Hord) as [_ Hp].
    rewrite <- Heq, <- Hp, <- HX. by apply Hep. }
  exists X. split; [by rewrite HX, Hhash |]. destruct Hcommit as [HliX | (_ & Hcons & Hsame & _)].
  - rewrite HliX in Hord, Hmatch. destruct (ledger_info_of_committed X Hord) as [Hcons Hp]. rewrite Hp in Hmatch.
    exact (conj Hc (conj Hcons (conj Hmatch Heq))).
  - split; [done |]. split; [done |]. split; [| done]. by eapply same_block_trans.
Qed.

(** ** The other operations *)

Lemma node_ok_signer l s v : node_ok l s -> node_ok l (set_signer v s).
Proof. intros [? ? ?]. by split. Qed.

Lemma outcome_waypoint l s (Q : Waypoint -> SafetyRules Store -> Prop) :
  node_ok l s -> (forall wp, Q wp s) -> outcome storage_waypoint s Q (node_ok l).
Proof. intros Hok HQ. apply outcome_bind, outcome_get, outcome_lift; [done |]. intros wp _. apply HQ. Qed.

Lemma outcome_author l s (Q : Author -> SafetyRules Store -> Prop) :
  node_ok l s -> (forall a, Q a s) -> outcome storage_author s Q (node_ok l).
Proof. intros Hok HQ. apply outcome_bind, outcome_get, outcome_lift; [done |]. intros a _. apply HQ. Qed.

Lemma outcome_set_waypoint l s wp (Q : unit -> SafetyRules Store -> Prop) :
  node_ok l s -> (forall s', node_ok l s' -> Q tt s') -> outcome (set_waypoint wp) s Q (node_ok l).
Proof.
  intros Hok HQ. unfold set_waypoint. apply outcome_bind, outcome_get.
  destruct (put_waypoint (rules_store s) wp) as [r store] eqn:Hput. apply put_waypoint_stored in Hput.
  assert (node_ok l (set_store store s)) as Hok'.
  { apply (node_ok_same l s); [done | done |]. intros d Hd. etransitivity; [exact Hput |]. by apply (node_cache l s). }
  apply outcome_bind, outcome_modify, outcome_lift; [done |]. intros []. auto.
Qed.

Lemma reconcile_key_ok l s e author :
  node_ok l s -> outcome (reconcile_key e author) s (fun _ => node_ok l) (node_ok l).
Proof.
  intros Hok. unfold reconcile_key. destruct (ValidatorVerifier.get_public_key _ _); [| by apply outcome_throw].
  apply outcome_bind, outcome_get, outcome_if; [intros _; by apply outcome_ret | intros _].
  unfold outcome. destruct (consensus_key_for_version _ s) as [r s'] eqn:Hkey.
  assert (s' = s) as ->.
  { unfold consensus_key_for_version, bind, get, lift, ret, throw in Hkey. destruct (from_storage _); simplify_eq/=; [| done..].
    destruct (_ =? _); by simplify_eq. }
  destruct r as [key | [] |]; try done. by apply node_ok_signer.
Qed.

(** The state before a new epoch state is set *)
Record epoch_ready (l : list event) (e : EpochState) (s : SafetyRules Store) : Prop := {
  er_cache : forall d, cached_safety_data (persistent_storage s) = Some d -> stored (rules_store s) = Some d;
  er_epoch : forall d, stored (rules_store s) = Some d -> sd_epoch d = es_epoch e;
  er_data : data_ok l (stored (rules_store s));
}.

Lemma initialize_ok w l s proof :
  node_ok l s -> admissible w s (OpInitialize proof) ->
  outcome (guarded_initialize proof) s (fun _ => node_ok l) (node_ok l).
Proof.
  intros Hok Hadm. unfold guarded_initialize.
  apply outcome_bind, (outcome_waypoint l); [done |]. intros wp.
  apply outcome_bind, outcome_lift; [done |]. intros li Hli%map_err_Ok.
  apply outcome_bind, outcome_lift; [done |]. intros e He.
  apply outcome_bind, outcome_lift; [done |]. intros new_wp _.
  assert (Hver : es_verifier e = validators (es_epoch e)).
  { destruct (LedgerInfo.next_epoch_state _) eqn:Hnext; simplify_eq. by eapply Hadm. }
  apply outcome_bind. apply (outcome_mono _ _ (fun _ => node_ok l) _ (node_ok l)); [| | done].
  { apply outcome_if; intros _; [by apply (outcome_set_waypoint l) | by apply outcome_ret]. }
  intros _ s1 Hok1. apply outcome_bind, (outcome_safety_data l); [done |]. intros d s2 Hd Hok2 Hsame.
  assert (Hd2 : stored (rules_store s2) = Some d) by (by rewrite (same_stored _ _ Hsame)).
  apply outcome_bind. apply (outcome_mono _ _ (fun _ => epoch_ready l e) _ (node_ok l)); [| | done].
  - pose proof (node_data l s2 Hok2) as Hdata. rewrite Hd2 in Hdata.
    destruct (Z.compare_spec (sd_epoch d) (es_epoch e)) as [Heq | Hlt | Hgt]; [| | by apply outcome_throw].
    + apply outcome_ret. split; [apply Hok2 | rewrite Hd2; by intros ? [= <-] | by rewrite Hd2].
    + apply (outcome_set_safety_data l); [done |]. intros s3 Hd3 _ Hc3. split; [congruence | rewrite Hd3; by intros ? [= <-] |].
      rewrite Hd3. split; [| done]. destruct Hdata as [Hall _]. eapply Forall_impl; [| exact Hall].
      intros []; simpl; lia || done.
  - intros _ s3 [Hcache Hepoch Hdata]. apply outcome_bind, outcome_modify.
    assert (Hok3 : node_ok l (set_epoch_state (Some e) s3)) by (split; [done | by intros ? [= <-] | done]).
    apply outcome_bind, (outcome_author l); [done |]. intros author. unfold outcome.
    pose proof (reconcile_key_ok l _ e author Hok3) as Hkey. unfold outcome in Hkey.
    destruct (reconcile_key e author _) as [[[] | |] s4]; [done | by apply node_ok_signer | done].
Qed.

Lemma sign_proposal_ok l s bd :
  node_ok l s -> outcome (guarded_sign_proposal bd) s (fun _ => node_ok l) (node_ok l).
Proof.
  intros Hok. apply outcome_bind, outcome_signer; [done | intros _].
  apply outcome_bind. unfold verify_author. apply outcome_bind, outcome_signer; [done |]. intros v.
  destruct (BlockData.author bd); [| by apply outcome_throw].
  apply outcome_if; intros _; [| by apply outcome_throw]. apply outcome_ret.
  apply outcome_bind, (outcome_safety_data l); [done |]. intros d s1 _ Hok1 _.
  apply outcome_bind, outcome_lift; [done |]. intros [] _.
  apply outcome_bind, outcome_if; intros _; [by apply outcome_throw | apply outcome_ret].
  apply outcome_bind, outcome_verify_qc; [done |]. intros _ _ _.
  apply outcome_bind, outcome_lift; [done |]. intros _ _. by apply outcome_sign.
Qed.

Lemma consensus_state_ok l s :
  node_ok l s -> outcome guarded_consensus_state s (fun _ => node_ok l) (node_ok l).
Proof.
  intros Hok. apply outcome_bind, (outcome_waypoint l); [done |]. intros _.
  apply outcome_bind, (outcome_safety_data l); [done |]. intros _ s1 _ Hok1 _.
  apply outcome_bind, (outcome_safety_data l); [done |]. intros d s2 _ Hok2 _.
  apply outcome_bind, (outcome_waypoint l); [done |]. intros wp. by apply outcome_bind, outcome_get, outcome_ret.
Qed.

(** ** Every reachable world is well formed *)

Definition event_justified (w : world) (ev : event) : Prop :=
  match ev with
  | Voted X li => vote_justified w X li
  | TimedOut _ => True
  | CommitVoted li => commit_justified w li
  end.

(** What a run leaves: the node's invariant with the extended log, and a justified new entry *)
Definition run_post (w : world) (l : list event) (ev : option event) (s' : SafetyRules Store) : Prop :=
  node_ok (log_event ev l) s' /\
  forall ev', ev = Some ev' -> ev' ∈ l \/ (event_after l ev' /\ event_justified w ev').

Lemma run_ok w l s op :
  world_ok w -> node_ok l s -> admissible w s op -> outcome (run op) s (run_post w l) (node_ok l).
Proof.
  intros Hw Hok Hadm. destruct op as [| proof | bd | timeout tc | now vp tc | li new_li]; apply outcome_bind.
  - eapply outcome_mono; [by apply consensus_state_ok | | done]. intros ? s' Hok'. by split.
  - eapply outcome_mono; [by eapply initialize_ok | | done]. intros ? s' Hok'. by split.
  - eapply outcome_mono; [by apply sign_proposal_ok | | done]. intros ? s' Hok'. by split.
  - eapply outcome_mono; [by apply sign_timeout_ok | | done]. intros ? s' [Hok' Hafter]. split; [done |].
    intros ? [= <-]. right. by split.
  - eapply outcome_mono; [by apply sign_vote_ok | | done]. intros vote s' [Hok' Hev]. split; [done |].
    intros ? [= <-]. destruct Hev as [Hin | [Hj Ha]]; [by left | right; by split].
  - eapply outcome_mono; [by apply sign_commit_vote_ok | | done]. intros ? s' [-> Hj]. split.
    + destruct Hok as [Hc He Hd]. split; [done.. |]. destruct (stored (rules_store s)) as [d |]; simpl in *.
      * destruct Hd as [Hall Hlast]. split; [by apply Forall_record |]. intros vote Hv. apply elem_of_record. right. auto.
      * by apply Forall_record.
    + intros ? [= <-]. right. by split.
Qed.

(** The log only grows, which keeps certificates and justifications. *)
Definition log_le (w w' : world) : Prop := forall a ev, ev ∈ log w a -> ev ∈ log w' a.

Lemma certified_mono w w' X : log_le w w' -> certified w X -> certified w' X.
Proof. intros Hle (vs & Hq & Hv). exists vs. split; [done |]. intros x Hx Hh. by apply Hle, Hv. Qed.

Lemma justified_mono w w' ev : log_le w w' -> event_justified w ev -> event_justified w' ev.
Proof.
  intros Hle. destruct ev as [X li | t | li]; simpl; [| done |].
  - intros [Hli He Hr Hp Hs]. split; [done.. | |].
    + destruct Hp as [? | (Y & HY & Heq)]; [by left | right; exists Y; split; [by eapply certified_mono | done]].
    + destruct Hs as [? | (vs & ts & Hq & Hts & Hall)]; [by left | right; exists vs, ts].
      split; [done |]. split; [| done]. eapply list.Forall2_impl; [exact Hts |]. intros x t Ht Hh. by apply Hle, Ht.
  - intros (X & HX & Hc & Hrest). exists X. split; [done |]. split; [by eapply certified_mono | done].
Qed.

Lemma log_event_le ev ev' l : ev' ∈ l -> ev' ∈ log_event ev l.
Proof. destruct ev; [| done]. simpl. rewrite elem_of_record. auto. Qed.

Lemma update_log_le a s l w : (forall ev, ev ∈ log w a -> ev ∈ l) -> log_le w (update_node a s l w).
Proof. intros Hl b ev Hev. simpl. case_decide; subst; auto. Qed.

(** An update of one validator keeps the invariant when the validator's new state and the new
    entries of its log do. *)
Lemma world_ok_update w a s l :
  world_ok w -> (forall ev, ev ∈ log w a -> ev ∈ l) ->
  (honest a = true -> node_ok l s /\ ordered l /\
     forall ev, ev ∈ l -> ev ∈ log w a \/ event_justified w ev) ->
  world_ok (update_node a s l w).
Proof.
  intros Hw Hle Ha. pose proof (update_log_le a s l w Hle) as Hmono.
  assert (Hjust : forall b ev, honest b = true -> ev ∈ log (update_node a s l w) b -> event_justified (update_node a s l w) ev).
  { intros b ev Hb Hev. apply (justified_mono w); [done |].
    assert (ev ∈ log w b \/ event_justified w ev) as [Hold | Hnew].
    { simpl in Hev. case_decide; [subst b; destruct (Ha Hb) as (_ & _ & Hnew); auto | by left]. }
    - destruct ev; simpl; [by eapply wo_vote | done | by eapply wo_commit].
    - done. }
  split.
  - intros b Hb. simpl. case_decide; [subst; by apply Ha | by apply wo_node].
  - intros b X li Hb Hin. exact (Hjust b _ Hb Hin).
  - intros b li Hb Hin. exact (Hjust b _ Hb Hin).
  - intros b Hb. simpl. case_decide; [subst; by apply Ha | by apply wo_order].
Qed.

Lemma world_ok_step w w' : world_ok w -> step w w' -> world_ok w'.
Proof.
  intros Hw Hstep. destruct Hstep as [a op r self Ha Hadm Hrun | a cached | a store Hst].
  - pose proof (run_ok w (log w a) (nodes w a) op Hw (wo_node w Hw a Ha) Hadm) as Hpost.
    unfold outcome in Hpost. rewrite Hrun in Hpost.
    apply world_ok_update; [done | intros ev; apply log_event_le |]. intros _. pose proof (wo_order w Hw a Ha) as Hord.
    destruct r as [[ev |] | e |]; simpl; [| split_and!; [apply Hpost || done | done | by left] ..].
    destruct Hpost as [Hok Hev]. destruct (Hev ev eq_refl) as [Hin | [Hafter Hj]]; unfold record.
    + simpl in Hok. unfold record in Hok. rewrite decide_True in Hok |- * by done. split_and!; [done.. | by left].
    + simpl in Hok. unfold record in Hok. case_decide; [split_and!; [done.. | by left] |].
      split; [done |]. split; [by split |]. intros ev' [-> | Hin]%elem_of_cons; [by right | by left].
  - apply world_ok_update; [done.. |]. intros Ha. split_and!; [| by apply wo_order | by left].
    destruct (wo_node w Hw a Ha) as [_ _ Hdata]. by split.
  - apply world_ok_update; [done.. |]. intros Ha. split_and!; [| by apply wo_order | by left].
    pose proof (wo_node w Hw a Ha) as Hok. apply (node_ok_same _ (nodes w a)); [done | done |].
    intros d Hd. etransitivity; [exact Hst |]. by apply (node_cache _ _ Hok).
Qed.

Lemma reachable_ok w : reachable w -> world_ok w.
Proof.
  induction 1 as [w Hinit | w w' _ IH Hstep]; [| by eapply world_ok_step].
  split.
  - intros a _. destruct (Hinit a) as (-> & store & cached & -> & Hlast). split; [done.. |]. unfold rules_store. simpl.
    destruct (stored store) eqn:Hd; [| constructor]. split; [constructor |].
    intros vote Hv. by rewrite (Hlast _ eq_refl) in Hv.
  - intros a X li _ HX. destruct (Hinit a) as [Hlog _]. rewrite Hlog in HX. by apply elem_of_nil in HX.
  - intros a li _ Hli. destruct (Hinit a) as [Hlog _]. rewrite Hlog in Hli. by apply elem_of_nil in Hli.
  - intros a _. by destruct (Hinit a) as [-> _].
Qed.

(** ** Agreement *)

(** Two entries of a log: one of them was there when the other was made. *)
Lemma ordered_pair l e1 e2 :
  ordered l -> e1 ∈ l -> e2 ∈ l ->
  e1 = e2 \/ (exists l', event_after l' e1 /\ e2 ∈ l') \/ (exists l', event_after l' e2 /\ e1 ∈ l').
Proof.
  induction l as [| ev l IH]; [by intros _ ?%elem_of_nil |]. intros [Hev Hord] H1 H2.
  apply elem_of_cons in H1 as [-> | H1], H2 as [-> | H2]; eauto 6.
Qed.

Lemma certified_voter w X :
  certified w X -> exists a, honest a = true /\ Voted X (ledger_info_of X) ∈ log w a.
Proof. intros (vs & Hq & Hv). destruct (quorums_share _ _ _ Hq Hq) as (x & _ & Hx & _ & _ & Hh). eauto. Qed.

Lemma certified_justified w X : world_ok w -> certified w X -> vote_justified w X (ledger_info_of X).
Proof. intros Hw (a & Ha & HX)%certified_voter. by eapply wo_vote. Qed.

(** One block is certified per round. *)
Lemma certified_unique w X Y :
  world_ok w -> certified w X -> certified w Y ->
  bi_epoch (vd_proposed X) = bi_epoch (vd_proposed Y) -> bi_round (vd_proposed X) = bi_round (vd_proposed Y) -> X = Y.
Proof.
  intros Hw (vs & Hq & Hv) (vs' & Hq' & Hv') He Hr. rewrite <- He in Hq'.
  destruct (quorums_share _ _ _ Hq Hq') as (x & y & Hx & Hy & Heq & Hh).
  specialize (Hv x Hx Hh). assert (Hv2 := Hv' y Hy ltac:(by rewrite <- Heq)). rewrite <- Heq in Hv2.
  destruct (ordered_pair _ _ _ (wo_order w Hw _ Hh) Hv Hv2) as [[= ->] | [(l' & Hafter & Hin) | (l' & Hafter & Hin)]]; [done | |].
  - pose proof (Hafter _ (bi_round (vd_proposed Y)) Hin (eq_sym He) eq_refl). lia.
  - pose proof (Hafter _ (bi_round (vd_proposed X)) Hin He eq_refl). lia.
Qed.

(** A quorum that timed out in a round after the vote for a committing block knows its parent's
    certificate. *)
Lemma timeouts_after_commit w X Y :
  world_ok w -> certified w X -> consecutive X -> timeouts_justify w Y ->
  bi_epoch (vd_proposed X) = bi_epoch (vd_proposed Y) -> bi_round (vd_proposed X) < bi_round (vd_proposed Y) ->
  bi_round (vd_parent X) <= bi_round (vd_parent Y).
Proof.
  intros Hw (vs & Hq & Hv) Hcons (vs' & ts & Hq' & Hts & Hall) He Hr. rewrite <- He in Hq'.
  destruct (quorums_share _ _ _ Hq Hq') as (x & y & Hx & Hy & Heq & Hh). specialize (Hv x Hx Hh).
  apply list_elem_of_lookup in Hy as [i Hi]. destruct (Forall2_lookup_l _ _ _ _ _ Hts Hi) as (t & Hti & Ht).
  rewrite <- Heq in Ht. specialize (Ht Hh). rewrite list.Forall_forall in Hall.
  destruct (Hall t) as (Hte & Htr & Hth); [by eapply list_elem_of_lookup_2 |].
  destruct (ordered_pair _ _ _ (wo_order w Hw _ Hh) Hv Ht) as [Hne | [(l' & Hafter & Hin) | (l' & Hafter & Hin)]]; [done | |].
  - pose proof (Hafter _ (tsr_round t) Hin ltac:(simpl; congruence) eq_refl). lia.
  - specialize (Hafter _ _ Hin ltac:(congruence)). unfold consecutive in *. lia.
Qed.

(** Everything certified from the round of a committed block on extends it. *)
Lemma certified_extends w X :
  world_ok w -> certified w X -> consecutive X -> 1 <= bi_round (vd_parent X) ->
  forall Y, certified w Y -> bi_epoch (vd_proposed Y) = bi_epoch (vd_proposed X) ->
    bi_round (vd_parent X) <= bi_round (vd_proposed Y) -> extends w (vd_parent X) (vd_proposed Y).
Proof.
  intros Hw HX Hcons Hr1. pose proof (certified_justified w X Hw HX) as [_ HXe _ HXp _].
  assert (forall n : nat, forall Y, (bi_round (vd_proposed Y) <= Z.of_nat n) -> certified w Y ->
    bi_epoch (vd_proposed Y) = bi_epoch (vd_proposed X) -> bi_round (vd_parent X) <= bi_round (vd_proposed Y) ->
    extends w (vd_parent X) (vd_proposed Y)) as Hall.
  2:{ intros Y HY He Hle. apply (Hall (Z.to_nat (bi_round (vd_proposed Y)))); [lia | done..]. }
  induction n as [| n IH]; intros Y Hn HY He Hle; [lia |].
  pose proof (certified_justified w Y Hw HY) as [_ HYe HYr HYp HYs].
  destruct (Z.eq_dec (bi_round (vd_proposed Y)) (bi_round (vd_parent X))) as [Heq | Hne].
  { destruct HXp as [? | (Z0 & HZ & HZp)]; [lia |].
    rewrite (certified_unique w Y Z0); [rewrite HZp; constructor | done.. | congruence | congruence]. }
  assert (Hstep : bi_round (vd_parent X) <= bi_round (vd_parent Y) -> extends w (vd_parent X) (vd_proposed Y)).
  { intros Hp. apply extends_step; [done |]. destruct HYp as [? | (W & HW & HWp)]; [lia |].
    rewrite <- HWp. apply IH; [| done | |]; rewrite HWp; [lia | congruence | done]. }
  destruct (Z.eq_dec (bi_round (vd_proposed Y)) (bi_round (vd_proposed X))) as [Heq | Hne'].
  { rewrite (certified_unique w Y X); [apply extends_step; [done | constructor] | done..]. }
  apply Hstep. unfold consecutive in *. destruct HYs as [Hc | Ht]; [unfold consecutive in Hc; lia |].
  apply (timeouts_after_commit w X Y); [done.. | lia].
Qed.

(** A certificate that commits a block after the epoch's first one *)
Lemma qc_commits w e qc :
  world_ok w -> unforged_qc w qc -> QuorumCert.verify qc (validators e) = Ok tt ->
  bi_epoch (QuorumCert.commit_info qc) = e -> 1 <= bi_round (QuorumCert.commit_info qc) ->
  exists X, commits w X (QuorumCert.commit_info qc) /\ bi_epoch (vd_proposed X) = e.
Proof.
  intros Hw Hunf [Hhash [[Hr Heq] | [Hr Hsig]]]%qc_verify_cases He Hround; [rewrite <- Heq in Hround; lia |].
  unfold QuorumCert.commit_info, QuorumCert.ledger_info in *.
  assert (Hne : li_commit_info (liws_ledger_info (qc_signed_ledger_info qc)) <> BlockInfo.empty).
  { intros Hempty. rewrite Hempty in Hround. simpl in Hround. lia. }
  destruct (signatures_certify w e (qc_signed_ledger_info qc) Hw Hunf Hsig) as (X & HX & Hc & HXe & Hcommit).
  { intros X Hli HXe. rewrite Hli in Hne, He. destruct (ledger_info_of_committed X Hne) as [_ Hp]. rewrite Hp in He. congruence. }
  exists X. destruct Hcommit as [Hli | Hcommits].
  - rewrite Hli in Hne, He |- *. destruct (ledger_info_of_committed X Hne) as [Hcons Hp]. rewrite Hp in He |- *.
    split; [exact (conj Hc (conj Hcons (conj (conj eq_refl (conj eq_refl eq_refl)) HXe))) | congruence].
  - split; [done |]. destruct Hcommits as (_ & _ & (Hse & _) & _). congruence.
Qed.

Lemma extends_round w a b : world_ok w -> extends w a b -> a = b \/ bi_round a < bi_round b.
Proof.
  intros Hw. induction 1 as [| X HX _ IH]; [by left |]. right.
  pose proof (vj_round _ _ _ (certified_justified w X Hw HX)). destruct IH as [-> |]; lia.
Qed.

(** The earlier of two committed blocks is an ancestor of the later one. *)
Lemma commits_extend w X1 X2 c1 c2 :
  world_ok w -> commits w X1 c1 -> commits w X2 c2 -> bi_epoch (vd_proposed X1) = bi_epoch (vd_proposed X2) ->
  1 <= bi_round c1 <= bi_round c2 -> extends w (vd_parent X1) (vd_parent X2).
Proof.
  intros Hw (HX1 & Hc1 & (_ & Hr1 & _) & _) (HX2 & _ & (_ & Hr2 & _) & He2) He Hr.
  destruct (vj_parent _ _ _ (certified_justified w X2 Hw HX2)) as [? | (Y & HY & HYp)]; [lia |].
  rewrite <- HYp. apply certified_extends; [done.. | lia | done | |]; rewrite HYp; [congruence | lia].
Qed.

End agreement.
