(* ===== verification/AgreementSample.v ===== *)
(** * A run of consensus

    A world in which the agreement theorem applies: one validator with its storage in memory
    initializes, votes for the blocks of rounds 1, 2 and 3, and the certificates of the last two
    commit the first two. The hash of vote data is a numbering of them, so that it is injective;
    the other primitives are constants. *)

From stdpp Require Import gmap countable.
From S2P Require Import Prelude Word Position Validators LedgerTypes Accumulator ConsensusTypes SafetyRules Agreement.
Local Open Scope Z_scope.

Definition info_tuple (x : ValidatorConsensusInfo) : Z * Z * Z := (vci_address x, vci_public_key x, vci_voting_power x).

Definition verifier_tuple (v : ValidatorVerifier) : list (Z * Z * Z) * Z * Z * gmap Z nat :=
  (map info_tuple (validator_infos v), quorum_voting_power v, total_voting_power v, address_to_validator_index v).

Definition block_tuple (b : BlockInfo) :=
  (bi_epoch b, bi_round b, bi_id b, bi_executed_state_id b, bi_version b, bi_timestamp_usecs b,
   (fun e => (es_epoch e, verifier_tuple (es_verifier e))) <$> bi_next_epoch_state b).

Definition vote_hash : CryptoHash VoteData := fun X => Zpos (encode (block_tuple (vd_proposed X), block_tuple (vd_parent X))).

Lemma info_tuple_inj x y : info_tuple x = info_tuple y -> x = y.
Proof. destruct x, y. intros [= -> -> ->]. done. Qed.

Lemma verifier_tuple_inj v v' : verifier_tuple v = verifier_tuple v' -> v = v'.
Proof.
  destruct v as [i q t m], v' as [i' q' t' m']. intros [= Hi -> -> ->]. f_equal.
  revert i' Hi. induction i as [| x i IH]; intros [| y i'] Hi; simplify_eq/=; [done |].
  f_equal; [apply info_tuple_inj; unfold info_tuple; congruence | auto].
Qed.

Lemma block_tuple_inj b b' : block_tuple b = block_tuple b' -> b = b'.
Proof.
  destruct b as [? ? ? ? ? ? n], b' as [? ? ? ? ? ? n']. intros [= -> -> -> -> -> -> Hn]. f_equal.
  destruct n as [[e v] |], n' as [[e' v'] |]; simplify_eq/=; [| done].
  do 2 f_equal. apply verifier_tuple_inj. unfold verifier_tuple. congruence.
Qed.

Lemma vote_hash_injective X Y : @crypto_hash VoteData vote_hash X = @crypto_hash VoteData vote_hash Y -> X = Y.
Proof.
  destruct X, Y. unfold crypto_hash, vote_hash. intros [= Henc]. apply (inj encode) in Henc.
  injection Henc. clear Henc. intros. f_equal; apply block_tuple_inj; unfold block_tuple; congruence.
Qed.

#[local] Existing Instance vote_hash.
#[local] Instance block_hash : CryptoHash BlockData := fun bd => 100 + bd_round bd.
#[local] Instance waypoint_hash : CryptoHash Ledger2WaypointConverter := fun _ => 0.
#[local] Instance hasher : MerkleHasher := fun a b => a + b.
#[local] Instance ledger_message : Signable LedgerInfo unit := fun _ => tt.
#[local] Instance timeout_message : Signable TimeoutSigningRepr unit := fun _ => tt.
#[local] Instance block_message : Signable BlockData unit := fun _ => tt.

#[local] Instance bls : Bls unit := {|
  bls_sign := fun _ _ => Some 9; bls_public_key := fun _ => 7; bls_verify := fun _ _ _ => true;
  bls_aggregate_signatures := fun _ => Some 9; bls_aggregate_keys := fun _ => Some 7;
  bls_verify_aggregate := fun _ _ _ => true |}.

Definition memory : Type := SafetyData * Waypoint.

#[local] Instance storage : SecureStorage memory := {|
  get_owner_account := fun _ => Ok 1; get_consensus_key := fun _ => Ok 5;
  get_waypoint := fun s => Ok s.2; get_safety_data := fun s => Ok s.1;
  get_safety_data_result := fun _ => Err StorageSerializationError;
  put_safety_data := fun s d => (Ok tt, (d, s.2)); put_waypoint := fun s wp => (Ok tt, (s.1, wp)) |}.

#[local] Instance storage_laws : SecureStorageLaws memory.
Proof.
  refine {| stored := fun s : memory => Some s.1 |}; simpl; naive_solver.
Defined.

Definition validator : ValidatorConsensusInfo := {| vci_address := 1; vci_public_key := 7; vci_voting_power := 1 |}.
Definition verifier : ValidatorVerifier := ValidatorVerifier.build_index [validator] 1 1.
Definition validators (_ : Z) : ValidatorVerifier := verifier.
Definition honest (_ : Author) : bool := true.

Lemma verifier_wf e : wf_verifier (validators e).
Proof.
  split; [by vm_compute | repeat constructor; set_solver | by repeat constructor | done | by vm_compute].
Qed.

Lemma third e :
  3 * power (fun a => negb (honest a)) (validator_infos (validators e)) <= total_voting_power (validators e).
Proof. by vm_compute. Qed.

(** ** Blocks and certificates *)

Definition genesis_info : BlockInfo :=
  {| bi_epoch := 1; bi_round := 0; bi_id := 50; bi_executed_state_id := 0; bi_version := 0;
     bi_timestamp_usecs := 0; bi_next_epoch_state := None |}.

Definition certificate (X : VoteData) (li : LedgerInfo) (bitmask : BitVec.t) (sig : option Signature) : QuorumCert :=
  {| qc_vote_data := X;
     qc_signed_ledger_info :=
       {| liws_ledger_info := li; liws_signatures := {| validator_bitmask := bitmask; agg_sig := sig |} |} |}.

Definition genesis_data : VoteData := {| vd_proposed := genesis_info; vd_parent := genesis_info |}.

Definition genesis_qc : QuorumCert :=
  certificate genesis_data {| li_commit_info := genesis_info; li_consensus_data_hash := crypto_hash genesis_data |} [0] None.

(** The proposal of a round on top of a certificate *)
Definition proposal (round : Round) (qc : QuorumCert) : VoteProposal :=
  let bd := BlockData.new_proposal (DirectMempool []) 1 [] round (10 * round) qc in
  {| vp_accumulator_extension_proof :=
       {| aep_frozen_subtree_roots := []; aep_num_leaves := 0; aep_leaves := [] |};
     vp_block := Block.new_proposal_from_block_data_and_signature bd 9;
     vp_next_epoch_state := None;
     vp_decoupled_execution := true |}.

(** The certificate of its votes *)
Definition next_qc (vp : VoteProposal) : QuorumCert :=
  let X := VoteProposal.vote_data_ordering_only vp in certificate X (ledger_info_of X) [128] (Some 9).

Definition vp1 : VoteProposal := proposal 1 genesis_qc.
Definition vp2 : VoteProposal := proposal 2 (next_qc vp1).
Definition vp3 : VoteProposal := proposal 3 (next_qc vp2).

Definition first_ledger_info : LedgerInfo :=
  {| li_commit_info :=
       {| bi_epoch := 0; bi_round := 0; bi_id := 0; bi_executed_state_id := 0; bi_version := 0;
          bi_timestamp_usecs := 0; bi_next_epoch_state := Some {| es_epoch := 1; es_verifier := verifier |} |};
     li_consensus_data_hash := 0 |}.

Definition first_proof : EpochChangeProof :=
  {| ledger_info_with_sigs := [{| liws_ledger_info := first_ledger_info; liws_signatures := AggregateSignature.empty |}];
     ecp_more := false |}.

(** ** The steps *)

Definition first_memory : memory :=
  ({| sd_epoch := 1; sd_last_voted_round := 0; sd_preferred_round := 0; sd_one_chain_round := 0; sd_last_vote := None |},
   Waypoint_new_any first_ledger_info).

Definition w0 : @world memory :=
  {| nodes := fun _ => SafetyRules_new (PersistentSafetyStorage_new first_memory true); log := fun _ => [] |}.

(** Validator 1 runs an operation. *)
Definition replay (op : operation) (w : @world memory) : world :=
  let '(r, self) := run op (nodes w 1) in
  update_node 1 self (log_event (match r with Ok ev => ev | _ => None end) (log w 1)) w.

Definition w1 : world := replay (OpInitialize first_proof) w0.
Definition w2 : world := replay (OpSignVote 1000 vp1 None) w1.
Definition w3 : world := replay (OpSignVote 1000 vp2 None) w2.
Definition w4 : world := replay (OpSignVote 1000 vp3 None) w3.

Lemma exec_reachable op w :
  reachable validators honest w -> admissible validators honest w (nodes w 1) op -> reachable validators honest (replay op w).
Proof.
  intros Hw Hadm. eapply reachable_step; [exact Hw |]. unfold replay. destruct (run op (nodes w 1)) as [r self] eqn:Hrun.
  by apply (StepRun validators honest w 1 op r self).
Qed.

Lemma epoch_change_last proof v li :
  EpochChangeProof_verify proof v = Ok li -> list.last (ledger_info_with_sigs proof) = Some li.
Proof.
  unfold EpochChangeProof_verify. intros (_ & _ & Hok)%result_bind_Ok. apply result_bind_Ok in Hok as (l & Hlast & Hok).
  apply result_bind_Ok in Hok as (_ & _ & Hok). apply result_bind_Ok in Hok as (_ & _ & [= <-]).
  by destruct (list.last _); simplify_eq/=.
Qed.

(** The only validator has signed the certificate of the votes of [vp]. *)
Lemma next_qc_unforged (w : @world memory) vp :
  Voted (VoteProposal.vote_data_ordering_only vp) (ledger_info_of (VoteProposal.vote_data_ordering_only vp)) ∈ log w 1 ->
  unforged_qc validators honest w (next_qc vp).
Proof.
  intros Hin e vs _ Hvs x Hx _. vm_compute in Hvs. injection Hvs as <-. apply list_elem_of_singleton in Hx as ->.
  left. exists (VoteProposal.vote_data_ordering_only vp). exact Hin.
Qed.

Lemma genesis_qc_unforged (w : @world memory) : unforged_qc validators honest w genesis_qc.
Proof. intros e vs Hver. vm_compute in Hver. done. Qed.

Definition voted_in (w : @world memory) (vp : VoteProposal) : bool :=
  bool_decide (Voted (VoteProposal.vote_data_ordering_only vp) (ledger_info_of (VoteProposal.vote_data_ordering_only vp)) ∈ log w 1).

Lemma votes_logged : voted_in w2 vp1 = true /\ voted_in w3 vp2 = true /\ voted_in w4 vp2 = true /\ voted_in w4 vp3 = true.
Proof. vm_compute. done. Qed.

Lemma sample_logged w vp : voted_in w vp = true ->
  Voted (VoteProposal.vote_data_ordering_only vp) (ledger_info_of (VoteProposal.vote_data_ordering_only vp)) ∈ log w 1.
Proof. apply bool_decide_eq_true_1. Qed.

Lemma w4_reachable : reachable validators honest w4.
Proof.
  destruct votes_logged as (H1 & H2 & _).
  apply exec_reachable; [apply exec_reachable; [apply exec_reachable; [apply exec_reachable |] |] |].
  - apply reachable_initial. intros a. split; [done |]. exists first_memory, true. split; [done |]. by intros d [= <-].
  - intros wp li e Hli He. apply epoch_change_last in Hli. injection Hli as <-. injection He as <-. done.
  - split; [apply genesis_qc_unforged | done].
  - split; [by apply (next_qc_unforged w2 vp1), sample_logged | done].
  - split; [by apply (next_qc_unforged w3 vp2), sample_logged | done].
Qed.

Lemma qcs_verify :
  QuorumCert.verify (next_qc vp2) verifier = Ok tt /\ QuorumCert.verify (next_qc vp3) verifier = Ok tt.
Proof. split; vm_compute; reflexivity. Qed.

